(* ===== verification/_CoqProject ===== *)
-Q . S2P
Prelude.v
CString.v
Dictionary.v
IniParser.v
IniLoad.v
IniRoundTrip.v
IniErrors.v
CArray.v
Expr.v
ExprParse.v
ExprPrint.v
ExprEval.v
Float32.v
DspIni.v
DspGraph.v
DspConnect.v
DspUtil.v
Pipeline.v
PipelineRun.v
PipelineSort.v
PipelineTopo.v
PipelineCreate.v
Biquad.v
Eq.v
Crossover.v
CrossoverBands.v
DrcMath.v
DrcKernel.v
DrcLookahead.v
DrcRefine.v
DrcBand.v
DrcInterface.v
Drc.v
DrcBlocks.v
DrcWhole.v
ModBuiltin.v
PipelineBuffers.v
PipelineSamples.v
FlashDevice.v
Vboot.v
NorFlash.v
VbnvStore.v
Crc8.v
FlashMap.v
FlashMtd.v
FlashEc.v
FlashSamples.v
SoundTrigger.v
SoundTriggerSteps.v
SoundTriggerSafety.v
SoundTriggerSamples.v
CrasDsp.v
AudioDefs.v
AudioDevices.v
AudioStreams.v
AudioData.v
AudioHw.v
AudioBook.v
AudioInv.v
AudioSelect.v
AudioFrame.v
AudioOut.v
AudioWrite.v
AudioIn.v
AudioInRun.v
AudioSafe.v
AudioClient.v
AudioRead.v
AudioReading.v
AudioSafety.v
AudioSizes.v
AudioDsp.v
AudioSamples.v
SeparateRects.v
Planner.v
Composition.v
CompositionPlan.v
Compositor.v
CompositorSafety.v
CompositorRuns.v
