(* ===== verification/Prelude.v ===== *)
(** * Verification of the C code of the "dragon" device tree

    The device tree of the Pixel C ("dragon") holds, besides configuration, the
    sources of its hardware abstraction layers and of its firmware updater.
    This development models C code of src/audio/hal (the audio HAL, and its dsp:
    configuration, pipelines of modules, filters, compressor), of
    src/audio/soundtrigger (the hotword detector) and of src/recovery/updater
    (flash devices and the verified boot interface), and C++ code of
    src/drm_hwcomposer (what is shown on which plane, and when), and proves what makes it
    correct, or shows how it fails.

    ** Conventions

    A function of the source is a definition of the same name (a loop is a
    definition of its own).  State is passed and returned: struct types are
    records, pointers into arrays that keep their order are indices, memory
    that is aliased is a map from locations.  The result is an [outcome]:
    [Done] with the C result, where error codes are ordinary values; [Fault]
    for what the C standard leaves undefined; [Timeout] when the fuel of a loop
    ran out, and theorems show for which fuel it does not; where threads are
    modelled a step that cannot be taken yet is a [Timeout] too.  Integers are [Z]
    wrapped to their width ([u32], [s32], ...) where the code can reach it,
    [nat] where the code keeps them within bounds, which is said where it is
    done.  Floats are the binary32 and binary64 numbers of the Standard
    Library's specification, each operation rounded (no fused operations).
    What is not in src/ is a class: allocation is a function from sizes to
    booleans where the code tests it, libm and strtof, the modules of a
    pipeline, system calls, the ioctl of the controller, tinyalsa.  Where the
    classes have laws (NOR flash, the MTD and EC drivers) a concrete instance
    in a file of samples satisfies them.

    ** Parts, files and theorems

    - Prelude: outcomes, machine integers, lists.  CString: the functions of
      the C library on strings.  Float32: float and double.
    - The dictionary, audio/hal/dictionary.c: Dictionary.  The three arrays
      refine a finite map from strings, operation by operation, when memory is not
      short ([dictionary_refines_map]).  The sizes are ints, whose doubling
      overflows beyond 2^27 entries; the theorem stays below.  What an allocation
      failure does: [dictionary_set_out_of_memory], [dictionary_set_lost_key].
    - The ini files, audio/hal/iniparser.c: IniParser (all functions), IniLoad
      (the invariant of the loop that reads a file), IniRoundTrip (a dictionary
      dumped and loaded is the same map, [ini_dump_load]), IniErrors (loading a
      file never runs for ever, and gives a usable dictionary for the files that
      it says, [iniparser_load_total]; syntax errors that are forgotten, blank
      lines and keys that are too long, on which the code is undefined).
    - The arrays of audio/hal/array.h: CArray, a refinement of lists.
    - The expressions of audio/hal/cras_expr.c: Expr (values, environments,
      parser, evaluator), ExprParse (the parser ends; the fuel is the length of
      the text), ExprPrint (printing and parsing back), ExprEval (environments
      refine maps, the builtin functions are those of Scheme, the text of a
      formula evaluates to its truth value; typed expressions
      evaluate to values of their types).
    - The static graph, audio/hal/cras_dsp_ini.c: DspIni, DspGraph, DspConnect:
      what is read from a file is well formed and connects the ports that name
      the same flow.
    - The pipelines, audio/hal/cras_dsp_pipeline.c: Pipeline and PipelineRun
      (creation, loading, instantiation, running, freeing), PipelineSort and
      PipelineTopo (the depth-first sort), PipelineCreate (the instances are in
      topological order and connected to the enabled origin of their data),
      PipelineBuffers (no module writes a buffer that is still to be read),
      PipelineSamples (graphs on which the construction faults or diverges).
      The fuel of find_origin_port is the number of plugins, of the sort the
      number of ports; both suffice for well-formed graphs.
    - The modules: DspUtil (interleaving, dsp/dsp_util.c), Biquad
      (dsp/biquad.c), Eq (dsp/eq.c and eq2.c: the unrolled loops compute what
      the prototype does, the stereo one on each channel), Crossover and
      CrossoverBands (dsp/crossover.c and crossover2.c: the three bands of the
      diagram in crossover.h), ModBuiltin (cras_dsp_mod_builtin.c, the instance
      of the modules the pipelines run; it uses the compressor through the
      class of DrcInterface).
    - The compressor: DrcMath (dsp/drc_math.h), DrcKernel (dsp/drc_kernel.c),
      DrcLookahead, DrcRefine, DrcBand (a kernel is a look-ahead
      compressor: the ring buffers hold a queue, each sample leaves it delayed
      and multiplied by one gain, for blocks of any lengths, within the bounds
      of the arrays), Drc (dsp/drc.c, the instance of DrcInterface), DrcBlocks
      and DrcWhole (the output of the whole compressor does not depend on how
      the signal is divided into blocks).
    - The contexts, audio/hal/cras_dsp.c: CrasDsp.  Every
      context has the pipeline that its purpose and variables select in the
      current ini file, or none ([dsp_contexts_current]).
    - The audio HAL, audio/hal/audio_hw.c and audio_hw.h.  The code: AudioDefs
      (structures, tables, the state and its monad, the book of what tinyalsa
      and audio_route were asked for), AudioDevices (mixers, use cases, the
      choice, counting and selection of sound devices), AudioStreams (starting,
      stopping and routing streams, effects, the voice call), AudioData (reading
      and writing samples), AudioHw (the entry points of the device and of its
      streams).  The theorems: AudioBook (a calculus of weakest preconditions;
      the counters and the mixer paths), AudioInv (the invariant of streams, use
      cases and resources), AudioSelect, AudioFrame, AudioOut, AudioWrite,
      AudioIn, AudioInRun, AudioSafe, AudioClient, AudioRead, AudioReading (each operation keeps it; a write puts
      one buffer into the PCM, [write_delivers]; an input without resampler is a
      queue of samples, [read_frames_gives]), AudioSafety (sequences of legal
      calls after adev_open: no call is undefined and every call returns,
      [legal_calls_return]; the counters are those of the use cases,
      [devices_counted]; an open PCM has one owner, [open_pcms_owned]; when all
      streams are in standby nothing is left, [standby_leaves_nothing]),
      AudioSizes (sizes of buffers), AudioDsp (CrasDsp as the dsp behind it),
      AudioSamples (runs; what calls do that are not legal).  [legal] says which
      calls are meant; these theorems have the hypotheses [resamplers_ok] and
      [memory_ok], that a resampler and a PCM can be allocated, since a failed
      resampler leaks ([resampler_failure_leaks]).  select_devices calls itself for the use case of the
      active input, once: the fuel is 6, the number of use cases, and 2 is
      enough; a read of n bytes takes at most n turns, which is its fuel.  What
      is done between taking and releasing the locks of the device is done at
      once, and the calls of the clients come one after the other.  The theorems
      leave out the mode of a voice call (where an output stream is read as an
      input stream), and inputs with resamplers and effects, whose code is
      modelled but is not read further than their interfaces say.
    - Flash, src/recovery/updater: FlashDevice (flash_device.c and the flash
      map functions of vboot_interface.c), Vboot (the rest of
      vboot_interface.c), NorFlash (the contract of a NOR flash, as a class
      over the operations of a device), VbnvStore (a flag of the verified boot
      NVRAM that was set reads back, the others are kept), Crc8 (crc8 is the
      CRC of its polynomial and detects errors in one byte), FlashMap (whatever
      fails, reading a section through the map gives nothing or the section, and
      the section when memory and the driver do not fail); FlashMtd (flash_mtd.c over the
      system calls: reads and writes inside the device end and are exact, reads
      across its end never return); FlashEc (flash_ec.c over the ioctl: what a
      write does when a packet fails); FlashSamples.  FlashMtd and FlashEc are
      instances of NorFlash, so that VbnvStore and FlashMap hold of both.
    - The hotword detector, audio/soundtrigger/sound_trigger_hw.c: SoundTrigger
      (entry points and callback thread), SoundTriggerSteps (their interleaved
      steps), SoundTriggerSafety (for clients that keep the discipline stated
      there the device never closes what is not open nor loses what is, and a
      call that stops a recognition returns), SoundTriggerSamples (what other
      clients can bring about).  What a party does under the lock is one step;
      pthread_create and pthread_mutex_lock are taken to succeed; what tinyalsa
      and poll answer is an input of the steps.

    - The hardware composer, drm_hwcomposer, from the rectangles up.
      SeparateRects (separate_rects.cpp): the sweep divides up to 64 rectangles
      into ones that do not overlap ([separate_rects_partition]).  Planner
      (platform.cpp, the stages of platformnv.cpp): which plane of the hardware
      shows which layer ([provision_planes_plan]).  Composition: SquashState of
      drmdisplaycompositor.cpp (the regions that did not change for six frames)
      and drmdisplaycomposition.cpp (a frame: its plan, the regions to be
      composed, the release fences).  CompositionPlan: a layer is shown at each
      of its pixels, by a plane of its own, a region of the composition or one
      of the squashed frame, and what can hide it ([plan_shows_every_layer]);
      which layers the regions hold at a pixel ([separate_layers_pixels]); what
      truncation loses ([truncated_rects_lose_composition]); when a region is
      squashed ([squash_stable_regions]); the three points at which release
      fences are signalled ([fences_released_in_order]).  The loops are
      structural; sw_sync and the order of a set of pointers are a class.

      Compositor (drmdisplaycompositor.cpp, drmframebuffer.h and
      drmcompositorworker.cpp): frames on their way to the screen, from the
      client's queue through the worker that renders, squashes and tests them to
      the frame worker that commits them; libdrm, the import of buffers and
      OpenGL are a class with a state of its own.  A composition is an address in
      a heap; what a thread does under the lock, or between two waits, is one step
      of a machine, and the steps interleave freely.  CompositorSafety: a calculus
      of weakest preconditions, and the invariant: a composition is in one place at
      the most, else all its fences are signalled; the framebuffers of the frames
      that wait or are shown have fences that are not.  CompositorRuns: every step
      keeps it, whatever the libraries answer, when the client's frames are as Plan
      leaves them ([client_ok]), sets are iterated in some order of their elements
      and modes and buffers are less than 65536 pixels wide and high ([sizes_ok]).
      So nothing is undefined but two null pointers, where [faults] says
      ([legal_actions_never_fault]); no framebuffer in use is rendered into, if no
      release fence has the descriptor 0 ([fences_made], [framebuffers_kept]); and
      the frames that wait are always taken, which leaves no fence behind if
      increments of timelines work ([increments_work], [frames_drain]).  What goes
      wrong, from every state where it can: the result of SquashAll replaces a frame
      shown later ([squashed_frame_is_stale]), a request that could not be built
      counts as a modeset that was done ([failed_request_ends_modeset]), and a
      frame that fails can make the worker wait for ever ([failed_frames_hang]);
      a schedule from the start is the witness of each.

    ** Not modelled

    The assembly versions (NEON, SSE3) of loops that have portable code; writing
    to the log; the dump functions for debugging; freeing memory where nothing
    can be observed of it; the denormal control word of dsp_util.c; in the audio
    HAL the order in which threads take its locks.  Of the hardware composer what
    the two workers do at once outside the lock (their steps are atomic), the
    destructor of the compositor, the entry points of hwcomposer.cpp, the virtual
    display, the enumeration of DRM resources, the OpenGL composition, the
    importers of buffers and separate_rects for float.  The debug commands of
    the updater (recovery/updater/debug_ec.c) are glue that sends EC commands.
    The rest of the C++ code (sensor_hub, bluetooth, the updater's shell), the
    Java parts and the configuration are outside. *)

From Stdlib Require Export Ascii ZArith Lia Bool.
From stdpp Require Export base gmap strings list numbers option.

(** Appending strings computes on the first one. *)
#[global] Arguments String.append : simpl nomatch.

(** ** Outcomes of C computations

    [Done a]: the C code runs to its end and returns [a] (C error codes are
    ordinary values of [a]).  [Fault]: the code performs an access the C
    standard leaves undefined (a null dereference, an access outside an
    array).  [Timeout]: the fuel of the model ran out; a loop whose model
    never times out for a suitable fuel terminates. *)
Inductive outcome (A : Type) : Type :=
| Done (a : A)
| Fault
| Timeout.

Arguments Done {A} _.
Arguments Fault {A}.
Arguments Timeout {A}.

#[export] Instance outcome_ret : MRet outcome := @Done.

#[export] Instance outcome_bind : MBind outcome :=
  fun A B f m => match m with Done a => f a | Fault => Fault | Timeout => Timeout end.

#[export] Instance outcome_fmap : FMap outcome :=
  fun A B f m => match m with Done a => Done (f a) | Fault => Fault | Timeout => Timeout end.

#[export] Instance outcome_eq_dec `{EqDecision A} : EqDecision (outcome A).
Proof. solve_decision. Defined.

(** An access that is undefined when it yields nothing. *)
Definition access {A} (o : option A) : outcome A :=
  match o with Some a => Done a | None => Fault end.

(** The value of an outcome, when there is one. *)
Definition outcome_value {A} (m : outcome A) : option A :=
  match m with Done a => Some a | _ => None end.

Lemma bind_Done {A B} (m : outcome A) (f : A -> outcome B) b :
  (m ≫= f) = Done b <-> exists a, m = Done a /\ f a = Done b.
Proof.
  split.
  - destruct m as [a| |]; cbn; [eauto | discriminate | discriminate].
  - intros (a & -> & H). exact H.
Qed.

Lemma bind_Done_eq {A B} (a : A) (f : A -> outcome B) : (Done a ≫= f) = f a.
Proof. done. Qed.

Lemma access_Done {A} (o : option A) a : access o = Done a <-> o = Some a.
Proof. destruct o; cbn; split; congruence. Qed.

(** Invert every bind that is known to be [Done]. *)
Ltac outcome_inv :=
  repeat match goal with
  | H : (_ ≫= _) = Done _ |- _ =>
      let a := fresh "a" in let E := fresh "E" in
      apply bind_Done in H; destruct H as (a & E & H)
  | H : access _ = Done _ |- _ => apply access_Done in H
  | H : Done _ = Done _ |- _ => injection H; clear H; intros; subst
  | H : mret _ = Done _ |- _ => injection H; clear H; intros; subst
  | H : Fault = Done _ |- _ => discriminate H
  | H : Timeout = Done _ |- _ => discriminate H
  end.

(** ** Machine integers: a w-bit integer is a [Z] wrapped to its width *)

Definition wrap (w : Z) (z : Z) : Z := z mod 2 ^ w.
Definition swrap (w : Z) (z : Z) : Z := (z + 2 ^ (w - 1)) mod 2 ^ w - 2 ^ (w - 1).

Abbreviation u8 := (wrap 8).
Abbreviation u16 := (wrap 16).
Abbreviation u32 := (wrap 32).
Abbreviation u64 := (wrap 64).
Abbreviation s32 := (swrap 32).
Abbreviation s64 := (swrap 64).

Lemma wrap_range w z : (0 <= w)%Z -> (0 <= wrap w z < 2 ^ w)%Z.
Proof. intros Hw. apply Z.mod_pos_bound. lia. Qed.

Lemma wrap_small w z : (0 <= z < 2 ^ w)%Z -> wrap w z = z.
Proof. apply Z.mod_small. Qed.

Lemma swrap_range w z : (0 < w)%Z -> (- 2 ^ (w - 1) <= swrap w z < 2 ^ (w - 1))%Z.
Proof.
  intros Hw. unfold swrap.
  assert (2 ^ w = 2 * 2 ^ (w - 1))%Z as E.
  { rewrite <- Z.pow_succ_r by lia. f_equal. lia. }
  pose proof (Z.mod_pos_bound (z + 2 ^ (w - 1)) (2 ^ w)) as B. lia.
Qed.

Lemma swrap_small w z :
  (0 < w)%Z -> (- 2 ^ (w - 1) <= z < 2 ^ (w - 1))%Z -> swrap w z = z.
Proof.
  intros Hw Hz. unfold swrap.
  assert (2 ^ w = 2 * 2 ^ (w - 1))%Z as E.
  { rewrite <- Z.pow_succ_r by lia. f_equal. lia. }
  rewrite Z.mod_small; lia.
Qed.

(** ** Searching a list: the index of the first element with a property *)

Section FindIdx.
Context {A : Type} (p : A -> bool).

Fixpoint find_idx (l : list A) : option nat :=
  match l with
  | [] => None
  | x :: l => if p x then Some 0 else S <$> find_idx l
  end.

Lemma find_idx_Some l i :
  find_idx l = Some i <->
  (exists x, l !! i = Some x /\ p x = true) /\
  (forall j y, j < i -> l !! j = Some y -> p y = false).
Proof.
  revert i. induction l as [|x l IH]; intros i; cbn.
  { split; [discriminate | intros ((y & Hy & _) & _); discriminate]. }
  destruct (p x) eqn:Ex.
  - split.
    + injection 1 as <-. split; [exists x; auto | intros j y Hj; lia].
    + intros (_ & Hmin). destruct i as [|i]; [done|].
      pose proof (Hmin 0 x ltac:(lia) eq_refl). congruence.
  - destruct i as [|i].
    + split.
      * destruct (find_idx l); discriminate.
      * intros ((y & Hy & Hp) & _). cbn in Hy. congruence.
    + rewrite fmap_Some. split.
      * intros (j & Hj & [= ->]). apply IH in Hj as [Hx Hmin].
        split; [exact Hx|]. intros [|k] y Hk Hy; cbn in Hy; [congruence|].
        apply (Hmin k y); [lia | done].
      * intros [Hx Hmin]. exists i. split; [|done]. apply IH. split; [done|].
        intros k y Hk Hy. apply (Hmin (S k) y); [lia | done].
Qed.

Lemma find_idx_None l :
  find_idx l = None <-> forall x, x ∈ l -> p x = false.
Proof.
  induction l as [|x l IH]; cbn.
  { split; [intros _ x Hx; inversion Hx | done]. }
  destruct (p x) eqn:Ex.
  - split; [discriminate | intros H; rewrite (H x) in Ex; [discriminate | left]].
  - rewrite fmap_None, IH. split.
    + intros H y [->|Hy]%elem_of_cons; auto.
    + intros H y Hy. apply H. by right.
Qed.

Lemma find_idx_lt l i : find_idx l = Some i -> i < length l.
Proof. intros [(x & Hx & _) _]%find_idx_Some. by eapply lookup_lt_Some. Qed.
End FindIdx.

(** ** Lemmas on lists used by several components *)

Lemma replicate_lookup_None {A} (x : A) n i y : replicate n x !! i = Some y -> y = x.
Proof. by intros [-> _]%lookup_replicate. Qed.

Lemma lookup_insert_cases {A} (l : list A) i j x y :
  <[i:=x]> l !! j = Some y ->
  (i = j /\ y = x /\ j < length l) \/ (i <> j /\ l !! j = Some y).
Proof.
  intros H. apply list_lookup_insert_Some in H as [(-> & -> & Hlt)|[Hne H]]; auto.
Qed.

(** The number of elements of a list with a property. *)
Fixpoint count {A} (p : A -> bool) (l : list A) : nat :=
  match l with
  | [] => 0
  | x :: l => (if p x then 1 else 0) + count p l
  end.

Lemma count_app {A} (p : A -> bool) l1 l2 : count p (l1 ++ l2) = count p l1 + count p l2.
Proof. induction l1 as [|x l1 IH]; cbn; [done | rewrite IH; lia]. Qed.

Lemma count_le {A} (p : A -> bool) l : count p l <= length l.
Proof. induction l as [|x l IH]; cbn; [done | destruct (p x); lia]. Qed.

Lemma count_full {A} (p : A -> bool) l x :
  count p l = length l -> x ∈ l -> p x = true.
Proof.
  induction l as [|y l IH]; cbn; [intros _ H; inversion H|].
  intros Hc [->|Hx]%elem_of_cons; pose proof (count_le p l).
  - clear IH. destruct (p y); [done | exfalso]. lia.
  - apply IH; [destruct (p y); lia | done].
Qed.

Lemma count_lt {A} (p : A -> bool) l :
  count p l < length l -> exists i x, l !! i = Some x /\ p x = false.
Proof.
  induction l as [|y l IH]; cbn; [lia|]. destruct (p y) eqn:E.
  - intros H. destruct IH as (i & x & Hx & Hp); [lia|]. by exists (S i), x.
  - intros _. by exists 0, y.
Qed.

Lemma count_insert {A} (p : A -> bool) l i x y :
  l !! i = Some y ->
  count p (<[i:=x]> l) + (if p y then 1 else 0) = count p l + (if p x then 1 else 0).
Proof.
  revert i. induction l as [|z l IH]; intros [|i] H; try discriminate.
  - injection H as ->. cbn. lia.
  - change (<[S i:=x]> (z :: l)) with (z :: <[i:=x]> l). cbn [count].
    specialize (IH i H). lia.
Qed.

Lemma count_replicate {A} (p : A -> bool) n x :
  count p (replicate n x) = if p x then n else 0.
Proof. induction n as [|n IH]; cbn; [by destruct (p x) | rewrite IH; destruct (p x); lia]. Qed.

(** ** Hints of the development *)

Create HintDb dragon.
#[export] Hint Resolve find_idx_lt count_le wrap_range swrap_range : dragon.
Create Rewrite HintDb dragon_len.
#[export] Hint Rewrite @length_insert @length_replicate @length_app @length_map : dragon_len.
