(* ===== verification/CString.v ===== *)
(** * CString: the parts of the C library the parsers use on strings

    A C string is a [string] without NUL characters (its bytes up to the
    terminator); the functions are those of the "C" locale.  [sscanf] is
    modelled for the directives the code uses: white space, literal
    characters and the scansets [%[...]] and [%[^...]]. *)

From S2P Require Import Prelude.

Definition char_code (c : ascii) : Z := Z.of_nat (Ascii.nat_of_ascii c).

Definition nul_char : ascii := Ascii.ascii_of_nat 0.
Definition dquote : ascii := Ascii.ascii_of_nat 34.
Definition nl_char : ascii := Ascii.ascii_of_nat 10.
Definition tab : string := String (Ascii.ascii_of_nat 9) EmptyString.
Definition nl : string := String nl_char EmptyString.

(** ** Character classes *)

Definition in_range (lo hi : Z) (c : ascii) : bool :=
  ((lo <=? char_code c) && (char_code c <=? hi))%Z.

Definition isspace (c : ascii) : bool := in_range 9 13 c || (char_code c =? 32)%Z.
Definition isdigit (c : ascii) : bool := in_range 48 57 c.
Definition isupper (c : ascii) : bool := in_range 65 90 c.
Definition isalpha (c : ascii) : bool := isupper c || in_range 97 122 c.

Definition tolower (c : ascii) : ascii :=
  if isupper c then Ascii.ascii_of_nat (Ascii.nat_of_ascii c + 32) else c.

(** ** Strings *)

(** Every character satisfies [p]. *)
Fixpoint sall (p : ascii -> bool) (s : string) : bool :=
  match s with
  | EmptyString => true
  | String c s => p c && sall p s
  end.

(** [strchr s c] finds something. *)
Definition has_char (c : ascii) (s : string) : bool :=
  negb (sall (fun c' => negb (Ascii.eqb c c')) s).

(** The longest prefix whose characters satisfy [p], and the rest. *)
Fixpoint span (p : ascii -> bool) (s : string) : string * string :=
  match s with
  | EmptyString => (EmptyString, EmptyString)
  | String c s' =>
      if p c then let (a, b) := span p s' in (String c a, b)
      else (EmptyString, s)
  end.

Fixpoint map_string (f : ascii -> ascii) (s : string) : string :=
  match s with
  | EmptyString => EmptyString
  | String c s => String (f c) (map_string f s)
  end.

Fixpoint stake (n : nat) (s : string) : string :=
  match n, s with
  | S n, String c s => String c (stake n s)
  | _, _ => EmptyString
  end.

Fixpoint sdrop (n : nat) (s : string) : string :=
  match n, s with
  | S n, String c s => sdrop n s
  | _, _ => s
  end.

(** The character at the head of the string, NUL at its end: [*s]. *)
Definition shead (s : string) : ascii :=
  match s with EmptyString => nul_char | String c _ => c end.

(** The last character, NUL when there is none. *)
Fixpoint slast (s : string) : ascii :=
  match s with
  | EmptyString => nul_char
  | String c EmptyString => c
  | String _ s => slast s
  end.

(** White space dropped on the left, on the right. *)
Fixpoint lskip (s : string) : string :=
  match s with
  | EmptyString => EmptyString
  | String c s' => if isspace c then lskip s' else s
  end.

Fixpoint rskip (s : string) : string :=
  match s with
  | EmptyString => EmptyString
  | String c s =>
      match rskip s with
      | EmptyString => if isspace c then EmptyString else String c EmptyString
      | r => String c r
      end
  end.

(** The bytes up to the first NUL. *)
Definition cstr (s : string) : string :=
  (span (fun c => negb (Ascii.eqb c nul_char)) s).1.

(** ** printf's ["%ws"] and ["%-ws"] *)

Fixpoint spaces (n : nat) : string :=
  match n with 0 => EmptyString | S n => String " "%char (spaces n) end.

Definition padl (w : nat) (s : string) : string := spaces (w - String.length s) +:+ s.
Definition padr (w : nat) (s : string) : string := s +:+ spaces (w - String.length s).

(** ** printf's %d *)

Definition digit_char (d : Z) : ascii := Ascii.ascii_of_nat (Z.to_nat (48 + d)).

Fixpoint decimal (fuel : nat) (n : Z) (acc : string) : string :=
  match fuel with
  | 0 => acc
  | S fuel =>
      let acc := String (digit_char (n mod 10)) acc in
      if (n <? 10)%Z then acc else decimal fuel (n / 10) acc
  end.

(** Ten digits hold every int. *)
Definition print_int (n : Z) : string :=
  (if n <? 0 then "-" else EmptyString)%Z +:+ decimal 10 (Z.abs n) EmptyString.

(** ** sscanf *)

Inductive directive : Type :=
| SWs                                  (** white space *)
| SLit (c : ascii)                     (** an ordinary character *)
| SSet (neg : bool) (set : string).    (** [%[set]], [%[^set]] *)

Definition in_set (neg : bool) (set : string) (c : ascii) : bool :=
  xorb neg (has_char c set).

(** The strings assigned, in order, until the first directive that fails. *)
Fixpoint sscanf (fmt : list directive) (s : string) : list string :=
  match fmt with
  | [] => []
  | SWs :: fmt => sscanf fmt (lskip s)
  | SLit c :: fmt =>
      match s with
      | String c' s => if Ascii.eqb c c' then sscanf fmt s else []
      | EmptyString => []
      end
  | SSet neg set :: fmt =>
      match span (in_set neg set) s with
      | (EmptyString, _) => []
      | (a, rest) => a :: sscanf fmt rest
      end
  end.

(** ** strtol *)

Definition digit_value (c : ascii) : option Z :=
  if isdigit c then Some (char_code c - 48)%Z
  else if in_range 97 122 c then Some (char_code c - 87)%Z
  else if isupper c then Some (char_code c - 55)%Z
  else None.

(** The digits of base [base]: their value and the rest of the string. *)
Fixpoint digits (base : Z) (acc : Z) (s : string) : Z * string :=
  match s with
  | EmptyString => (acc, EmptyString)
  | String c s' =>
      match digit_value c with
      | Some v => if (v <? base)%Z then digits base (acc * base + v) s' else (acc, s)
      | None => (acc, s)
      end
  end.

(** [long] has [w] bits: values out of its range are clamped. *)
Definition clamp (w z : Z) : Z :=
  Z.max (- 2 ^ (w - 1)) (Z.min (2 ^ (w - 1) - 1) z).

Definition hex_prefix (s : string) : bool :=
  match s with
  | String "0" (String c (String d _)) =>
      (Ascii.eqb c "x" || Ascii.eqb c "X") &&
      match digit_value d with Some v => (v <? 16)%Z | None => false end
  | _ => false
  end.

(** The optional sign: whether it is a minus, and what follows. *)
Definition sign_of (s : string) : bool * string :=
  match s with
  | String c r =>
      if Ascii.eqb c "-" then (true, r)
      else if Ascii.eqb c "+" then (false, r) else (false, s)
  | EmptyString => (false, s)
  end.

(** strtol(s, &end, base), [base] 0 (the prefix decides) or 10: the value and
    what [end] points to ([s] itself when there is no number). *)
Definition strtol (w : Z) (base : Z) (s : string) : Z * string :=
  let s1 := lskip s in
  let '(neg, s2) := sign_of s1 in
  let '(b, s3) := if (base =? 0)%Z then
                    if hex_prefix s2 then (16%Z, sdrop 2 s2)
                    else if Ascii.eqb (shead s2) "0" then (8%Z, s2) else (10%Z, s2)
                  else (base, s2) in
  let '(v, rest) := digits b 0 s3 in
  if (String.length rest =? String.length s3) then (0%Z, s)
  else (clamp w (if neg then - v else v)%Z, rest).

(** ** Lemmas on strings *)

Lemma sapp_nil_r s : s +:+ EmptyString = s.
Proof. induction s as [|c s IH]; cbn; [done | by rewrite IH]. Qed.

Lemma sapp_assoc s1 s2 s3 : (s1 +:+ s2) +:+ s3 = s1 +:+ (s2 +:+ s3).
Proof. induction s1 as [|c s IH]; cbn; [done | by rewrite IH]. Qed.

Lemma slength_app s1 s2 : String.length (s1 +:+ s2) = String.length s1 + String.length s2.
Proof. induction s1 as [|c s IH]; cbn; [done | by rewrite IH]. Qed.

Lemma sall_app p s1 s2 : sall p (s1 +:+ s2) = sall p s1 && sall p s2.
Proof. induction s1 as [|c s IH]; cbn; [done | by rewrite IH, andb_assoc]. Qed.

Lemma sall_weaken (p q : ascii -> bool) s :
  (forall c, p c = true -> q c = true) -> sall p s = true -> sall q s = true.
Proof.
  intros H. induction s as [|c s IH]; cbn; [done|].
  intros [Hc Hs]%andb_true_iff. apply andb_true_iff. auto.
Qed.

Lemma sall_spaces p n : p " "%char = true -> sall p (spaces n) = true.
Proof. intros H. induction n as [|n IH]; cbn; [done | by rewrite H]. Qed.

Lemma slength_spaces n : String.length (spaces n) = n.
Proof. induction n as [|n IH]; cbn; auto. Qed.

Lemma has_char_sall c s : has_char c s = false <-> sall (fun c' => negb (Ascii.eqb c c')) s = true.
Proof. unfold has_char. destruct (sall _ s); cbn; split; congruence. Qed.

Lemma has_char_cons c c' s : has_char c (String c' s) = Ascii.eqb c c' || has_char c s.
Proof. unfold has_char. cbn [sall]. rewrite negb_andb, negb_involutive. done. Qed.

Lemma has_char_nil c : has_char c EmptyString = false.
Proof. done. Qed.

Lemma span_app p s1 s2 :
  sall p s1 = true -> (s2 = EmptyString \/ p (shead s2) = false) ->
  span p (s1 +:+ s2) = (s1, s2).
Proof.
  intros H1 H2. induction s1 as [|c s1 IH]; cbn in *.
  - destruct s2 as [|c s2]; [done|]. destruct H2 as [H2|H2]; [done|]. cbn in *. by rewrite H2.
  - apply andb_true_iff in H1 as [Hc H1]. by rewrite Hc, (IH H1).
Qed.

Lemma span_all p s : sall p s = true -> span p s = (s, EmptyString).
Proof. intros H. rewrite <- (sapp_nil_r s) at 1. apply span_app; auto. Qed.

Lemma lskip_id s : isspace (shead s) = false -> lskip s = s.
Proof. destruct s as [|c s]; cbn; [done | by intros ->]. Qed.

Lemma lskip_spaces n s : lskip (spaces n +:+ s) = lskip s.
Proof. induction n as [|n IH]; cbn; [done | exact IH]. Qed.

Lemma rskip_id s : isspace (slast s) = false -> rskip s = s.
Proof.
  induction s as [|c s IH]; [done|]. intros H.
  destruct s as [|c' s]; cbn in H |- *; [by rewrite H|].
  specialize (IH H). cbn in IH. by rewrite IH.
Qed.

Lemma rskip_app s1 s2 :
  rskip s2 = EmptyString -> rskip (s1 +:+ s2) = rskip s1.
Proof. intros H. induction s1 as [|c s IH]; cbn; [done | by rewrite IH]. Qed.

Lemma rskip_spaces n : rskip (spaces n) = EmptyString.
Proof. induction n as [|n IH]; cbn; [done | by rewrite IH]. Qed.

Lemma rskip_length s : String.length (rskip s) <= String.length s.
Proof.
  induction s as [|c s IH]; cbn; [done|].
  destruct (rskip s) as [|c' s'] eqn:E; cbn in *; [destruct (isspace c); cbn; lia | lia].
Qed.

Lemma lskip_length s : String.length (lskip s) <= String.length s.
Proof. induction s as [|c s IH]; cbn; [done | destruct (isspace c); cbn; lia]. Qed.

Lemma rskip_last_space s :
  isspace (slast s) = true -> String.length (rskip s) < String.length s.
Proof.
  induction s as [|c s IH]; [done|]. intros H.
  destruct (decide (s = EmptyString)) as [->|Hne]; [cbn in *; by rewrite H; cbn; lia|].
  assert (isspace (slast s) = true) as Hs by (by destruct s).
  specialize (IH Hs). cbn [rskip String.length]. destruct (rskip s) as [|c1 s1].
  - destruct (isspace c); cbn in *; lia.
  - cbn in *. lia.
Qed.

Lemma slast_app s c : slast (s +:+ String c EmptyString) = c.
Proof. induction s as [|c' s IH]; [done|]. destruct s; [done | exact IH]. Qed.

Lemma slast_app_ne s1 s2 : s2 <> EmptyString -> slast (s1 +:+ s2) = slast s2.
Proof.
  intros H. induction s1 as [|c s IH]; [done|]. cbn.
  destruct (s +:+ s2) eqn:E; [|exact IH]. destruct s, s2; done.
Qed.

Lemma shead_app s1 s2 : s1 <> EmptyString -> shead (s1 +:+ s2) = shead s1.
Proof. by destruct s1. Qed.

Lemma cstr_id s : sall (fun c => negb (Ascii.eqb c nul_char)) s = true -> cstr s = s.
Proof. intros H. unfold cstr. by rewrite span_all. Qed.

Lemma slength_cstr s : String.length (cstr s) <= String.length s.
Proof.
  unfold cstr. induction s as [|c s IH]; cbn; [done|].
  destruct (negb _); cbn; [|lia]. destruct (span _ s) as [a b]. cbn in *. lia.
Qed.

Lemma slength_stake n s : String.length (stake n s) = min n (String.length s).
Proof. revert s. induction n as [|n IH]; intros [|c s]; cbn; auto. Qed.

Lemma stake_all n s : String.length s <= n -> stake n s = s.
Proof.
  revert s. induction n as [|n IH]; intros [|c s]; cbn; intros H; try done; [lia|].
  f_equal. apply IH. lia.
Qed.

Lemma sdrop_app s1 s2 : sdrop (String.length s1) (s1 +:+ s2) = s2.
Proof. induction s1 as [|c s1 IH]; [by destruct s2 | exact IH]. Qed.

Lemma prefix_app s1 s2 : String.prefix s1 (s1 +:+ s2) = true.
Proof.
  induction s1 as [|c s IH]; cbn; [by destruct s2|].
  destruct (Ascii.ascii_dec c c); [done | congruence].
Qed.

Lemma prefix_true s1 s : String.prefix s1 s = true -> exists s2, s = s1 +:+ s2.
Proof.
  revert s. induction s1 as [|c s1 IH]; intros s H; [by exists s|].
  destruct s as [|c' s]; cbn in H; [done|].
  destruct (Ascii.ascii_dec c c') as [<-|]; [|done].
  apply IH in H as [s2 ->]. by exists s2.
Qed.

Lemma map_string_id (f : ascii -> ascii) (p : ascii -> bool) s :
  (forall c, p c = true -> f c = c) -> sall p s = true -> map_string f s = s.
Proof.
  intros Hf. induction s as [|c s IH]; cbn; [done|].
  intros [Hc Hs]%andb_true_iff. by rewrite Hf, IH.
Qed.
