(* ===== verification/Dictionary.v ===== *)
(** * Dictionary: the string dictionary of audio/hal/dictionary.c

    A dictionary is three parallel arrays of [size] slots (values, keys, hash
    values); a slot whose key is NULL is free.  This file models every
    operation of dictionary.c on that representation and shows that they
    implement a finite map from keys to (possibly NULL) values, whatever the
    order of operations, growth and slot reuse included.  [n] and [size] are
    ints that are never negative, naturals here; where [size] is made and where
    it grows the arithmetic and the conversions of int are written out.

    Allocation goes through the parameter [alloc]: [alloc b] tells whether a
    request of [b] bytes succeeds.  [char] is unsigned, as on ARM. *)

From S2P Require Import Prelude CString.

(** Maximum value size and minimal number of slots. *)
Definition DICTMINSZ : nat := 128.

(** typedef struct _dictionary_: [val], [key] and [hash] are arrays of
    [size] slots; a NULL pointer in [val] or [key] is [None]. *)
Record dictionary : Type := Dict {
  d_n : nat;
  d_size : nat;
  d_val : list (option string);
  d_key : list (option string);
  d_hash : list Z
}.

(** What a [dictionary *] that is not NULL points to: a usable dictionary, or
    one of which arrays were lost to a failed allocation (the flags tell which
    of the three pointers are NULL): an access to a lost array is a fault. *)
Inductive dict_obj : Type :=
| DLive (d : dictionary)
| DLost (val key hash : bool).

(** A [char *]: NULL, the invalid pointer -1 used as a default that
    no entry can have, or a string. *)
Inductive cptr : Type :=
| CNull
| CInvalid
| CStr (s : string).

Definition ptr_of (o : option string) : cptr :=
  match o with None => CNull | Some s => CStr s end.

#[export] Instance cptr_eq_dec : EqDecision cptr.
Proof. solve_decision. Defined.

(** The slot, or pointer, is not NULL. *)
Definition used {A} (o : option A) : bool := match o with Some _ => true | None => false end.

(** ** Hashing: 32-bit unsigned arithmetic *)

Definition hash_step (hash : Z) (c : ascii) : Z :=
  let h1 := u32 (hash + char_code c) in
  let h2 := u32 (h1 + u32 (Z.shiftl h1 10)) in
  Z.lxor h2 (Z.shiftr h2 6).

Fixpoint hash_loop (key : string) (hash : Z) : Z :=
  match key with
  | EmptyString => hash
  | String c key => hash_loop key (hash_step hash c)
  end.

Definition dictionary_hash (key : string) : Z :=
  let hash := hash_loop key 0 in
  let h1 := u32 (hash + u32 (Z.shiftl hash 3)) in
  let h2 := Z.lxor h1 (Z.shiftr h1 11) in
  u32 (h2 + u32 (Z.shiftl h2 15)).

(** ** Searching the slots *)

(** The test of the search loops on one slot: a key is there, its hash is the
    one searched and the strings agree. *)
Definition slot_is (key : string) (hash : Z) (slot : option string * Z) : bool :=
  match slot.1 with
  | None => false
  | Some k => (hash =? slot.2)%Z && String.eqb key k
  end.

(** for (i=0 ; i<d->size ; i++): the first slot that passes the test. *)
Definition find_key (d : dictionary) (key : string) : option nat :=
  find_idx (slot_is key (dictionary_hash key)) (zip (d_key d) (d_hash d)).

(** for (i=d->n ; d->key[i] ; ) if (++i == d->size) i = 0; *)
Fixpoint free_slot (fuel : nat) (keys : list (option string)) (size i : nat)
    : outcome nat :=
  match fuel with
  | 0 => Timeout
  | S fuel =>
      match keys !! i with
      | None => Fault
      | Some None => Done i
      | Some (Some _) =>
          let i := S i in
          free_slot fuel keys size (if i =? size then 0 else i)
      end
  end.

Section Dictionary.
(** [alloc b]: an allocation of [b] bytes succeeds. *)
Context (alloc : Z -> bool).

Definition sizeof_ptr : Z := 8.
Definition sizeof_unsigned : Z := 4.
Definition sizeof_dictionary : Z := 32.

Definition INT_MAX : Z := 2147483647.

(** calloc(2*size, 1) and memcpy of [size] bytes, for an array of elements of
    [elt] bytes: [None] when calloc fails.  The argument, a size_t, is converted
    to int; 2*size is an int, which calloc and memcpy take as a size_t, so that a
    negative one copies what is not there. *)
Definition mem_double {A} (zero : A) (l : list A) (elt size : Z) : outcome (option (list A)) :=
  let size := s32 size in
  if (INT_MAX <? 2 * size)%Z || (2 * size <? - INT_MAX - 1)%Z then Fault
  else if alloc (u64 (2 * size)) then
    if (size <? 0)%Z then Fault
    else
      let half := Z.to_nat (size / elt) in
      Done (Some (take half l ++ replicate half zero))
  else Done None.

Definition xstrdup (s : option string) : option string :=
  match s with
  | None => None
  | Some s =>
      if alloc (Z.of_nat (String.length s) + 1) then Some s else None
  end.

(** NULL, or a dictionary of which the three arrays were requested (their
    allocations are not checked). *)
Definition dictionary_new (size : Z) : option dict_obj :=
  let size := s32 size in
  let size := (if size <? Z.of_nat DICTMINSZ then Z.of_nat DICTMINSZ else size)%Z in
  if alloc sizeof_dictionary then
    let ptrs := alloc (size * sizeof_ptr)%Z in
    let words := alloc (size * sizeof_unsigned)%Z in
    if ptrs && words then
      let n := Z.to_nat size in
      Some (DLive (Dict 0 n (replicate n None) (replicate n None) (replicate n 0%Z)))
    else Some (DLost (negb ptrs) (negb ptrs) (negb words))
  else None.

Definition dictionary_get (d : dictionary) (key : string) (def : cptr) : cptr :=
  match find_key d key with
  | Some i => from_option ptr_of def (d_val d !! i)
  | None => def
  end.

(** Reallocation of the three arrays when all the slots are used. *)
Definition dictionary_grow (d : dictionary) : outcome dict_obj :=
  if d_n d =? d_size d then
    let size := Z.of_nat (d_size d) in
    val ← mem_double None (d_val d) sizeof_ptr (size * sizeof_ptr);
    key ← mem_double None (d_key d) sizeof_ptr (size * sizeof_ptr);
    hash ← mem_double 0%Z (d_hash d) sizeof_unsigned (size * sizeof_unsigned);
    match val, key, hash with
    | Some val, Some key, Some hash =>
        if (INT_MAX <? size * 2)%Z then Fault
        else Done (DLive (Dict (d_n d) (d_size d * 2) val key hash))
    | val, key, hash => Done (DLost (negb (used val)) (negb (used key)) (negb (used hash)))
    end
  else Done (DLive d).

(** Insertion of a key that is not in the dictionary. *)
Definition dictionary_add (d : dictionary) (key : string) (hash : Z)
    (val : option string) : outcome (Z * dict_obj) :=
  grown ← dictionary_grow d;
  match grown with
  | DLost lv lk lh => Done ((-1)%Z, DLost lv lk lh)
  | DLive d =>
      i ← free_slot (d_size d) (d_key d) (d_size d) (d_n d);
      Done (0%Z, DLive (Dict (S (d_n d)) (d_size d)
                          (<[i := xstrdup val]> (d_val d))
                          (<[i := xstrdup (Some key)]> (d_key d))
                          (<[i := hash]> (d_hash d))))
  end.

Definition dictionary_set (d : dictionary) (key : option string)
    (val : option string) : outcome (Z * dict_obj) :=
  match key with
  | None => Done ((-1)%Z, DLive d)
  | Some key =>
      let hash := dictionary_hash key in
      match (if 0 <? d_n d then find_key d key else None) with
      | Some i =>
          Done (0%Z, DLive (Dict (d_n d) (d_size d) (<[i := xstrdup val]> (d_val d))
                              (d_key d) (d_hash d)))
      | None => dictionary_add d key hash val
      end
  end.

Definition dictionary_unset (d : dictionary) (key : option string) : dictionary :=
  match key with
  | None => d
  | Some key =>
      match find_key d key with
      | None => d
      | Some i =>
          Dict (d_n d - 1) (d_size d) (<[i := None]> (d_val d))
            (<[i := None]> (d_key d)) (<[i := 0%Z]> (d_hash d))
      end
  end.
End Dictionary.

(** dictionary_del frees every key and value: it walks the arrays of keys and
    values, so it faults on a dictionary that lost one of these. *)
Definition dictionary_del (d : option dict_obj) : outcome unit :=
  match d with
  | None => Done tt
  | Some (DLost val key _) => if val || key then Fault else Done tt
  | Some (DLive _) => Done tt
  end.

(** The text dictionary_dump writes to the file. *)
Fixpoint dump_slots (keys vals : list (option string)) : string :=
  match keys, vals with
  | Some k :: keys, v :: vals =>
      padl 20 k +:+ tab +:+ "[" +:+ default "UNDEF"%string v +:+ "]" +:+ nl
      +:+ dump_slots keys vals
  | None :: keys, _ :: vals => dump_slots keys vals
  | _, _ => EmptyString
  end.

Definition dictionary_dump (d : dictionary) : string :=
  if (Z.of_nat (d_n d) <? 1)%Z then "empty dictionary" +:+ nl
  else dump_slots (d_key d) (d_val d).

(** ** The map a dictionary represents *)

Definition slot_pair (slot : option string * option string)
    : option (string * option string) :=
  match slot with (Some k, v) => Some (k, v) | (None, _) => None end.

(** The (key, value) pairs in slot order. *)
Definition dict_assoc (d : dictionary) : list (string * option string) :=
  omap slot_pair (zip (d_key d) (d_val d)).

Definition dict_map (d : dictionary) : gmap string (option string) :=
  list_to_map (dict_assoc d).

(** The invariant of the representation. *)
Record dict_wf (d : dictionary) : Prop := {
  wf_val : length (d_val d) = d_size d;
  wf_key : length (d_key d) = d_size d;
  wf_hash : length (d_hash d) = d_size d;
  wf_size : DICTMINSZ <= d_size d;
  wf_int : (Z.of_nat (d_size d) <= INT_MAX)%Z;
  wf_n : count used (d_key d) = d_n d;
  wf_hashed : forall i k, d_key d !! i = Some (Some k) ->
                d_hash d !! i = Some (dictionary_hash k);
  wf_unique : forall i j k, d_key d !! i = Some (Some k) ->
                d_key d !! j = Some (Some k) -> i = j
}.

(** The invariant, as a test. *)
Definition dict_wfb (d : dictionary) : bool :=
  (length (d_val d) =? d_size d) && (length (d_key d) =? d_size d) &&
  (length (d_hash d) =? d_size d) && (DICTMINSZ <=? d_size d) && (Z.of_nat (d_size d) <=? INT_MAX)%Z &&
  (count used (d_key d) =? d_n d) &&
  forallb (fun slot => match slot with
                       | (Some k, h) => (h =? dictionary_hash k)%Z
                       | (None, _) => true
                       end) (zip (d_key d) (d_hash d)) &&
  bool_decide (NoDup (omap id (d_key d))).

(** ** Lemmas: slots, the map, and the search loops *)

Lemma NoDup_omap_unique (l : list (option string)) i j k :
  NoDup (omap id l) -> l !! i = Some (Some k) -> l !! j = Some (Some k) -> i = j.
Proof.
  revert i j. induction l as [|o l IH]; intros i j Hnd Hi Hj; [done|].
  assert (forall i, l !! i = Some (Some k) -> k ∈ omap id l) as Hin.
  { intros n Hn. apply list_elem_of_omap. exists (Some k). split; [|done].
    by eapply list_elem_of_lookup_2. }
  destruct i as [|i], j as [|j]; cbn in *; simplify_eq; cbn in *; [done | | |].
  - apply list.NoDup_cons in Hnd as [Hx _]. by apply Hin in Hj.
  - apply list.NoDup_cons in Hnd as [Hx _]. by apply Hin in Hi.
  - f_equal. apply IH; [|done|done]. destruct o; cbn in Hnd; [|done].
    by apply list.NoDup_cons in Hnd as [_ ?].
Qed.

Lemma dict_wfb_sound d : dict_wfb d = true -> dict_wf d.
Proof.
  unfold dict_wfb. rewrite !andb_true_iff, !Nat.eqb_eq, Nat.leb_le, Z.leb_le, bool_decide_eq_true.
  intros [[[[[[[? ?] ?] ?] ?] ?] Hh] Hnd]. split; try done.
  - intros i k Hk.
    assert (is_Some (d_hash d !! i)) as [h Hi].
    { apply lookup_lt_is_Some. apply lookup_lt_Some in Hk. lia. }
    rewrite forallb_forall in Hh. rewrite Hi.
    assert (In (Some k, h) (zip (d_key d) (d_hash d))) as Hin.
    { apply list_elem_of_In, list_elem_of_lookup. exists i. by apply lookup_zip_Some. }
    apply Hh, Z.eqb_eq in Hin. by subst.
  - intros i j k. by apply NoDup_omap_unique.
Qed.

Lemma find_key_Some d key i :
  dict_wf d ->
  find_key d key = Some i <-> d_key d !! i = Some (Some key).
Proof.
  intros W. unfold find_key. rewrite find_idx_Some. split.
  - intros (([[k|] h] & Hx & Hp) & _); [|discriminate].
    apply lookup_zip_Some in Hx as [Hk Hh].
    apply andb_true_iff in Hp as [_ ->%String.eqb_eq]. done.
  - intros Hk. split.
    + exists (Some key, dictionary_hash key). split.
      * apply lookup_zip_Some. split; [done | by apply (wf_hashed d W)].
      * unfold slot_is. cbn. by rewrite Z.eqb_refl, String.eqb_refl.
    + intros j [[k|] h] Hj Hy; [|done]. apply lookup_zip_Some in Hy as (Hk' & _).
      unfold slot_is. cbn in *. apply andb_false_iff. right. apply String.eqb_neq.
      intros ->. pose proof (wf_unique d W _ _ _ Hk Hk'). lia.
Qed.

Lemma find_key_None d key :
  dict_wf d ->
  find_key d key = None <-> (forall i, d_key d !! i <> Some (Some key)).
Proof.
  intros W. split.
  - intros H i Hi. apply (find_key_Some d key i W) in Hi. congruence.
  - intros H. destruct (find_key d key) as [i|] eqn:E; [|done].
    apply (find_key_Some d key i W) in E. by destruct (H i).
Qed.

Lemma dict_assoc_elem d k v :
  (k, v) ∈ dict_assoc d <->
  exists i, d_key d !! i = Some (Some k) /\ d_val d !! i = Some v.
Proof.
  unfold dict_assoc. rewrite list_elem_of_omap. split.
  - intros ([[k'|] v'] & Hin & Heq); cbn in Heq; [|discriminate].
    injection Heq as -> ->. apply list_elem_of_lookup in Hin as (i & Hi).
    apply lookup_zip_Some in Hi. eauto.
  - intros (i & Hk & Hv). exists (Some k, v). split; [|done].
    apply list_elem_of_lookup. exists i. by apply lookup_zip_Some.
Qed.

Lemma dict_assoc_NoDup d : dict_wf d -> NoDup (dict_assoc d).*1.
Proof.
  intros W. pose proof (wf_unique d W) as U. revert U.
  unfold dict_assoc. generalize (d_val d) as vs. induction (d_key d) as [|k ks IH];
    intros [|v vs] U; try constructor.
  assert (NoDup (omap slot_pair (zip ks vs)).*1) as Hnd.
  { apply IH. intros i j x Hi Hj. pose proof (U (S i) (S j) x Hi Hj). lia. }
  destruct k as [k|]; cbn; [|done]. constructor; [|done].
  intros Hin. apply list_elem_of_fmap in Hin as ([k' v'] & -> & Hin).
  apply list_elem_of_omap in Hin as ([[k''|] v''] & Hin & [= -> ->]).
  apply list_elem_of_lookup in Hin as (i & Hi).
  apply lookup_zip_Some in Hi as [Hi _].
  by pose proof (U 0 (S i) k' eq_refl Hi).
Qed.

Lemma dict_map_Some d k v :
  dict_wf d ->
  dict_map d !! k = Some v <->
  exists i, d_key d !! i = Some (Some k) /\ d_val d !! i = Some v.
Proof.
  intros W. unfold dict_map. rewrite <- dict_assoc_elem.
  symmetry. apply elem_of_list_to_map. by apply dict_assoc_NoDup.
Qed.

Lemma dict_map_None d k :
  dict_wf d -> dict_map d !! k = None <-> (forall i, d_key d !! i <> Some (Some k)).
Proof.
  intros W. split.
  - intros H i Hi.
    assert (is_Some (d_val d !! i)) as [v Hv].
    { apply lookup_lt_is_Some. rewrite (wf_val d W), <- (wf_key d W).
      by eapply lookup_lt_Some. }
    assert (dict_map d !! k = Some v) by (apply dict_map_Some; eauto). congruence.
  - intros H. destruct (dict_map d !! k) eqn:E; [|done].
    apply dict_map_Some in E as (i & Hi & _); [|done]. by destruct (H i).
Qed.

(** A slot update that respects the keys updates the map. *)
Lemma dict_map_eq d (m : gmap string (option string)) :
  dict_wf d ->
  (forall k v, m !! k = Some v <->
     exists i, d_key d !! i = Some (Some k) /\ d_val d !! i = Some v) ->
  dict_map d = m.
Proof.
  intros W H. apply map_eq. intros k. destruct (m !! k) eqn:E.
  - apply dict_map_Some; [done | by apply H].
  - apply dict_map_None; [done|]. intros i Hi.
    assert (is_Some (d_val d !! i)) as [v Hv].
    { apply lookup_lt_is_Some. rewrite (wf_val d W), <- (wf_key d W).
      by eapply lookup_lt_Some. }
    assert (m !! k = Some v) by (apply H; eauto). congruence.
Qed.

(** Distance from slot [i] to slot [j], going up and wrapping at [size]. *)
Definition probe_distance (size i j : nat) : nat :=
  if i <=? j then j - i else size - i + j.

Lemma free_slot_done keys size i j fuel :
  length keys = size -> i < size -> keys !! j = Some None ->
  probe_distance size i j < fuel ->
  exists r, free_slot fuel keys size i = Done r /\ keys !! r = Some None.
Proof.
  intros Hlen Hi Hj. assert (j < size) by (rewrite <- Hlen; by eapply lookup_lt_Some).
  revert i Hi. induction fuel as [|fuel IH]; intros i Hi Hd; [lia|]. cbn [free_slot].
  destruct (keys !! i) as [[k|]|] eqn:Ei.
  - unfold probe_distance in *.
    assert (i <> j) by (intros ->; congruence).
    destruct (S i =? size) eqn:Es.
    + apply Nat.eqb_eq in Es. apply IH; [lia|].
      destruct (i <=? j) eqn:E1; [apply Nat.leb_le in E1; lia|]. cbn. lia.
    + apply Nat.eqb_neq in Es. apply IH; [lia|].
      destruct (i <=? j) eqn:E1, (S i <=? j) eqn:E2;
        rewrite ?Nat.leb_le, ?Nat.leb_gt in *; lia.
  - eauto.
  - apply lookup_ge_None in Ei. lia.
Qed.

Lemma free_slot_probe d :
  dict_wf d -> d_n d < d_size d ->
  exists r, free_slot (d_size d) (d_key d) (d_size d) (d_n d) = Done r /\
            d_key d !! r = Some None.
Proof.
  intros W Hn. destruct (count_lt used (d_key d)) as (j & [k|] & Hj & Hu); try done.
  { by rewrite (wf_n d W), (wf_key d W). }
  assert (j < d_size d) by (rewrite <- (wf_key d W); by eapply lookup_lt_Some).
  apply (free_slot_done _ _ _ j); [by apply wf_key | done | done |].
  unfold probe_distance. destruct (d_n d <=? j) eqn:E;
    rewrite ?Nat.leb_le, ?Nat.leb_gt in E; lia.
Qed.

(** Putting a new key in a free slot. *)
Lemma dict_wf_insert d i key val :
  dict_wf d -> d_key d !! i = Some None ->
  (forall j, d_key d !! j <> Some (Some key)) ->
  let d' := Dict (S (d_n d)) (d_size d) (<[i := val]> (d_val d))
              (<[i := Some key]> (d_key d)) (<[i := dictionary_hash key]> (d_hash d)) in
  dict_wf d' /\ dict_map d' = <[key := val]> (dict_map d).
Proof.
  intros W Hi Hfresh d'. pose proof W as [Wv Wk Wh Ws Wi Wn Whd Wu].
  assert (i < d_size d) by (rewrite <- Wk; by eapply lookup_lt_Some).
  assert (dict_wf d') as W'.
  { split; cbn; autorewrite with dragon_len; try done.
    - pose proof (count_insert used (d_key d) i (Some key) None Hi). cbn in *. lia.
    - intros j k Hk. apply lookup_insert_cases in Hk as [(-> & [= <-] & _)|[Hne Hk]].
      + apply list_lookup_insert_eq. lia.
      + rewrite list_lookup_insert_ne by done. eauto.
    - intros j1 j2 k H1 H2.
      apply lookup_insert_cases in H1 as [(-> & E1 & _)|[Hne1 H1]];
      apply lookup_insert_cases in H2 as [(-> & E2 & _)|[Hne2 H2]]; simplify_eq; eauto.
      + by apply Hfresh in H2.
      + by apply Hfresh in H1. }
  split; [done|]. apply dict_map_eq; [done|]. intros k v. cbn. split.
  - intros [[-> ->]|[Hne Hk]]%lookup_insert_Some.
    + exists i. rewrite !list_lookup_insert_eq by lia. done.
    + apply dict_map_Some in Hk as (j & Hk & Hv); [|done].
      exists j. assert (i <> j) by (intros ->; congruence).
      by rewrite !list_lookup_insert_ne.
  - intros (j & Hk & Hv). apply lookup_insert_Some.
    apply lookup_insert_cases in Hk as [(-> & [= <-] & _)|[Hne Hk]].
    + apply lookup_insert_cases in Hv as [(_ & -> & _)|[? _]]; [by left | done].
    + right. rewrite list_lookup_insert_ne in Hv by done. split.
      * intros <-. by apply Hfresh in Hk.
      * apply dict_map_Some; eauto.
Qed.

(** Overwriting the value of a key that is there. *)
Lemma dict_wf_update d i key val :
  dict_wf d -> d_key d !! i = Some (Some key) ->
  let d' := Dict (d_n d) (d_size d) (<[i := val]> (d_val d)) (d_key d) (d_hash d) in
  dict_wf d' /\ dict_map d' = <[key := val]> (dict_map d).
Proof.
  intros W Hi d'. pose proof W as [Wv Wk Wh Ws Wi Wn Whd Wu].
  assert (i < d_size d) by (rewrite <- Wk; by eapply lookup_lt_Some).
  assert (dict_wf d') as W' by (split; cbn; autorewrite with dragon_len; done).
  split; [done|]. apply dict_map_eq; [done|]. intros k v. cbn. split.
  - intros [[-> ->]|[Hne Hk]]%lookup_insert_Some.
    + exists i. rewrite list_lookup_insert_eq by lia. done.
    + apply dict_map_Some in Hk as (j & Hk & Hv); [|done].
      exists j. assert (i <> j) by (intros ->; congruence).
      by rewrite !list_lookup_insert_ne.
  - intros (j & Hk & Hv). apply lookup_insert_Some.
    apply lookup_insert_cases in Hv as [(-> & -> & _)|[Hne Hv]].
    + left. split; congruence.
    + right. split; [intros <-; pose proof (Wu _ _ _ Hi Hk); done|].
      apply dict_map_Some; eauto.
Qed.

(** Freeing a slot. *)
Lemma dict_wf_delete d i key :
  dict_wf d -> d_key d !! i = Some (Some key) ->
  let d' := Dict (d_n d - 1) (d_size d) (<[i := None]> (d_val d))
              (<[i := None]> (d_key d)) (<[i := 0%Z]> (d_hash d)) in
  dict_wf d' /\ dict_map d' = delete key (dict_map d) /\ 0 < d_n d.
Proof.
  intros W Hi d'. pose proof W as [Wv Wk Wh Ws Wi Wn Whd Wu].
  assert (i < d_size d) by (rewrite <- Wk; by eapply lookup_lt_Some).
  pose proof (count_insert used (d_key d) i None (Some key) Hi) as Hc. cbn in Hc.
  assert (forall j k, d_key d' !! j = Some (Some k) ->
                      i <> j /\ d_key d !! j = Some (Some k)) as Hback.
  { cbn. intros j k Hk. by apply lookup_insert_cases in Hk as [(_ & [=] & _)|[? ?]]. }
  assert (dict_wf d') as W'.
  { split; cbn; autorewrite with dragon_len; try done.
    - lia.
    - intros j k Hk. apply Hback in Hk as [Hne Hk].
      rewrite list_lookup_insert_ne by done. eauto.
    - intros j1 j2 k H1 H2. apply Hback in H1 as [_ H1], H2 as [_ H2]. eauto. }
  split; [done|]. split; [|lia]. apply dict_map_eq; [done|]. intros k v. split.
  - intros [Hne Hk]%lookup_delete_Some.
    apply dict_map_Some in Hk as (j & Hk & Hv); [|done].
    exists j. assert (i <> j) by (intros ->; congruence). cbn.
    by rewrite !list_lookup_insert_ne.
  - intros (j & Hk & Hv). apply Hback in Hk as [Hne Hk]. cbn in Hv.
    rewrite list_lookup_insert_ne in Hv by done.
    apply lookup_delete_Some. split; [|apply dict_map_Some; eauto].
    intros <-. pose proof (Wu _ _ _ Hi Hk). done.
Qed.

(** An array whose doubled size fits an int is doubled. *)
Lemma mem_double_fits {A} alloc (zero : A) l elt size :
  (0 < elt)%Z -> size = (Z.of_nat (length l) * elt)%Z -> (2 * size <= INT_MAX)%Z ->
  mem_double alloc zero l elt size =
  Done (if alloc (2 * size)%Z then Some (l ++ replicate (length l) zero) else None).
Proof.
  intros He Hs Hm. unfold INT_MAX in *. assert (0 <= size)%Z as H0 by lia. unfold mem_double, INT_MAX.
  rewrite (swrap_small 32 size), (wrap_small 64 (2 * size)) by lia.
  destruct (Z.ltb_spec 2147483647 (2 * size)); [lia|]. destruct (Z.ltb_spec (2 * size) (- (2147483647) - 1)); [lia|].
  cbn [orb]. destruct (Z.ltb_spec size 0); [lia|]. subst size. rewrite Z.div_mul, Nat2Z.id by lia.
  rewrite take_ge by lia. by destruct (alloc _).
Qed.

(** With all memory, any other is a fault or leaves less than what was there. *)
Lemma mem_double_rest {A} alloc (zero : A) l elt size r :
  (forall b, alloc b = true) -> (0 < elt)%Z -> (0 <= size)%Z -> mem_double alloc zero l elt size = Done r ->
  exists l', r = Some l' /\ (Z.of_nat (length l') * elt <= INT_MAX)%Z /\ (2 * size <= INT_MAX \/ INT_MAX < size)%Z.
Proof.
  intros Hall He Hs. unfold mem_double, INT_MAX. set (z := s32 size).
  assert (size <= 2147483647 -> z = size)%Z as Hz by (intros; apply swrap_small; lia).
  destruct (Z.ltb_spec 2147483647 (2 * z)); [done|]. destruct (_ <? _)%Z; [done|]. cbn [orb]. rewrite Hall.
  destruct (Z.ltb_spec z 0); [done|]. intros [= <-]. eexists. split; [done|].
  rewrite length_app, length_take, length_replicate. pose proof (Z.div_mod z elt ltac:(lia)).
  pose proof (Z.mod_pos_bound z elt He). assert (0 <= z / elt)%Z by (apply Z.div_pos; lia).
  split; [nia|]. destruct (Z.le_gt_cases size 2147483647); [left; specialize (Hz ltac:(done)); lia|by right].
Qed.

Lemma mem_double_ends {A} alloc (zero : A) l elt size : mem_double alloc zero l elt size <> Timeout.
Proof. unfold mem_double. destruct (_ || _); [done|]. destruct (alloc _); [|done]. by destruct (_ <? _)%Z. Qed.

(** The largest number of slots that can be doubled is below this one: the
    arrays of pointers would be of more than INT_MAX bytes. *)
Definition slots_limit : Z := 134217728.

Definition grown {A} (d : dictionary) (zero : A) (l : list A) : list A :=
  l ++ replicate (length l) zero.

Lemma dictionary_grow_fits alloc d :
  dict_wf d -> d_n d = d_size d -> (Z.of_nat (d_size d) < slots_limit)%Z ->
  dictionary_grow alloc d =
  Done (let ptrs := alloc (2 * (Z.of_nat (d_size d) * sizeof_ptr))%Z in
        let words := alloc (2 * (Z.of_nat (d_size d) * sizeof_unsigned))%Z in
        if ptrs && words then
          DLive (Dict (d_n d) (d_size d * 2) (grown d None (d_val d)) (grown d None (d_key d)) (grown d 0%Z (d_hash d)))
        else DLost (negb ptrs) (negb ptrs) (negb words)).
Proof.
  intros [Wv Wk Wh _ _ _ _ _] En Hs. unfold slots_limit in Hs. unfold dictionary_grow. rewrite En, Nat.eqb_refl.
  rewrite !mem_double_fits by (rewrite ?Wv, ?Wk, ?Wh; unfold sizeof_ptr, sizeof_unsigned, INT_MAX; lia).
  cbn [mbind outcome_bind]. unfold INT_MAX. destruct (Z.ltb_spec 2147483647 (Z.of_nat (d_size d) * 2)); [lia|].
  cbn zeta. unfold grown. set (b1 := alloc (2 * (_ * sizeof_ptr))%Z). set (b2 := alloc (2 * (_ * sizeof_unsigned))%Z).
  by destruct b1, b2.
Qed.

(** A dictionary that was made twice as large. *)
Lemma grown_wf d : dict_wf d -> d_n d = d_size d -> (Z.of_nat (d_size d) < slots_limit)%Z ->
  let d' := Dict (d_n d) (d_size d * 2) (grown d None (d_val d)) (grown d None (d_key d)) (grown d 0%Z (d_hash d)) in
  dict_wf d' /\ dict_map d' = dict_map d /\
  (forall k, (forall j, d_key d !! j <> Some (Some k)) -> forall j, d_key d' !! j <> Some (Some k)).
Proof.
  intros W En Hs d'. unfold slots_limit in Hs. pose proof W as [Wv Wk Wh Ws Wi Wn Whd Wu]. unfold DICTMINSZ in Ws.
  assert (forall i k, d_key d' !! i = Some (Some k) -> d_key d !! i = Some (Some k)) as Hback.
  { intros i k [H|[_ H]]%lookup_app_Some; [done|]. by apply replicate_lookup_None in H. }
  assert (dict_wf d') as W'.
  { split; cbn; unfold grown; autorewrite with dragon_len; unfold DICTMINSZ, INT_MAX; try lia.
    - rewrite count_app, count_replicate. cbn. lia.
    - intros i k Hk. apply Hback in Hk. apply lookup_app_l_Some. eauto.
    - intros i j k Hi Hj. eauto. }
  split; [done|]. split.
  - apply dict_map_eq; [done|]. intros k v. cbn. unfold grown. rewrite dict_map_Some by done. split.
    + intros (i & Hk & Hv). exists i. by split; apply lookup_app_l_Some.
    + intros (i & Hk & Hv). apply Hback in Hk. exists i. split; [done|].
      rewrite lookup_app_l in Hv; [done|]. rewrite Wv, <- Wk. by eapply lookup_lt_Some.
  - intros k Hk j Hj. apply Hback in Hj. by apply (Hk j).
Qed.

(** Growing keeps the map and leaves a free slot. *)
Lemma dict_grow_spec alloc d d' :
  dict_wf d -> (d_n d < d_size d \/ (Z.of_nat (d_size d) < slots_limit)%Z) -> dictionary_grow alloc d = Done (DLive d') ->
  dict_wf d' /\ dict_map d' = dict_map d /\ d_n d' < d_size d' /\
  (forall k, (forall j, d_key d !! j <> Some (Some k)) ->
             forall j, d_key d' !! j <> Some (Some k)).
Proof.
  intros W Hlim. pose proof (count_le used (d_key d)) as Hle. rewrite (wf_n d W), (wf_key d W) in Hle.
  destruct (Nat.eqb_spec (d_n d) (d_size d)) as [En|En].
  2:{ unfold dictionary_grow. rewrite (proj2 (Nat.eqb_neq _ _) En). injection 1 as <-. split_and!; auto; lia. }
  destruct Hlim as [|Hlim]; [lia|]. rewrite (dictionary_grow_fits alloc d W En Hlim). cbn zeta.
  destruct (_ && _); [|done]. injection 1 as <-. pose proof (wf_size d W) as Ws. unfold DICTMINSZ in Ws.
  destruct (grown_wf d W En Hlim) as (? & ? & ?). split_and!; [done..|cbn; lia|done].
Qed.

(** Without room for one more slot an insertion is undefined. *)
Lemma dictionary_grow_beyond alloc d :
  (forall b, alloc b = true) -> dict_wf d -> d_n d = d_size d -> (slots_limit <= Z.of_nat (d_size d))%Z ->
  dictionary_grow alloc d = Fault \/
  exists d', dictionary_grow alloc d = Done (DLive d') /\ d_key d' !! d_n d' = None /\ 0 < d_size d'.
Proof.
  intros A W En Hs. pose proof (wf_size d W) as Ws. unfold slots_limit, DICTMINSZ in *. unfold dictionary_grow.
  rewrite En, Nat.eqb_refl.
  destruct (mem_double alloc None (d_val d) _ _) as [v| |] eqn:Ev; [|by left|by apply mem_double_ends in Ev].
  destruct (mem_double alloc None (d_key d) _ _) as [k| |] eqn:Ek; [|by left|by apply mem_double_ends in Ek].
  destruct (mem_double alloc 0%Z (d_hash d) _ _) as [h| |] eqn:Eh; [|by left|by apply mem_double_ends in Eh].
  unfold sizeof_ptr, sizeof_unsigned in *.
  apply mem_double_rest in Ev as (v' & -> & _), Ek as (k' & -> & Hk & Hk'), Eh as (h' & -> & _); try done; try lia.
  cbn [mbind outcome_bind]. unfold INT_MAX in *. destruct (_ <? _)%Z; [by left|]. right. eexists. split; [done|]. cbn.
  split; [|lia]. apply lookup_ge_None. lia.
Qed.

(** The memory dictionary_set may ask for is available. *)
Definition set_memory (alloc : Z -> bool) (d : dictionary) (key : string)
    (val : option string) : bool :=
  alloc (Z.of_nat (String.length key) + 1)%Z &&
  match val with None => true | Some v => alloc (Z.of_nat (String.length v) + 1)%Z end &&
  ((d_n d <? d_size d) ||
   (Z.of_nat (d_size d) <? slots_limit)%Z && alloc (2 * (Z.of_nat (d_size d) * sizeof_ptr))%Z &&
   alloc (2 * (Z.of_nat (d_size d) * sizeof_unsigned))%Z).

Lemma find_key_empty d key : dict_wf d -> d_n d = 0 -> find_key d key = None.
Proof.
  intros W Hn. apply find_key_None; [done|]. intros i Hi.
  destruct (dict_wf_delete d i key W Hi) as (_ & _ & H). lia.
Qed.

Lemma find_key_guard d key :
  dict_wf d -> (if 0 <? d_n d then find_key d key else None) = find_key d key.
Proof.
  intros W. destruct (Nat.ltb_spec 0 (d_n d)); [done|].
  symmetry. apply find_key_empty; [done | lia].
Qed.

Lemma dictionary_set_spec (alloc : Z -> bool) (d : dictionary) (key : string)
    (val : option string)
    (W : dict_wf d) (M : set_memory alloc d key val = true) :
  exists d', dictionary_set alloc d (Some key) val = Done (0%Z, DLive d') /\
             dict_wf d' /\ dict_map d' = <[key := val]> (dict_map d).
Proof.
  unfold set_memory in M. apply andb_true_iff in M as [[Mk Mv]%andb_true_iff Mg].
  assert (forall v, v = val -> xstrdup alloc v = val) as Hdup.
  { intros v ->. destruct val as [v|]; cbn; [by rewrite Mv | done]. }
  unfold dictionary_set. rewrite (find_key_guard d key W), (Hdup val eq_refl).
  destruct (find_key d key) as [i|] eqn:Ef.
  { apply (find_key_Some d key i W) in Ef. eexists. split; [done|].
    by apply dict_wf_update. }
  rewrite (find_key_None d key W) in Ef. unfold dictionary_add.
  assert (exists d1, dictionary_grow alloc d = Done (DLive d1) /\ (d_n d < d_size d \/ (Z.of_nat (d_size d) < slots_limit)%Z)) as (d1 & Eg & Hlim).
  { destruct (Nat.ltb_spec (d_n d) (d_size d)) as [Hlt|Hge].
    - exists d. unfold dictionary_grow. rewrite (proj2 (Nat.eqb_neq _ _)) by lia. auto.
    - cbn [orb] in Mg. apply andb_true_iff in Mg as [[Hl%Z.ltb_lt M1]%andb_true_iff M2].
      pose proof (count_le used (d_key d)) as Hle. rewrite (wf_n d W), (wf_key d W) in Hle.
      rewrite (dictionary_grow_fits alloc d W) by (done || lia). cbn zeta. rewrite M1, M2. eauto. }
  rewrite Eg, bind_Done_eq. destruct (dict_grow_spec alloc d d1 W Hlim Eg) as (W1 & Hm & Hlt & Hfresh).
  destruct (free_slot_probe d1 W1 Hlt) as (r & Hr & Hfree). rewrite Hr. cbn.
  rewrite (Hdup val eq_refl), Mk. eexists. split; [done|]. rewrite <- Hm.
  apply dict_wf_insert; auto.
Qed.

(** dictionary_set on a well-formed dictionary, whenever the memory it may
    ask for is there, ends, returns 0, and leaves a well-formed dictionary
    whose map is the old one with the key bound to the value: a key that is
    there is overwritten, a new one is put in a free slot, after doubling the
    arrays when none is left. *)
Theorem dictionary_set_insert (alloc : Z -> bool) (d : dictionary) (key : string)
    (val : option string)
    (W : dict_wf d) (M : set_memory alloc d key val = true) :
  exists d', dictionary_set alloc d (Some key) val = Done (0%Z, DLive d') /\
             dict_wf d' /\ dict_map d' = <[key := val]> (dict_map d).
Proof. exact (dictionary_set_spec alloc d key val W M). Qed.

Lemma dictionary_get_spec (d : dictionary) (key : string) (def : cptr)
    (W : dict_wf d) :
  dictionary_get d key def = from_option ptr_of def (dict_map d !! key).
Proof.
  unfold dictionary_get. destruct (find_key d key) as [i|] eqn:Ef.
  - apply (find_key_Some d key i W) in Ef.
    destruct (d_val d !! i) as [v|] eqn:Ev; cbn.
    + assert (dict_map d !! key = Some v) as -> by (apply dict_map_Some; eauto). done.
    + apply lookup_ge_None in Ev. apply lookup_lt_Some in Ef.
      rewrite (wf_val d W), <- (wf_key d W) in Ev. lia.
  - rewrite (find_key_None d key W), <- (dict_map_None d key W) in Ef. by rewrite Ef.
Qed.

(** dictionary_get returns the value the map binds to the key (which may be
    NULL), and the default exactly when the key is not in the map. *)
Theorem dictionary_get_lookup (d : dictionary) (key : string) (def : cptr)
    (W : dict_wf d) :
  dictionary_get d key def = from_option ptr_of def (dict_map d !! key).
Proof. exact (dictionary_get_spec d key def W). Qed.

Lemma dictionary_unset_spec (d : dictionary) (key : string) (W : dict_wf d) :
  dict_wf (dictionary_unset d (Some key)) /\
  dict_map (dictionary_unset d (Some key)) = delete key (dict_map d).
Proof.
  cbn. destruct (find_key d key) as [i|] eqn:Ef.
  - apply (find_key_Some d key i W) in Ef.
    destruct (dict_wf_delete d i key W Ef) as (? & ? & _). done.
  - split; [done|]. rewrite (find_key_None d key W), <- (dict_map_None d key W) in Ef.
    by rewrite delete_id.
Qed.

(** An empty dictionary. *)
Lemma dictionary_new_spec (alloc : Z -> bool) size d :
  dictionary_new alloc size = Some (DLive d) ->
  dict_wf d /\ dict_map d = ∅ /\ d_key d = replicate (d_size d) None.
Proof.
  unfold dictionary_new. destruct (alloc sizeof_dictionary); [|done]. cbn zeta.
  pose proof (swrap_range 32 size ltac:(lia)) as Hrange. set (n := if (s32 size <? _)%Z then _ else _).
  destruct (alloc (n * sizeof_ptr)%Z), (alloc (n * sizeof_unsigned)%Z); try done.
  injection 1 as <-.
  assert (dict_wf (Dict 0 (Z.to_nat n) (replicate (Z.to_nat n) None)
            (replicate (Z.to_nat n) None) (replicate (Z.to_nat n) 0%Z))) as W.
  { split; cbn; autorewrite with dragon_len; try done.
    - unfold n, DICTMINSZ. destruct (Z.ltb_spec (s32 size) (Z.of_nat 128)); lia.
    - unfold n, DICTMINSZ, INT_MAX. destruct (Z.ltb_spec (s32 size) (Z.of_nat 128)); lia.
    - by rewrite count_replicate.
    - by intros i k Hi%replicate_lookup_None.
    - by intros i j k Hi%replicate_lookup_None. }
  split; [done|]. split; [|done]. apply dict_map_eq; [done|]. intros k v. split.
  - by rewrite lookup_empty.
  - intros (i & Hi%replicate_lookup_None & _). done.
Qed.

(** ** Histories of operations *)

Inductive dict_op : Type :=
| OpSet (key : string) (val : option string)
| OpUnset (key : string).

Definition dict_step (alloc : Z -> bool) (d : dictionary) (op : dict_op)
    : outcome dictionary :=
  match op with
  | OpSet key val =>
      r ← dictionary_set alloc d (Some key) val;
      match r with (_, DLive d) => Done d | (_, DLost _ _ _) => Fault end
  | OpUnset key => Done (dictionary_unset d (Some key))
  end.

Definition dict_steps (alloc : Z -> bool) : dictionary -> list dict_op -> outcome dictionary :=
  fix go d ops :=
    match ops with
    | [] => Done d
    | op :: ops => d ← dict_step alloc d op; go d ops
    end.

Definition map_step (m : gmap string (option string)) (op : dict_op)
    : gmap string (option string) :=
  match op with
  | OpSet key val => <[key := val]> m
  | OpUnset key => delete key m
  end.

(** The entries of a well-formed dictionary are those of its map. *)
Lemma assoc_count (keys : list (option string)) : forall vals : list (option string), length vals = length keys ->
  length (omap slot_pair (zip keys vals)) = count used keys.
Proof.
  induction keys as [|[k|] keys IH]; intros [|v vals] Hl; cbn in *; try done; rewrite (IH vals); lia.
Qed.

Lemma dict_entries d : dict_wf d -> length (dict_assoc d) = d_n d.
Proof.
  intros W. rewrite <- (wf_n d W). apply assoc_count. by rewrite (wf_val d W), (wf_key d W).
Qed.

Lemma dict_size d : dict_wf d -> size (dict_map d) = d_n d.
Proof.
  intros W. rewrite <- (dict_entries d W), <- (length_map_to_list (dict_map d)). apply Permutation_length.
  unfold dict_map. rewrite map_to_list_to_map; [done|]. by apply dict_assoc_NoDup.
Qed.

(** With unlimited memory, as long as no more than [slots_limit] entries are needed. *)
Lemma dictionary_set_live (alloc : Z -> bool) (d : dictionary) (key : string)
    (val : option string) :
  (forall b, alloc b = true) -> dict_wf d -> (Z.of_nat (size (<[key := val]> (dict_map d))) <= slots_limit)%Z ->
  exists d', dictionary_set alloc d (Some key) val = Done (0%Z, DLive d') /\
             dict_wf d' /\ dict_map d' = <[key := val]> (dict_map d).
Proof.
  intros A W Hs. pose proof (count_le used (d_key d)) as Hle. rewrite (wf_n d W), (wf_key d W) in Hle.
  destruct (dict_map d !! key) as [v|] eqn:Hk.
  - apply dict_map_Some in Hk as (i & Hi & _); [|done]. unfold dictionary_set.
    rewrite (find_key_guard d key W), (proj2 (find_key_Some d key i W) Hi). eexists. split; [done|].
    assert (xstrdup alloc val = val) as -> by (destruct val; cbn; by rewrite ?A). by apply dict_wf_update.
  - rewrite map_size_insert_None, (dict_size d W) in Hs by done. apply dictionary_set_spec; [done|].
    unfold set_memory. destruct val; rewrite !A; cbn [andb]; destruct (Nat.ltb_spec (d_n d) (d_size d)); try done;
      cbn [orb]; rewrite !andb_true_r; apply Z.ltb_lt; unfold slots_limit in *; lia.
Qed.

(** Whatever the number of entries: a result is as it should be. *)
Lemma dictionary_set_result (alloc : Z -> bool) (d : dictionary) (key : string) (val : option string) :
  (forall b, alloc b = true) -> dict_wf d ->
  match dictionary_set alloc d (Some key) val with
  | Done (r, obj) => r = 0%Z /\ exists d', obj = DLive d' /\ dict_wf d' /\ dict_map d' = <[key := val]> (dict_map d)
  | Fault => True
  | Timeout => False
  end.
Proof.
  intros A W. pose proof (count_le used (d_key d)) as Hle. rewrite (wf_n d W), (wf_key d W) in Hle.
  assert ((Z.of_nat (size (<[key := val]> (dict_map d))) <= slots_limit)%Z ->
    match dictionary_set alloc d (Some key) val with
    | Done (r, obj) => r = 0%Z /\ exists d', obj = DLive d' /\ dict_wf d' /\ dict_map d' = <[key := val]> (dict_map d)
    | Fault => True | Timeout => False end) as Hlive.
  { intros Hs. destruct (dictionary_set_live alloc d key val A W Hs) as (d' & -> & ? & ?). eauto. }
  destruct (Z.le_gt_cases (Z.of_nat (size (<[key := val]> (dict_map d)))) slots_limit) as [|Hs]; [by apply Hlive|clear Hlive].
  destruct (dict_map d !! key) as [v|] eqn:Hk.
  - apply dict_map_Some in Hk as (i & Hi & _); [|done]. unfold dictionary_set.
    rewrite (find_key_guard d key W), (proj2 (find_key_Some d key i W) Hi). split; [done|]. eexists. split; [done|].
    assert (xstrdup alloc val = val) as -> by (destruct val; cbn; by rewrite ?A). by apply dict_wf_update.
  - rewrite map_size_insert_None, (dict_size d W) in Hs by done.
    destruct (Nat.ltb_spec (d_n d) (d_size d)) as [Hlt|Hge].
    + destruct (dictionary_set_spec alloc d key val W) as (d' & -> & ? & ?); [|eauto].
      unfold set_memory. rewrite (proj2 (Nat.ltb_lt _ _) Hlt). by destruct val; rewrite !A.
    + rewrite dict_map_None, <- find_key_None in Hk by done. unfold dictionary_set. rewrite (find_key_guard d key W), Hk.
      unfold dictionary_add. destruct (dictionary_grow_beyond alloc d A W) as [->|(d' & -> & Hfree & Hpos)]; [lia|unfold slots_limit in *; lia|done|].
      rewrite bind_Done_eq. destruct (d_size d') as [|n] eqn:En; [lia|]. cbn [free_slot]. by rewrite Hfree.
Qed.

Lemma dict_steps_refine (alloc : Z -> bool) (ops : list dict_op) :
  (forall b, alloc b = true) ->
  forall d, dict_wf d -> (Z.of_nat (d_n d) + Z.of_nat (length ops) <= slots_limit)%Z ->
  exists d', dict_steps alloc d ops = Done d' /\ dict_wf d' /\
             dict_map d' = foldl map_step (dict_map d) ops.
Proof.
  intros A. induction ops as [|[key val|key] ops IH]; intros d W Hn; cbn [dict_steps length] in *.
  - eauto.
  - assert (size (<[key := val]> (dict_map d)) <= S (d_n d)) as Hs.
    { rewrite <- (dict_size d W). destruct (dict_map d !! key) eqn:Hk; [rewrite map_size_insert_Some by eauto; lia|by rewrite map_size_insert_None]. }
    destruct (dictionary_set_live alloc d key val A W) as (d1 & E & W1 & Hm); [lia|].
    cbn [dict_step]. rewrite E. cbn. rewrite <- Hm. apply IH; [done|]. rewrite <- (dict_size d1 W1), Hm. lia.
  - destruct (dictionary_unset_spec d key W) as [W1 Hm]. cbn [foldl map_step dict_step]. rewrite bind_Done_eq, <- Hm.
    apply IH; [done|]. rewrite <- (dict_size _ W1), Hm, map_size_delete. rewrite (dict_size d W). destruct (dict_map d !! key); unfold id; lia.
Qed.

(** C6. Refinement: when memory is not short (every allocation succeeds), from a
    fresh dictionary any sequence of at most 2^27 set and unset operations runs to
    its end without overflow of the sizes, which are ints, and answers every later
    query as the finite map on which the same insertions and deletions were made,
    also after keys were taken out and slots were used again; it counts the entries
    of that map. *)
Theorem dictionary_refines_map (alloc : Z -> bool) (size : Z) (ops : list dict_op)
    (key : string) (def : cptr) (A : forall b, alloc b = true)
    (Hops : (Z.of_nat (length ops) <= slots_limit)%Z) :
  exists d0 d,
    dictionary_new alloc size = Some (DLive d0) /\
    dict_steps alloc d0 ops = Done d /\
    Z.of_nat (d_n d) = Z.of_nat (length (dict_assoc d)) /\
    dictionary_get d key def = from_option ptr_of def (foldl map_step ∅ ops !! key).
Proof.
  destruct (dictionary_new alloc size) as [[d0|? ? ?]|] eqn:E0.
  2,3: unfold dictionary_new in E0; rewrite !A in E0; discriminate.
  destruct (dictionary_new_spec alloc size d0 E0) as (W0 & Hm0 & _).
  destruct (dict_steps_refine alloc ops A d0 W0) as (d & E & W & Hm).
  { by rewrite <- (dict_size d0 W0), Hm0, map_size_empty. }
  exists d0, d. split_and!; [done | done | by rewrite (dict_entries d W)|].
  by rewrite (dictionary_get_spec d key def W), Hm, Hm0.
Qed.

(** dictionary_unset keeps the dictionary well formed and removes the key,
    and only it, from the map; without a key it changes nothing. *)
Theorem dictionary_unset_delete (d : dictionary) (key : option string) (W : dict_wf d) :
  dict_wf (dictionary_unset d key) /\
  dict_map (dictionary_unset d key) =
    match key with Some k => delete k (dict_map d) | None => dict_map d end.
Proof.
  destruct key as [key|]; [by apply dictionary_unset_spec | done].
Qed.

(** When all the slots are used, the key is new and an array cannot be
    doubled, dictionary_set returns -1, and what is left of the dictionary has
    lost that array: if it is the array of values or of keys, deleting the
    dictionary afterwards is a null dereference. *)
Theorem dictionary_set_out_of_memory (alloc : Z -> bool) (d : dictionary)
    (key : string) (val : option string) (W : dict_wf d)
    (Hfull : d_n d = d_size d) (Hnew : dict_map d !! key = None)
    (Hint : (Z.of_nat (d_size d) < slots_limit)%Z)
    (Hmem : alloc (2 * (Z.of_nat (d_size d) * sizeof_ptr))%Z = false) :
  exists lh,
    dictionary_set alloc d (Some key) val = Done ((-1)%Z, DLost true true lh) /\
    dictionary_del (Some (DLost true true lh)) = Fault.
Proof.
  unfold dictionary_set. rewrite (find_key_guard d key W).
  rewrite dict_map_None, <- find_key_None in Hnew by done. rewrite Hnew.
  unfold dictionary_add. rewrite (dictionary_grow_fits alloc d W Hfull Hint), bind_Done_eq. cbn zeta. rewrite Hmem.
  eexists. split; reflexivity.
Qed.

(** When the copy of a new key cannot be allocated, dictionary_set still
    returns 0 and counts the entry, although the key is not in the dictionary
    afterwards: the count of entries is then wrong. *)
Theorem dictionary_set_lost_key (alloc : Z -> bool) (d : dictionary)
    (key : string) (val : option string) (W : dict_wf d)
    (Hroom : d_n d < d_size d) (Hnew : dict_map d !! key = None)
    (Hmem : alloc (Z.of_nat (String.length key) + 1)%Z = false) :
  exists d', dictionary_set alloc d (Some key) val = Done (0%Z, DLive d') /\
             d_n d' = S (d_n d) /\ count used (d_key d') = d_n d /\
             dictionary_get d' key CInvalid = CInvalid.
Proof.
  unfold dictionary_set. rewrite (find_key_guard d key W).
  rewrite dict_map_None in Hnew by done. pose proof Hnew as Hf.
  rewrite <- find_key_None in Hf by done. rewrite Hf.
  unfold dictionary_add, dictionary_grow.
  destruct (Nat.eqb_spec (d_n d) (d_size d)); [lia|].
  rewrite bind_Done_eq. destruct (free_slot_probe d W Hroom) as (r & Hr & Hfree). rewrite Hr. cbn.
  rewrite Hmem. eexists. split; [done|]. cbn. split; [done|].
  rewrite (list_insert_id _ _ _ Hfree). split; [by apply wf_n|].
  unfold dictionary_get, find_key. cbn.
  destruct (find_idx _ _) as [i|] eqn:Ei; [|done].
  apply find_idx_Some in Ei as (([[k|] h] & Hx & Hp) & _); [|done].
  apply lookup_zip_Some in Hx as [Hk _].
  apply andb_true_iff in Hp as [_ ->%String.eqb_eq]. by apply Hnew in Hk.
Qed.

(** ** Concrete instances *)

Definition no_limit (b : Z) : bool := true.

(** A fresh dictionary, one with an entry, and one whose 128 slots are used. *)
Definition empty_dict : dictionary :=
  Dict 0 128 (replicate 128 None) (replicate 128 None) (replicate 128 0%Z).

Definition one_dict : dictionary :=
  Dict 1 128 (Some "builtin" :: replicate 127 None)%string
    (Some "src:library" :: replicate 127 None)%string
    (dictionary_hash "src:library" :: replicate 127 0%Z).

Definition full_keys : list string :=
  (fun i => String (Ascii.ascii_of_nat (S i)) EmptyString) <$> seq 0 128.

Definition full_dict : dictionary :=
  Dict 128 128 (replicate 128 None) (Some <$> full_keys) (dictionary_hash <$> full_keys).

(** A dictionary of 128 slots with the given entries. *)
Definition dict_of (l : list (string * option string)) : dictionary :=
  let free {A} (x : A) := replicate (128 - length l) x in
  Dict (length l) 128 (l.*2 ++ free None) ((Some <$> l.*1) ++ free None)
    ((dictionary_hash <$> l.*1) ++ free 0%Z).

Lemma empty_dict_wf : dict_wf empty_dict.
Proof. apply dict_wfb_sound. vm_compute. reflexivity. Qed.

Lemma one_dict_wf : dict_wf one_dict.
Proof. apply dict_wfb_sound. vm_compute. reflexivity. Qed.

Lemma full_dict_wf : dict_wf full_dict.
Proof. apply dict_wfb_sound. vm_compute. reflexivity. Qed.

Lemma dictionary_set_insert_witness :
  exists d', dictionary_set no_limit full_dict (Some "eq:label"%string) (Some "eq"%string)
               = Done (0%Z, DLive d') /\
             dict_wf d' /\
             dict_map d' = <["eq:label"%string := Some "eq"%string]> (dict_map full_dict).
Proof. apply dictionary_set_insert; [exact full_dict_wf | reflexivity]. Defined.

Lemma dictionary_get_lookup_witness :
  dictionary_get one_dict "src:library" CNull =
  from_option ptr_of CNull (dict_map one_dict !! "src:library"%string).
Proof. apply dictionary_get_lookup. exact one_dict_wf. Defined.

Lemma dictionary_refines_map_witness :
  exists d0 d,
    dictionary_new no_limit 0 = Some (DLive d0) /\
    dict_steps no_limit d0 [OpSet "a" (Some "1"); OpSet "b" None; OpUnset "a"]%string = Done d /\
    Z.of_nat (d_n d) = Z.of_nat (length (dict_assoc d)) /\
    dictionary_get d "a" CInvalid =
      from_option ptr_of CInvalid
        (foldl map_step ∅ [OpSet "a" (Some "1"); OpSet "b" None; OpUnset "a"]%string !! "a"%string).
Proof. apply dictionary_refines_map; [intros b; reflexivity | vm_compute; discriminate]. Defined.

Lemma dictionary_unset_delete_witness :
  dict_wf (dictionary_unset one_dict (Some "src:library"%string)) /\
  dict_map (dictionary_unset one_dict (Some "src:library"%string)) =
    delete "src:library"%string (dict_map one_dict).
Proof. apply (dictionary_unset_delete one_dict (Some "src:library"%string) one_dict_wf). Defined.

(** Requests of more than 1024 bytes fail. *)
Definition small_alloc (b : Z) : bool := (b <=? 1024)%Z.

Lemma dictionary_set_out_of_memory_witness :
  exists lh,
    dictionary_set small_alloc full_dict (Some "new"%string) None
      = Done ((-1)%Z, DLost true true lh) /\
    dictionary_del (Some (DLost true true lh)) = Fault.
Proof.
  apply dictionary_set_out_of_memory;
    [exact full_dict_wf | reflexivity | vm_compute; reflexivity | reflexivity | reflexivity].
Defined.

Lemma dictionary_set_lost_key_witness :
  exists d', dictionary_set (fun b => (b <=? 2)%Z) one_dict (Some "sink:label"%string) None
               = Done (0%Z, DLive d') /\
             d_n d' = 2 /\ count used (d_key d') = 1 /\
             dictionary_get d' "sink:label" CInvalid = CInvalid.
Proof.
  apply (dictionary_set_lost_key (fun b => (b <=? 2)%Z) one_dict "sink:label" None);
    [exact one_dict_wf | vm_compute; lia | vm_compute; reflexivity | reflexivity].
Defined.
