(* ===== verification/IniParser.v ===== *)
(** * IniParser: the ini file parser of audio/hal/iniparser.c

    Lines, files and queries of the parser, over the dictionary of
    [Dictionary].  A key of a section is stored as "section:key", a section as
    a key of its own with a NULL value.  The fixed-size buffers of the C code
    (1025 bytes) are modelled by their contents: an operation that would write
    past the end of one, or read before its start, is a [Fault]. *)

From S2P Require Import Prelude CString Dictionary.

Definition ASCIILINESZ : nat := 1024.

(** typedef enum _line_status_ *)
Inductive line_status : Type :=
| LINE_UNPROCESSED
| LINE_ERROR
| LINE_EMPTY
| LINE_COMMENT
| LINE_SECTION
| LINE_VALUE.

#[export] Instance line_status_eq_dec : EqDecision line_status.
Proof. solve_decision. Defined.

(** ** String helpers *)

(** The copy into the static buffer stops after ASCIILINESZ characters. *)
Definition strlwc (s : string) : string := map_string tolower (stake ASCIILINESZ s).

(** strcpy into the static buffer overflows it when what follows the leading
    blanks is longer than ASCIILINESZ. *)
Definition strstrip (s : string) : outcome string :=
  let s := lskip s in
  if String.length s <=? ASCIILINESZ then Done (rskip s) else Fault.

Arguments strlwc : simpl never.

(** ** Walking the slots *)

(** strchr(key, ':') == NULL *)
Definition is_section (key : string) : bool := negb (has_char ":" key).

Fixpoint nsec_loop (keys : list (option string)) (nsec : Z) : Z :=
  match keys with
  | [] => nsec
  | None :: keys => nsec_loop keys nsec
  | Some k :: keys => nsec_loop keys (if is_section k then nsec + 1 else nsec)%Z
  end.

Definition iniparser_getnsec (d : option dictionary) : Z :=
  match d with None => -1 | Some d => nsec_loop (d_key d) 0 end.

(** The loop stops at the first key with [foundsec > n]; when it ends without,
    [foundsec <= n] and the answer is NULL. *)
Fixpoint secname_loop (keys : list (option string)) (foundsec n : Z) : option string :=
  match keys with
  | [] => None
  | None :: keys => secname_loop keys foundsec n
  | Some k :: keys =>
      if is_section k then
        let foundsec := (foundsec + 1)%Z in
        if (n <? foundsec)%Z then Some k else secname_loop keys foundsec n
      else secname_loop keys foundsec n
  end.

Definition iniparser_getsecname (d : option dictionary) (n : Z) : option string :=
  match d with
  | None => None
  | Some d => if (n <? 0)%Z then None else secname_loop (d_key d) 0 n
  end.

(** ** Queries *)

Definition iniparser_getstring (d : option dictionary) (key : option string) (def : cptr)
    : cptr :=
  match d, key with
  | Some d, Some key => dictionary_get d (strlwc key) def
  | _, _ => def
  end.

Definition iniparser_find_entry (ini : option dictionary) (entry : option string) : Z :=
  match iniparser_getstring ini entry CInvalid with
  | CInvalid => 0
  | _ => 1
  end.

(** [long] has [w] bits; the result is converted to [int].  A NULL value is
    handed to strtol. *)
Definition iniparser_getint (w : Z) (d : option dictionary) (key : option string)
    (notfound : Z) : outcome Z :=
  match iniparser_getstring d key CInvalid with
  | CInvalid => Done notfound
  | CNull => Fault
  | CStr str => Done (s32 (strtol w 0 str).1)
  end.

(** [atof] is the C library's. *)
Definition iniparser_getdouble {double} (atof : string -> double)
    (d : option dictionary) (key : option string) (notfound : double) : outcome double :=
  match iniparser_getstring d key CInvalid with
  | CInvalid => Done notfound
  | CNull => Fault
  | CStr str => Done (atof str)
  end.

Definition one_of (cs : string) (c : ascii) : bool := has_char c cs.

Definition iniparser_getboolean (d : option dictionary) (key : option string)
    (notfound : Z) : outcome Z :=
  match iniparser_getstring d key CInvalid with
  | CInvalid => Done notfound
  | CNull => Fault
  | CStr c =>
      Done (if one_of "yY1tT" (shead c) then 1
            else if one_of "nN0fF" (shead c) then 0
            else notfound)%Z
  end.

(** sprintf(keym, "%s:", s) into a buffer of ASCIILINESZ+1 bytes. *)
Definition sec_prefix (s : string) : outcome string :=
  if String.length s + 1 <=? ASCIILINESZ then Done (s +:+ ":") else Fault.

(** !strncmp(d->key[j], keym, seclen+1) *)
Definition in_section (keym : string) (key : string) : bool := String.prefix keym key.

Fixpoint secnkeys_loop (keym : string) (keys : list (option string)) (nkeys : Z) : Z :=
  match keys with
  | [] => nkeys
  | None :: keys => secnkeys_loop keym keys nkeys
  | Some k :: keys =>
      secnkeys_loop keym keys (if in_section keym k then nkeys + 1 else nkeys)%Z
  end.

Definition iniparser_getsecnkeys (d : option dictionary) (s : string) : outcome Z :=
  match d with
  | None => Done 0%Z
  | Some d' =>
      if (iniparser_find_entry d (Some s) =? 0)%Z then Done 0%Z
      else keym ← sec_prefix s; Done (secnkeys_loop keym (d_key d') 0)
  end.

(** [keys] has room for [nkeys] pointers: a write at index [nkeys] or above
    is out of its bounds. *)
Fixpoint seckeys_loop (keym : string) (nkeys : Z) (slots : list (option string))
    (keys : list string) : outcome (list string) :=
  match slots with
  | [] => Done keys
  | None :: slots => seckeys_loop keym nkeys slots keys
  | Some k :: slots =>
      if in_section keym k then
        if (Z.of_nat (length keys) <? nkeys)%Z
        then seckeys_loop keym nkeys slots (keys ++ [k]) else Fault
      else seckeys_loop keym nkeys slots keys
  end.

(** NULL, or the array of the keys of the section. *)
Definition iniparser_getseckeys (d : option dictionary) (s : string)
    : outcome (option (list string)) :=
  match d with
  | None => Done None
  | Some d' =>
      if (iniparser_find_entry d (Some s) =? 0)%Z then Done None
      else nkeys ← iniparser_getsecnkeys d s;
           keym ← sec_prefix s;
           keys ← seckeys_loop keym nkeys (d_key d') [];
           Done (Some keys)
  end.

(** ** Dumps: the text written to the file *)

Fixpoint dump_all (keys vals : list (option string)) : string :=
  match keys, vals with
  | Some k :: keys, Some v :: vals =>
      "[" +:+ k +:+ "]=[" +:+ v +:+ "]" +:+ nl +:+ dump_all keys vals
  | Some k :: keys, None :: vals =>
      "[" +:+ k +:+ "]=UNDEF" +:+ nl +:+ dump_all keys vals
  | None :: keys, _ :: vals => dump_all keys vals
  | _, _ => EmptyString
  end.

Definition iniparser_dump (d : option dictionary) : string :=
  match d with None => EmptyString | Some d => dump_all (d_key d) (d_val d) end.

(** fprintf(f, "%-30s = %s\n", d->key[j]+seclen+1, ...) *)
Definition dump_entry (key : string) (val : option string) : string :=
  padr 30 key +:+ " = " +:+ default EmptyString val +:+ nl.

Fixpoint dumpsection_loop (keym : string) (keys vals : list (option string)) : string :=
  match keys, vals with
  | Some k :: keys, v :: vals =>
      (if in_section keym k then dump_entry (sdrop (String.length keym) k) v
       else EmptyString) +:+ dumpsection_loop keym keys vals
  | None :: keys, _ :: vals => dumpsection_loop keym keys vals
  | _, _ => EmptyString
  end.

Definition iniparser_dumpsection_ini (d : dictionary) (s : string) : outcome string :=
  if (iniparser_find_entry (Some d) (Some s) =? 0)%Z then Done EmptyString
  else
    keym ← sec_prefix s;
    Done (nl +:+ "[" +:+ s +:+ "]" +:+ nl
          +:+ dumpsection_loop keym (d_key d) (d_val d) +:+ nl).

(** Without a section every key is written as it is; a NULL value is handed to
    ["%s"]. *)
Fixpoint dump_flat (keys vals : list (option string)) : outcome string :=
  match keys, vals with
  | Some k :: keys, Some v :: vals =>
      rest ← dump_flat keys vals; Done (k +:+ " = " +:+ v +:+ nl +:+ rest)
  | Some _ :: _, None :: _ => Fault
  | None :: keys, _ :: vals => dump_flat keys vals
  | _, _ => Done EmptyString
  end.

(** for (i=0 ; i<nsec ; i++): [todo] sections are left, the next is [i]. *)
Fixpoint dump_sections (d : dictionary) (todo : nat) (i : Z) : outcome string :=
  match todo with
  | 0 => Done EmptyString
  | S todo =>
      secname ← access (iniparser_getsecname (Some d) i);
      text ← iniparser_dumpsection_ini d secname;
      rest ← dump_sections d todo (i + 1)%Z;
      Done (text +:+ rest)
  end.

Definition iniparser_dump_ini (d : option dictionary) : outcome string :=
  match d with
  | None => Done EmptyString
  | Some d =>
      let nsec := iniparser_getnsec (Some d) in
      if (nsec <? 1)%Z then dump_flat (d_key d) (d_val d)
      else text ← dump_sections d (Z.to_nat nsec) 0; Done (text +:+ nl)
  end.

(** ** One line *)

Definition fmt_section : list directive := [SLit "["; SSet true "]"].
Definition fmt_dquote : list directive :=
  [SSet true "="; SWs; SLit "="; SWs; SLit dquote; SSet true (String dquote EmptyString); SLit dquote].
Definition fmt_squote : list directive :=
  [SSet true "="; SWs; SLit "="; SWs; SLit "'"; SSet true "'"; SLit "'"].
Definition fmt_plain : list directive :=
  [SSet true "="; SWs; SLit "="; SWs; SSet true ";#"].
Definition fmt_comment : list directive :=
  [SSet true "="; SWs; SLit "="; SWs; SSet false ";#"].
Definition fmt_empty : list directive := [SSet true "="; SWs; SSet false "="].

(** What sscanf(line, fmt, key, value) leaves in the two buffers, and whether
    it returned 2. *)
Definition scan_pair (fmt : list directive) (line : string) (kv : string * string)
    : (string * string) * bool :=
  match sscanf fmt line with
  | [] => (kv, false)
  | [k] => ((k, kv.2), false)
  | k :: v :: _ => ((k, v), true)
  end.

(** sscanf(..) == 2 || sscanf(..) == 2 || ...: every attempt writes the
    buffers. *)
Fixpoint scan_any (fmts : list (list directive)) (line : string) (kv : string * string)
    : (string * string) * bool :=
  match fmts with
  | [] => (kv, false)
  | fmt :: fmts =>
      let (kv, ok) := scan_pair fmt line kv in
      if ok then (kv, true) else scan_any fmts line kv
  end.

(** The buffers of the parser: section, key and value. *)
Record buffers : Type := Buf { b_section : string; b_key : string; b_value : string }.

Definition iniparser_line (input_line : string) (b : buffers)
    : outcome (line_status * buffers) :=
  line ← strstrip input_line;
  let kv := (b_key b, b_value b) in
  if String.length line <? 1 then Done (LINE_EMPTY, b)
  else if Ascii.eqb (shead line) "#" || Ascii.eqb (shead line) ";" then
    Done (LINE_COMMENT, b)
  else if Ascii.eqb (shead line) "[" && Ascii.eqb (slast line) "]" then
    let section := match sscanf fmt_section line with s :: _ => s | [] => b_section b end in
    section ← strstrip section;
    Done (LINE_SECTION, Buf (strlwc section) (b_key b) (b_value b))
  else
    let (kv, ok) := scan_any [fmt_dquote; fmt_squote; fmt_plain] line kv in
    if ok then
      key ← strstrip kv.1;
      value ← strstrip kv.2;
      let value := if String.eqb value (String dquote (String dquote EmptyString)) || String.eqb value "''"
                   then EmptyString else value in
      Done (LINE_VALUE, Buf (b_section b) (strlwc key) value)
    else
      let (kv, ok) := scan_any [fmt_comment; fmt_empty] line kv in
      if ok then
        key ← strstrip kv.1;
        Done (LINE_VALUE, Buf (b_section b) (strlwc key) EmptyString)
      else Done (LINE_ERROR, Buf (b_section b) kv.1 kv.2).

(** ** A whole file *)

(** fgets(buf, size, in): at most [size - 1] characters, up to and with the
    first newline; the characters and the rest of the file, [None] (NULL) at
    its end. *)
Fixpoint take_line (n : nat) (s : string) : string * string :=
  match n, s with
  | S n, String c s =>
      if Ascii.eqb c nl_char then (String c EmptyString, s)
      else let (a, b) := take_line n s in (String c a, b)
  | _, _ => (EmptyString, s)
  end.

Definition fgets (size : nat) (s : string) : option (string * string) :=
  match s with
  | EmptyString => None
  | _ => Some (take_line (size - 1) s)
  end.

Section Load.
Context (alloc : Z -> bool).

(** The variables of the loop: the dictionary, the section/key/value buffers,
    the first [last] characters of [line] (what a continued line left there),
    and [errs]. *)
Record load_state : Type := Ls {
  ls_dict : dict_obj;
  ls_buf : buffers;
  ls_prefix : string;
  ls_errs : Z
}.

(** One turn of the loop ends with [continue] or by falling through (the loop
    goes on), with [return NULL], or with [break]. *)
Inductive turn : Type :=
| Next (st : load_state)
| ReturnNull
| Break (st : load_state).

(** dictionary_set on the dictionary of the loop. *)
Definition set_dict (dict : dict_obj) (key : string) (val : option string)
    : outcome (Z * dict_obj) :=
  match dict with
  | DLive d => dictionary_set alloc d (Some key) val
  | DLost _ _ _ => Fault
  end.

(** The switch on the status of the line. *)
Definition load_status (sta : line_status) (b : buffers) (dict : dict_obj) (errs : Z)
    : outcome (Z * dict_obj) :=
  match sta with
  | LINE_SECTION => set_dict dict (b_section b) None
  | LINE_VALUE =>
      let tmp := b_section b +:+ ":" +:+ b_key b in
      if String.length tmp <=? ASCIILINESZ then set_dict dict tmp (Some (b_value b))
      else Fault
  | LINE_ERROR => Done ((errs + 1)%Z, dict)
  | LINE_UNPROCESSED | LINE_EMPTY | LINE_COMMENT => Done (errs, dict)
  end.

Definition load_turn (chunk : string) (st : load_state) : outcome turn :=
  let line := cstr (ls_prefix st +:+ chunk) in
  let len := (Z.of_nat (String.length line) - 1)%Z in
  if (len =? 0)%Z then Done (Next st)
  else if (len <? 0)%Z then Fault                        (* line[-1] *)
  else if negb (Ascii.eqb (slast line) nl_char) then
    _ ← dictionary_del (Some (ls_dict st)); Done ReturnNull
  else
    let line := rskip line in
    if String.length line =? 0 then Fault                (* line[-1] *)
    else if Ascii.eqb (slast line) "\" then
      Done (Next (Ls (ls_dict st) (ls_buf st)
                     (stake (String.length line - 1) line) (ls_errs st)))
    else
      '(sta, b) ← iniparser_line line (ls_buf st);
      '(errs, dict) ← load_status sta b (ls_dict st) (ls_errs st);
      let st := Ls dict b EmptyString errs in
      Done (if (errs <? 0)%Z then Break st else Next st).

(** if (errs) { dictionary_del(dict); dict = NULL; } *)
Definition load_end (st : load_state) : outcome (option dict_obj) :=
  if (ls_errs st =? 0)%Z then Done (Some (ls_dict st))
  else _ ← dictionary_del (Some (ls_dict st)); Done None.

Fixpoint load_loop (fuel : nat) (file : string) (st : load_state)
    : outcome (option dict_obj) :=
  match fuel with
  | 0 => Timeout
  | S fuel =>
      match fgets (ASCIILINESZ - String.length (ls_prefix st)) file with
      | None => load_end st
      | Some (chunk, file) =>
          t ← load_turn chunk st;
          match t with
          | Next st => load_loop fuel file st
          | ReturnNull => Done None
          | Break st => load_end st
          end
      end
  end.

(** [in]: the contents of the file, [None] when it cannot be opened.  The
    result is NULL or the dictionary. *)
Definition iniparser_load (file : option string) : outcome (option dict_obj) :=
  match file with
  | None => Done None
  | Some file =>
      match dictionary_new alloc 0 with
      | None => Done None
      | Some dict =>
          load_loop (S (String.length file)) file
            (Ls dict (Buf EmptyString EmptyString EmptyString) EmptyString 0)
      end
  end.

Definition iniparser_set (ini : dictionary) (entry : option string) (val : option string)
    : outcome (Z * dict_obj) :=
  dictionary_set alloc ini (strlwc <$> entry) val.

End Load.

Definition iniparser_unset (ini : dictionary) (entry : option string) : dictionary :=
  dictionary_unset ini (strlwc <$> entry).

Definition iniparser_freedict (d : option dict_obj) : outcome unit := dictionary_del d.

(** ** Sections and their keys *)

(** The section names, and the keys with a given prefix, in slot order. *)
Fixpoint keys_such (p : string -> bool) (keys : list (option string)) : list string :=
  match keys with
  | [] => []
  | None :: keys => keys_such p keys
  | Some k :: keys => if p k then k :: keys_such p keys else keys_such p keys
  end.

Definition sections (d : dictionary) : list string := keys_such is_section (d_key d).

Lemma elem_of_keys_such p keys k :
  k ∈ keys_such p keys <-> p k = true /\ Some k ∈ keys.
Proof.
  induction keys as [|[k'|] keys IH]; cbn.
  - split; [intros H; inversion H | intros [_ H]; inversion H].
  - destruct (p k') eqn:E; rewrite ?elem_of_cons, IH.
    + split; [intros [->|[? ?]]; auto | intros [? [[= ->]|?]]; auto].
    + split; [intros [? ?]; auto | intros [? [[= ->]|?]]; [congruence | auto]].
  - rewrite IH, elem_of_cons.
    split; [intros [? ?]; auto | intros [? [[=]|?]]; auto].
Qed.

Lemma nsec_loop_spec keys nsec :
  nsec_loop keys nsec = (nsec + Z.of_nat (length (keys_such is_section keys)))%Z.
Proof.
  revert nsec. induction keys as [|[k|] keys IH]; intros nsec; cbn; [lia | | apply IH].
  destruct (is_section k); rewrite IH; cbn; lia.
Qed.

Lemma secname_loop_spec keys foundsec n :
  (foundsec <= n)%Z ->
  secname_loop keys foundsec n = keys_such is_section keys !! Z.to_nat (n - foundsec).
Proof.
  revert foundsec. induction keys as [|[k|] keys IH]; intros f Hf; cbn; [done | |by apply IH].
  destruct (is_section k); [|by apply IH].
  destruct (Z.ltb_spec n (f + 1)) as [Hn|Hn].
  - by replace (Z.to_nat (n - f)) with 0 by lia.
  - rewrite IH by lia. by replace (Z.to_nat (n - f)) with (S (Z.to_nat (n - (f + 1)))) by lia.
Qed.

Lemma iniparser_getnsec_spec d :
  iniparser_getnsec (Some d) = Z.of_nat (length (sections d)).
Proof. cbn. rewrite nsec_loop_spec. unfold sections. lia. Qed.

Lemma iniparser_getsecname_spec d n :
  iniparser_getsecname (Some d) n =
  if (n <? 0)%Z then None else sections d !! Z.to_nat n.
Proof.
  cbn. destruct (Z.ltb_spec n 0); [done|].
  rewrite secname_loop_spec by done. by rewrite Z.sub_0_r.
Qed.

(** The names iniparser_getsecname returns for 0, 1, ..., nsec - 1 are
    exactly the keys of the dictionary without a colon, each of them once;
    any other index gives NULL. *)
Theorem iniparser_sections_enumerated (d : dictionary) (W : dict_wf d) :
  (forall n, is_Some (iniparser_getsecname (Some d) n) <->
             (0 <= n < iniparser_getnsec (Some d))%Z) /\
  (forall k, (exists n, iniparser_getsecname (Some d) n = Some k) <->
             is_section k = true /\ is_Some (dict_map d !! k)) /\
  (forall n m k, iniparser_getsecname (Some d) n = Some k ->
                 iniparser_getsecname (Some d) m = Some k -> n = m).
Proof.
  assert (NoDup (sections d)) as Hnd.
  { unfold sections. pose proof (wf_unique d W) as U. revert U.
    induction (d_key d) as [|[k|] ks IH]; intros U; cbn; [constructor | |].
    - destruct (is_section k) eqn:E.
      + apply list.NoDup_cons. split.
        * rewrite elem_of_keys_such. intros [_ [i Hi]%list_elem_of_lookup].
          by pose proof (U 0 (S i) k eq_refl Hi).
        * apply IH. intros i j x Hi Hj. by injection (U (S i) (S j) x Hi Hj).
      + apply IH. intros i j x Hi Hj. by injection (U (S i) (S j) x Hi Hj).
    - apply IH. intros i j x Hi Hj. by injection (U (S i) (S j) x Hi Hj). }
  split; [|split].
  - intros n. rewrite iniparser_getsecname_spec, iniparser_getnsec_spec.
    destruct (Z.ltb_spec n 0).
    + split; [intros [? [=]] | lia].
    + rewrite lookup_lt_is_Some. lia.
  - intros k. transitivity (k ∈ sections d).
    + rewrite list_elem_of_lookup. split.
      * intros [n Hn]. rewrite iniparser_getsecname_spec in Hn.
        destruct (n <? 0)%Z; [done | by eexists].
      * intros [i Hi]. exists (Z.of_nat i). rewrite iniparser_getsecname_spec.
        destruct (Z.ltb_spec (Z.of_nat i) 0); [lia|]. by rewrite Nat2Z.id.
    + unfold sections. rewrite elem_of_keys_such. f_equiv. rewrite list_elem_of_lookup.
      rewrite <- not_eq_None_Some, (dict_map_None d k W). split.
      * intros [i Hi] Hn. by apply (Hn i).
      * intros Hn. destruct (find_key d k) as [i|] eqn:Ef.
        -- apply (find_key_Some d k i W) in Ef. eauto.
        -- destruct Hn. by apply find_key_None.
  - intros n m k. rewrite !iniparser_getsecname_spec.
    destruct (Z.ltb_spec n 0), (Z.ltb_spec m 0); try done. intros Hn Hm.
    pose proof (NoDup_lookup _ _ _ _ Hnd Hn Hm). lia.
Qed.

Lemma secnkeys_loop_spec keym keys n :
  secnkeys_loop keym keys n
  = (n + Z.of_nat (length (keys_such (in_section keym) keys)))%Z.
Proof.
  revert n. induction keys as [|[k|] keys IH]; intros n; cbn; [lia | | apply IH].
  destruct (in_section keym k); rewrite IH; cbn; lia.
Qed.

Lemma seckeys_loop_spec keym nkeys slots keys :
  (Z.of_nat (length keys + length (keys_such (in_section keym) slots)) <= nkeys)%Z ->
  seckeys_loop keym nkeys slots keys
  = Done (keys ++ keys_such (in_section keym) slots).
Proof.
  revert keys. induction slots as [|[k|] slots IH]; intros keys Hn; cbn in *.
  - by rewrite app_nil_r.
  - destruct (in_section keym k); [|by apply IH]. cbn in Hn.
    destruct (Z.ltb_spec (Z.of_nat (length keys)) nkeys); [|lia].
    rewrite IH; [by rewrite <- app_assoc | rewrite length_app; cbn; lia].
  - by apply IH.
Qed.

(** iniparser_getseckeys never writes past the array it allocates: when the
    key count of the section is [n], it returns exactly [n] keys, and these are
    the keys of the dictionary that start with "section:". *)
Theorem iniparser_getseckeys_fits (d : dictionary) (s : string) (n : Z)
    (W : dict_wf d)
    (Hf : iniparser_find_entry (Some d) (Some s) = 1%Z)
    (Hn : iniparser_getsecnkeys (Some d) s = Done n) :
  exists keys,
    iniparser_getseckeys (Some d) s = Done (Some keys) /\
    Z.of_nat (length keys) = n /\
    forall k, k ∈ keys <-> (exists x, k = s +:+ ":" +:+ x) /\ is_Some (dict_map d !! k).
Proof.
  unfold iniparser_getseckeys. rewrite Hf, Hn. cbn [Z.eqb].
  unfold iniparser_getsecnkeys in Hn. rewrite Hf in Hn. cbn [Z.eqb] in Hn.
  unfold sec_prefix in *. destruct (_ <=? _); [|done].
  cbn in Hn |- *. injection Hn as <-. rewrite secnkeys_loop_spec.
  rewrite (seckeys_loop_spec (s +:+ ":")) by (cbn; lia). cbn.
  eexists. split; [done|]. split; [done|]. intros k. rewrite elem_of_keys_such.
  unfold in_section. f_equiv.
  - split.
    + intros [x ->]%prefix_true. exists x. by rewrite sapp_assoc.
    + intros [x ->]. replace (s +:+ String ":" x) with ((s +:+ ":") +:+ x)
        by apply sapp_assoc. apply prefix_app.
  - rewrite <- not_eq_None_Some, (dict_map_None d k W), list_elem_of_lookup. split.
    + intros [i Hi] Hx. by apply (Hx i).
    + intros Hx. destruct (find_key d k) as [i|] eqn:Ef.
      * apply (find_key_Some d k i W) in Ef. eauto.
      * destruct Hx. by apply find_key_None.
Qed.
