(* ===== verification/IniLoad.v ===== *)
(** * IniLoad: the loop that reads an ini file

    The loop of iniparser_load reads at least one character per turn, so it does
    not run for ever; the dictionary it returns, if it does, is well formed and its
    keys are in lower case, as the queries expect. *)

From S2P Require Import Prelude CString Dictionary IniParser.

(** ** Case *)

Definition lower (s : string) : bool := sall (fun c => negb (isupper c)) s.

Lemma tolower_lower c : isupper (tolower c) = false.
Proof. by destruct c as [[] [] [] [] [] [] [] []]. Qed.

Lemma tolower_id c : negb (isupper c) = true -> tolower c = c.
Proof. unfold tolower. by destruct (isupper c). Qed.

Lemma lower_strlwc s : lower (strlwc s) = true.
Proof.
  unfold strlwc, lower. generalize (stake ASCIILINESZ s) as t.
  induction t as [|c t IH]; cbn [map_string sall]; [done|].
  by rewrite tolower_lower, IH.
Qed.

Lemma slength_map_string f s : String.length (map_string f s) = String.length s.
Proof. induction s as [|c s IH]; cbn; auto. Qed.

Lemma slength_strlwc s : String.length (strlwc s) <= ASCIILINESZ.
Proof. unfold strlwc. rewrite slength_map_string, slength_stake. lia. Qed.

Lemma strlwc_id s : lower s = true -> String.length s <= ASCIILINESZ -> strlwc s = s.
Proof.
  intros Hl Hn. unfold strlwc. rewrite stake_all by done.
  exact (map_string_id _ _ _ tolower_id Hl).
Qed.

(** ** The invariant of the loop *)

(** A key the parser may store. *)
Definition stored_key (k : string) : Prop := lower k = true /\ String.length k <= ASCIILINESZ.

Record load_inv (st : load_state) (d : dictionary) : Prop := {
  li_dict : ls_dict st = DLive d;
  li_wf : dict_wf d;
  li_keys : forall k, is_Some (dict_map d !! k) -> stored_key k;
  li_section : stored_key (b_section (ls_buf st));
  li_prefix : String.length (ls_prefix st) + 2 < ASCIILINESZ;
  li_errs : (0 <= ls_errs st)%Z
}.

Lemma take_line_length n s a b :
  take_line n s = (a, b) ->
  String.length a <= n /\ String.length a + String.length b = String.length s /\
  (0 < n -> s <> EmptyString -> 0 < String.length a).
Proof.
  revert s a b. induction n as [|n IH]; intros s a b; cbn.
  { intros [= <- <-]. cbn. split_and!; lia. }
  destruct s as [|c s]; [intros [= <- <-]; cbn; split_and!; [lia | lia | done]|].
  destruct (Ascii.eqb c nl_char).
  - intros [= <- <-]. cbn. split_and!; lia.
  - destruct (take_line n s) as [a' b'] eqn:E. intros [= <- <-].
    apply IH in E as (? & ? & _). cbn. split_and!; lia.
Qed.

Lemma iniparser_line_section line b sta b' :
  stored_key (b_section b) -> iniparser_line line b = Done (sta, b') ->
  stored_key (b_section b') /\ (sta = LINE_VALUE -> lower (b_key b') = true).
Proof.
  intros Hs. unfold iniparser_line. intros H. outcome_inv.
  assert (forall s, stored_key (strlwc s)) as Hk.
  { intros s. split; [apply lower_strlwc | apply slength_strlwc]. }
  repeat first [case_match | progress outcome_inv]; split;
    cbn [b_section b_key]; try done; auto using lower_strlwc.
Qed.

Lemma insert_keys (m : gmap string (option string)) key val :
  (forall k, is_Some (m !! k) -> stored_key k) -> stored_key key ->
  forall k, is_Some (<[key := val]> m !! k) -> stored_key k.
Proof.
  intros Hm Hk k. destruct (decide (key = k)) as [<-|Hne]; [done|].
  rewrite lookup_insert_ne by done. auto.
Qed.

Section Load.
Context (alloc : Z -> bool) (A : forall b, alloc b = true).

Lemma load_status_inv sta b d errs r :
  dict_wf d -> (forall k, is_Some (dict_map d !! k) -> stored_key k) ->
  stored_key (b_section b) -> (sta = LINE_VALUE -> lower (b_key b) = true) ->
  (0 <= errs)%Z ->
  load_status alloc sta b (DLive d) errs = Done r ->
  exists d', r.2 = DLive d' /\ dict_wf d' /\
    (forall k, is_Some (dict_map d' !! k) -> stored_key k) /\ (0 <= r.1)%Z.
Proof.
  intros W Hk Hs Hl He. unfold load_status, set_dict.
  destruct sta; try (intros [= <-]; exists d; split_and!; done || (cbn; lia)).
  - pose proof (dictionary_set_result alloc d (b_section b) None A W) as Hr.
    destruct (dictionary_set _ _ _ _) as [[ret obj]| |]; [|done|done]. destruct Hr as (-> & d' & -> & W' & Hm).
    intros [= <-]. exists d'. rewrite Hm. split_and!; try done. by apply insert_keys.
  - set (tmp := b_section b +:+ _). destruct (Nat.leb_spec (String.length tmp) ASCIILINESZ);
      [|discriminate].
    pose proof (dictionary_set_result alloc d tmp (Some (b_value b)) A W) as Hr.
    destruct (dictionary_set _ _ _ _) as [[ret obj]| |]; [|done|done]. destruct Hr as (-> & d' & -> & W' & Hm).
    intros [= <-]. exists d'. rewrite Hm. split_and!; try done. apply insert_keys; [done|].
    split; [|done]. unfold tmp, lower. rewrite !sall_app. cbn.
    destruct Hs as [Hs _]. unfold lower in *. by rewrite Hs, Hl.
Qed.

Lemma load_turn_inv chunk st d t :
  load_inv st d -> String.length (ls_prefix st) + String.length chunk < ASCIILINESZ ->
  load_turn alloc chunk st = Done t ->
  match t with
  | Next st' => exists d', load_inv st' d'
  | ReturnNull => True
  | Break _ => False
  end.
Proof.
  intros [Hd W Hk Hs Hp He] Hlen. unfold load_turn.
  set (line := cstr _).
  assert (String.length line < ASCIILINESZ) as Hl.
  { pose proof (slength_cstr (ls_prefix st +:+ chunk)) as H.
    rewrite slength_app in H. unfold line. lia. }
  destruct (Z.eqb_spec (Z.of_nat (String.length line) - 1) 0).
  { intros [= <-]. exists d. by split. }
  destruct (Z.ltb_spec (Z.of_nat (String.length line) - 1) 0); [done|].
  destruct (Ascii.eqb_spec (slast line) nl_char) as [Hnl|]; cbn [negb].
  2:{ intros H1. outcome_inv. done. }
  assert (String.length (rskip line) < String.length line) as Hr.
  { apply rskip_last_space. by rewrite Hnl. }
  destruct (Nat.eqb_spec (String.length (rskip line)) 0); [done|].
  destruct (Ascii.eqb (slast (rskip line)) "\").
  - intros [= <-]. exists d. split; cbn; try done. rewrite slength_stake. lia.
  - intros H1. outcome_inv. destruct a as [sta b].
    apply bind_Done in H1 as ([errs dict] & E1 & H1).
    destruct (iniparser_line_section _ _ _ _ Hs E) as [Hs' Hv].
    rewrite Hd in E1.
    destruct (load_status_inv _ _ _ _ _ W Hk Hs' Hv He E1) as (d' & Hd' & W' & Hk' & He').
    cbn in Hd', He'. destruct (Z.ltb_spec errs 0); [lia|].
    injection H1 as <-. exists d'. split; cbn; auto. unfold ASCIILINESZ. lia.
Qed.

Lemma load_status_ends sta b d errs :
  dict_wf d -> load_status alloc sta b (DLive d) errs <> Timeout.
Proof.
  intros W. unfold load_status, set_dict. destruct sta; try done.
  - pose proof (dictionary_set_result alloc d (b_section b) None A W). by destruct (dictionary_set _ _ _ _).
  - destruct (_ <=? _); [|done].
    pose proof (dictionary_set_result alloc d (b_section b +:+ ":" +:+ b_key b) (Some (b_value b)) A W).
    by destruct (dictionary_set _ _ _ _).
Qed.

Lemma iniparser_line_ends line b : iniparser_line line b <> Timeout.
Proof.
  unfold iniparser_line, strstrip. intros H.
  repeat first [discriminate | case_match; cbn in H | progress cbn in H].
Qed.

Lemma load_turn_ends chunk st d : load_inv st d -> load_turn alloc chunk st <> Timeout.
Proof.
  intros [Hd W _ _ _ _]. unfold load_turn. rewrite Hd.
  repeat case_match; try done; cbn.
  destruct (iniparser_line _ _) as [[sta b]| |] eqn:E; cbn; try done.
  - destruct (load_status alloc sta b (DLive d) (ls_errs st)) as [[errs dict]| |] eqn:E1; cbn;
      try done. by apply load_status_ends in E1.
  - by apply iniparser_line_ends in E.
Qed.

Lemma load_loop_total fuel file st d :
  load_inv st d -> String.length file < fuel ->
  match load_loop alloc fuel file st with
  | Timeout => False
  | Done (Some obj) =>
      exists d, obj = DLive d /\ dict_wf d /\ forall k, is_Some (dict_map d !! k) -> stored_key k
  | _ => True
  end.
Proof.
  revert file st d. induction fuel as [|fuel IH]; intros file st d I Hf; [lia|].
  cbn [load_loop]. destruct file as [|c file]; cbn [fgets].
  - unfold load_end. destruct I as [Hd W Hk _ _ _]. rewrite Hd.
    destruct (ls_errs st =? 0)%Z; cbn; eauto.
  - destruct (take_line _ _) as [chunk rest] eqn:Et. pose proof (li_prefix _ _ I) as Hp.
    apply take_line_length in Et as (Hc1 & Hc2 & Hc3).
    assert (0 < String.length chunk) as Hpos by (apply Hc3; [lia | done]).
    pose proof (load_turn_ends chunk st d I) as Ht.
    pose proof (load_turn_inv chunk st d) as Hi.
    destruct (load_turn alloc chunk st) as [t| |]; cbn; try done.
    specialize (Hi t I ltac:(lia) eq_refl). destruct t as [st'| |st']; [|done|done].
    destruct Hi as [d' Hi]. apply (IH rest st' d'); [done | cbn in *; lia].
Qed.
Lemma load_result file :
  match iniparser_load alloc file with
  | Timeout => False
  | Done (Some obj) =>
      exists d, obj = DLive d /\ dict_wf d /\ forall k, is_Some (dict_map d !! k) -> stored_key k
  | _ => True
  end.
Proof.
  destruct file as [file|]; cbn [iniparser_load]; [|done].
  destruct (dictionary_new alloc 0) as [[d|? ? ?]|] eqn:En; [| |done].
  2:{ unfold dictionary_new in En. rewrite !A in En. done. }
  destruct (dictionary_new_spec alloc 0 d En) as (W & Hm & _).
  apply (load_loop_total (S (String.length file)) file _ d); [|lia].
  split; cbn; try done.
  - intros k. rewrite Hm, lookup_empty. by intros [? ?].
  - split; [done | cbn; lia].
  - unfold ASCIILINESZ. lia.
Qed.
End Load.
