(* ===== verification/IniRoundTrip.v ===== *)
(** * IniRoundTrip: saving a dictionary and loading it back

    iniparser_dump_ini writes a dictionary as the text of an ini file; loading
    that text gives back the same map, for every dictionary of which the names
    and values can be written in an ini file ([printable]).  The proof goes
    line by line: each kind of line the dump writes is read back by
    iniparser_line as what it stands for. *)

From S2P Require Import Prelude CString Dictionary IniParser IniLoad.

(** ** What can be written in a file *)

(** A character that stays on its line. *)
Definition line_char (c : ascii) : bool :=
  negb (Ascii.eqb c nul_char) && negb (Ascii.eqb c nl_char).

Definition no_blank_ends (s : string) : bool :=
  negb (isspace (shead s)) && negb (isspace (slast s)).

(** A section name: not empty, in lower case, no colon, no closing bracket. *)
Definition good_section (s : string) : bool :=
  (0 <? String.length s) && (String.length s <=? 1000) && no_blank_ends s &&
  sall line_char s && lower s && is_section s && negb (has_char "]" s).

(** A key of a section: not empty, in lower case, no equal sign, and no
    first character that makes the line a comment or a section. *)
Definition good_key (k : string) : bool :=
  (0 <? String.length k) && no_blank_ends k && sall line_char k && lower k &&
  negb (has_char "=" k) && negb (one_of "#;[" (shead k)).

(** A value: no comment character, no quote at its start, no backslash at its
    end. *)
Definition good_value (v : string) : bool :=
  no_blank_ends v && sall line_char v && negb (has_char ";" v) && negb (has_char "#" v) &&
  negb (Ascii.eqb (shead v) dquote) && negb (Ascii.eqb (shead v) "'") &&
  negb (Ascii.eqb (slast v) "\").

(** The line and the full key fit in their buffers. *)
Definition fits_line (k v : string) : bool :=
  Nat.max 30 (String.length k) + 4 + String.length v <? ASCIILINESZ.

Definition fits (s k v : string) : bool :=
  (String.length s + 1 + String.length k <=? ASCIILINESZ) && fits_line k v.

(** ** Reading back the lines of a dump *)

Ltac split_good H :=
  repeat match type of H with
  | _ && _ = true => let H1 := fresh H in apply andb_true_iff in H as [H H1]
  end.

Lemma lower_upper s c : lower s = true -> isupper c = true -> has_char c s = false.
Proof.
  intros Hl Hc. apply has_char_sall. revert Hl. apply sall_weaken. intros c' Hc'.
  destruct (Ascii.eqb_spec c c') as [->|]; [by rewrite Hc in Hc' | done].
Qed.

Lemma in_set_not c : forall s,
  has_char c s = false -> sall (in_set true (String c EmptyString)) s = true.
Proof.
  intros s Hs. apply has_char_sall in Hs. revert Hs. apply sall_weaken. intros c' Hc'.
  unfold in_set. rewrite has_char_cons, has_char_nil, orb_false_r, Ascii.eqb_sym.
  by apply negb_true_iff in Hc' as ->.
Qed.

Lemma rskip_padr n k : isspace (slast k) = false -> rskip (padr n k) = k.
Proof.
  intros H. unfold padr. rewrite rskip_app by apply rskip_spaces. by apply rskip_id.
Qed.

Lemma lskip_rskip_id s : no_blank_ends s = true -> lskip s = s /\ rskip s = s.
Proof.
  intros [H1 H2]%andb_true_iff. apply negb_true_iff in H1, H2.
  split; [by apply lskip_id | by apply rskip_id].
Qed.

Lemma strstrip_id s :
  no_blank_ends s = true -> String.length s <= ASCIILINESZ -> strstrip s = Done s.
Proof.
  intros [H1 H2]%lskip_rskip_id Hn. unfold strstrip. rewrite H1, H2.
  by destruct (Nat.leb_spec (String.length s) ASCIILINESZ); [|lia].
Qed.

(** "[s]" *)
Lemma iniparser_line_section_spec s b :
  good_section s = true ->
  iniparser_line ("[" +:+ s +:+ "]") b = Done (LINE_SECTION, Buf s (b_key b) (b_value b)).
Proof.
  intros H. unfold good_section in H. split_good H.
  apply Nat.ltb_lt in H. apply Nat.leb_le in H5. unfold iniparser_line.
  assert (String.length ("[" +:+ s +:+ "]") = String.length s + 2) as Hlen.
  { rewrite !slength_app. cbn. lia. }
  assert (slast ("[" +:+ s +:+ "]") = "]"%char) as Hlast.
  { rewrite <- sapp_assoc. apply slast_app. }
  rewrite strstrip_id; [| |unfold ASCIILINESZ; lia].
  2:{ unfold no_blank_ends. by rewrite Hlast. }
  cbn [mbind outcome_bind]. rewrite Hlen, Hlast.
  destruct (Nat.ltb_spec (String.length s + 2) 1); [lia|]. cbn [shead String.append].
  change (Ascii.eqb _ _ || _) with false. change (_ && Ascii.eqb "]" "]") with true.
  cbn iota. unfold fmt_section. cbn [sscanf]. change (Ascii.eqb "[" "[") with true.
  cbn iota. rewrite (span_app _ s "]").
  - destruct s as [|c s]; [cbn in H; lia|]. cbn iota beta.
    rewrite strstrip_id by (done || (unfold ASCIILINESZ; lia)). cbn [mbind outcome_bind].
    rewrite strlwc_id; [done | done | unfold ASCIILINESZ; lia].
  - apply in_set_not. by apply negb_true_iff.
  - by right.
Qed.

Lemma sscanf_key kp w fmt :
  kp <> EmptyString -> has_char "=" kp = false ->
  sscanf (SSet true "=" :: fmt) (kp +:+ String "=" w) = kp :: sscanf fmt (String "=" w).
Proof.
  intros Hne Hkp. cbn [sscanf]. rewrite span_app; [|by apply in_set_not | by right].
  by destruct kp.
Qed.

(** The key part of an entry: padded, then a blank. *)
Definition key_part (k : string) : string := padr 30 k +:+ " ".

Lemma key_part_spec k :
  good_key k = true -> String.length k <= ASCIILINESZ -> 
  Nat.max 30 (String.length k) + 1 <= ASCIILINESZ ->
  key_part k <> EmptyString /\ has_char "=" (key_part k) = false /\
  shead (key_part k) = shead k /\ isspace (shead k) = false /\
  String.length (key_part k) = Nat.max 30 (String.length k) + 1 /\
  strstrip (key_part k) = Done k.
Proof.
  intros H Hn Hm. unfold good_key in H. split_good H. apply Nat.ltb_lt in H.
  apply andb_true_iff in H4 as [Hh Hl]. apply negb_true_iff in Hh, Hl.
  assert (k <> EmptyString) as Hk by (intros ->; cbn in H; lia).
  assert (shead (key_part k) = shead k) as Hhd.
  { unfold key_part, padr. destruct k; [done | reflexivity]. }
  assert (String.length (key_part k) = Nat.max 30 (String.length k) + 1) as Hlen.
  { unfold key_part, padr. rewrite !slength_app, slength_spaces. cbn [String.length]. lia. }
  split_and!; try done.
  - unfold key_part, padr. by destruct k.
  - apply negb_true_iff in H1. apply has_char_sall in H1. apply has_char_sall.
    unfold key_part, padr. rewrite !sall_app, H1, sall_spaces; reflexivity.
  - unfold strstrip. rewrite lskip_id by (by rewrite Hhd).
    rewrite Hlen. destruct (Nat.leb_spec (Nat.max 30 (String.length k) + 1) ASCIILINESZ); [|lia].
    unfold key_part. rewrite rskip_app by done. by rewrite rskip_padr.
Qed.

(** The line of an entry, as iniparser_load hands it over: blanks at the end
    are gone, so that an empty value leaves "key =". *)
Definition entry_tail (v : string) : string :=
  match v with EmptyString => EmptyString | _ => String " " v end.

Definition entry_line (k v : string) : string := key_part k +:+ String "=" (entry_tail v).

Section Entry.
Context (k v : string).
Context (Hk : good_key k = true) (Hv : good_value v = true) (Hf : fits_line k v = true).

Lemma value_ends :
  isspace (shead v) = false /\ isspace (slast v) = false /\ lskip (entry_tail v) = v.
Proof.
  unfold good_value in Hv. split_good Hv. clear Hf. apply andb_true_iff in Hv as [Hh Hl].
  apply negb_true_iff in Hh, Hl. split_and!; [done | done |].
  unfold entry_tail. destruct v as [|c v']; [done|].
  change (lskip (String " " (String c v'))) with (lskip (String c v')). by apply lskip_id.
Qed.

Lemma fits_bounds :
  String.length k <= ASCIILINESZ /\ Nat.max 30 (String.length k) + 1 <= ASCIILINESZ /\
  Nat.max 30 (String.length k) + 4 + String.length v < ASCIILINESZ.
Proof.
  apply Nat.ltb_lt in Hf. lia.
Qed.

Lemma key_facts :
  key_part k <> EmptyString /\ has_char "=" (key_part k) = false /\
  shead (key_part k) = shead k /\ isspace (shead k) = false /\
  String.length (key_part k) = Nat.max 30 (String.length k) + 1 /\
  strstrip (key_part k) = Done k.
Proof. destruct fits_bounds as (? & ? & _). by apply key_part_spec. Qed.

Lemma entry_line_rskip : rskip (padr 30 k +:+ " = " +:+ v) = entry_line k v.
Proof.
  destruct value_ends as (_ & Hl & _). unfold entry_line, key_part, entry_tail.
  rewrite !sapp_assoc. destruct v as [|c v'].
  - change (" = " +:+ EmptyString) with (" " +:+ ("=" +:+ " ")).
    rewrite <- !sapp_assoc, rskip_app by reflexivity.
    rewrite rskip_id; [by rewrite !sapp_assoc | by rewrite slast_app].
  - rewrite rskip_id; [reflexivity|]. rewrite slast_app_ne by done.
    by rewrite (slast_app_ne " = " (String c v')).
Qed.

Lemma entry_line_ends :
  shead (entry_line k v) = shead k /\ no_blank_ends (entry_line k v) = true /\
  1 <= String.length (entry_line k v) <= ASCIILINESZ /\
  slast (entry_line k v) = match v with EmptyString => "="%char | _ => slast v end.
Proof.
  destruct key_facts as (Hne & _ & Hhd & Hsp & Hlen & _), value_ends as (_ & Hl & _),
    fits_bounds as (_ & _ & Hb).
  assert (shead (entry_line k v) = shead k) as Hh.
  { unfold entry_line. by rewrite shead_app. }
  assert (slast (entry_line k v) = match v with EmptyString => "="%char | _ => slast v end) as Hs.
  { unfold entry_line. rewrite slast_app_ne by done. unfold entry_tail. by destruct v. }
  split_and!; try done.
  - unfold no_blank_ends. rewrite Hh, Hs, Hsp. destruct v; [reflexivity | by rewrite Hl].
  - unfold entry_line. rewrite slength_app, Hlen. lia.
  - unfold entry_line. rewrite slength_app, Hlen. unfold entry_tail.
    destruct v; cbn [String.length] in *; lia.
Qed.

(** After "key =", the rest of a format reads the value. *)
Lemma sscanf_entry fmt :
  sscanf (SSet true "=" :: SWs :: SLit "=" :: SWs :: fmt) (entry_line k v)
  = key_part k :: sscanf fmt v.
Proof.
  destruct key_facts as (Hne & Heq & _), value_ends as (_ & _ & Ht).
  unfold entry_line. rewrite sscanf_key by done. cbn [sscanf lskip].
  change (isspace "=") with false. cbn iota. change (Ascii.eqb "=" "=") with true.
  cbn iota. by rewrite Ht.
Qed.

Lemma sscanf_quote q fmt :
  Ascii.eqb (shead v) q = false -> sscanf (SLit q :: fmt) v = [].
Proof.
  clear Hv Hf. destruct v as [|c v']; cbn [sscanf shead]; [done|].
  by rewrite Ascii.eqb_sym; intros ->.
Qed.

Lemma sscanf_value : sscanf [SSet true ";#"] v = match v with EmptyString => [] | _ => [v] end.
Proof.
  clear Hk Hf. cbn [sscanf]. rewrite span_all; [by destruct v|].
  unfold good_value in Hv. split_good Hv. apply negb_true_iff in Hv3, Hv4.
  clear -Hv3 Hv4. induction v as [|c v' IH]; [done|].
  rewrite has_char_cons in Hv3, Hv4.
  apply orb_false_iff in Hv3 as [A1 A2], Hv4 as [B1 B2].
  cbn [sall]. rewrite IH by done. unfold in_set.
  by rewrite !has_char_cons, (Ascii.eqb_sym c ";"), (Ascii.eqb_sym c "#"), A1, B1.
Qed.
End Entry.

Lemma scan_any_step fmt fmts line kv kv' ok :
  scan_pair fmt line kv = (kv', ok) ->
  scan_any (fmt :: fmts) line kv = if ok then (kv', true) else scan_any fmts line kv'.
Proof. intros H. cbn [scan_any]. by rewrite H. Qed.

(** The first three formats on an entry: the quoted ones stop after the key,
    the plain one succeeds when there is a value. *)
Lemma entry_scan k v kv :
  good_key k = true -> good_value v = true -> fits_line k v = true ->
  scan_any [fmt_dquote; fmt_squote; fmt_plain] (entry_line k v) kv
  = match v with
    | EmptyString => ((key_part k, kv.2), false)
    | _ => ((key_part k, v), true)
    end.
Proof.
  intros Hk Hv Hf. pose proof (sscanf_entry k v Hk Hv Hf) as Hscan.
  pose proof (sscanf_value v Hv) as Hval.
  unfold good_value in Hv. split_good Hv. apply negb_true_iff in Hv1, Hv2.
  assert (forall q kv, Ascii.eqb (shead v) q = false ->
            scan_pair [SSet true "="; SWs; SLit "="; SWs; SLit q;
                       SSet true (String q EmptyString); SLit q] (entry_line k v) kv
            = ((key_part k, kv.2), false)) as Hq.
  { intros q kv' Hq. unfold scan_pair. by rewrite Hscan, sscanf_quote. }
  rewrite (scan_any_step fmt_dquote _ _ _ _ _ (Hq dquote _ Hv2)).
  rewrite (scan_any_step fmt_squote _ _ _ _ _ (Hq "'"%char _ Hv1)).
  cbn [scan_any fst snd]. unfold scan_pair, fmt_plain. rewrite Hscan, Hval. by destruct v.
Qed.

(** The last two formats on an entry without a value. *)
Lemma entry_scan_empty k kv :
  good_key k = true -> fits_line k "" = true ->
  scan_any [fmt_comment; fmt_empty] (entry_line k "") kv = ((key_part k, "="%string), true).
Proof.
  intros Hk Hf. pose proof (sscanf_entry k "" Hk eq_refl Hf) as Hscan.
  destruct (key_facts k "" Hk Hf) as (Hne & Heq & _).
  assert (scan_pair fmt_comment (entry_line k "") kv = ((key_part k, kv.2), false)) as Hc.
  { unfold scan_pair, fmt_comment. by rewrite Hscan. }
  rewrite (scan_any_step _ _ _ _ _ _ Hc). cbn [scan_any]. unfold scan_pair, fmt_empty, entry_line.
  by rewrite sscanf_key.
Qed.

(** "key = value" is read back. *)
Lemma iniparser_line_value_spec k v b :
  good_key k = true -> good_value v = true -> fits_line k v = true ->
  iniparser_line (entry_line k v) b = Done (LINE_VALUE, Buf (b_section b) k v).
Proof.
  intros Hk Hv Hf.
  destruct (key_facts k v Hk Hf) as (_ & _ & _ & _ & _ & Hkey).
  destruct (fits_bounds k v Hf) as (Hkl & _ & Hb).
  destruct (entry_line_ends k v Hk Hv Hf) as (Hh & He & Hl & _).
  unfold iniparser_line. rewrite strstrip_id by (done || lia). cbn [mbind outcome_bind].
  rewrite Hh. destruct (Nat.ltb_spec (String.length (entry_line k v)) 1); [lia|].
  pose proof Hk as Hk'. unfold good_key in Hk'. split_good Hk'. apply negb_true_iff in Hk'0.
  assert (forall c, has_char c "#;[" = true -> Ascii.eqb (shead k) c = false) as Hnot.
  { intros c Hc. destruct (Ascii.eqb_spec (shead k) c) as [<-|]; [|done].
    unfold one_of in Hk'0. congruence. }
  rewrite !Hnot by reflexivity. cbn [orb andb]. rewrite entry_scan by done.
  assert (strlwc k = k) as Hlow by (by apply strlwc_id).
  destruct v as [|c v].
  - rewrite entry_scan_empty by done. cbn [fst]. rewrite Hkey.
    cbn [mbind outcome_bind]. by rewrite Hlow.
  - cbn [fst snd]. rewrite Hkey. cbn [mbind outcome_bind].
    unfold good_value in Hv. split_good Hv. apply negb_true_iff in Hv1, Hv2.
    rewrite strstrip_id by (done || lia). cbn [mbind outcome_bind]. rewrite Hlow.
    cbn [shead] in Hv1, Hv2. cbn [String.eqb]. by rewrite Hv1, Hv2.
Qed.

(** ** The lines of a dump, one by one *)

Inductive item : Type :=
| IBlank
| ISec (s : string)
| IEntry (k v : string).

Definition render (i : item) : string :=
  match i with
  | IBlank => nl
  | ISec s => "[" +:+ s +:+ "]" +:+ nl
  | IEntry k v => dump_entry k (Some v)
  end.

Fixpoint render_all (items : list item) : string :=
  match items with
  | [] => EmptyString
  | i :: items => render i +:+ render_all items
  end.

(** The lines can be read back, the current section being [cur]. *)
Fixpoint items_ok (cur : string) (items : list item) : bool :=
  match items with
  | [] => true
  | IBlank :: items => items_ok cur items
  | ISec s :: items => good_section s && items_ok s items
  | IEntry k v :: items => good_key k && good_value v && fits cur k v && items_ok cur items
  end.

(** The entries the lines stand for. *)
Fixpoint item_pairs (cur : string) (items : list item) : list (string * option string) :=
  match items with
  | [] => []
  | IBlank :: items => item_pairs cur items
  | ISec s :: items => (s, None) :: item_pairs s items
  | IEntry k v :: items => (cur +:+ ":" +:+ k, Some v) :: item_pairs cur items
  end.

Definition add_pairs (m : gmap string (option string)) (l : list (string * option string))
    : gmap string (option string) :=
  foldl (fun m kv => <[kv.1 := kv.2]> m) m l.

Lemma take_line_spec n l rest :
  sall line_char l = true -> String.length l < n ->
  take_line n (l +:+ nl +:+ rest) = (l +:+ nl, rest).
Proof.
  revert n. induction l as [|c l IH]; intros [|n] Hl Hn; cbn in Hn; try lia; [done|].
  cbn [sall] in Hl. apply andb_true_iff in Hl as [Hc Hl].
  cbn [String.append take_line]. apply andb_true_iff in Hc as [_ Hc].
  apply negb_true_iff in Hc as ->. by rewrite IH by (done || lia).
Qed.

(** A turn of the loop on a complete line that is not blank and does not end
    with a backslash. *)
Lemma load_turn_line alloc l st :
  ls_prefix st = EmptyString -> sall line_char l = true ->
  rskip l <> EmptyString -> Ascii.eqb (slast (rskip l)) "\" = false ->
  load_turn alloc (l +:+ nl) st =
  ('(sta, b) ← iniparser_line (rskip l) (ls_buf st);
   '(errs, dict) ← load_status alloc sta b (ls_dict st) (ls_errs st);
   let st := Ls dict b EmptyString errs in
   Done (if (errs <? 0)%Z then Break st else Next st)).
Proof.
  intros Hp Hl Hr Hs. unfold load_turn. rewrite Hp. cbn [String.append].
  rewrite cstr_id.
  2:{ rewrite sall_app. apply andb_true_iff. split; [|done]. revert Hl.
      apply sall_weaken. by intros c [? _]%andb_true_iff. }
  assert (0 < String.length l) as Hpos by (destruct l; [done | cbn; lia]).
  rewrite slength_app. cbn [String.length nl].
  destruct (Z.eqb_spec (Z.of_nat (String.length l + 1) - 1) 0); [lia|].
  destruct (Z.ltb_spec (Z.of_nat (String.length l + 1) - 1) 0); [lia|].
  unfold nl. rewrite slast_app, Ascii.eqb_refl. cbn [negb].
  rewrite rskip_app by reflexivity.
  destruct (Nat.eqb_spec (String.length (rskip l)) 0) as [E|]; [by destruct (rskip l)|].
  by rewrite Hs.
Qed.

(** The state between two lines. *)
Record between (st : load_state) (d : dictionary) (cur : string) : Prop := {
  bt_dict : ls_dict st = DLive d;
  bt_wf : dict_wf d;
  bt_section : b_section (ls_buf st) = cur;
  bt_prefix : ls_prefix st = EmptyString;
  bt_errs : ls_errs st = 0%Z
}.

Definition item_section (cur : string) (i : item) : string :=
  match i with ISec s => s | _ => cur end.

Lemma sall_line_good_section s :
  good_section s = true -> sall line_char ("[" +:+ s +:+ "]") = true.
Proof.
  intros H. unfold good_section in H. split_good H.
  rewrite !sall_app. by rewrite H3.
Qed.

(** The count of errors is reset by the insertion. *)
Lemma load_turn_section alloc s st d :
  (forall b, alloc b = true) -> ls_dict st = DLive d -> dict_wf d ->
  ls_prefix st = EmptyString -> good_section s = true ->
  (Z.of_nat (size (<[s := None]> (dict_map d))) <= slots_limit)%Z ->
  exists st' d', load_turn alloc (("[" +:+ s +:+ "]") +:+ nl) st = Done (Next st') /\
    between st' d' s /\ dict_map d' = <[s := None]> (dict_map d).
Proof.
  intros A Hd W Hp Hg Hsz.
  assert (rskip ("[" +:+ s +:+ "]") = "[" +:+ s +:+ "]") as Hr.
  { apply rskip_id. by rewrite <- sapp_assoc, slast_app. }
  rewrite load_turn_line; rewrite ?Hr; [|done|by apply sall_line_good_section|done|
    by rewrite <- sapp_assoc, slast_app].
  rewrite iniparser_line_section_spec by done. cbn [mbind outcome_bind load_status b_section].
  rewrite Hd. cbn [set_dict].
  destruct (dictionary_set_live alloc d s None A W Hsz) as (d' & -> & W' & Hm).
  cbn. do 2 eexists. split; [done|]. by split; [split|].
Qed.

(** The turn on an entry, up to the insertion in the dictionary. *)
Lemma load_turn_entry_line alloc k v st d cur :
  between st d cur -> good_key k = true -> good_value v = true -> fits_line k v = true ->
  load_turn alloc ((padr 30 k +:+ " = " +:+ v) +:+ nl) st =
  ('(errs, dict) ← load_status alloc LINE_VALUE (Buf cur k v) (DLive d) 0;
   let st := Ls dict (Buf cur k v) EmptyString errs in
   Done (if (errs <? 0)%Z then Break st else Next st)).
Proof.
  intros [Hd W Hs Hp He] Hk Hv Hf.
  assert (rskip (padr 30 k +:+ " = " +:+ v) = entry_line k v) as Hr
    by (eapply entry_line_rskip; eauto).
  destruct (entry_line_ends k v Hk Hv Hf) as (_ & _ & Hl & Hlast).
  rewrite load_turn_line; rewrite ?Hr; [|done| | |].
  - rewrite iniparser_line_value_spec by done. cbn [mbind outcome_bind]. by rewrite Hs, Hd, He.
  - unfold good_key in Hk. unfold good_value in Hv. split_good Hk. split_good Hv.
    unfold padr. rewrite !sall_app, Hk3, Hv5, sall_spaces; reflexivity.
  - intros E. rewrite E in Hl. cbn in Hl. lia.
  - rewrite Hlast. unfold good_value in Hv. split_good Hv. apply negb_true_iff in Hv0.
    by destruct v.
Qed.

Lemma load_turn_entry alloc k v st d cur :
  (forall b, alloc b = true) -> between st d cur ->
  good_key k = true -> good_value v = true -> fits cur k v = true ->
  (Z.of_nat (size (<[cur +:+ ":" +:+ k := Some v]> (dict_map d))) <= slots_limit)%Z ->
  exists st' d', load_turn alloc ((padr 30 k +:+ " = " +:+ v) +:+ nl) st = Done (Next st') /\
    between st' d' cur /\ dict_map d' = <[cur +:+ ":" +:+ k := Some v]> (dict_map d).
Proof.
  intros A B Hk Hv [Hc Hf]%andb_true_iff Hsz. apply Nat.leb_le in Hc.
  rewrite (load_turn_entry_line _ _ _ _ _ _ B Hk Hv Hf). cbn [load_status b_section b_key b_value].
  destruct (Nat.leb_spec (String.length (cur +:+ ":" +:+ k)) ASCIILINESZ) as [_|Hlt].
  2:{ rewrite !slength_app in Hlt. cbn [String.length] in Hlt. lia. }
  cbn [set_dict].
  destruct (dictionary_set_live alloc d (cur +:+ ":" +:+ k) (Some v) A (bt_wf _ _ _ B) Hsz)
    as (d' & -> & W' & Hm).
  cbn. do 2 eexists. split; [done|]. by split; [split|].
Qed.

(** A line of a dump, and the loop on it. *)
Definition item_line (i : item) : string :=
  match i with
  | IBlank => EmptyString
  | ISec s => "[" +:+ s +:+ "]"
  | IEntry k v => padr 30 k +:+ " = " +:+ v
  end.

Lemma render_line i : render i = item_line i +:+ nl.
Proof.
  destruct i as [|s|k v]; cbn [render item_line]; unfold dump_entry; cbn [default];
    by rewrite ?sapp_assoc.
Qed.

Lemma item_line_ok cur i items :
  items_ok cur (i :: items) = true ->
  sall line_char (item_line i) = true /\ String.length (item_line i) + 1 < ASCIILINESZ.
Proof.
  destruct i as [|s|k v]; cbn [items_ok item_line]; intros H.
  - split; [done|]. unfold ASCIILINESZ. cbn. lia.
  - apply andb_true_iff in H as [H _]. split; [by apply sall_line_good_section|].
    unfold good_section in H. split_good H. apply Nat.leb_le in H5.
    rewrite !slength_app. cbn [String.length]. unfold ASCIILINESZ. lia.
  - apply andb_true_iff in H as [H _]. split_good H.
    apply andb_true_iff in H0 as [_ H0].
    destruct (fits_bounds _ _ H0) as (_ & _ & Hb).
    unfold good_key in H. unfold good_value in H1. split_good H. split_good H1.
    unfold padr. split.
    + rewrite !sall_app, H5, H12, sall_spaces; reflexivity.
    + rewrite !slength_app, slength_spaces. cbn [String.length]. lia.
Qed.

Lemma load_turn_item alloc i items st d cur :
  (forall b, alloc b = true) -> between st d cur -> items_ok cur (i :: items) = true ->
  (Z.of_nat (size (add_pairs (dict_map d) (item_pairs cur [i]))) <= slots_limit)%Z ->
  exists st' d', load_turn alloc (render i) st = Done (Next st') /\
    between st' d' (item_section cur i) /\
    dict_map d' = add_pairs (dict_map d) (item_pairs cur [i]) /\
    items_ok (item_section cur i) items = true.
Proof.
  intros A B H Hsz. rewrite render_line. destruct i as [|s|k v]; cbn [items_ok] in H.
  - exists st, d. split_and!; try done. unfold load_turn. by rewrite (bt_prefix _ _ _ B).
  - apply andb_true_iff in H as [Hg H].
    destruct (load_turn_section alloc s st d A (bt_dict _ _ _ B) (bt_wf _ _ _ B)
      (bt_prefix _ _ _ B) Hg Hsz) as (st' & d' & ? & ? & ?). eauto 8.
  - apply andb_true_iff in H as [H Hi]. split_good H.
    destruct (load_turn_entry alloc k v st d cur A B) as (st' & d' & ? & ? & ?); eauto 8.
Qed.

Lemma item_pairs_cons cur i items :
  item_pairs cur (i :: items) = item_pairs cur [i] ++ item_pairs (item_section cur i) items.
Proof. by destruct i. Qed.

Lemma add_pairs_consistent (M : gmap string (option string)) l m :
  m ⊆ M -> (forall kv, kv ∈ l -> M !! kv.1 = Some kv.2) ->
  m ⊆ add_pairs m l /\ add_pairs m l ⊆ M /\
  forall kv, kv ∈ l -> add_pairs m l !! kv.1 = Some kv.2.
Proof.
  revert m. induction l as [|[k v] l IH]; intros m Hm Hl.
  - split_and!; [done | done | intros kv H; inversion H].
  - pose proof (Hl (k, v) ltac:(left)) as Hk. cbn in Hk.
    assert (<[k := v]> m ⊆ M) as Hm' by (by apply insert_subseteq_l).
    destruct (IH (<[k := v]> m) Hm') as (H1 & H2 & H3).
    { intros kv Hkv. apply Hl. by right. }
    assert (m ⊆ <[k := v]> m) as Hsub.
    { apply map_subseteq_spec. intros i x Hi. destruct (decide (i = k)) as [->|Hne].
      - rewrite lookup_insert_eq. rewrite map_subseteq_spec in Hm. apply Hm in Hi. congruence.
      - by rewrite lookup_insert_ne. }
    split_and!; [by etrans | done |].
    intros kv [->|Hkv]%elem_of_cons; [|by apply H3].
    eapply lookup_weaken; [apply lookup_insert_eq | exact H1].
Qed.

Lemma load_loop_items alloc M items fuel st d cur :
  (forall b, alloc b = true) -> between st d cur -> items_ok cur items = true ->
  (Z.of_nat (size M) <= slots_limit)%Z -> dict_map d ⊆ M -> (forall kv, kv ∈ item_pairs cur items -> M !! kv.1 = Some kv.2) ->
  String.length (render_all items) < fuel ->
  exists d', load_loop alloc fuel (render_all items) st = Done (Some (DLive d')) /\
    dict_wf d' /\ dict_map d' = add_pairs (dict_map d) (item_pairs cur items).
Proof.
  intros A. revert fuel st d cur. induction items as [|i items IH];
    intros fuel st d cur B H Hsz Hsub Hin Hf; (destruct fuel as [|fuel]; [lia|]); cbn [load_loop render_all].
  - cbn [fgets]. unfold load_end. destruct B as [Hd W _ _ He]. rewrite He, Hd. eauto.
  - rewrite (bt_prefix _ _ _ B). cbn [String.length]. rewrite Nat.sub_0_r.
    destruct (item_line_ok cur i items H) as [Hl Hn]. cbn [render_all] in Hf.
    rewrite (item_pairs_cons cur i items) in Hin.
    destruct (add_pairs_consistent M (item_pairs cur [i]) (dict_map d) Hsub) as (_ & Hnext & _).
    { intros kv Hkv. apply Hin, elem_of_app. by left. }
    pose proof (map_subseteq_size _ _ Hnext) as Hsize.
    destruct (load_turn_item alloc i items st d cur A B H) as (st' & d' & Ht & B' & Hm & H'); [lia|].
    assert (fgets ASCIILINESZ (render i +:+ render_all items)
            = Some (render i, render_all items)) as ->.
    { unfold fgets. rewrite render_line, sapp_assoc, take_line_spec by (done || lia).
      by destruct (item_line i). }
    rewrite Ht. cbn [mbind outcome_bind].
    destruct (IH fuel st' d' _ B' H' Hsz) as (d'' & E & W & Hm').
    { by rewrite Hm. }
    { intros kv Hkv. apply Hin, elem_of_app. by right. }
    { rewrite render_line, !slength_app in Hf. cbn [nl String.length] in Hf. lia. }
    exists d''. split_and!; [done | done |]. rewrite Hm', Hm, (item_pairs_cons cur i items).
    unfold add_pairs. by rewrite foldl_app.
Qed.

(** ** The dump as lines *)

Definition slot_entry (keym : string) (slot : option string * option string) : option item :=
  match slot with
  | (Some k, v) =>
      if in_section keym k
      then Some (IEntry (sdrop (String.length keym) k) (default EmptyString v)) else None
  | (None, _) => None
  end.

Definition section_items (d : dictionary) (s : string) : list item :=
  [IBlank; ISec s] ++ omap (slot_entry (s +:+ ":")) (zip (d_key d) (d_val d)) ++ [IBlank].

Definition dump_items (d : dictionary) : list item :=
  concat (section_items d <$> sections d) ++ [IBlank].

Lemma render_all_app l1 l2 : render_all (l1 ++ l2) = render_all l1 +:+ render_all l2.
Proof. induction l1 as [|i l1 IH]; cbn; [done | by rewrite IH, sapp_assoc]. Qed.

Lemma dumpsection_loop_items keym keys vals :
  dumpsection_loop keym keys vals = render_all (omap (slot_entry keym) (zip keys vals)).
Proof.
  revert vals. induction keys as [|[k|] keys IH]; intros [|v vals]; cbn; try done.
  destruct (in_section keym k); cbn; by rewrite IH.
Qed.

Lemma dumpsection_items d s :
  dict_wf d -> good_section s = true -> is_Some (dict_map d !! s) ->
  iniparser_dumpsection_ini d s = Done (render_all (section_items d s)).
Proof.
  intros W Hg [v Hv]. unfold iniparser_dumpsection_ini, iniparser_find_entry.
  unfold good_section in Hg. split_good Hg. apply Nat.leb_le in Hg5.
  cbn [iniparser_getstring]. rewrite strlwc_id by (done || (unfold ASCIILINESZ; lia)).
  rewrite dictionary_get_spec, Hv by done. unfold sec_prefix.
  destruct (Nat.leb_spec (String.length s + 1) ASCIILINESZ) as [_|Hlt].
  2:{ unfold ASCIILINESZ in Hlt. lia. }
  cbn [from_option]. destruct v as [v|]; cbn [ptr_of Z.eqb mbind outcome_bind];
    unfold section_items; rewrite !render_all_app, dumpsection_loop_items;
    cbn [render_all render]; by rewrite !sapp_nil_r, !sapp_assoc.
Qed.

Lemma dump_sections_items d todo i :
  dict_wf d -> (forall s, s ∈ sections d -> good_section s = true) ->
  i + todo = length (sections d) ->
  dump_sections d todo (Z.of_nat i)
  = Done (render_all (concat (section_items d <$> drop i (sections d)))).
Proof.
  intros W Hg. revert i. induction todo as [|todo IH]; intros i Hi; cbn [dump_sections].
  - by rewrite drop_ge by lia.
  - destruct (lookup_lt_is_Some_2 (sections d) i) as [s Hs]; [lia|].
    rewrite iniparser_getsecname_spec.
    destruct (Z.ltb_spec (Z.of_nat i) 0); [lia|]. rewrite Nat2Z.id, Hs.
    cbn [access mbind outcome_bind].
    assert (s ∈ sections d) as Hin by (by eapply list_elem_of_lookup_2).
    rewrite dumpsection_items; [|done|by apply Hg|].
    2:{ unfold sections in Hin. apply elem_of_keys_such in Hin as [_ [j Hj]%list_elem_of_lookup].
        apply not_eq_None_Some. rewrite dict_map_None by done. intros Hn. by apply (Hn j). }
    cbn [mbind outcome_bind]. replace (Z.of_nat i + 1)%Z with (Z.of_nat (S i)) by lia.
    rewrite IH by lia. cbn [mbind outcome_bind].
    rewrite (drop_S _ _ _ Hs), fmap_cons. cbn [concat]. by rewrite render_all_app.
Qed.

(** ** Dictionaries that can be written *)

(** The entry of a key that is not a section: its section is in the
    dictionary, and its name and value can be written. *)
Definition printable_in (s k : string) (v : option string) : bool :=
  in_section (s +:+ ":") k &&
  let x := sdrop (String.length (s +:+ ":")) k in
  match v with
  | Some v => good_key x && good_value v && fits s x v
  | None => false
  end.

Definition printable_entry (d : dictionary) (kv : string * option string) : bool :=
  if is_section kv.1 then good_section kv.1 && negb (used kv.2)
  else existsb (fun s => printable_in s kv.1 kv.2) (sections d).

Definition printable (d : dictionary) : bool := forallb (printable_entry d) (dict_assoc d).

Lemma section_unique s s' x x' :
  is_section s = true -> is_section s' = true ->
  s +:+ ":" +:+ x = s' +:+ ":" +:+ x' -> s = s' /\ x = x'.
Proof.
  intros Hs Hs'. apply negb_true_iff, has_char_sall in Hs, Hs'. intros E.
  assert (span (fun c => negb (Ascii.eqb ":" c)) (s +:+ ":" +:+ x) = (s, ":" +:+ x)) as E1
    by (apply span_app; auto).
  rewrite E in E1. rewrite span_app in E1 by auto. by injection E1.
Qed.

Lemma in_section_app s k :
  in_section (s +:+ ":") k = true ->
  k = s +:+ ":" +:+ sdrop (String.length (s +:+ ":")) k /\ is_section k = false.
Proof.
  intros [x ->]%prefix_true. rewrite sdrop_app, sapp_assoc. split; [done|].
  unfold is_section, has_char. rewrite !sall_app. cbn [sall].
  change (negb (Ascii.eqb ":" ":")) with false. cbn [andb]. by rewrite andb_false_r.
Qed.

Section Printable.
Context (d : dictionary) (W : dict_wf d) (P : printable d = true).

Lemma printable_slot k v : (k, v) ∈ dict_assoc d -> printable_entry d (k, v) = true.
Proof.
  intros Hin. unfold printable in P. rewrite forallb_forall in P.
  by apply P, list_elem_of_In.
Qed.

Lemma sections_assoc s : s ∈ sections d <-> is_section s = true /\ exists v, (s, v) ∈ dict_assoc d.
Proof.
  unfold sections. rewrite elem_of_keys_such, list_elem_of_lookup. f_equiv. split.
  - intros [i Hi]. assert (is_Some (d_val d !! i)) as [v Hv].
    { apply lookup_lt_is_Some. rewrite (wf_val d W), <- (wf_key d W). by eapply lookup_lt_Some. }
    exists v. apply dict_assoc_elem. eauto.
  - intros [v (i & Hi & _)%dict_assoc_elem]. eauto.
Qed.

Lemma sections_good s :
  s ∈ sections d -> good_section s = true /\ is_section s = true /\ (s, None) ∈ dict_assoc d.
Proof.
  intros [Hs [v Hv]]%sections_assoc. pose proof (printable_slot s v Hv) as Hp.
  unfold printable_entry in Hp. cbn [fst snd] in Hp. rewrite Hs in Hp.
  apply andb_true_iff in Hp as [Hp Hn]. by destruct v.
Qed.

(** Every key under "s:" is a printable entry of [s]. *)
Lemma entry_printable s k v :
  s ∈ sections d -> (k, v) ∈ dict_assoc d -> in_section (s +:+ ":") k = true ->
  printable_in s k v = true.
Proof.
  intros Hs Hin Hk. pose proof (printable_slot k v Hin) as Hp.
  destruct (in_section_app s k Hk) as [Ek Hns]. unfold printable_entry in Hp.
  cbn [fst snd] in Hp. rewrite Hns in Hp. apply existsb_exists in Hp as (s' & Hs' & Hp).
  apply list_elem_of_In in Hs'.
  assert (in_section (s' +:+ ":") k = true) as Hk' by (by apply andb_true_iff in Hp as [? _]).
  destruct (in_section_app s' k Hk') as [Ek' _].
  destruct (sections_good s Hs) as (_ & Hss & _), (sections_good s' Hs') as (_ & Hss' & _).
  rewrite Ek in Ek' at 1. by destruct (section_unique _ _ _ _ Hss Hss' Ek') as [-> _].
Qed.

Lemma zip_assoc k v : (Some k, v) ∈ zip (d_key d) (d_val d) <-> (k, v) ∈ dict_assoc d.
Proof.
  rewrite dict_assoc_elem, list_elem_of_lookup. f_equiv. intros i. by rewrite lookup_zip_Some.
Qed.

Lemma items_ok_app cur l1 l2 :
  items_ok cur (l1 ++ l2) = items_ok cur l1 && items_ok (foldl item_section cur l1) l2.
Proof.
  revert cur. induction l1 as [|[|s|k v] l1 IH]; intros cur; cbn [app items_ok foldl item_section];
    rewrite ?IH, ?andb_assoc; done.
Qed.

Lemma item_pairs_app cur l1 l2 :
  item_pairs cur (l1 ++ l2) = item_pairs cur l1 ++ item_pairs (foldl item_section cur l1) l2.
Proof.
  revert cur. induction l1 as [|[|s|k v] l1 IH]; intros cur;
    cbn [app item_pairs foldl item_section]; rewrite ?IH; done.
Qed.

Lemma entries_section keym cur slots :
  foldl item_section cur (omap (slot_entry keym) slots) = cur.
Proof.
  induction slots as [|[[k|] v] slots IH]; cbn; [done | | done].
  by destruct (in_section keym k).
Qed.

Lemma section_items_ok cur s : s ∈ sections d -> items_ok cur (section_items d s) = true.
Proof.
  intros Hs. destruct (sections_good s Hs) as (Hg & _ & _).
  assert (forall slots, (forall slot, slot ∈ slots -> slot ∈ zip (d_key d) (d_val d)) ->
            items_ok s (omap (slot_entry (s +:+ ":")) slots ++ [IBlank]) = true) as H.
  { induction slots as [|[[k|] v] slots IH]; intros Hsub; [done | |].
    - cbn [omap list_omap slot_entry].
      assert (items_ok s (omap (slot_entry (s +:+ ":")) slots ++ [IBlank]) = true) as IH'.
      { apply IH. intros slot Hslot. apply Hsub. by right. }
      destruct (in_section (s +:+ ":") k) eqn:Ek; [|done].
      assert ((k, v) ∈ dict_assoc d) as Hin by (apply zip_assoc, Hsub; left).
      pose proof (entry_printable s k v Hs Hin Ek) as Hp.
      apply andb_true_iff in Hp as [_ Hp]. destruct v as [v|]; [|done].
      cbn zeta in Hp. cbn [app items_ok default from_option]. unfold id. by rewrite Hp.
    - apply IH. intros slot Hslot. apply Hsub. by right. }
  cbn [section_items app items_ok]. by rewrite Hg, H.
Qed.

Lemma sections_items_ok cur ss :
  (forall s, s ∈ ss -> s ∈ sections d) ->
  items_ok cur (concat (section_items d <$> ss) ++ [IBlank]) = true.
Proof.
  revert cur. induction ss as [|s ss IH]; intros cur Hss; [done|].
  rewrite fmap_cons. cbn [concat]. rewrite <- app_assoc, items_ok_app.
  rewrite section_items_ok by (apply Hss; left). apply IH. intros s' Hs'. apply Hss. by right.
Qed.

Lemma entry_pairs_elem s slots k w :
  (k, w) ∈ item_pairs s (omap (slot_entry (s +:+ ":")) slots) <->
  exists v, (Some k, v) ∈ slots /\ in_section (s +:+ ":") k = true /\
            w = Some (default EmptyString v).
Proof.
  induction slots as [|[[k'|] v'] slots IH].
  - split; [intros H; inversion H | intros (v & H & _); inversion H].
  - cbn [omap list_omap slot_entry]. destruct (in_section (s +:+ ":") k') eqn:Ek.
    + cbn [item_pairs]. destruct (in_section_app s k' Ek) as [<- _].
      rewrite elem_of_cons, IH. split.
      * intros [[= -> ->]|(v & H1 & H2 & H3)]; [by exists v'; split; [left|] | by exists v; split; [right|]].
      * intros (v & [[= -> ->]|H1]%elem_of_cons & H2 & ->); [by left | right; eauto].
    + rewrite IH. split.
      * intros (v & H1 & H2 & H3). by exists v; split; [right|].
      * intros (v & [[= -> ->]|H1]%elem_of_cons & H2 & ->); [congruence | eauto].
  - cbn [omap list_omap slot_entry]. rewrite IH. split.
    + intros (v & H1 & H2 & H3). by exists v; split; [right|].
    + intros (v & [[=]|H1]%elem_of_cons & H2 & ->). eauto.
Qed.

Lemma section_pairs_elem cur s ss k w :
  (k, w) ∈ item_pairs cur (section_items d s ++ ss) <->
  (k = s /\ w = None) \/
  (k, w) ∈ item_pairs s (omap (slot_entry (s +:+ ":")) (zip (d_key d) (d_val d))) \/
  (k, w) ∈ item_pairs s ss.
Proof.
  unfold section_items. rewrite <- !app_assoc. cbn [app item_pairs].
  rewrite elem_of_cons, item_pairs_app, entries_section, elem_of_app. cbn [item_pairs].
  f_equiv. split; [by intros [= -> ->] | by intros [-> ->]].
Qed.

(** What the lines of the dump stand for: the entries of the dictionary. *)
Lemma dump_pairs_elem k w :
  (k, w) ∈ item_pairs EmptyString (dump_items d) <-> (k, w) ∈ dict_assoc d.
Proof.
  assert (forall cur ss, (forall s, s ∈ ss -> s ∈ sections d) ->
    (k, w) ∈ item_pairs cur (concat (section_items d <$> ss) ++ [IBlank]) <->
    exists s, s ∈ ss /\ ((k = s /\ w = None) \/
       (in_section (s +:+ ":") k = true /\ (k, w) ∈ dict_assoc d))) as H.
  { intros cur ss. revert cur. induction ss as [|s ss IH]; intros cur Hss.
    - split; [intros H; inversion H | intros (s & H & _); inversion H].
    - rewrite fmap_cons. cbn [concat]. rewrite <- app_assoc, section_pairs_elem.
      rewrite entry_pairs_elem, (IH s) by (intros s' Hs'; apply Hss; by right).
      assert ((exists v, (Some k, v) ∈ zip (d_key d) (d_val d) /\
                 in_section (s +:+ ":") k = true /\ w = Some (default EmptyString v)) <->
              in_section (s +:+ ":") k = true /\ (k, w) ∈ dict_assoc d) as ->.
      { assert (forall v, (k, v) ∈ dict_assoc d -> in_section (s +:+ ":") k = true ->
                  v = Some (default EmptyString v)) as Hv.
        { intros v Hin Hk. pose proof (entry_printable s k v (Hss s ltac:(left)) Hin Hk) as Hp.
          apply andb_true_iff in Hp as [_ Hp]. by destruct v. }
        split.
        - intros (v & Hin%zip_assoc & Hk & ->). by rewrite <- (Hv v Hin Hk).
        - intros [Hk Hin]. exists w. rewrite zip_assoc. auto. }
      setoid_rewrite elem_of_cons. split.
      + intros [?|[?|(s' & ? & ?)]]; eauto.
      + intros (s' & [->|?] & [?|?]); eauto 8. }
  unfold dump_items. rewrite H by done. split.
  - intros (s & Hs & [[-> ->]|[_ Hin]]); [by apply sections_good | done].
  - intros Hin. pose proof (printable_slot k w Hin) as Hp. unfold printable_entry in Hp.
    cbn [fst snd] in Hp. destruct (is_section k) eqn:Ek.
    + exists k. split; [by apply sections_assoc; eauto|]. left. split; [done|].
      apply andb_true_iff in Hp as [_ Hp]. by destruct w.
    + apply existsb_exists in Hp as (s & Hs & Hp). exists s.
      split; [by apply list_elem_of_In|]. right. by apply andb_true_iff in Hp as [? _].
Qed.
End Printable.

Lemma dump_flat_empty keys vals :
  omap slot_pair (zip keys vals) = [] -> length keys = length vals ->
  dump_flat keys vals = Done EmptyString.
Proof.
  revert vals. induction keys as [|[k|] keys IH]; intros [|v vals] H Hl; try done.
  apply IH; [done | by injection Hl].
Qed.

(** The text of the dump, as lines. *)
Lemma dump_ini_items d :
  dict_wf d -> printable d = true ->
  exists items, iniparser_dump_ini (Some d) = Done (render_all items) /\
    items_ok EmptyString items = true /\
    forall kv, kv ∈ item_pairs EmptyString items <-> kv ∈ dict_assoc d.
Proof.
  intros W P. unfold iniparser_dump_ini. rewrite iniparser_getnsec_spec.
  destruct (Z.ltb_spec (Z.of_nat (length (sections d))) 1) as [Hn|Hn].
  - assert (sections d = []) as Hs by (destruct (sections d); [done | cbn in Hn; lia]).
    assert (dict_assoc d = []) as Ha.
    { destruct (dict_assoc d) as [|[k v] l] eqn:E; [done|].
      assert ((k, v) ∈ dict_assoc d) as Hin by (rewrite E; left).
      rewrite <- (dump_pairs_elem d W P) in Hin. unfold dump_items in Hin.
      rewrite Hs in Hin. inversion Hin. }
    exists []. rewrite dump_flat_empty; [|exact Ha | by rewrite (wf_key d W), (wf_val d W)].
    by rewrite Ha.
  - exists (dump_items d). split_and!.
    + rewrite Nat2Z.id. change 0%Z with (Z.of_nat 0). rewrite dump_sections_items; [|done| |done].
      * cbn [mbind outcome_bind]. unfold dump_items. rewrite render_all_app, drop_0.
        cbn [render_all render]. by rewrite sapp_nil_r.
      * intros s Hs. by apply (sections_good d W P).
    + unfold dump_items. by apply sections_items_ok.
    + intros [k v]. by apply dump_pairs_elem.
Qed.

(** C23. Round trip: a printable dictionary (names in lower case without the
    characters that delimit them, values without comments, everything within
    the line buffer, every key under a section of the dictionary) of at most 2^27
    entries, which is as many as the loader can make room for, can be saved with
    iniparser_dump_ini, and, when every allocation succeeds, loading the text that
    was written gives a well-formed dictionary with the same map. *)
Theorem ini_dump_load (alloc : Z -> bool) (d : dictionary)
    (A : forall b, alloc b = true) (W : dict_wf d) (P : printable d = true)
    (Hn : (Z.of_nat (d_n d) <= slots_limit)%Z) :
  exists text d',
    iniparser_dump_ini (Some d) = Done text /\
    iniparser_load alloc (Some text) = Done (Some (DLive d')) /\
    dict_wf d' /\ dict_map d' = dict_map d.
Proof.
  destruct (dump_ini_items d W P) as (items & Hdump & Hok & Hpairs).
  cbn [iniparser_load].
  destruct (dictionary_new alloc 0) as [[d0|? ? ?]|] eqn:En.
  2,3: unfold dictionary_new in En; rewrite !A in En; done.
  destruct (dictionary_new_spec alloc 0 d0 En) as (W0 & Hm0 & _).
  set (st := Ls (DLive d0) _ _ _). exists (render_all items).
  assert (forall kv, kv ∈ item_pairs EmptyString items -> dict_map d !! kv.1 = Some kv.2) as Hin.
  { intros [k v] Hkv%Hpairs. apply dict_map_Some; [done|]. by apply dict_assoc_elem. }
  destruct (load_loop_items alloc (dict_map d) items (S (String.length (render_all items))) st d0 EmptyString)
    as (d' & E & W' & Hm');
    [done | by split | done | by rewrite (dict_size d W) | rewrite Hm0; apply map_empty_subseteq | done | lia |].
  exists d'. split_and!; [done | done | done |]. rewrite Hm', Hm0.
  destruct (add_pairs_consistent (dict_map d) (item_pairs EmptyString items) ∅)
    as (_ & H2 & H3).
  - apply map_empty_subseteq.
  - intros [k v] Hkv%Hpairs. apply dict_map_Some; [done|]. by apply dict_assoc_elem.
  - apply (anti_symm (⊆)); [done|]. apply map_subseteq_spec. intros k v Hk.
    apply dict_map_Some in Hk; [|done]. apply dict_assoc_elem, Hpairs in Hk.
    by apply H3 in Hk.
Qed.
