(* ===== verification/IniErrors.v ===== *)
(** * IniErrors: which files load, and what the parser does with the others

    Each statement holds for a whole class of files: files of lines that are not
    blank nor too long are loaded, syntax errors are forgotten as soon as a good
    line follows, a line of blanks makes the loop read before its buffer, and a
    section and key that are too long together overflow the buffer of the full
    key.  The last part covers the queries. *)

From S2P Require Import Prelude CString Dictionary IniParser IniLoad IniRoundTrip.

(** The first turn of the loop on a file, from the initial state. *)
Definition start (d : dictionary) : load_state :=
  Ls (DLive d) (Buf EmptyString EmptyString EmptyString) EmptyString 0.

Lemma iniparser_load_start alloc file :
  (forall b, alloc b = true) ->
  exists d, dict_wf d /\ dict_map d = ∅ /\
    iniparser_load alloc (Some file) = load_loop alloc (S (String.length file)) file (start d).
Proof.
  intros A. cbn [iniparser_load].
  destruct (dictionary_new alloc 0) as [[d|? ? ?]|] eqn:En.
  2,3: unfold dictionary_new in En; rewrite !A in En; done.
  destruct (dictionary_new_spec alloc 0 d En) as (W & Hm & _). by exists d.
Qed.

(** A turn of the loop on a line of the file. *)
Lemma load_loop_line alloc fuel l rest st :
  ls_prefix st = EmptyString -> sall line_char l = true -> String.length l + 1 < ASCIILINESZ ->
  load_loop alloc (S fuel) ((l +:+ nl) +:+ rest) st =
  (t ← load_turn alloc (l +:+ nl) st;
   match t with
   | Next st => load_loop alloc fuel rest st
   | ReturnNull => Done None
   | Break st => load_end st
   end).
Proof.
  intros Hp Hl Hn. cbn [load_loop]. rewrite Hp. cbn [String.length]. rewrite Nat.sub_0_r.
  assert (fgets ASCIILINESZ ((l +:+ nl) +:+ rest) = Some (l +:+ nl, rest)) as ->; [|done].
  unfold fgets. rewrite sapp_assoc, take_line_spec by (done || lia). by destruct l.
Qed.

(** ** Files that load *)

(** A line of at most 500 characters that is empty, or not blank and not continued. *)
Definition tame_line (l : string) : bool :=
  sall line_char l && (String.length l <=? 500) &&
  ((String.length l =? 0) || (0 <? String.length (rskip l)) && negb (Ascii.eqb (slast (rskip l)) "\")).

(** A file of lines, and what follows the last newline. *)
Fixpoint text (ls : list string) (last : string) : string :=
  match ls with [] => last | l :: ls => (l +:+ nl) +:+ text ls last end.

Definition short (s : string) : Prop := String.length s <= 500.

Definition short_buffers (b : buffers) : Prop := short (b_section b) /\ short (b_key b) /\ short (b_value b).

Lemma span_short p s : String.length (span p s).1 <= String.length s /\ String.length (span p s).2 <= String.length s.
Proof.
  induction s as [|c s IH]; cbn; [done|]. destruct (p c); [|cbn; lia]. destruct (span p s) as [a b]. cbn in *. lia.
Qed.

Lemma sscanf_short fmt : forall s, short s -> Forall short (sscanf fmt s).
Proof.
  unfold short. induction fmt as [|[|c|neg set] fmt IH]; intros s Hs; cbn [sscanf]; [constructor| | |].
  - apply IH. pose proof (lskip_length s). lia.
  - destruct s as [|c' s]; [constructor|]. destruct (Ascii.eqb c c'); [apply IH; cbn in Hs; lia | constructor].
  - pose proof (span_short (in_set neg set) s). destruct (span (in_set neg set) s) as [[|c a] rest]; [constructor|]. cbn in *.
    constructor; [cbn; lia | apply IH; lia].
Qed.

Lemma scan_any_short fmts line : short line -> forall kv, short kv.1 -> short kv.2 ->
  short (scan_any fmts line kv).1.1 /\ short (scan_any fmts line kv).1.2.
Proof.
  intros Hl. induction fmts as [|fmt fmts IH]; intros kv H1 H2; cbn [scan_any]; [done|]. unfold scan_pair.
  pose proof (sscanf_short fmt line Hl) as HF. destruct (sscanf fmt line) as [|k [|v rest]].
  - by apply IH.
  - apply Forall_cons_1 in HF as [Hk _]. by apply IH.
  - apply Forall_cons_1 in HF as [Hk HF]. by apply Forall_cons_1 in HF as [Hv _].
Qed.

Lemma strstrip_short s : short s -> exists r, strstrip s = Done r /\ short r.
Proof.
  unfold short, strstrip. intros Hs. pose proof (lskip_length s). pose proof (rskip_length (lskip s)).
  rewrite (proj2 (Nat.leb_le _ _)) by (unfold ASCIILINESZ; lia). eexists. split; [done | lia].
Qed.

Lemma strlwc_short s : short s -> short (strlwc s).
Proof. unfold short, strlwc. rewrite slength_map_string, slength_stake. lia. Qed.

Lemma iniparser_line_short line b : short line -> short_buffers b ->
  exists sta b', iniparser_line line b = Done (sta, b') /\ short_buffers b'.
Proof.
  intros Hl (Hs & Hk & Hv). unfold iniparser_line. destruct (strstrip_short line Hl) as (l & -> & Hl'). rewrite bind_Done_eq.
  destruct (_ <? 1); [by eexists _, _|]. destruct (_ || _); [by eexists _, _|]. destruct (_ && _).
  - assert (short (match sscanf fmt_section l with s :: _ => s | [] => b_section b end)) as Hsec.
    { pose proof (sscanf_short fmt_section l Hl') as HF. destruct (sscanf fmt_section l); [done|]. by apply Forall_cons_1 in HF as [? _]. }
    destruct (strstrip_short _ Hsec) as (r & -> & Hr). rewrite bind_Done_eq. eexists _, _. split; [done|]. by split_and!; [apply strlwc_short|..].
  - pose proof (scan_any_short [fmt_dquote; fmt_squote; fmt_plain] l Hl' (b_key b, b_value b) Hk Hv) as [H1 H2].
    destruct (scan_any _ l (b_key b, b_value b)) as [kv [|]]; cbn [fst] in H1, H2.
    + destruct (strstrip_short _ H1) as (k & -> & Hk'). destruct (strstrip_short _ H2) as (v & -> & Hv'). rewrite !bind_Done_eq.
      eexists _, _. split; [done|]. split_and!; [done | by apply strlwc_short|]. cbn. by destruct (_ || _); [unfold short; cbn; lia|].
    + pose proof (scan_any_short [fmt_comment; fmt_empty] l Hl' kv H1 H2) as [H3 H4].
      destruct (scan_any [fmt_comment; fmt_empty] l kv) as [kv' [|]]; cbn [fst] in H3, H4.
      * destruct (strstrip_short _ H3) as (k & -> & Hk'). rewrite bind_Done_eq. eexists _, _. split; [done|].
        split_and!; [done | by apply strlwc_short | unfold short; cbn; lia].
      * by eexists _, _.
Qed.

Lemma map_size_insert_le (m : gmap string (option string)) key val : size (<[key := val]> m) <= S (size m).
Proof. rewrite map_size_insert. destruct (m !! key); cbn; lia. Qed.

Lemma load_status_short alloc sta b d errs n : (forall x, alloc x = true) -> dict_wf d -> short_buffers b ->
  size (dict_map d) + S n <= Z.to_nat slots_limit -> exists errs' d', load_status alloc sta b (DLive d) errs = Done (errs', DLive d') /\
    dict_wf d' /\ size (dict_map d') + n <= Z.to_nat slots_limit.
Proof.
  intros A W (Hs & Hk & Hv) Hn.
  assert (forall key val, exists d', dictionary_set alloc d (Some key) val = Done (0%Z, DLive d') /\ dict_wf d' /\
    size (dict_map d') + n <= Z.to_nat slots_limit) as Hset.
  { intros key val. pose proof (map_size_insert_le (dict_map d) key val) as Hle.
    destruct (dictionary_set_live alloc d key val A W) as (d' & E & W' & Hm); [lia|]. exists d'. rewrite Hm. split_and!; [done | done | lia]. }
  assert (exists errs' d', Done (errs, DLive d) = @Done (Z * dict_obj) (errs', DLive d') /\ dict_wf d' /\ size (dict_map d') + n <= Z.to_nat slots_limit) as Hsame
    by (exists errs, d; split_and!; [done | done | lia]).
  unfold load_status, set_dict. destruct sta; try done.
  - exists (errs + 1)%Z, d. split_and!; [done | done | lia].
  - destruct (Hset (b_section b) None) as (d' & -> & ?). by exists 0%Z, d'.
  - rewrite (proj2 (Nat.leb_le _ _)); [|rewrite !slength_app; unfold short, ASCIILINESZ in *; cbn; lia].
    destruct (Hset (b_section b +:+ ":" +:+ b_key b) (Some (b_value b))) as (d' & -> & ?). by exists 0%Z, d'.
Qed.

(** A turn on a whole line of a file that loads. *)
Lemma load_turn_tame alloc l st d n : (forall x, alloc x = true) -> ls_dict st = DLive d -> dict_wf d -> short_buffers (ls_buf st) ->
  ls_prefix st = EmptyString -> tame_line l = true -> size (dict_map d) + S n <= Z.to_nat slots_limit ->
  exists st' d', (load_turn alloc (l +:+ nl) st = Done (Next st') \/ load_turn alloc (l +:+ nl) st = Done (Break st')) /\
    ls_dict st' = DLive d' /\ dict_wf d' /\ short_buffers (ls_buf st') /\ ls_prefix st' = EmptyString /\
    size (dict_map d') + n <= Z.to_nat slots_limit.
Proof.
  intros A Hd W Hb Hp Ht Hn. unfold tame_line in Ht. apply andb_true_iff in Ht as [[Hl Hlen%Nat.leb_le]%andb_true_iff Hkind].
  destruct (Nat.eqb_spec (String.length l) 0) as [E|E].
  { destruct l; [|done]. exists st, d. split_and!; [left | done | done | done | done | lia]. unfold load_turn. by rewrite Hp. }
  cbn [orb] in Hkind. apply andb_true_iff in Hkind as [Hr%Nat.ltb_lt Hc%negb_true_iff].
  rewrite (load_turn_line alloc l st Hp Hl); [|by intros E'; rewrite E' in Hr; cbn in Hr; lia|done].
  destruct (iniparser_line_short (rskip l) (ls_buf st)) as (sta & b & -> & Hb'); [unfold short; pose proof (rskip_length l); lia | done|].
  rewrite bind_Done_eq, Hd. destruct (load_status_short alloc sta b d (ls_errs st) n A W Hb' Hn) as (errs & d' & -> & W' & Hn').
  rewrite bind_Done_eq. exists (Ls (DLive d') b EmptyString errs), d'. split_and!; [|done..]. destruct (errs <? 0)%Z; auto.
Qed.

Lemma load_end_returns st d : ls_dict st = DLive d -> exists r, load_end st = Done r.
Proof. intros Hd. unfold load_end. rewrite Hd. destruct (_ =? _)%Z; by eexists. Qed.

Lemma take_line_last n s : sall line_char s = true -> String.length s < n -> take_line n s = (s, EmptyString).
Proof.
  revert n. induction s as [|c s IH]; intros [|n] Hs Hn; cbn in Hn; try lia; [done|]. cbn [sall] in Hs.
  apply andb_true_iff in Hs as [Hc Hs]. cbn [take_line]. apply andb_true_iff in Hc as [_ Hc%negb_true_iff]. rewrite Hc. by rewrite IH by (done || lia).
Qed.

(** What follows the last newline: the loop ends with it. *)
Lemma load_loop_last alloc fuel last st d : ls_dict st = DLive d -> ls_prefix st = EmptyString ->
  sall line_char last = true -> String.length last <= 500 -> String.length last < fuel ->
  exists r, load_loop alloc fuel last st = Done r.
Proof.
  intros Hd Hp Hl Hlen Hf. destruct fuel as [|fuel]; [lia|]. cbn [load_loop]. rewrite Hp. destruct last as [|c s]; [by eapply load_end_returns|].
  unfold fgets. rewrite take_line_last by (done || (unfold ASCIILINESZ; cbn in *; lia)). unfold load_turn. rewrite Hp.
  cbn [String.append]. rewrite cstr_id.
  2:{ revert Hl. apply sall_weaken. by intros x [? _]%andb_true_iff. }
  destruct (Z.eqb_spec (Z.of_nat (String.length (String c s)) - 1) 0) as [E|E].
  - rewrite bind_Done_eq. destruct fuel as [|fuel]; [cbn in *; lia|]. cbn [load_loop fgets]. by eapply load_end_returns.
  - rewrite (proj2 (Z.ltb_ge _ _)) by (cbn [String.length]; lia).
    assert (Ascii.eqb (slast (String c s)) nl_char = false) as ->.
    { apply not_true_iff_false. intros Hnl%Ascii.eqb_eq. clear -Hl Hnl. revert c Hl Hnl. induction s as [|c' s IH]; intros c Hl Hnl.
      - cbn in Hnl. subst c. done.
      - apply (IH c'); [|done]. cbn [sall] in Hl |- *. by apply andb_true_iff in Hl as [_ ?]. }
    cbn [negb]. rewrite Hd. cbn [dictionary_del]. rewrite !bind_Done_eq. by eexists.
Qed.

Lemma load_loop_tame alloc ls last : (forall x, alloc x = true) -> forallb tame_line ls = true ->
  sall line_char last = true -> String.length last <= 500 -> forall fuel st d,
  ls_dict st = DLive d -> dict_wf d -> short_buffers (ls_buf st) -> ls_prefix st = EmptyString ->
  size (dict_map d) + length ls <= Z.to_nat slots_limit -> String.length (text ls last) < fuel ->
  exists r, load_loop alloc fuel (text ls last) st = Done r.
Proof.
  intros A Hls Hlast Hlen. induction ls as [|l ls IH]; intros fuel st d Hd W Hb Hp Hn Hf; [by eapply load_loop_last|].
  cbn [forallb] in Hls. apply andb_true_iff in Hls as [Hl Hls]. pose proof Hl as Hl'. unfold tame_line in Hl'.
  apply andb_true_iff in Hl' as [[Hlc Hll%Nat.leb_le]%andb_true_iff _]. destruct fuel as [|fuel]; [lia|]. cbn [text] in *.
  rewrite load_loop_line by (done || (unfold ASCIILINESZ; lia)). rewrite !slength_app in Hf. cbn [length] in Hn.
  destruct (load_turn_tame alloc l st d (length ls) A Hd W Hb Hp Hl Hn) as (st' & d' & [-> | ->] & Hd' & W' & Hb' & Hp' & Hn'); rewrite bind_Done_eq.
  - eapply IH; [done..|]. cbn in Hf. lia.
  - by eapply load_end_returns.
Qed.

(** C35. Loading a file, when every allocation succeeds.  It never runs for ever:
    its fuel, the length of the file plus one, is not used up.  It returns for every
    file of at most 2^27 lines of at most 500 characters, none of them a line of
    blanks or continued by a backslash (what is wrong in a line is an error that is
    counted); other files can make it do something undefined (a line of blanks,
    [iniparser_load_blank_line]; a section and a key that are too long together,
    [iniparser_load_key_overflow]).  Whatever the file, a dictionary that is returned
    is usable: it is well formed and all its keys are in lower case and at most 1024
    characters long, so that a query, which lowers and cuts the key it is given,
    finds every one of them. *)
Theorem iniparser_load_total (alloc : Z -> bool) (file : option string) (A : forall b, alloc b = true) :
  iniparser_load alloc file <> Timeout /\
  (forall ls last, file = Some (text ls last) -> forallb tame_line ls = true -> sall line_char last = true ->
     String.length last <= 500 -> length ls <= Z.to_nat slots_limit -> exists r, iniparser_load alloc file = Done r) /\
  forall obj, iniparser_load alloc file = Done (Some obj) ->
    exists d, obj = DLive d /\ dict_wf d /\
      forall k, iniparser_getstring (Some d) (Some k) CInvalid = from_option ptr_of CInvalid (dict_map d !! strlwc k) /\
                (is_Some (dict_map d !! k) -> strlwc k = k).
Proof.
  pose proof (load_result alloc A file) as H. split_and!.
  - intros E. by rewrite E in H.
  - intros ls last -> Hls Hlast Hlen Hn. destruct (iniparser_load_start alloc (text ls last) A) as (d & W & Hm & ->).
    eapply load_loop_tame; try done; [unfold short_buffers, short; cbn; lia|rewrite Hm, map_size_empty; lia|lia].
  - intros obj E. rewrite E in H. destruct H as (d & -> & W & Hk). exists d. split_and!; try done. intros k. split.
    + by apply dictionary_get_spec.
    + intros [Hl Hn]%Hk. by apply strlwc_id.
Qed.

(** ** Syntax errors *)

(** A line that is neither empty, a comment, a section nor an entry: the name
    of a key without an equal sign. *)
Definition bad_line (l : string) : bool :=
  good_key l && (String.length l <=? 1000) && negb (Ascii.eqb (slast l) "\").

Lemma scan_any_no_equal l kv fmts :
  l <> EmptyString -> has_char "=" l = false ->
  Forall (fun fmt => exists fmt', fmt = SSet true "=" :: fmt' /\ sscanf fmt' EmptyString = []) fmts ->
  exists kv', scan_any fmts l kv = (kv', false).
Proof.
  intros Hne Hl HF. revert kv. induction HF as [|fmt fmts (fmt' & -> & Hf) _ IH]; intros kv;
    [by eexists|].
  assert (scan_pair (SSet true "=" :: fmt') l kv = ((l, kv.2), false)) as E.
  { unfold scan_pair. cbn [sscanf]. rewrite span_all by (by apply in_set_not).
    destruct l; [done|]. by rewrite Hf. }
  rewrite (scan_any_step _ _ _ _ _ _ E). apply IH.
Qed.

Lemma iniparser_line_bad l b :
  bad_line l = true -> exists b', iniparser_line l b = Done (LINE_ERROR, b') /\
                                  b_section b' = b_section b.
Proof.
  intros H. unfold bad_line in H. split_good H. unfold good_key in H. split_good H.
  apply Nat.leb_le in H1. apply Nat.ltb_lt in H. apply negb_true_iff in H2, H3.
  unfold iniparser_line. rewrite strstrip_id by (done || (unfold ASCIILINESZ; lia)).
  cbn [mbind outcome_bind]. destruct (Nat.ltb_spec (String.length l) 1); [lia|].
  assert (forall c, has_char c "#;[" = true -> Ascii.eqb (shead l) c = false) as Hnot.
  { intros c Hc. destruct (Ascii.eqb_spec (shead l) c) as [<-|]; [|done].
    unfold one_of in H2. congruence. }
  rewrite !Hnot by reflexivity. cbn [orb andb].
  assert (l <> EmptyString) as Hne by (intros ->; cbn in H; lia).
  destruct (scan_any_no_equal l (b_key b, b_value b) [fmt_dquote; fmt_squote; fmt_plain] Hne H3)
    as [kv E]; [repeat constructor; by eexists|]. rewrite E.
  destruct (scan_any_no_equal l kv [fmt_comment; fmt_empty] Hne H3)
    as [kv' E']; [repeat constructor; by eexists|]. rewrite E'. by eexists.
Qed.

Lemma load_turn_bad alloc l st d cur :
  between st d cur -> bad_line l = true ->
  exists st', load_turn alloc (l +:+ nl) st = Done (Next st') /\
    ls_dict st' = DLive d /\ ls_prefix st' = EmptyString /\
    b_section (ls_buf st') = cur /\ ls_errs st' = 1%Z.
Proof.
  intros [Hd W Hs Hp He] H. destruct (iniparser_line_bad l (ls_buf st) H) as (b' & E & Hb).
  unfold bad_line in H. split_good H. unfold good_key in H. split_good H.
  apply negb_true_iff in H0. destruct (lskip_rskip_id _ H6) as [_ Hr].
  assert (l <> EmptyString) as Hne by (intros ->; done).
  rewrite load_turn_line; rewrite ?Hr; try done. rewrite E. cbn [mbind outcome_bind load_status].
  rewrite He. eexists. split; [done|]. split_and!; try done; cbn; congruence.
Qed.

(** A syntax error alone makes the loading fail, but the same error
    followed by a section line is forgotten: the loading then returns a
    dictionary (the error count is overwritten with the result of the
    insertion). *)
Theorem iniparser_load_forgets_errors (alloc : Z -> bool) (bad s : string)
    (A : forall b, alloc b = true) (Hbad : bad_line bad = true) (Hs : good_section s = true) :
  iniparser_load alloc (Some (bad +:+ nl)) = Done None /\
  exists d, iniparser_load alloc (Some ((bad +:+ nl) +:+ ("[" +:+ s +:+ "]") +:+ nl))
            = Done (Some (DLive d)) /\
            dict_wf d /\ dict_map d = {[ s := None ]}.
Proof.
  pose proof Hbad as Hb. unfold bad_line in Hb. split_good Hb. apply Nat.leb_le in Hb1.
  unfold good_key in Hb. split_good Hb.
  assert (String.length bad + 1 < ASCIILINESZ) as Hn by (unfold ASCIILINESZ; lia).
  split.
  - destruct (iniparser_load_start alloc (bad +:+ nl) A) as (d & W & Hm & ->).
    rewrite <- (sapp_nil_r (bad +:+ nl)) at 2. rewrite load_loop_line by done.
    destruct (load_turn_bad alloc bad (start d) d EmptyString) as (st' & -> & Hd & Hp & _ & He);
      [by split | done |].
    cbn [mbind outcome_bind]. rewrite slength_app. cbn [String.length nl].
    rewrite Nat.add_1_r. cbn [load_loop fgets mbind outcome_bind]. unfold load_end. by rewrite He, Hd.
  - set (sec := ("[" +:+ s +:+ "]") +:+ nl).
    destruct (iniparser_load_start alloc ((bad +:+ nl) +:+ sec) A) as (d & W & Hm & ->).
    rewrite load_loop_line by done.
    destruct (load_turn_bad alloc bad (start d) d EmptyString) as (st' & -> & Hd & Hp & Hsec & He);
      [by split | done |].
    cbn [mbind outcome_bind].
    destruct (load_turn_section alloc s st' d A Hd W Hp Hs) as (st2 & d2 & Ht & B2 & Hm2);
      [by rewrite Hm, map_size_insert_None, map_size_empty by apply lookup_empty|].
    assert (exists fuel, String.length ((bad +:+ nl) +:+ sec) = S (S fuel)) as [fuel ->].
    { exists (String.length bad + String.length s + 2). unfold sec.
      rewrite !slength_app. cbn [String.length nl]. lia. }
    unfold sec. rewrite <- (sapp_nil_r (_ +:+ nl)). rewrite load_loop_line; [|done| |].
    + rewrite Ht. cbn [mbind outcome_bind]. cbn [load_loop fgets].
      destruct B2 as [Hd2 W2 _ _ He2]. unfold load_end. rewrite He2, Hd2.
      exists d2. split_and!; [done | done |]. by rewrite Hm2, Hm.
    + by apply sall_line_good_section.
    + by destruct (item_line_ok s (ISec s) []) as [_ ?]; [cbn; by rewrite Hs|].
Qed.

(** ** Lines of blanks *)

Definition blank_char (c : ascii) : bool := isspace c && line_char c.

Lemma rskip_blank s : sall isspace s = true -> rskip s = EmptyString.
Proof.
  induction s as [|c s IH]; cbn; [done|]. intros [Hc Hs]%andb_true_iff.
  by rewrite IH, Hc.
Qed.

(** A file with a line made of blanks only (at least one, then the
    newline) is not handled: once the blanks are stripped the loop tests the
    character before the start of its buffer. *)
Theorem iniparser_load_blank_line (alloc : Z -> bool) (ws rest : string)
    (A : forall b, alloc b = true) (Hws : sall blank_char ws = true)
    (Hne : 0 < String.length ws <= 1000) :
  iniparser_load alloc (Some ((ws +:+ nl) +:+ rest)) = Fault.
Proof.
  destruct (iniparser_load_start alloc ((ws +:+ nl) +:+ rest) A) as (d & W & Hm & ->).
  generalize (String.length ((ws +:+ nl) +:+ rest)) as fuel. intros fuel.
  assert (sall line_char ws = true /\ sall isspace ws = true) as [Hl Hb].
  { split; revert Hws; apply sall_weaken; by intros c [? ?]%andb_true_iff. }
  rewrite load_loop_line by (done || (unfold ASCIILINESZ; lia)).
  unfold load_turn. cbn [start ls_prefix]. change (EmptyString +:+ ?x) with x.
  rewrite cstr_id.
  2:{ rewrite sall_app. apply andb_true_iff. split; [|done]. revert Hl.
      apply sall_weaken. by intros c [? _]%andb_true_iff. }
  rewrite slength_app. cbn [String.length nl].
  destruct (Z.eqb_spec (Z.of_nat (String.length ws + 1) - 1) 0); [lia|].
  destruct (Z.ltb_spec (Z.of_nat (String.length ws + 1) - 1) 0); [lia|].
  unfold nl. rewrite slast_app, Ascii.eqb_refl. cbn [negb].
  rewrite rskip_app by reflexivity. by rewrite rskip_blank.
Qed.

(** ** Keys that are too long *)

(** A section name and a key that each fit in a line, but are longer than
    1023 characters together, overflow the buffer in which the full key is
    built. *)
Theorem iniparser_load_key_overflow (alloc : Z -> bool) (s k v : string)
    (A : forall b, alloc b = true) (Hs : good_section s = true) (Hk : good_key k = true)
    (Hv : good_value v = true) (Hf : fits_line k v = true)
    (Hlong : ASCIILINESZ < String.length s + 1 + String.length k) :
  iniparser_load alloc (Some (render_all [ISec s; IEntry k v])) = Fault.
Proof.
  destruct (iniparser_load_start alloc (render_all [ISec s; IEntry k v]) A)
    as (d & W & Hm & ->).
  destruct (load_turn_section alloc s (start d) d A) as (st1 & d1 & Ht1 & B1 & _); try done.
  { by rewrite Hm, map_size_insert_None, map_size_empty by apply lookup_empty. }
  assert (exists fuel, String.length (render_all [ISec s; IEntry k v]) = S fuel) as [fuel ->].
  { cbn [render_all render]. rewrite !slength_app. cbn [String.length]. eexists.
    rewrite Nat.add_succ_l. reflexivity. }
  cbn [render_all]. rewrite sapp_nil_r, !render_line. cbn [item_line].
  rewrite load_loop_line; [|done|by apply sall_line_good_section|].
  2:{ by destruct (item_line_ok s (ISec s) []) as [_ ?]; [cbn; by rewrite Hs|]. }
  rewrite Ht1. cbn [mbind outcome_bind].
  rewrite <- (sapp_nil_r (_ +:+ nl)).
  destruct (item_line_ok EmptyString (IEntry k v) []) as [Hl Hn].
  { cbn [items_ok]. rewrite Hk, Hv. unfold fits. rewrite Hf. cbn [andb].
    destruct (fits_bounds k v Hf) as (_ & _ & Hb).
    destruct (Nat.leb_spec (String.length "" + 1 + String.length k) ASCIILINESZ); [done|].
    cbn in *. lia. }
  rewrite load_loop_line; [|by apply (bt_prefix _ _ _ B1) | done | done].
  cbn [item_line]. rewrite (load_turn_entry_line alloc k v st1 d1 s B1 Hk Hv Hf).
  cbn [load_status b_section b_key b_value].
  destruct (Nat.leb_spec (String.length (s +:+ ":" +:+ k)) ASCIILINESZ) as [Hle|]; [|done].
  rewrite !slength_app in Hle. cbn [String.length] in Hle. lia.
Qed.

(** ** Setting and querying *)

(** iniparser_set and iniparser_getstring agree, whatever the case of the
    names: after setting an entry, a query whose lowered key is the lowered
    entry gets the new value and every other query is answered as before.  An
    entry that is not there is added (the result is 0), not refused. *)
Theorem iniparser_set_getstring (alloc : Z -> bool) (d : dictionary) (entry : string)
    (val : option string) (W : dict_wf d)
    (M : set_memory alloc d (strlwc entry) val = true) :
  exists d', iniparser_set alloc d (Some entry) val = Done (0%Z, DLive d') /\ dict_wf d' /\
    forall key def, iniparser_getstring (Some d') (Some key) def =
      if decide (strlwc key = strlwc entry) then ptr_of val
      else iniparser_getstring (Some d) (Some key) def.
Proof.
  destruct (dictionary_set_spec alloc d (strlwc entry) val W M) as (d' & E & W' & Hm).
  exists d'. split_and!; [exact E | done |]. intros key def. cbn [iniparser_getstring].
  rewrite !dictionary_get_spec, Hm by done. destruct (decide (strlwc key = strlwc entry)) as [->|Hne].
  - by rewrite lookup_insert_eq.
  - by rewrite lookup_insert_ne.
Qed.

(** ** Concrete instances *)

(** The dictionary of a small dsp.ini. *)
Definition sample_dict : dictionary :=
  dict_of [("src", None); ("src:library", Some "builtin"); ("src:output_0", Some "{l}");
           ("eq", None); ("eq:library", Some "builtin"); ("eq:label", Some "eq");
           ("eq:disable", Some "(not disable_eq)"); ("eq:input_1", Some "")]%string.

Lemma sample_dict_wf : dict_wf sample_dict.
Proof. apply dict_wfb_sound. vm_compute. reflexivity. Qed.

Fixpoint srepeat (n : nat) (c : ascii) : string :=
  match n with 0 => EmptyString | S n => String c (srepeat n c) end.

Lemma iniparser_sections_enumerated_witness :
  (forall n, is_Some (iniparser_getsecname (Some sample_dict) n) <->
             (0 <= n < iniparser_getnsec (Some sample_dict))%Z) /\
  (forall k, (exists n, iniparser_getsecname (Some sample_dict) n = Some k) <->
             is_section k = true /\ is_Some (dict_map sample_dict !! k)) /\
  (forall n m k, iniparser_getsecname (Some sample_dict) n = Some k ->
                 iniparser_getsecname (Some sample_dict) m = Some k -> n = m).
Proof. apply iniparser_sections_enumerated. exact sample_dict_wf. Defined.

Lemma iniparser_getseckeys_fits_witness :
  exists keys,
    iniparser_getseckeys (Some sample_dict) "eq" = Done (Some keys) /\
    Z.of_nat (length keys) = 4%Z /\
    forall k, k ∈ keys <-> (exists x, k = ("eq" +:+ ":" +:+ x)%string) /\
                           is_Some (dict_map sample_dict !! k).
Proof.
  apply (iniparser_getseckeys_fits sample_dict "eq" 4 sample_dict_wf); vm_compute; reflexivity.
Defined.

Definition sample_file : string :=
  "[Src]" +:+ nl +:+ "Library = builtin" +:+ nl +:+ "output_0={l\" +:+ nl +:+ "eft}" +:+ nl.

Lemma iniparser_load_total_witness : exists r, iniparser_load no_limit (Some (text ["[eq]"; "label = eq"; ""] "n")) = Done r.
Proof.
  destruct (iniparser_load_total no_limit (Some (text ["[eq]"; "label = eq"; ""] "n"))) as (_ & Hr & _); [intros b; reflexivity|].
  apply (Hr ["[eq]"; "label = eq"; ""]%string "n"%string eq_refl); [vm_compute; reflexivity..| |]; cbn [String.length length]; unfold slots_limit; lia.
Defined.

Lemma ini_dump_load_witness :
  exists text d',
    iniparser_dump_ini (Some sample_dict) = Done text /\
    iniparser_load no_limit (Some text) = Done (Some (DLive d')) /\
    dict_wf d' /\ dict_map d' = dict_map sample_dict.
Proof.
  apply ini_dump_load; [intros b; reflexivity | exact sample_dict_wf | vm_compute; reflexivity | vm_compute; discriminate].
Defined.

Lemma iniparser_load_forgets_errors_witness :
  iniparser_load no_limit (Some ("oops" +:+ nl)) = Done None /\
  exists d, iniparser_load no_limit (Some (("oops" +:+ nl) +:+ ("[" +:+ "eq" +:+ "]") +:+ nl))
            = Done (Some (DLive d)) /\
            dict_wf d /\ dict_map d = {[ "eq"%string := None ]}.
Proof.
  apply (iniparser_load_forgets_errors no_limit "oops" "eq");
    [intros b; reflexivity | vm_compute; reflexivity | vm_compute; reflexivity].
Defined.

Lemma iniparser_load_blank_line_witness :
  iniparser_load no_limit (Some (("  " +:+ nl) +:+ "[eq]" +:+ nl)) = Fault.
Proof.
  apply (iniparser_load_blank_line no_limit "  " ("[eq]" +:+ nl));
    [intros b; reflexivity | vm_compute; reflexivity | cbn; lia].
Defined.

Lemma iniparser_load_key_overflow_witness :
  iniparser_load no_limit (Some (render_all [ISec (srepeat 600 "s"); IEntry (srepeat 600 "k") "v"]))
  = Fault.
Proof.
  apply iniparser_load_key_overflow;
    [intros b; reflexivity | vm_compute; reflexivity | vm_compute; reflexivity
    | vm_compute; reflexivity | vm_compute; reflexivity | apply Nat.ltb_lt; vm_compute; reflexivity].
Defined.

Lemma iniparser_set_getstring_witness :
  exists d', iniparser_set no_limit sample_dict (Some "EQ:Label"%string) (Some "eq2"%string)
               = Done (0%Z, DLive d') /\ dict_wf d' /\
    forall key def, iniparser_getstring (Some d') (Some key) def =
      if decide (strlwc key = strlwc "EQ:Label") then ptr_of (Some "eq2"%string)
      else iniparser_getstring (Some sample_dict) (Some key) def.
Proof. apply iniparser_set_getstring; [exact sample_dict_wf | vm_compute; reflexivity]. Defined.
