(* ===== verification/CArray.v ===== *)
(** * CArray: the growable arrays of audio/hal/array.h

    An array is a count, a size and [size] cells obtained from realloc; a cell
    that was never written is [None].  [alloc n] says whether realloc can give
    [n] cells; the macros do not test its result.  The operations refine those
    of lists ([array_rep]), which is how the other components use arrays. *)

From S2P Require Import Prelude.

Record array (A : Type) : Type := Arr {
  a_count : nat;
  a_size : nat;
  a_element : list (option A)
}.
Arguments Arr {A} _ _ _.
Arguments a_count {A} _.
Arguments a_size {A} _.
Arguments a_element {A} _.

Definition INT_MAX : Z := 2147483647.

Section CArray.
Context {A : Type} (alloc : nat -> bool).

Definition ARRAY_INIT : array A := Arr 0 0 [].

(** _ARRAY_EXTEND: the index of the new cell and the array.  [size *= 2] must
    not overflow an int; a write through a NULL [element] is undefined. *)
Definition ARRAY_EXTEND (a : array A) : outcome (nat * array A) :=
  if a_size a <=? a_count a then
    let size := if a_size a =? 0 then 4 else a_size a * 2 in
    if (INT_MAX <? Z.of_nat size)%Z then Fault
    else if alloc size then
      Done (a_count a,
            Arr (S (a_count a)) size
                (a_element a ++ replicate (size - a_size a) None))
    else Fault
  else Done (a_count a, Arr (S (a_count a)) (a_size a) (a_element a)).

(** A store to cell [i] of the memory of the array. *)
Definition array_store (a : array A) (i : nat) (value : A) : outcome (array A) :=
  if i <? length (a_element a)
  then Done (Arr (a_count a) (a_size a) (<[i := Some value]> (a_element a)))
  else Fault.

Definition ARRAY_APPEND (a : array A) (value : A) : outcome (array A) :=
  '(i, a) ← ARRAY_EXTEND a; array_store a i value.

(** [zero] is the element whose bytes are all zero. *)
Definition ARRAY_APPEND_ZERO (zero : A) (a : array A) : outcome (nat * array A) :=
  '(i, a) ← ARRAY_EXTEND a; a ← array_store a i zero; Done (i, a).

Definition ARRAY_COUNT (a : array A) : nat := a_count a.

(** Reading through ARRAY_ELEMENT(a, i): the cell must hold a value. *)
Definition ARRAY_ELEMENT (a : array A) (i : nat) : outcome A :=
  access (mjoin (a_element a !! i)).

(** FOR_ARRAY_ELEMENT: the body is run on the cells [i .. count - 1]. *)
Fixpoint array_for {S} (todo i : nat) (a : array A) (body : nat -> A -> S -> outcome S)
    (s : S) : outcome S :=
  match todo with
  | 0 => Done s
  | Datatypes.S todo =>
      x ← ARRAY_ELEMENT a i; s ← body i x s; array_for todo (i + 1) a body s
  end.

Definition FOR_ARRAY_ELEMENT {S} (a : array A) (body : nat -> A -> S -> outcome S) (s : S)
    : outcome S :=
  array_for (a_count a) 0 a body s.

Definition ARRAY_FREE (a : array A) : array A := Arr 0 0 [].

(** ARRAY_FIND: [eqx y] is [y == x]. *)
Fixpoint array_find (eqx : A -> bool) (todo i : nat) (a : array A) : outcome Z :=
  match todo with
  | 0 => Done (-1)%Z
  | S todo =>
      y ← ARRAY_ELEMENT a i;
      if eqx y then Done (Z.of_nat i) else array_find eqx todo (S i) a
  end.

Definition ARRAY_FIND (eqx : A -> bool) (a : array A) : outcome Z :=
  array_find eqx (a_count a) 0 a.

(** ** The list an array stands for *)

(** [size] is 0 or 4 times a power of two, the cells below [count] hold the
    elements of the list, and the array wastes at most half of its cells. *)
Record array_rep (a : array A) (l : list A) : Prop := {
  rep_count : a_count a = length l;
  rep_cells : length (a_element a) = a_size a;
  rep_size : a_size a = 0 \/ exists k, a_size a = 4 * 2 ^ k;
  rep_bound : a_size a <= Nat.max (if length l =? 0 then 0 else 4) (2 * length l);
  rep_elements : forall i x, l !! i = Some x -> a_element a !! i = Some (Some x)
}.

Lemma ARRAY_INIT_rep : array_rep ARRAY_INIT [].
Proof. split; try done; by left. Qed.

Lemma array_rep_le a l : array_rep a l -> length l <= a_size a.
Proof.
  intros [Hc Hs _ _ He]. destruct (decide (length l <= a_size a)) as [|Hlt]; [done|].
  destruct (lookup_lt_is_Some_2 l (a_size a)) as [x Hx]; [lia|].
  apply He, lookup_lt_Some in Hx. lia.
Qed.

(** An allocator that never fails below [INT_MAX + 1] cells. *)
Definition alloc_ok : Prop := forall n, (Z.of_nat n <= INT_MAX)%Z -> alloc n = true.

Lemma array_extend_rep a l :
  alloc_ok -> array_rep a l -> (2 * Z.of_nat (length l) <= INT_MAX)%Z ->
  exists a', ARRAY_EXTEND a = Done (length l, a') /\ a_count a' = S (length l)
    /\ length l < length (a_element a') /\ length (a_element a') = a_size a'
    /\ (exists k, a_size a' = 4 * 2 ^ k)
    /\ a_size a' <= Nat.max 4 (2 * S (length l))
    /\ (forall i x, l !! i = Some x -> a_element a' !! i = Some (Some x)).
Proof.
  intros Hal R Hn. pose proof (array_rep_le a l R) as Hle.
  destruct R as [Hc Hs Hp Hb He]. unfold ARRAY_EXTEND. rewrite Hc.
  destruct (a_size a <=? length l) eqn:E.
  - apply Nat.leb_le in E. set (size := if a_size a =? 0 then 4 else a_size a * 2).
    assert (a_size a = length l) as Heq by lia.
    assert (a_size a < size /\ (exists k, size = 4 * 2 ^ k) /\ size <= Nat.max 4 (2 * length l)
            /\ (Z.of_nat size <= INT_MAX)%Z) as (Hlt & Hpow & Hmax & Hint).
    { unfold size. destruct (a_size a =? 0) eqn:E0.
      - apply Nat.eqb_eq in E0. repeat split; [lia | by exists 0 | lia | unfold INT_MAX; lia].
      - apply Nat.eqb_neq in E0. destruct Hp as [?|[k Hk]]; [lia|].
        repeat split; [lia | | lia | lia].
        exists (S k). rewrite Nat.pow_succ_r'. lia. }
    destruct (INT_MAX <? Z.of_nat size)%Z eqn:E1; [apply Z.ltb_lt in E1; lia|].
    rewrite Hal by done. eexists. split; [done|]. cbn.
    rewrite length_app, length_replicate. repeat split; try lia; try done.
    intros i x Hx. apply lookup_app_l_Some. auto.
  - apply Nat.leb_gt in E. eexists. split; [done|]. cbn.
    repeat split; try lia; try done.
    + destruct Hp as [Hp|Hp]; [lia | done].
    + destruct (length l =? 0); lia.
Qed.

Lemma array_store_rep a' l x :
  a_count a' = S (length l) -> length l < length (a_element a') ->
  length (a_element a') = a_size a' -> (exists k, a_size a' = 4 * 2 ^ k) ->
  a_size a' <= Nat.max 4 (2 * S (length l)) ->
  (forall i y, l !! i = Some y -> a_element a' !! i = Some (Some y)) ->
  exists a, array_store a' (length l) x = Done a /\ array_rep a (l ++ [x]).
Proof.
  intros Hc Hlt Hs Hp Hb He. unfold array_store.
  rewrite (proj2 (Nat.ltb_lt _ _) Hlt). eexists. split; [done|].
  split; cbn; rewrite ?length_insert, ?length_app; cbn.
  - lia.
  - done.
  - by right.
  - destruct (length l + 1 =? 0) eqn:E; [apply Nat.eqb_eq in E; lia | lia].
  - intros i y Hy. apply lookup_app_Some in Hy as [Hy|[Hi Hy]].
    + rewrite list_lookup_insert_ne; [auto|]. apply lookup_lt_Some in Hy. lia.
    + apply list_lookup_singleton_Some in Hy as [Hi' <-].
      replace i with (length l) by lia. by apply list_lookup_insert_eq.
Qed.

Lemma array_append_rep a l x :
  alloc_ok -> array_rep a l -> (2 * Z.of_nat (length l) <= INT_MAX)%Z ->
  exists a', ARRAY_APPEND a x = Done a' /\ array_rep a' (l ++ [x]).
Proof.
  intros Hal R Hn. destruct (array_extend_rep a l Hal R Hn) as (a1 & E & H1 & H2 & H3 & H4 & H5 & H6).
  unfold ARRAY_APPEND. rewrite E. cbn. by apply array_store_rep.
Qed.

Lemma array_element_rep a l i x :
  array_rep a l -> l !! i = Some x -> ARRAY_ELEMENT a i = Done x.
Proof. intros R H. unfold ARRAY_ELEMENT. by rewrite (rep_elements a l R i x H). Qed.

(** FOR_ARRAY_ELEMENT folds the body over the list. *)
Fixpoint list_for {S} (i : nat) (l : list A) (body : nat -> A -> S -> outcome S) (s : S)
    : outcome S :=
  match l with
  | [] => Done s
  | x :: l => s ← body i x s; list_for (i + 1) l body s
  end.

Lemma array_for_rep {S} (body : nat -> A -> S -> outcome S) a l1 l2 s :
  array_rep a (l1 ++ l2) ->
  array_for (length l2) (length l1) a body s = list_for (length l1) l2 body s.
Proof.
  revert l1 s. induction l2 as [|x l2 IH]; intros l1 s R; [done|].
  cbn [length array_for list_for].
  rewrite (array_element_rep a (l1 ++ x :: l2) (length l1) x R)
    by (by apply list_lookup_middle).
  cbn. destruct (body (length l1) x s) as [s'| |]; cbn; try done.
  replace (length l1 + 1) with (length (l1 ++ [x])) by (rewrite length_app; cbn; lia).
  apply IH. by rewrite <- app_assoc.
Qed.

Lemma array_find_rep (eqx : A -> bool) a l1 l2 :
  array_rep a (l1 ++ l2) ->
  array_find eqx (length l2) (length l1) a =
  Done (match find_idx eqx l2 with Some j => Z.of_nat (length l1 + j) | None => -1 end)%Z.
Proof.
  revert l1. induction l2 as [|x l2 IH]; intros l1 R; [done|].
  cbn [length array_find find_idx].
  rewrite (array_element_rep a (l1 ++ x :: l2) (length l1) x R)
    by (by apply list_lookup_middle).
  cbn. destruct (eqx x); [by rewrite Nat.add_0_r|].
  replace (S (length l1)) with (length (l1 ++ [x])) by (rewrite length_app; cbn; lia).
  rewrite IH by (by rewrite <- app_assoc). f_equal.
  destruct (find_idx eqx l2) as [j|]; cbn; [|done].
  rewrite length_app. cbn. lia.
Qed.

(** array.h implements lists.  As long as realloc succeeds and the
    doubled size still fits an int, appending to an array that stands for the
    list [l] stays inside the allocated cells and gives an array that stands
    for [l ++ [x]], whose size is a power of two and at most twice its count
    (or 4); the iteration macro runs its body on the elements in order;
    ARRAY_FIND gives the index of the first element equal to x, or -1. *)
Theorem array_refines_list (a : array A) (l : list A) (x : A) (eqx : A -> bool)
    (S : Type) (body : nat -> A -> S -> outcome S) (s : S)
    (Hal : alloc_ok) (R : array_rep a l) (Hn : (2 * Z.of_nat (length l) <= INT_MAX)%Z) :
  (exists a', ARRAY_APPEND a x = Done a' /\ array_rep a' (l ++ [x])) /\
  ARRAY_COUNT a = length l /\
  FOR_ARRAY_ELEMENT a body s = list_for 0 l body s /\
  ARRAY_FIND eqx a =
    Done (match find_idx eqx l with Some j => Z.of_nat j | None => -1 end)%Z.
Proof.
  split; [by apply array_append_rep|].
  split; [exact (rep_count a l R)|].
  unfold FOR_ARRAY_ELEMENT, ARRAY_FIND. rewrite (rep_count a l R). split.
  - exact (array_for_rep body a [] l s R).
  - exact (array_find_rep eqx a [] l R).
Qed.

End CArray.

Lemma array_refines_list_witness :
  exists a, ARRAY_APPEND (fun n => (Z.of_nat n <=? INT_MAX)%Z) ARRAY_INIT 7 = Done a
    /\ array_rep a [7].
Proof.
  assert (alloc_ok (fun n => (Z.of_nat n <=? INT_MAX)%Z)) as Hal by (intros n Hn; by apply Z.leb_le).
  exact (proj1 (array_refines_list (fun n => (Z.of_nat n <=? INT_MAX)%Z) ARRAY_INIT [] 7
           (fun y => y =? 7) nat (fun _ y s => Done (y + s)) 0 Hal ARRAY_INIT_rep
           ltac:(unfold INT_MAX; cbn; lia))).
Defined.
