(* ===== verification/Expr.v ===== *)
(** * Expr: the expression language of audio/hal/cras_expr.c

    Values, expressions, environments, the parser and the evaluator.  A value
    owns its string, so a copy (strdup) is the string itself; malloc is taken
    to succeed, as the code never tests it.  The arrays are lists
    ([CArray.array_refines_list]).  The log messages are left out. *)

From S2P Require Import Prelude CString.

(** ** Values *)

(** Function pointers: the four functions of the file. *)
Inductive cras_expr_function_type : Type :=
| FunctionNot | FunctionAnd | FunctionOr | FunctionEqual.

Inductive cras_expr_value : Type :=
| VALUE_NONE
| VALUE_BOOLEAN (boolean : bool)
| VALUE_INT (integer : Z)
| VALUE_STRING (str : string)
| VALUE_FUNCTION (function : cras_expr_function_type).

#[export] Instance function_eq_dec : EqDecision cras_expr_function_type.
Proof. solve_decision. Defined.

#[export] Instance value_eq_dec : EqDecision cras_expr_value.
Proof. solve_decision. Defined.

(** [copy_str(begin, end)]: [n] is [end - begin]. *)
Definition copy_str (begin : string) (n : nat) : string := stake n begin.

(** The setters overwrite the value, whatever it was. *)
Definition value_set_boolean (boolean : Z) : cras_expr_value :=
  VALUE_BOOLEAN (negb (boolean =? 0)%Z).
Definition value_set_integer (integer : Z) : cras_expr_value := VALUE_INT integer.
Definition value_set_string2 (begin : string) (n : nat) : cras_expr_value :=
  VALUE_STRING (copy_str begin n).
Definition value_set_string (str : string) : cras_expr_value :=
  value_set_string2 str (String.length str).
Definition cras_expr_value_set_function (f : cras_expr_function_type) : cras_expr_value :=
  VALUE_FUNCTION f.

Definition copy_value (original : cras_expr_value) : cras_expr_value :=
  match original with
  | VALUE_NONE => VALUE_NONE
  | VALUE_BOOLEAN b => VALUE_BOOLEAN b
  | VALUE_INT n => VALUE_INT n
  | VALUE_STRING s => VALUE_STRING s
  | VALUE_FUNCTION f => VALUE_FUNCTION f
  end.

Definition cras_expr_value_free (value : cras_expr_value) : cras_expr_value := VALUE_NONE.

(** ** The environment *)

Record cras_expr_env : Type := Env {
  e_keys : list string;
  e_values : list cras_expr_value
}.

Definition empty_env : cras_expr_env := Env [] [].

(** A pointer to a value of the environment is its index. *)
Definition find_value (env : cras_expr_env) (name : string) : option nat :=
  find_idx (fun key => String.eqb key name) (e_keys env).

Definition insert_value (env : cras_expr_env) (key : string) : cras_expr_env * nat :=
  (Env (e_keys env ++ [key]) (e_values env ++ [VALUE_NONE]), length (e_values env)).

Definition find_or_insert_value (env : cras_expr_env) (key : string) : cras_expr_env * nat :=
  match find_value env key with
  | Some i => (env, i)
  | None => insert_value env key
  end.

(** A store through the pointer: it must point into the array. *)
Definition store_value (env : cras_expr_env) (i : nat) (value : cras_expr_value)
    : outcome cras_expr_env :=
  if i <? length (e_values env)
  then Done (Env (e_keys env) (<[i := value]> (e_values env)))
  else Fault.

Definition env_set_variable (env : cras_expr_env) (name : string)
    (new_value : cras_expr_value) : outcome cras_expr_env :=
  let (env, i) := find_or_insert_value env name in
  store_value env i (copy_value new_value).

Definition cras_expr_env_set_variable_boolean (env : cras_expr_env) (name : string)
    (boolean : Z) : outcome cras_expr_env :=
  let (env, i) := find_or_insert_value env name in
  store_value env i (value_set_boolean boolean).

Definition cras_expr_env_set_variable_integer (env : cras_expr_env) (name : string)
    (integer : Z) : outcome cras_expr_env :=
  let (env, i) := find_or_insert_value env name in
  store_value env i (value_set_integer integer).

Definition cras_expr_env_set_variable_string (env : cras_expr_env) (name str : string)
    : outcome cras_expr_env :=
  let (env, i) := find_or_insert_value env name in
  store_value env i (value_set_string str).

Definition cras_expr_env_install_builtins (env : cras_expr_env) : outcome cras_expr_env :=
  env ← env_set_variable env "not" (cras_expr_value_set_function FunctionNot);
  env ← env_set_variable env "and" (cras_expr_value_set_function FunctionAnd);
  env ← env_set_variable env "or" (cras_expr_value_set_function FunctionOr);
  env_set_variable env "equal?" (cras_expr_value_set_function FunctionEqual).

Definition cras_expr_env_free (env : cras_expr_env) : cras_expr_env := Env [] [].

(** ** The builtin functions: [operands] holds the function itself first *)

Definition is_false (value : cras_expr_value) : bool :=
  match value with VALUE_BOOLEAN b => negb b | _ => false end.

Definition function_not (operands : list cras_expr_value) : outcome cras_expr_value :=
  if negb (length operands =? 2) then Done (cras_expr_value_free VALUE_NONE)
  else
    value ← access (operands !! 1);
    Done (value_set_boolean (if is_false value then 1 else 0)).

Fixpoint and_loop (operands : list cras_expr_value) (i : nat) : option cras_expr_value :=
  match operands with
  | [] => None
  | value :: operands =>
      if i =? 0 then and_loop operands (i + 1)
      else if is_false value then Some (value_set_boolean 0)
      else and_loop operands (i + 1)
  end.

Definition function_and (operands : list cras_expr_value) : outcome cras_expr_value :=
  let n := length operands in
  if n <=? 1 then Done (value_set_boolean 1)
  else
    match and_loop operands 0 with
    | Some result => Done result
    | None => value ← access (operands !! (n - 1)); Done (copy_value value)
    end.

Fixpoint or_loop (operands : list cras_expr_value) (i : nat) : option cras_expr_value :=
  match operands with
  | [] => None
  | value :: operands =>
      if i =? 0 then or_loop operands (i + 1)
      else if negb (is_false value) then Some (copy_value value)
      else or_loop operands (i + 1)
  end.

Definition function_or (operands : list cras_expr_value) : outcome cras_expr_value :=
  Done (match or_loop operands 0 with
        | Some result => result
        | None => value_set_boolean 0
        end).

(** The comparison of an operand with the previous one. *)
Definition value_equal (prev value : cras_expr_value) : bool :=
  match prev, value with
  | VALUE_NONE, VALUE_NONE => true
  | VALUE_BOOLEAN b1, VALUE_BOOLEAN b2 => Bool.eqb b1 b2
  | VALUE_INT n1, VALUE_INT n2 => (n1 =? n2)%Z
  | VALUE_STRING s1, VALUE_STRING s2 => String.eqb s1 s2
  | VALUE_FUNCTION f1, VALUE_FUNCTION f2 => bool_decide (f1 = f2)
  | _, _ => false
  end.

Fixpoint equal_loop (operands : list cras_expr_value) (todo i : nat) : outcome Z :=
  match todo with
  | 0 => Done 1%Z
  | S todo =>
      if i <=? 1 then equal_loop operands todo (i + 1)
      else
        value ← access (operands !! i);
        prev ← access (operands !! (i - 1));
        if value_equal prev value then equal_loop operands todo (i + 1) else Done 0%Z
  end.

Definition function_equal_real (operands : list cras_expr_value) : outcome Z :=
  equal_loop operands (length operands) 0.

Definition function_equal (operands : list cras_expr_value) : outcome cras_expr_value :=
  r ← function_equal_real operands; Done (value_set_boolean r).

(** Calling a function pointer. *)
Definition call_function (f : cras_expr_function_type) (operands : list cras_expr_value)
    : outcome cras_expr_value :=
  match f with
  | FunctionNot => function_not operands
  | FunctionAnd => function_and operands
  | FunctionOr => function_or operands
  | FunctionEqual => function_equal operands
  end.

(** ** Expressions *)

Inductive cras_expr_expression : Type :=
| EXPR_NONE
| EXPR_LITERAL (literal : cras_expr_value)
| EXPR_VARIABLE (variable : string)
| EXPR_COMPOUND (children : list cras_expr_expression).

Definition new_boolean_literal (boolean : Z) : cras_expr_expression :=
  EXPR_LITERAL (value_set_boolean boolean).
Definition new_integer_literal (integer : Z) : cras_expr_expression :=
  EXPR_LITERAL (value_set_integer integer).
Definition new_string_literal (begin : string) (n : nat) : cras_expr_expression :=
  EXPR_LITERAL (value_set_string2 begin n).
Definition new_variable (begin : string) (n : nat) : cras_expr_expression :=
  EXPR_VARIABLE (copy_str begin n).
Definition new_compound_expression : cras_expr_expression := EXPR_COMPOUND [].

(** [expr] is a compound expression: the union holds the children. *)
Definition add_sub_expression (expr sub : cras_expr_expression) : cras_expr_expression :=
  match expr with
  | EXPR_COMPOUND children => EXPR_COMPOUND (children ++ [sub])
  | _ => expr
  end.

(** ** The parser *)

Definition is_identifier_char (c : ascii) : bool :=
  if isspace c then false
  else if Ascii.eqb c nul_char then false
  else if isalpha c then true
  else Ascii.eqb c "_" || Ascii.eqb c "-" || Ascii.eqb c "?".

(** The test for an integer literal: (-)[0-9]+ *)
Definition starts_integer (s : string) : bool :=
  isdigit (shead s) || (Ascii.eqb (shead s) "-" && isdigit (shead (sdrop 1 s))).

Section Parse.
Variable w : Z.   (* the width of long *)

(** The part of the parser that does not recurse: [None] when the character
    opens a compound expression. *)
Definition parse_atom (s : string) : option (option cras_expr_expression * string) :=
  match s with
  | EmptyString => Some (None, s)
  | String c0 s1 =>
      if Ascii.eqb c0 "#" then
        let c := shead s1 in
        if Ascii.eqb c "t" || Ascii.eqb c "f"
        then Some (Some (new_boolean_literal (if Ascii.eqb c "t" then 1 else 0)), sdrop 1 s1)
        else Some (None, s1)
      else if starts_integer s then
        let (n, rest) := strtol w 10 s in
        Some (Some (new_integer_literal (s32 n)), rest)
      else if Ascii.eqb c0 dquote then
        let '(a, rest) := span (fun c => negb (Ascii.eqb dquote c)) s1 in
        match rest with
        | EmptyString => Some (Some (new_string_literal s1 0), s1)
        | _ => Some (Some (new_string_literal s1 (String.length a)), sdrop 1 rest)
        end
      else if Ascii.eqb c0 "(" then None
      else if is_identifier_char c0 then
        let '(a, rest) := span is_identifier_char s in
        Some (Some (new_variable s (String.length a)), rest)
      else Some (None, s)
  end.

(** The expression or NULL, and the new [str]. *)
Fixpoint parse_one_expr (fuel : nat) (s : string)
    : outcome (option cras_expr_expression * string) :=
  match fuel with
  | 0 => Timeout
  | S fuel =>
      let s := lskip s in
      match parse_atom s with
      | Some r => Done r
      | None =>
          '(expr, s) ← parse_children fuel (sdrop 1 s) new_compound_expression;
          if Ascii.eqb (shead s) ")" then Done (Some expr, sdrop 1 s)
          else Done (None, s)
      end
  end
with parse_children (fuel : nat) (s : string) (expr : cras_expr_expression)
    : outcome (cras_expr_expression * string) :=
  match fuel with
  | 0 => Timeout
  | S fuel =>
      '(next, s) ← parse_one_expr fuel s;
      match next with
      | None => Done (expr, s)
      | Some next => parse_children fuel s (add_sub_expression expr next)
      end
  end.

(** Twice the length of the text and two is enough fuel. *)
Definition parse_fuel (s : string) : nat := 2 * String.length s + 2.

Definition cras_expr_expression_parse (str : option string)
    : outcome (option cras_expr_expression) :=
  match str with
  | None => Done None
  | Some s => '(e, _) ← parse_one_expr (parse_fuel s) s; Done e
  end.
End Parse.

(** ** The evaluator *)

Definition eval_variable (env : cras_expr_env) (variable : string) : outcome cras_expr_value :=
  match find_value env variable with
  | None => Done VALUE_NONE
  | Some i => v ← access (e_values env !! i); Done (copy_value v)
  end.

(** The call once the children are evaluated. *)
Definition eval_call (values : list cras_expr_value) : outcome cras_expr_value :=
  match values with
  | VALUE_FUNCTION f :: _ => call_function f values
  | _ => Done VALUE_NONE
  end.

(** The value left in [result]. *)
Fixpoint cras_expr_expression_eval (expr : cras_expr_expression) (env : cras_expr_env)
    : outcome cras_expr_value :=
  match expr with
  | EXPR_NONE => Done VALUE_NONE
  | EXPR_LITERAL literal => Done (copy_value literal)
  | EXPR_VARIABLE variable => eval_variable env variable
  | EXPR_COMPOUND children =>
      values ← (fix eval_all l :=
                  match l with
                  | [] => Done []
                  | sub :: l =>
                      v ← cras_expr_expression_eval sub env;
                      vs ← eval_all l; Done (v :: vs)
                  end) children;
      eval_call values
  end.

(** The return code and what is stored through the pointer, if anything. *)
Definition cras_expr_expression_eval_int (expr : cras_expr_expression) (env : cras_expr_env)
    : outcome (Z * option Z) :=
  value ← cras_expr_expression_eval expr env;
  match value with
  | VALUE_INT n => Done (0%Z, Some n)
  | _ => Done ((-1)%Z, None)
  end.

Definition cras_expr_expression_eval_boolean (expr : cras_expr_expression)
    (env : cras_expr_env) : outcome (Z * option bool) :=
  value ← cras_expr_expression_eval expr env;
  match value with
  | VALUE_BOOLEAN b => Done (0%Z, Some b)
  | _ => Done ((-1)%Z, None)
  end.
