(* ===== verification/ExprParse.v ===== *)
(** * ExprParse: the expression parser ends, and reads back what is printed

    Termination of parse_one_expr with a bound on its recursion, and the
    round trip through the printed form of an expression. *)

From S2P Require Import Prelude CString Expr.

#[local] Arguments sdrop : simpl nomatch.

(** ** Suffixes: what the parser leaves of its input *)

Definition suffix_of (rest s : string) : Prop := exists pre, s = pre +:+ rest.

Lemma suffix_refl s : suffix_of s s.
Proof. by exists EmptyString. Qed.

Lemma suffix_cons c s : suffix_of s (String c s).
Proof. by exists (String c EmptyString). Qed.

Lemma suffix_trans s1 s2 s3 : suffix_of s1 s2 -> suffix_of s2 s3 -> suffix_of s1 s3.
Proof. intros [p ->] [q ->]. exists (q +:+ p). by rewrite sapp_assoc. Qed.

Lemma suffix_length rest s : suffix_of rest s -> String.length rest <= String.length s.
Proof. intros [p ->]. rewrite slength_app. lia. Qed.

Lemma suffix_sdrop n s : suffix_of (sdrop n s) s.
Proof.
  revert s. induction n as [|n IH]; intros [|c s]; cbn; try apply suffix_refl.
  eapply suffix_trans; [apply IH | apply suffix_cons].
Qed.

Lemma suffix_lskip s : suffix_of (lskip s) s.
Proof.
  induction s as [|c s IH]; cbn; [apply suffix_refl|].
  destruct (isspace c); [|apply suffix_refl].
  eapply suffix_trans; [apply IH | apply suffix_cons].
Qed.

Lemma span_split p s a rest : span p s = (a, rest) -> s = a +:+ rest.
Proof.
  revert a rest. induction s as [|c s IH]; intros a rest; cbn; [by intros [= <- <-]|].
  destruct (p c); [|by intros [= <- <-]].
  destruct (span p s) as [b r] eqn:E. intros [= <- <-]. cbn. f_equal. by apply IH.
Qed.

Lemma suffix_span p s a rest : span p s = (a, rest) -> suffix_of rest s.
Proof. intros H. exists a. by apply span_split in H. Qed.

Lemma suffix_digits b acc s : suffix_of (digits b acc s).2 s.
Proof.
  revert acc. induction s as [|c s IH]; intros acc; cbn; [apply suffix_refl|].
  destruct (digit_value c) as [v|]; [|apply suffix_refl].
  destruct (v <? b)%Z; [|apply suffix_refl].
  eapply suffix_trans; [apply IH | apply suffix_cons].
Qed.

#[export] Hint Resolve suffix_refl suffix_cons suffix_sdrop suffix_lskip suffix_digits
  suffix_trans : dragon.

Lemma isdigit_value c :
  isdigit c = true -> digit_value c = Some (char_code c - 48)%Z /\ (char_code c - 48 <? 10)%Z = true.
Proof.
  intros H. unfold digit_value. rewrite H. split; [done|].
  unfold isdigit, in_range in H. apply andb_true_iff in H as [H1 H2].
  apply Z.leb_le in H1, H2. apply Z.ltb_lt. lia.
Qed.

Lemma isdigit_not_space c : isdigit c = true -> isspace c = false.
Proof.
  unfold isdigit, isspace, in_range. intros [H1 H2]%andb_true_iff.
  apply Z.leb_le in H1, H2. apply orb_false_iff. split.
  - apply andb_false_iff. right. apply Z.leb_gt. lia.
  - apply Z.eqb_neq. lia.
Qed.

(** The first character of a number, and what strtol does on it. *)
Lemma isdigit_not_sign c s : isdigit c = true -> sign_of (String c s) = (false, String c s).
Proof.
  intros H. unfold sign_of.
  destruct (Ascii.eqb_spec c "-") as [->|_]; [discriminate H|].
  by destruct (Ascii.eqb_spec c "+") as [->|_]; [discriminate H|].
Qed.

(** digits reads at least the first digit. *)
Lemma digits_shorter c s :
  isdigit c = true -> suffix_of (digits 10 0 (String c s)).2 s.
Proof.
  intros H. cbn [digits]. destruct (isdigit_value c H) as [-> ->]. apply suffix_digits.
Qed.

Lemma digits_progress c s :
  isdigit c = true ->
  (String.length (digits 10 0 (String c s)).2 =? String.length (String c s)) = false.
Proof.
  intros H. apply Nat.eqb_neq. pose proof (suffix_length _ _ (digits_shorter c s H)).
  cbn [String.length]. lia.
Qed.

Lemma strtol_digit w c s :
  isdigit c = true ->
  strtol w 10 (String c s) = (clamp w (digits 10 0 (String c s)).1, (digits 10 0 (String c s)).2).
Proof.
  intros H. unfold strtol. rewrite lskip_id by (by apply isdigit_not_space).
  rewrite isdigit_not_sign by done. pose proof (digits_progress c s H) as Hp.
  change (10 =? 0)%Z with false. cbn beta iota zeta.
  destruct (digits 10 0 (String c s)) as [v rest]. cbn [snd] in Hp. by rewrite Hp.
Qed.

Lemma strtol_minus w c s :
  isdigit c = true ->
  strtol w 10 (String "-" (String c s)) =
  (clamp w (- (digits 10 0 (String c s)).1)%Z, (digits 10 0 (String c s)).2).
Proof.
  intros H. unfold strtol. rewrite lskip_id by done.
  change (sign_of (String "-" (String c s))) with (true, String c s).
  pose proof (digits_progress c s H) as Hp.
  change (10 =? 0)%Z with false. cbn beta iota zeta.
  destruct (digits 10 0 (String c s)) as [v rest]. cbn [snd] in Hp. by rewrite Hp.
Qed.

(** What is left after a number is a shorter suffix. *)
Lemma strtol_rest w s n rest :
  starts_integer s = true -> strtol w 10 s = (n, rest) ->
  suffix_of rest s /\ String.length rest < String.length s.
Proof.
  unfold starts_integer. intros [H|[H1 H2]%andb_true_iff]%orb_true_iff E.
  - destruct s as [|c s]; [done|]. rewrite strtol_digit in E by done.
    remember (digits 10 0 (String c s)) as r eqn:Er. injection E as _ <-. subst r.
    pose proof (digits_shorter c s H) as Hs. split; [eauto with dragon|].
    apply suffix_length in Hs. simpl String.length at 2. lia.
  - destruct s as [|c [|c' s]]; [done | done |]. cbn in H1. apply Ascii.eqb_eq in H1 as ->.
    rewrite strtol_minus in E by done.
    remember (digits 10 0 (String c' s)) as r eqn:Er. injection E as _ <-. subst r.
    pose proof (digits_shorter c' s H2) as Hs. split; [eauto with dragon|].
    apply suffix_length in Hs. simpl String.length at 2. lia.
Qed.

(** ** The parser ends *)

Lemma some_pair_inj {A B} (a e : A) (b r : B) : Some (a, b) = Some (e, r) -> a = e /\ b = r.
Proof. by intros [= -> ->]. Qed.

Lemma parse_atom_rest w s e rest :
  parse_atom w s = Some (e, rest) ->
  suffix_of rest s /\ (e <> None -> String.length rest < String.length s).
Proof.
  destruct s as [|c s1]; cbn [parse_atom]; [intros [<- <-]%some_pair_inj; split; [apply suffix_refl | done]|].
  destruct (Ascii.eqb c "#").
  { cbn zeta. destruct (Ascii.eqb (shead s1) "t" || _) eqn:Eb; intros [<- <-]%some_pair_inj.
    - split; [eauto with dragon|]. intros _.
      pose proof (suffix_length _ _ (suffix_sdrop 1 s1)). cbn [String.length]. lia.
    - split; [eauto with dragon | done]. }
  destruct (starts_integer (String c s1)) eqn:Ei.
  { destruct (strtol w 10 (String c s1)) as [n r] eqn:Es. intros [<- <-]%some_pair_inj.
    destruct (strtol_rest _ _ _ _ Ei Es). auto. }
  destruct (Ascii.eqb c dquote).
  { destruct (span _ s1) as [a r] eqn:Es. pose proof (suffix_span _ _ _ _ Es) as Hr.
    pose proof (suffix_length _ _ Hr). pose proof (suffix_length _ _ (suffix_sdrop 1 r)).
    destruct r as [|c' r]; intros [<- <-]%some_pair_inj; (split; [|cbn [String.length] in *; lia]);
      eauto with dragon. }
  destruct (Ascii.eqb c "("); [done|].
  destruct (is_identifier_char c) eqn:Ec; [|intros [<- <-]%some_pair_inj; split; [apply suffix_refl | done]].
  cbn [span]. rewrite Ec. destruct (span _ s1) as [a r] eqn:Es. intros [<- <-]%some_pair_inj.
  pose proof (suffix_span _ _ _ _ Es) as Hr. split; [eauto with dragon|]. intros _.
  apply suffix_length in Hr. cbn [String.length]. lia.
Qed.

(** What opens a compound expression. *)
Lemma parse_atom_None w s : parse_atom w s = None -> exists s1, s = String "(" s1.
Proof.
  destruct s as [|c s1]; cbn [parse_atom]; [done|].
  destruct (Ascii.eqb c "#"); [by destruct (_ || _)|].
  destruct (starts_integer _); [by destruct (strtol _ _ _)|].
  destruct (Ascii.eqb c dquote); [destruct (span _ s1) as [a [|]]; done|].
  destruct (Ascii.eqb_spec c "(") as [->|_]; [by exists s1|].
  destruct (is_identifier_char c); [by destruct (span _ _) | done].
Qed.

Lemma sdrop_1 c s : sdrop 1 (String c s) = s.
Proof. by destruct s. Qed.

Section Fuel.
Variable w : Z.

(** A text of length n is parsed within 2n+1 nested calls. *)
Lemma parse_enough fuel :
  (forall s, 2 * String.length s + 1 <= fuel ->
     exists e rest, parse_one_expr w fuel s = Done (e, rest) /\ suffix_of rest s /\
       (e <> None -> String.length rest < String.length s)) /\
  (forall s expr, 2 * String.length s + 2 <= fuel ->
     exists expr' rest, parse_children w fuel s expr = Done (expr', rest) /\ suffix_of rest s).
Proof.
  induction fuel as [|fuel [IHe IHc]]; [split; intros; lia|]. split.
  - intros s Hf. cbn [parse_one_expr]. pose proof (suffix_lskip s) as Hsk.
    pose proof (suffix_length _ _ Hsk) as Hl.
    destruct (parse_atom w (lskip s)) as [[e rest]|] eqn:Ea.
    + apply parse_atom_rest in Ea as [Hr Hlt]. exists e, rest.
      split; [done|]. split; [eauto with dragon|]. intros He. specialize (Hlt He). lia.
    + apply parse_atom_None in Ea as [s1 E1]. rewrite E1 in *. rewrite sdrop_1. cbn [String.length] in *.
      destruct (IHc s1 new_compound_expression) as (e & rest & -> & Hr); [lia|]. cbn.
      pose proof (suffix_length _ _ Hr). pose proof (suffix_length _ _ (suffix_sdrop 1 rest)).
      destruct (Ascii.eqb _ _); eexists _, _; split_and!; eauto with dragon; intros; try done; lia.
  - intros s expr Hf. cbn [parse_children].
    destruct (IHe s) as (e & rest & -> & Hr & Hlt); [lia|]. cbn.
    destruct e as [e|]; [|eauto]. specialize (Hlt ltac:(done)).
    destruct (IHc rest (add_sub_expression expr e)) as (e' & r' & -> & Hr'); [lia|].
    eauto with dragon.
Qed.

(** More fuel does not change a result. *)
Lemma parse_more fuel :
  (forall s r, parse_one_expr w fuel s = Done r -> parse_one_expr w (S fuel) s = Done r) /\
  (forall s expr r, parse_children w fuel s expr = Done r ->
     parse_children w (S fuel) s expr = Done r).
Proof.
  induction fuel as [|fuel [IHe IHc]]; [split; discriminate|]. split.
  - intros s r H. change (parse_one_expr w (S fuel) s = Done r) in H.
    cbn [parse_one_expr] in H. set (f := S fuel) in *. cbn [parse_one_expr].
    destruct (parse_atom w (lskip s)); [done|].
    apply bind_Done in H as ([e s'] & E & H). by rewrite (IHc _ _ _ E).
  - intros s expr r H. cbn [parse_children] in H. set (f := S fuel) in *. cbn [parse_children].
    apply bind_Done in H as ([e s'] & E & H). rewrite (IHe _ _ E). cbn.
    destruct e; [by apply IHc | done].
Qed.

Lemma parse_mono fuel fuel' s r :
  fuel <= fuel' -> parse_one_expr w fuel s = Done r -> parse_one_expr w fuel' s = Done r.
Proof.
  intros Hle H. induction Hle as [|fuel' _ IH]; [done|]. by apply parse_more.
Qed.

Lemma parse_children_mono fuel fuel' s e r :
  fuel <= fuel' -> parse_children w fuel s e = Done r -> parse_children w fuel' s e = Done r.
Proof.
  intros Hle H. induction Hle as [|fuel' _ IH]; [done|]. by apply parse_more.
Qed.

Lemma parse_result fuel s e rest :
  parse_one_expr w fuel s = Done (e, rest) -> cras_expr_expression_parse w (Some s) = Done e.
Proof.
  intros H. unfold cras_expr_expression_parse.
  destruct (proj1 (parse_enough (parse_fuel s)) s) as (e' & rest' & E & _ & _).
  { unfold parse_fuel. lia. }
  rewrite E. cbn. apply (parse_mono _ (fuel + parse_fuel s)) in H; [|lia].
  apply (parse_mono _ (fuel + parse_fuel s)) in E; [|lia]. congruence.
Qed.

(** The parser terminates on every text and never reads past its end:
    parse_one_expr returns after at most 2n+1 nested calls on a text of n
    characters, the pointer it leaves points into the text (to a suffix of
    it), a non-NULL result has consumed at least a character - so the loop
    over the children of a compound expression ends - and
    cras_expr_expression_parse returns. *)
Theorem parse_terminates (s : string) :
  (exists e rest,
     (forall fuel, 2 * String.length s + 1 <= fuel ->
        parse_one_expr w fuel s = Done (e, rest)) /\
     suffix_of rest s /\ (e <> None -> String.length rest < String.length s)) /\
  exists e, cras_expr_expression_parse w (Some s) = Done e.
Proof.
  destruct (proj1 (parse_enough (2 * String.length s + 1)) s) as (e & rest & E & Hr & Hlt); [lia|].
  split.
  - exists e, rest. split; [|done]. intros fuel Hf. by eapply parse_mono.
  - exists e. by eapply parse_result.
Qed.
End Fuel.
