(* ===== verification/ExprPrint.v ===== *)
(** * ExprPrint: expressions printed and parsed back *)

From S2P Require Import Prelude CString Expr ExprParse.

#[local] Arguments sdrop : simpl nomatch.

(** ** Decimal numbers *)

Lemma digit_char_spec d :
  (0 <= d < 10)%Z -> isdigit (digit_char d) = true /\ (char_code (digit_char d) - 48 = d)%Z.
Proof.
  intros H. assert (char_code (digit_char d) = 48 + d)%Z as E.
  { unfold char_code, digit_char. rewrite Ascii.nat_ascii_embedding by lia. lia. }
  split; [|lia]. unfold isdigit, in_range. rewrite E.
  apply andb_true_iff. split; apply Z.leb_le; lia.
Qed.

Lemma digits_digit_char v d s :
  (0 <= d < 10)%Z -> digits 10 v (String (digit_char d) s) = digits 10 (v * 10 + d) s.
Proof.
  intros H. destruct (digit_char_spec d H) as [Hd E]. cbn [digits].
  destruct (isdigit_value _ Hd) as [-> ->]. by rewrite E.
Qed.

Lemma digits_decimal fuel n acc :
  (0 <= n < 10 ^ Z.of_nat fuel)%Z -> 0 < fuel ->
  digits 10 0 (decimal fuel n acc) = digits 10 n acc.
Proof.
  revert n acc. induction fuel as [|fuel IH]; intros n acc Hn Hf; [lia|]. cbn [decimal].
  pose proof (Z.mod_pos_bound n 10) as Hm. destruct (n <? 10)%Z eqn:E.
  - apply Z.ltb_lt in E. rewrite Z.mod_small by lia. rewrite digits_digit_char by lia.
    f_equal; lia.
  - apply Z.ltb_ge in E. rewrite Nat2Z.inj_succ, Z.pow_succ_r in Hn by lia.
    assert (0 < fuel) by (destruct fuel; [cbn in Hn; lia | lia]).
    rewrite IH; [|split; [apply Z.div_pos; lia | apply Z.div_lt_upper_bound; lia] | done].
    rewrite digits_digit_char by lia. f_equal. pose proof (Z.div_mod n 10). lia.
Qed.

Lemma decimal_head fuel n acc :
  (0 <= n)%Z -> 0 < fuel ->
  exists d s, decimal fuel n acc = String (digit_char d) s /\ (0 <= d < 10)%Z.
Proof.
  revert n acc. induction fuel as [|fuel IH]; intros n acc Hn Hf; [lia|]. cbn [decimal].
  pose proof (Z.mod_pos_bound n 10). destruct (n <? 10)%Z.
  - eexists _, _. split; [done | lia].
  - destruct fuel as [|fuel]; [eexists _, _; split; [done | lia]|].
    apply IH; [apply Z.div_pos; lia | lia].
Qed.

Lemma decimal_app fuel n acc s : decimal fuel n acc +:+ s = decimal fuel n (acc +:+ s).
Proof.
  revert n acc. induction fuel as [|fuel IH]; intros n acc; cbn [decimal]; [done|].
  destruct (n <? 10)%Z; [done | apply IH].
Qed.

(** ** Printing *)

Fixpoint print_expr (e : cras_expr_expression) : string :=
  match e with
  | EXPR_NONE => EmptyString
  | EXPR_LITERAL (VALUE_BOOLEAN b) => if b then "#t" else "#f"
  | EXPR_LITERAL (VALUE_INT n) => print_int n
  | EXPR_LITERAL (VALUE_STRING s) => String dquote (s +:+ String dquote EmptyString)
  | EXPR_LITERAL _ => EmptyString
  | EXPR_VARIABLE v => v
  | EXPR_COMPOUND l =>
      "(" +:+ (fix print_all l :=
                 match l with
                 | [] => ")"
                 | e :: l => print_expr e +:+ " " +:+ print_all l
                 end) l
  end.

Fixpoint print_children (l : list cras_expr_expression) : string :=
  match l with
  | [] => ")"
  | e :: l => print_expr e +:+ " " +:+ print_children l
  end.

(** What the grammar can express: int literals, strings without a double
    quote, names made of identifier characters. *)
Fixpoint parsable (e : cras_expr_expression) : bool :=
  match e with
  | EXPR_LITERAL (VALUE_BOOLEAN _) => true
  | EXPR_LITERAL (VALUE_INT n) => ((- 2 ^ 31 <=? n) && (n <? 2 ^ 31))%Z
  | EXPR_LITERAL (VALUE_STRING s) => negb (has_char dquote s)
  | EXPR_VARIABLE v => negb (String.eqb v EmptyString) && sall is_identifier_char v
  | EXPR_COMPOUND l => forallb parsable l
  | _ => false
  end.

(** What may follow a printed expression: neither a digit nor an identifier
    character. *)
Definition delimiter (s : string) : bool :=
  negb (isdigit (shead s)) && negb (is_identifier_char (shead s)).

Lemma print_compound l : print_expr (EXPR_COMPOUND l) = "(" +:+ print_children l.
Proof. cbn. do 2 f_equal. Qed.

Section ExprInd.
Variable P : cras_expr_expression -> Prop.
Hypothesis P_none : P EXPR_NONE.
Hypothesis P_literal : forall v, P (EXPR_LITERAL v).
Hypothesis P_variable : forall v, P (EXPR_VARIABLE v).
Hypothesis P_compound : forall l, Forall P l -> P (EXPR_COMPOUND l).

(** Induction on expressions with a hypothesis for each child. *)
Fixpoint expr_ind' (e : cras_expr_expression) : P e :=
  match e with
  | EXPR_NONE => P_none
  | EXPR_LITERAL v => P_literal v
  | EXPR_VARIABLE v => P_variable v
  | EXPR_COMPOUND l =>
      P_compound l
        ((fix all l : Forall P l :=
            match l with
            | [] => Forall_nil_2 P
            | e :: l => Forall_cons_2 P e l (expr_ind' e) (all l)
            end) l)
  end.
End ExprInd.

(** ** Reading back *)

Section RoundTrip.
Variable w : Z.
Hypothesis Hw : (32 <= w)%Z.

Lemma clamp_int n : (- 2 ^ 31 <= n < 2 ^ 31)%Z -> s32 (clamp w n) = n.
Proof.
  intros H. assert (2 ^ 31 <= 2 ^ (w - 1))%Z by (apply Z.pow_le_mono_r; lia).
  unfold clamp. rewrite Z.min_r, Z.max_r by lia. apply swrap_small; lia.
Qed.

Lemma digits_stop n rest : isdigit (shead rest) = false -> digits 10 n rest = (n, rest).
Proof.
  destruct rest as [|c rest]; [done|]. cbn [shead digits]. unfold digit_value. intros ->.
  destruct (in_range 97 122 c) eqn:E1.
  - unfold in_range in E1. apply andb_true_iff in E1 as [E1 _]. apply Z.leb_le in E1.
    destruct (char_code c - 87 <? 10)%Z eqn:E; [apply Z.ltb_lt in E; lia | done].
  - destruct (isupper c) eqn:E2; [|done].
    unfold isupper, in_range in E2. apply andb_true_iff in E2 as [E2 _]. apply Z.leb_le in E2.
    destruct (char_code c - 55 <? 10)%Z eqn:E; [apply Z.ltb_lt in E; lia | done].
Qed.

Lemma digit_not_hash c : isdigit c = true -> Ascii.eqb c "#" = false.
Proof. intros H. destruct (Ascii.eqb_spec c "#") as [->|]; [discriminate H | done]. Qed.

Lemma parse_int n rest :
  (- 2 ^ 31 <= n < 2 ^ 31)%Z -> isdigit (shead rest) = false ->
  parse_atom w (print_int n +:+ rest) = Some (Some (EXPR_LITERAL (VALUE_INT n)), rest).
Proof.
  intros Hn Hr. unfold print_int. rewrite sapp_assoc, decimal_app. cbn [String.append].
  destruct (decimal_head 10 (Z.abs n) rest) as (d & s & E & Hd); [lia | lia|].
  pose proof (digits_decimal 10 (Z.abs n) rest ltac:(lia) ltac:(lia)) as HD.
  rewrite E in HD |- *. rewrite (digits_stop _ rest Hr) in HD.
  destruct (digit_char_spec d Hd) as [Hdig _]. destruct (n <? 0)%Z eqn:En.
  - apply Z.ltb_lt in En. cbn [String.append parse_atom].
    change (Ascii.eqb "-" "#") with false. cbn iota.
    assert (starts_integer (String "-" (String (digit_char d) s)) = true) as -> by exact Hdig.
    rewrite strtol_minus, HD by done. cbn [fst snd].
    replace (- Z.abs n)%Z with n by lia. rewrite clamp_int by done. done.
  - apply Z.ltb_ge in En. cbn [String.append parse_atom]. rewrite digit_not_hash by done.
    assert (starts_integer (String (digit_char d) s) = true) as ->.
    { unfold starts_integer. cbn [shead]. by rewrite Hdig. }
    rewrite strtol_digit, HD by done. cbn [fst snd].
    replace (Z.abs n) with n by lia. rewrite clamp_int by done. done.
Qed.

Lemma parse_string s rest :
  has_char dquote s = false ->
  parse_atom w (String dquote (s +:+ String dquote rest)) =
  Some (Some (EXPR_LITERAL (VALUE_STRING s)), rest).
Proof.
  intros Hs. cbn [parse_atom]. change (Ascii.eqb dquote "#") with false. cbn iota.
  change (starts_integer (String dquote (s +:+ String dquote rest))) with false.
  change (Ascii.eqb dquote dquote) with true. cbn iota.
  rewrite span_app; [|by apply has_char_sall | by right].
  unfold new_string_literal, value_set_string2, copy_str. rewrite sdrop_1. do 3 f_equal.
  do 2 f_equal. clear. induction s as [|c s IH]; cbn; [done | by rewrite IH].
Qed.

Lemma identifier_char_facts c :
  is_identifier_char c = true ->
  Ascii.eqb c "#" = false /\ isdigit c = false /\ Ascii.eqb c dquote = false /\
  Ascii.eqb c "(" = false /\ isspace c = false.
Proof.
  destruct c as [[] [] [] [] [] [] [] []]; vm_compute; intros; try done; by split_and!.
Qed.

Lemma stake_app s1 s2 : stake (String.length s1) (s1 +:+ s2) = s1.
Proof. induction s1 as [|c s IH]; cbn; [by destruct s2 | by rewrite IH]. Qed.

Lemma parse_variable v rest :
  v <> EmptyString -> sall is_identifier_char v = true -> delimiter rest = true ->
  parse_atom w (v +:+ rest) = Some (Some (EXPR_VARIABLE v), rest).
Proof.
  intros Hne Hv [Hd Hr]%andb_true_iff. apply negb_true_iff in Hd, Hr.
  pose proof (span_app is_identifier_char v rest Hv (or_intror Hr)) as Hsp.
  pose proof (stake_app v rest) as Hst.
  destruct v as [|c v]; [done|]. cbn [sall] in Hv. apply andb_true_iff in Hv as [Hc Hv].
  destruct (identifier_char_facts c Hc) as (H1 & H2 & H3 & H4 & _).
  cbn [String.append] in *. cbn [parse_atom]. rewrite H1.
  assert (starts_integer (String c (v +:+ rest)) = false) as ->.
  { unfold starts_integer. cbn [shead]. rewrite H2, sdrop_1. cbn.
    apply andb_false_iff. right. destruct v as [|c' v]; [done|].
    apply andb_true_iff in Hv as [Hc' _]. apply (identifier_char_facts c' Hc'). }
  rewrite H3, H4, Hc, Hsp. unfold new_variable, copy_str. by rewrite Hst.
Qed.

Lemma parse_children_skip fuel s e :
  parse_children w fuel (" " +:+ s) e = parse_children w fuel s e.
Proof. by destruct fuel as [|[|fuel]]. Qed.

(** The text of an expression is read back, whatever delimiter follows. *)
Definition reads_back (e : cras_expr_expression) : Prop :=
  parsable e = true -> forall rest, delimiter rest = true ->
  exists fuel, parse_one_expr w fuel (print_expr e +:+ rest) = Done (Some e, rest).

Lemma reads_back_atom e :
  (parsable e = true -> forall rest, delimiter rest = true ->
   parse_atom w (print_expr e +:+ rest) = Some (Some e, rest) /\
   isspace (shead (print_expr e +:+ rest)) = false) ->
  reads_back e.
Proof.
  intros H Hp rest Hr. destruct (H Hp rest Hr) as [E Hs]. exists 1. cbn [parse_one_expr].
  by rewrite lskip_id, E.
Qed.

Lemma print_int_not_space n rest : isspace (shead (print_int n +:+ rest)) = false.
Proof.
  unfold print_int. rewrite sapp_assoc, decimal_app. destruct (n <? 0)%Z; [done|].
  destruct (decimal_head 10 (Z.abs n) rest) as (d & s & E & Hd); [lia | lia|].
  cbn [String.append]. rewrite E. by apply isdigit_not_space, digit_char_spec.
Qed.

Lemma reads_back_literal v : reads_back (EXPR_LITERAL v).
Proof.
  apply reads_back_atom. intros Hp rest Hr. destruct v as [| [] | n | s |]; try done.
  - cbn [parsable print_expr] in *. apply andb_true_iff in Hp as [H1 H2].
    apply andb_true_iff in Hr as [Hd _]. apply negb_true_iff in Hd.
    split; [apply parse_int; [lia | done] | apply print_int_not_space].
  - cbn [parsable print_expr String.append] in *. rewrite sapp_assoc. cbn [String.append].
    split; [apply parse_string; by apply negb_true_iff | done].
Qed.

Lemma reads_back_variable v : reads_back (EXPR_VARIABLE v).
Proof.
  apply reads_back_atom. intros [Hne Hv]%andb_true_iff rest Hr. cbn [print_expr].
  assert (v <> EmptyString) as Hne'.
  { intros ->. done. }
  split; [by apply parse_variable|]. destruct v as [|c v]; [done|].
  cbn in Hv |- *. apply andb_true_iff in Hv as [Hc _]. by apply identifier_char_facts.
Qed.

Lemma reads_back_children l done_ rest :
  Forall reads_back l -> forallb parsable l = true ->
  exists fuel, parse_children w fuel (print_children l +:+ rest) (EXPR_COMPOUND done_) =
    Done (EXPR_COMPOUND (done_ ++ l), ")" +:+ rest).
Proof.
  intros Hl. revert done_. induction Hl as [|e l He Hl IH]; intros done_ Hp.
  - exists 2. rewrite app_nil_r. done.
  - cbn [forallb] in Hp. apply andb_true_iff in Hp as [Hpe Hpl].
    cbn [print_children]. rewrite !sapp_assoc.
    destruct (He Hpe (" " +:+ (print_children l +:+ rest)) eq_refl) as [f1 E1].
    destruct (IH (done_ ++ [e]) Hpl) as [f2 E2]. exists (S (f1 + (f2 + 1))). cbn [parse_children].
    rewrite (parse_mono w _ _ _ _ (Nat.le_add_r f1 _) E1).
    cbn [mbind outcome_bind add_sub_expression].
    rewrite <- app_assoc in E2. cbn [app] in E2.
    rewrite parse_children_skip. eapply parse_children_mono; [|exact E2]. lia.
Qed.
Lemma print_reads_back e : reads_back e.
Proof.
  induction e as [| v | v | l Hl] using expr_ind'; try done.
  - apply reads_back_literal.
  - apply reads_back_variable.
  - intros Hp rest Hr. destruct (reads_back_children l [] rest Hl Hp) as [f E]. exists (S f).
    rewrite print_compound. cbn [String.append parse_one_expr lskip].
    change (isspace "(") with false. cbn iota.
    change (parse_atom w (String "(" (print_children l +:+ rest))) with
      (@None (option cras_expr_expression * string)).
    cbn iota. rewrite sdrop_1. unfold new_compound_expression. rewrite E. done.
Qed.

Lemma parse_print e :
  parsable e = true -> cras_expr_expression_parse w (Some (print_expr e)) = Done (Some e).
Proof.
  intros Hp. destruct (print_reads_back e Hp EmptyString eq_refl) as [f E].
  rewrite sapp_nil_r in E. by eapply parse_result.
Qed.

(** C29.  The parser reads back every printed expression: for an expression
    built from boolean, int and double-quote-free string literals, names and
    compounds - with a long of at least 32 bits - parsing its text gives the
    expression itself. *)
Theorem expr_print_parse (e : cras_expr_expression) (Hp : parsable e = true) :
  cras_expr_expression_parse w (Some (print_expr e)) = Done (Some e).
Proof. exact (parse_print e Hp). Qed.
End RoundTrip.

Definition sample_expr : cras_expr_expression :=
  EXPR_COMPOUND
    [EXPR_VARIABLE "or";
     EXPR_COMPOUND [EXPR_VARIABLE "equal?"; EXPR_VARIABLE "dsp_name";
                    EXPR_LITERAL (VALUE_STRING "eq (left)")];
     EXPR_COMPOUND [EXPR_VARIABLE "equal?"; EXPR_LITERAL (VALUE_INT (-2147483648));
                    EXPR_LITERAL (VALUE_BOOLEAN false)];
     EXPR_COMPOUND []].

Lemma expr_print_parse_witness :
  cras_expr_expression_parse 64 (Some (print_expr sample_expr)) = Done (Some sample_expr).
Proof. apply (expr_print_parse 64); [lia | vm_compute; reflexivity]. Defined.
