(* ===== verification/ExprEval.v ===== *)
(** * ExprEval: environments and the evaluator

    Environments refine finite maps; the builtin functions are those of
    Scheme; the text of a boolean formula evaluates to its truth value. *)

From S2P Require Import Prelude CString Expr ExprParse ExprPrint.

(** ** Environments as maps *)

Record env_ok (env : cras_expr_env) : Prop := {
  env_len : length (e_values env) = length (e_keys env);
  env_nodup : NoDup (e_keys env)
}.

Definition env_map (env : cras_expr_env) : gmap string cras_expr_value :=
  list_to_map (zip (e_keys env) (e_values env)).

Lemma empty_env_ok : env_ok empty_env.
Proof. split; [done | constructor]. Qed.

Lemma env_zip_fst env : env_ok env -> (zip (e_keys env) (e_values env)).*1 = e_keys env.
Proof. intros [Hl _]. apply fst_zip. lia. Qed.

Lemma find_value_Some env name i :
  env_ok env -> (find_value env name = Some i <-> e_keys env !! i = Some name).
Proof.
  intros [_ Hn]. unfold find_value. rewrite find_idx_Some. split.
  - intros ((k & Hk & E) & _). by apply String.eqb_eq in E as ->.
  - intros Hk. split; [exists name; split; [done | apply String.eqb_refl]|].
    intros j y Hj Hy. apply String.eqb_neq. intros ->.
    pose proof (NoDup_lookup _ _ _ _ Hn Hk Hy). lia.
Qed.

Lemma find_value_None env name : find_value env name = None <-> name ∉ e_keys env.
Proof.
  unfold find_value. rewrite find_idx_None. split.
  - intros H Hin. specialize (H name Hin). by rewrite String.eqb_refl in H.
  - intros H x Hx. apply String.eqb_neq. by intros ->.
Qed.

Lemma env_map_lookup env name i v :
  env_ok env -> e_keys env !! i = Some name -> e_values env !! i = Some v ->
  env_map env !! name = Some v.
Proof.
  intros Hok Hk Hv. apply elem_of_list_to_map_1.
  - rewrite env_zip_fst by done. apply Hok.
  - apply list_elem_of_lookup. exists i. by rewrite lookup_zip_with, Hk, Hv.
Qed.

Lemma env_map_None env name : env_ok env -> name ∉ e_keys env -> env_map env !! name = None.
Proof. intros Hok Hn. apply not_elem_of_list_to_map_1. by rewrite env_zip_fst. Qed.

(** What a setter does: a store at the pointer find_or_insert_value gives. *)
Definition set_at (env : cras_expr_env) (name : string) (v : cras_expr_value)
    : outcome cras_expr_env :=
  let (env, i) := find_or_insert_value env name in store_value env i v.

Lemma set_at_map env name v :
  env_ok env ->
  exists env', set_at env name v = Done env' /\ env_ok env' /\
    env_map env' = <[name := v]> (env_map env).
Proof.
  intros Hok. unfold set_at, find_or_insert_value. destruct (find_value env name) as [i|] eqn:E.
  - apply find_value_Some in E; [|done]. pose proof (lookup_lt_Some _ _ _ E) as Hi.
    pose proof (env_len env Hok) as Hl. unfold store_value. cbn beta iota.
    rewrite (proj2 (Nat.ltb_lt i _)) by lia. eexists. split; [done|].
    assert (env_ok (Env (e_keys env) (<[i:=v]> (e_values env)))) as Hok'.
    { split; cbn; [by rewrite length_insert | apply Hok]. }
    split; [done|]. apply map_eq. intros k.
    destruct (decide (k = name)) as [->|Hne].
    + rewrite lookup_insert_eq. apply (env_map_lookup _ _ i); [done | done|].
      cbn. apply list_lookup_insert_eq. lia.
    + rewrite lookup_insert_ne by done.
      destruct (find_value env k) as [j|] eqn:Ek.
      * apply find_value_Some in Ek; [|done]. pose proof (lookup_lt_Some _ _ _ Ek) as Hj.
        destruct (lookup_lt_is_Some_2 (e_values env) j) as [u Hu]; [lia|].
        rewrite (env_map_lookup env k j u) by done.
        apply (env_map_lookup _ _ j); [done | done|].
        cbn. rewrite list_lookup_insert_ne; [done | congruence].
      * apply find_value_None in Ek. rewrite !env_map_None; done.
  - apply find_value_None in E. pose proof (env_len env Hok) as Hl.
    unfold insert_value, store_value. cbn [e_values e_keys]. cbn beta iota. rewrite length_app.
    rewrite (proj2 (Nat.ltb_lt (length (e_values env)) _)) by (cbn; lia). eexists. split; [done|].
    rewrite insert_app_r_alt, Nat.sub_diag by lia. cbn. split.
    + split; cbn; [rewrite !length_app; cbn; lia|].
      apply list.NoDup_app. split; [apply Hok|]. split; [|apply list.NoDup_singleton].
      intros x Hx ->%list_elem_of_singleton. done.
    + unfold env_map. cbn. rewrite zip_with_app by lia. cbn.
      rewrite list_to_map_snoc; [done|]. by rewrite env_zip_fst.
Qed.

(** ** Evaluation in a well-formed environment *)

Lemma copy_value_id v : copy_value v = v.
Proof. by destruct v. Qed.

Lemma copy_str_all s : copy_str s (String.length s) = s.
Proof. apply stake_all. lia. Qed.

Lemma eval_variable_map env name :
  env_ok env -> eval_variable env name = Done (default VALUE_NONE (env_map env !! name)).
Proof.
  intros Hok. unfold eval_variable. destruct (find_value env name) as [i|] eqn:E.
  - apply find_value_Some in E; [|done]. pose proof (lookup_lt_Some _ _ _ E) as Hi.
    pose proof (env_len env Hok). destruct (lookup_lt_is_Some_2 (e_values env) i) as [v Hv]; [lia|].
    rewrite (env_map_lookup env name i v), Hv by done. cbn. by rewrite copy_value_id.
  - apply find_value_None in E. by rewrite env_map_None.
Qed.

Lemma equal_loop_Done operands todo i :
  i + todo = length operands -> exists r, equal_loop operands todo i = Done r.
Proof.
  revert i. induction todo as [|todo IH]; intros i Hi; cbn [equal_loop]; [eauto|].
  destruct (i <=? 1); [apply IH; lia|].
  destruct (lookup_lt_is_Some_2 operands i) as [v Hv]; [lia|].
  destruct (lookup_lt_is_Some_2 operands (i - 1)) as [p Hp]; [lia|].
  rewrite Hv, Hp. cbn. destruct (value_equal p v); [apply IH; lia | eauto].
Qed.

(** No builtin reads outside its operands. *)
Lemma call_function_Done f operands : exists v, call_function f operands = Done v.
Proof.
  destruct f; cbn.
  - unfold function_not. destruct (negb (length operands =? 2)) eqn:E; [eauto|].
    apply negb_false_iff, Nat.eqb_eq in E.
    destruct (lookup_lt_is_Some_2 operands 1) as [v Hv]; [lia|]. rewrite Hv. cbn. eauto.
  - unfold function_and. destruct (length operands <=? 1) eqn:E; [eauto|].
    apply Nat.leb_gt in E. destruct (and_loop operands 0); [eauto|].
    destruct (lookup_lt_is_Some_2 operands (length operands - 1)) as [v Hv]; [lia|].
    rewrite Hv. cbn. eauto.
  - eexists. reflexivity.
  - unfold function_equal, function_equal_real.
    destruct (equal_loop_Done operands (length operands) 0) as [r Hr]; [lia|].
    rewrite Hr. cbn. eauto.
Qed.

(** The children evaluated in order. *)
Fixpoint eval_all (l : list cras_expr_expression) (env : cras_expr_env)
    : outcome (list cras_expr_value) :=
  match l with
  | [] => Done []
  | sub :: l =>
      v ← cras_expr_expression_eval sub env; vs ← eval_all l env; Done (v :: vs)
  end.

Lemma eval_compound l env :
  cras_expr_expression_eval (EXPR_COMPOUND l) env = (values ← eval_all l env; eval_call values).
Proof.
  cbn. f_equal. induction l as [|e l IH]; cbn; [done|].
  destruct (cras_expr_expression_eval e env); cbn; [by rewrite IH | done | done].
Qed.

Lemma eval_Done env e : env_ok env -> exists v, cras_expr_expression_eval e env = Done v.
Proof.
  intros Hok. induction e as [| v | v | l Hl] using expr_ind'.
  - by eexists.
  - by eexists.
  - cbn. rewrite eval_variable_map by done. eauto.
  - rewrite eval_compound. assert (exists vs, eval_all l env = Done vs) as [vs ->].
    { induction Hl as [|e l [v Hv] Hl [vs IH]]; cbn; [eauto|]. rewrite Hv. cbn.
      rewrite IH. cbn. eauto. }
    cbn. destruct vs as [|[] vs]; cbn; try by eexists. apply call_function_Done.
Qed.

(** C30.  The environment is a map from names to values: in a well-formed
    environment (as many values as keys, no key twice; the empty one is) each
    setter stores in bounds, keeps it well formed and updates the map at the
    name only, whether the name was there or not; a boolean is normalised to
    0 or 1; evaluating a variable reads the map, [VALUE_NONE] when the name
    is missing; and evaluating any expression succeeds. *)
Theorem env_refines_map (env : cras_expr_env) (name s : string) (b n : Z)
    (Hok : env_ok env) :
  let m := env_map env in
  (exists env', cras_expr_env_set_variable_boolean env name b = Done env' /\ env_ok env' /\
     env_map env' = <[name := VALUE_BOOLEAN (negb (b =? 0)%Z)]> m) /\
  (exists env', cras_expr_env_set_variable_integer env name n = Done env' /\ env_ok env' /\
     env_map env' = <[name := VALUE_INT n]> m) /\
  (exists env', cras_expr_env_set_variable_string env name s = Done env' /\ env_ok env' /\
     env_map env' = <[name := VALUE_STRING s]> m) /\
  (exists env', cras_expr_env_install_builtins env = Done env' /\ env_ok env' /\
     env_map env' = <["equal?" := VALUE_FUNCTION FunctionEqual]>
       (<["or" := VALUE_FUNCTION FunctionOr]> (<["and" := VALUE_FUNCTION FunctionAnd]>
         (<["not" := VALUE_FUNCTION FunctionNot]> m)))) /\
  cras_expr_expression_eval (EXPR_VARIABLE name) env = Done (default VALUE_NONE (m !! name)) /\
  (forall e, exists v, cras_expr_expression_eval e env = Done v).
Proof.
  cbn zeta. split_and!.
  - by apply set_at_map.
  - by apply set_at_map.
  - destruct (set_at_map env name (value_set_string s) Hok) as (env' & E & H).
    exists env'. split; [exact E|]. unfold value_set_string, value_set_string2 in H.
    by rewrite copy_str_all in H.
  - destruct (set_at_map env "not" (VALUE_FUNCTION FunctionNot) Hok) as (e1 & E1 & H1 & M1).
    destruct (set_at_map e1 "and" (VALUE_FUNCTION FunctionAnd) H1) as (e2 & E2 & H2 & M2).
    destruct (set_at_map e2 "or" (VALUE_FUNCTION FunctionOr) H2) as (e3 & E3 & H3 & M3).
    destruct (set_at_map e3 "equal?" (VALUE_FUNCTION FunctionEqual) H3) as (e4 & E4 & H4 & M4).
    exists e4. split; [|split; [done | congruence]].
    unfold cras_expr_env_install_builtins, env_set_variable, set_at in *.
    cbn [cras_expr_value_set_function copy_value].
    rewrite E1. cbn [mbind outcome_bind]. rewrite E2. cbn [mbind outcome_bind].
    rewrite E3. exact E4.
  - by apply eval_variable_map.
  - intros e. by apply eval_Done.
Qed.

Lemma env_refines_map_witness :
  exists env', cras_expr_env_install_builtins empty_env = Done env' /\ env_ok env'.
Proof.
  destruct (env_refines_map empty_env "variant" "x" 1 0 empty_env_ok)
    as (_ & _ & _ & (env' & E & H & _) & _). by exists env'.
Defined.

(** ** The builtin functions *)

(** Scheme's not, and, or, equal? on the operands. *)
Definition scheme (f : cras_expr_function_type) (ops : list cras_expr_value)
    : cras_expr_value :=
  match f with
  | FunctionNot => match ops with [v] => VALUE_BOOLEAN (is_false v) | _ => VALUE_NONE end
  | FunctionAnd =>
      if existsb is_false ops then VALUE_BOOLEAN false
      else default (VALUE_BOOLEAN true) (list.last ops)
  | FunctionOr =>
      default (VALUE_BOOLEAN false) (List.find (fun v => negb (is_false v)) ops)
  | FunctionEqual =>
      VALUE_BOOLEAN (match ops with [] => true | x :: ops => forallb (value_equal x) ops end)
  end.

Lemma value_equal_spec a b : value_equal a b = true <-> a = b.
Proof.
  destruct a, b; cbn; try (split; [done | intros [=]; subst]); try done.
  - split; [by intros ->%eqb_prop | intros [= ->]; by destruct boolean0].
  - rewrite Z.eqb_eq. split; congruence.
  - rewrite String.eqb_eq. split; congruence.
  - rewrite bool_decide_eq_true. split; congruence.
Qed.

Lemma and_loop_spec ops i :
  0 < i ->
  and_loop ops i = if existsb is_false ops then Some (VALUE_BOOLEAN false) else None.
Proof.
  revert i. induction ops as [|v ops IH]; intros i Hi; cbn; [done|].
  rewrite (proj2 (Nat.eqb_neq i 0)) by lia. destruct (is_false v); cbn; [done | apply IH; lia].
Qed.

Lemma or_loop_spec ops i :
  0 < i -> or_loop ops i = List.find (fun v => negb (is_false v)) ops.
Proof.
  revert i. induction ops as [|v ops IH]; intros i Hi; cbn; [done|].
  rewrite (proj2 (Nat.eqb_neq i 0)) by lia. rewrite copy_value_id.
  destruct (is_false v); cbn; [apply IH; lia | done].
Qed.

Lemma equal_loop_spec pre x ops :
  1 <= length pre ->
  equal_loop (pre ++ x :: ops) (length ops) (S (length pre)) =
  Done (if forallb (value_equal x) ops then 1 else 0)%Z.
Proof.
  revert pre x. induction ops as [|y ops IH]; intros pre x Hp; cbn [length equal_loop]; [done|].
  rewrite (proj2 (Nat.leb_gt (S (length pre)) 1)) by lia.
  assert ((pre ++ x :: y :: ops) !! S (length pre) = Some y) as ->.
  { rewrite lookup_app_r by lia. by replace (S (length pre) - length pre) with 1 by lia. }
  replace (S (length pre) - 1) with (length pre) by lia.
  rewrite list_lookup_middle by done. cbn [mbind outcome_bind access forallb].
  destruct (value_equal x y) eqn:E; [|done]. apply value_equal_spec in E as ->.
  specialize (IH (pre ++ [y]) y). rewrite length_app, <- app_assoc in IH. cbn in IH.
  replace (S (length pre) + 1) with (S (S (length pre))) by lia.
  replace (length pre + 1) with (S (length pre)) in IH by lia. apply IH. lia.
Qed.

Lemma builtins_scheme (f : cras_expr_function_type) (v : cras_expr_value)
    (ops : list cras_expr_value) :
  call_function f (v :: ops) = Done (scheme f ops).
Proof.
  destruct f; cbn [call_function scheme].
  - unfold function_not. destruct ops as [|x [|y ops]]; cbn; [done | | done].
    by destruct (is_false x).
  - unfold function_and. destruct ops as [|x ops]; [done|].
    assert ((length (v :: x :: ops) <=? 1) = false) as -> by (apply Nat.leb_gt; cbn; lia).
    change (and_loop (v :: x :: ops) 0) with (and_loop (x :: ops) 1).
    rewrite and_loop_spec by lia. destruct (existsb is_false (x :: ops)); [done|].
    replace (length (v :: x :: ops) - 1) with (S (pred (length (x :: ops)))) by (cbn; lia).
    change ((v :: x :: ops) !! S ?n) with ((x :: ops) !! n). rewrite <- last_lookup.
    destruct (list.last (x :: ops)) as [u|] eqn:E; [cbn; by rewrite copy_value_id|].
    by apply last_None in E.
  - unfold function_or. change (or_loop (v :: ops) 0) with (or_loop ops 1).
    rewrite or_loop_spec by lia. by destruct (List.find _ ops).
  - unfold function_equal, function_equal_real. destruct ops as [|x ops]; [done|].
    change (equal_loop (v :: x :: ops) (length (v :: x :: ops)) 0)
      with (equal_loop ([v] ++ x :: ops) (length ops) (S (length [v]))).
    rewrite equal_loop_spec by (cbn; lia). cbn. by destruct (forallb _ _).
Qed.

(** The four builtin functions compute Scheme's not, and, or and equal?
    on their operands (the first element of the array is the function
    itself): not of anything but exactly one operand is no value; and is #f
    when an operand is #f and otherwise the last operand, #t without
    operands; or is the first operand that is not #f, else #f; equal? is
    whether all operands have the same type and content. *)
Theorem builtins_are_scheme (f : cras_expr_function_type) (v : cras_expr_value)
    (ops : list cras_expr_value) :
  call_function f (v :: ops) = Done (scheme f ops).
Proof. exact (builtins_scheme f v ops). Qed.

(** ** Boolean formulas, the language of the "disable" expressions *)

Inductive formula : Type :=
| FConst (b : bool)
| FVar (name : string)
| FIs (name value : string)
| FNot (f : formula)
| FAnd (l : list formula)
| FOr (l : list formula).

Section FormulaInd.
Variable P : formula -> Prop.
Hypothesis P_const : forall b, P (FConst b).
Hypothesis P_var : forall v, P (FVar v).
Hypothesis P_is : forall v s, P (FIs v s).
Hypothesis P_not : forall f, P f -> P (FNot f).
Hypothesis P_and : forall l, Forall P l -> P (FAnd l).
Hypothesis P_or : forall l, Forall P l -> P (FOr l).

Fixpoint formula_ind' (f : formula) : P f :=
  let all := fix all l : Forall P l :=
    match l with
    | [] => Forall_nil_2 P
    | f :: l => Forall_cons_2 P f l (formula_ind' f) (all l)
    end in
  match f with
  | FConst b => P_const b
  | FVar v => P_var v
  | FIs v s => P_is v s
  | FNot f => P_not f (formula_ind' f)
  | FAnd l => P_and l (all l)
  | FOr l => P_or l (all l)
  end.
End FormulaInd.

Fixpoint formula_expr (f : formula) : cras_expr_expression :=
  match f with
  | FConst b => EXPR_LITERAL (VALUE_BOOLEAN b)
  | FVar v => EXPR_VARIABLE v
  | FIs v s =>
      EXPR_COMPOUND [EXPR_VARIABLE "equal?"; EXPR_VARIABLE v; EXPR_LITERAL (VALUE_STRING s)]
  | FNot f => EXPR_COMPOUND [EXPR_VARIABLE "not"; formula_expr f]
  | FAnd l => EXPR_COMPOUND (EXPR_VARIABLE "and" :: map formula_expr l)
  | FOr l => EXPR_COMPOUND (EXPR_VARIABLE "or" :: map formula_expr l)
  end.

Fixpoint formula_sem (rho : string -> bool) (sigma : string -> string) (f : formula) : bool :=
  match f with
  | FConst b => b
  | FVar v => rho v
  | FIs v s => String.eqb (sigma v) s
  | FNot f => negb (formula_sem rho sigma f)
  | FAnd l => forallb (formula_sem rho sigma) l
  | FOr l => existsb (formula_sem rho sigma) l
  end.

Definition builtin_env (m : gmap string cras_expr_value) : bool :=
  bool_decide (m !! "not" = Some (VALUE_FUNCTION FunctionNot)) &&
  bool_decide (m !! "and" = Some (VALUE_FUNCTION FunctionAnd)) &&
  bool_decide (m !! "or" = Some (VALUE_FUNCTION FunctionOr)) &&
  bool_decide (m !! "equal?" = Some (VALUE_FUNCTION FunctionEqual)).

(** The names are identifiers bound to values of the right type. *)
Fixpoint formula_ok (m : gmap string cras_expr_value) (rho : string -> bool)
    (sigma : string -> string) (f : formula) : bool :=
  match f with
  | FConst _ => true
  | FVar v => parsable (EXPR_VARIABLE v) && bool_decide (m !! v = Some (VALUE_BOOLEAN (rho v)))
  | FIs v s =>
      parsable (EXPR_VARIABLE v) && negb (has_char dquote s) &&
      bool_decide (m !! v = Some (VALUE_STRING (sigma v)))
  | FNot f => formula_ok m rho sigma f
  | FAnd l | FOr l => forallb (formula_ok m rho sigma) l
  end.

Lemma formulas_parsable m rho sigma l :
  Forall (fun f => formula_ok m rho sigma f = true -> parsable (formula_expr f) = true) l ->
  forallb (formula_ok m rho sigma) l = true -> forallb parsable (map formula_expr l) = true.
Proof.
  induction 1 as [|f l Hf Hl IH]; [done|]. cbn [forallb map].
  intros [H1 H2]%andb_true_iff. by rewrite (Hf H1), (IH H2).
Qed.

Lemma formula_parsable m rho sigma f :
  formula_ok m rho sigma f = true -> parsable (formula_expr f) = true.
Proof.
  induction f as [b|v|v s|f IH|l IH|l IH] using formula_ind';
    cbn [formula_ok formula_expr]; intros H.
  - done.
  - by apply andb_true_iff in H as [H _].
  - apply andb_true_iff in H as [[H1 H2]%andb_true_iff _].
    cbn [parsable forallb] in *. by rewrite H1, H2.
  - cbn [parsable forallb]. by rewrite IH.
  - exact (formulas_parsable m rho sigma l IH H).
  - exact (formulas_parsable m rho sigma l IH H).
Qed.

Lemma forallb_id_map {A} (g : A -> bool) l : forallb id (map g l) = forallb g l.
Proof. induction l as [|x l IH]; cbn; [done | by rewrite IH]. Qed.

Lemma existsb_id_map {A} (g : A -> bool) l : existsb id (map g l) = existsb g l.
Proof. induction l as [|x l IH]; cbn; [done | by rewrite IH]. Qed.

Section Formulas.
Variables (env : cras_expr_env) (rho : string -> bool) (sigma : string -> string).
Hypothesis Hok : env_ok env.
Hypothesis Hb : builtin_env (env_map env) = true.

Definition evaluates (f : formula) : Prop :=
  formula_ok (env_map env) rho sigma f = true ->
  cras_expr_expression_eval (formula_expr f) env = Done (VALUE_BOOLEAN (formula_sem rho sigma f)).

Lemma eval_builtin name f l vs :
  env_map env !! name = Some (VALUE_FUNCTION f) -> eval_all l env = Done vs ->
  cras_expr_expression_eval (EXPR_COMPOUND (EXPR_VARIABLE name :: l)) env = Done (scheme f vs).
Proof.
  intros Hf Hl. rewrite eval_compound. cbn [eval_all cras_expr_expression_eval].
  rewrite eval_variable_map, Hf by done. rewrite bind_Done_eq, Hl, !bind_Done_eq.
  cbn [default eval_call]. exact (builtins_scheme f _ vs).
Qed.

Lemma eval_all_formulas l :
  Forall evaluates l -> forallb (formula_ok (env_map env) rho sigma) l = true ->
  eval_all (map formula_expr l) env =
  Done (map (fun f => VALUE_BOOLEAN (formula_sem rho sigma f)) l).
Proof.
  induction 1 as [|f l Hf Hl IH]; [done|]. cbn [forallb map eval_all].
  intros [H1 H2]%andb_true_iff. by rewrite (Hf H1), bind_Done_eq, (IH H2).
Qed.

Lemma scheme_and_bools (l : list bool) :
  scheme FunctionAnd (map VALUE_BOOLEAN l) = VALUE_BOOLEAN (forallb id l).
Proof.
  cbn. induction l as [|b l IH]; [done|]. cbn. destruct b; cbn; [|done].
  destruct l as [|b' l]; [done|]. exact IH.
Qed.

Lemma scheme_or_bools (l : list bool) :
  scheme FunctionOr (map VALUE_BOOLEAN l) = VALUE_BOOLEAN (existsb id l).
Proof. cbn. induction l as [|[] l IH]; [done | done | exact IH]. Qed.

Lemma formula_evaluates f : evaluates f.
Proof.
  apply andb_true_iff in Hb as [[[B1 B2]%andb_true_iff B3]%andb_true_iff B4].
  apply bool_decide_eq_true in B1, B2, B3, B4.
  induction f as [b|v|v s|f IH|l IH|l IH] using formula_ind'; intros H;
    cbn [formula_ok formula_expr formula_sem] in *.
  - done.
  - apply andb_true_iff in H as [_ H]. apply bool_decide_eq_true in H.
    cbn [cras_expr_expression_eval]. by rewrite eval_variable_map, H.
  - apply andb_true_iff in H as [_ H]. apply bool_decide_eq_true in H.
    rewrite (eval_builtin _ _ _ [VALUE_STRING (sigma v); VALUE_STRING s] B4).
    + cbn. by rewrite andb_true_r.
    + cbn [eval_all cras_expr_expression_eval]. by rewrite eval_variable_map, H.
  - rewrite (eval_builtin _ _ _ [VALUE_BOOLEAN (formula_sem rho sigma f)] B1); [done|].
    cbn [eval_all]. by rewrite (IH H).
  - rewrite (eval_builtin _ _ _ _ B2 (eval_all_formulas l IH H)).
    rewrite <- (map_map (formula_sem rho sigma) VALUE_BOOLEAN), scheme_and_bools.
    by rewrite forallb_id_map.
  - rewrite (eval_builtin _ _ _ _ B3 (eval_all_formulas l IH H)).
    rewrite <- (map_map (formula_sem rho sigma) VALUE_BOOLEAN), scheme_or_bools.
    by rewrite existsb_id_map.
Qed.
End Formulas.

(** End to end: in an environment with the builtins installed, the text
    of a boolean formula over its variables - the form of the "disable"
    expressions of dsp.ini - parses, and cras_expr_expression_eval_boolean
    returns 0 and the truth value of the formula. *)
Theorem formula_text_evaluates (w : Z) (env : cras_expr_env) (rho : string -> bool)
    (sigma : string -> string) (f : formula)
    (Hw : (32 <= w)%Z) (Hok : env_ok env) (Hb : builtin_env (env_map env) = true)
    (Hf : formula_ok (env_map env) rho sigma f = true) :
  exists e, cras_expr_expression_parse w (Some (print_expr (formula_expr f))) = Done (Some e) /\
    cras_expr_expression_eval_boolean e env = Done (0%Z, Some (formula_sem rho sigma f)).
Proof.
  exists (formula_expr f). split.
  - by eapply parse_print, formula_parsable.
  - unfold cras_expr_expression_eval_boolean. by rewrite (formula_evaluates env rho sigma).
Qed.

Definition sample_env : cras_expr_env :=
  default empty_env (outcome_value
    (e ← cras_expr_env_install_builtins empty_env;
     e ← cras_expr_env_set_variable_string e "dsp_name" "hp";
     cras_expr_env_set_variable_boolean e "has_mic" 2)).

Definition sample_formula : formula :=
  FAnd [FNot (FIs "dsp_name" "speaker"); FOr [FConst false; FVar "has_mic"]; FAnd []].

Lemma formula_text_evaluates_witness :
  exists e, cras_expr_expression_parse 64 (Some (print_expr (formula_expr sample_formula)))
              = Done (Some e) /\
    cras_expr_expression_eval_boolean e sample_env = Done (0%Z, Some true).
Proof.
  apply (formula_text_evaluates 64 sample_env (fun _ => true) (fun _ => "hp"%string) sample_formula).
  - lia.
  - split; [vm_compute; reflexivity | apply (bool_decide_unpack _); vm_compute; reflexivity].
  - vm_compute; reflexivity.
  - vm_compute; reflexivity.
Defined.

(** ** Types

    The evaluator never fails, but an expression may have no value, or one of
    a type its caller does not take.  A checker of types for the calls of the
    builtin functions, and that it is sound. *)

Inductive ty : Type := TBoolean | TInteger | TString.

#[export] Instance ty_eq_dec : EqDecision ty.
Proof. solve_decision. Defined.

Definition value_type (v : cras_expr_value) : option ty :=
  match v with
  | VALUE_BOOLEAN _ => Some TBoolean
  | VALUE_INT _ => Some TInteger
  | VALUE_STRING _ => Some TString
  | VALUE_NONE | VALUE_FUNCTION _ => None
  end.

(** The type of a call: and, or give one of their operands, or a boolean. *)
Definition call_type (name : string) (ts : list ty) : option ty :=
  if String.eqb name "not" then match ts with [_] => Some TBoolean | _ => None end
  else if String.eqb name "and" || String.eqb name "or" then
    match ts with
    | [] => Some TBoolean
    | t :: ts => if forallb (fun t' => bool_decide (t = t')) ts then Some t else None
    end
  else if String.eqb name "equal?" then Some TBoolean
  else None.

Section Infer.
Variable Γ : gmap string ty.

Fixpoint infer (e : cras_expr_expression) : option ty :=
  match e with
  | EXPR_NONE => None
  | EXPR_LITERAL v => value_type v
  | EXPR_VARIABLE x => Γ !! x
  | EXPR_COMPOUND (EXPR_VARIABLE f :: args) =>
      ts ← (fix infer_all l :=
              match l with
              | [] => Some []
              | e :: l => t ← infer e; ts ← infer_all l; Some (t :: ts)
              end) args;
      call_type f ts
  | EXPR_COMPOUND _ => None
  end.

Fixpoint infer_all (l : list cras_expr_expression) : option (list ty) :=
  match l with
  | [] => Some []
  | e :: l => t ← infer e; ts ← infer_all l; Some (t :: ts)
  end.

Lemma infer_call f args :
  infer (EXPR_COMPOUND (EXPR_VARIABLE f :: args)) = (ts ← infer_all args; call_type f ts).
Proof. done. Qed.

(** The variables have the values of their types. *)
Definition typed_env (m : gmap string cras_expr_value) : Prop :=
  forall x t, Γ !! x = Some t -> exists v, m !! x = Some v /\ value_type v = Some t.

Definition has_type (v : cras_expr_value) (t : ty) : Prop := value_type v = Some t.

Lemma find_type p vs t :
  Forall (fun v => has_type v t) vs ->
  match List.find p vs with Some v => has_type v t | None => True end.
Proof. induction 1 as [|v vs Hv _ IH]; cbn; [done|]. by destruct (p v). Qed.

Lemma no_false vs t :
  Forall (fun v => has_type v t) vs -> t <> TBoolean -> existsb is_false vs = false.
Proof.
  induction 1 as [|v vs Hv _ IH]; intros Ht; [done|]. cbn. rewrite IH by done.
  unfold has_type in Hv. destruct v; cbn in *; try done. congruence.
Qed.

Lemma same_types (t : ty) (ts : list ty) :
  forallb (fun t' => bool_decide (t = t')) ts = true -> Forall (eq t) ts.
Proof.
  intros H. apply list.Forall_forall. intros t' Hin. rewrite forallb_forall in H.
  by apply list_elem_of_In, H, bool_decide_eq_true in Hin.
Qed.

(** The functions give values of the types of their calls. *)
Lemma scheme_and_type t v vs :
  Forall (fun v => has_type v t) (v :: vs) -> has_type (scheme FunctionAnd (v :: vs)) t.
Proof.
  intros Ht. cbn [scheme]. destruct (existsb is_false (v :: vs)) eqn:E.
  - destruct t; [done| |]; by rewrite (no_false _ _ Ht) in E.
  - destruct (list.last (v :: vs)) as [u|] eqn:El; [|by apply last_None in El]. cbn.
    apply last_Some in El as [l El]. rewrite El in Ht. apply Forall_app in Ht as [_ H]. apply list.Forall_cons in H as [H _]. exact H.
Qed.

Lemma scheme_or_type t v vs :
  Forall (fun v => has_type v t) (v :: vs) -> has_type (scheme FunctionOr (v :: vs)) t.
Proof.
  intros Ht. pose proof (find_type (fun v => negb (is_false v)) _ t Ht) as Hf. cbn [scheme].
  destruct (List.find _ (v :: vs)) as [u|] eqn:E; [done|]. cbn.
  pose proof (find_none _ _ E v ltac:(by left)) as Hv. apply negb_false_iff in Hv.
  apply list.Forall_cons in Ht as [Ht _]. unfold has_type in *. by destruct v.
Qed.

Lemma call_type_sound m name ts vs t :
  builtin_env m = true -> Forall2 has_type vs ts -> call_type name ts = Some t ->
  exists f, m !! name = Some (VALUE_FUNCTION f) /\ has_type (scheme f vs) t.
Proof.
  intros Hb Hts Hc. apply andb_true_iff in Hb as [[[B1 B2]%andb_true_iff B3]%andb_true_iff B4].
  apply bool_decide_eq_true in B1, B2, B3, B4. unfold call_type in Hc.
  assert (forall f, match ts with
    | [] => Some TBoolean
    | t :: ts => if forallb (fun t' => bool_decide (t = t')) ts then Some t else None
    end = Some t -> f = FunctionAnd \/ f = FunctionOr -> has_type (scheme f vs) t) as Hao.
  { intros f Ht Hf. destruct Hts as [|v t0 vs ts Hv Hts]; [injection Ht as <-; by destruct Hf as [-> | ->]|].
    destruct (forallb _ ts) eqn:Es; [|done]. injection Ht as <-. apply same_types in Es.
    assert (Forall (fun v => has_type v t0) (v :: vs)) as Hall.
    { constructor; [done|]. clear -Hts Es. induction Hts as [|v t vs ts Hv _ IH]; [constructor|].
      apply list.Forall_cons in Es as [<- Es]. by constructor; [|apply IH]. }
    destruct Hf as [-> | ->]; [by apply scheme_and_type | by apply scheme_or_type]. }
  destruct (String.eqb_spec name "not") as [->|_].
  { exists FunctionNot. split; [done|]. destruct Hts as [|v t0 vs ts Hv [|]]; try done. }
  destruct (String.eqb_spec name "and") as [->|_].
  { exists FunctionAnd. split; [done|]. by apply Hao; auto. }
  destruct (String.eqb_spec name "or") as [->|_].
  { exists FunctionOr. split; [done|]. by apply Hao; auto. }
  cbn in Hc. destruct (String.eqb_spec name "equal?") as [->|_]; [|done].
  injection Hc as <-. by exists FunctionEqual.
Qed.

(** C36.  Typed expressions evaluate to values of their types.  In a
    well-formed environment with the builtin functions, whose variables have
    the types they are declared with, an expression that the checker gives a
    type evaluates to a value of that type: cras_expr_expression_eval_boolean
    returns 0 and stores the value exactly for the type boolean, and
    cras_expr_expression_eval_int for the type integer; otherwise they return
    -1 and store nothing. *)
Theorem typed_expression_evaluates env e t :
  env_ok env -> builtin_env (env_map env) = true -> typed_env (env_map env) ->
  infer e = Some t ->
  exists v, cras_expr_expression_eval e env = Done v /\
    match t with
    | TBoolean => exists b, v = VALUE_BOOLEAN b /\
        cras_expr_expression_eval_boolean e env = Done (0%Z, Some b) /\
        cras_expr_expression_eval_int e env = Done ((-1)%Z, None)
    | TInteger => exists n, v = VALUE_INT n /\
        cras_expr_expression_eval_boolean e env = Done ((-1)%Z, None) /\
        cras_expr_expression_eval_int e env = Done (0%Z, Some n)
    | TString => exists s, v = VALUE_STRING s /\
        cras_expr_expression_eval_boolean e env = Done ((-1)%Z, None) /\
        cras_expr_expression_eval_int e env = Done ((-1)%Z, None)
    end.
Proof.
  intros Hok Hb Henv Hi.
  assert (exists v, cras_expr_expression_eval e env = Done v /\ has_type v t) as (v & Ev & Hv).
  { revert t Hi. induction e as [|v|x|l Hl] using expr_ind'; intros t Hi; [done | | |].
    - exists v. cbn. by rewrite copy_value_id.
    - cbn in *. destruct (Henv x t Hi) as (v & Hv & Ht). rewrite eval_variable_map, Hv by done. by exists v.
    - destruct l as [|[| |f|] args]; try done. rewrite infer_call in Hi.
      destruct (infer_all args) as [ts|] eqn:Ets; [|done]. cbn in Hi.
      apply list.Forall_cons in Hl as [_ Hl].
      assert (exists vs, eval_all args env = Done vs /\ Forall2 has_type vs ts) as (vs & Evs & Hvs).
      { clear Hi. revert ts Ets. induction Hl as [|e args He _ IH]; intros ts Ets; cbn in *.
        - injection Ets as <-. by exists [].
        - destruct (infer e) as [t0|] eqn:Et; [|done]. destruct (infer_all args) as [ts0|]; [|done].
          injection Ets as <-. destruct (He t0 eq_refl) as (v & -> & Hv).
          destruct (IH ts0 eq_refl) as (vs & -> & Hvs). exists (v :: vs). split; [done | by constructor]. }
      destruct (call_type_sound _ _ _ _ _ Hb Hvs Hi) as (g & Hg & Ht).
      rewrite (eval_builtin env Hok f g args vs Hg Evs). by exists (scheme g vs). }
  exists v. split; [done|].
  unfold cras_expr_expression_eval_boolean, cras_expr_expression_eval_int. rewrite Ev, !bind_Done_eq.
  unfold has_type in Hv. destruct v as [|b|n|s|f]; try discriminate Hv; injection Hv as <-;
    (eexists; split; [reflexivity | done]).
Qed.
End Infer.

Definition sample_types : gmap string ty :=
  <["dsp_name"%string := TString]> (<["has_mic"%string := TBoolean]> ∅).

(** (or (not has_mic) (equal? dsp_name 3)) *)
Definition sample_typed : cras_expr_expression :=
  let var := EXPR_VARIABLE in
  EXPR_COMPOUND [var "or"%string; EXPR_COMPOUND [var "not"%string; var "has_mic"%string];
                 EXPR_COMPOUND [var "equal?"%string; var "dsp_name"%string; EXPR_LITERAL (VALUE_INT 3)]].

Lemma typed_expression_evaluates_witness :
  exists b, cras_expr_expression_eval_boolean sample_typed sample_env = Done (0%Z, Some b).
Proof.
  destruct (typed_expression_evaluates sample_types sample_env sample_typed TBoolean) as (v & _ & H).
  - split; [vm_compute; reflexivity | apply (bool_decide_unpack _); vm_compute; reflexivity].
  - vm_compute; reflexivity.
  - intros x t Hx. unfold sample_types in Hx.
    apply lookup_insert_Some in Hx as [[<- <-]|[_ Hx]]; [eexists; split; [vm_compute; reflexivity | reflexivity]|].
    apply lookup_insert_Some in Hx as [[<- <-]|[_ Hx]]; [eexists; split; [vm_compute; reflexivity | reflexivity]|].
    by rewrite lookup_empty in Hx.
  - vm_compute. reflexivity.
  - destruct H as (b & _ & H & _). by exists b.
Defined.
