(* ===== verification/Float32.v ===== *)
(** * Float32: C's float, the IEEE 754 binary32 format

    The values and operations are those of the Standard Library's executable
    specification of floating point, at precision 24 and exponent bound 128,
    rounding to nearest even. *)

From Stdlib Require Import SpecFloat.
From S2P Require Import Prelude.

Definition float : Type := spec_float.

Definition float_zero : float := S754_zero false.

Definition fadd : float -> float -> float := SFadd 24 128.
Definition fsub : float -> float -> float := SFsub 24 128.
Definition fmul : float -> float -> float := SFmul 24 128.
Definition fdiv : float -> float -> float := SFdiv 24 128.

(** [a > b], false when one is not a number. *)
Definition fgt (a b : float) : bool := SFltb b a.
Definition flt (a b : float) : bool := SFltb a b.

(** The conversion of an int. *)
Definition f_of_Z (z : Z) : float := binary_normalize 24 128 z 0 false.

(** One half. *)
Definition f_half : float := fdiv (f_of_Z 1) (f_of_Z 2).

(** The conversion to an integer truncates; it is undefined for an infinity
    or something that is not a number. *)
Definition f_trunc (f : float) : option Z :=
  match f with
  | S754_zero _ => Some 0%Z
  | S754_finite s m e =>
      let a := if (0 <=? e)%Z then (Zpos m * 2 ^ e)%Z else (Zpos m / 2 ^ (- e))%Z in
      Some (if s then (- a)%Z else a)
  | _ => None
  end.

(** The conversions to int and to unsigned, undefined out of their ranges. *)
Definition f_to_int (f : float) : option Z :=
  z ← f_trunc f; if ((- 2 ^ 31 <=? z) && (z <? 2 ^ 31))%Z then Some z else None.

Definition f_to_unsigned (f : float) : option Z :=
  z ← f_trunc f; if ((0 <=? z) && (z <? 2 ^ 32))%Z then Some z else None.

#[export] Instance float_eq_dec : EqDecision float.
Proof. unfold float. solve_decision. Defined.

(** strtof of the C library: the float a text starts with. *)
Class FloatLib : Type := { strtof : string -> float }.

(** C's double, the IEEE 754 binary64 format. *)
Definition double : Type := spec_float.

Definition dadd : double -> double -> double := SFadd 53 1024.
Definition dsub : double -> double -> double := SFsub 53 1024.
Definition dmul : double -> double -> double := SFmul 53 1024.
Definition ddiv : double -> double -> double := SFdiv 53 1024.
Definition dsqrt : double -> double := SFsqrt 53 1024.
Definition dneg : double -> double := SFopp.
Definition fneg : float -> float := SFopp.

Definition feq (a b : float) : bool := SFeqb a b.
Definition fle (a b : float) : bool := SFleb a b.
Definition fabsf : float -> float := SFabs.
Definition sqrtf : float -> float := SFsqrt 24 128.

(** The float nearest to [num / den]: a decimal constant of the source. *)
Definition f_const (num : Z) (den : positive) : float :=
  match num with
  | Z0 => float_zero
  | Zpos n => SFdiv 24 128 (S754_finite false n 0) (S754_finite false den 0)
  | Zneg n => SFdiv 24 128 (S754_finite true n 0) (S754_finite false den 0)
  end.

(** fmaxf: an operand that is not a number counts as missing. *)
Definition fmaxf (a b : float) : float :=
  match a, b with
  | S754_nan, _ => b
  | _, S754_nan => a
  | _, _ => if flt a b then b else a
  end.

(** rintf: to the nearest integer, halves to the even one; the sign of a
    result that is zero is that of the argument. *)
Definition rintf (f : float) : float :=
  match f with
  | S754_finite s m e =>
      if (0 <=? e)%Z then f
      else
        let d := (2 ^ (- e))%Z in
        let q := (Zpos m / d)%Z in
        let r := (Zpos m mod d)%Z in
        let q := if (d <? 2 * r)%Z || ((2 * r =? d)%Z && Z.odd q) then (q + 1)%Z else q in
        if (q =? 0)%Z then S754_zero s else f_of_Z (if s then (- q)%Z else q)
  | _ => f
  end.

Definition dgt (a b : double) : bool := SFltb b a.
Definition dlt (a b : double) : bool := SFltb a b.
Definition deq (a b : double) : bool := SFeqb a b.

Definition d_of_Z (z : Z) : double := binary_normalize 53 1024 z 0 false.

(** The constant [num / den], rounded once. *)
Definition d_const (num den : Z) : double := ddiv (d_of_Z num) (d_of_Z den).

(** Rounding to another format. *)
Definition round_to (prec emax : Z) (x : spec_float) : spec_float :=
  match x with
  | S754_finite s m e => binary_normalize prec emax (if s then Zneg m else Zpos m) e s
  | _ => x
  end.

Definition f_of_double : double -> float := round_to 24 128.
Definition d_of_float : float -> double := round_to 53 1024.

(** The functions of the C library's libm that are not correctly rounded; those
    on floats first. *)
Class LibMF : Type := {
  expf : float -> float;
  logf : float -> float;
  powf : float -> float -> float;
  asinf : float -> float
}.

Class LibM : Type := {
  d_pow : double -> double -> double;
  d_sin : double -> double;
  d_cos : double -> double
}.

(** ** Small integers are floats *)

#[local] Open Scope Z_scope.

Lemma digits_below (n : nat) : forall p, Zpos p < 2 ^ Z.of_nat n -> (Pos.to_nat (digits2_pos p) <= n)%nat.
Proof.
  induction n as [|n IH]; intros p Hp; [cbn in Hp; lia|]. rewrite Nat2Z.inj_succ, Z.pow_succ_r in Hp by lia.
  destruct p as [p|p|]; cbn [digits2_pos]; [| |lia]; rewrite Pos2Nat.inj_succ; apply le_n_S, IH; lia.
Qed.


Lemma shift_digits n : forall p, digits2_pos (Pos.iter xO p n) = (n + digits2_pos p)%positive.
Proof.
  induction n as [|n IH] using Pos.peano_ind; intros p; [cbn; lia|]. rewrite Pos.iter_succ. cbn [digits2_pos]. rewrite IH. lia.
Qed.

Lemma shift_value n : forall p, Zpos (Pos.iter xO p n) = Zpos p * 2 ^ Zpos n.
Proof.
  induction n as [|n IH] using Pos.peano_ind; intros p; [cbn; lia|]. rewrite Pos.iter_succ, Pos2Z.inj_xO, IH, Pos2Z.inj_succ, Z.pow_succ_r by lia. lia.
Qed.

(** An integer of less than 24 bits is a float. *)
Lemma f_of_small z : 0 <= z < 8388608 -> f_to_int (fsub (f_of_Z z) float_zero) = Some z.
Proof.
  intros Hz. destruct z as [|p|p]; [reflexivity| |lia]. pose proof (digits_below 23 p ltac:(cbn; lia)) as Hd.
  unfold f_of_Z, binary_normalize, binary_round, shl_align. set (d := digits2_pos p) in *.
  replace (fexp 24 128 (Zpos d + 0) - 0) with (Zneg (24 - d)) by (unfold fexp, emin; lia). set (m := Pos.iter xO p (24 - d)).
  assert (digits2_pos m = 24%positive) as Hm by (unfold m; rewrite shift_digits; lia).
  replace (fexp 24 128 (Zpos d + 0)) with (Zpos d - 24) by (unfold fexp, emin; lia). unfold binary_round_aux, shr_fexp.
  change (Zdigits2 (Zpos m)) with (Zpos (digits2_pos m)). rewrite Hm.
  replace (fexp 24 128 (24 + (Zpos d - 24)) - (Zpos d - 24)) with 0 by (unfold fexp, emin; lia).
  cbn [shr shr_record_of_loc shr_m loc_of_shr_record round_nearest_even]. change (Zdigits2 (Zpos m)) with (Zpos (digits2_pos m)). rewrite Hm.
  replace (fexp 24 128 (24 + (Zpos d - 24)) - (Zpos d - 24)) with 0 by (unfold fexp, emin; lia).
  cbn [shr shr_record_of_loc shr_m loc_of_shr_record round_nearest_even]. rewrite (proj2 (Z.leb_le _ _)) by lia.
  unfold f_to_int. cbn [fsub SFsub float_zero f_trunc]. rewrite (proj2 (Z.leb_gt _ _)) by lia.
  assert (Zpos m / 2 ^ (- (Zpos d - 24)) = Zpos p) as ->.
  { unfold m. rewrite shift_value. replace (- (Zpos d - 24)) with (Zpos (24 - d)) by lia. apply Z.div_mul. lia. }
  cbn [mbind option_bind]. rewrite (proj2 (Z.leb_le _ _)), (proj2 (Z.ltb_lt _ _)) by lia. done.
Qed.
