(* ===== verification/DspIni.v ===== *)
(** * DspIni: the static dsp graph of audio/hal/cras_dsp_ini.c

    Plugins, ports and flows read from the dictionary of an ini file.  A
    pointer to a plugin is its index in the array of plugins, which no longer
    changes when such pointers are stored.  [strtof] is the C library's. *)

From S2P Require Import Prelude CString Float32 Dictionary IniParser Expr.

Definition MAX_INI_KEY_LENGTH : nat := 64.
Definition MAX_NR_PORT : nat := 128.
Definition MAX_PORT_NAME_LENGTH : nat := 20.
Definition INVALID_FLOW_ID : Z := -1.

Inductive port_direction : Type := PORT_INPUT | PORT_OUTPUT.
Inductive port_type : Type := PORT_CONTROL | PORT_AUDIO.

#[export] Instance port_direction_eq_dec : EqDecision port_direction.
Proof. solve_decision. Defined.
#[export] Instance port_type_eq_dec : EqDecision port_type.
Proof. solve_decision. Defined.

Section DspIni.
Context `{FloatLib}.

Record port : Type := Port {
  direction : port_direction;
  type : port_type;
  flow_id : Z;
  init_value : float
}.

Record plugin : Type := Plugin {
  title : string;
  library : option string;
  label : option string;
  purpose : option string;
  disable_expr : option cras_expr_expression;
  ports : list port
}.

Record flow : Type := Flow {
  flow_type : port_type;
  flow_name : string;
  from : option nat;
  to : option nat;
  from_port : nat;
  to_port : nat
}.

(** The flow whose bytes are all zero, but for its name. *)
Definition zero_flow (name : string) : flow := Flow PORT_CONTROL name None None 0 0.

Record ini : Type := Ini {
  dict : option dictionary;
  plugins : list plugin;
  flows : list flow
}.

(** snprintf(buf, size, ...): the text cut to [size - 1] characters. *)
Definition snprintf (size : nat) (s : string) : string := stake (size - 1) s.

Definition getstring (d : dictionary) (sec_name key : string) : option string :=
  let full_key := snprintf MAX_INI_KEY_LENGTH (sec_name +:+ ":" +:+ key) in
  match iniparser_getstring (Some d) (Some full_key) CNull with
  | CStr s => Some s
  | _ => None
  end.

Definition lookup_flow (fs : list flow) (name : string) : Z :=
  match find_idx (fun flow => String.eqb (flow_name flow) name) fs with
  | Some i => Z.of_nat i
  | None => -1
  end.

Definition lookup_or_add_flow (fs : list flow) (name : string) : Z * list flow :=
  let i := lookup_flow fs name in
  if negb (i =? -1)%Z then (i, fs)
  else (Z.of_nat (length fs), fs ++ [zero_flow name]).

Definition port_key (base : string) (i : nat) : string :=
  snprintf MAX_PORT_NAME_LENGTH (base +:+ print_int (Z.of_nat i)).

(** The direction and the text of port [i], if there is one. *)
Definition port_text (d : dictionary) (sec_name : string) (i : nat)
    : option (port_direction * string) :=
  match getstring d sec_name (port_key "input_" i) with
  | Some str => Some (PORT_INPUT, str)
  | None =>
      match getstring d sec_name (port_key "output_" i) with
      | Some str => Some (PORT_OUTPUT, str)
      | None => None
      end
  end.

(** The port for a non-empty text, and the flows. *)
Definition parse_port (dir : port_direction) (str : string) (fs : list flow)
    : port * list flow :=
  let c := shead str in
  if Ascii.eqb c "<" || Ascii.eqb c "{" then
    let '(id, fs) := lookup_or_add_flow fs str in
    (Port dir (if Ascii.eqb c "<" then PORT_CONTROL else PORT_AUDIO) id float_zero, fs)
  else (Port dir PORT_CONTROL INVALID_FLOW_ID (strtof str), fs).

(** The loop of parse_ports from port [i], with [todo] ports to go to
    MAX_NR_PORT; [ps] are the ports so far. *)
Fixpoint parse_ports_loop (todo i : nat) (d : dictionary) (sec_name : string)
    (ps : list port) (fs : list flow) : Z * list port * list flow :=
  match todo with
  | 0 => (0%Z, ps, fs)
  | S todo =>
      match port_text d sec_name i with
      | None => (0%Z, ps, fs)
      | Some (dir, str) =>
          if String.eqb str EmptyString then ((-1)%Z, ps, fs)
          else
            let '(p, fs) := parse_port dir str fs in
            parse_ports_loop todo (i + 1) d sec_name (ps ++ [p]) fs
      end
  end.

Definition parse_ports (d : dictionary) (sec_name : string) (fs : list flow)
    : Z * list port * list flow :=
  parse_ports_loop MAX_NR_PORT 0 d sec_name [] fs.

Section Create.
Context (alloc : Z -> bool) (long_width : Z).

Definition parse_plugin_section (d : dictionary) (sec_name : string) (fs : list flow)
    : outcome (Z * plugin * list flow) :=
  let lib := getstring d sec_name "library" in
  let lab := getstring d sec_name "label" in
  let pur := getstring d sec_name "purpose" in
  dis ← cras_expr_expression_parse long_width (getstring d sec_name "disable");
  match lib, lab with
  | Some _, Some _ =>
      let '(rc, ps, fs) := parse_ports d sec_name fs in
      Done ((if rc <? 0 then -1 else 0)%Z, Plugin sec_name lib lab pur dis ps, fs)
  | _, _ => Done ((-1)%Z, Plugin sec_name lib lab pur dis [], fs)
  end.

(** The loop over the sections; NULL for a section name is handed on to
    snprintf's %s. *)
Fixpoint parse_sections (todo : nat) (i : Z) (d : dictionary) (ps : list plugin)
    (fs : list flow) : outcome (Z * list plugin * list flow) :=
  match todo with
  | 0 => Done (0%Z, ps, fs)
  | S todo =>
      sec_name ← access (iniparser_getsecname (Some d) i);
      '(rc, p, fs) ← parse_plugin_section d sec_name fs;
      if (rc <? 0)%Z then Done ((-1)%Z, ps ++ [p], fs)
      else parse_sections todo (i + 1) d (ps ++ [p]) fs
  end.

(** A store to a flow through the pointer ARRAY_ELEMENT(&ini->flows, id). *)
Definition alter_flow (id : Z) (f : flow -> flow) (fs : list flow) : outcome (list flow) :=
  if ((0 <=? id) && (id <? Z.of_nat (length fs)))%Z
  then Done (alter f (Z.to_nat id) fs) else Fault.

(** The body of the inner loop of fill_flow_info: port [j] of plugin [i]. *)
Definition fill_port (i j : nat) (p : port) (fs : list flow) : outcome (list flow) :=
  if (flow_id p =? INVALID_FLOW_ID)%Z then Done fs
  else
    alter_flow (flow_id p)
      (fun f =>
         match direction p with
         | PORT_INPUT => Flow (type p) (flow_name f) (from f) (Some i) (from_port f) j
         | PORT_OUTPUT => Flow (type p) (flow_name f) (Some i) (to f) j (to_port f)
         end) fs.

Fixpoint fill_ports (i j : nat) (ps : list port) (fs : list flow) : outcome (list flow) :=
  match ps with
  | [] => Done fs
  | p :: ps => fs ← fill_port i j p fs; fill_ports i (j + 1) ps fs
  end.

Fixpoint fill_plugins (i : nat) (pls : list plugin) (fs : list flow) : outcome (list flow) :=
  match pls with
  | [] => Done fs
  | pl :: pls => fs ← fill_ports i 0 (ports pl) fs; fill_plugins (i + 1) pls fs
  end.

Definition fill_flow_info (n : ini) : outcome ini :=
  fs ← fill_plugins 0 (plugins n) (flows n); Done (Ini (dict n) (plugins n) fs).

Definition cras_dsp_ini_free (n : ini) : outcome unit :=
  match dict n with
  | None => Done tt
  | Some d => iniparser_freedict (Some (DLive d))
  end.

(** calloc of the ini structure, like the other allocations of the file, is
    taken to succeed; [file] is the contents of the ini file. *)
Definition cras_dsp_ini_create (file : option string) : outcome (option ini) :=
  r ← iniparser_load alloc file;
  match r with
  | None => _ ← cras_dsp_ini_free (Ini None [] []); Done None
  | Some (DLost _ _ _) => Fault
  | Some (DLive d) =>
      let nsec := iniparser_getnsec (Some d) in
      '(rc, ps, fs) ← parse_sections (Z.to_nat nsec) 0 d [] [];
      let n := Ini (Some d) ps fs in
      if (rc <? 0)%Z then _ ← cras_dsp_ini_free n; Done None
      else n ← fill_flow_info n; Done (Some n)
  end.
End Create.

Definition port_direction_str (d : port_direction) : string :=
  match d with PORT_INPUT => "input" | PORT_OUTPUT => "output" end.

Definition port_type_str (t : port_type) : string :=
  match t with PORT_CONTROL => "control" | PORT_AUDIO => "audio" end.

Definition plugin_title (p : option plugin) : string :=
  match p with None => "(null)" | Some p => title p end.

End DspIni.
