(* ===== verification/DspGraph.v ===== *)
(** * DspGraph: the graph read from an ini file is well formed

    The invariant of the ini structure (every port that names a flow points
    into the array of flows, the ends of a flow are the last ports that name
    it) and what each plugin holds of its section. *)

From S2P Require Import Prelude CString Float32 Dictionary IniParser IniLoad Expr ExprParse DspIni.

Section DspGraph.
Context `{FloatLib}.

(** ** Flows *)

(** The type a flow name stands for: "<...>" control, "{...}" audio. *)
Definition name_type (name : string) : port_type :=
  if Ascii.eqb (shead name) "<" then PORT_CONTROL else PORT_AUDIO.

Definition is_flow_name (str : string) : bool :=
  Ascii.eqb (shead str) "<" || Ascii.eqb (shead str) "{".

(** What port [p] must be for the text [str]: attached to the flow of that
    name, or a constant control. *)
Definition port_matches (fs : list flow) (dir : port_direction) (str : string) (p : port)
    : Prop :=
  direction p = dir /\
  if is_flow_name str then
    type p = name_type str /\ init_value p = float_zero /\
    exists i f, flow_id p = Z.of_nat i /\ fs !! i = Some f /\ flow_name f = str
  else type p = PORT_CONTROL /\ flow_id p = INVALID_FLOW_ID /\ init_value p = strtof str.

(** Flows keep their places and names, and new ones come after them. *)
Definition flows_le (fs fs' : list flow) : Prop :=
  forall i f, fs !! i = Some f -> exists f', fs' !! i = Some f' /\ flow_name f' = flow_name f.

Definition flow_names (fs : list flow) : list string := map flow_name fs.

Lemma flows_le_refl fs : flows_le fs fs.
Proof. intros i f Hf. eauto. Qed.

Lemma flows_le_trans fs1 fs2 fs3 : flows_le fs1 fs2 -> flows_le fs2 fs3 -> flows_le fs1 fs3.
Proof.
  intros H1 H2 i f Hf. destruct (H1 i f Hf) as (f2 & Hf2 & E2).
  destruct (H2 i f2 Hf2) as (f3 & Hf3 & E3). exists f3. split; [done | congruence].
Qed.

Lemma flows_le_app fs l : flows_le fs (fs ++ l).
Proof. intros i f Hf. exists f. split; [by apply lookup_app_l_Some | done]. Qed.

Lemma port_matches_le fs fs' dir str p :
  flows_le fs fs' -> port_matches fs dir str p -> port_matches fs' dir str p.
Proof.
  intros Hle [Hd Hm]. split; [done|]. destruct (is_flow_name str); [|done].
  destruct Hm as (Ht & Hi & i & f & Hid & Hf & Hn). split_and!; [done | done|].
  destruct (Hle i f Hf) as (f' & Hf' & E). exists i, f'. split_and!; [done | done | congruence].
Qed.

Lemma lookup_or_add_flow_spec fs name id fs' :
  NoDup (flow_names fs) -> lookup_or_add_flow fs name = (id, fs') ->
  flows_le fs fs' /\ NoDup (flow_names fs') /\
  (exists i f, id = Z.of_nat i /\ fs' !! i = Some f /\ flow_name f = name) /\
  (forall i f, fs' !! i = Some f -> fs !! i = Some f \/ (id = Z.of_nat i /\ f = zero_flow name)).
Proof.
  intros Hn. unfold lookup_or_add_flow, lookup_flow.
  destruct (find_idx _ fs) as [i|] eqn:E.
  - assert ((Z.of_nat i =? -1)%Z = false) as -> by (apply Z.eqb_neq; lia). intros [= <- <-].
    apply find_idx_Some in E as ((f & Hf & Ef) & _). apply String.eqb_eq in Ef.
    split_and!; [apply flows_le_refl | done | by exists i, f | by left].
  - intros [= <- <-]. pose proof (proj1 (find_idx_None _ _) E) as Hno. split_and!.
    + apply flows_le_app.
    + unfold flow_names. rewrite map_app. apply list.NoDup_app. split; [done|].
      split; [|apply list.NoDup_singleton]. intros x Hx ->%list_elem_of_singleton.
      apply list_elem_of_fmap in Hx as (f & Ef & Hf).
      specialize (Hno f Hf). cbn in Ef. rewrite Ef, String.eqb_refl in Hno. done.
    + exists (length fs), (zero_flow name). split_and!; [done | by apply list_lookup_middle | done].
    + intros i f [Hf|[Hi Hf]]%lookup_app_Some; [by left|].
      apply list_lookup_singleton_Some in Hf as [Hi' <-]. right. split; [f_equal; lia | done].
Qed.

(** The flows are those some port names, still without ends. *)
Definition flows_used (fs : list flow) (ps : list port) : Prop :=
  forall i f, fs !! i = Some f ->
    (f = zero_flow (flow_name f) /\ is_flow_name (flow_name f) = true) /\
    exists p, p ∈ ps /\ flow_id p = Z.of_nat i.

Lemma parse_port_spec dir str fs p fs' ps :
  NoDup (flow_names fs) -> flows_used fs ps -> parse_port dir str fs = (p, fs') ->
  flows_le fs fs' /\ NoDup (flow_names fs') /\ port_matches fs' dir str p /\
  flows_used fs' (ps ++ [p]).
Proof.
  intros Hn Hu. unfold parse_port, port_matches. fold (is_flow_name str).
  assert (forall fs, flows_used fs ps -> flows_used fs (ps ++ [p])) as Hmore.
  { intros fs0 Hu0 i f Hf. destruct (Hu0 i f Hf) as (Hnm & q & Hq & E). split; [done|].
    exists q. split; [apply elem_of_app; by left | done]. }
  destruct (is_flow_name str) eqn:E.
  - destruct (lookup_or_add_flow fs str) as [id fs1] eqn:El. intros [= <- <-].
    destruct (lookup_or_add_flow_spec _ _ _ _ Hn El) as (Hle & Hn' & Hex & Hnew).
    split_and!; try done. intros i f Hf. destruct (Hnew i f Hf) as [Hf'|[-> ->]].
    + by apply (Hmore fs Hu).
    + split; [done|]. eexists. split; [apply elem_of_app; right; by left | done].
  - intros [= <- <-]. split_and!; try done; [apply flows_le_refl | by apply Hmore].
Qed.

(** ** The ports of a section *)

(** [ps] are the ports of the texts [i ..] of the section. *)
Definition ports_match (d : dictionary) (sec : string) (fs : list flow) (i : nat)
    (ps : list port) : Prop :=
  forall j p, ps !! j = Some p ->
    exists dir str, port_text d sec (i + j) = Some (dir, str) /\ str <> EmptyString /\
      port_matches fs dir str p.

Lemma ports_match_le d sec fs fs' i ps :
  flows_le fs fs' -> ports_match d sec fs i ps -> ports_match d sec fs' i ps.
Proof.
  intros Hle Hm j p Hp. destruct (Hm j p Hp) as (dir & str & Ht & Hne & Hpm).
  exists dir, str. split_and!; [done | done | by eapply port_matches_le].
Qed.

Lemma ports_match_snoc d sec fs i ps p dir str :
  ports_match d sec fs i ps -> port_text d sec (i + length ps) = Some (dir, str) ->
  str <> EmptyString -> port_matches fs dir str p -> ports_match d sec fs i (ps ++ [p]).
Proof.
  intros Hm Ht Hne Hp j q Hq. apply lookup_app_Some in Hq as [Hq|[Hj Hq]]; [by apply Hm|].
  apply list_lookup_singleton_Some in Hq as [Hj0 <-].
  replace (i + j) with (i + length ps) by lia. eauto.
Qed.

(** How parse_ports ends at port [k]: no text there, MAX_NR_PORT reached, or
    an empty text (the error). *)
Definition ports_end (d : dictionary) (sec : string) (k : nat) (rc : Z) : Prop :=
  (rc = 0%Z /\ (port_text d sec k = None \/ k = MAX_NR_PORT)) \/
  (rc = (-1)%Z /\ exists dir, port_text d sec k = Some (dir, EmptyString)).

Lemma parse_ports_loop_spec d sec todo i ps0 fs rc ps fs' all :
  NoDup (flow_names fs) -> flows_used fs (all ++ ps0) -> i = length ps0 ->
  ports_match d sec fs 0 ps0 -> i + todo = MAX_NR_PORT ->
  parse_ports_loop todo i d sec ps0 fs = (rc, ps, fs') ->
  flows_le fs fs' /\ NoDup (flow_names fs') /\ flows_used fs' (all ++ ps) /\
  ports_match d sec fs' 0 ps /\ length ps <= MAX_NR_PORT /\ ports_end d sec (length ps) rc.
Proof.
  revert i ps0 fs. induction todo as [|todo IH]; intros i ps0 fs Hn Hu -> Hm Hi; cbn [parse_ports_loop].
  - intros [= <- <- <-]. split_and!; try done; [apply flows_le_refl | lia|].
    left. split; [done | right; lia].
  - destruct (port_text d sec (length ps0)) as [[dir str]|] eqn:Et.
    + destruct (String.eqb_spec str EmptyString) as [->|Hne].
      * intros [= <- <- <-]. split_and!; try done; [apply flows_le_refl | lia|]. right. eauto.
      * destruct (parse_port dir str fs) as [p fs1] eqn:Ep. intros Hr.
        destruct (parse_port_spec _ _ _ _ _ _ Hn Hu Ep) as (Hle & Hn1 & Hpm & Hu1).
        rewrite <- app_assoc in Hu1.
        destruct (IH (length ps0 + 1) (ps0 ++ [p]) fs1) as (Hle2 & Hrest); try done.
        -- rewrite length_app. done.
        -- eapply ports_match_snoc; [by eapply ports_match_le | done | done | done].
        -- lia.
        -- split; [by eapply flows_le_trans | done].
    + intros [= <- <- <-]. split_and!; try done; [apply flows_le_refl | lia|]. left. auto.
Qed.

(** ** Plugins and sections *)

(** What a plugin holds of the section its title names. *)
Record plugin_matches (w : Z) (d : dictionary) (fs : list flow) (p : plugin) : Prop := {
  pm_library : library p = getstring d (title p) "library" /\ is_Some (library p);
  pm_label : label p = getstring d (title p) "label" /\ is_Some (label p);
  pm_purpose : purpose p = getstring d (title p) "purpose";
  pm_disable : cras_expr_expression_parse w (getstring d (title p) "disable")
               = Done (disable_expr p);
  pm_ports : ports_match d (title p) fs 0 (ports p);
  pm_bound : length (ports p) <= MAX_NR_PORT;
  pm_end : port_text d (title p) (length (ports p)) = None \/ length (ports p) = MAX_NR_PORT
}.

Definition all_ports (pls : list plugin) : list port := concat (map ports pls).

Lemma plugin_matches_le w d fs fs' p :
  flows_le fs fs' -> plugin_matches w d fs p -> plugin_matches w d fs' p.
Proof. intros Hle []. split; try done. by eapply ports_match_le. Qed.

Lemma parse_Done w s : exists e, cras_expr_expression_parse w s = Done e.
Proof.
  destruct s as [s|]; [|by eexists]. unfold cras_expr_expression_parse.
  destruct (proj1 (parse_enough w (parse_fuel s)) s) as (e & rest & -> & _).
  { unfold parse_fuel. lia. }
  by exists e.
Qed.

Lemma parse_plugin_section_spec w d sec fs all :
  NoDup (flow_names fs) -> flows_used fs all ->
  exists rc p fs', parse_plugin_section w d sec fs = Done (rc, p, fs') /\ title p = sec /\
    flows_le fs fs' /\ NoDup (flow_names fs') /\ flows_used fs' (all ++ ports p) /\
    ((rc <? 0)%Z = false -> plugin_matches w d fs' p).
Proof.
  intros Hn Hu. unfold parse_plugin_section.
  destruct (parse_Done w (getstring d sec "disable")) as [dis Hdis]. rewrite Hdis, bind_Done_eq.
  destruct (getstring d sec "library") as [lib|] eqn:El.
  2:{ eexists _, _, _. split; [done|]. cbn. rewrite app_nil_r.
      split_and!; try done. apply flows_le_refl. }
  destruct (getstring d sec "label") as [lab|] eqn:Eb.
  2:{ eexists _, _, _. split; [done|]. cbn. rewrite app_nil_r.
      split_and!; try done. apply flows_le_refl. }
  destruct (parse_ports d sec fs) as [[rc ps] fs'] eqn:Ep.
  destruct (parse_ports_loop_spec d sec MAX_NR_PORT 0 [] fs rc ps fs' all Hn)
    as (Hle & Hn' & Hu' & Hm & Hb & He); [by rewrite app_nil_r | done | | done | exact Ep|].
  { intros j p Hp. by rewrite lookup_nil in Hp. }
  eexists _, _, _. split; [done|]. split_and!; try done. cbn. intros Hrc.
  destruct He as [[-> He]|[-> _]]; [|done]. split; cbn; rewrite ?El, ?Eb; eauto.
Qed.

Lemma parse_sections_spec w d todo i pls fs :
  NoDup (flow_names fs) -> flows_used fs (all_ports pls) ->
  Forall (plugin_matches w d fs) pls ->
  map title pls = take i (sections d) -> i + todo = length (sections d) ->
  exists rc pls' fs', parse_sections w todo (Z.of_nat i) d pls fs = Done (rc, pls', fs') /\
    ((rc <? 0)%Z = false ->
       NoDup (flow_names fs') /\ flows_used fs' (all_ports pls') /\
       Forall (plugin_matches w d fs') pls' /\ map title pls' = sections d).
Proof.
  revert i pls fs. induction todo as [|todo IH]; intros i pls fs Hn Hu Hm Ht Hi; cbn [parse_sections].
  - eexists _, _, _. split; [done|]. intros _. split_and!; try done.
    rewrite Ht, take_ge; [done | lia].
  - rewrite iniparser_getsecname_spec.
    assert ((Z.of_nat i <? 0)%Z = false) as -> by (apply Z.ltb_ge; lia). rewrite Nat2Z.id.
    destruct (lookup_lt_is_Some_2 (sections d) i) as [sec Hsec]; [lia|]. rewrite Hsec.
    cbn [access mbind outcome_bind].
    destruct (parse_plugin_section_spec w d sec fs (all_ports pls) Hn Hu)
      as (rc & p & fs' & -> & Htp & Hle & Hn' & Hu' & Hp). cbn [mbind outcome_bind].
    destruct (rc <? 0)%Z; [eexists _, _, _; split; [reflexivity | discriminate]|].
    replace (Z.of_nat i + 1)%Z with (Z.of_nat (S i)) by lia.
    apply IH; [done | | | | lia].
    + unfold all_ports. rewrite map_app, concat_app. cbn. by rewrite app_nil_r.
    + apply Forall_app. split; [|by constructor; [apply Hp|]].
      revert Hm. apply List.Forall_impl. intros q Hq. by eapply plugin_matches_le.
    + rewrite map_app, Ht. cbn. rewrite Htp. symmetry. by apply take_S_r.
Qed.

(** ** The ends of the flows *)

(** The ports with their places, in the order of the two loops. *)
Fixpoint place_ports (i j : nat) (ps : list port) : list (nat * nat * port) :=
  match ps with
  | [] => []
  | p :: ps => (i, j, p) :: place_ports i (j + 1) ps
  end.

Fixpoint place (i : nat) (pls : list plugin) : list (nat * nat * port) :=
  match pls with
  | [] => []
  | pl :: pls => place_ports i 0 (ports pl) ++ place (i + 1) pls
  end.

Definition on_flow (k : nat) (x : nat * nat * port) : bool := (flow_id x.2 =? Z.of_nat k)%Z.

Definition on_end (dir : port_direction) (k : nat) (x : nat * nat * port) : bool :=
  bool_decide (direction x.2 = dir) && on_flow k x.

(** The last place of the list with a property. *)
Definition last_such (q : nat * nat * port -> bool) (l : list (nat * nat * port))
    : option (nat * nat * port) := list.last (List.filter q l).

Lemma last_such_cons q x l :
  last_such q (x :: l) =
  match last_such q l with Some y => Some y | None => if q x then Some x else None end.
Proof.
  unfold last_such. cbn. destruct (q x); [|by destruct (list.last _)].
  rewrite last_cons. by destruct (list.last _).
Qed.

(** An end of a flow: the plugin and port of a place, or what was there. *)
Definition end_of (x : option (nat * nat * port)) (old : option nat * nat) : option nat * nat :=
  match x with Some (i, j, _) => (Some i, j) | None => old end.

Definition filled (l : list (nat * nat * port)) (k : nat) (f f' : flow) : Prop :=
  flow_name f' = flow_name f /\
  (from f', from_port f') = end_of (last_such (on_end PORT_OUTPUT k) l) (from f, from_port f) /\
  (to f', to_port f') = end_of (last_such (on_end PORT_INPUT k) l) (to f, to_port f) /\
  flow_type f' = match last_such (on_flow k) l with
                 | Some (_, _, p) => type p | None => flow_type f end.

Fixpoint fill_all (l : list (nat * nat * port)) (fs : list flow) : outcome (list flow) :=
  match l with
  | [] => Done fs
  | (i, j, p) :: l => fs ← fill_port i j p fs; fill_all l fs
  end.

Lemma fill_all_app l1 l2 fs :
  fill_all (l1 ++ l2) fs = (fs ← fill_all l1 fs; fill_all l2 fs).
Proof.
  revert fs. induction l1 as [|[[i j] p] l1 IH]; intros fs; cbn; [done|].
  destruct (fill_port i j p fs); cbn; [apply IH | done | done].
Qed.

Lemma fill_ports_all i j ps fs : fill_ports i j ps fs = fill_all (place_ports i j ps) fs.
Proof.
  revert j fs. induction ps as [|p ps IH]; intros j fs; cbn; [done|].
  destruct (fill_port i j p fs); cbn; [apply IH | done | done].
Qed.

Lemma fill_plugins_all i pls fs : fill_plugins i pls fs = fill_all (place i pls) fs.
Proof.
  revert i fs. induction pls as [|pl pls IH]; intros i fs; cbn; [done|].
  rewrite fill_all_app, fill_ports_all.
  destruct (fill_all (place_ports i 0 (ports pl)) fs); cbn; [apply IH | done | done].
Qed.

(** The port names no flow, or one of the array. *)
Definition port_id_ok (n : nat) (p : port) : Prop :=
  flow_id p = INVALID_FLOW_ID \/ exists k, flow_id p = Z.of_nat k /\ k < n.

Lemma filled_other i j p k f : on_flow k (i, j, p) = false -> filled [(i, j, p)] k f f.
Proof.
  intros Hno. unfold filled, last_such, on_end. cbn [List.filter].
  rewrite Hno, !andb_false_r. done.
Qed.

Lemma fill_port_spec i j p fs :
  port_id_ok (length fs) p ->
  exists fs', fill_port i j p fs = Done fs' /\ length fs' = length fs /\
    forall k f, fs !! k = Some f -> exists f', fs' !! k = Some f' /\ filled [(i, j, p)] k f f'.
Proof.
  unfold fill_port. intros [E|(k0 & E & Hk)]; rewrite E.
  - rewrite Z.eqb_refl. exists fs. split_and!; try done. intros k f Hf. exists f.
    split; [done|]. apply filled_other, Z.eqb_neq. cbn. rewrite E. unfold INVALID_FLOW_ID. lia.
  - assert ((Z.of_nat k0 =? INVALID_FLOW_ID)%Z = false) as ->
      by (apply Z.eqb_neq; unfold INVALID_FLOW_ID; lia).
    unfold alter_flow. assert ((0 <=? Z.of_nat k0) && (Z.of_nat k0 <? Z.of_nat (length fs)) = true)%Z
      as -> by (apply andb_true_iff; split; [apply Z.leb_le | apply Z.ltb_lt]; lia).
    rewrite Nat2Z.id. eexists. split; [done|]. split; [apply length_alter|].
    intros k f Hf. destruct (decide (k0 = k)) as [->|Hne].
    + rewrite list_lookup_alter_eq, Hf. cbn. eexists. split; [done|].
      unfold filled, last_such, on_end, on_flow. cbn. rewrite E, Z.eqb_refl.
      by destruct (direction p).
    + rewrite list_lookup_alter_ne by congruence. exists f. split; [done|].
      apply filled_other, Z.eqb_neq. cbn. lia.
Qed.

Lemma filled_cons x l k f f1 f2 :
  filled [x] k f f1 -> filled l k f1 f2 -> filled (x :: l) k f f2.
Proof.
  unfold filled. intros (H1 & H2 & H3 & H4) (G1 & G2 & G3 & G4).
  rewrite !last_such_cons in *. cbn [last_such List.filter list.last] in *.
  change (last_such ?q []) with (@None (nat * nat * port)) in *. cbn iota in *.
  rewrite G1, G2, G3, G4. split_and!; [done | | |].
  - rewrite H2. by destruct (last_such (on_end PORT_OUTPUT k) l) as [[[? ?] ?]|].
  - rewrite H3. by destruct (last_such (on_end PORT_INPUT k) l) as [[[? ?] ?]|].
  - rewrite H4. by destruct (last_such (on_flow k) l) as [[[? ?] ?]|].
Qed.

Lemma fill_all_spec l fs :
  Forall (fun x => port_id_ok (length fs) x.2) l ->
  exists fs', fill_all l fs = Done fs' /\ length fs' = length fs /\
    forall k f, fs !! k = Some f -> exists f', fs' !! k = Some f' /\ filled l k f f'.
Proof.
  revert fs. induction l as [|[[i j] p] l IH]; intros fs Hl; cbn [fill_all].
  - exists fs. split_and!; try done. intros k f Hf. by exists f.
  - apply list.Forall_cons in Hl as [Hp Hl].
    destruct (fill_port_spec i j p fs Hp) as (fs1 & -> & Hlen & H1). cbn.
    rewrite <- Hlen in Hl. destruct (IH fs1 Hl) as (fs2 & -> & Hlen2 & H2).
    exists fs2. split_and!; [done | congruence|]. intros k f Hf.
    destruct (H1 k f Hf) as (f1 & Hf1 & F1). destruct (H2 k f1 Hf1) as (f2 & Hf2 & F2).
    exists f2. split; [done | by eapply filled_cons].
Qed.

(** ** The invariant of the ini structure *)

Definition port_ok (fs : list flow) (p : port) : Prop :=
  (flow_id p = INVALID_FLOW_ID /\ type p = PORT_CONTROL) \/
  exists k f, flow_id p = Z.of_nat k /\ fs !! k = Some f /\ type p = name_type (flow_name f).

Record ini_wf (n : ini) : Prop := {
  wf_plugins : Forall (fun pl => is_Some (library pl) /\ is_Some (label pl) /\
                                 length (ports pl) <= MAX_NR_PORT /\
                                 Forall (port_ok (flows n)) (ports pl)) (plugins n);
  wf_names : NoDup (flow_names (flows n));
  wf_ends : forall k f, flows n !! k = Some f ->
    let l := place 0 (plugins n) in
    flow_type f = name_type (flow_name f) /\
    (from f, from_port f) = end_of (last_such (on_end PORT_OUTPUT k) l) (None, 0) /\
    (to f, to_port f) = end_of (last_such (on_end PORT_INPUT k) l) (None, 0) /\
    (is_Some (from f) \/ is_Some (to f))
}.

Lemma elem_of_place_ports i j0 ps i' j p :
  (i', j, p) ∈ place_ports i j0 ps <-> i' = i /\ exists b, j = j0 + b /\ ps !! b = Some p.
Proof.
  revert j0. induction ps as [|q ps IH]; intros j0; cbn.
  { split; [intros H1; inversion H1 | intros (_ & b & _ & Hb); done]. }
  rewrite elem_of_cons, IH. split.
  - intros [[= -> -> ->]|(-> & b & -> & Hb)]; split; try done.
    + exists 0. split; [lia | done].
    + exists (S b). split; [lia | done].
  - intros (-> & [|b] & -> & Hb); cbn in Hb.
    + left. injection Hb as ->. f_equal. f_equal. lia.
    + right. split; [done|]. exists b. split; [lia | done].
Qed.

Lemma elem_of_place i0 pls i j p :
  (i, j, p) ∈ place i0 pls <->
  exists a pl, i = i0 + a /\ pls !! a = Some pl /\ ports pl !! j = Some p.
Proof.
  revert i0. induction pls as [|pl pls IH]; intros i0; cbn.
  { split; [intros H1; inversion H1 | intros (a & pl & _ & Ha & _); done]. }
  rewrite elem_of_app, elem_of_place_ports, IH. split.
  - intros [(-> & b & -> & Hb)|(a & pl' & -> & Ha & Hj)].
    + exists 0, pl. split_and!; [lia | done | done].
    + exists (S a), pl'. split_and!; [lia | done | done].
  - intros ([|a] & pl' & -> & Ha & Hj); cbn in Ha.
    + left. injection Ha as <-. split; [lia|]. exists j. split; [lia | done].
    + right. exists a, pl'. split_and!; [lia | done | done].
Qed.

Lemma last_such_Some q l x : last_such q l = Some x -> x ∈ l /\ q x = true.
Proof.
  intros H1. apply last_Some_elem_of in H1. apply list_elem_of_In, filter_In in H1 as [H1 H2].
  split; [by apply list_elem_of_In | done].
Qed.

Lemma last_such_is_Some q l x : x ∈ l -> q x = true -> is_Some (last_such q l).
Proof.
  intros Hx Hq. unfold last_such. destruct (list.last _) eqn:E; [done|].
  apply last_None in E. assert (x ∈ List.filter q l) as Hin.
  { apply list_elem_of_In, filter_In. split; [by apply list_elem_of_In | done]. }
  rewrite E in Hin. inversion Hin.
Qed.

Lemma port_matches_ok fs dir str p : port_matches fs dir str p -> port_ok fs p.
Proof.
  intros [_ Hm]. destruct (is_flow_name str).
  - destruct Hm as (Ht & _ & i & f & Hid & Hf & Hn). right. exists i, f. by rewrite Hn.
  - left. tauto.
Qed.

Lemma port_ok_id fs p : port_ok fs p -> port_id_ok (length fs) p.
Proof.
  intros [[H1 _]|(k & f & Hk & Hf & _)]; [by left|]. right. exists k.
  split; [done | by eapply lookup_lt_Some].
Qed.

Lemma plugin_matches_ports w d fs pl : plugin_matches w d fs pl -> Forall (port_ok fs) (ports pl).
Proof.
  intros M. apply Forall_lookup_2. intros j p Hp.
  destruct (pm_ports _ _ _ _ M j p Hp) as (dir & str & _ & _ & Hm).
  by eapply port_matches_ok.
Qed.

Lemma elem_of_all_ports p pls : p ∈ all_ports pls -> exists i j, (i, j, p) ∈ place 0 pls.
Proof.
  unfold all_ports. rewrite list_elem_of_In, in_concat. intros (l & Hl & Hp).
  apply in_map_iff in Hl as (pl & <- & Hpl).
  apply list_elem_of_In, list_elem_of_lookup in Hpl as [i Hi].
  apply list_elem_of_In, list_elem_of_lookup in Hp as [j Hj].
  exists i, j. apply elem_of_place. by exists i, pl.
Qed.

Lemma flow_names_filled l fs fs' :
  length fs' = length fs ->
  (forall k f, fs !! k = Some f -> exists f', fs' !! k = Some f' /\ filled l k f f') ->
  flow_names fs' = flow_names fs.
Proof.
  intros Hlen Hf. apply list_eq. intros k. unfold flow_names. rewrite !list_lookup_fmap.
  destruct (fs !! k) as [f|] eqn:E.
  - destruct (Hf k f E) as (f' & -> & Hn & _). cbn. by rewrite Hn.
  - apply lookup_ge_None in E. rewrite (lookup_ge_None_2 fs' k) by lia. done.
Qed.

(** A flow of an ini structure that is filled from ports that fit. *)
Lemma filled_ends pls fs k f0 f' :
  flows_used fs (all_ports pls) ->
  Forall (fun pl => Forall (port_ok fs) (ports pl)) pls ->
  fs !! k = Some f0 ->
  filled (place 0 pls) k f0 f' ->
  flow_type f' = name_type (flow_name f') /\ (is_Some (from f') \/ is_Some (to f')).
Proof.
  intros Hu Hp Hk (Hn & Hfr & Ht & Hty).
  destruct (Hu k f0 Hk) as (Hnm & p & Hpin & Hid).
  apply elem_of_all_ports in Hpin as (i & j & Hpl).
  destruct (last_such_is_Some (on_flow k) _ _ Hpl) as [[[i' j'] q] Hq].
  { unfold on_flow. cbn. rewrite Hid. apply Z.eqb_refl. }
  split.
  - rewrite Hty, Hq. apply last_such_Some in Hq as [Hq1 Hq2].
    apply elem_of_place in Hq1 as (a & pl & -> & Ha & Hj).
    rewrite Forall_forall in Hp. specialize (Hp pl (proj1 (list_elem_of_In _ _) (list_elem_of_lookup_2 _ _ _ Ha))).
    pose proof (Forall_lookup_1 _ _ _ _ Hp Hj) as Hok.
    unfold on_flow in Hq2. cbn in Hq2. apply Z.eqb_eq in Hq2.
    destruct Hok as [[E _]|(k' & f & E & Hf & Ety)].
    + rewrite E in Hq2. unfold INVALID_FLOW_ID in Hq2. lia.
    + rewrite Hq2 in E. apply Nat2Z.inj in E as <-. rewrite Hk in Hf. injection Hf as <-.
      by rewrite Ety, Hn.
  - destruct (direction p) eqn:Ed.
    + right. destruct (last_such_is_Some (on_end PORT_INPUT k) _ _ Hpl) as [[[? ?] ?] Hl].
      { unfold on_end, on_flow. cbn. by rewrite Ed, Hid, Z.eqb_refl. }
      rewrite Hl in Ht. injection Ht as -> _. done.
    + left. destruct (last_such_is_Some (on_end PORT_OUTPUT k) _ _ Hpl) as [[[? ?] ?] Hl].
      { unfold on_end, on_flow. cbn. by rewrite Ed, Hid, Z.eqb_refl. }
      rewrite Hl in Hfr. injection Hfr as -> _. done.
Qed.

Lemma fill_flow_info_wf w d pls fs :
  NoDup (flow_names fs) -> flows_used fs (all_ports pls) ->
  Forall (plugin_matches w d fs) pls ->
  exists n, fill_flow_info (Ini (Some d) pls fs) = Done n /\ ini_wf n /\ plugins n = pls /\
    dict n = Some d /\ Forall (plugin_matches w d (flows n)) pls.
Proof.
  intros Hn Hu Hm.
  assert (Forall (fun pl => Forall (port_ok fs) (ports pl)) pls) as Hok.
  { revert Hm. apply List.Forall_impl. intros pl. apply plugin_matches_ports. }
  destruct (fill_all_spec (place 0 pls) fs) as (fs' & E & Hlen & Hf).
  { apply Forall_lookup_2. intros x [[i j] p] Hx. apply list_elem_of_lookup_2, elem_of_place in Hx
      as (a & pl & _ & Ha & Hj). cbn.
    pose proof (Forall_lookup_1 _ _ _ _ Hok Ha) as Hpl. cbn in Hpl.
    eapply port_ok_id, (Forall_lookup_1 _ _ _ _ Hpl Hj). }
  unfold fill_flow_info. cbn [plugins flows dict]. rewrite fill_plugins_all, E, bind_Done_eq.
  exists (Ini (Some d) pls fs'). cbn [plugins flows dict].
  assert (flows_le fs fs') as Hle.
  { intros k f Hk. destruct (Hf k f Hk) as (f' & Hf' & Hnm & _). eauto. }
  assert (Forall (plugin_matches w d fs') pls) as Hm'.
  { revert Hm. apply List.Forall_impl. intros pl. by apply plugin_matches_le. }
  split_and!; try done. split; cbn [plugins flows].
  - revert Hm'. apply List.Forall_impl. intros pl M.
    split_and!; [apply (pm_library _ _ _ _ M) | apply (pm_label _ _ _ _ M) |
                 apply (pm_bound _ _ _ _ M) | by eapply plugin_matches_ports].
  - by rewrite (flow_names_filled _ _ _ Hlen Hf).
  - intros k f' Hk'. destruct (lookup_lt_is_Some_2 fs k) as [f Hk].
    { rewrite <- Hlen. by eapply lookup_lt_Some. }
    destruct (Hf k f Hk) as (f1 & Hf1 & F). rewrite Hk' in Hf1. injection Hf1 as <-.
    destruct (filled_ends pls fs k f f' Hu Hok Hk F) as [Ht He].
    destruct (Hu k f Hk) as ((Hz & _) & _). destruct F as (_ & Hfr & Hto & _).
    rewrite Hz in Hfr, Hto. by split_and!.
Qed.

Section Create.
Context (alloc : Z -> bool) (w : Z).
Hypothesis A : forall b, alloc b = true.

(** How cras_dsp_ini_create ends, with the ini structure it returns. *)
Lemma ini_create_spec file :
  match cras_dsp_ini_create alloc w file with
  | Done (Some n) =>
      exists d, dict n = Some d /\ ini_wf n /\ map title (plugins n) = sections d /\
        Forall (plugin_matches w d (flows n)) (plugins n)
  | Done None => True
  | Fault => iniparser_load alloc file = Fault
  | Timeout => False
  end.
Proof.
  unfold cras_dsp_ini_create. pose proof (load_result alloc A file) as HL.
  destruct (iniparser_load alloc file) as [[obj|]| |]; [|done|done|done].
  destruct HL as (d & -> & W & _). rewrite bind_Done_eq, iniparser_getnsec_spec, Nat2Z.id.
  destruct (parse_sections_spec w d (length (sections d)) 0 [] [])
    as (rc & pls & fs & E & Hs); [constructor | | constructor | done | done|].
  { intros i f Hf. by rewrite lookup_nil in Hf. }
  change (Z.of_nat 0) with 0%Z in E. rewrite E, bind_Done_eq. destruct (rc <? 0)%Z.
  - unfold cras_dsp_ini_free. cbn [dict]. unfold iniparser_freedict, dictionary_del. done.
  - destruct (Hs eq_refl) as (Hn & Hu & Hm & Ht).
    destruct (fill_flow_info_wf w d pls fs Hn Hu Hm) as (n & -> & Hw & Hp & Hd & Hm').
    rewrite bind_Done_eq. exists d. rewrite Hp. by split_and!.
Qed.
End Create.
End DspGraph.
