(* ===== verification/DspConnect.v ===== *)
(** * DspConnect: what cras_dsp_ini_create returns

    The properties of the ini structure for a whole file, and a sample graph
    used as a concrete instance. *)

From S2P Require Import Prelude CString Float32 Dictionary IniParser Expr DspIni DspGraph.

Section Connect.
Context `{FloatLib}.

(** Reading any file (allocations succeeding): cras_dsp_ini_create ends
    and is undefined only if iniparser_load is; a structure it returns
    satisfies the invariant [ini_wf] - every plugin has a library and a label
    and at most 128 ports, a port names no flow or one of the array and has
    its type, names of flows are distinct, the ends of a flow are the last
    output and the last input port that name it - and has one plugin for each
    section of the dictionary, in order, holding exactly its library, label,
    purpose, parsed disable expression and ports. *)
Theorem dsp_ini_well_formed (alloc : Z -> bool) (w : Z) (file : option string)
    (A : forall b, alloc b = true) :
  match cras_dsp_ini_create alloc w file with
  | Done (Some n) =>
      exists d, dict n = Some d /\ ini_wf n /\ map title (plugins n) = sections d /\
        Forall (plugin_matches w d (flows n)) (plugins n)
  | Done None => True
  | Fault => iniparser_load alloc file = Fault
  | Timeout => False
  end.
Proof. exact (ini_create_spec alloc w A file). Qed.

(** The last place of a kind is the only one there is. *)
Lemma last_such_unique q l x :
  x ∈ l -> q x = true -> (forall y, y ∈ l -> q y = true -> y = x) -> last_such q l = Some x.
Proof.
  intros Hx Hq Hu. destruct (last_such_is_Some q l x Hx Hq) as [y Hy].
  rewrite Hy. apply last_such_Some in Hy as [Hy1 Hy2]. f_equal. by apply Hu.
Qed.

(** The port of a plugin that has a given text. *)
Lemma text_port w d fs pl i dir v :
  plugin_matches w d fs pl -> i < length (ports pl) -> port_text d (title pl) i = Some (dir, v) ->
  exists p, ports pl !! i = Some p /\ port_matches fs dir v p.
Proof.
  intros M Hi Ht. destruct (lookup_lt_is_Some_2 (ports pl) i Hi) as [p Hp]. exists p.
  split; [done|]. destruct (pm_ports _ _ _ _ M i p Hp) as (dir' & str & Ht' & _ & Hm).
  cbn in Ht'. rewrite Ht in Ht'. by injection Ht' as <- <-.
Qed.

Lemma flow_id_inj fs k k' f f' :
  NoDup (flow_names fs) -> fs !! k = Some f -> fs !! k' = Some f' -> flow_name f = flow_name f' ->
  k = k'.
Proof.
  intros Hn Hf Hf' E. apply (NoDup_lookup (flow_names fs) k k' (flow_name f) Hn).
  - unfold flow_names. by rewrite list_lookup_fmap, Hf.
  - unfold flow_names. by rewrite list_lookup_fmap, Hf', E.
Qed.

(** The place of the only port of direction [dir] with text [v]. *)
Lemma text_end w d n dir v a i pa k f :
  ini_wf n -> Forall (plugin_matches w d (flows n)) (plugins n) ->
  plugins n !! a = Some pa -> i < length (ports pa) ->
  port_text d (title pa) i = Some (dir, v) -> is_flow_name v = true ->
  flows n !! k = Some f -> flow_name f = v ->
  (forall a' i' pa', plugins n !! a' = Some pa' -> i' < length (ports pa') ->
     port_text d (title pa') i' = Some (dir, v) -> a' = a /\ i' = i) ->
  exists p, ports pa !! i = Some p /\ flow_id p = Z.of_nat k /\
    last_such (on_end dir k) (place 0 (plugins n)) = Some (a, i, p).
Proof.
  intros W M Ha Hi Ht Hv Hk Hnm Hu.
  pose proof (Forall_lookup_1 _ _ _ _ M Ha) as Mp. cbn in Mp.
  destruct (text_port _ _ _ _ _ _ _ Mp Hi Ht) as (p & Hp & Hd & Hm). rewrite Hv in Hm.
  destruct Hm as (Hty & _ & k0 & f0 & Hid & Hf0 & Hn0).
  assert (k0 = k) as -> by (eapply flow_id_inj; [apply W | done | done | congruence]).
  exists p. split_and!; [done | done|]. apply last_such_unique.
  - apply elem_of_place. by exists a, pa.
  - unfold on_end, on_flow. cbn. rewrite Hid, Z.eqb_refl, bool_decide_true by done. done.
  - intros [[a' i'] q] Hq Hon. apply elem_of_place in Hq as (a1 & pl & E & Ha' & Hi').
    cbn in E. subst a1. unfold on_end, on_flow in Hon. cbn in Hon.
    apply andb_true_iff in Hon as [Hdq Hidq]. apply bool_decide_eq_true in Hdq.
    apply Z.eqb_eq in Hidq. pose proof (Forall_lookup_1 _ _ _ _ M Ha') as Mq. cbn in Mq.
    destruct (pm_ports _ _ _ _ Mq i' q Hi') as (dir' & str & Ht' & _ & Hd' & Hm'). cbn in Ht'.
    assert (dir' = dir) as -> by congruence.
    destruct (is_flow_name str).
    + destruct Hm' as (_ & _ & k1 & f1 & Hid1 & Hf1 & Hn1). rewrite Hidq in Hid1.
      apply Nat2Z.inj in Hid1 as <-. rewrite Hk in Hf1. injection Hf1 as <-.
      rewrite <- Hn1, Hnm in Ht'.
      destruct (Hu a' i' pl Ha' (lookup_lt_Some _ _ _ Hi') Ht') as [-> ->].
      rewrite Ha in Ha'. injection Ha' as <-. rewrite Hp in Hi'. by injection Hi' as <-.
    + destruct Hm' as (_ & E & _). rewrite Hidq in E. unfold INVALID_FLOW_ID in E. lia.
Qed.

Lemma connects alloc w file n d a i pa b j pb v :
  (forall b, alloc b = true) -> cras_dsp_ini_create alloc w file = Done (Some n) ->
  dict n = Some d ->
  plugins n !! a = Some pa -> i < length (ports pa) ->
  plugins n !! b = Some pb -> j < length (ports pb) ->
  is_flow_name v = true ->
  port_text d (title pa) i = Some (PORT_OUTPUT, v) ->
  port_text d (title pb) j = Some (PORT_INPUT, v) ->
  (forall a' i' pa', plugins n !! a' = Some pa' -> i' < length (ports pa') ->
     port_text d (title pa') i' = Some (PORT_OUTPUT, v) -> a' = a /\ i' = i) ->
  (forall b' j' pb', plugins n !! b' = Some pb' -> j' < length (ports pb') ->
     port_text d (title pb') j' = Some (PORT_INPUT, v) -> b' = b /\ j' = j) ->
  exists k f, flows n !! k = Some f /\
    f = Flow (name_type v) v (Some a) (Some b) i j /\
    (exists p, ports pa !! i = Some p /\ flow_id p = Z.of_nat k) /\
    (exists p, ports pb !! j = Some p /\ flow_id p = Z.of_nat k).
Proof.
  intros A Hc Hd Ha Hi Hb Hj Hv Ho Hin Huo Hui.
  pose proof (ini_create_spec alloc w A file) as S. rewrite Hc in S.
  destruct S as (d' & Hd' & W & _ & M). rewrite Hd in Hd'. injection Hd' as <-.
  pose proof (Forall_lookup_1 _ _ _ _ M Ha) as Mp. cbn in Mp.
  destruct (text_port _ _ _ _ _ _ _ Mp Hi Ho) as (p0 & Hp0 & _ & Hm). rewrite Hv in Hm.
  destruct Hm as (_ & _ & k & f & Hid & Hf & Hnm). exists k, f.
  destruct (text_end w d n PORT_OUTPUT v a i pa k f W M Ha Hi Ho Hv Hf Hnm Huo)
    as (p & Hp & Hpid & Hl).
  destruct (text_end w d n PORT_INPUT v b j pb k f W M Hb Hj Hin Hv Hf Hnm Hui)
    as (q & Hq & Hqid & Hlq).
  destruct (wf_ends n W k f Hf) as (Hty & Hfr & Hto & _). cbn zeta in *.
  rewrite Hl in Hfr. rewrite Hlq in Hto. cbn in Hfr, Hto.
  split_and!; [done | | by exists p | by exists q].
  destruct f. cbn in *. congruence.
Qed.

(** C24.  Giving the same value to two ports connects them, as the format
    promises: in a structure read from a file, if port i of plugin a is the
    only output port and port j of plugin b the only input port whose value
    is the flow name v ("{...}" or "<...>"), then there is a flow of that name
    and type from port i of a to port j of b, and both ports name it. *)
Theorem dsp_ini_connects (alloc : Z -> bool) (w : Z) (file : option string) (n : ini)
    (d : dictionary) (a i : nat) (pa : plugin) (b j : nat) (pb : plugin) (v : string)
    (A : forall b, alloc b = true) (Hc : cras_dsp_ini_create alloc w file = Done (Some n))
    (Hd : dict n = Some d)
    (Ha : plugins n !! a = Some pa) (Hi : i < length (ports pa))
    (Hb : plugins n !! b = Some pb) (Hj : j < length (ports pb))
    (Hv : is_flow_name v = true)
    (Ho : port_text d (title pa) i = Some (PORT_OUTPUT, v))
    (Hin : port_text d (title pb) j = Some (PORT_INPUT, v))
    (Huo : forall a' i' pa', plugins n !! a' = Some pa' -> i' < length (ports pa') ->
       port_text d (title pa') i' = Some (PORT_OUTPUT, v) -> a' = a /\ i' = i)
    (Hui : forall b' j' pb', plugins n !! b' = Some pb' -> j' < length (ports pb') ->
       port_text d (title pb') j' = Some (PORT_INPUT, v) -> b' = b /\ j' = j) :
  exists k f, flows n !! k = Some f /\
    f = Flow (name_type v) v (Some a) (Some b) i j /\
    (exists p, ports pa !! i = Some p /\ flow_id p = Z.of_nat k) /\
    (exists p, ports pb !! j = Some p /\ flow_id p = Z.of_nat k).
Proof. exact (connects alloc w file n d a i pa b j pb v A Hc Hd Ha Hi Hb Hj Hv Ho Hin Huo Hui). Qed.
End Connect.

(** ** A sample graph: source -> eq -> sink, with a control *)

(** A strtof for the sample: the integer the text starts with. *)
#[export] Instance integer_strtof : FloatLib :=
  {| strtof s := f_of_Z (strtol 64 10 s).1 |}.

Definition lines (l : list string) : string := fold_right (fun s r => s +:+ nl +:+ r) EmptyString l.

Definition sample_ini_file : string := lines
  ["[src]"; "library=builtin"; "label=source"; "purpose=playback"; "output_0={a}";
   "[eq]"; "library=builtin"; "label=eq"; "input_0={a}"; "output_1={b}"; "input_2=15";
   "disable=(not enable)";
   "[snk]"; "library=builtin"; "label=sink"; "purpose=playback"; "input_0={b}"]%string.

Definition sample_ini : ini :=
  match cras_dsp_ini_create (fun _ => true) 64 (Some sample_ini_file) with
  | Done (Some n) => n
  | _ => Ini None [] []
  end.

Lemma dsp_ini_well_formed_witness :
  cras_dsp_ini_create (fun _ => true) 64 (Some sample_ini_file) = Done (Some sample_ini) /\
  ini_wf sample_ini /\ length (plugins sample_ini) = 3.
Proof.
  pose proof (dsp_ini_well_formed (fun _ => true) 64 (Some sample_ini_file) (fun _ => eq_refl)) as S.
  assert (cras_dsp_ini_create (fun _ => true) 64 (Some sample_ini_file)
          = Done (Some sample_ini)) as E by (vm_compute; reflexivity).
  rewrite E in S. destruct S as (d & _ & W & _).
  split; [exact E|]. split; [exact W | vm_compute; reflexivity].
Defined.

(** The dictionary of the sample, and the check that a place is the only one
    with a text. *)
Definition sample_dictionary : dictionary :=
  default (Dict 0 0 [] [] []) (dict sample_ini).

Definition only_place (n : ini) (d : dictionary) (dir : port_direction) (v : string)
    (a i : nat) : bool :=
  forallb (fun x : nat * nat * port =>
    negb (bool_decide (port_text d (default EmptyString (title <$> plugins n !! x.1.1)) x.1.2
                       = Some (dir, v)))
    || ((x.1.1 =? a) && (x.1.2 =? i))) (place 0 (plugins n)).

Lemma only_place_spec n d dir v a i :
  only_place n d dir v a i = true ->
  forall a' i' pa', plugins n !! a' = Some pa' -> i' < length (ports pa') ->
    port_text d (title pa') i' = Some (dir, v) -> a' = a /\ i' = i.
Proof.
  intros Ho a' i' pa' Ha Hi Ht. destruct (lookup_lt_is_Some_2 (ports pa') i' Hi) as [p Hp].
  assert ((a', i', p) ∈ place 0 (plugins n)) as Hin by (apply elem_of_place; by exists a', pa').
  unfold only_place in Ho. rewrite forallb_forall in Ho.
  specialize (Ho _ (proj1 (list_elem_of_In _ _) Hin)). cbn in Ho. rewrite Ha in Ho. cbn in Ho.
  rewrite bool_decide_true in Ho by done. cbn in Ho.
  apply andb_true_iff in Ho as [H1 H2]. by apply Nat.eqb_eq in H1, H2.
Qed.

Lemma dsp_ini_connects_witness :
  exists k f, flows sample_ini !! k = Some f /\ f = Flow PORT_AUDIO "{b}" (Some 1) (Some 2) 1 0.
Proof.
  destruct (plugins sample_ini !! 1) as [pa|] eqn:Ea; [|vm_compute in Ea; discriminate].
  destruct (plugins sample_ini !! 2) as [pb|] eqn:Eb; [|vm_compute in Eb; discriminate].
  destruct (dsp_ini_connects (fun _ => true) 64 (Some sample_ini_file) sample_ini
              sample_dictionary 1 1 pa 2 0 pb "{b}") as (k & f & Hk & Hf & _).
  - done.
  - vm_compute; reflexivity.
  - vm_compute; reflexivity.
  - exact Ea.
  - vm_compute in Ea; injection Ea as <-; vm_compute; lia.
  - exact Eb.
  - vm_compute in Eb; injection Eb as <-; vm_compute; lia.
  - reflexivity.
  - vm_compute in Ea; injection Ea as <-; vm_compute; reflexivity.
  - vm_compute in Eb; injection Eb as <-; vm_compute; reflexivity.
  - apply only_place_spec; vm_compute; reflexivity.
  - apply only_place_spec; vm_compute; reflexivity.
  - exists k, f; split; [exact Hk | exact Hf].
Defined.
