(* ===== verification/DspUtil.v ===== *)
(** * DspUtil: interleaving and conversion, audio/hal/dsp/dsp_util.c

    The portable code of dsp_util_deinterleave and dsp_util_interleave (the
    NEON and SSE versions of the stereo case are assembly and not modelled).
    [bufs] is the memory of the float buffers; a [float *] points to the start
    of one of them, [None] is NULL. *)

From S2P Require Import Prelude Float32.

Definition sample_to_float (s : Z) : float := fdiv (f_of_Z s) (f_of_Z 32768).

(** The conversion of one sample back to int16_t. *)
Definition float_to_sample (x : float) : outcome Z :=
  let f := fmul x (f_of_Z 32768) in
  if fgt f (f_of_Z 32767) then Done 32767%Z
  else if flt f (f_of_Z (-32768)) then Done (-32768)%Z
  else
    i ← access (f_trunc (if fgt f (f_of_Z 0) then fadd f f_half else fsub f f_half));
    Done (swrap 16 i).

(** A store of [x] at index [i] of buffer [b]. *)
Definition store_float (bufs : list (list float)) (b i : nat) (x : float)
    : outcome (list (list float)) :=
  buf ← access (bufs !! b);
  if i <? length buf then Done (<[b := <[i := x]> buf]> bufs) else Fault.

Definition load_float (bufs : list (list float)) (b i : nat) : outcome float :=
  buf ← access (bufs !! b); access (buf !! i).

(** The inner loop over the channels, frame [i], from position [pos] of the
    interleaved samples. *)
Fixpoint deinterleave_frame (input : list Z) (output : list (option nat)) (i pos : nat)
    (bufs : list (list float)) : outcome (list (list float)) :=
  match output with
  | [] => Done bufs
  | o :: output =>
      s ← access (input !! pos);
      b ← access o;
      bufs ← store_float bufs b i (sample_to_float s);
      deinterleave_frame input output i (pos + 1) bufs
  end.

Fixpoint deinterleave_frames (todo i : nat) (input : list Z) (output : list (option nat))
    (pos : nat) (bufs : list (list float)) : outcome (list (list float)) :=
  match todo with
  | 0 => Done bufs
  | S todo =>
      bufs ← deinterleave_frame input output i pos bufs;
      deinterleave_frames todo (i + 1) input output (pos + length output) bufs
  end.

(** [input] points to element [pos] of the samples. *)
Definition dsp_util_deinterleave (input : list Z) (pos : nat) (output : list (option nat))
    (frames : nat) (bufs : list (list float)) : outcome (list (list float)) :=
  deinterleave_frames frames 0 input output pos bufs.

Fixpoint interleave_frame (bufs : list (list float)) (input : list (option nat)) (i pos : nat)
    (output : list Z) : outcome (list Z) :=
  match input with
  | [] => Done output
  | p :: input =>
      b ← access p;
      x ← load_float bufs b i;
      s ← float_to_sample x;
      if pos <? length output
      then interleave_frame bufs input i (pos + 1) (<[pos := s]> output) else Fault
  end.

Fixpoint interleave_frames (todo i : nat) (bufs : list (list float)) (input : list (option nat))
    (pos : nat) (output : list Z) : outcome (list Z) :=
  match todo with
  | 0 => Done output
  | S todo =>
      output ← interleave_frame bufs input i pos output;
      interleave_frames todo (i + 1) bufs input (pos + length input) output
  end.

Definition dsp_util_interleave (bufs : list (list float)) (input : list (option nat))
    (output : list Z) (pos frames : nat) : outcome (list Z) :=
  interleave_frames frames 0 bufs input pos output.
