(* ===== verification/Pipeline.v ===== *)
(** * Pipeline: the dynamic dsp graph of audio/hal/cras_dsp_pipeline.c

    A pointer to a plugin is its index in the ini structure, a pointer to an
    instance its index in the pipeline, a pointer to a port of an instance the
    index of the instance and that of the port in its array ([peer], which is
    followed from input ports to output ports only).  The implementation of a
    plugin is an object of the interface [ModuleLib], struct dsp_module. *)

From S2P Require Import Prelude CString Float32 Dictionary Expr DspIni DspUtil.

Definition DSP_BUFFER_SIZE : nat := 2048.
Definition MODULE_INPLACE_BROKEN : Z := 1.

(** Where connect_port points a module to: an audio buffer, or the value of a
    control port of an instance. *)
Inductive location : Type :=
| LBuffer (i : nat)
| LControlIn (inst k : nat)
| LControlOut (inst k : nat).

#[export] Instance location_eq_dec : EqDecision location.
Proof. solve_decision. Defined.

(** struct dsp_module: its functions, as operations on the state of a module;
    get_delay and run read the memory the module is connected to, run returns
    what it writes there. *)
Class ModuleLib `{FloatLib} : Type := {
  dsp_module : Type;
  cras_dsp_module_load_builtin : plugin -> option dsp_module;
  m_instantiate : dsp_module -> Z -> Z * dsp_module;
  m_connect_port : dsp_module -> nat -> location -> outcome dsp_module;
  m_get_delay : dsp_module -> (location -> option (list float)) -> outcome Z;
  m_run : dsp_module -> nat -> (location -> option (list float)) ->
          outcome (dsp_module * list (location * list float));
  m_deinstantiate : dsp_module -> outcome dsp_module;
  m_get_properties : dsp_module -> Z
}.

Record audio_port : Type := APort {
  a_peer : option (nat * nat);
  a_plugin : nat;
  a_original_index : nat;
  a_buf_index : nat
}.

Record control_port : Type := CPort {
  c_peer : option (nat * nat);
  c_plugin : nat;
  c_original_index : nat;
  c_value : float
}.

Section Pipeline.
Context `{ModuleLib}.

Record instance : Type := Instance {
  i_plugin : nat;
  input_audio_ports : list audio_port;
  output_audio_ports : list audio_port;
  input_control_ports : list control_port;
  output_control_ports : list control_port;
  module : option dsp_module;
  instantiated : bool;
  properties : Z;
  total_delay : Z
}.

(** ARRAY_APPEND_ZERO and the plugin. *)
Definition new_instance (plugin : nat) : instance :=
  Instance plugin [] [] [] [] None false 0 0.

Record pipeline : Type := Pipeline {
  p_purpose : string;
  p_ini : ini;
  instances : list instance;
  peak_buf : Z;
  buffers : option (list (option (list float)));
  source_instance : option nat;
  sink_instance : option nat;
  input_channels : nat;
  output_channels : nat;
  sample_rate : Z;
  total_time : Z;
  max_time : Z;
  min_time : Z;
  total_blocks : Z;
  total_samples : Z
}.

(** ** Looking things up *)

(** [plugin] is [None] for NULL, which no instance has. *)
Definition find_instance_by_plugin (insts : list instance) (plugin : option nat)
    : option nat :=
  match plugin with
  | None => None
  | Some pl => find_idx (fun inst => i_plugin inst =? pl) insts
  end.

Definition flow_at (n : ini) (id : Z) : outcome flow :=
  if (id <? 0)%Z then Fault else access (flows n !! Z.to_nat id).

(** The first loop of find_origin_port: how many output ports of the type come
    before port [index]; [None] when there is no such port. *)
Fixpoint count_outputs (ps : list port) (i index : nat) (ty : port_type) (k : nat)
    : option nat :=
  match ps with
  | [] => None
  | p :: ps =>
      if index =? i then Some k
      else count_outputs ps (i + 1) index ty
             (if bool_decide (direction p = PORT_OUTPUT) && bool_decide (type p = ty)
              then k + 1 else k)
  end.

(** The second loop: the index of the k-th input port of the type. *)
Fixpoint nth_input (ps : list port) (i : nat) (ty : port_type) (k : nat) : option nat :=
  match ps with
  | [] => None
  | p :: ps =>
      if bool_decide (direction p = PORT_INPUT) && bool_decide (type p = ty) then
        match k with
        | 0 => Some i
        | S k => nth_input ps (i + 1) ty k
        end
      else nth_input ps (i + 1) ty k
  end.

(** [Done None] is the return value -1. *)
Fixpoint find_origin_port (fuel : nat) (n : ini) (insts : list instance) (plugin index : nat)
    : outcome (option (nat * nat)) :=
  match fuel with
  | 0 => Timeout
  | S fuel =>
      pl ← access (plugins n !! plugin);
      port ← access (ports pl !! index);
      if (flow_id port =? INVALID_FLOW_ID)%Z then Done None
      else
        flow ← flow_at n (flow_id port);
        match find_instance_by_plugin insts (from flow) with
        | Some _ => q ← access (from flow); Done (Some (q, from_port flow))
        | None =>
            q ← access (from flow);
            up ← access (plugins n !! q);
            match count_outputs (ports up) 0 (from_port flow) (type port) 0 with
            | None => Done None
            | Some k =>
                match nth_input (ports up) 0 (type port) k with
                | None => Done None
                | Some i => find_origin_port fuel n insts q i
                end
            end
        end
  end.

(** The output port [index] of the instance of [plugin]: where it is. *)
Definition find_output_audio_port (insts : list instance) (plugin index : nat)
    : option (nat * nat) :=
  i ← find_instance_by_plugin insts (Some plugin);
  inst ← insts !! i;
  k ← find_idx (fun p => a_original_index p =? index) (output_audio_ports inst);
  Some (i, k).

Definition find_output_control_port (insts : list instance) (plugin index : nat)
    : option (nat * nat) :=
  i ← find_instance_by_plugin insts (Some plugin);
  inst ← insts !! i;
  k ← find_idx (fun p => c_original_index p =? index) (output_control_ports inst);
  Some (i, k).

(** ** Updates of instances and ports in place *)

Definition set_output_audio (f : list audio_port -> list audio_port) (inst : instance) : instance :=
  Instance (i_plugin inst) (input_audio_ports inst) (f (output_audio_ports inst))
    (input_control_ports inst) (output_control_ports inst) (module inst) (instantiated inst)
    (properties inst) (total_delay inst).

Definition set_input_audio (f : list audio_port -> list audio_port) (inst : instance) : instance :=
  Instance (i_plugin inst) (f (input_audio_ports inst)) (output_audio_ports inst)
    (input_control_ports inst) (output_control_ports inst) (module inst) (instantiated inst)
    (properties inst) (total_delay inst).

Definition set_output_control (f : list control_port -> list control_port) (inst : instance)
    : instance :=
  Instance (i_plugin inst) (input_audio_ports inst) (output_audio_ports inst)
    (input_control_ports inst) (f (output_control_ports inst)) (module inst) (instantiated inst)
    (properties inst) (total_delay inst).

Definition set_input_control (f : list control_port -> list control_port) (inst : instance)
    : instance :=
  Instance (i_plugin inst) (input_audio_ports inst) (output_audio_ports inst)
    (f (input_control_ports inst)) (output_control_ports inst) (module inst) (instantiated inst)
    (properties inst) (total_delay inst).

Definition set_module (m : option dsp_module) (inst : instance) : instance :=
  Instance (i_plugin inst) (input_audio_ports inst) (output_audio_ports inst)
    (input_control_ports inst) (output_control_ports inst) m (instantiated inst)
    (properties inst) (total_delay inst).

Definition set_instantiated (b : bool) (inst : instance) : instance :=
  Instance (i_plugin inst) (input_audio_ports inst) (output_audio_ports inst)
    (input_control_ports inst) (output_control_ports inst) (module inst) b
    (properties inst) (total_delay inst).

Definition set_delay (d : Z) (inst : instance) : instance :=
  Instance (i_plugin inst) (input_audio_ports inst) (output_audio_ports inst)
    (input_control_ports inst) (output_control_ports inst) (module inst) (instantiated inst)
    (properties inst) d.

Definition set_a_peer (peer : nat * nat) (p : audio_port) : audio_port :=
  APort (Some peer) (a_plugin p) (a_original_index p) (a_buf_index p).

Definition set_c_peer (peer : nat * nat) (p : control_port) : control_port :=
  CPort (Some peer) (c_plugin p) (c_original_index p) (c_value p).

Definition set_buf (b : nat) (p : audio_port) : audio_port :=
  APort (a_peer p) (a_plugin p) (a_original_index p) b.

(** ** Building the instances *)

Definition is_disabled (pl : plugin) (env : cras_expr_env) : outcome bool :=
  match disable_expr pl with
  | None => Done false
  | Some e =>
      '(rc, disabled) ← cras_expr_expression_eval_boolean e env;
      Done ((rc =? 0)%Z && bool_decide (disabled = Some true))
  end.

(** One turn of the loop over the ports: port [p], of index [i], of [plugin]
    gets its audio or control port in instance [self].  -1 when it cannot be
    connected. *)
Definition build_port (fuel : nat) (n : ini) (self plugin i : nat) (p : port)
    (insts : list instance) : outcome (Z * list instance) :=
  let need_connect := negb (flow_id p =? INVALID_FLOW_ID)%Z
                      && bool_decide (direction p = PORT_INPUT) in
  origin ← (if need_connect then find_origin_port fuel n insts plugin i
            else Done (Some (0, 0)));
  match origin with
  | None => Done ((-1)%Z, insts)
  | Some (q, j) =>
      inst ← access (insts !! self);
      match type p with
      | PORT_AUDIO =>
          let ap := APort None plugin i 0 in
          match direction p with
          | PORT_OUTPUT =>
              Done (0%Z, alter (set_output_audio (fun l => l ++ [ap])) self insts)
          | PORT_INPUT =>
              let k := length (input_audio_ports inst) in
              let insts := alter (set_input_audio (fun l => l ++ [ap])) self insts in
              if need_connect then
                match find_output_audio_port insts q j with
                | None => Done ((-1)%Z, insts)
                | Some peer =>
                    let insts := alter (set_output_audio (alter (set_a_peer (self, k)) peer.2))
                                   peer.1 insts in
                    Done (0%Z, alter (set_input_audio (alter (set_a_peer peer) k)) self insts)
                end
              else Done (0%Z, insts)
          end
      | PORT_CONTROL =>
          let cp := CPort None plugin i (init_value p) in
          match direction p with
          | PORT_OUTPUT =>
              Done (0%Z, alter (set_output_control (fun l => l ++ [cp])) self insts)
          | PORT_INPUT =>
              let k := length (input_control_ports inst) in
              let insts := alter (set_input_control (fun l => l ++ [cp])) self insts in
              if need_connect then
                match find_output_control_port insts q j with
                | None => Done ((-1)%Z, insts)
                | Some peer =>
                    let insts := alter (set_output_control (alter (set_c_peer (self, k)) peer.2))
                                   peer.1 insts in
                    Done (0%Z, alter (set_input_control (alter (set_c_peer peer) k)) self insts)
                end
              else Done (0%Z, insts)
          end
      end
  end.

Fixpoint build_ports (fuel : nat) (n : ini) (self plugin i : nat) (ps : list port)
    (insts : list instance) : outcome (Z * list instance) :=
  match ps with
  | [] => Done (0%Z, insts)
  | p :: ps =>
      '(rc, insts) ← build_port fuel n self plugin i p insts;
      if (rc <? 0)%Z then Done ((-1)%Z, insts)
      else build_ports fuel n self plugin (i + 1) ps insts
  end.

(** What topological_sort changes: the instances and the visited flags. *)
Abbreviation sort_state := (list instance * list bool)%type.

(** The loop over the ports that visits the plugins upstream. *)
Fixpoint visit_ports (visit : nat -> sort_state -> outcome (Z * sort_state)) (n : ini)
    (ps : list port) (st : sort_state) : outcome (Z * sort_state) :=
  match ps with
  | [] => Done (0%Z, st)
  | p :: ps =>
      if (flow_id p =? INVALID_FLOW_ID)%Z then visit_ports visit n ps st
      else
        flow ← flow_at n (flow_id p);
        match from flow with
        | None => Done ((-1)%Z, st)
        | Some q =>
            '(rc, st) ← visit q st;
            if (rc <? 0)%Z then Done ((-1)%Z, st) else visit_ports visit n ps st
        end
  end.

(** [fuel] bounds the depth of the recursion, [ofuel] that of
    find_origin_port. *)
Fixpoint topological_sort (ofuel fuel : nat) (n : ini) (env : cras_expr_env) (plugin : nat)
    (st : sort_state) : outcome (Z * sort_state) :=
  match fuel with
  | 0 => Timeout
  | S fuel =>
      v ← access (snd st !! plugin);
      if v : bool then Done (0%Z, st)
      else
        pl ← access (plugins n !! plugin);
        '(rc, st) ← visit_ports (topological_sort ofuel fuel n env) n (ports pl)
                      (fst st, <[plugin := true]> (snd st));
        if (rc <? 0)%Z then Done ((-1)%Z, st)
        else
          disabled ← is_disabled pl env;
          if disabled : bool then Done (0%Z, st)
          else
            let self := length (fst st) in
            '(rc, insts) ← build_ports ofuel n self plugin 0 (ports pl)
                             (fst st ++ [new_instance plugin]);
            Done (rc, (insts, snd st))
  end.
End Pipeline.
