(* ===== verification/PipelineRun.v ===== *)
(** * PipelineRun: creating, loading, running and freeing a pipeline

    The rest of audio/hal/cras_dsp_pipeline.c.  [alloc n] says whether calloc
    can give [n] bytes for the pipeline and for its buffers; the other
    allocations are not tested by the code and taken to succeed. *)

From S2P Require Import Prelude CString Float32 Dictionary Expr DspIni DspUtil Pipeline.

Section PipelineRun.
Context `{ModuleLib}.

(** ** Updating a pipeline *)

Definition set_instances (insts : list instance) (p : pipeline) : pipeline :=
  Pipeline (p_purpose p) (p_ini p) insts (peak_buf p) (buffers p) (source_instance p)
    (sink_instance p) (input_channels p) (output_channels p) (sample_rate p) (total_time p)
    (max_time p) (min_time p) (total_blocks p) (total_samples p).

Definition set_buffers (peak : Z) (bufs : option (list (option (list float)))) (p : pipeline)
    : pipeline :=
  Pipeline (p_purpose p) (p_ini p) (instances p) peak bufs (source_instance p)
    (sink_instance p) (input_channels p) (output_channels p) (sample_rate p) (total_time p)
    (max_time p) (min_time p) (total_blocks p) (total_samples p).

Definition set_sample_rate (rate : Z) (p : pipeline) : pipeline :=
  Pipeline (p_purpose p) (p_ini p) (instances p) (peak_buf p) (buffers p) (source_instance p)
    (sink_instance p) (input_channels p) (output_channels p) rate (total_time p)
    (max_time p) (min_time p) (total_blocks p) (total_samples p).

(** ** cras_dsp_pipeline_create *)

(** strcmp(plugin->library, "builtin") == 0 and the other tests; library and
    label must not be NULL. *)
Definition builtin_matches (pl : plugin) (lab purp : string) : outcome bool :=
  lib ← access (library pl);
  if negb (String.eqb lib "builtin") then Done false
  else
    l ← access (label pl);
    Done (String.eqb l lab && bool_decide (purpose pl = Some purp)).

Fixpoint find_builtin_loop (pls : list plugin) (i : nat) (lab purp : string)
    (env : cras_expr_env) (found : option nat) : outcome (option nat) :=
  match pls with
  | [] => Done found
  | pl :: pls =>
      m ← builtin_matches pl lab purp;
      if negb m then find_builtin_loop pls (i + 1) lab purp env found
      else
        disabled ← is_disabled pl env;
        if disabled : bool then find_builtin_loop pls (i + 1) lab purp env found
        else
          match found with
          | Some _ => Done None
          | None => find_builtin_loop pls (i + 1) lab purp env (Some i)
          end
  end.

Definition find_enabled_builtin_plugin (n : ini) (lab purp : string) (env : cras_expr_env)
    : outcome (option nat) :=
  find_builtin_loop (plugins n) 0 lab purp env None.

(** cras_dsp_pipeline_free frees what calloc gave: [buffers] NULL with a
    positive [peak_buf] is a null dereference.  The modules are handed back in
    the order they are freed, deinstantiated if they were instantiated. *)
Fixpoint free_instances (insts : list instance) : outcome (list dsp_module) :=
  match insts with
  | [] => Done []
  | inst :: insts =>
      match module inst with
      | None => free_instances insts
      | Some m =>
          m ← (if instantiated inst then m_deinstantiate m else Done m);
          ms ← free_instances insts; Done (m :: ms)
      end
  end.

Definition cras_dsp_pipeline_free (p : pipeline) : outcome (list dsp_module) :=
  ms ← free_instances (instances p);
  match buffers p with
  | None => if (0 <? peak_buf p)%Z then Fault else Done ms
  | Some _ => Done ms
  end.

Definition new_pipeline (n : ini) (purp : string) (insts : list instance)
    (source sink : option nat) (input output : nat) : pipeline :=
  Pipeline purp n insts 0 None source sink input output 0 0 0 0 0 0.

(** sizeof(struct pipeline) where pointers have 64 bits. *)
Definition sizeof_pipeline : Z := 120.

Definition cras_dsp_pipeline_create (alloc : Z -> bool) (ofuel : nat) (n : ini) (env : cras_expr_env)
    (purp : string) : outcome (option pipeline) :=
  source ← find_enabled_builtin_plugin n "source" purp env;
  sink ← find_enabled_builtin_plugin n "sink" purp env;
  match source, sink with
  | Some so, Some si =>
      if negb (alloc sizeof_pipeline) then Done None
      else
        let np := length (plugins n) in
        '(rc, st) ← topological_sort ofuel (S np) n env si ([], replicate np false);
        if (rc <? 0)%Z then Done None
        else
          let insts := fst st in
          let source_inst := find_instance_by_plugin insts (Some so) in
          let sink_inst := find_instance_by_plugin insts (Some si) in
          match source_inst, sink_inst with
          | Some a, Some b =>
              ia ← access (insts !! a);
              ib ← access (insts !! b);
              let input := length (output_audio_ports ia) in
              let output := length (input_audio_ports ib) in
              let p := new_pipeline n purp insts source_inst sink_inst input output in
              if input <? output then _ ← cras_dsp_pipeline_free p; Done None
              else Done (Some p)
          | _, _ =>
              _ ← cras_dsp_pipeline_free (new_pipeline n purp insts source_inst sink_inst 0 0);
              Done None
          end
  | _, _ => Done None
  end.

(** ** cras_dsp_pipeline_load *)

Definition load_module (pl : plugin) (inst : instance) : Z * instance :=
  match cras_dsp_module_load_builtin pl with
  | None => ((-1)%Z, inst)
  | Some m =>
      (0%Z, Instance (i_plugin inst) (input_audio_ports inst) (output_audio_ports inst)
              (input_control_ports inst) (output_control_ports inst) (Some m)
              (instantiated inst) (m_get_properties m) (total_delay inst))
  end.

(** The first index from [k] on whose flag is clear: [busy] is read outside
    its bounds when there is none. *)
Fixpoint first_free (busy : list bool) (k : nat) : option nat :=
  match busy with
  | [] => None
  | b :: busy => if b then first_free busy (S k) else Some k
  end.

Fixpoint use_buffers (busy : list bool) (k : nat) (ports : list audio_port)
    : outcome (list bool * list audio_port) :=
  match ports with
  | [] => Done (busy, [])
  | p :: ports =>
      k ← access (first_free (drop k busy) k);
      '(busy, ports) ← use_buffers (<[k := true]> busy) k ports;
      Done (busy, set_buf k p :: ports)
  end.

Fixpoint unuse_buffers (busy : list bool) (ports : list audio_port) : outcome (list bool) :=
  match ports with
  | [] => Done busy
  | p :: ports =>
      if a_buf_index p <? length busy
      then unuse_buffers (<[a_buf_index p := false]> busy) ports else Fault
  end.

Definition inplace_broken (inst : instance) : bool :=
  negb (Z.land (properties inst) MODULE_INPLACE_BROKEN =? 0)%Z.

(** The first loop of allocate_buffers. *)
Fixpoint count_buffers (insts : list instance) (need_buf peak : Z) : Z :=
  match insts with
  | [] => peak
  | inst :: insts =>
      let i := Z.of_nat (length (input_audio_ports inst)) in
      let o := Z.of_nat (length (output_audio_ports inst)) in
      if inplace_broken inst then
        let need_buf := (need_buf + o)%Z in
        count_buffers insts (need_buf - i) (Z.max peak need_buf)
      else
        let need_buf := (need_buf + (o - i))%Z in
        count_buffers insts need_buf (Z.max peak need_buf)
  end.

Section Alloc.
Context (alloc : Z -> bool).

(** The buffers allocated one by one: those so far, and whether all were. *)
Fixpoint alloc_buffers (todo : nat) : list (option (list float)) * bool :=
  match todo with
  | 0 => ([], true)
  | S todo =>
      if alloc (Z.of_nat DSP_BUFFER_SIZE * 4) then
        let '(l, ok) := alloc_buffers todo in
        (Some (replicate DSP_BUFFER_SIZE float_zero) :: l, ok)
      else (replicate (S todo) None, false)
  end.

(** The buffer of an input port is that of its peer. *)
Definition collect_buffer (insts : list instance) (p : audio_port) : outcome audio_port :=
  peer ← access (a_peer p);
  up ← access (insts !! peer.1);
  q ← access (output_audio_ports up !! peer.2);
  Done (set_buf (a_buf_index q) p).

Fixpoint collect_buffers (insts : list instance) (ports : list audio_port)
    : outcome (list audio_port) :=
  match ports with
  | [] => Done []
  | p :: ports =>
      p ← collect_buffer insts p; ports ← collect_buffers insts ports; Done (p :: ports)
  end.

(** The turn of the last loop for instance [i]. *)
Definition assign_buffers (i : nat) (insts : list instance) (busy : list bool)
    : outcome (list instance * list bool) :=
  inst ← access (insts !! i);
  ins ← collect_buffers insts (input_audio_ports inst);
  '(busy, outs) ←
    (if inplace_broken inst then
       '(busy, outs) ← use_buffers busy 0 (output_audio_ports inst);
       busy ← unuse_buffers busy ins; Done (busy, outs)
     else
       busy ← unuse_buffers busy ins;
       use_buffers busy 0 (output_audio_ports inst));
  Done (<[i := set_output_audio (fun _ => outs) (set_input_audio (fun _ => ins) inst)]> insts,
        busy).

Fixpoint assign_loop (todo i : nat) (insts : list instance) (busy : list bool)
    : outcome (list instance * list bool) :=
  match todo with
  | 0 => Done (insts, busy)
  | S todo =>
      '(insts, busy) ← assign_buffers i insts busy;
      assign_loop todo (i + 1) insts busy
  end.

Definition allocate_buffers (p : pipeline) : outcome (Z * pipeline) :=
  let peak := count_buffers (instances p) 0 0 in
  if negb (alloc (peak * 8)) then Done ((-1)%Z, set_buffers peak None p)
  else
    let '(bufs, ok) := alloc_buffers (Z.to_nat peak) in
    let p := set_buffers peak (Some bufs) p in
    if negb ok then Done ((-1)%Z, p)
    else
      '(insts, _) ← assign_loop (length (instances p)) 0 (instances p)
                      (replicate (Z.to_nat peak) false);
      Done (0%Z, set_instances insts p).

Fixpoint load_modules (n : ini) (insts : list instance) : outcome (Z * list instance) :=
  match insts with
  | [] => Done (0%Z, [])
  | inst :: insts =>
      pl ← access (plugins n !! i_plugin inst);
      let '(rc, inst) := load_module pl inst in
      if negb (rc =? 0)%Z then Done ((-1)%Z, inst :: insts)
      else '(rc, insts) ← load_modules n insts; Done (rc, inst :: insts)
  end.

Definition cras_dsp_pipeline_load (p : pipeline) : outcome (Z * pipeline) :=
  '(rc, insts) ← load_modules (p_ini p) (instances p);
  let p := set_instances insts p in
  if negb (rc =? 0)%Z then Done ((-1)%Z, p)
  else
    '(rc, p) ← allocate_buffers p;
    Done (if (rc =? 0)%Z then 0 else -1, p)%Z.
End Alloc.

(** ** The memory the modules see *)

Definition read_location (p : pipeline) (l : location) : option (list float) :=
  match l with
  | LBuffer i => bufs ← buffers p; mjoin (bufs !! i)
  | LControlIn a k =>
      inst ← instances p !! a; c ← input_control_ports inst !! k; Some [c_value c]
  | LControlOut a k =>
      inst ← instances p !! a; c ← output_control_ports inst !! k; Some [c_value c]
  end.

Definition set_c_value (v : list float) (c : control_port) : control_port :=
  CPort (c_peer c) (c_plugin c) (c_original_index c) (List.hd (c_value c) v).

Definition write_location (p : pipeline) (w : location * list float) : pipeline :=
  match w.1 with
  | LBuffer i =>
      set_buffers (peak_buf p) (alter (fun _ => Some w.2) i <$> buffers p) p
  | LControlIn a k =>
      set_instances (alter (set_input_control (alter (set_c_value w.2) k)) a (instances p)) p
  | LControlOut a k =>
      set_instances (alter (set_output_control (alter (set_c_value w.2) k)) a (instances p)) p
  end.

(** ** cras_dsp_pipeline_instantiate *)

(** The largest delay of the instances the input ports come from. *)
Fixpoint max_delay (insts : list instance) (ports : list audio_port) (delay : Z) : outcome Z :=
  match ports with
  | [] => Done delay
  | p :: ports =>
      peer ← access (a_peer p);
      pi ← access (insts !! peer.1);
      pp ← access (output_audio_ports pi !! peer.2);
      u ← access (find_instance_by_plugin insts (Some (a_plugin pp)));
      up ← access (insts !! u);
      max_delay insts ports (Z.max (total_delay up) delay)
  end.

Fixpoint delay_loop (todo i : nat) (p : pipeline) : outcome pipeline :=
  match todo with
  | 0 => Done p
  | S todo =>
      inst ← access (instances p !! i);
      m ← access (module inst);
      delay ← max_delay (instances p) (input_audio_ports inst) 0;
      own ← m_get_delay m (read_location p);
      delay_loop todo (i + 1)
        (set_instances (alter (set_delay (delay + own)) i (instances p)) p)
  end.

Definition calculate_audio_delay (p : pipeline) : outcome pipeline :=
  delay_loop (length (instances p)) 0 p.

(** The loop that calls instantiate: the instances and the return code. *)
Fixpoint instantiate_loop (rate : Z) (insts : list instance) : outcome (Z * list instance) :=
  match insts with
  | [] => Done (0%Z, [])
  | inst :: insts =>
      m ← access (module inst);
      let '(rc, m) := m_instantiate m rate in
      let inst := set_module (Some m) inst in
      if negb (rc =? 0)%Z then Done ((-1)%Z, inst :: insts)
      else
        '(rc, insts) ← instantiate_loop rate insts;
        Done (rc, set_instantiated true inst :: insts)
  end.

(** Each audio port is connected to its buffer, pipeline->buffers[buf_index]. *)
Fixpoint connect_audio (bufs : list (option (list float))) (ports : list audio_port)
    (m : dsp_module) : outcome dsp_module :=
  match ports with
  | [] => Done m
  | p :: ports =>
      _ ← access (bufs !! a_buf_index p);
      m ← m_connect_port m (a_original_index p) (LBuffer (a_buf_index p));
      connect_audio bufs ports m
  end.

(** Port [k] of instance [self], or the output port it is connected to. *)
Fixpoint connect_control_in (self k : nat) (ports : list control_port) (m : dsp_module)
    : outcome dsp_module :=
  match ports with
  | [] => Done m
  | c :: ports =>
      let value := match c_peer c with
                   | Some (a, j) => LControlOut a j
                   | None => LControlIn self k
                   end in
      m ← m_connect_port m (c_original_index c) value;
      connect_control_in self (k + 1) ports m
  end.

Fixpoint connect_control_out (self k : nat) (ports : list control_port) (m : dsp_module)
    : outcome dsp_module :=
  match ports with
  | [] => Done m
  | c :: ports =>
      m ← m_connect_port m (c_original_index c) (LControlOut self k);
      connect_control_out self (k + 1) ports m
  end.

Fixpoint connect_loop (bufs : list (option (list float))) (self : nat) (insts : list instance)
    : outcome (list instance) :=
  match insts with
  | [] => Done []
  | inst :: insts =>
      m ← access (module inst);
      m ← connect_audio bufs (input_audio_ports inst) m;
      m ← connect_audio bufs (output_audio_ports inst) m;
      m ← connect_control_in self 0 (input_control_ports inst) m;
      m ← connect_control_out self 0 (output_control_ports inst) m;
      insts ← connect_loop bufs (self + 1) insts;
      Done (set_module (Some m) inst :: insts)
  end.

Definition cras_dsp_pipeline_instantiate (p : pipeline) (rate : Z) : outcome (Z * pipeline) :=
  '(rc, insts) ← instantiate_loop rate (instances p);
  let p := set_instances insts p in
  if negb (rc =? 0)%Z then Done ((-1)%Z, p)
  else
    let p := set_sample_rate rate p in
    insts ← connect_loop (default [] (buffers p)) 0 (instances p);
    p ← calculate_audio_delay (set_instances insts p);
    Done (0%Z, p).

Definition deinstantiate_instance (inst : instance) : outcome instance :=
  if instantiated inst then
    m ← access (module inst);
    m ← m_deinstantiate m;
    Done (set_instantiated false (set_module (Some m) inst))
  else Done inst.

Fixpoint deinstantiate_loop (insts : list instance) : outcome (list instance) :=
  match insts with
  | [] => Done []
  | inst :: insts =>
      inst ← deinstantiate_instance inst; insts ← deinstantiate_loop insts;
      Done (inst :: insts)
  end.

Definition cras_dsp_pipeline_deinstantiate (p : pipeline) : outcome pipeline :=
  insts ← deinstantiate_loop (instances p); Done (set_sample_rate 0 (set_instances insts p)).

(** ** Queries *)

Definition cras_dsp_pipeline_get_delay (p : pipeline) : outcome Z :=
  i ← access (sink_instance p); inst ← access (instances p !! i); Done (total_delay inst).

Definition cras_dsp_pipeline_get_sample_rate (p : pipeline) : Z := sample_rate p.
Definition cras_dsp_pipeline_get_num_input_channels (p : pipeline) : nat := input_channels p.
Definition cras_dsp_pipeline_get_num_output_channels (p : pipeline) : nat := output_channels p.
Definition cras_dsp_pipeline_get_peak_audio_buffers (p : pipeline) : Z := peak_buf p.

(** A buffer is its index; [None] is NULL. *)
Definition find_buffer (ports : list audio_port) (index : nat) : option nat :=
  i ← find_idx (fun p => a_original_index p =? index) ports; a_buf_index <$> ports !! i.

Definition cras_dsp_pipeline_get_source_buffer (p : pipeline) (index : nat)
    : outcome (option nat) :=
  i ← access (source_instance p); inst ← access (instances p !! i);
  Done (find_buffer (output_audio_ports inst) index).

Definition cras_dsp_pipeline_get_sink_buffer (p : pipeline) (index : nat)
    : outcome (option nat) :=
  i ← access (sink_instance p); inst ← access (instances p !! i);
  Done (find_buffer (input_audio_ports inst) index).

(** ** Running *)

(** The turn of cras_dsp_pipeline_run for instance [i]. *)
Definition run_instance (sample_count : nat) (p : pipeline) (i : nat) : outcome pipeline :=
  inst ← access (instances p !! i);
  m ← access (module inst);
  '(m, writes) ← m_run m sample_count (read_location p);
  Done (fold_left write_location writes
          (set_instances (alter (set_module (Some m)) i (instances p)) p)).

Fixpoint run_loop (todo i : nat) (sample_count : nat) (p : pipeline) : outcome pipeline :=
  match todo with
  | 0 => Done p
  | S todo => p ← run_instance sample_count p i; run_loop todo (i + 1) sample_count p
  end.

Definition cras_dsp_pipeline_run (p : pipeline) (sample_count : nat) : outcome pipeline :=
  run_loop (length (instances p)) 0 sample_count p.

(** int64_t arithmetic; a sum out of its range is undefined and wrapped here. *)
Definition cras_dsp_pipeline_add_statistic (p : pipeline) (tv_sec tv_nsec : Z) (samples : Z)
    : pipeline :=
  if (samples <=? 0)%Z then p
  else
    let t := s64 (tv_sec * 1000000000 + tv_nsec) in
    let '(mx, mn) :=
      if (total_blocks p =? 0)%Z then (t, t)
      else (Z.max (max_time p) t, Z.min (min_time p) t) in
    Pipeline (p_purpose p) (p_ini p) (instances p) (peak_buf p) (buffers p) (source_instance p)
      (sink_instance p) (input_channels p) (output_channels p) (sample_rate p)
      (s64 (total_time p + t)) mx mn (s64 (total_blocks p + 1)) (s64 (total_samples p + samples)).

(** The contents of the buffers, all of which were allocated. *)
Definition buffer_contents (p : pipeline) : outcome (list (list float)) :=
  bufs ← access (buffers p); access (mapM id bufs).

Definition set_contents (bufs : list (list float)) (p : pipeline) : pipeline :=
  set_buffers (peak_buf p) (Some (map Some bufs)) p.

(** One block of [chunk] frames at element [target] of the samples. *)
Definition apply_chunk (source sink : list (option nat)) (chunk target : nat)
    (st : pipeline * list Z) : outcome (pipeline * list Z) :=
  let '(p, buf) := st in
  bufs ← buffer_contents p;
  bufs ← dsp_util_deinterleave buf target source chunk bufs;
  p ← cras_dsp_pipeline_run (set_contents bufs p) chunk;
  bufs ← buffer_contents p;
  buf ← dsp_util_interleave bufs sink buf target chunk;
  Done (p, buf).

(** The loop over the blocks; [remaining] frames are left, a block has at least
    one frame. *)
Fixpoint apply_loop (fuel : nat) (source sink : list (option nat)) (remaining target : nat)
    (st : pipeline * list Z) : outcome (pipeline * list Z) :=
  if remaining =? 0 then Done st
  else
    match fuel with
    | 0 => Timeout
    | S fuel =>
        let chunk := Nat.min remaining DSP_BUFFER_SIZE in
        st ← apply_chunk source sink chunk target st;
        apply_loop fuel source sink (remaining - chunk)
          (target + chunk * output_channels (fst st)) st
    end.

Fixpoint get_buffers (get : nat -> outcome (option nat)) (todo i : nat)
    : outcome (list (option nat)) :=
  match todo with
  | 0 => Done []
  | S todo => b ← get i; bs ← get_buffers get todo (i + 1); Done (b :: bs)
  end.

(** [buf] is the interleaved 16-bit audio of [frames] frames. *)
Definition cras_dsp_pipeline_apply (p : pipeline) (buf : list Z) (frames : nat)
    : outcome (pipeline * list Z) :=
  if frames =? 0 then Done (p, buf)
  else
    source ← get_buffers (cras_dsp_pipeline_get_source_buffer p) (input_channels p) 0;
    sink ← get_buffers (cras_dsp_pipeline_get_sink_buffer p) (output_channels p) 0;
    apply_loop frames source sink frames 0 (p, buf).
End PipelineRun.
