(* ===== verification/PipelineSort.v ===== *)
(** * PipelineSort: the instances topological_sort builds

    An instance is seen through its [core]: its plugin and, for each type of
    port, the original indices of its output ports and the peers of its input
    ports.  For an acyclic graph the construction ends, follows the order of
    dependency and connects every input port to its origin. *)

From S2P Require Import Prelude CString Float32 Dictionary Expr ExprEval DspIni DspGraph DspUtil Pipeline.

Section Cores.
Context `{ModuleLib}.

Record core : Type := Core {
  k_plugin : nat;
  k_in_audio : list (nat * option (nat * nat));
  k_out_audio : list (nat * nat);
  k_in_control : list (nat * option (nat * nat));
  k_out_control : list (nat * nat)
}.

Definition instance_core (inst : instance) : core :=
  Core (i_plugin inst)
    (map (fun p => (a_original_index p, a_peer p)) (input_audio_ports inst))
    (map (fun p => (a_plugin p, a_original_index p)) (output_audio_ports inst))
    (map (fun p => (c_original_index p, c_peer p)) (input_control_ports inst))
    (map (fun p => (c_plugin p, c_original_index p)) (output_control_ports inst)).

Definition cores (insts : list instance) : list core := map instance_core insts.

Definition k_in (ty : port_type) (c : core) : list (nat * option (nat * nat)) :=
  match ty with PORT_AUDIO => k_in_audio c | PORT_CONTROL => k_in_control c end.

Definition k_out (ty : port_type) (c : core) : list (nat * nat) :=
  match ty with PORT_AUDIO => k_out_audio c | PORT_CONTROL => k_out_control c end.

(** A port added to a core. *)
Definition add_in (ty : port_type) (x : nat * option (nat * nat)) (c : core) : core :=
  match ty with
  | PORT_AUDIO => Core (k_plugin c) (k_in_audio c ++ [x]) (k_out_audio c) (k_in_control c)
                       (k_out_control c)
  | PORT_CONTROL => Core (k_plugin c) (k_in_audio c) (k_out_audio c) (k_in_control c ++ [x])
                         (k_out_control c)
  end.

Definition add_out (ty : port_type) (x : nat * nat) (c : core) : core :=
  match ty with
  | PORT_AUDIO => Core (k_plugin c) (k_in_audio c) (k_out_audio c ++ [x]) (k_in_control c)
                       (k_out_control c)
  | PORT_CONTROL => Core (k_plugin c) (k_in_audio c) (k_out_audio c) (k_in_control c)
                         (k_out_control c ++ [x])
  end.

Definition find_core (cs : list core) (q : nat) : option nat :=
  find_idx (fun c => k_plugin c =? q) cs.

Definition find_out (ty : port_type) (cs : list core) (q j : nat) : option (nat * nat) :=
  b ← find_core cs q; c ← cs !! b; k ← find_idx (fun x => x.2 =? j) (k_out ty c); Some (b, k).

Lemma find_idx_map {A B} (f : A -> B) (q : B -> bool) l :
  find_idx q (map f l) = find_idx (fun x => q (f x)) l.
Proof. induction l as [|x l IH]; cbn; [done | by rewrite IH]. Qed.

Lemma find_instance_core insts q :
  find_instance_by_plugin insts (Some q) = find_core (cores insts) q.
Proof. unfold find_core, cores. by rewrite find_idx_map. Qed.

Lemma find_audio_core insts q j :
  find_output_audio_port insts q j = find_out PORT_AUDIO (cores insts) q j.
Proof.
  unfold find_output_audio_port, find_out. rewrite find_instance_core.
  destruct (find_core (cores insts) q) as [b|]; cbn; [|done].
  unfold cores. rewrite list_lookup_fmap. destruct (insts !! b); cbn; [|done].
  by rewrite find_idx_map.
Qed.

Lemma find_control_core insts q j :
  find_output_control_port insts q j = find_out PORT_CONTROL (cores insts) q j.
Proof.
  unfold find_output_control_port, find_out. rewrite find_instance_core.
  destruct (find_core (cores insts) q) as [b|]; cbn; [|done].
  unfold cores. rewrite list_lookup_fmap. destruct (insts !! b); cbn; [|done].
  by rewrite find_idx_map.
Qed.

(** ** The effect of the updates on cores *)

Lemma map_alter {A B} (f : A -> B) (g : A -> A) (h : B -> B) i l :
  (forall x, f (g x) = h (f x)) -> map f (alter g i l) = alter h i (map f l).
Proof.
  intros E. revert i. induction l as [|x l IH]; intros [|i]; cbn; [done | done | by rewrite E|].
  f_equal. apply IH.
Qed.

Lemma map_alter_id {A B} (f : A -> B) (g : A -> A) i l :
  (forall x, f (g x) = f x) -> map f (alter g i l) = map f l.
Proof.
  intros E. revert i. induction l as [|x l IH]; intros [|i]; cbn; [done | done | by rewrite E|].
  f_equal. apply IH.
Qed.

Lemma cores_set_out_audio insts b k peer :
  cores (alter (set_output_audio (alter (set_a_peer peer) k)) b insts) = cores insts.
Proof. apply map_alter_id. intros x. unfold instance_core. cbn. by rewrite map_alter_id. Qed.

Lemma cores_set_out_control insts b k peer :
  cores (alter (set_output_control (alter (set_c_peer peer) k)) b insts) = cores insts.
Proof. apply map_alter_id. intros x. unfold instance_core. cbn. by rewrite map_alter_id. Qed.

Lemma alter_last {A} (f : A -> A) l x : alter f (length l) (l ++ [x]) = l ++ [f x].
Proof. induction l as [|y l IH]; cbn; [done|]. f_equal. exact IH. Qed.

Lemma cores_alter_last (g : instance -> instance) (h : core -> core) insts cs c :
  cores insts = cs ++ [c] -> (forall x, instance_core (g x) = h (instance_core x)) ->
  cores (alter g (length cs) insts) = cs ++ [h c].
Proof. intros E Hg. unfold cores in *. rewrite (map_alter _ _ h), E by done. apply alter_last. Qed.

(** The peer of input port [k] of the last core. *)
Definition set_in_peer (ty : port_type) (k : nat) (peer : nat * nat) (c : core) : core :=
  let f := alter (fun x : nat * option (nat * nat) => (x.1, Some peer)) k in
  match ty with
  | PORT_AUDIO => Core (k_plugin c) (f (k_in_audio c)) (k_out_audio c) (k_in_control c)
                       (k_out_control c)
  | PORT_CONTROL => Core (k_plugin c) (k_in_audio c) (k_out_audio c) (f (k_in_control c))
                         (k_out_control c)
  end.

Lemma set_in_peer_add ty j peer c :
  set_in_peer ty (length (k_in ty c)) peer (add_in ty (j, None) c) = add_in ty (j, Some peer) c.
Proof. unfold set_in_peer. destruct ty; cbn; by rewrite alter_last. Qed.

Lemma core_set_input_audio k peer x :
  instance_core (set_input_audio (alter (set_a_peer peer) k) x)
  = set_in_peer PORT_AUDIO k peer (instance_core x).
Proof. unfold instance_core, set_in_peer. cbn. f_equal. by apply map_alter. Qed.

Lemma core_set_input_control k peer x :
  instance_core (set_input_control (alter (set_c_peer peer) k) x)
  = set_in_peer PORT_CONTROL k peer (instance_core x).
Proof. unfold instance_core, set_in_peer. cbn. f_equal. by apply map_alter. Qed.

(** ** One port built *)

Lemma find_out_app ty cs c x q j :
  k_plugin c = k_plugin x -> (forall ty, k_out ty c = k_out ty x) ->
  find_out ty (cs ++ [c]) q j = find_out ty (cs ++ [x]) q j.
Proof.
  intros Hp Ho. unfold find_out, find_core.
  assert (find_idx (fun c => k_plugin c =? q) (cs ++ [c])
          = find_idx (fun c => k_plugin c =? q) (cs ++ [x])) as ->.
  { clear Ho. induction cs as [|y cs IH]; cbn; [by rewrite Hp | by rewrite IH]. }
  destruct (find_idx _ (cs ++ [x])) as [b|]; cbn; [|done].
  destruct (decide (b < length cs)) as [Hb|Hb].
  - rewrite !lookup_app_l by done. done.
  - rewrite !lookup_app_r by lia. destruct (b - length cs) as [|m]; cbn; [by rewrite Ho | done].
Qed.

Lemma last_instance insts cs c :
  cores insts = cs ++ [c] ->
  exists inst, insts !! length cs = Some inst /\ instance_core inst = c.
Proof.
  intros E. assert ((cores insts) !! length cs = Some c) as Hl by (rewrite E; by apply list_lookup_middle).
  unfold cores in Hl. rewrite list_lookup_fmap in Hl. apply fmap_Some in Hl as (inst & Hi & ->).
  by exists inst.
Qed.

(** Without a flow to follow. *)
Lemma build_port_free fuel n plugin i p insts cs c :
  cores insts = cs ++ [c] ->
  flow_id p = INVALID_FLOW_ID \/ direction p = PORT_OUTPUT ->
  exists insts', build_port fuel n (length cs) plugin i p insts = Done (0%Z, insts') /\
    cores insts' = cs ++ [match direction p with
                          | PORT_INPUT => add_in (type p) (i, None) c
                          | PORT_OUTPUT => add_out (type p) (plugin, i) c
                          end].
Proof.
  intros E Hn. destruct (last_instance _ _ _ E) as (inst & Hi & _). unfold build_port.
  assert (negb (flow_id p =? INVALID_FLOW_ID)%Z && bool_decide (direction p = PORT_INPUT) = false)
    as ->.
  { destruct Hn as [->| ->]; [by rewrite Z.eqb_refl | by rewrite andb_false_r]. }
  rewrite bind_Done_eq, Hi. cbn [access]. rewrite bind_Done_eq.
  destruct (type p), (direction p); eexists; (split; [reflexivity|]); apply cores_alter_last;
    try done; intros x; unfold instance_core, add_in, add_out; cbn; by rewrite map_app.
Qed.

Definition needs_origin (p : port) : Prop :=
  flow_id p <> INVALID_FLOW_ID /\ direction p = PORT_INPUT.

Lemma need_connect_true p :
  needs_origin p ->
  negb (flow_id p =? INVALID_FLOW_ID)%Z && bool_decide (direction p = PORT_INPUT) = true.
Proof.
  intros [Hf Hd]. rewrite Hd. apply andb_true_iff. split; [|done].
  apply negb_true_iff. by apply Z.eqb_neq.
Qed.

Lemma build_port_origin fuel n plugin i p insts cs c q j peer :
  cores insts = cs ++ [c] -> needs_origin p ->
  find_origin_port fuel n insts plugin i = Done (Some (q, j)) ->
  find_out (type p) (cs ++ [c]) q j = Some peer ->
  exists insts', build_port fuel n (length cs) plugin i p insts = Done (0%Z, insts') /\
    cores insts' = cs ++ [add_in (type p) (i, Some peer) c].
Proof.
  intros E Hn Ho Hf. destruct (last_instance _ _ _ E) as (inst & Hi & Hc). unfold build_port.
  rewrite (need_connect_true p Hn), Ho, bind_Done_eq, Hi. cbn [access]. rewrite bind_Done_eq.
  destruct Hn as [_ Hd]. rewrite Hd.
  assert (length (input_audio_ports inst) = length (k_in PORT_AUDIO c)) as La
    by (subst c; cbn; by rewrite length_map).
  assert (length (input_control_ports inst) = length (k_in PORT_CONTROL c)) as Lc
    by (subst c; cbn; by rewrite length_map).
  destruct (type p); cbn zeta.
  - set (insts1 := alter _ _ insts).
    assert (cores insts1 = cs ++ [add_in PORT_CONTROL (i, None) c]) as E1.
    { apply cores_alter_last; [done|]. intros x. unfold instance_core, add_in. cbn. by rewrite map_app. }
    rewrite find_control_core, E1, (find_out_app _ _ _ c), Hf by done.
    eexists. split; [done|]. rewrite Lc, <- (set_in_peer_add PORT_CONTROL).
    apply cores_alter_last; [by rewrite cores_set_out_control|].
    intros x. apply core_set_input_control.
  - set (insts1 := alter _ _ insts).
    assert (cores insts1 = cs ++ [add_in PORT_AUDIO (i, None) c]) as E1.
    { apply cores_alter_last; [done|]. intros x. unfold instance_core, add_in. cbn. by rewrite map_app. }
    rewrite find_audio_core, E1, (find_out_app _ _ _ c), Hf by done.
    eexists. split; [done|]. rewrite La, <- (set_in_peer_add PORT_AUDIO).
    apply cores_alter_last; [by rewrite cores_set_out_audio|].
    intros x. apply core_set_input_audio.
Qed.

(** Without an origin the port fails, whatever happened to the state. *)
Lemma build_port_fails fuel n self plugin i p insts :
  needs_origin p -> find_origin_port fuel n insts plugin i = Done None ->
  build_port fuel n self plugin i p insts = Done ((-1)%Z, insts).
Proof. intros Hn Ho. unfold build_port. by rewrite (need_connect_true p Hn), Ho. Qed.
End Cores.

(** ** The graph *)

Section Graph.
Context `{ModuleLib}.

Definition port_at (n : ini) (p j : nat) : option port :=
  pl ← plugins n !! p; ports pl !! j.

(** Where the flow of a port comes from: flow->from, flow->from_port. *)
Definition port_up (n : ini) (p : port) : option (nat * nat) :=
  if (flow_id p <? 0)%Z then None
  else f ← flows n !! Z.to_nat (flow_id p); q ← from f; Some (q, from_port f).

(** The input port that stands for output port [oj] of a plugin that is
    skipped: the k-th of the type for the k-th. *)
Definition bypass (n : ini) (q oj : nat) (ty : port_type) : option nat :=
  up ← plugins n !! q; k ← count_outputs (ports up) 0 oj ty 0; nth_input (ports up) 0 ty k.

(** Whether a plugin is enabled. *)
Definition enabled (n : ini) (env : cras_expr_env) (p : nat) : bool :=
  match plugins n !! p with
  | Some pl => match is_disabled pl env with Done b => negb b | _ => false end
  | None => false
  end.

(** The real origin of the data sent to port [j] of plugin [p]: upstream, past
    the plugins that are disabled. *)
Inductive origin (n : ini) (env : cras_expr_env) : nat -> nat -> nat -> nat -> Prop :=
| origin_here p j x q oj :
    port_at n p j = Some x -> port_up n x = Some (q, oj) -> enabled n env q = true ->
    origin n env p j q oj
| origin_past p j x q oj i q' oj' :
    port_at n p j = Some x -> port_up n x = Some (q, oj) -> enabled n env q = false ->
    bypass n q oj (type x) = Some i -> origin n env q i q' oj' -> origin n env p j q' oj'.

(** A well-formed graph: every flow has one writer, and data flows from lower
    to higher ranks. *)
Record graph_ok (n : ini) (rank : nat -> nat) : Prop := {
  g_wf : ini_wf n;
  g_out : forall p j x, port_at n p j = Some x -> direction x = PORT_OUTPUT ->
    flow_id x <> INVALID_FLOW_ID -> port_up n x = Some (p, j);
  g_in : forall p j x q oj, port_at n p j = Some x -> direction x = PORT_INPUT ->
    port_up n x = Some (q, oj) -> rank q < rank p
}.

Variables (n : ini) (env : cras_expr_env) (rank : nat -> nat).
Hypothesis G : graph_ok n rank.

Lemma port_at_ok p j x : port_at n p j = Some x -> port_ok (flows n) x.
Proof.
  unfold port_at. intros Hx. destruct (plugins n !! p) as [pl|] eqn:Hp; [cbn in Hx | done].
  pose proof (Forall_lookup_1 _ _ _ _ (wf_plugins _ (g_wf _ _ G)) Hp) as (_ & _ & _ & Hps).
  exact (Forall_lookup_1 _ _ _ _ Hps Hx).
Qed.

(** The flow of a port that names one. *)
Lemma port_flow p j x :
  port_at n p j = Some x -> flow_id x <> INVALID_FLOW_ID ->
  exists k f, flow_id x = Z.of_nat k /\ flows n !! k = Some f /\ type x = name_type (flow_name f)
    /\ flow_at n (flow_id x) = Done f
    /\ port_up n x = (q ← from f; Some (q, from_port f)).
Proof.
  intros Hx Hid. destruct (port_at_ok _ _ _ Hx) as [[E _]|(k & f & E & Hf & Ht)]; [done|].
  exists k, f. split_and!; try done.
  - unfold flow_at. rewrite E, Nat2Z.id, Hf.
    by assert ((Z.of_nat k <? 0)%Z = false) as -> by (apply Z.ltb_ge; lia).
  - unfold port_up. rewrite E, Nat2Z.id, Hf.
    by assert ((Z.of_nat k <? 0)%Z = false) as -> by (apply Z.ltb_ge; lia).
Qed.

Lemma port_up_flow x q oj : port_up n x = Some (q, oj) -> flow_id x <> INVALID_FLOW_ID.
Proof. unfold port_up, INVALID_FLOW_ID. intros Hu E. by rewrite E in Hu. Qed.

(** The source of a flow is an output port of its type. *)
Lemma port_up_output p j x q oj :
  port_at n p j = Some x -> port_up n x = Some (q, oj) ->
  exists y, port_at n q oj = Some y /\ direction y = PORT_OUTPUT /\ type y = type x.
Proof.
  intros Hx Hu. destruct (port_flow _ _ _ Hx (port_up_flow _ _ _ Hu)) as (k & f & E & Hf & Ht & _ & Eu).
  rewrite Hu in Eu. destruct (from f) as [q'|] eqn:Efr; [|done]. cbn in Eu.
  injection Eu as <- ->.
  destruct (wf_ends _ (g_wf _ _ G) k f Hf) as (_ & Hfr & _). cbn zeta in Hfr. rewrite Efr in Hfr.
  destruct (last_such _ _) as [[[i' j'] y]|] eqn:El; [|done]. cbn in Hfr.
  injection Hfr as <- <-. apply last_such_Some in El as [Hin Hon].
  apply elem_of_place in Hin as (a & pl & -> & Ha & Hy). cbn in *.
  assert (port_at n a (from_port f) = Some y) as Hat by (unfold port_at; by rewrite Ha).
  exists y. split; [exact Hat|]. unfold on_end, on_flow in Hon. cbn in Hon.
  apply andb_true_iff in Hon as [Hd Hid]. apply bool_decide_eq_true in Hd.
  apply Z.eqb_eq in Hid. split; [done|].
  destruct (port_at_ok _ _ _ Hat) as [[E' _]|(k' & f' & E' & Hf' & Ht')].
  - rewrite Hid in E'. unfold INVALID_FLOW_ID in E'. lia.
  - rewrite Hid in E'. apply Nat2Z.inj in E' as <-. congruence.
Qed.

Lemma port_at_plugin p j x : port_at n p j = Some x -> p < length (plugins n).
Proof.
  unfold port_at. destruct (plugins n !! p) eqn:E; [|done]. intros _. by eapply lookup_lt_Some.
Qed.

(** The port nth_input finds. *)
Lemma nth_input_Some ps i0 ty k i :
  nth_input ps i0 ty k = Some i ->
  exists b x, i = i0 + b /\ ps !! b = Some x /\ direction x = PORT_INPUT /\ type x = ty.
Proof.
  revert i0 k. induction ps as [|y ps IH]; intros i0 k; cbn; [done|].
  destruct (bool_decide (direction y = PORT_INPUT) && bool_decide (type y = ty)) eqn:E.
  - apply andb_true_iff in E as [E1 E2]. apply bool_decide_eq_true in E1, E2.
    destruct k as [|k].
    + intros [= <-]. exists 0, y. split_and!; [lia | done | done | done].
    + intros Hn. destruct (IH _ _ Hn) as (b & x & -> & Hb & ?). exists (S b), x.
      split_and!; [lia | done | tauto | tauto].
  - intros Hn. destruct (IH _ _ Hn) as (b & x & -> & Hb & ?). exists (S b), x.
    split_and!; [lia | done | tauto | tauto].
Qed.

Lemma bypass_input q oj ty i :
  bypass n q oj ty = Some i ->
  exists x, port_at n q i = Some x /\ direction x = PORT_INPUT /\ type x = ty.
Proof.
  unfold bypass, port_at. destruct (plugins n !! q) as [up|]; [cbn | done].
  destruct (count_outputs _ _ _ _ _) as [k|]; [cbn | done].
  intros Hn. destruct (nth_input_Some _ _ _ _ _ Hn) as (b & x & -> & ?). exists x. tauto.
Qed.

(** ** find_origin_port finds the origin *)

Section Origin.
Variables (insts : list instance) (P : nat -> Prop).
(** [P] holds of plugins that are settled: they have an instance exactly when
    they are enabled, and what flows into them comes from settled ones. *)
Definition ready (p : nat) : Prop :=
  forall j x, port_at n p j = Some x -> needs_origin x ->
    exists q oj, port_up n x = Some (q, oj) /\ P q.
Hypothesis P_inst : forall q, P q -> (is_Some (find_core (cores insts) q) <-> enabled n env q = true).
Hypothesis P_ready : forall q, P q -> ready q.

Definition found (p j : nat) (x : port) (r : option (nat * nat)) : Prop :=
  match r with
  | Some (q, oj) =>
      origin n env p j q oj /\ P q /\ enabled n env q = true /\
      exists y, port_at n q oj = Some y /\ direction y = PORT_OUTPUT /\ type y = type x
  | None => forall q oj, ~ origin n env p j q oj
  end.

Lemma origin_first p j x q oj :
  port_at n p j = Some x -> origin n env p j q oj -> exists u, port_up n x = Some u.
Proof.
  intros Hx Ho. destruct Ho as [p j y q oj Hy Hu _|p j y q oj i q' oj' Hy Hu _ _ _];
    rewrite Hx in Hy; injection Hy as <-; eauto.
Qed.

Lemma find_origin_spec fuel p j x :
  rank p < fuel -> ready p -> port_at n p j = Some x -> direction x = PORT_INPUT ->
  exists r, find_origin_port fuel n insts p j = Done r /\ found p j x r.
Proof.
  revert p j x. induction fuel as [|fuel IH]; intros p j x Hr Hp Hx Hd; [lia|].
  cbn [find_origin_port]. pose proof Hx as Hx'. unfold port_at in Hx'.
  destruct (plugins n !! p) as [pl|]; [cbn in Hx' | done]. cbn [access]. rewrite bind_Done_eq.
  rewrite Hx'. cbn [access]. rewrite bind_Done_eq. destruct (Z.eqb_spec (flow_id x) INVALID_FLOW_ID) as [E|E].
  { exists None. split; [done|]. intros q oj Ho. destruct (origin_first _ _ _ _ _ Hx Ho) as [[q' o'] Hu].
    by apply port_up_flow in Hu. }
  destruct (port_flow _ _ _ Hx E) as (k & f & _ & _ & _ & -> & Eu). rewrite bind_Done_eq.
  destruct (Hp j x Hx (conj E Hd)) as (q & oj & Hu & HPq). rewrite Hu in Eu.
  destruct (from f) as [q'|] eqn:Ef; [|done]. cbn in Eu. injection Eu as <- ->.
  rewrite find_instance_core.
  destruct (port_up_output _ _ _ _ _ Hx Hu) as (y & Hy & Hyd & Hyt).
  destruct (enabled n env q) eqn:En.
  { destruct (proj2 (P_inst q HPq) En) as [b ->]. eexists. split; [done|].
    split_and!; [by eapply origin_here | done | done | by exists y]. }
  destruct (find_core (cores insts) q) as [b|] eqn:Ec.
  { exfalso. assert (enabled n env q = true) by (apply P_inst; [done | by exists b]). congruence. }
  cbn [access]. rewrite bind_Done_eq. pose proof (port_at_plugin _ _ _ Hy) as Hql.
  destruct (lookup_lt_is_Some_2 _ _ Hql) as [up Hup]. rewrite Hup. cbn [access]. rewrite bind_Done_eq.
  assert (bypass n q (from_port f) (type x)
          = (k ← count_outputs (ports up) 0 (from_port f) (type x) 0;
             nth_input (ports up) 0 (type x) k)) as Eb by (unfold bypass; by rewrite Hup).
  assert (forall q0 o0, origin n env p j q0 o0 ->
            exists i, bypass n q (from_port f) (type x) = Some i /\ origin n env q i q0 o0) as Hinv.
  { intros q0 o0 Ho. inversion Ho as [? ? x0 ? ? H1 H2 H3|? ? x0 q1 o1 i ? ? H1 H2 H3 H4 H5]; subst.
    - congruence.
    - assert (x0 = x) as -> by congruence. assert (q1 = q /\ o1 = from_port f) as [-> ->]
        by (split; congruence). by exists i. }
  destruct (count_outputs _ _ _ _ _) as [k'|].
  2:{ exists None. split; [done|]. intros q0 o0 Ho. destruct (Hinv _ _ Ho) as (i & Hi & _).
      by rewrite Eb in Hi. }
  cbn in Eb. destruct (nth_input _ _ _ _) as [i|].
  2:{ exists None. split; [done|]. intros q0 o0 Ho. destruct (Hinv _ _ Ho) as (i & Hi & _).
      by rewrite Eb in Hi. }
  destruct (bypass_input _ _ _ _ Eb) as (z & Hz & Hzd & Hzt).
  pose proof (g_in _ _ G _ _ _ _ _ Hx Hd Hu) as Hrk.
  destruct (IH q i z) as (r & -> & Hf); [lia | by apply P_ready | done | done|].
  exists r. split; [done|]. destruct r as [[q0 o0]|]; cbn in Hf |- *.
  - destruct Hf as (Ho & HP & He & y0 & Hy0 & Hd0 & Ht0). split_and!; [by eapply origin_past | done | done|].
    exists y0. split_and!; [done | done | congruence].
  - intros q0 o0 Ho. destruct (Hinv _ _ Ho) as (i' & Hi' & Ho'). rewrite Eb in Hi'.
    injection Hi' as <-. by apply (Hf q0 o0).
Qed.
End Origin.
End Graph.
