(* ===== verification/PipelineTopo.v ===== *)
(** * PipelineTopo: topological_sort on a well-formed graph *)

From S2P Require Import Prelude CString Float32 Dictionary Expr ExprEval DspIni DspGraph DspUtil Pipeline PipelineSort.

Section Topo.
Context `{ModuleLib}.
Variables (n : ini) (env : cras_expr_env) (rank : nat -> nat).
Hypothesis G : graph_ok n rank.
Hypothesis Henv : env_ok env.

(** ** The ports of an instance *)

(** The indices, from [i] on, of the ports of a direction and type. *)
Fixpoint idxs (dir : port_direction) (ty : port_type) (i : nat) (ps : list port) : list nat :=
  match ps with
  | [] => []
  | p :: ps =>
      (if bool_decide (direction p = dir) && bool_decide (type p = ty) then [i] else [])
      ++ idxs dir ty (i + 1) ps
  end.

Lemma idxs_snoc dir ty i ps p :
  idxs dir ty i (ps ++ [p]) =
  idxs dir ty i ps ++
  (if bool_decide (direction p = dir) && bool_decide (type p = ty) then [i + length ps] else []).
Proof.
  revert i. induction ps as [|q ps IH]; intros i; cbn.
  - by rewrite app_nil_r, Nat.add_0_r.
  - rewrite IH, app_assoc. by replace (i + 1 + length ps) with (i + S (length ps)) by lia.
Qed.

Lemma elem_of_idxs dir ty i ps k :
  k ∈ idxs dir ty i ps <->
  exists b x, k = i + b /\ ps !! b = Some x /\ direction x = dir /\ type x = ty.
Proof.
  revert i. induction ps as [|p ps IH]; intros i; cbn.
  { split; [intros Hk; inversion Hk | by intros (b & x & _ & Hb & _)]. }
  rewrite elem_of_app, IH. split.
  - intros [Hk|(b & x & -> & Hb & Hx)].
    + destruct (bool_decide (direction p = dir) && bool_decide (type p = ty)) eqn:E; [|inversion Hk].
      apply list_elem_of_singleton in Hk as ->. apply andb_true_iff in E as [E1 E2].
      apply bool_decide_eq_true in E1, E2. exists 0, p. split_and!; [lia | done..].
    + exists (S b), x. split_and!; [lia | done | tauto | tauto].
  - intros ([|b] & x & -> & Hb & Hd & Ht); cbn in Hb.
    + left. injection Hb as ->. rewrite !bool_decide_true by done. cbn.
      apply list_elem_of_singleton. lia.
    + right. exists b, x. split_and!; [lia | done..].
Qed.

(** Where an input port of the instance at [a] is connected: to an output port
    of an earlier instance, its origin; a port without a flow to nothing. *)
Definition peer_ok (cs : list core) (a : nat) (ty : port_type) (p : nat)
    (x : nat * option (nat * nat)) : Prop :=
  exists pt, port_at n p x.1 = Some pt /\
  match x.2 with
  | None => flow_id pt = INVALID_FLOW_ID
  | Some (b, k) =>
      exists cb q oj, b < a /\ cs !! b = Some cb /\ k_out ty cb !! k = Some (q, oj) /\
        k_plugin cb = q /\ origin n env p x.1 q oj
  end.

(** The core at [a] has the ports [ps] of its plugin. *)
Definition core_upto (cs : list core) (a : nat) (c : core) (ps : list port) : Prop :=
  forall ty, k_out ty c = map (fun i => (k_plugin c, i)) (idxs PORT_OUTPUT ty 0 ps) /\
    map fst (k_in ty c) = idxs PORT_INPUT ty 0 ps /\
    Forall (peer_ok cs a ty (k_plugin c)) (k_in ty c).

Definition core_ok (cs : list core) (a : nat) (c : core) : Prop :=
  exists pl, plugins n !! k_plugin c = Some pl /\ core_upto cs a c (ports pl).

Lemma peer_ok_app cs cs' a ty p x : peer_ok cs a ty p x -> peer_ok (cs ++ cs') a ty p x.
Proof.
  intros (pt & Hpt & Hx). exists pt. split; [done|]. destruct x.2 as [[b k]|]; [|done].
  destruct Hx as (cb & q & oj & Hb & Hcb & Hr). exists cb, q, oj. split_and!; try tauto.
  by apply lookup_app_l_Some.
Qed.

Lemma core_upto_app cs cs' a c ps : core_upto cs a c ps -> core_upto (cs ++ cs') a c ps.
Proof.
  intros Hc ty. destruct (Hc ty) as (H1 & H2 & H3). split_and!; [done | done|].
  revert H3. apply List.Forall_impl. intros x. apply peer_ok_app.
Qed.

Lemma core_ok_app cs cs' a c : core_ok cs a c -> core_ok (cs ++ cs') a c.
Proof. intros (pl & Hpl & Hc). exists pl. split; [done | by apply core_upto_app]. Qed.

Lemma k_plugin_add_in ty x c : k_plugin (add_in ty x c) = k_plugin c.
Proof. by destruct ty. Qed.

Lemma k_plugin_add_out ty x c : k_plugin (add_out ty x c) = k_plugin c.
Proof. by destruct ty. Qed.

Lemma k_out_add_in ty ty' x c : k_out ty (add_in ty' x c) = k_out ty c.
Proof. by destruct ty, ty'. Qed.

Lemma k_in_add_out ty ty' x c : k_in ty (add_out ty' x c) = k_in ty c.
Proof. by destruct ty, ty'. Qed.

Lemma k_in_add_in ty ty' x c :
  k_in ty (add_in ty' x c) = k_in ty c ++ (if bool_decide (ty' = ty) then [x] else []).
Proof. destruct ty, ty'; cbn; by rewrite ?app_nil_r. Qed.

Lemma k_out_add_out ty ty' x c :
  k_out ty (add_out ty' x c) = k_out ty c ++ (if bool_decide (ty' = ty) then [x] else []).
Proof. destruct ty, ty'; cbn; by rewrite ?app_nil_r. Qed.

(** A port added at the end. *)
Lemma core_upto_in cs a c ps p peer :
  core_upto cs a c ps -> direction p = PORT_INPUT ->
  peer_ok cs a (type p) (k_plugin c) (length ps, peer) ->
  core_upto cs a (add_in (type p) (length ps, peer) c) (ps ++ [p]).
Proof.
  intros Hc Hd Hp ty. destruct (Hc ty) as (H1 & H2 & H3).
  rewrite !idxs_snoc, Hd, k_out_add_in, k_in_add_in, k_plugin_add_in.
  split_and!; [cbn; by rewrite app_nil_r | rewrite map_app, H2; cbn; by case_bool_decide|].
  apply Forall_app. split; [done|]. case_bool_decide as E; [|constructor].
  subst ty. by repeat constructor.
Qed.

Lemma core_upto_out cs a c ps p :
  core_upto cs a c ps -> direction p = PORT_OUTPUT ->
  core_upto cs a (add_out (type p) (k_plugin c, length ps) c) (ps ++ [p]).
Proof.
  intros Hc Hd ty. destruct (Hc ty) as (H1 & H2 & H3).
  rewrite !idxs_snoc, Hd, k_out_add_out, k_in_add_out, k_plugin_add_out, H1.
  split_and!; [|cbn; by rewrite app_nil_r | done]. rewrite map_app. cbn. by case_bool_decide.
Qed.

(** The output port [oj] of a plugin in the list is found. *)
Lemma find_out_ok cs q oj ty y :
  (forall a c, cs !! a = Some c -> core_ok cs a c) -> q ∈ map k_plugin cs ->
  port_at n q oj = Some y -> direction y = PORT_OUTPUT -> type y = ty ->
  forall tl, exists b k cb, find_out ty (cs ++ tl) q oj = Some (b, k) /\
    cs !! b = Some cb /\ k_out ty cb !! k = Some (q, oj) /\ k_plugin cb = q.
Proof.
  intros Hok Hq Hy Hd Ht tl.
  destruct (find_core cs q) as [b|] eqn:Eb.
  2:{ exfalso. apply list_elem_of_fmap in Hq as (c & -> & Hc).
      pose proof (proj1 (find_idx_None _ _) Eb c Hc) as E. cbn in E.
      by rewrite Nat.eqb_refl in E. }
  pose proof Eb as Eb'. apply find_idx_Some in Eb' as ((cb & Hcb & E) & Hmin).
  apply Nat.eqb_eq in E.
  assert (find_core (cs ++ tl) q = Some b) as Ef.
  { apply find_idx_Some. split.
    - exists cb. split; [by apply lookup_app_l_Some | by apply Nat.eqb_eq].
    - intros j c Hj Hc. apply (Hmin j); [done|].
      rewrite lookup_app_l in Hc; [done|]. apply lookup_lt_Some in Hcb. lia. }
  destruct (Hok b cb Hcb) as (pl & Hpl & Hup). destruct (Hup ty) as (Ho & _ & _).
  assert ((q, oj) ∈ k_out ty cb) as Hin.
  { rewrite Ho, E. apply list_elem_of_fmap. exists oj. split; [done|]. apply elem_of_idxs.
    unfold port_at in Hy. rewrite E in Hpl. rewrite Hpl in Hy. cbn in Hy.
    exists oj, y. split_and!; [lia | done..]. }
  destruct (find_idx (fun x : nat * nat => x.2 =? oj) (k_out ty cb)) as [k|] eqn:Ek.
  2:{ exfalso. pose proof (proj1 (find_idx_None _ _) Ek _ Hin) as E1. cbn in E1.
      by rewrite Nat.eqb_refl in E1. }
  exists b, k, cb. unfold find_out. rewrite Ef. cbn.
  rewrite (lookup_app_l_Some _ _ _ _ Hcb). cbn. rewrite Ek. cbn. split_and!; try done.
  apply find_idx_Some in Ek as (([q' o'] & Hk & E1) & _). cbn in E1. apply Nat.eqb_eq in E1 as ->.
  rewrite Hk. f_equal. f_equal. rewrite Ho in Hk.
  apply list_elem_of_lookup_2, list_elem_of_fmap in Hk as (? & [= -> _] & _). done.
Qed.

(** ** The ports of a plugin built *)

Section Build.
Variables (P : nat -> Prop) (ofuel pg : nat) (pl : plugin) (cs : list core).
Hypothesis Hpl : plugins n !! pg = Some pl.
Hypothesis Hrank : rank pg < ofuel.
Hypothesis Hcs : forall a c, cs !! a = Some c -> core_ok cs a c.
Hypothesis P_enabled : forall q, P q -> (q ∈ map k_plugin cs <-> enabled n env q = true).
Hypothesis P_ready : forall q, P q -> ready n P q.
Hypothesis Hready : ready n P pg.
Hypothesis Hself : ~ P pg.

Lemma P_find q c : P q -> k_plugin c = pg ->
  (is_Some (find_core (cs ++ [c]) q) <-> enabled n env q = true).
Proof.
  intros HP Hc. rewrite <- (P_enabled q HP). unfold find_core. split.
  - intros [b Hb]. apply find_idx_Some in Hb as ((cb & Hcb & E) & _). apply Nat.eqb_eq in E.
    apply lookup_app_Some in Hcb as [Hcb|[_ Hcb]].
    + rewrite <- E. apply list_elem_of_fmap. exists cb. split; [done | by eapply list_elem_of_lookup_2].
    + apply list_lookup_singleton_Some in Hcb as [_ <-]. subst q. rewrite Hc in HP. done.
  - intros Hq. destruct (find_idx _ _) eqn:E; [done|]. exfalso.
    apply list_elem_of_fmap in Hq as (cb & -> & Hcb).
    pose proof (proj1 (find_idx_None _ _) E cb) as E1. cbn in E1. rewrite Nat.eqb_refl in E1.
    discriminate E1. apply elem_of_app. by left.
Qed.

(** The turn for one port. *)
Lemma build_port_spec insts c ps p tl :
  ports pl = ps ++ p :: tl -> cores insts = cs ++ [c] -> k_plugin c = pg ->
  core_upto cs (length cs) c ps ->
  exists rc insts', build_port ofuel n (length cs) pg (length ps) p insts = Done (rc, insts') /\
    ((rc <? 0)%Z = false ->
     exists c', cores insts' = cs ++ [c'] /\ k_plugin c' = pg /\
       core_upto cs (length cs) c' (ps ++ [p])).
Proof.
  intros Hps E Hc Hup.
  assert (port_at n pg (length ps) = Some p) as Hat.
  { unfold port_at. rewrite Hpl. cbn. rewrite Hps. by apply list_lookup_middle. }
  destruct (direction p) eqn:Hd.
  2:{ destruct (build_port_free ofuel n pg (length ps) p insts cs c E (or_intror Hd))
        as (insts' & -> & E'). rewrite Hd in E'. eexists _, _. split; [done|]. intros _.
      exists (add_out (type p) (pg, length ps) c).
      split_and!; [done | by rewrite k_plugin_add_out|].
      rewrite <- Hc. by apply core_upto_out. }
  destruct (decide (flow_id p = INVALID_FLOW_ID)) as [Hf|Hf].
  { destruct (build_port_free ofuel n pg (length ps) p insts cs c E (or_introl Hf))
      as (insts' & -> & E'). rewrite Hd in E'. eexists _, _. split; [done|]. intros _.
    exists (add_in (type p) (length ps, None) c).
    split_and!; [done | by rewrite k_plugin_add_in|]. apply core_upto_in; [done | done|].
    rewrite Hc. exists p. done. }
  destruct (find_origin_spec n env rank G insts P) with (fuel := ofuel) (p := pg)
    (j := length ps) (x := p) as (r & Ho & Hr); try done.
  { intros q HP. rewrite E. by apply P_find. }
  destruct r as [[q oj]|].
  2:{ eexists _, _. split; [by apply build_port_fails | done]. }
  destruct Hr as (Horg & HP & Hen & y & Hy & Hyd & Hyt).
  destruct (find_out_ok cs q oj (type p) y Hcs) with (tl := [c]) as (b & k & cb & Hfo & Hcb & Hk & Hq);
    [by apply P_enabled | done | done | done|].
  destruct (build_port_origin ofuel n pg (length ps) p insts cs c q oj (b, k) E (conj Hf Hd) Ho Hfo)
    as (insts' & -> & E'). eexists _, _. split; [done|]. intros _.
  exists (add_in (type p) (length ps, Some (b, k)) c).
  split_and!; [done | by rewrite k_plugin_add_in|]. apply core_upto_in; [done | done|].
  rewrite Hc. exists p. split; [done|]. cbn. exists cb, q, oj.
  split_and!; try done. by eapply lookup_lt_Some.
Qed.

Lemma build_ports_spec insts c ps tl :
  ports pl = ps ++ tl -> cores insts = cs ++ [c] -> k_plugin c = pg ->
  core_upto cs (length cs) c ps ->
  exists rc insts', build_ports ofuel n (length cs) pg (length ps) tl insts = Done (rc, insts') /\
    ((rc <? 0)%Z = false ->
     exists c', cores insts' = cs ++ [c'] /\ k_plugin c' = pg /\
       core_upto cs (length cs) c' (ports pl)).
Proof.
  revert insts c ps. induction tl as [|p tl IH]; intros insts c ps Hps E Hc Hup; cbn [build_ports].
  - eexists _, _. split; [done|]. intros _. exists c. rewrite Hps, app_nil_r. done.
  - destruct (build_port_spec insts c ps p tl Hps E Hc Hup) as (rc & insts1 & -> & H1).
    rewrite bind_Done_eq. destruct (rc <? 0)%Z; [by eexists _, _|].
    destruct (H1 eq_refl) as (c1 & E1 & Hc1 & Hup1).
    destruct (IH insts1 c1 (ps ++ [p])) as (rc2 & insts2 & Hb & H2); try done.
    { by rewrite <- app_assoc. }
    rewrite length_app in Hb. cbn in Hb. eauto.
Qed.
End Build.

(** ** topological_sort *)

(** What can be reached from a plugin against the flows. *)
Inductive reach (p : nat) : nat -> Prop :=
| reach_here : reach p p
| reach_up q j x r oj :
    reach p q -> port_at n q j = Some x -> port_up n x = Some (r, oj) -> reach p r.

Lemma reach_trans p q r : reach p q -> reach q r -> reach p r.
Proof. intros Hp Hq. induction Hq as [|q' j x r oj _ IH Hx Hu]; [done | by eapply reach_up]. Qed.

Definition vis (visited : list bool) (q : nat) : Prop := visited !! q = Some true.

(** [stk] holds of the plugins whose visit is under way. *)
Definition settled (stk : nat -> Prop) (visited : list bool) (q : nat) : Prop :=
  vis visited q /\ ~ stk q.

(** All that flows into a settled plugin has been visited. *)
Definition ups_visited (visited : list bool) (q : nat) : Prop :=
  forall j x, port_at n q j = Some x -> flow_id x <> INVALID_FLOW_ID ->
    exists q' oj, port_up n x = Some (q', oj) /\ vis visited q'.

Record sort_inv (stk : nat -> Prop) (cs : list core) (visited : list bool) : Prop := {
  si_len : length visited = length (plugins n);
  si_cores : forall a c, cs !! a = Some c ->
    core_ok cs a c /\ enabled n env (k_plugin c) = true /\ settled stk visited (k_plugin c);
  si_nodup : NoDup (map k_plugin cs);
  si_done : forall q, settled stk visited q ->
    (enabled n env q = true -> q ∈ map k_plugin cs) /\ ups_visited visited q /\
    ready n (settled stk visited) q
}.

(** What a successful visit of [q] achieves. *)
Record step (stk : nat -> Prop) (q : nat) (cs : list core) (v : list bool)
    (cs' : list core) (v' : list bool) : Prop := {
  st_inv : sort_inv stk cs' v';
  st_ext : exists tl, cs' = cs ++ tl;
  st_mono : forall r, vis v r -> vis v' r;
  st_reach : forall r, vis v' r -> vis v r \/ reach q r;
  st_count : count negb v' <= count negb v
}.

Lemma step_trans stk p q cs v cs1 v1 cs2 v2 :
  step stk p cs v cs1 v1 -> reach p q -> step stk q cs1 v1 cs2 v2 -> step stk p cs v cs2 v2.
Proof.
  intros S1 Hr S2. split.
  - apply S2.
  - destruct (st_ext _ _ _ _ _ _ S1) as [t1 ->]. destruct (st_ext _ _ _ _ _ _ S2) as [t2 ->].
    exists (t1 ++ t2). by rewrite app_assoc.
  - intros r Hv. by apply S2, S1.
  - intros r Hv. destruct (st_reach _ _ _ _ _ _ S2 r Hv) as [Hv1|Hv1].
    + by apply (st_reach _ _ _ _ _ _ S1).
    + right. by eapply reach_trans.
  - pose proof (st_count _ _ _ _ _ _ S1). pose proof (st_count _ _ _ _ _ _ S2). lia.
Qed.

Lemma step_refl stk q cs v : sort_inv stk cs v -> step stk q cs v cs v.
Proof. intros I. split; auto. exists []. by rewrite app_nil_r. Qed.

Definition visits (fuel : nat) (visit : nat -> list instance * list bool -> outcome (Z * (list instance * list bool)))
    (stk : nat -> Prop) : Prop :=
  forall q insts v, sort_inv stk (cores insts) v -> q < length (plugins n) ->
    (v !! q = Some false -> forall s, stk s -> rank q < rank s) -> count negb v < fuel ->
    exists rc insts' v', visit q (insts, v) = Done (rc, (insts', v')) /\
      ((rc <? 0)%Z = false -> step stk q (cores insts) v (cores insts') v' /\ vis v' q).

Lemma visit_ports_spec fuel visit stk p ps insts v :
  visits fuel visit stk -> sort_inv stk (cores insts) v ->
  (forall s, stk s -> rank p <= rank s) -> vis v p -> count negb v < fuel ->
  (forall x, x ∈ ps -> exists j, port_at n p j = Some x) ->
  exists rc insts' v', visit_ports visit n ps (insts, v) = Done (rc, (insts', v')) /\
    ((rc <? 0)%Z = false ->
     step stk p (cores insts) v (cores insts') v' /\
     forall x, x ∈ ps -> flow_id x <> INVALID_FLOW_ID ->
       exists q oj, port_up n x = Some (q, oj) /\ vis v' q).
Proof.
  intros Hvisit I Hstk. revert insts v I. induction ps as [|x ps IH]; intros insts v I Hv Hc Hps;
    cbn [visit_ports].
  { eexists _, _, _. split; [done|]. intros _. split; [by apply step_refl|].
    intros x Hx. inversion Hx. }
  assert (forall y, y ∈ ps -> exists j, port_at n p j = Some y) as Hps'.
  { intros y Hy. apply Hps. by right. }
  destruct (Hps x ltac:(left)) as [j Hx].
  destruct (Z.eqb_spec (flow_id x) INVALID_FLOW_ID) as [E|E].
  { destruct (IH insts v I Hv Hc Hps') as (rc & insts' & v' & -> & Hr).
    eexists _, _, _. split; [done|]. intros Hrc. destruct (Hr Hrc) as [Hs Hup]. split; [done|].
    intros y [->|Hy]%elem_of_cons; [done | auto]. }
  destruct (port_flow n rank G _ _ _ Hx E) as (k & f & _ & _ & _ & -> & Eu).
  rewrite bind_Done_eq. destruct (from f) as [q|]; [|by eexists _, _, _]. cbn in Eu.
  destruct (port_up_output n rank G _ _ _ _ _ Hx Eu) as (y & Hy & _).
  destruct (Hvisit q insts v I (port_at_plugin _ _ _ _ Hy)) as (rc & insts1 & v1 & -> & H1); [|done|].
  { intros Hq s Hs. destruct (direction x) eqn:Ed.
    - pose proof (g_in _ _ G _ _ _ _ _ Hx Ed Eu). specialize (Hstk s Hs). lia.
    - rewrite (g_out _ _ G _ _ _ Hx Ed E) in Eu. injection Eu as <- _.
      unfold vis in Hv. congruence. }
  rewrite bind_Done_eq. destruct (rc <? 0)%Z; [by eexists _, _, _|].
  destruct (H1 eq_refl) as [S1 Hq1]. pose proof (st_count _ _ _ _ _ _ S1) as Hcnt.
  destruct (IH insts1 v1) as (rc2 & insts2 & v2 & -> & H2);
    [apply S1 | by apply S1 | lia | done|].
  assert (reach p q) as Hpq by (eapply reach_up; [apply reach_here | exact Hx | exact Eu]).
  eexists _, _, _. split; [done|]. intros Hrc. destruct (H2 Hrc) as [S2 Hup].
  assert (step stk p (cores insts) v (cores insts1) v1) as S1'.
  { destruct S1 as [Q1 Q2 Q3 Q4 Q5]. split; try done. intros r Hr.
    destruct (Q4 r Hr) as [?|?]; [by left | right; by eapply reach_trans]. }
  split; [by eapply step_trans; [exact S1' | apply reach_here | exact S2]|].
  intros z [->|Hz]%elem_of_cons Ez; [|auto]. exists q, (from_port f).
  split; [exact Eu | by apply S2].
Qed.

(** A plugin put on the stack of visits. *)
Lemma sort_inv_push stk cs v p :
  sort_inv stk cs v -> v !! p = Some false -> ~ stk p ->
  sort_inv (fun s => s = p \/ stk s) cs (<[p := true]> v).
Proof.
  intros I Hp Hns.
  assert (forall q, settled (fun s => s = p \/ stk s) (<[p := true]> v) q <-> settled stk v q) as E.
  { intros q. unfold settled, vis. destruct (decide (q = p)) as [->|Hne].
    - rewrite Hp. split; [intros [_ Hn]; exfalso; auto | intros [? _]; done].
    - rewrite list_lookup_insert_ne by congruence. naive_solver. }
  assert (forall q, vis v q -> vis (<[p := true]> v) q) as Hm.
  { intros q Hq. unfold vis in *. rewrite list_lookup_insert_ne; [done|]. intros ->. congruence. }
  split.
  - rewrite length_insert. apply I.
  - intros a c Hc. destruct (si_cores _ _ _ I a c Hc) as (H1 & H2 & H3).
    split_and!; [done | done | by apply E].
  - apply I.
  - intros q Hq. apply E in Hq. destruct (si_done _ _ _ I q Hq) as (H1 & H2 & H3). split_and!.
    + done.
    + intros j x Hx Hf. destruct (H2 j x Hx Hf) as (q' & oj & Hu & Hv). eauto.
    + intros j x Hx Hf. destruct (H3 j x Hx Hf) as (q' & oj & Hu & Hs). exists q', oj.
      split; [done | by apply E].
Qed.

Lemma ready_mono P Q q : (forall r, P r -> Q r) -> ready n P q -> ready n Q q.
Proof. intros HPQ Hr j x Hx Hn. destruct (Hr j x Hx Hn) as (q' & oj & Hu & HP). eauto. Qed.

(** A plugin taken off the stack, with the cores [cs'] it may have added. *)
Lemma sort_inv_pop stk cs cs' v p :
  sort_inv (fun s => s = p \/ stk s) cs v -> vis v p -> ~ stk p -> ups_visited v p ->
  ready n (settled (fun s => s = p \/ stk s) v) p ->
  (cs' = cs /\ enabled n env p = false \/
   exists c, cs' = cs ++ [c] /\ k_plugin c = p /\ core_ok cs' (length cs) c /\
             enabled n env p = true) ->
  sort_inv stk cs' v.
Proof.
  intros I Hv Hns Hups Hrd Hcs.
  assert (forall q, settled (fun s => s = p \/ stk s) v q -> settled stk v q) as Hm.
  { intros q [Hq Hn]. split; [done|]. intros Hs. apply Hn. by right. }
  assert (p ∉ map k_plugin cs) as Hnew.
  { intros (c & -> & [a Ha]%list_elem_of_lookup)%list_elem_of_fmap.
    destruct (si_cores _ _ _ I a c Ha) as (_ & _ & _ & Hn). apply Hn. by left. }
  split.
  - apply I.
  - intros a c Hc. assert (forall c, cs !! a = Some c ->
      core_ok cs' a c /\ enabled n env (k_plugin c) = true /\ settled stk v (k_plugin c)) as Hold.
    { intros c0 Hc0. destruct (si_cores _ _ _ I a c0 Hc0) as (H1 & H2 & H3).
      split_and!; [|done | by apply Hm].
      destruct Hcs as [[-> _]|(c1 & -> & _)]; [done | by apply core_ok_app]. }
    destruct Hcs as [[-> _]|(c1 & -> & Hp & Hok & He)]; [by apply Hold|].
    apply lookup_app_Some in Hc as [Hc|[Ha Hc]]; [by apply Hold|].
    apply list_lookup_singleton_Some in Hc as [Ha' <-].
    replace a with (length cs) by lia. rewrite Hp. split_and!; [exact Hok | done | by split].
  - destruct Hcs as [[-> _]|(c & -> & Hp & _)]; [apply I|]. rewrite map_app. cbn.
    apply list.NoDup_app. split; [apply I|]. split; [|apply list.NoDup_singleton].
    intros x Hx Hx'%list_elem_of_singleton. by rewrite Hx', Hp in Hx.
  - intros q Hq. destruct (decide (q = p)) as [->|Hne].
    + split_and!; [|done | by eapply ready_mono].
      intros He. destruct Hcs as [[-> He']|(c & -> & Hp & _)]; [congruence|].
      rewrite map_app. apply elem_of_app. right. cbn. rewrite Hp. by left.
    + assert (settled (fun s => s = p \/ stk s) v q) as Hq'.
      { destruct Hq as [Hvq Hnq]. split; [done|]. intros [?|?]; done. }
      destruct (si_done _ _ _ I q Hq') as (H1 & H2 & H3).
      split_and!; [|done | by eapply ready_mono].
      intros He. destruct Hcs as [[-> _]|(c & -> & _)]; [auto|].
      rewrite map_app. apply elem_of_app. left. auto.
Qed.

Lemma is_disabled_Done pl : exists b, is_disabled pl env = Done b.
Proof.
  unfold is_disabled. destruct (disable_expr pl) as [e|]; [|eauto].
  unfold cras_expr_expression_eval_boolean. destruct (eval_Done env e Henv) as [v ->].
  rewrite bind_Done_eq. destruct v; rewrite bind_Done_eq; eauto.
Qed.

Lemma enabled_spec p pl b :
  plugins n !! p = Some pl -> is_disabled pl env = Done b -> enabled n env p = negb b.
Proof. unfold enabled. by intros -> ->. Qed.

Lemma core_upto_new cs a p : core_upto cs a (Core p [] [] [] []) [].
Proof. intros []; done. Qed.

Lemma settled_enabled stk cs v q :
  sort_inv stk cs v -> settled stk v q -> (q ∈ map k_plugin cs <-> enabled n env q = true).
Proof.
  intros I Hq. split; [|apply (si_done _ _ _ I q Hq)].
  intros (c & -> & [a Ha]%list_elem_of_lookup)%list_elem_of_fmap.
  by apply (si_cores _ _ _ I a c Ha).
Qed.

Lemma core_ok_self cs c p pl :
  plugins n !! p = Some pl -> k_plugin c = p -> core_upto cs (length cs) c (ports pl) ->
  core_ok (cs ++ [c]) (length cs) c.
Proof.
  intros Hpl <- Hup. exists pl. split; [done | by apply core_upto_app].
Qed.

(** The plugin whose ports have all been visited gets its instance. *)
Lemma finish_visit ofuel stk p pl insts v :
  rank p < ofuel -> plugins n !! p = Some pl -> ~ stk p ->
  (forall s, stk s -> rank p < rank s) ->
  sort_inv (fun s => s = p \/ stk s) (cores insts) v -> vis v p ->
  (forall x, x ∈ ports pl -> flow_id x <> INVALID_FLOW_ID ->
     exists q oj, port_up n x = Some (q, oj) /\ vis v q) ->
  exists rc insts',
    (disabled ← is_disabled pl env;
     if disabled : bool then Done (0%Z, (insts, v))
     else
       '(rc, insts') ← build_ports ofuel n (length insts) p 0 (ports pl) (insts ++ [new_instance p]);
       Done (rc, (insts', v))) = Done (rc, (insts', v)) /\
    ((rc <? 0)%Z = false ->
     sort_inv stk (cores insts') v /\ exists tl, cores insts' = cores insts ++ tl).
Proof.
  intros Hr Hpl Hns Hstk I Hv Hup.
  assert (ups_visited v p) as Hups.
  { intros j x Hx Hf. apply Hup; [|done]. unfold port_at in Hx. rewrite Hpl in Hx. cbn in Hx.
    by eapply list_elem_of_lookup_2. }
  assert (ready n (settled (fun s => s = p \/ stk s) v) p) as Hrd.
  { intros j x Hx [Hf Hd]. destruct (Hups j x Hx Hf) as (q & oj & Hu & Hq). exists q, oj.
    split; [done|]. pose proof (g_in _ _ G _ _ _ _ _ Hx Hd Hu) as Hlt.
    split; [done|]. intros [->|Hs]; [lia | specialize (Hstk q Hs); lia]. }
  destruct (is_disabled_Done pl) as [b Hb]. rewrite Hb, bind_Done_eq.
  pose proof (enabled_spec p pl b Hpl Hb) as He. destruct b.
  { exists 0%Z, insts. split; [done|]. intros _. split; [|exists []; by rewrite app_nil_r].
    apply (sort_inv_pop stk (cores insts) _ v p); try done. by left. }
  set (cs := cores insts) in *.
  assert (length insts = length cs) as Hlen by (unfold cs, cores; by rewrite length_map).
  destruct (build_ports_spec (settled (fun s => s = p \/ stk s) v) ofuel p pl cs Hpl Hr)
    with (insts := insts ++ [new_instance p]) (c := Core p [] [] [] []) (ps := @nil port)
         (tl := ports pl) as (rc & insts' & Hbp & Hout); try done.
  - intros a c Hc. by apply (si_cores _ _ _ I).
  - intros q Hq. by eapply settled_enabled.
  - intros q Hq. by apply (si_done _ _ _ I).
  - intros [_ Hn]. apply Hn. by left.
  - unfold cores. by rewrite map_app.
  - apply core_upto_new.
  - rewrite Hlen. cbn [length] in Hbp. rewrite Hbp, bind_Done_eq. exists rc, insts'. split; [done|].
    intros Hrc. destruct (Hout Hrc) as (c' & E' & Hp' & Hup'). rewrite E'.
    split; [|by exists [c']]. apply (sort_inv_pop stk cs _ v p); try done.
    right. exists c'. split_and!; try done. by eapply core_ok_self.
Qed.

Lemma topological_sort_visits ofuel fuel stk :
  (forall p, rank p < ofuel) ->
  visits fuel (topological_sort ofuel fuel n env) stk.
Proof.
  intros Ho. revert stk. induction fuel as [|fuel IH]; intros stk p insts v I Hp Hstk Hc; [lia|].
  cbn [topological_sort fst snd].
  destruct (lookup_lt_is_Some_2 v p) as [b Hb]; [by rewrite (si_len _ _ _ I)|].
  rewrite Hb. cbn [access]. rewrite bind_Done_eq. destruct b.
  { eexists _, _, _. split; [done|]. intros _. split; [by apply step_refl | done]. }
  specialize (Hstk Hb).
  assert (~ stk p) as Hns by (intros Hs; specialize (Hstk p Hs); lia).
  destruct (lookup_lt_is_Some_2 _ _ Hp) as [pl Hpl]. rewrite Hpl. cbn [access].
  rewrite bind_Done_eq.
  pose proof (sort_inv_push stk (cores insts) v p I Hb Hns) as I1.
  pose proof (count_insert negb v p true false Hb) as Hcnt. cbn in Hcnt.
  destruct (visit_ports_spec fuel (topological_sort ofuel fuel n env) (fun s => s = p \/ stk s)
              p (ports pl) insts (<[p:=true]> v)) as (rc & insts1 & v1 & -> & H1).
  - apply IH.
  - done.
  - intros s [->|Hs]; [done|]. specialize (Hstk s Hs). lia.
  - unfold vis. apply list_lookup_insert_eq. by eapply lookup_lt_Some.
  - lia.
  - intros x [j Hj]%list_elem_of_lookup. exists j. unfold port_at. by rewrite Hpl.
  - rewrite bind_Done_eq. destruct (rc <? 0)%Z; [by eexists _, _, _|].
    destruct (H1 eq_refl) as [S1 Hup].
    assert (vis v1 p) as Hvp.
    { apply (st_mono _ _ _ _ _ _ S1). unfold vis. apply list_lookup_insert_eq. by eapply lookup_lt_Some. }
    destruct (finish_visit ofuel stk p pl insts1 v1 (Ho p) Hpl Hns Hstk (st_inv _ _ _ _ _ _ S1) Hvp Hup)
      as (rc2 & insts2 & Hf & Hout).
    cbn [fst snd]. rewrite Hf. eexists _, _, _. split; [done|]. intros Hrc.
    destruct (Hout Hrc) as [I2 [tl Htl]]. split; [|done]. split.
    + done.
    + destruct (st_ext _ _ _ _ _ _ S1) as [t1 E1]. exists (t1 ++ tl).
      by rewrite Htl, E1, app_assoc.
    + intros r Hr. apply (st_mono _ _ _ _ _ _ S1). unfold vis in *.
      rewrite list_lookup_insert_ne; [done | intros ->; congruence].
    + intros r Hr. destruct (st_reach _ _ _ _ _ _ S1 r Hr) as [Hr1|Hr1]; [|by right].
      unfold vis in *. destruct (decide (r = p)) as [->|Hne]; [right; apply reach_here|].
      rewrite list_lookup_insert_ne in Hr1 by congruence. by left.
    + pose proof (st_count _ _ _ _ _ _ S1). lia.
Qed.
End Topo.
