(* ===== verification/PipelineCreate.v ===== *)
(** * PipelineCreate: what cras_dsp_pipeline_create builds *)

From S2P Require Import Prelude CString Float32 Dictionary Expr ExprEval DspIni DspGraph DspUtil Pipeline PipelineSort PipelineTopo PipelineRun DspConnect.

Section Create.
Context `{ModuleLib}.

(** An enabled built-in plugin with a label and a purpose. *)
Definition is_builtin (n : ini) (env : cras_expr_env) (lab purp : string) (i : nat) : Prop :=
  exists pl, plugins n !! i = Some pl /\ library pl = Some "builtin"%string /\
    label pl = Some lab /\ purpose pl = Some purp /\ enabled n env i = true.

(** ** The instances of a new pipeline have no module yet *)

Definition fresh (inst : instance) : Prop := module inst = None /\ instantiated inst = false.

Lemma alter_fresh f i insts :
  (forall x, fresh x -> fresh (f x)) -> Forall fresh insts -> Forall fresh (alter f i insts).
Proof.
  intros Hf HF. revert i. induction HF as [|x l Hx HF IH]; intros [|i]; cbn; constructor; auto.
Qed.

Lemma build_port_fresh fuel n self pg i p insts rc insts' :
  Forall fresh insts -> build_port fuel n self pg i p insts = Done (rc, insts') ->
  Forall fresh insts'.
Proof.
  intros HF Hb. unfold build_port in Hb. apply bind_Done in Hb as (o & _ & Hb).
  destruct o as [[q j]|]; [|by injection Hb as _ <-].
  apply bind_Done in Hb as (inst & _ & Hb).
  repeat (case_match; try discriminate Hb); injection Hb as _ <-;
    repeat (apply alter_fresh; [by intros ? []|]); done.
Qed.

Lemma build_ports_fresh fuel n self pg i ps insts rc insts' :
  Forall fresh insts -> build_ports fuel n self pg i ps insts = Done (rc, insts') ->
  Forall fresh insts'.
Proof.
  revert i insts. induction ps as [|p ps IH]; intros i insts HF Hb; cbn [build_ports] in Hb.
  { by injection Hb as _ <-. }
  apply bind_Done in Hb as ([rc1 insts1] & H1 & Hb). apply build_port_fresh in H1; [|done].
  destruct (rc1 <? 0)%Z; [by injection Hb as _ <- | by eapply IH].
Qed.

Lemma visit_ports_fresh visit n ps insts v rc st' :
  (forall q st rc st', Forall fresh (fst st) -> visit q st = Done (rc, st') -> Forall fresh (fst st')) ->
  Forall fresh insts -> visit_ports visit n ps (insts, v) = Done (rc, st') -> Forall fresh (fst st').
Proof.
  intros Hv. revert insts v. induction ps as [|p ps IH]; intros insts v HF Hb; cbn [visit_ports] in Hb.
  { by injection Hb as _ <-. }
  destruct (_ =? _)%Z; [by eapply IH|]. apply bind_Done in Hb as (f & _ & Hb).
  destruct (from f) as [q|]; [|by injection Hb as _ <-].
  apply bind_Done in Hb as ([rc1 [insts1 v1]] & H1 & Hb). apply Hv in H1; [|done].
  destruct (rc1 <? 0)%Z; [by injection Hb as _ <- | by eapply IH].
Qed.

Lemma topological_sort_fresh ofuel fuel n env q st rc st' :
  Forall fresh (fst st) -> topological_sort ofuel fuel n env q st = Done (rc, st') ->
  Forall fresh (fst st').
Proof.
  revert q st rc st'. induction fuel as [|fuel IH]; intros q st rc st' HF Hb; [done|].
  cbn [topological_sort] in Hb. apply bind_Done in Hb as (b & _ & Hb).
  destruct b; [by injection Hb as _ <-|].
  apply bind_Done in Hb as (pl & _ & Hb). apply bind_Done in Hb as ([rc1 [insts1 v1]] & H1 & Hb).
  apply visit_ports_fresh in H1; [|exact IH | done].
  destruct (rc1 <? 0)%Z; [by injection Hb as _ <-|].
  apply bind_Done in Hb as (d & _ & Hb). destruct d; [by injection Hb as _ <-|].
  apply bind_Done in Hb as ([rc2 insts2] & H2 & Hb). injection Hb as _ <-.
  apply build_ports_fresh in H2; [done|]. apply Forall_app. split; [done|]. by repeat constructor.
Qed.

Lemma free_fresh n purp insts so si i o :
  Forall fresh insts ->
  cras_dsp_pipeline_free (new_pipeline n purp insts so si i o) = Done [].
Proof.
  intros HF. unfold cras_dsp_pipeline_free. cbn. assert (free_instances insts = Done []) as ->; [|done].
  induction HF as [|x l [Hx _] _ IH]; cbn; [done|]. by rewrite Hx.
Qed.

(** What the pipeline returned by create is. *)
Record pipeline_built (n : ini) (env : cras_expr_env) (purp : string) (so si : nat)
    (p : pipeline) : Prop := {
  pb_ini : p_ini p = n;
  (** the only source and the only sink for the purpose *)
  pb_source : forall i, is_builtin n env "source" purp i <-> i = so;
  pb_sink : forall i, is_builtin n env "sink" purp i <-> i = si;
  (** one instance for each enabled plugin the sink depends on *)
  pb_nodup : NoDup (map i_plugin (instances p));
  pb_needed : forall q, q ∈ map i_plugin (instances p) <->
                        enabled n env q = true /\ reach n si q;
  (** the ports of each instance, connected to those of earlier ones *)
  pb_cores : forall a c, cores (instances p) !! a = Some c -> core_ok n env (cores (instances p)) a c;
  pb_source_inst : exists a inst, source_instance p = Some a /\ instances p !! a = Some inst /\
    i_plugin inst = so /\ input_channels p = length (output_audio_ports inst);
  pb_sink_inst : exists b inst, sink_instance p = Some b /\ instances p !! b = Some inst /\
    i_plugin inst = si /\ output_channels p = length (input_audio_ports inst);
  pb_channels : output_channels p <= input_channels p;
  pb_fresh : peak_buf p = 0%Z /\ buffers p = None /\ Forall fresh (instances p)
}.

Section Spec.
Variables (n : ini) (env : cras_expr_env) (rank : nat -> nat).
Hypothesis G : graph_ok n rank.
Hypothesis Henv : env_ok env.

Lemma builtin_matches_spec pl lab purp :
  is_Some (library pl) -> is_Some (label pl) ->
  builtin_matches pl lab purp =
  Done (bool_decide (library pl = Some "builtin"%string /\ label pl = Some lab /\
                     purpose pl = Some purp)).
Proof.
  intros [lib El] [l Eb]. unfold builtin_matches. rewrite El, Eb. cbn [access].
  rewrite bind_Done_eq. destruct (String.eqb_spec lib "builtin") as [->|Hne]; cbn [negb].
  - cbn. f_equal. destruct (String.eqb_spec l lab) as [->|Hne]; cbn.
    + apply bool_decide_ext. split; [by intros -> | tauto].
    + symmetry. apply bool_decide_eq_false. intros (_ & E & _). congruence.
  - f_equal. symmetry. apply bool_decide_eq_false. intros (E & _). congruence.
Qed.

(** The loop from plugin [i], with what it found before. *)
Lemma find_builtin_loop_spec lab purp pls i found :
  (forall a pl, pls !! a = Some pl -> plugins n !! (i + a) = Some pl) ->
  exists r, find_builtin_loop pls i lab purp env found = Done r /\
  forall k, r = Some k ->
    (found = Some k /\ forall a, a < length pls -> ~ is_builtin n env lab purp (i + a)) \/
    (found = None /\ exists b, k = i + b /\ b < length pls /\ is_builtin n env lab purp k /\
       forall a, a < length pls -> is_builtin n env lab purp (i + a) -> a = b).
Proof.
  revert i found. induction pls as [|pl pls IH]; intros i found Hpls; cbn [find_builtin_loop].
  { exists found. split; [done|]. intros k ->. left. split; [done|]. cbn. lia. }
  pose proof (Hpls 0 pl eq_refl) as Hpl. rewrite Nat.add_0_r in Hpl.
  destruct (Forall_lookup_1 _ _ _ _ (wf_plugins _ (g_wf _ _ G)) Hpl) as (Hlib & Hlab & _).
  rewrite builtin_matches_spec, bind_Done_eq by done.
  destruct (is_disabled_Done env Henv pl) as [b Hb].
  pose proof (enabled_spec n env i pl b Hpl Hb) as He.
  assert (forall a pl', pls !! a = Some pl' -> plugins n !! (i + 1 + a) = Some pl') as Hpls'.
  { intros a pl' Ha. specialize (Hpls (S a) pl' Ha). by replace (i + 1 + a) with (i + S a) by lia. }
  assert (forall f, (~ is_builtin n env lab purp i) ->
    exists r, find_builtin_loop pls (i + 1) lab purp env f = Done r /\
    forall k, r = Some k ->
    (f = Some k /\ forall a, a < S (length pls) -> ~ is_builtin n env lab purp (i + a)) \/
    (f = None /\ exists b, k = i + b /\ b < S (length pls) /\ is_builtin n env lab purp k /\
       forall a, a < S (length pls) -> is_builtin n env lab purp (i + a) -> a = b)) as Hskip.
  { intros f Hno. destruct (IH (i + 1) f Hpls') as (r & Hr & Hk). exists r. split; [done|].
    intros k Ek. destruct (Hk k Ek) as [[-> Hn]|(-> & b' & -> & Hb' & Hbk & Hu)].
    - left. split; [done|]. intros [|a] Ha; [by rewrite Nat.add_0_r|].
      replace (i + S a) with (i + 1 + a) by lia. apply Hn. lia.
    - right. split; [done|]. exists (S b'). split_and!; [lia | lia | done|].
      intros [|a] Ha Hi; [by rewrite Nat.add_0_r in Hi|].
      f_equal. apply Hu; [lia|]. by replace (i + 1 + a) with (i + S a) by lia. }
  case_bool_decide as Em; cbn [negb].
  2:{ apply Hskip. intros (pl' & Hpl' & E1 & E2 & E3 & _). rewrite Hpl in Hpl'.
      injection Hpl' as <-. tauto. }
  rewrite Hb, bind_Done_eq. destruct b.
  { apply Hskip. intros (_ & _ & _ & _ & _ & E). rewrite He in E. discriminate E. }
  destruct found as [f|].
  { exists None. split; [done|]. discriminate. }
  destruct (IH (i + 1) (Some i) Hpls') as (r & -> & Hk). exists r. split; [done|].
  intros k ->. destruct (Hk k eq_refl) as [[[= <-] Hn]|[? _]]; [|done]. right. split; [done|].
  exists 0. split_and!; [lia | cbn; lia | exists pl; tauto|].
  intros [|a] Ha Hi; [done|]. exfalso. apply (Hn a); [cbn in Ha; lia|].
  by replace (i + 1 + a) with (i + S a) by lia.
Qed.

Lemma find_enabled_builtin_spec lab purp :
  exists r, find_enabled_builtin_plugin n lab purp env = Done r /\
    forall k, r = Some k -> k < length (plugins n) /\ forall i, is_builtin n env lab purp i <-> i = k.
Proof.
  destruct (find_builtin_loop_spec lab purp (plugins n) 0 None) as (r & Hr & Hk); [done|].
  exists r. split; [exact Hr|]. intros k Ek.
  destruct (Hk k Ek) as [[? _]|(_ & b & -> & Hb & Hbk & Hu)]; [done|].
  split; [lia|]. intros i. split; [|by intros ->]. intros Hi. apply Hu; [|done].
  destruct Hi as (pl & Hpl & _). by eapply lookup_lt_Some.
Qed.

Lemma sort_inv_start : sort_inv n env (fun _ => False) [] (replicate (length (plugins n)) false).
Proof.
  split.
  - apply length_replicate.
  - intros a c Hc. by rewrite lookup_nil in Hc.
  - constructor.
  - intros q [Hq _]. unfold vis in Hq. apply lookup_replicate in Hq as [? _]. done.
Qed.

Lemma reach_visited stk v cs p q :
  sort_inv n env stk cs v -> (forall s, ~ stk s) -> vis v p -> reach n p q -> vis v q.
Proof.
  intros I Hs Hp Hr. induction Hr as [|q' j x r oj _ IH Hx Hu]; [done|].
  destruct (si_done _ _ _ _ _ I q') as (_ & Hups & _); [split; [done | apply Hs]|].
  destruct (Hups j x Hx (port_up_flow _ _ _ _ Hu)) as (r' & oj' & Hu' & Hv).
  rewrite Hu in Hu'. by injection Hu' as <- _.
Qed.

Lemma find_core_lookup insts q a :
  find_core (cores insts) q = Some a -> exists inst, insts !! a = Some inst /\ i_plugin inst = q.
Proof.
  intros Hf. apply find_idx_Some in Hf as ((c & Hc & E) & _). apply Nat.eqb_eq in E.
  unfold cores in Hc. rewrite list_lookup_fmap in Hc. apply fmap_Some in Hc as (inst & Hi & ->).
  by exists inst.
Qed.

Lemma pipeline_create_spec alloc ofuel purp :
  (forall p, rank p < ofuel) ->
  exists r, cras_dsp_pipeline_create alloc ofuel n env purp = Done r /\
    forall p, r = Some p -> exists so si, pipeline_built n env purp so si p.
Proof.
  intros Ho. unfold cras_dsp_pipeline_create.
  destruct (find_enabled_builtin_spec "source" purp) as (rs & -> & Hso). rewrite bind_Done_eq.
  destruct (find_enabled_builtin_spec "sink" purp) as (rk & -> & Hsi). rewrite bind_Done_eq.
  destruct rs as [so|]; [|by exists None]. destruct rk as [si|]; [|by exists None].
  destruct (alloc sizeof_pipeline); cbn [negb]; [|by exists None].
  destruct (Hso so eq_refl) as [Hsol Hso']. destruct (Hsi si eq_refl) as [Hsil Hsi'].
  destruct (topological_sort_visits n env rank G Henv ofuel (S (length (plugins n)))
              (fun _ => False) Ho si [] (replicate (length (plugins n)) false))
    as (rc & insts & v & Hts & Hr).
  { exact sort_inv_start. }
  { done. }
  { done. }
  { rewrite count_replicate. cbn. lia. }
  assert (Forall fresh insts) as HF.
  { apply topological_sort_fresh in Hts; [done | constructor]. }
  rewrite Hts, bind_Done_eq. destruct (rc <? 0)%Z; [by exists None|].
  destruct (Hr eq_refl) as [S Hv]. cbn [fst]. rewrite !find_instance_core.
  pose proof (st_inv _ _ _ _ _ _ _ _ S) as I.
  destruct (find_core (cores insts) so) as [a|] eqn:Ea; [|by rewrite free_fresh; [exists None|]].
  destruct (find_core (cores insts) si) as [b|] eqn:Eb; [|by rewrite free_fresh; [exists None|]].
  destruct (find_core_lookup _ _ _ Ea) as (ia & Hia & Pa).
  destruct (find_core_lookup _ _ _ Eb) as (ib & Hib & Pb).
  rewrite Hia, Hib. cbn [access]. rewrite !bind_Done_eq.
  destruct (_ <? _) eqn:El; [by rewrite free_fresh; [exists None|]|]. apply Nat.ltb_ge in El.
  eexists. split; [done|]. intros p [= <-]. exists so, si.
  assert (map i_plugin insts = map k_plugin (cores insts)) as Em
    by (unfold cores; by rewrite map_map).
  split; cbn; try done.
  - rewrite Em. apply I.
  - intros q. rewrite Em. split.
    + intros (c & -> & [i Hi]%list_elem_of_lookup)%list_elem_of_fmap.
      destruct (si_cores _ _ _ _ _ I i c Hi) as (_ & He & Hq & _). split; [done|].
      destruct (st_reach _ _ _ _ _ _ _ _ S _ Hq) as [Hq0|Hq0]; [|done].
      apply lookup_replicate in Hq0 as [? _]. done.
    + intros [He Hq]. apply (si_done _ _ _ _ _ I q); [|done]. split; [|auto].
      eapply reach_visited; [exact I | auto | exact Hv | exact Hq].
  - intros i c Hc. by apply (si_cores _ _ _ _ _ I).
  - by exists a, ia.
  - by exists b, ib.
Qed.
End Spec.

(** C22.  cras_dsp_pipeline_create on a well-formed graph (an ini structure as
    cras_dsp_ini_create makes them, one writer for each flow, no cycle: data
    flows from lower to higher ranks) and a well-formed environment returns,
    with no undefined behaviour and a recursion of find_origin_port no deeper
    than the ranks, whether or not there is memory for the pipeline.  A pipeline
    it returns has the only enabled source and sink of its purpose, exactly one
    instance for each enabled plugin the sink depends on, and every instance has exactly the ports of its plugin,
    each input port connected to the output port of an earlier instance that
    is the real origin of its data, past the disabled plugins - so running the
    instances in order respects the dependencies; it has at most as many
    output as input channels. *)
Theorem pipeline_create_built (alloc : Z -> bool) (n : ini) (env : cras_expr_env) (rank : nat -> nat)
    (ofuel : nat) (purp : string)
    (G : graph_ok n rank) (Henv : env_ok env) (Ho : forall p, rank p < ofuel) :
  exists r, cras_dsp_pipeline_create alloc ofuel n env purp = Done r /\
    forall p, r = Some p -> exists so si, pipeline_built n env purp so si p.
Proof. exact (pipeline_create_spec n env rank G Henv alloc ofuel purp Ho). Qed.
End Create.
