(* ===== verification/Biquad.v ===== *)
(** * Biquad: the biquad filters of audio/hal/dsp/biquad.c

    Coefficients are computed in double and stored as float; [pow], [sin] and
    [cos] are the C library's. *)

From S2P Require Import Prelude Float32.

Record biquad : Type := Bq {
  b0 : float; b1 : float; b2 : float;
  a1 : float; a2 : float;
  x1 : float; x2 : float;
  y1 : float; y2 : float
}.

Inductive biquad_type : Type :=
| BQ_NONE | BQ_LOWPASS | BQ_HIGHPASS | BQ_BANDPASS | BQ_LOWSHELF | BQ_HIGHSHELF
| BQ_PEAKING | BQ_NOTCH | BQ_ALLPASS.

(** An int used as a biquad_type: a value outside the enum selects no case of
    the switch, like BQ_NONE. *)
Definition biquad_type_of (z : Z) : biquad_type :=
  match z with
  | 1 => BQ_LOWPASS | 2 => BQ_HIGHPASS | 3 => BQ_BANDPASS | 4 => BQ_LOWSHELF
  | 5 => BQ_HIGHSHELF | 6 => BQ_PEAKING | 7 => BQ_NOTCH | 8 => BQ_ALLPASS
  | _ => BQ_NONE
  end%Z.

Declare Scope double_scope.
Delimit Scope double_scope with double.
Notation "a + b" := (dadd a b) : double_scope.
Notation "a - b" := (dsub a b) : double_scope.
Notation "a * b" := (dmul a b) : double_scope.
Notation "a / b" := (ddiv a b) : double_scope.
Notation "- a" := (dneg a) : double_scope.
Notation "a > b" := (dgt a b) : double_scope.
Notation "a < b" := (dlt a b) : double_scope.
Notation "a == b" := (deq a b) (at level 70) : double_scope.

Definition D (z : Z) : double := d_of_Z z.

(** The double nearest to 3.14159265358979323846. *)
Definition M_PI : double := d_const 884279719003555 281474976710656.

(** The macros max and min. *)
Definition dmax (a b : double) : double := if dgt a b then a else b.
Definition dmin (a b : double) : double := if dlt a b then a else b.

(** max(0.0, min(x, 1.0)) *)
Definition clip01 (x : double) : double := dmax (D 0) (dmin x (D 1)).

Section Biquad.
Context `{LibM}.
#[local] Open Scope double_scope.

Definition set_coefficient (bq : biquad) (vb0 vb1 vb2 va0 va1 va2 : double) : biquad :=
  let a0_inv := D 1 / va0 in
  Bq (f_of_double (vb0 * a0_inv)) (f_of_double (vb1 * a0_inv)) (f_of_double (vb2 * a0_inv))
     (f_of_double (va1 * a0_inv)) (f_of_double (va2 * a0_inv))
     (x1 bq) (x2 bq) (y1 bq) (y2 bq).

(** set_coefficient with the integer constants of the special cases. *)
Definition set_gain (bq : biquad) (g : double) : biquad :=
  set_coefficient bq g (D 0) (D 0) (D 1) (D 0) (D 0).

Definition half : double := d_const 1 2.
Definition quarter : double := d_const 1 4.

(** The common part of the low and high pass filters: beta and gamma. *)
Definition pass_beta_gamma (cutoff resonance : double) : double * double :=
  let resonance := dmax (D 0) resonance in
  let g := d_pow (D 10) (d_const 5 100 * resonance) in
  let d := dsqrt ((D 4 - dsqrt (D 16 - D 16 / (g * g))) / D 2) in
  let theta := M_PI * cutoff in
  let sn := half * d * d_sin theta in
  let beta := half * (D 1 - sn) / (D 1 + sn) in
  let gamma := (half + beta) * d_cos theta in
  (beta, gamma).

Definition biquad_lowpass (bq : biquad) (cutoff resonance : double) : biquad :=
  let cutoff := clip01 cutoff in
  if cutoff == D 1 then set_gain bq (D 1)
  else if cutoff > D 0 then
    let (beta, gamma) := pass_beta_gamma cutoff resonance in
    let alpha := quarter * (half + beta - gamma) in
    set_coefficient bq (D 2 * alpha) (D 4 * alpha) (D 2 * alpha)
      (D 1) (D 2 * - gamma) (D 2 * beta)
  else set_gain bq (D 0).

Definition biquad_highpass (bq : biquad) (cutoff resonance : double) : biquad :=
  let cutoff := clip01 cutoff in
  if cutoff == D 1 then set_gain bq (D 0)
  else if cutoff > D 0 then
    let (beta, gamma) := pass_beta_gamma cutoff resonance in
    let alpha := quarter * (half + beta + gamma) in
    set_coefficient bq (D 2 * alpha) (D (-4) * alpha) (D 2 * alpha)
      (D 1) (D 2 * - gamma) (D 2 * beta)
  else set_gain bq (D 1).

Definition biquad_bandpass (bq : biquad) (frequency Q : double) : biquad :=
  let frequency := dmax (D 0) frequency in
  let Q := dmax (D 0) Q in
  if (frequency > D 0) && (frequency < D 1) then
    let w0 := M_PI * frequency in
    if Q > D 0 then
      let alpha := d_sin w0 / (D 2 * Q) in
      let k := d_cos w0 in
      set_coefficient bq alpha (D 0) (- alpha) (D 1 + alpha) (D (-2) * k) (D 1 - alpha)
    else set_gain bq (D 1)
  else set_gain bq (D 0).

(** The slope S is 1, so 1 / S - 1 is 0. *)
Definition shelf_alpha (A w0 : double) : double :=
  half * d_sin w0 * dsqrt ((A + D 1 / A) * (D 1 / D 1 - D 1) + D 2).

Definition biquad_lowshelf (bq : biquad) (frequency db_gain : double) : biquad :=
  let frequency := clip01 frequency in
  let A := d_pow (D 10) (db_gain / D 40) in
  if frequency == D 1 then set_gain bq (A * A)
  else if frequency > D 0 then
    let w0 := M_PI * frequency in
    let alpha := shelf_alpha A w0 in
    let k := d_cos w0 in
    let k2 := D 2 * dsqrt A * alpha in
    let a_plus_one := A + D 1 in
    let a_minus_one := A - D 1 in
    set_coefficient bq
      (A * (a_plus_one - a_minus_one * k + k2))
      (D 2 * A * (a_minus_one - a_plus_one * k))
      (A * (a_plus_one - a_minus_one * k - k2))
      (a_plus_one + a_minus_one * k + k2)
      (D (-2) * (a_minus_one + a_plus_one * k))
      (a_plus_one + a_minus_one * k - k2)
  else set_gain bq (D 1).

Definition biquad_highshelf (bq : biquad) (frequency db_gain : double) : biquad :=
  let frequency := clip01 frequency in
  let A := d_pow (D 10) (db_gain / D 40) in
  if frequency == D 1 then set_gain bq (D 1)
  else if frequency > D 0 then
    let w0 := M_PI * frequency in
    let alpha := shelf_alpha A w0 in
    let k := d_cos w0 in
    let k2 := D 2 * dsqrt A * alpha in
    let a_plus_one := A + D 1 in
    let a_minus_one := A - D 1 in
    set_coefficient bq
      (A * (a_plus_one + a_minus_one * k + k2))
      (D (-2) * A * (a_minus_one + a_plus_one * k))
      (A * (a_plus_one + a_minus_one * k - k2))
      (a_plus_one - a_minus_one * k + k2)
      (D 2 * (a_minus_one - a_plus_one * k))
      (a_plus_one - a_minus_one * k - k2)
  else set_gain bq (A * A).

Definition biquad_peaking (bq : biquad) (frequency Q db_gain : double) : biquad :=
  let frequency := clip01 frequency in
  let Q := dmax (D 0) Q in
  let A := d_pow (D 10) (db_gain / D 40) in
  if (frequency > D 0) && (frequency < D 1) then
    if Q > D 0 then
      let w0 := M_PI * frequency in
      let alpha := d_sin w0 / (D 2 * Q) in
      let k := d_cos w0 in
      set_coefficient bq (D 1 + alpha * A) (D (-2) * k) (D 1 - alpha * A)
        (D 1 + alpha / A) (D (-2) * k) (D 1 - alpha / A)
    else set_gain bq (A * A)
  else set_gain bq (D 1).

Definition biquad_notch (bq : biquad) (frequency Q : double) : biquad :=
  let frequency := clip01 frequency in
  let Q := dmax (D 0) Q in
  if (frequency > D 0) && (frequency < D 1) then
    if Q > D 0 then
      let w0 := M_PI * frequency in
      let alpha := d_sin w0 / (D 2 * Q) in
      let k := d_cos w0 in
      set_coefficient bq (D 1) (D (-2) * k) (D 1) (D 1 + alpha) (D (-2) * k) (D 1 - alpha)
    else set_gain bq (D 0)
  else set_gain bq (D 1).

Definition biquad_allpass (bq : biquad) (frequency Q : double) : biquad :=
  let frequency := clip01 frequency in
  let Q := dmax (D 0) Q in
  if (frequency > D 0) && (frequency < D 1) then
    if Q > D 0 then
      let w0 := M_PI * frequency in
      let alpha := d_sin w0 / (D 2 * Q) in
      let k := d_cos w0 in
      set_coefficient bq (D 1 - alpha) (D (-2) * k) (D 1 + alpha)
        (D 1 + alpha) (D (-2) * k) (D 1 - alpha)
    else set_gain bq (D (-1))
  else set_gain bq (D 1).

(** The identity filter with no history. *)
Definition clear_history (bq : biquad) : biquad :=
  Bq (b0 bq) (b1 bq) (b2 bq) (a1 bq) (a2 bq) float_zero float_zero float_zero float_zero.

Definition biquad_set (bq : biquad) (type : biquad_type) (freq Q gain : double) : biquad :=
  let bq := clear_history (set_gain bq (D 1)) in
  match type with
  | BQ_LOWPASS => biquad_lowpass bq freq Q
  | BQ_HIGHPASS => biquad_highpass bq freq Q
  | BQ_BANDPASS => biquad_bandpass bq freq Q
  | BQ_LOWSHELF => biquad_lowshelf bq freq gain
  | BQ_HIGHSHELF => biquad_highshelf bq freq gain
  | BQ_PEAKING => biquad_peaking bq freq Q gain
  | BQ_NOTCH => biquad_notch bq freq Q
  | BQ_ALLPASS => biquad_allpass bq freq Q
  | BQ_NONE => bq
  end.
End Biquad.
