(* ===== verification/Eq.v ===== *)
(** * Eq: the equalizers of audio/hal/dsp/eq.c and eq2.c

    An equalizer is an array of MAX_BIQUADS_PER_EQ biquads of which the first
    n are used.  The samples are a list, processed in place.  eq_process runs
    two biquads at a time; the prototype eq_process1 runs one; both are
    modelled, and the stereo eq2_process (the portable code; the NEON and SSE
    versions are assembly and not modelled). *)

From S2P Require Import Prelude Float32 Biquad.

Definition MAX_BIQUADS_PER_EQ : nat := 10.
Definition MAX_BIQUADS_PER_EQ2 : nat := 10.

(** A biquad whose bytes are all zero (calloc). *)
Definition zero_biquad : biquad :=
  Bq float_zero float_zero float_zero float_zero float_zero float_zero float_zero float_zero
    float_zero.

Record eq : Type := Eq { e_n : nat; e_biquad : list biquad }.

Declare Scope float_scope.
Delimit Scope float_scope with float.
Notation "a + b" := (fadd a b) : float_scope.
Notation "a - b" := (fsub a b) : float_scope.
Notation "a * b" := (fmul a b) : float_scope.

Section Eq.
Context `{LibM}.

Definition eq_new : eq := Eq 0 (replicate MAX_BIQUADS_PER_EQ zero_biquad).

(** The parameters are converted from float to double. *)
Definition eq_append_biquad (e : eq) (type : biquad_type) (freq Q gain : float) : Z * eq :=
  if MAX_BIQUADS_PER_EQ <=? e_n e then ((-1)%Z, e)
  else
    (0%Z, Eq (S (e_n e))
            (alter (fun bq => biquad_set bq type (d_of_float freq) (d_of_float Q)
                                (d_of_float gain)) (e_n e) (e_biquad e))).

Definition eq_append_biquad_direct (e : eq) (bq : biquad) : Z * eq :=
  if MAX_BIQUADS_PER_EQ <=? e_n e then ((-1)%Z, e)
  else (0%Z, Eq (S (e_n e)) (<[e_n e := bq]> (e_biquad e))).

(** One output of a filter with coefficients [q] on the last two inputs and
    outputs. *)
Definition filter_out (q : biquad) (x x1 x2 y1 y2 : float) : float :=
  (b0 q * x + b1 q * x1 + b2 q * x2 - a1 q * y1 - a2 q * y2)%float.

Definition set_history (q : biquad) (x1 x2 y1 y2 : float) : biquad :=
  Bq (b0 q) (b1 q) (b2 q) (a1 q) (a2 q) x1 x2 y1 y2.

(** The loop over the samples for one biquad. *)
Fixpoint process_one (q : biquad) (x1 x2 y1 y2 : float) (data : list float)
    : list float * (float * float * float * float) :=
  match data with
  | [] => ([], (x1, x2, y1, y2))
  | x :: data =>
      let y := filter_out q x x1 x2 y1 y2 in
      let '(data, h) := process_one q x x1 y y1 data in
      (y :: data, h)
  end.

(** The biquad applied to the samples, and what is left in it. *)
Definition run_one (q : biquad) (data : list float) : list float * biquad :=
  let '(data, (vx1, vx2, vy1, vy2)) := process_one q (x1 q) (x2 q) (y1 q) (y2 q) data in
  (data, set_history q vx1 vx2 vy1 vy2).

(** eq_process1, the loop over the first [todo] biquads. *)
Fixpoint process1_loop (qs : list biquad) (todo : nat) (data : list float)
    {struct todo} : list float * list biquad :=
  match todo, qs with
  | S todo, q :: qs =>
      let '(data, q) := run_one q data in
      let '(data, qs) := process1_loop qs todo data in (data, q :: qs)
  | _, _ => (data, qs)
  end.

(** [count] samples of [data] are processed. *)
Definition eq_process1 (e : eq) (data : list float) (count : nat) : list float * eq :=
  let '(out, qs) := process1_loop (e_biquad e) (e_n e) (take count data) in
  (out ++ drop count data, Eq (e_n e) qs).

(** The loop over the samples for two biquads: the outputs y of the first are
    the inputs of the second, whose own outputs are z. *)
Fixpoint process_two (q r : biquad) (x1 x2 y1 y2 z1 z2 : float) (data : list float)
    : list float * (float * float * float * float * float * float) :=
  match data with
  | [] => ([], (x1, x2, y1, y2, z1, z2))
  | x :: data =>
      let y := filter_out q x x1 x2 y1 y2 in
      let z := filter_out r y y1 y2 z1 z2 in
      let '(data, h) := process_two q r x x1 y y1 z z1 data in
      (z :: data, h)
  end.

(** Both biquads; x1 and x2 of the second are not updated. *)
Definition run_two (q r : biquad) (data : list float) : list float * (biquad * biquad) :=
  let '(data, (vx1, vx2, vy1, vy2, vz1, vz2)) :=
    process_two q r (x1 q) (x2 q) (y1 q) (y2 q) (y1 r) (y2 r) data in
  (data, (set_history q vx1 vx2 vy1 vy2, set_history r (x1 r) (x2 r) vz1 vz2)).

(** eq_process: the biquads two by two, the last alone when their number is
    odd. *)
Fixpoint process_loop (qs : list biquad) (todo : nat) (data : list float)
    {struct todo} : list float * list biquad :=
  match todo, qs with
  | 1, q :: qs => let '(data, q) := run_one q data in (data, q :: qs)
  | S (S todo), q :: r :: qs =>
      let '(data, (q, r)) := run_two q r data in
      let '(data, qs) := process_loop qs todo data in (data, q :: r :: qs)
  | _, _ => (data, qs)
  end.

Definition eq_process (e : eq) (data : list float) (count : nat) : list float * eq :=
  let '(out, qs) := process_loop (e_biquad e) (e_n e) (take count data) in
  (out ++ drop count data, Eq (e_n e) qs).

(** ** eq2: two channels *)

Record eq2 : Type := Eq2 { e2_n : nat * nat; e2_biquad : list (biquad * biquad) }.

Definition identity_biquad : biquad :=
  biquad_set zero_biquad BQ_NONE (D 0) (D 0) (D 0).

Definition eq2_new : eq2 :=
  Eq2 (0, 0) (replicate MAX_BIQUADS_PER_EQ2 (identity_biquad, identity_biquad)).

Definition channel_n (channel : bool) (n : nat * nat) : nat := if channel then n.2 else n.1.

Definition bump (channel : bool) (n : nat * nat) : nat * nat :=
  if channel then (n.1, S n.2) else (S n.1, n.2).

Definition on_channel (channel : bool) (f : biquad -> biquad) (p : biquad * biquad)
    : biquad * biquad :=
  if channel then (p.1, f p.2) else (f p.1, p.2).

(** [channel]: false is 0 (left), true is 1 (right). *)
Definition eq2_append_biquad (e : eq2) (channel : bool) (type : biquad_type)
    (freq Q gain : float) : Z * eq2 :=
  let n := channel_n channel (e2_n e) in
  if MAX_BIQUADS_PER_EQ2 <=? n then ((-1)%Z, e)
  else
    (0%Z, Eq2 (bump channel (e2_n e))
            (alter (on_channel channel (fun bq => biquad_set bq type (d_of_float freq)
                      (d_of_float Q) (d_of_float gain))) n (e2_biquad e))).

Definition eq2_append_biquad_direct (e : eq2) (channel : bool) (bq : biquad) : Z * eq2 :=
  let n := channel_n channel (e2_n e) in
  if MAX_BIQUADS_PER_EQ2 <=? n then ((-1)%Z, e)
  else (0%Z, Eq2 (bump channel (e2_n e))
               (alter (on_channel channel (fun _ => bq)) n (e2_biquad e))).

(** The loop of eq2_process_one over the samples of both channels. *)
Fixpoint stereo_loop (qL qR : biquad) (hL hR : float * float * float * float)
    (data : list (float * float))
    : list (float * float) * (float * float * float * float) * (float * float * float * float) :=
  match data with
  | [] => ([], hL, hR)
  | (xL, xR) :: data =>
      let '(x1L, x2L, y1L, y2L) := hL in
      let '(x1R, x2R, y1R, y2R) := hR in
      let yL := filter_out qL xL x1L x2L y1L y2L in
      let yR := filter_out qR xR x1R x2R y1R y2R in
      let '(data, hL, hR) := stereo_loop qL qR (xL, x1L, yL, y1L) (xR, x1R, yR, y1R) data in
      ((yL, yR) :: data, hL, hR)
  end.

Definition eq2_process_one (p : biquad * biquad) (data : list (float * float))
    : list (float * float) * (biquad * biquad) :=
  let '(qL, qR) := p in
  let '(data, (x1L, x2L, y1L, y2L), (x1R, x2R, y1R, y2R)) :=
    stereo_loop qL qR (x1 qL, x2 qL, y1 qL, y2 qL) (x1 qR, x2 qR, y1 qR, y2 qR) data in
  (data, (set_history qL x1L x2L y1L y2L, set_history qR x1R x2R y1R y2R)).

Fixpoint stereo_process_loop (ps : list (biquad * biquad)) (todo : nat)
    (data : list (float * float)) {struct todo} : list (float * float) * list (biquad * biquad) :=
  match todo, ps with
  | 1, p :: ps => let '(data, p) := eq2_process_one p data in (data, p :: ps)
  | S (S todo), p :: p' :: ps =>
      let '(data, p) := eq2_process_one p data in
      let '(data, p') := eq2_process_one p' data in
      let '(data, ps) := stereo_process_loop ps todo data in (data, p :: p' :: ps)
  | _, _ => (data, ps)
  end.

(** [count] pairs of samples of the two channels are processed. *)
Definition eq2_process (e : eq2) (data : list (float * float)) (count : nat)
    : list (float * float) * eq2 :=
  if count =? 0 then (data, e)
  else
    let n := Nat.max (e2_n e).1 (e2_n e).2 in
    let '(out, ps) := stereo_process_loop (e2_biquad e) n (take count data) in
    (out ++ drop count data, Eq2 (e2_n e) ps).

(** ** The unrolled loop computes what the prototype does *)

(** Equalizers that differ only in the input history of the second biquad of
    a pair, which eq_process leaves stale; in the prototype it is the output
    history of the first. *)
Definition same_but_inputs (r r' : biquad) : Prop :=
  r = set_history r' (x1 r) (x2 r) (y1 r') (y2 r').

Fixpoint paired (qs qs' : list biquad) (todo : nat) {struct todo} : Prop :=
  match todo, qs, qs' with
  | S (S todo), q :: r :: qs, q' :: r' :: qs' =>
      q = q' /\ same_but_inputs r r' /\ x1 r' = y1 q' /\ x2 r' = y2 q' /\ paired qs qs' todo
  | S (S _), _, _ => False
  | _, _, _ => qs = qs'
  end.

(** The two biquads in one pass compute the second on the outputs of the first. *)
Lemma process_two_spec q r vx1 vx2 vy1 vy2 vz1 vz2 data :
  let '(data1, (hx1, hx2, hy1, hy2)) := process_one q vx1 vx2 vy1 vy2 data in
  let '(data2, (gx1, gx2, gy1, gy2)) := process_one r vy1 vy2 vz1 vz2 data1 in
  process_two q r vx1 vx2 vy1 vy2 vz1 vz2 data = (data2, (hx1, hx2, hy1, hy2, gy1, gy2)) /\
  gx1 = hy1 /\ gx2 = hy2.
Proof.
  revert vx1 vx2 vy1 vy2 vz1 vz2.
  induction data as [|x data IH]; intros vx1 vx2 vy1 vy2 vz1 vz2; cbn [process_one process_two];
    [done|].
  set (y := filter_out q x vx1 vx2 vy1 vy2). set (z := filter_out r y vy1 vy2 vz1 vz2).
  specialize (IH x vx1 y vy1 z vz1). fold y. fold z.
  destruct (process_one q x vx1 y vy1 data) as [data1 [[[hx1 hx2] hy1] hy2]].
  cbn [process_one]. fold z.
  destruct (process_one r y vy1 z vz1 data1) as [data2 [[[gx1 gx2] gy1] gy2]].
  destruct IH as (E & -> & ->). by rewrite E.
Qed.

Lemma filter_out_history q x vx1 vx2 vy1 vy2 h1 h2 h3 h4 :
  filter_out (set_history q h1 h2 h3 h4) x vx1 vx2 vy1 vy2 = filter_out q x vx1 vx2 vy1 vy2.
Proof. done. Qed.

Lemma process_one_history q h1 h2 h3 h4 vx1 vx2 vy1 vy2 data :
  process_one (set_history q h1 h2 h3 h4) vx1 vx2 vy1 vy2 data = process_one q vx1 vx2 vy1 vy2 data.
Proof.
  revert vx1 vx2 vy1 vy2. induction data as [|x data IH]; intros; cbn [process_one]; [done|].
  by rewrite filter_out_history, IH.
Qed.

Lemma run_two_spec q r r' data :
  same_but_inputs r r' -> x1 r' = y1 q -> x2 r' = y2 q ->
  let '(data1, q1) := run_one q data in
  let '(data2, r1') := run_one r' data1 in
  exists r1, run_two q r data = (data2, (q1, r1)) /\ same_but_inputs r1 r1' /\
    x1 r1' = y1 q1 /\ x2 r1' = y2 q1.
Proof.
  intros Hr E1 E2. unfold run_one, run_two.
  pose proof (process_two_spec q r' (x1 q) (x2 q) (y1 q) (y2 q) (y1 r') (y2 r') data) as H2.
  destruct (process_one q _ _ _ _ data) as [data1 [[[hx1 hx2] hy1] hy2]].
  rewrite E1, E2.
  destruct (process_one r' _ _ _ _ data1) as [data2 [[[gx1 gx2] gy1] gy2]].
  destruct H2 as (H2 & -> & ->).
  assert (forall a b c d e f l, process_two q r a b c d e f l = process_two q r' a b c d e f l) as Eq2.
  { rewrite Hr. clear. intros a b c d e f l. revert a b c d e f.
    induction l as [|x l IH]; intros; cbn [process_two]; [done|].
    by rewrite filter_out_history, IH. }
  assert (y1 r = y1 r' /\ y2 r = y2 r') as [-> ->] by (rewrite Hr; done).
  rewrite Eq2, H2. eexists. split; [done|]. split; [|done].
  unfold same_but_inputs. rewrite Hr. done.
Qed.

Lemma process_loop_spec todo qs qs' data :
  paired qs qs' todo ->
  let '(out, rs) := process_loop qs todo data in
  let '(out', rs') := process1_loop qs' todo data in
  out = out' /\ paired rs rs' todo.
Proof.
  revert qs qs' data. induction todo as [todo IH] using lt_wf_ind. intros qs qs' data Hp.
  destruct todo as [|[|todo]]; cbn in Hp |- *.
  - subst qs'. auto.
  - subst qs'. destruct qs as [|q qs]; cbn; [auto|]. destruct (run_one q data). cbn. auto.
  - destruct qs as [|q [|r qs]], qs' as [|q' [|r' qs']]; try done.
    destruct Hp as (-> & Hr & E1 & E2 & Hp).
      pose proof (run_two_spec q' r r' data Hr E1 E2) as H2.
      destruct (run_one q' data) as [data1 q1]. cbn.
      destruct (run_one r' data1) as [data2 r1'].
      destruct H2 as (r1 & -> & Hr1 & F1 & F2).
      specialize (IH todo ltac:(lia) qs qs' data2 Hp).
      destruct (process_loop qs todo data2) as [out rs].
      destruct (process1_loop qs' todo data2) as [out' rs'].
      destruct IH as [-> IH]. cbn. by split_and!.
Qed.

(** No biquad that biquad_set just wrote has a history. *)
Definition no_history (q : biquad) : Prop :=
  x1 q = float_zero /\ x2 q = float_zero /\ y1 q = float_zero /\ y2 q = float_zero.

Lemma biquad_set_no_history bq ty f Q g : no_history (biquad_set bq ty f Q g).
Proof.
  unfold biquad_set. destruct ty; try done;
    cbv beta delta [biquad_lowpass biquad_highpass biquad_bandpass biquad_lowshelf
      biquad_highshelf biquad_peaking biquad_notch biquad_allpass] zeta;
    try (destruct (pass_beta_gamma _ _) as [beta gamma]);
    repeat (case_match; try done); done.
Qed.

Lemma paired_fresh qs todo :
  Forall no_history qs -> todo <= length qs -> paired qs qs todo.
Proof.
  revert qs. induction todo as [todo IH] using lt_wf_ind. intros qs HF Hl.
  destruct todo as [|[|todo]]; [done | done|].
  destruct qs as [|q [|r qs]]; cbn in Hl; [lia | lia|].
  apply list.Forall_cons in HF as [(Q1 & Q2 & Q3 & Q4) HF].
  apply list.Forall_cons in HF as [(R1 & R2 & R3 & R4) HF].
  cbn [paired]. split_and!; [done | by destruct r | congruence | congruence|].
  apply IH; [lia | done | lia].
Qed.

(** An equalizer to which biquads have been appended, before any processing. *)
Definition append_all (params : list (biquad_type * float * float * float)) : eq :=
  fold_left (fun e x => let '(ty, f, Q, g) := x in (eq_append_biquad e ty f Q g).2) params eq_new.

Definition eq_fresh (e : eq) : Prop :=
  Forall no_history (e_biquad e) /\ e_n e <= length (e_biquad e) /\
  length (e_biquad e) = MAX_BIQUADS_PER_EQ.

Lemma eq_append_fresh e ty f Q g : eq_fresh e -> eq_fresh (eq_append_biquad e ty f Q g).2.
Proof.
  intros (H1 & H2 & H3). unfold eq_append_biquad.
  destruct (Nat.leb_spec MAX_BIQUADS_PER_EQ (e_n e)) as [Hle|Hlt]; [by split_and!|].
  unfold eq_fresh. cbn [snd e_biquad e_n]. rewrite length_alter. split_and!; [|lia | done].
  apply Forall_lookup_2. intros i q Hq. destruct (decide (i = e_n e)) as [->|Hne].
  - rewrite list_lookup_alter_eq in Hq. apply fmap_Some in Hq as (q0 & _ & ->).
    apply biquad_set_no_history.
  - rewrite list_lookup_alter_ne in Hq by congruence. exact (Forall_lookup_1 _ _ _ _ H1 Hq).
Qed.

Lemma append_all_fresh params : eq_fresh (append_all params).
Proof.
  unfold append_all. assert (eq_fresh eq_new) as H0.
  { split_and!; [|cbn; lia | done]. apply Forall_lookup_2. intros i q Hq.
    apply lookup_replicate in Hq as [-> _]. done. }
  revert H0. generalize eq_new. induction params as [|[[[ty f] Q] g] params IH]; intros e He;
    cbn [fold_left]; [done|]. by apply IH, eq_append_fresh.
Qed.

(** Blocks of samples processed one after the other. *)
Fixpoint process_blocks (process : eq -> list float -> nat -> list float * eq) (e : eq)
    (blocks : list (list float)) : list (list float) :=
  match blocks with
  | [] => []
  | data :: blocks =>
      let '(out, e) := process e data (length data) in out :: process_blocks process e blocks
  end.

Lemma process_blocks_paired e e' blocks :
  e_n e = e_n e' -> paired (e_biquad e) (e_biquad e') (e_n e) ->
  process_blocks eq_process e blocks = process_blocks eq_process1 e' blocks.
Proof.
  revert e e'. induction blocks as [|data blocks IH]; intros e e' Hn Hp; cbn [process_blocks]; [done|].
  unfold eq_process, eq_process1. rewrite <- Hn.
  pose proof (process_loop_spec (e_n e) _ _ (take (length data) data) Hp) as Hl.
  destruct (process_loop _ _ _) as [out rs]. destruct (process1_loop _ _ _) as [out' rs'].
  destruct Hl as [-> Hl]. f_equal. by apply IH.
Qed.

(** C34.  eq_process, which runs the biquads two by two in one pass over the
    samples and never updates the input history of the second of a pair,
    computes exactly what the prototype eq_process1 does: for an equalizer
    filled by any calls of eq_append_biquad and any sequence of blocks, both
    give the same samples, bit for bit. *)
Theorem eq_process_is_prototype (params : list (biquad_type * float * float * float))
    (blocks : list (list float)) :
  process_blocks eq_process (append_all params) blocks =
  process_blocks eq_process1 (append_all params) blocks.
Proof.
  apply process_blocks_paired; [done|].
  destruct (append_all_fresh params) as (H1 & H2 & _). by apply paired_fresh.
Qed.

(** ** The two channels are independent *)

Lemma stereo_loop_spec qL qR aL bL cL dL aR bR cR dR data :
  let '(out, hL, hR) := stereo_loop qL qR (aL, bL, cL, dL) (aR, bR, cR, dR) data in
  process_one qL aL bL cL dL (map fst data) = (map fst out, hL) /\
  process_one qR aR bR cR dR (map snd data) = (map snd out, hR).
Proof.
  revert aL bL cL dL aR bR cR dR. induction data as [|[xL xR] data IH]; intros;
    cbn [stereo_loop process_one map fst snd]; [done|].
  set (yL := filter_out qL xL aL bL cL dL). set (yR := filter_out qR xR aR bR cR dR).
  specialize (IH xL aL yL cL xR aR yR cR).
  destruct (stereo_loop _ _ _ _ data) as [[out hL] hR]. destruct IH as [-> ->]. done.
Qed.

Lemma eq2_process_one_spec p data :
  let '(out, p') := eq2_process_one p data in
  run_one p.1 (map fst data) = (map fst out, p'.1) /\
  run_one p.2 (map snd data) = (map snd out, p'.2).
Proof.
  destruct p as [qL qR]. unfold eq2_process_one, run_one. cbn [fst snd].
  pose proof (stereo_loop_spec qL qR (x1 qL) (x2 qL) (y1 qL) (y2 qL)
                (x1 qR) (x2 qR) (y1 qR) (y2 qR) data) as Hs.
  destruct (stereo_loop _ _ _ _ data) as [[out [[[? ?] ?] ?]] [[[? ?] ?] ?]].
  destruct Hs as [-> ->]. done.
Qed.

Lemma stereo_process_loop_spec todo ps data :
  todo <= length ps ->
  let '(out, ps') := stereo_process_loop ps todo data in
  process1_loop (map fst ps) todo (map fst data) = (map fst out, map fst ps') /\
  process1_loop (map snd ps) todo (map snd data) = (map snd out, map snd ps').
Proof.
  revert ps data. induction todo as [todo IH] using lt_wf_ind. intros ps data Hl.
  destruct todo as [|[|todo]]; [done | |].
  - destruct ps as [|p ps]; cbn in Hl; [lia|]. cbn.
    pose proof (eq2_process_one_spec p data) as Hp.
    destruct (eq2_process_one p data) as [out p']. destruct Hp as [-> ->]. done.
  - destruct ps as [|p [|q ps]]; cbn in Hl; [lia | lia|]. cbn.
    pose proof (eq2_process_one_spec p data) as Hp.
    destruct (eq2_process_one p data) as [out1 p']. destruct Hp as [-> ->].
    pose proof (eq2_process_one_spec q out1) as Hq.
    destruct (eq2_process_one q out1) as [out2 q']. destruct Hq as [-> ->].
    specialize (IH todo ltac:(lia) ps out2 ltac:(lia)).
    destruct (stereo_process_loop ps todo out2) as [out3 ps']. destruct IH as [-> ->]. done.
Qed.

(** The equalizer of one channel: its biquads, as many as the longer channel
    has. *)
Definition channel_eq (channel : bool) (e : eq2) : eq :=
  Eq (Nat.max (e2_n e).1 (e2_n e).2)
     (map (fun p => if channel then snd p else fst p) (e2_biquad e)).

Lemma eq2_channels (e : eq2) (data : list (float * float)) (count : nat) (channel : bool) :
  0 < count -> Nat.max (e2_n e).1 (e2_n e).2 <= length (e2_biquad e) ->
  let pick := fun x : float * float => if channel then snd x else fst x in
  eq_process1 (channel_eq channel e) (map pick data) count =
  (map pick (eq2_process e data count).1, channel_eq channel (eq2_process e data count).2).
Proof.
  intros Hc Hn. unfold eq_process1, eq2_process, channel_eq.
  rewrite (proj2 (Nat.eqb_neq count 0)) by lia. cbn [e_n e_biquad].
  pose proof (stereo_process_loop_spec _ (e2_biquad e) (take count data) Hn) as Hs.
  destruct (stereo_process_loop _ _ _) as [out ps']. destruct Hs as [HL HR].
  destruct channel; cbn [fst snd e2_n e2_biquad].
  - change (map (fun x : float * float => x.2)) with (@map (float * float) float snd).
    change (map (fun p : biquad * biquad => p.2)) with (@map (biquad * biquad) biquad snd).
    rewrite firstn_map, HR. by rewrite map_app, skipn_map.
  - change (map (fun x : float * float => x.1)) with (@map (float * float) float fst).
    change (map (fun p : biquad * biquad => p.1)) with (@map (biquad * biquad) biquad fst).
    rewrite firstn_map, HL. by rewrite map_app, skipn_map.
Qed.

(** The stereo equalizer keeps its channels apart: eq2_process gives
    each channel the samples, and leaves it the filters, that the one-channel
    prototype gives for the biquads of that channel - the shorter channel
    running as many biquads as the longer one has. *)
Theorem eq2_process_channels (e : eq2) (data : list (float * float)) (count : nat)
    (channel : bool) (Hc : 0 < count)
    (Hn : Nat.max (e2_n e).1 (e2_n e).2 <= length (e2_biquad e)) :
  let pick := fun x : float * float => if channel then snd x else fst x in
  eq_process1 (channel_eq channel e) (map pick data) count =
  (map pick (eq2_process e data count).1, channel_eq channel (eq2_process e data count).2).
Proof. exact (eq2_channels e data count channel Hc Hn). Qed.
End Eq.

(** A libm for concrete instances: the functions at 0. *)
#[export] Instance zero_libm : LibM := {| d_pow _ _ := D 1; d_sin _ := D 0; d_cos _ := D 1 |}.

Lemma eq2_process_channels_witness :
  exists e, e2_n e = (1, 0) /\
  (eq_process1 (channel_eq false e) [f_of_Z 3] 1).1 = map fst (eq2_process e [(f_of_Z 3, f_of_Z 5)] 1).1.
Proof.
  exists (eq2_append_biquad eq2_new false BQ_PEAKING f_half (f_of_Z 1) (f_of_Z 6)).2.
  split; [vm_compute; reflexivity|].
  rewrite (eq2_process_channels _ [(f_of_Z 3, f_of_Z 5)] 1 false);
    [reflexivity | lia | vm_compute; lia].
Defined.
