(* ===== verification/Crossover.v ===== *)
(** * Crossover: the three-band crossovers of audio/hal/dsp/crossover.c and crossover2.c

    An LR4 filter is two biquads with the same coefficients in series, kept
    with one history: the inputs x, the outputs y of the first, which are the
    inputs of the second, and the outputs z.  crossover2 is the portable code;
    its NEON and SSE versions are assembly and not modelled. *)

From S2P Require Import Prelude Float32 Biquad Eq.

(** Writing the first elements of an array. *)
Definition store_prefix (new old : list float) : list float := new ++ drop (length new) old.

(** ** crossover.c *)

Record lr4 : Type := Lr4 {
  l_b0 : float; l_b1 : float; l_b2 : float;
  l_a1 : float; l_a2 : float;
  l_x1 : float; l_x2 : float;
  l_y1 : float; l_y2 : float;
  l_z1 : float; l_z2 : float
}.

Record crossover : Type := Xo { xo_lp : list lr4; xo_hp : list lr4 }.

(** One sample through an LR4 filter: the output and the new history. *)
Definition lr4_sample (f : lr4) (x : float) : float * lr4 :=
  let y := (l_b0 f * x + l_b1 f * l_x1 f + l_b2 f * l_x2 f - l_a1 f * l_y1 f - l_a2 f * l_y2 f)%float in
  let z := (l_b0 f * y + l_b1 f * l_y1 f + l_b2 f * l_y2 f - l_a1 f * l_z1 f - l_a2 f * l_z2 f)%float in
  (z, Lr4 (l_b0 f) (l_b1 f) (l_b2 f) (l_a1 f) (l_a2 f) x (l_x1 f) y (l_y1 f) z (l_z1 f)).

Fixpoint split_loop (lp hp : lr4) (data : list float) : list float * list float * lr4 * lr4 :=
  match data with
  | [] => ([], [], lp, hp)
  | x :: data =>
      let '(z, lp) := lr4_sample lp x in
      let '(z', hp) := lr4_sample hp x in
      let '(out0, out1, lp, hp) := split_loop lp hp data in
      (z :: out0, z' :: out1, lp, hp)
  end.

(** [count] samples of data0 are split into data0 and data1. *)
Definition lr4_split (lp hp : lr4) (count : nat) (data0 data1 : list float)
    : outcome (lr4 * lr4 * list float * list float) :=
  if (count <=? length data0) && (count <=? length data1) then
    let '(out0, out1, lp, hp) := split_loop lp hp (take count data0) in
    Done (lp, hp, store_prefix out0 data0, store_prefix out1 data1)
  else Fault.

(** data[i] = z + lz1, where lz1 is the output of lp. *)
Fixpoint merge_loop (lp hp : lr4) (data : list float) : list float * lr4 * lr4 :=
  match data with
  | [] => ([], lp, hp)
  | x :: data =>
      let '(_, lp) := lr4_sample lp x in
      let '(z, hp) := lr4_sample hp x in
      let o := (z + l_z1 lp)%float in
      let '(out, lp, hp) := merge_loop lp hp data in
      (o :: out, lp, hp)
  end.

Definition lr4_merge (lp hp : lr4) (count : nat) (data : list float)
    : outcome (lr4 * lr4 * list float) :=
  if count <=? length data then
    let '(out, lp, hp) := merge_loop lp hp (take count data) in
    Done (lp, hp, store_prefix out data)
  else Fault.

Definition crossover_process (xo : crossover) (count : nat) (data0 data1 data2 : list float)
    : outcome (crossover * list float * list float * list float) :=
  match xo with
  | Xo [lp0; lp1; lp2] [hp0; hp1; hp2] =>
      '(lp0, hp0, data0, data1) ← lr4_split lp0 hp0 count data0 data1;
      '(lp1, hp1, data0) ← lr4_merge lp1 hp1 count data0;
      '(lp2, hp2, data1, data2) ← lr4_split lp2 hp2 count data1 data2;
      Done (Xo [lp0; lp1; lp2] [hp0; hp1; hp2], data0, data1, data2)
  | _ => Fault
  end.

(** ** crossover2.c: the same on two channels *)

(** The histories of the left and right channels. *)
Record lr42 : Type := Lr42 {
  l2_b0 : float; l2_b1 : float; l2_b2 : float;
  l2_a1 : float; l2_a2 : float;
  x1L : float; x1R : float; x2L : float; x2R : float;
  y1L : float; y1R : float; y2L : float; y2R : float;
  z1L : float; z1R : float; z2L : float; z2R : float
}.

Record crossover2 : Type := Xo2 { xo2_lp : list lr42; xo2_hp : list lr42 }.

(** One sample of each channel through an LR4 filter. *)
Definition lr42_sample (f : lr42) (xL xR : float) : float * float * lr42 :=
  let out x x1 x2 y1 y2 :=
    (l2_b0 f * x + l2_b1 f * x1 + l2_b2 f * x2 - l2_a1 f * y1 - l2_a2 f * y2)%float in
  let yL := out xL (x1L f) (x2L f) (y1L f) (y2L f) in
  let yR := out xR (x1R f) (x2R f) (y1R f) (y2R f) in
  let zL := out yL (y1L f) (y2L f) (z1L f) (z2L f) in
  let zR := out yR (y1R f) (y2R f) (z1R f) (z2R f) in
  (zL, zR, Lr42 (l2_b0 f) (l2_b1 f) (l2_b2 f) (l2_a1 f) (l2_a2 f)
             xL xR (x1L f) (x1R f) yL yR (y1L f) (y1R f) zL zR (z1L f) (z1R f)).

Fixpoint split_loop2 (lp hp : lr42) (dataL dataR : list float)
    : list float * list float * list float * list float * lr42 * lr42 :=
  match dataL, dataR with
  | xL :: dataL, xR :: dataR =>
      let '(zL, zR, lp) := lr42_sample lp xL xR in
      let '(zL', zR', hp) := lr42_sample hp xL xR in
      let '(out0L, out0R, out1L, out1R, lp, hp) := split_loop2 lp hp dataL dataR in
      (zL :: out0L, zR :: out0R, zL' :: out1L, zR' :: out1R, lp, hp)
  | _, _ => ([], [], [], [], lp, hp)
  end.

Definition lr42_split (lp hp : lr42) (count : nat) (data0L data0R data1L data1R : list float)
    : outcome (lr42 * lr42 * list float * list float * list float * list float) :=
  if (count <=? length data0L) && (count <=? length data0R) &&
     (count <=? length data1L) && (count <=? length data1R) then
    let '(out0L, out0R, out1L, out1R, lp, hp) :=
      split_loop2 lp hp (take count data0L) (take count data0R) in
    Done (lp, hp, store_prefix out0L data0L, store_prefix out0R data0R,
          store_prefix out1L data1L, store_prefix out1R data1R)
  else Fault.

Fixpoint merge_loop2 (lp hp : lr42) (dataL dataR : list float)
    : list float * list float * lr42 * lr42 :=
  match dataL, dataR with
  | xL :: dataL, xR :: dataR =>
      let '(_, _, lp) := lr42_sample lp xL xR in
      let '(zL, zR, hp) := lr42_sample hp xL xR in
      let oL := (zL + z1L lp)%float in
      let oR := (zR + z1R lp)%float in
      let '(outL, outR, lp, hp) := merge_loop2 lp hp dataL dataR in
      (oL :: outL, oR :: outR, lp, hp)
  | _, _ => ([], [], lp, hp)
  end.

Definition lr42_merge (lp hp : lr42) (count : nat) (dataL dataR : list float)
    : outcome (lr42 * lr42 * list float * list float) :=
  if (count <=? length dataL) && (count <=? length dataR) then
    let '(outL, outR, lp, hp) := merge_loop2 lp hp (take count dataL) (take count dataR) in
    Done (lp, hp, store_prefix outL dataL, store_prefix outR dataR)
  else Fault.

Definition crossover2_process (xo2 : crossover2) (count : nat)
    (data0L data0R data1L data1R data2L data2R : list float)
    : outcome (crossover2 * list float * list float * list float * list float
               * list float * list float) :=
  if count =? 0 then Done (xo2, data0L, data0R, data1L, data1R, data2L, data2R)
  else
    match xo2 with
    | Xo2 [lp0; lp1; lp2] [hp0; hp1; hp2] =>
        '(lp0, hp0, data0L, data0R, data1L, data1R) ←
          lr42_split lp0 hp0 count data0L data0R data1L data1R;
        '(lp1, hp1, data0L, data0R) ← lr42_merge lp1 hp1 count data0L data0R;
        '(lp2, hp2, data1L, data1R, data2L, data2R) ←
          lr42_split lp2 hp2 count data1L data1R data2L data2R;
        Done (Xo2 [lp0; lp1; lp2] [hp0; hp1; hp2], data0L, data0R, data1L, data1R, data2L, data2R)
    | _ => Fault
    end.

Section Crossover.
Context `{LibM}.

Definition lr4_set (type : biquad_type) (freq : float) : lr4 :=
  let q := biquad_set zero_biquad type (d_of_float freq) (D 0) (D 0) in
  Lr4 (b0 q) (b1 q) (b2 q) (a1 q) (a2 q)
      float_zero float_zero float_zero float_zero float_zero float_zero.

(** The first filters split at [freq1], the others at [freq2]. *)
Definition crossover_init (freq1 freq2 : float) : crossover :=
  let f i := if i =? 0 then freq1 else freq2 in
  Xo (map (fun i => lr4_set BQ_LOWPASS (f i)) (seq 0 3))
     (map (fun i => lr4_set BQ_HIGHPASS (f i)) (seq 0 3)).

Definition lr42_set (type : biquad_type) (freq : float) : lr42 :=
  let q := biquad_set zero_biquad type (d_of_float freq) (D 0) (D 0) in
  Lr42 (b0 q) (b1 q) (b2 q) (a1 q) (a2 q)
      float_zero float_zero float_zero float_zero float_zero float_zero
      float_zero float_zero float_zero float_zero float_zero float_zero.

Definition crossover2_init (freq1 freq2 : float) : crossover2 :=
  let f i := if i =? 0 then freq1 else freq2 in
  Xo2 (map (fun i => lr42_set BQ_LOWPASS (f i)) (seq 0 3))
      (map (fun i => lr42_set BQ_HIGHPASS (f i)) (seq 0 3)).
End Crossover.
