(* ===== verification/CrossoverBands.v ===== *)
(** * CrossoverBands: the bands the crossovers produce

    The loops of crossover.c and crossover2.c compute, on each channel, the
    network of filters drawn in crossover.h, each LR4 filter being two biquads
    in series. *)

From S2P Require Import Prelude Float32 Biquad Eq Crossover.

(** ** The filters one by one *)

Fixpoint lr4_run (f : lr4) (data : list float) : list float * lr4 :=
  match data with
  | [] => ([], f)
  | x :: data =>
      let '(z, f) := lr4_sample f x in
      let '(out, f) := lr4_run f data in (z :: out, f)
  end.

Fixpoint lr42_run (f : lr42) (data : list (float * float)) : list (float * float) * lr42 :=
  match data with
  | [] => ([], f)
  | (xL, xR) :: data =>
      let '(zL, zR, f) := lr42_sample f xL xR in
      let '(out, f) := lr42_run f data in ((zL, zR) :: out, f)
  end.

Lemma lr4_run_length f data : length (lr4_run f data).1 = length data.
Proof.
  revert f. induction data as [|x data IH]; intros f; [done|]. cbn -[lr4_sample].
  destruct (lr4_sample f x) as [z g]. specialize (IH g). destruct (lr4_run g data). cbn in *. congruence.
Qed.

Lemma lr42_run_length f data : length (lr42_run f data).1 = length data.
Proof.
  revert f. induction data as [|[x x'] data IH]; intros f; [done|]. cbn -[lr42_sample].
  destruct (lr42_sample f x x') as [[z z'] g]. specialize (IH g).
  destruct (lr42_run g data). cbn in *. congruence.
Qed.

Lemma lr42_run_app f data data' :
  lr42_run f (data ++ data') =
  let '(out, f) := lr42_run f data in
  let '(out', f) := lr42_run f data' in (out ++ out', f).
Proof.
  revert f. induction data as [|[x x'] data IH]; intros f; [by cbn; destruct (lr42_run f data')|].
  cbn -[lr42_sample]. destruct (lr42_sample f x x') as [[z z'] g]. rewrite IH.
  destruct (lr42_run g data) as [out g']. by destruct (lr42_run g' data').
Qed.

Lemma split_loop_run lp hp data :
  split_loop lp hp data =
  ((lr4_run lp data).1, (lr4_run hp data).1, (lr4_run lp data).2, (lr4_run hp data).2).
Proof.
  revert lp hp. induction data as [|x data IH]; intros lp hp; [done|]. cbn -[lr4_sample].
  destruct (lr4_sample lp x) as [z lp'], (lr4_sample hp x) as [z' hp']. rewrite IH.
  by destruct (lr4_run lp' data), (lr4_run hp' data).
Qed.

Lemma merge_loop_run lp hp data :
  merge_loop lp hp data =
  (zip_with fadd (lr4_run hp data).1 (lr4_run lp data).1, (lr4_run lp data).2, (lr4_run hp data).2).
Proof.
  revert lp hp. induction data as [|x data IH]; intros lp hp; [done|]. cbn -[lr4_sample].
  destruct (lr4_sample lp x) as [z lp'] eqn:El, (lr4_sample hp x) as [z' hp']. rewrite IH.
  assert (l_z1 lp' = z) as -> by (by injection El as <- <-).
  by destruct (lr4_run lp' data), (lr4_run hp' data).
Qed.

Lemma split_loop2_run lp hp data :
  split_loop2 lp hp (map fst data) (map snd data) =
  (map fst (lr42_run lp data).1, map snd (lr42_run lp data).1,
   map fst (lr42_run hp data).1, map snd (lr42_run hp data).1,
   (lr42_run lp data).2, (lr42_run hp data).2).
Proof.
  revert lp hp. induction data as [|[x x'] data IH]; intros lp hp; [done|].
  cbn -[lr42_sample].
  destruct (lr42_sample lp x x') as [[z z'] lp'], (lr42_sample hp x x') as [[w w'] hp']. rewrite IH.
  by destruct (lr42_run lp' data), (lr42_run hp' data).
Qed.

Definition fadd2 (a b : float * float) : float * float := (fadd a.1 b.1, fadd a.2 b.2).

Lemma merge_loop2_run lp hp data :
  let out := zip_with fadd2 (lr42_run hp data).1 (lr42_run lp data).1 in
  merge_loop2 lp hp (map fst data) (map snd data) =
  (map fst out, map snd out, (lr42_run lp data).2, (lr42_run hp data).2).
Proof.
  revert lp hp. induction data as [|[x x'] data IH]; intros lp hp; [done|].
  cbn -[lr42_sample].
  destruct (lr42_sample lp x x') as [[z z'] lp'] eqn:El, (lr42_sample hp x x') as [[w w'] hp'].
  rewrite IH. assert (z1L lp' = z /\ z1R lp' = z') as [-> ->] by (by injection El as <- <- <-).
  by destruct (lr42_run lp' data), (lr42_run hp' data).
Qed.

(** ** The network *)

Lemma store_prefix_app new old tail :
  length new = length old -> store_prefix new (old ++ tail) = new ++ tail.
Proof. intros E. unfold store_prefix. by rewrite E, drop_app_length. Qed.

Lemma fits_app (a t : list float) n : n = length a -> (n <=? length (a ++ t)) = true.
Proof. intros ->. apply Nat.leb_le. rewrite length_app. lia. Qed.

(** The bands of a crossover2: low, middle and high. *)
Definition bands2 (xo : crossover2) (data : list (float * float))
    : option (list (float * float) * list (float * float) * list (float * float) * crossover2) :=
  match xo with
  | Xo2 [lp0; lp1; lp2] [hp0; hp1; hp2] =>
      let '(l, lp0) := lr42_run lp0 data in
      let '(h, hp0) := lr42_run hp0 data in
      let '(ll, lp1) := lr42_run lp1 l in
      let '(lh, hp1) := lr42_run hp1 l in
      let '(mid, lp2) := lr42_run lp2 h in
      let '(high, hp2) := lr42_run hp2 h in
      Some (zip_with fadd2 lh ll, mid, high, Xo2 [lp0; lp1; lp2] [hp0; hp1; hp2])
  | _ => None
  end.

Lemma lr42_split_run lp hp data (u : list (float * float)) t0 t0' t1 t1' :
  length u = length data ->
  lr42_split lp hp (length data) (map fst data ++ t0) (map snd data ++ t0')
    (map fst u ++ t1) (map snd u ++ t1') =
  Done ((lr42_run lp data).2, (lr42_run hp data).2,
        map fst (lr42_run lp data).1 ++ t0, map snd (lr42_run lp data).1 ++ t0',
        map fst (lr42_run hp data).1 ++ t1, map snd (lr42_run hp data).1 ++ t1').
Proof.
  intros Hu. unfold lr42_split. rewrite !fits_app by (by rewrite length_map). cbn [andb].
  rewrite !take_app_length' by (by rewrite length_map). rewrite split_loop2_run.
  by rewrite !store_prefix_app by (rewrite !length_map, lr42_run_length; lia).
Qed.

Lemma lr42_merge_run lp hp data t t' :
  let out := zip_with fadd2 (lr42_run hp data).1 (lr42_run lp data).1 in
  lr42_merge lp hp (length data) (map fst data ++ t) (map snd data ++ t') =
  Done ((lr42_run lp data).2, (lr42_run hp data).2, map fst out ++ t, map snd out ++ t').
Proof.
  intros out. unfold lr42_merge. rewrite !fits_app by (by rewrite length_map). cbn [andb].
  rewrite !take_app_length' by (by rewrite length_map). rewrite merge_loop2_run.
  by rewrite !store_prefix_app
    by (unfold out; rewrite !length_map, length_zip_with, !lr42_run_length; lia).
Qed.

Lemma crossover2_process_bands xo data u v t0 t0' t1 t1' t2 t2' low mid high xo' :
  length u = length data -> length v = length data ->
  bands2 xo data = Some (low, mid, high, xo') ->
  crossover2_process xo (length data) (map fst data ++ t0) (map snd data ++ t0')
    (map fst u ++ t1) (map snd u ++ t1') (map fst v ++ t2) (map snd v ++ t2') =
  Done (xo', map fst low ++ t0, map snd low ++ t0', map fst mid ++ t1, map snd mid ++ t1',
        map fst high ++ t2, map snd high ++ t2').
Proof.
  intros Hu Hv Hb. unfold crossover2_process, bands2 in *.
  destruct xo as [[|lp0 [|lp1 [|lp2 []]]] [|hp0 [|hp1 [|hp2 []]]]]; try done.
  destruct (Nat.eqb_spec (length data) 0) as [E|_].
  { apply nil_length_inv in E as ->. apply nil_length_inv in Hu as ->, Hv as ->.
    by injection Hb as <- <- <- <-. }
  rewrite lr42_split_run by done. rewrite bind_Done_eq.
  pose proof (lr42_run_length lp0 data) as L0. pose proof (lr42_run_length hp0 data) as H0.
  destruct (lr42_run lp0 data) as [l lp0'], (lr42_run hp0 data) as [h hp0']. cbn [fst snd] in *.
  rewrite <- L0 at 1. rewrite lr42_merge_run, bind_Done_eq.
  rewrite <- H0 at 1. rewrite lr42_split_run by congruence. rewrite bind_Done_eq.
  destruct (lr42_run lp1 l), (lr42_run hp1 l), (lr42_run lp2 h), (lr42_run hp2 h).
  by injection Hb as <- <- <- <-.
Qed.

Lemma zip_with_same_app {A B C} (f : A -> B -> C) l l' k k' :
  length l = length k -> zip_with f (l ++ l') (k ++ k') = zip_with f l k ++ zip_with f l' k'.
Proof. intros E. by apply zip_with_app. Qed.

(** The bands of a signal do not depend on the blocks it comes in. *)
Lemma bands2_app xo data data' :
  bands2 xo (data ++ data') =
  '(low, mid, high, xo) ← bands2 xo data;
  '(low', mid', high', xo) ← bands2 xo data';
  Some (low ++ low', mid ++ mid', high ++ high', xo).
Proof.
  destruct xo as [[|lp0 [|lp1 [|lp2 []]]] [|hp0 [|hp1 [|hp2 []]]]]; try done.
  unfold bands2. rewrite !lr42_run_app.
  destruct (lr42_run lp0 data) as [l lp0'], (lr42_run hp0 data) as [h hp0'].
  destruct (lr42_run lp0' data') as [l' lp0''] eqn:E0, (lr42_run hp0' data') as [h' hp0''] eqn:E1.
  rewrite !lr42_run_app.
  pose proof (lr42_run_length lp1 l) as L1. pose proof (lr42_run_length hp1 l) as L2.
  destruct (lr42_run lp1 l) as [ll lp1'], (lr42_run hp1 l) as [lh hp1'].
  destruct (lr42_run lp2 h) as [m lp2'], (lr42_run hp2 h) as [g hp2'].
  cbn in *. rewrite E0, E1. destruct (lr42_run lp1' l'), (lr42_run hp1' l').
  destruct (lr42_run lp2' h'), (lr42_run hp2' h'). cbn.
  by rewrite zip_with_same_app by congruence.
Qed.

Lemma bands2_lengths xo data low mid high xo' :
  bands2 xo data = Some (low, mid, high, xo') ->
  length low = length data /\ length mid = length data /\ length high = length data.
Proof.
  destruct xo as [[|lp0 [|lp1 [|lp2 []]]] [|hp0 [|hp1 [|hp2 []]]]]; try done. unfold bands2.
  pose proof (lr42_run_length lp0 data) as L0. pose proof (lr42_run_length hp0 data) as H0.
  destruct (lr42_run lp0 data) as [l lp0'], (lr42_run hp0 data) as [h hp0'].
  pose proof (lr42_run_length lp1 l). pose proof (lr42_run_length hp1 l).
  pose proof (lr42_run_length lp2 h). pose proof (lr42_run_length hp2 h).
  destruct (lr42_run lp1 l), (lr42_run hp1 l), (lr42_run lp2 h), (lr42_run hp2 h). cbn in *.
  intros [= <- <- <- _]. rewrite length_zip_with. lia.
Qed.

(** ** One channel *)

Definition pick {A} (right : bool) (x : A * A) : A := if right then x.2 else x.1.

Definition channel (right : bool) (f : lr42) : lr4 :=
  Lr4 (l2_b0 f) (l2_b1 f) (l2_b2 f) (l2_a1 f) (l2_a2 f)
      (pick right (x1L f, x1R f)) (pick right (x2L f, x2R f))
      (pick right (y1L f, y1R f)) (pick right (y2L f, y2R f))
      (pick right (z1L f, z1R f)) (pick right (z2L f, z2R f)).

Lemma lr42_sample_channel right f x x' :
  lr4_sample (channel right f) (pick right (x, x')) =
  (pick right (lr42_sample f x x').1, channel right (lr42_sample f x x').2).
Proof.
  destruct right;
    cbv beta zeta iota delta [lr4_sample lr42_sample channel pick fst snd l_b0 l_b1 l_b2 l_a1 l_a2
      l_x1 l_x2 l_y1 l_y2 l_z1 l_z2 l2_b0 l2_b1 l2_b2 l2_a1 l2_a2 x1L x1R x2L x2R y1L y1R y2L y2R
      z1L z1R z2L z2R]; reflexivity.
Qed.

Lemma lr42_run_channel right f data :
  lr4_run (channel right f) (map (pick right) data) =
  (map (pick right) (lr42_run f data).1, channel right (lr42_run f data).2).
Proof.
  revert f. induction data as [|[x x'] data IH]; intros f; [done|].
  cbn -[lr42_sample lr4_sample channel pick].
  rewrite lr42_sample_channel. destruct (lr42_sample f x x') as [[z z'] g]. cbn [fst snd].
  rewrite IH. by destruct (lr42_run g data).
Qed.

Lemma map_fst_pick (data : list (float * float)) : map fst data = map (pick false) data.
Proof. done. Qed.

Section Series.
Context `{LibM}.

(** The signal through two biquads with the coefficients of [q]. *)
Definition series (q : biquad) (data : list float) : list float :=
  (run_one q (run_one q data).1).1.

Definition pass (type : biquad_type) (freq : float) : biquad :=
  biquad_set zero_biquad type (d_of_float freq) (D 0) (D 0).

(** The diagram of crossover.h. *)
Definition low_band (freq1 freq2 : float) (data : list float) : list float :=
  let l := series (pass BQ_LOWPASS freq1) data in
  zip_with fadd (series (pass BQ_HIGHPASS freq2) l) (series (pass BQ_LOWPASS freq2) l).

Definition mid_band (freq1 freq2 : float) (data : list float) : list float :=
  series (pass BQ_LOWPASS freq2) (series (pass BQ_HIGHPASS freq1) data).

Definition high_band (freq1 freq2 : float) (data : list float) : list float :=
  series (pass BQ_HIGHPASS freq2) (series (pass BQ_HIGHPASS freq1) data).

Lemma lr4_run_two q vx1 vx2 vy1 vy2 vz1 vz2 data :
  (lr4_run (Lr4 (b0 q) (b1 q) (b2 q) (a1 q) (a2 q) vx1 vx2 vy1 vy2 vz1 vz2) data).1 =
  (process_two q q vx1 vx2 vy1 vy2 vz1 vz2 data).1.
Proof.
  revert vx1 vx2 vy1 vy2 vz1 vz2. induction data as [|x data IH]; intros; [done|].
  cbn [lr4_run lr4_sample process_two l_b0 l_b1 l_b2 l_a1 l_a2 l_x1 l_x2 l_y1 l_y2 l_z1 l_z2].
  fold (filter_out q x vx1 vx2 vy1 vy2).
  fold (filter_out q (filter_out q x vx1 vx2 vy1 vy2) vy1 vy2 vz1 vz2).
  specialize (IH x vx1 (filter_out q x vx1 vx2 vy1 vy2) vy1
    (filter_out q (filter_out q x vx1 vx2 vy1 vy2) vy1 vy2 vz1 vz2) vz1).
  destruct (lr4_run _ data), (process_two _ _ _ _ _ _ _ _ data). cbn in *. congruence.
Qed.

Lemma lr4_set_series type freq data :
  (lr4_run (lr4_set type freq) data).1 = series (pass type freq) data.
Proof.
  unfold lr4_set, series. fold (pass type freq). rewrite lr4_run_two.
  destruct (biquad_set_no_history zero_biquad type (d_of_float freq) (D 0) (D 0)) as (E1 & E2 & E3 & E4).
  fold (pass type freq) in E1, E2, E3, E4. set (q := pass type freq) in *.
  pose proof (process_two_spec q q float_zero float_zero float_zero float_zero float_zero float_zero data) as H2.
  unfold run_one. rewrite E1, E2, E3, E4.
  destruct (process_one q _ _ _ _ data) as [data1 [[[? ?] ?] ?]]. cbn [fst].
  destruct (process_one q _ _ _ _ data1) as [data2 [[[? ?] ?] ?]]. by destruct H2 as [-> _].
Qed.

Lemma channel_set right type freq : channel right (lr42_set type freq) = lr4_set type freq.
Proof. by destruct right. Qed.

Lemma lr42_set_series right type freq data :
  map (pick right) (lr42_run (lr42_set type freq) data).1 =
  series (pass type freq) (map (pick right) data).
Proof.
  rewrite <- lr4_set_series, <- (channel_set right), lr42_run_channel. done.
Qed.

(** The network on one channel, from the filters crossover_init sets. *)
Lemma crossover_process_bands f1 f2 data u v t0 t1 t2 :
  length u = length data -> length v = length data ->
  exists xo,
    crossover_process (crossover_init f1 f2) (length data) (data ++ t0) (u ++ t1) (v ++ t2) =
    Done (xo, low_band f1 f2 data ++ t0, mid_band f1 f2 data ++ t1, high_band f1 f2 data ++ t2).
Proof.
  intros Hu Hv. unfold low_band, mid_band, high_band. rewrite <- !lr4_set_series.
  assert (forall lp hp n d u t t', n = length d -> length u = n ->
    lr4_split lp hp n (d ++ t) (u ++ t') =
    Done ((lr4_run lp d).2, (lr4_run hp d).2, (lr4_run lp d).1 ++ t, (lr4_run hp d).1 ++ t')) as Hs.
  { intros lp hp n d u0 t t' -> Hn. unfold lr4_split. rewrite !fits_app by done. cbn [andb].
    rewrite take_app_length, split_loop_run.
    by rewrite !store_prefix_app by (rewrite lr4_run_length; congruence). }
  assert (forall lp hp n d t, n = length d ->
    lr4_merge lp hp n (d ++ t) =
    Done ((lr4_run lp d).2, (lr4_run hp d).2, zip_with fadd (lr4_run hp d).1 (lr4_run lp d).1 ++ t)) as Hm.
  { intros lp hp n d t ->. unfold lr4_merge. rewrite fits_app by done. rewrite take_app_length, merge_loop_run.
    by rewrite store_prefix_app by (rewrite length_zip_with, !lr4_run_length; lia). }
  unfold crossover_init, crossover_process. cbn [map seq Nat.eqb]. eexists.
  rewrite Hs, bind_Done_eq by done. rewrite Hm, bind_Done_eq by (by rewrite lr4_run_length).
  rewrite Hs, bind_Done_eq by (by rewrite ?lr4_run_length). reflexivity.
Qed.

(** The bands of a crossover2 just set, channel by channel. *)
Lemma bands2_init f1 f2 data :
  exists low mid high xo, bands2 (crossover2_init f1 f2) data = Some (low, mid, high, xo) /\
    (forall right, map (pick right) low = low_band f1 f2 (map (pick right) data)) /\
    (forall right, map (pick right) mid = mid_band f1 f2 (map (pick right) data)) /\
    (forall right, map (pick right) high = high_band f1 f2 (map (pick right) data)).
Proof.
  unfold crossover2_init, bands2, low_band, mid_band, high_band. cbn [map seq Nat.eqb].
  pose proof (lr42_set_series false BQ_LOWPASS f1 data) as A0. pose proof (lr42_set_series true BQ_LOWPASS f1 data) as A1.
  pose proof (lr42_set_series false BQ_HIGHPASS f1 data) as B0. pose proof (lr42_set_series true BQ_HIGHPASS f1 data) as B1.
  destruct (lr42_run (lr42_set BQ_LOWPASS f1) data) as [l lp0], (lr42_run (lr42_set BQ_HIGHPASS f1) data) as [h hp0].
  cbn [fst] in *.
  assert (forall right, map (pick right) l = series (pass BQ_LOWPASS f1) (map (pick right) data)) as A by (by intros []).
  assert (forall right, map (pick right) h = series (pass BQ_HIGHPASS f1) (map (pick right) data)) as B by (by intros []).
  clear A0 A1 B0 B1.
  assert (forall right ty (d : list (float * float)) d', map (pick right) d = d' ->
    map (pick right) (lr42_run (lr42_set ty f2) d).1 = series (pass ty f2) d') as C.
  { intros right ty d d' <-. apply lr42_set_series. }
  pose proof (fun right => C right BQ_LOWPASS _ _ (A right)) as C1.
  pose proof (fun right => C right BQ_HIGHPASS _ _ (A right)) as C2.
  pose proof (fun right => C right BQ_LOWPASS _ _ (B right)) as C3.
  pose proof (fun right => C right BQ_HIGHPASS _ _ (B right)) as C4.
  destruct (lr42_run (lr42_set BQ_LOWPASS f2) l) as [ll lp1], (lr42_run (lr42_set BQ_HIGHPASS f2) l) as [lh hp1],
    (lr42_run (lr42_set BQ_LOWPASS f2) h) as [m lp2], (lr42_run (lr42_set BQ_HIGHPASS f2) h) as [g hp2].
  eexists _, _, _, _. split; [reflexivity|]. split; [|by split].
  intros right. rewrite <- C1, <- C2. cbn [fst]. clear. revert ll.
  induction lh as [|x lh IH]; intros [|y ll]; cbn; try done. rewrite IH. by destruct right.
Qed.

(** C33.  The crossovers split a signal into the bands of the diagram in
    crossover.h.  Set by crossover_init and crossover2_init at two
    frequencies, they store into their buffers the low band (low pass at the
    first frequency, then the sum of the high and low pass at the second), the
    middle band (high pass, low pass) and the high band (both high passes) of
    the samples, each filter being two biquads in series as eq_process1 runs
    them; the stereo crossover does so on each channel by itself.  What is in
    the buffers behind the samples is kept. *)
Theorem crossover_bands f1 f2 (data u v : list (float * float)) t0 t0' t1 t1' t2 t2'
    (Hu : length u = length data) (Hv : length v = length data) :
  (exists xo,
    crossover_process (crossover_init f1 f2) (length data)
      (map fst data ++ t0) (map fst u ++ t1) (map fst v ++ t2) =
    Done (xo, low_band f1 f2 (map fst data) ++ t0, mid_band f1 f2 (map fst data) ++ t1,
          high_band f1 f2 (map fst data) ++ t2)) /\
  (exists xo2,
    crossover2_process (crossover2_init f1 f2) (length data)
      (map fst data ++ t0) (map snd data ++ t0') (map fst u ++ t1) (map snd u ++ t1')
      (map fst v ++ t2) (map snd v ++ t2') =
    Done (xo2, low_band f1 f2 (map fst data) ++ t0, low_band f1 f2 (map snd data) ++ t0',
          mid_band f1 f2 (map fst data) ++ t1, mid_band f1 f2 (map snd data) ++ t1',
          high_band f1 f2 (map fst data) ++ t2, high_band f1 f2 (map snd data) ++ t2')).
Proof.
  split.
  { rewrite <- (length_map fst data). apply crossover_process_bands; by rewrite !length_map. }
  destruct (bands2_init f1 f2 data) as (low & mid & high & xo2 & Hb & Hl & Hm & Hh).
  exists xo2. rewrite (crossover2_process_bands _ _ u v _ _ _ _ _ _ _ _ _ _ Hu Hv Hb).
  pose proof (Hl false : map fst low = _) as L0. pose proof (Hl true : map snd low = _) as L1.
  pose proof (Hm false : map fst mid = _) as M0. pose proof (Hm true : map snd mid = _) as M1.
  pose proof (Hh false : map fst high = _) as H0. pose proof (Hh true : map snd high = _) as H1.
  by rewrite L0, L1, M0, M1, H0, H1.
Qed.
End Series.

Lemma crossover_bands_witness :
  exists xo, crossover_process (crossover_init (f_const 1 10) (f_const 1 2)) 1
    [f_of_Z 1] [f_of_Z 0] [f_of_Z 0] =
  Done (xo, low_band (f_const 1 10) (f_const 1 2) [f_of_Z 1], mid_band (f_const 1 10) (f_const 1 2) [f_of_Z 1],
        high_band (f_const 1 10) (f_const 1 2) [f_of_Z 1]).
Proof.
  destruct (crossover_bands (f_const 1 10) (f_const 1 2) [(f_of_Z 1, f_of_Z 2)]
              [(f_of_Z 0, f_of_Z 0)] [(f_of_Z 0, f_of_Z 0)] [] [] [] [] [] [] eq_refl eq_refl) as [[xo H] _].
  exists xo. cbn [map app fst length] in H. rewrite !app_nil_r in H. exact H.
Defined.
