(* ===== verification/DrcMath.v ===== *)
(** * DrcMath: the approximations of audio/hal/dsp/drc_math.h and drc_math.c

    The fast versions, which the header selects, with rintf for rounding as on
    every target but 32-bit ARM.  Every operation is rounded to float, where the
    source computes in float.  The conversion of a float to int is undefined out
    of the range of int, so that decibels_to_linear has an outcome. *)

From Stdlib Require Import SpecFloat.
From S2P Require Import Prelude Float32 Eq.

(** The macros max and min of drc_math.h; a comparison with something that is
    not a number is false. *)
Definition max_f (a b : float) : float := if fgt a b then a else b.
Definition min_f (a b : float) : float := if flt a b then a else b.

(** 3.141592653589793f, 0.63661977236758134f and 0.7943282347242815f *)
Definition PI_FLOAT : float := f_const 3141592653589793 1000000000000000.
Definition TWO_OVER_PI_FLOAT : float := f_const 63661977236758134 100000000000000000.
Definition NEG_TWO_DB : float := f_const 7943282347242815 10000000000000000.

Definition f_nan : float := S754_nan.

(** The exponent bits are all one. *)
Definition isbadf (x : float) : bool :=
  match x with S754_infinity _ | S754_nan => true | _ => false end.

(** The bits of [x] with the exponent field set to 126, and what [e] is set to;
    [None]: [e] is left alone.  A finite value with 24 digits is normal, and its
    exponent field is [e + 150]; other finite values have exponent field 0 and
    all their digits in the mantissa field. *)
Definition frexpf_fast (x : float) : float * option Z :=
  match x with
  | S754_infinity _ | S754_nan => (f_nan, None)
  | S754_zero s => (S754_finite s (2 ^ 23) (-24), Some (-126)%Z)
  | S754_finite s m e =>
      if (2 ^ 23 <=? Zpos m)%Z then (S754_finite s m (-24), Some (e + 24)%Z)
      else (S754_finite s (m + 2 ^ 23) (-24), Some (-126)%Z)
  end.

(** 10^(x/20) for the integers from -100 to 100: an element of db_to_linear, and
    the whole table drc_math_init writes. *)
Definition db_entry `{LibM} (k : Z) : float :=
  f_of_double (d_pow (d_of_Z 10) (ddiv (d_of_Z (k - 100)) (d_of_Z 20))).

Definition drc_math_init `{LibM} : list float := map (fun k => db_entry (Z.of_nat k)) (seq 0 201).

(** db_to_linear[i] after drc_math_init. *)
Definition db_to_linear `{LibM} (i : Z) : outcome float :=
  if ((0 <=? i) && (i <? 201))%Z then Done (db_entry i) else Fault.

Lemma db_to_linear_table `{LibM} (i : nat) : db_to_linear (Z.of_nat i) = access (drc_math_init !! i).
Proof.
  unfold db_to_linear, drc_math_init. rewrite (proj2 (Z.leb_le _ _)) by lia. cbn [andb].
  change (@map nat) with (@fmap list list_fmap nat). rewrite list_lookup_fmap.
  destruct (Z.ltb_spec (Z.of_nat i) 201).
  - by rewrite lookup_seq_lt by lia.
  - by rewrite lookup_seq_ge by lia.
Qed.

Section DrcMath.
Context `{LibM} `{LibMF}.
#[local] Open Scope float_scope.

Definition decibels_to_linear (decibels : float) : outcome float :=
  let fi := rintf decibels in
  let x := decibels - fi in
  i ← access (f_to_int fi);
  let i := Z.max (Z.min i 100) (-100) in
  let A3 := f_const 254408805631101131439208984375 (10 ^ 33) in
  let A2 := f_const 6628888659179210662841796875 (10 ^ 30) in
  let A1 := f_const 11512924730777740478515625 (10 ^ 26) in
  let A0 := f_of_Z 1 in
  let x2 := x * x in
  t ← db_to_linear (i + 100);
  Done (((A3 * x + A2) * x2 + (A1 * x + A0)) * t).

Definition linear_to_decibels (linear : float) : float :=
  if fle linear (f_of_Z 0) then f_of_Z (-1000)
  else
    let '(x, e) := frexpf_fast linear in
    let exp := f_of_Z (match e with Some e => e | None => 0%Z end) in
    let h := f_const 707106781186548 (10 ^ 15) in
    let '(x, exp) := if fgt x h then (x * h, exp + f_const 5 10) else (x, exp) in
    let A5 := f_const 1131880283355712890625 (10 ^ 21) in
    let A4 := f_const (-4258677959442138671875) (10 ^ 21) in
    let A3 := f_const 681631565093994140625 (10 ^ 20) in
    let A2 := f_const (-61185703277587890625) (10 ^ 19) in
    let A1 := f_const 36505267620086669921875 (10 ^ 22) in
    let A0 := f_const (-1217894077301025390625) (10 ^ 21) in
    let x2 := x * x in
    let x4 := x2 * x2 in
    ((A5 * x + A4) * x4 + (A3 * x + A2) * x2 + (A1 * x + A0)) * f_of_Z 20
      + exp * f_const 60205999132796239 (10 ^ 16).

Definition warp_sinf (x : float) : float :=
  let A7 := f_const (-43330336920917034149169921875) (10 ^ 31) in
  let A5 := f_const 79434238374233245849609375 (10 ^ 27) in
  let A3 := f_const (-645892798900604248046875) (10 ^ 24) in
  let A1 := f_const 15707910060882568359375 (10 ^ 22) in
  let x2 := x * x in
  let x4 := x2 * x2 in
  x * ((A7 * x2 + A5) * x4 + (A3 * x2 + A1)).

Definition warp_asinf (x : float) : float := asinf x * TWO_OVER_PI_FLOAT.

Definition knee_expf (input : float) : outcome float :=
  decibels_to_linear (f_const 8685889638065044 (10 ^ 15) * input).
End DrcMath.
