(* ===== verification/DrcKernel.v ===== *)
(** * DrcKernel: one band of the compressor, audio/hal/dsp/drc_kernel.c

    The floats of struct drc_kernel are grouped by what they are for: the static
    curve, the attack and release parameters, the envelope.  The look-ahead
    section is two arrays of MAX_PRE_DELAY_FRAMES samples, one for each channel,
    with the indices they are read and written at.  The indices are masked to
    the size of the arrays, so that the sums and differences of indices and
    counts below do not wrap.  An access outside an array is a fault.  The
    portable code is modelled; the NEON and SSE versions of max_abs_division
    and dk_compress_output are assembly and not modelled.  calloc is taken to
    succeed, as the code does. *)

From Stdlib Require Import SpecFloat.
From S2P Require Import Prelude Float32 Biquad Eq DrcMath.

Definition MAX_PRE_DELAY_FRAMES : nat := 1024.
Definition MAX_PRE_DELAY_FRAMES_MASK : nat := 1023.
Definition DEFAULT_PRE_DELAY_FRAMES : nat := 256.
Definition DIVISION_FRAMES : nat := 32.
Definition DIVISION_FRAMES_MASK : nat := 31.

(** The static compression curve. *)
Record dk_curve : Type := Curve {
  ratio : float; slope : float;
  linear_threshold : float; db_threshold : float;
  db_knee : float; knee_threshold : float; ratio_base : float;
  K : float;
  knee_alpha : float; knee_beta : float
}.

(** What dk_set_parameters computes besides the curve. *)
Record dk_rates : Type := Rates {
  kA : float; kB : float; kC : float; kD : float; kE : float;
  master_linear_gain : float;
  attack_frames : float;
  sat_release_frames_inv_neg : float;
  sat_release_rate_at_neg_two_db : float
}.

Record dk_envelope : Type := Envelope {
  detector_average : float;
  compressor_gain : float;
  max_attack_compression_diff_db : float;
  envelope_rate : float;
  scaled_desired_gain : float
}.

Record drc_kernel : Type := Dk {
  dk_sample_rate : float;
  curve : dk_curve;
  rates : dk_rates;
  envelope : dk_envelope;
  enabled : bool;
  processed : bool;
  last_pre_delay_frames : nat;
  pre_delay_buffers : list float * list float;
  pre_delay_read_index : nat;
  pre_delay_write_index : nat
}.

Definition uninitialized_value : float := f_of_Z (-1).

Definition zero_buffer : list float := replicate MAX_PRE_DELAY_FRAMES float_zero.

(** A kernel whose bytes are all zero (calloc of struct drc). *)
Definition zero_kernel : drc_kernel :=
  let z := float_zero in
  Dk z (Curve z z z z z z z z z z) (Rates z z z z z z z z z) (Envelope z z z z z)
     false false 0 ([], []) 0 0.

(** dk_init leaves alone what it does not name. *)
Definition dk_init (dk : drc_kernel) (sample_rate : float) : drc_kernel :=
  let u := uninitialized_value in
  Dk sample_rate
     (Curve u u u u u u u u (knee_alpha (curve dk)) (knee_beta (curve dk)))
     (rates dk)
     (Envelope float_zero (f_of_Z 1) (S754_infinity true)
        (envelope_rate (envelope dk)) (scaled_desired_gain (envelope dk)))
     false false DEFAULT_PRE_DELAY_FRAMES (zero_buffer, zero_buffer) 0 DEFAULT_PRE_DELAY_FRAMES.

(** [pre_delay_frames &= ~DIVISION_FRAMES_MASK] on an unsigned. *)
Definition whole_divisions (n : nat) : nat := n - Nat.land n DIVISION_FRAMES_MASK.

Definition set_pre_delay_time (dk : drc_kernel) (pre_delay_time : float) : outcome drc_kernel :=
  n ← access (f_to_unsigned (pre_delay_time * dk_sample_rate dk)%float);
  let n := Z.to_nat (Z.min n (Z.of_nat (MAX_PRE_DELAY_FRAMES - 1))) in
  let n := whole_divisions n in
  let n := Nat.max n DIVISION_FRAMES in
  if last_pre_delay_frames dk =? n then Done dk
  else
    Done (Dk (dk_sample_rate dk) (curve dk) (rates dk) (envelope dk) (enabled dk) (processed dk)
             n (zero_buffer, zero_buffer) 0 n).

Section Kernel.
Context `{LibM} `{LibMF}.
#[local] Open Scope float_scope.

Definition one : float := f_of_Z 1.

(** ** The static curve *)

Definition knee_curve (c : dk_curve) (x k : float) : outcome float :=
  if flt x (linear_threshold c) then Done x
  else
    e ← knee_expf (fneg k * (x - linear_threshold c));
    Done (linear_threshold c + fdiv (one - e) k).

(** x * 1.001 is computed in double. *)
Definition slope_at (c : dk_curve) (x k : float) : outcome float :=
  if flt x (linear_threshold c) then Done one
  else
    let x2 := f_of_double (dmul (d_of_float x) (d_const 1001 1000)) in
    let x_db := linear_to_decibels x in
    let x2Db := linear_to_decibels x2 in
    y ← knee_curve c x k;
    let y_db := linear_to_decibels y in
    y2 ← knee_curve c x2 k;
    let y2Db := linear_to_decibels y2 in
    Done (fdiv (y2Db - y_db) (x2Db - x_db)).

Fixpoint k_loop (c : dk_curve) (x desired_slope : float) (todo : nat) (minK maxK k : float)
    : outcome float :=
  match todo with
  | 0 => Done k
  | S todo =>
      slope ← slope_at c x k;
      let '(minK, maxK) := if flt slope desired_slope then (minK, k) else (k, maxK) in
      k_loop c x desired_slope todo minK maxK (sqrtf (minK * maxK))
  end.

Definition k_at_slope (c : dk_curve) (desired_slope : float) : outcome float :=
  let x_db := db_threshold c + db_knee c in
  x ← decibels_to_linear x_db;
  k_loop c x desired_slope 15 (f_of_double (d_const 1 10)) (f_of_Z 10000) (f_of_Z 5).

(** The fields are written one after the other: k_at_slope and knee_curve read
    those written before. *)
Definition update_static_curve_parameters (c : dk_curve) (db_threshold' db_knee' ratio' : float)
    : outcome dk_curve :=
  if negb (feq db_threshold' (db_threshold c)) || negb (feq db_knee' (db_knee c))
     || negb (feq ratio' (ratio c)) then
    lt ← decibels_to_linear db_threshold';
    let c1 := Curve ratio' (fdiv one ratio') lt db_threshold' db_knee'
                (knee_threshold c) (ratio_base c) (K c) (knee_alpha c) (knee_beta c) in
    k ← k_at_slope c1 (fdiv one ratio');
    kt ← decibels_to_linear (db_threshold' + db_knee');
    y0 ← knee_curve c1 kt k;
    Done (Curve ratio' (slope c1) lt db_threshold' db_knee' kt (y0 * powf kt (fneg (slope c1)))
            k (lt + fdiv one k) (fdiv (fneg (expf (k * lt))) k))
  else Done c.

Definition knee_curveK (c : dk_curve) (x : float) : outcome float :=
  e ← knee_expf (fneg (K c) * x);
  Done (knee_alpha c + knee_beta c * e).

Definition volume_gain (c : dk_curve) (x : float) : outcome float :=
  if flt x (knee_threshold c) then
    if flt x (linear_threshold c) then Done one
    else y ← knee_curveK c x; Done (fdiv y x)
  else
    e ← knee_expf (logf x * (slope c - one));
    Done (ratio_base c * e).

(** ** Parameters *)

(** The polynomial that passes through the four release points. *)
Definition release_rates (y1 y2 y3 y4 : float) (r : dk_rates) : dk_rates :=
  Rates
    (f_const 9999999999999998 (10 ^ 16) * y1 + f_const 18432219684323923 (10 ^ 32) * y2
       - f_const 19373394351676423 (10 ^ 32) * y3 + f_const 8824516011816245 (10 ^ 33) * y4)
    (f_const (-15788320352845888) (10 ^ 16) * y1 + f_const 23305837032074286 (10 ^ 16) * y2
       - f_const 9141194204840429 (10 ^ 16) * y3 + f_const 1623677525612032 (10 ^ 16) * y4)
    (f_const 5334142869106424 (10 ^ 16) * y1 - f_const 1272736789213631 (10 ^ 15) * y2
       + f_const 9258856042207512 (10 ^ 16) * y3 - f_const 18656310191776226 (10 ^ 17) * y4)
    (f_const 8783463138207234 (10 ^ 17) * y1 - f_const 1694162967925622 (10 ^ 16) * y2
       + f_const 8588057951595272 (10 ^ 17) * y3 - f_const 429891410546283 (10 ^ 17) * y4)
    (f_const (-42416883008123074) (10 ^ 18) * y1 + f_const 1115693827987602 (10 ^ 16) * y2
       - f_const 9764676325265872 (10 ^ 17) * y3 + f_const 28494263462021576 (10 ^ 18) * y4)
    (master_linear_gain r) (attack_frames r) (sat_release_frames_inv_neg r)
    (sat_release_rate_at_neg_two_db r).

Definition dk_set_parameters (dk : drc_kernel)
    (db_threshold db_knee ratio attack_time release_time pre_delay_time db_post_gain
     releaseZone1 releaseZone2 releaseZone3 releaseZone4 : float) : outcome drc_kernel :=
  let sample_rate := dk_sample_rate dk in
  c ← update_static_curve_parameters (curve dk) db_threshold db_knee ratio;
  full_range_gain ← volume_gain c one;
  let full_range_makeup_gain := powf (fdiv one full_range_gain) (f_const 6 10) in
  post ← decibels_to_linear db_post_gain;
  let attack_time := max_f (f_const 1 1000) attack_time in
  let release_frames := sample_rate * release_time in
  let sat_release_frames := f_const 25 10000 * sample_rate in
  let inv_neg := fdiv (f_of_Z (-1)) sat_release_frames in
  sat ← decibels_to_linear (f_of_Z (-2) * inv_neg);
  let r := Rates (kA (rates dk)) (kB (rates dk)) (kC (rates dk)) (kD (rates dk)) (kE (rates dk))
             (post * full_range_makeup_gain) (attack_time * sample_rate) inv_neg (sat - one) in
  let r := release_rates (release_frames * releaseZone1) (release_frames * releaseZone2)
             (release_frames * releaseZone3) (release_frames * releaseZone4) r in
  set_pre_delay_time
    (Dk sample_rate c r (envelope dk) (enabled dk) (processed dk) (last_pre_delay_frames dk)
        (pre_delay_buffers dk) (pre_delay_read_index dk) (pre_delay_write_index dk))
    pre_delay_time.

Definition dk_set_enabled (dk : drc_kernel) (enabled : bool) : drc_kernel :=
  Dk (dk_sample_rate dk) (curve dk) (rates dk) (envelope dk) enabled (processed dk)
     (last_pre_delay_frames dk) (pre_delay_buffers dk) (pre_delay_read_index dk)
     (pre_delay_write_index dk).

Definition set_processed (dk : drc_kernel) : drc_kernel :=
  Dk (dk_sample_rate dk) (curve dk) (rates dk) (envelope dk) (enabled dk) true
     (last_pre_delay_frames dk) (pre_delay_buffers dk) (pre_delay_read_index dk)
     (pre_delay_write_index dk).

Definition set_envelope (dk : drc_kernel) (e : dk_envelope) : drc_kernel :=
  Dk (dk_sample_rate dk) (curve dk) (rates dk) e (enabled dk) (processed dk)
     (last_pre_delay_frames dk) (pre_delay_buffers dk) (pre_delay_read_index dk)
     (pre_delay_write_index dk).

Definition set_buffers (dk : drc_kernel) (bufs : list float * list float) : drc_kernel :=
  Dk (dk_sample_rate dk) (curve dk) (rates dk) (envelope dk) (enabled dk) (processed dk)
     (last_pre_delay_frames dk) bufs (pre_delay_read_index dk) (pre_delay_write_index dk).

Definition set_indices (dk : drc_kernel) (read_index write_index : nat) : drc_kernel :=
  Dk (dk_sample_rate dk) (curve dk) (rates dk) (envelope dk) (enabled dk) (processed dk)
     (last_pre_delay_frames dk) (pre_delay_buffers dk) read_index write_index.

(** ** The envelope *)

(** The envelope rate when the gain is rising: the adaptive release curve. *)
Definition release_rate (r : dk_rates) (compression_diff_db : float) : outcome float :=
  let compression_diff_db := if isbadf compression_diff_db then f_of_Z (-1) else compression_diff_db in
  let x := compression_diff_db in
  let x := max_f (f_of_Z (-12)) x in
  let x := min_f (f_of_Z 0) x in
  let x := f_const 1 4 * (x + f_of_Z 12) in
  let x2 := x * x in
  let x3 := x2 * x in
  let x4 := x2 * x2 in
  let release_frames := kA r + kB r * x + kC r * x2 + kD r * x3 + kE r * x4 in
  decibels_to_linear (fdiv (f_of_Z 5) release_frames).

(** The envelope rate when it is falling, and the largest difference so far. *)
Definition attack_rate (r : dk_rates) (max_diff compression_diff_db : float) : float * float :=
  let compression_diff_db := if isbadf compression_diff_db then one else compression_diff_db in
  let max_diff := max_f max_diff compression_diff_db in
  let eff_atten_diff_db := max_f f_half max_diff in
  let x := fdiv (f_const 1 4) eff_atten_diff_db in
  (one - powf x (fdiv one (attack_frames r)), max_diff).

Definition update_envelope (r : dk_rates) (e : dk_envelope) : outcome dk_envelope :=
  let desired_gain := detector_average e in
  let scaled := warp_asinf desired_gain in
  let is_releasing := fgt scaled (compressor_gain e) in
  let compression_diff_db := linear_to_decibels (fdiv (compressor_gain e) scaled) in
  if is_releasing then
    rate ← release_rate r compression_diff_db;
    Done (Envelope desired_gain (compressor_gain e) (S754_infinity true) rate scaled)
  else
    let '(rate, max_diff) := attack_rate r (max_attack_compression_diff_db e) compression_diff_db in
    Done (Envelope desired_gain (compressor_gain e) max_diff rate scaled).

Definition dk_update_envelope (dk : drc_kernel) : outcome drc_kernel :=
  e ← update_envelope (rates dk) (envelope dk); Done (set_envelope dk e).

(** ** The detector *)

(** The elements [i], ..., [i + n - 1] of an array. *)
Definition read_range {A} (l : list A) (i n : nat) : outcome (list A) :=
  if (i + n <=? length l)%nat then Done (take n (drop i l)) else Fault.

Definition max_abs_division (data0 data1 : list float) : list float :=
  zip_with (fun a b => fmaxf (fabsf a) (fabsf b)) data0 data1.

(** One sample of the division. *)
Definition detector_step (c : dk_curve) (r : dk_rates) (average abs_input : float) : outcome float :=
  gain ← volume_gain c abs_input;
  average ←
    (if fgt gain average then
       if fgt gain NEG_TWO_DB then
         Done (average + (gain - average) * sat_release_rate_at_neg_two_db r)
       else
         let gain_db := linear_to_decibels gain in
         let db_per_frame := gain_db * sat_release_frames_inv_neg r in
         l ← decibels_to_linear db_per_frame;
         Done (average + (gain - average) * (l - one))
     else Done gain);
  Done (if isbadf average then one else min_f average one).

Fixpoint detector_loop (c : dk_curve) (r : dk_rates) (average : float) (abs_inputs : list float)
    : outcome float :=
  match abs_inputs with
  | [] => Done average
  | x :: abs_inputs => average ← detector_step c r average x; detector_loop c r average abs_inputs
  end.

Definition set_average (e : dk_envelope) (average : float) : dk_envelope :=
  Envelope average (compressor_gain e) (max_attack_compression_diff_db e) (envelope_rate e)
    (scaled_desired_gain e).

(** The last division is the one before the index that is written next. *)
Definition dk_update_detector_average (dk : drc_kernel) : outcome drc_kernel :=
  let w := pre_delay_write_index dk in
  div_start ← (if w =? 0 then Done (MAX_PRE_DELAY_FRAMES - DIVISION_FRAMES)%nat
               else if DIVISION_FRAMES <=? w then Done (w - DIVISION_FRAMES)%nat else Fault);
  data0 ← read_range (pre_delay_buffers dk).1 div_start DIVISION_FRAMES;
  data1 ← read_range (pre_delay_buffers dk).2 div_start DIVISION_FRAMES;
  average ← detector_loop (curve dk) (rates dk) (detector_average (envelope dk))
              (max_abs_division data0 data1);
  Done (set_envelope dk (set_average (envelope dk) average)).

(** ** Compressing the next output division *)

(** The elements of an array multiplied by the gains, from index [i] on. *)
Fixpoint scale_at (l : list float) (i : nat) (gains : list float) : outcome (list float) :=
  match gains with
  | [] => Done l
  | g :: gains => x ← access (l !! i); scale_at (<[i := x * g]> l) (S i) gains
  end.

(** The loops of dk_compress_output: the gains of the four values of [x] are
    applied from index [i] on, then [next] is applied to the four; [count]
    times, the last without [next]. *)
Fixpoint compress_loop (gain next : float -> float) (count : nat) (x : list float) (i : nat)
    (bufs : list float * list float) : outcome (list float * (list float * list float)) :=
  match count with
  | 0 => Fault
  | S count =>
      l ← scale_at bufs.1 i (map gain x);
      r ← scale_at bufs.2 i (map gain x);
      if (count =? 0)%nat then Done (x, (l, r))
      else compress_loop gain next count (map next x) (i + 4)%nat (l, r)
  end.

(** {c*r, c*r*r, c*r*r*r, c*r*r*r*r} *)
Definition powers (c r : float) : list float :=
  [c * r; c * r * r; c * r * r * r; c * r * r * r * r].

Definition set_gain_reached (e : dk_envelope) (g : float) : dk_envelope :=
  Envelope (detector_average e) g (max_attack_compression_diff_db e) (envelope_rate e)
    (scaled_desired_gain e).

Definition dk_compress_output (dk : drc_kernel) : outcome drc_kernel :=
  let e := envelope dk in
  let master := master_linear_gain (rates dk) in
  let div_start := pre_delay_read_index dk in
  let count := Nat.div DIVISION_FRAMES 4 in
  if flt (envelope_rate e) one then
    let c := compressor_gain e - scaled_desired_gain e in
    let base := scaled_desired_gain e in
    let r := one - envelope_rate e in
    let r4 := r * r * r * r in
    '(x, bufs) ← compress_loop (fun x => master * warp_sinf (x + base)) (fun x => x * r4) count
                   (powers c r) div_start (pre_delay_buffers dk);
    x3 ← access (x !! 3);
    Done (set_envelope (set_buffers dk bufs) (set_gain_reached e (x3 + base)))
  else
    let c := compressor_gain e in
    let r := envelope_rate e in
    let r4 := r * r * r * r in
    '(x, bufs) ← compress_loop (fun x => master * warp_sinf x) (fun x => min_f one (x * r4)) count
                   (powers c r) div_start (pre_delay_buffers dk);
    x3 ← access (x !! 3);
    Done (set_envelope (set_buffers dk bufs) (set_gain_reached e x3)).

Definition dk_process_one_division (dk : drc_kernel) : outcome drc_kernel :=
  dk ← dk_update_detector_average dk;
  dk ← dk_update_envelope dk;
  dk_compress_output dk.

(** ** The look-ahead section *)

(** memcpy of [n] floats from [src + j] to [dst + i]. *)
Definition memcpy_at {A} (dst : list A) (i : nat) (src : list A) (j n : nat) : outcome (list A) :=
  if ((i + n <=? length dst) && (j + n <=? length src))%nat
  then Done (take i dst ++ take n (drop j src) ++ drop (i + n)%nat dst) else Fault.

(** The two copies for one channel. *)
Definition exchange (buf data : list float) (write_index read_index frame n : nat)
    : outcome (list float * list float) :=
  buf ← memcpy_at buf write_index data frame n;
  data ← memcpy_at data frame buf read_index n;
  Done (buf, data).

Definition exchange_channels (bufs data : list float * list float)
    (write_index read_index frame n : nat)
    : outcome ((list float * list float) * (list float * list float)) :=
  '(b0, d0) ← exchange bufs.1 data.1 write_index read_index frame n;
  '(b1, d1) ← exchange bufs.2 data.2 write_index read_index frame n;
  Done ((b0, b1), (d0, d1)).

Definition masked (i : nat) : nat := Nat.land i MAX_PRE_DELAY_FRAMES_MASK.

Definition dk_copy_fragment (dk : drc_kernel) (data : list float * list float)
    (frame_index frames_to_process : nat) : outcome (drc_kernel * (list float * list float)) :=
  let write_index := pre_delay_write_index dk in
  let read_index := pre_delay_read_index dk in
  '(bufs, data) ←
    exchange_channels (pre_delay_buffers dk) data write_index read_index frame_index frames_to_process;
  Done (set_indices (set_buffers dk bufs) (masked (read_index + frames_to_process)%nat)
          (masked (write_index + frames_to_process)%nat), data).

(** The loop of dk_process_delay_only. *)
Fixpoint delay_loop (fuel : nat) (count i read_index write_index : nat)
    (bufs data : list float * list float)
    : outcome (nat * nat * (list float * list float) * (list float * list float)) :=
  if (count <=? i)%nat then Done (read_index, write_index, bufs, data)
  else
    match fuel with
    | 0 => Timeout
    | S fuel =>
        let small := Nat.min read_index write_index in
        let large := Nat.max read_index write_index in
        let chunk := Nat.min (large - small)%nat (MAX_PRE_DELAY_FRAMES - large)%nat in
        let chunk := Nat.min chunk (count - i)%nat in
        '(bufs, data) ← exchange_channels bufs data write_index read_index i chunk;
        delay_loop fuel count (i + chunk)%nat (masked (read_index + chunk)%nat)
          (masked (write_index + chunk)%nat) bufs data
    end.

Definition dk_process_delay_only (dk : drc_kernel) (data : list float * list float) (count : nat)
    : outcome (drc_kernel * (list float * list float)) :=
  '(read_index, write_index, bufs, data) ←
    delay_loop count count 0 (pre_delay_read_index dk) (pre_delay_write_index dk)
      (pre_delay_buffers dk) data;
  Done (set_indices (set_buffers dk bufs) read_index write_index, data).

(** The loop of dk_process. *)
Fixpoint process_loop (fuel : nat) (dk : drc_kernel) (data : list float * list float)
    (count i offset : nat) : outcome (drc_kernel * (list float * list float)) :=
  if (count <=? i)%nat then Done (dk, data)
  else
    match fuel with
    | 0 => Timeout
    | S fuel =>
        let fragment := Nat.min (DIVISION_FRAMES - offset)%nat (count - i)%nat in
        '(dk, data) ← dk_copy_fragment dk data i fragment;
        let offset := Nat.land (offset + fragment)%nat DIVISION_FRAMES_MASK in
        dk ← (if (offset =? 0)%nat then dk_process_one_division dk else Done dk);
        process_loop fuel dk data count (i + fragment)%nat offset
    end.

(** Every turn of the loops takes a sample, so that [count] turns do. *)
Definition dk_process (dk : drc_kernel) (data : list float * list float) (count : nat)
    : outcome (drc_kernel * (list float * list float)) :=
  if negb (enabled dk) then dk_process_delay_only dk data count
  else
    dk ← (if processed dk then Done dk
          else
            dk ← dk_update_envelope dk;
            dk ← dk_compress_output dk;
            Done (set_processed dk));
    let offset := Nat.land (pre_delay_write_index dk) DIVISION_FRAMES_MASK in
    process_loop count dk data count 0 offset.
End Kernel.
