(* ===== verification/DrcLookahead.v ===== *)
(** * DrcLookahead: what one band of the compressor is meant to do

    A look-ahead compressor without buffers and indices: a queue delays the
    samples; each sample that leaves the queue is multiplied by a gain; the
    gains are made thirty-two at a time, from the samples that have entered the
    queue since they were made last. *)

From S2P Require Import Prelude Float32 Eq DrcMath DrcKernel.

(** ** An array read and written round and round

    The look-ahead section of a compressor kernel holds the last samples in an
    array with a read and a write index.  The queue of the samples between the
    two, and that the copies of a fragment take from its front and put at its
    end. *)

Section Ring.
Context (N : nat).

(** An index that may have run over the end by less than the size. *)
Definition wr (i : nat) : nat := if i <? N then i else i - N.

(** The [d] elements from index [r] on. *)
Definition ring {A} (r d : nat) (buf : list A) : list A := take d (drop r (buf ++ buf)).

Lemma ring_length {A} r d (buf : list A) :
  length buf = N -> r < N -> d <= N -> length (ring r d buf) = d.
Proof. intros Hl Hr Hd. unfold ring. rewrite length_take, length_drop, length_app. lia. Qed.

Lemma ring_lookup {A} r d (buf : list A) i :
  length buf = N -> r < N -> d <= N -> i < d -> ring r d buf !! i = buf !! wr (r + i).
Proof.
  intros Hl Hr Hd Hi. unfold ring, wr. rewrite lookup_take_lt by lia. rewrite lookup_drop.
  destruct (Nat.ltb_spec (r + i) N).
  - by rewrite lookup_app_l by lia.
  - rewrite lookup_app_r by lia. f_equal. lia.
Qed.

(** Writing [xs] at index [i]. *)
Definition overwrite {A} (buf : list A) (i : nat) (xs : list A) : list A :=
  take i buf ++ xs ++ drop (i + length xs) buf.

Lemma overwrite_length {A} (buf : list A) i xs :
  i + length xs <= length buf -> length (overwrite buf i xs) = length buf.
Proof. intros. unfold overwrite. rewrite !length_app, length_take, length_drop. lia. Qed.

Lemma overwrite_lookup {A} (buf : list A) i xs j :
  i + length xs <= length buf ->
  overwrite buf i xs !! j =
  if (i <=? j) && (j <? i + length xs) then xs !! (j - i) else buf !! j.
Proof.
  intros Hl. unfold overwrite. destruct (Nat.leb_spec i j) as [H1|H1].
  - rewrite lookup_app_r by (rewrite length_take; lia). rewrite length_take, Nat.min_l by lia.
    cbn [andb]. destruct (Nat.ltb_spec j (i + length xs)).
    + by rewrite lookup_app_l by lia.
    + rewrite lookup_app_r by lia. rewrite lookup_drop. f_equal. lia.
  - cbn [andb]. rewrite lookup_app_l by (rewrite length_take; lia). by rewrite lookup_take_lt by lia.
Qed.

Lemma memcpy_overwrite {A} (dst : list A) i a xs t :
  i + length xs <= length dst -> length a + length xs <= length (a ++ xs ++ t) ->
  memcpy_at dst i (a ++ xs ++ t) (length a) (length xs) = Done (overwrite dst i xs).
Proof.
  intros H1 H2. unfold memcpy_at. rewrite (proj2 (Nat.leb_le _ _) H1), (proj2 (Nat.leb_le _ _) H2).
  cbn [andb]. by rewrite drop_app_length, take_app_length.
Qed.

(** Two lists with the same elements. *)
Lemma list_eq_below {A} (l k : list A) n :
  length l = n -> length k = n -> (forall i, i < n -> l !! i = k !! i) -> l = k.
Proof.
  intros Hl Hk H. apply list_eq. intros i. destruct (Nat.lt_ge_cases i n); [auto|].
  rewrite !lookup_ge_None_2 by lia. done.
Qed.

Ltac wr_cases :=
  unfold wr in *;
  repeat match goal with
  | |- context [?a <? ?b] => destruct (Nat.ltb_spec a b)
  | |- context [?a <=? ?b] => destruct (Nat.leb_spec a b)
  | H : context [?a <? ?b] |- _ => destruct (Nat.ltb_spec a b)
  end; cbn [andb]; try lia; try (f_equal; lia).

(** What is read of the written array is the front of the queue, and the queue
    that is left ends with what was written. *)
Lemma ring_overwrite {A} (buf : list A) r d xs :
  let w := wr (r + d) in
  let n := length xs in
  length buf = N -> r < N -> n <= d -> d + n <= N -> r + n <= N -> w + n <= N ->
  take n (drop r (overwrite buf w xs)) = take n (ring r d buf) /\
  ring (wr (r + n)) d (overwrite buf w xs) = drop n (ring r d buf ++ xs).
Proof.
  intros w n Hl Hr Hn Hdn Hrn Hwn.
  assert (wr (r + n) < N \/ n = 0) as Hr' by (wr_cases).
  assert (length (overwrite buf w xs) = N) as Hlo by (rewrite overwrite_length; unfold n in *; lia).
  split.
  - apply (list_eq_below _ _ n).
    + rewrite length_take, length_drop. lia.
    + rewrite length_take, ring_length; lia.
    + intros i Hi. rewrite !lookup_take_lt by lia. rewrite lookup_drop, ring_lookup by lia.
      rewrite overwrite_lookup by (fold n; lia). fold n. subst w. wr_cases.
  - destruct (decide (n = 0)) as [E|E].
    { apply nil_length_inv in E as ->. subst n. cbn [length] in *. rewrite app_nil_r, drop_0.
      unfold overwrite. cbn [app length]. rewrite !Nat.add_0_r, take_drop. f_equal. wr_cases. }
    apply (list_eq_below _ _ d).
    + apply ring_length; lia.
    + rewrite length_drop, length_app, ring_length by lia. fold n. lia.
    + intros i Hi. rewrite ring_lookup by lia. rewrite lookup_drop.
      rewrite overwrite_lookup by (fold n; lia). fold n. destruct (Nat.lt_ge_cases (n + i) d).
      * rewrite lookup_app_l by (rewrite ring_length; lia). rewrite ring_lookup by lia.
        subst w. wr_cases.
      * rewrite lookup_app_r by (rewrite ring_length; lia). rewrite ring_length by lia.
        subst w. wr_cases.
Qed.

(** A division at the front of the queue, changed in place. *)
Lemma ring_front {A} (buf : list A) r d xs :
  length buf = N -> r + length xs <= N -> r < N -> length xs <= d -> d <= N ->
  ring r d (overwrite buf r xs) = xs ++ drop (length xs) (ring r d buf).
Proof.
  intros Hl Hr Hr' Hx Hd.
  assert (length (overwrite buf r xs) = N) as Hlo by (rewrite overwrite_length; lia).
  apply (list_eq_below _ _ d).
  - apply ring_length; lia.
  - rewrite length_app, length_drop, ring_length; lia.
  - intros i Hi. rewrite ring_lookup by lia. rewrite overwrite_lookup by lia.
    destruct (Nat.lt_ge_cases i (length xs)).
    + rewrite lookup_app_l by lia. wr_cases.
    + rewrite lookup_app_r by lia. rewrite lookup_drop, ring_lookup by lia. wr_cases.
Qed.

(** The end of the queue, when it lies in one piece. *)
Lemma ring_end {A} (buf : list A) r d n :
  length buf = N -> r < N -> n <= d -> d <= N ->
  let w := wr (r + d) in
  let s := if w =? 0 then N - n else w - n in
  (w <> 0 -> n <= w) ->
  drop (d - n) (ring r d buf) = take n (drop s buf).
Proof.
  intros Hl Hr Hn Hd w s Hw.
  assert (s + n <= N) as Hs.
  { subst s. destruct (Nat.eqb_spec w 0); [lia|]. subst w. wr_cases. }
  apply (list_eq_below _ _ n).
  - rewrite length_drop, ring_length; lia.
  - rewrite length_take, length_drop. lia.
  - intros i Hi. rewrite lookup_drop, lookup_take_lt, lookup_drop, ring_lookup by lia.
    f_equal. subst s w. destruct (Nat.eqb_spec (wr (r + d)) 0) as [E|E].
    + unfold wr in *. destruct (Nat.ltb_spec (r + d) N), (Nat.ltb_spec (r + (d - n + i)) N); lia.
    + specialize (Hw E). unfold wr in *.
      destruct (Nat.ltb_spec (r + d) N), (Nat.ltb_spec (r + (d - n + i)) N); lia.
Qed.
End Ring.

(** [la_queue]: the samples that have not left yet, as they came in;
    [la_gains]: the gains of the first of them; [la_division]: the samples
    that came in since the gains were made. *)
Record lookahead : Type := La {
  la_enabled : bool;
  la_started : bool;
  la_curve : dk_curve;
  la_rates : dk_rates;
  la_envelope : dk_envelope;
  la_queue : list (float * float);
  la_gains : list float;
  la_division : list (float * float)
}.

Definition set_queue (s : lookahead) queue gains division : lookahead :=
  La (la_enabled s) (la_started s) (la_curve s) (la_rates s) (la_envelope s) queue gains division.

Definition scale2 (g : float) (p : float * float) : float * float := (fmul p.1 g, fmul p.2 g).

Definition loudness (p : float * float) : float := fmaxf (fabsf p.1) (fabsf p.2).

(** The gains of [count] times four values, and the last values. *)
Fixpoint gain_blocks (gain next : float -> float) (count : nat) (x : list float)
    : list float * list float :=
  match count with
  | 0 => ([], x)
  | S count =>
      if (count =? 0)%nat then (map gain x, x)
      else let '(gs, x') := gain_blocks gain next count (map next x) in (map gain x ++ gs, x')
  end.

(** The gains of a division: they approach the desired gain exponentially. *)
Definition next_gains (r : dk_rates) (e : dk_envelope) : list float * dk_envelope :=
  let master := master_linear_gain r in
  let count := Nat.div DIVISION_FRAMES 4 in
  if flt (envelope_rate e) one then
    let base := scaled_desired_gain e in
    let rate := (one - envelope_rate e)%float in
    let '(gs, x) := gain_blocks (fun x => master * warp_sinf (x + base))%float
                      (fun x => x * (rate * rate * rate * rate))%float count
                      (powers (compressor_gain e - base)%float rate) in
    (gs, set_gain_reached e (nth 3 x float_zero + base)%float)
  else
    let rate := envelope_rate e in
    let '(gs, x) := gain_blocks (fun x => master * warp_sinf x)%float
                      (fun x => min_f one (x * (rate * rate * rate * rate)))%float count
                      (powers (compressor_gain e) rate) in
    (gs, set_gain_reached e (nth 3 x float_zero)).

Section Lookahead.
Context `{LibM} `{LibMF}.

(** New gains, for an envelope whose detector is up to date. *)
Definition la_reload (s : lookahead) (e : dk_envelope) : outcome lookahead :=
  e ← update_envelope (la_rates s) e;
  let '(gs, e) := next_gains (la_rates s) e in
  Done (La (la_enabled s) true (la_curve s) (la_rates s) e (la_queue s) gs []).

(** At the end of a division its samples are looked at. *)
Definition la_finish (s : lookahead) : outcome lookahead :=
  if length (la_division s) =? DIVISION_FRAMES then
    a ← detector_loop (la_curve s) (la_rates s) (detector_average (la_envelope s))
          (map loudness (la_division s));
    la_reload s (set_average (la_envelope s) a)
  else Done s.

(** Samples that come in while as many leave. *)
Definition la_absorb (s : lookahead) (xs : list (float * float)) : lookahead :=
  set_queue s (drop (length xs) (la_queue s ++ xs)) (drop (length xs) (la_gains s))
    (la_division s ++ xs).

Definition la_step (s : lookahead) (x : float * float) : outcome (float * float * lookahead) :=
  q ← access (head (la_queue s));
  g ← access (head (la_gains s));
  s ← la_finish (la_absorb s [x]);
  Done (scale2 g q, s).

Fixpoint la_steps (s : lookahead) (xs : list (float * float))
    : outcome (list (float * float) * lookahead) :=
  match xs with
  | [] => Done ([], s)
  | x :: xs =>
      '(o, s) ← la_step s x;
      '(os, s) ← la_steps s xs;
      Done (o :: os, s)
  end.

(** A band that is not enabled only delays. *)
Definition la_process (s : lookahead) (xs : list (float * float))
    : outcome (list (float * float) * lookahead) :=
  if la_enabled s then
    s ← (if la_started s then Done s else la_reload s (la_envelope s));
    la_steps s xs
  else
    Done (take (length xs) (la_queue s ++ xs),
          set_queue s (drop (length xs) (la_queue s ++ xs)) (la_gains s) (la_division s)).

(** ** Runs *)

Lemma la_steps_app s xs ys :
  la_steps s (xs ++ ys) =
  '(os, s) ← la_steps s xs; '(os', s) ← la_steps s ys; Done (os ++ os', s).
Proof.
  revert s. induction xs as [|x xs IH]; intros s; cbn [app la_steps].
  { cbn. by destruct (la_steps s ys) as [[]| |]. }
  destruct (la_step s x) as [[o s']| |]; [|done|done]. rewrite !bind_Done_eq, IH.
  destruct (la_steps s' xs) as [[os s'']| |]; [|done|done]. rewrite !bind_Done_eq.
  by destruct (la_steps s'' ys) as [[]| |].
Qed.

Lemma la_reload_started s e s' : la_reload s e = Done s' -> la_started s' = true /\ la_enabled s' = la_enabled s.
Proof.
  unfold la_reload. intros H1. outcome_inv. destruct (next_gains _ _). by outcome_inv.
Qed.

Lemma la_step_started s x o s' :
  la_step s x = Done (o, s') -> la_started s = true ->
  la_started s' = true /\ la_enabled s' = la_enabled s.
Proof.
  unfold la_step, la_finish. intros H1 Hs. outcome_inv.
  destruct (length _ =? _); outcome_inv; [|by cbn].
  by apply la_reload_started in E1.
Qed.

Lemma la_steps_started s xs os s' :
  la_steps s xs = Done (os, s') -> la_started s = true ->
  la_started s' = true /\ la_enabled s' = la_enabled s.
Proof.
  revert s os. induction xs as [|x xs IH]; intros s os; cbn [la_steps].
  { intros [= <- <-] Hs. done. }
  intros H1 Hs. outcome_inv. destruct a as [o s1]. outcome_inv. destruct a as [os1 s2]. outcome_inv.
  apply la_step_started in E as [E1 E2]; [|done]. apply IH in E0 as [E3 E4]; [|done]. by rewrite E4.
Qed.

(** The blocks a signal comes in do not matter. *)
Lemma la_process_app s xs ys :
  la_process s (xs ++ ys) =
  '(os, s) ← la_process s xs; '(os', s) ← la_process s ys; Done (os ++ os', s).
Proof.
  unfold la_process. destruct (la_enabled s) eqn:En.
  - destruct (if la_started s then _ else _) as [s0| |] eqn:E0; [|done|done].
    assert (la_started s0 = true /\ la_enabled s0 = true) as [Hs0 He0].
    { destruct (la_started s) eqn:Es; [by injection E0 as <-|].
      apply la_reload_started in E0. by rewrite En in E0. }
    rewrite !bind_Done_eq, la_steps_app. destruct (la_steps s0 xs) as [[os s1]| |] eqn:E1; [|done|done].
    rewrite !bind_Done_eq. apply la_steps_started in E1 as [Hs1 He1]; [|done].
    by rewrite He1, He0, Hs1, bind_Done_eq.
  - rewrite bind_Done_eq. cbn [set_queue la_enabled la_queue la_gains la_division].
    rewrite En, bind_Done_eq, !length_app. set (q := la_queue s). rewrite (app_assoc q xs ys).
    rewrite <- take_take_drop, <- drop_drop, (take_app_le _ ys), (drop_app_le _ ys)
      by (rewrite length_app; lia). done.
Qed.

(** Every sample that leaves is one that came in, with a gain. *)
Lemma la_steps_delay s xs os s' :
  la_steps s xs = Done (os, s') ->
  exists gs, length gs = length xs /\
    os = zip_with scale2 gs (take (length xs) (la_queue s ++ xs)) /\
    la_queue s' = drop (length xs) (la_queue s ++ xs).
Proof.
  revert s os. induction xs as [|x xs IH]; intros s os; cbn [la_steps].
  { intros [= <- <-]. exists []. by rewrite drop_0, app_nil_r. }
  intros H1. outcome_inv. destruct a as [o s1]. outcome_inv. destruct a as [os1 s2]. outcome_inv.
  unfold la_step in E. outcome_inv. destruct (la_queue s) as [|q queue] eqn:Eq; [done|].
  injection E1 as ->. apply IH in E0 as (gs & Hl & -> & ->).
  assert (la_queue s1 = queue ++ [x]) as ->.
  { unfold la_finish in E3. destruct (_ =? _); outcome_inv.
    - unfold la_reload in *. outcome_inv. destruct (next_gains _ _). outcome_inv. cbn. by rewrite Eq.
    - cbn. by rewrite Eq. }
  exists (a0 :: gs). cbn [length app]. split_and!; [by rewrite Hl | | by rewrite <- app_assoc].
  cbn [take zip_with]. by rewrite <- app_assoc.
Qed.
End Lookahead.
