(* ===== verification/DrcRefine.v ===== *)
(** * DrcRefine: a compressor kernel is a look-ahead compressor

    The ring buffers of a kernel hold the queue of the look-ahead compressor,
    the first of its samples already multiplied by their gains; the loops of
    dk_process follow it fragment by fragment. *)

From S2P Require Import Prelude Float32 Eq DrcMath DrcKernel DrcLookahead.

(** The queue with the gains that have been made applied. *)
Fixpoint heard (gains : list float) (q : list (float * float)) : list (float * float) :=
  match gains, q with
  | g :: gains, p :: q => scale2 g p :: heard gains q
  | _, _ => q
  end.

Lemma heard_length gains q : length (heard gains q) = length q.
Proof. revert q. induction gains as [|g gains IH]; intros [|p q]; cbn; auto. Qed.

Lemma heard_app gains q xs :
  length gains <= length q -> heard gains (q ++ xs) = heard gains q ++ xs.
Proof.
  revert q. induction gains as [|g gains IH]; intros [|p q] Hl; cbn in *; [done | done | lia|].
  by rewrite IH by lia.
Qed.

Lemma heard_drop gains q n : drop n (heard gains q) = heard (drop n gains) (drop n q).
Proof.
  revert gains q. induction n as [|n IH]; intros gains q; [done|].
  destruct gains as [|g gains], q as [|p q]; cbn; try done. by destruct (drop n gains).
Qed.

Lemma heard_full gains q n :
  length gains = n -> n <= length q ->
  heard gains q = zip_with scale2 gains (take n q) ++ drop n q.
Proof.
  revert gains q. induction n as [|n IH]; intros [|g gains] [|p q]; cbn; intros Hl Hq; try lia; [done..|].
  by rewrite <- IH by lia.
Qed.

(** The first [n] samples of two channels behind [a] and before [t]. *)
Definition channels (a xs : list (float * float)) (t : list float * list float)
    : list float * list float :=
  (map fst a ++ map fst xs ++ t.1, map snd a ++ map snd xs ++ t.2).

Abbreviation N := MAX_PRE_DELAY_FRAMES.

(** What the ring buffers hold. *)
Record holds (bufs : list float * list float) (r d : nat) (q : list (float * float)) : Prop := {
  holds_fst_length : length bufs.1 = N;
  holds_snd_length : length bufs.2 = N;
  holds_fst : ring r d bufs.1 = map fst q;
  holds_snd : ring r d bufs.2 = map snd q;
  holds_length : length q = d
}.

Lemma exchange_ring buf d r a xs t :
  let w := wr N (r + d) in
  let n := length xs in
  length buf = N -> r < N -> n <= d -> d + n <= N -> r + n <= N -> w + n <= N ->
  exists buf', exchange buf (a ++ xs ++ t) w r (length a) n =
    Done (buf', a ++ take n (ring r d buf) ++ t) /\
    length buf' = N /\ ring (wr N (r + n)) d buf' = drop n (ring r d buf ++ xs).
Proof.
  intros w n Hl Hr Hn Hdn Hrn Hwn.
  destruct (ring_overwrite N buf r d xs Hl Hr Hn Hdn Hrn Hwn) as [E1 E2]. subst n w.
  set (w := wr N (r + d)) in *. unfold exchange.
  rewrite memcpy_overwrite by (rewrite ?length_app; lia). rewrite bind_Done_eq.
  exists (overwrite buf w xs).
  assert (length (overwrite buf w xs) = N) as Ho by (rewrite overwrite_length; lia).
  split; [|done]. unfold memcpy_at.
  rewrite (proj2 (Nat.leb_le _ _)) by (rewrite !length_app; lia).
  rewrite (proj2 (Nat.leb_le _ _)) by lia. cbn [andb]. rewrite bind_Done_eq.
  rewrite take_app_length, E1, (app_assoc a xs t), drop_app_length' by (rewrite length_app; lia).
  done.
Qed.

Lemma exchange_holds bufs d r q a xs t :
  let w := wr N (r + d) in
  let n := length xs in
  holds bufs r d q -> r < N -> n <= d -> d + n <= N -> r + n <= N -> w + n <= N ->
  exists bufs', exchange_channels bufs (channels a xs t) w r (length a) n =
    Done (bufs', channels (a ++ take n q) [] t) /\
    holds bufs' (wr N (r + n)) d (drop n (q ++ xs)).
Proof.
  intros w n [H1 H2 H3 H4 H5] Hr Hn Hdn Hrn Hwn. subst w n.
  unfold exchange_channels, channels. cbn [fst snd].
  destruct (exchange_ring bufs.1 d r (map fst a) (map fst xs) t.1) as (b1 & E1 & L1 & R1);
    rewrite ?length_map; try lia.
  destruct (exchange_ring bufs.2 d r (map snd a) (map snd xs) t.2) as (b2 & E2 & L2 & R2);
    rewrite ?length_map; try lia.
  rewrite !length_map in *. rewrite E1, bind_Done_eq, E2, bind_Done_eq.
  exists (b1, b2). split.
  - rewrite H3, H4, !map_app, <- !app_assoc, !firstn_map. done.
  - split; cbn [fst snd]; [done | done | | |].
    + rewrite R1, H3, <- map_app. by rewrite skipn_map.
    + rewrite R2, H4, <- map_app. by rewrite skipn_map.
    + rewrite length_drop, length_app. lia.
Qed.

Lemma masked_wr i : i < 2 * N -> masked i = wr N i.
Proof.
  intros Hi. unfold masked, wr, MAX_PRE_DELAY_FRAMES_MASK. change 1023 with (Nat.ones 10).
  rewrite Nat.land_ones. change (2 ^ 10) with N. destruct (Nat.ltb_spec i N).
  - by rewrite Nat.mod_small.
  - rewrite <- (Nat.mod_small (i - N) N) by lia.
    replace i with (i - N + 1 * N) at 1 by lia. by rewrite Nat.Div0.mod_add.
Qed.

Lemma wr_add r d n :
  wr N (r + d) + n <= N -> r + n <= N -> r < N -> d < N -> 0 < n ->
  masked (wr N (r + d) + n) = wr N (wr N (r + n) + d).
Proof.
  intros H1 H2 H3 H4 H5. rewrite masked_wr by (unfold wr in *; destruct (_ <? _); lia).
  unfold wr in *. destruct (Nat.ltb_spec (r + d) N), (Nat.ltb_spec (r + n) N);
    repeat case_match; rewrite ?Nat.ltb_lt, ?Nat.ltb_ge in *; lia.
Qed.

(** ** The gains *)

Lemma gain_blocks_length gain next count x :
  0 < count ->
  length (gain_blocks gain next count x).1 = count * length x /\
  length (gain_blocks gain next count x).2 = length x.
Proof.
  revert x. induction count as [|count IH]; intros x Hc; [lia|]. cbn [gain_blocks].
  destruct (Nat.eqb_spec count 0) as [->|Hn]; cbn [fst snd]; [rewrite length_map; lia|].
  destruct (IH (map next x) ltac:(lia)) as [E1 E2].
  destruct (gain_blocks gain next count (map next x)) as [gs x']. cbn [fst snd] in *.
  rewrite length_app, E1, E2, !length_map. lia.
Qed.

Definition scaled (l : list float) (i : nat) (gains : list float) : list float :=
  overwrite l i (zip_with fmul (drop i l) gains).

Lemma scaled_length l i gains : i + length gains <= length l -> length (scaled l i gains) = length l.
Proof. intros. unfold scaled. rewrite overwrite_length; rewrite ?length_zip_with, ?length_drop; lia. Qed.

Lemma overwrite_insert {A} (l : list A) i y ys :
  i < length l -> overwrite (<[i := y]> l) (S i) ys = overwrite l i (y :: ys).
Proof.
  intros Hi. unfold overwrite. cbn [length]. rewrite drop_insert_lt by lia.
  rewrite (take_S_r _ _ y) by (by apply list_lookup_insert_eq).
  rewrite take_insert_ge by lia. rewrite <- app_assoc. cbn [app].
  by replace (S i + length ys) with (i + S (length ys)) by lia.
Qed.

Lemma scale_at_spec l i gains :
  i + length gains <= length l -> scale_at l i gains = Done (scaled l i gains).
Proof.
  revert l i. induction gains as [|g gains IH]; intros l i Hl; cbn [scale_at length] in *.
  { unfold scaled, overwrite. rewrite zip_with_nil_r. cbn [app length]. by rewrite Nat.add_0_r, take_drop. }
  destruct (lookup_lt_is_Some_2 l i ltac:(lia)) as [x Hx]. rewrite Hx. cbn [access]. rewrite bind_Done_eq.
  rewrite IH by (rewrite length_insert; lia). unfold scaled. f_equal.
  rewrite (drop_S _ _ _ Hx). cbn [zip_with]. rewrite drop_insert_lt by lia.
  apply overwrite_insert. lia.
Qed.

Lemma scale_at_app l i gs gs' :
  scale_at l i (gs ++ gs') = l ← scale_at l i gs; scale_at l (i + length gs) gs'.
Proof.
  revert l i. induction gs as [|g gs IH]; intros l i; cbn [app scale_at length].
  { by rewrite bind_Done_eq, Nat.add_0_r. }
  destruct (access (l !! i)); [|done|done]. rewrite !bind_Done_eq, IH.
  by replace (S i + length gs) with (i + S (length gs)) by lia.
Qed.

Lemma compress_loop_gains gain next count x i bufs :
  0 < count -> i + count * length x <= length bufs.1 -> i + count * length x <= length bufs.2 ->
  length x = 4 ->
  compress_loop gain next count x i bufs =
  Done ((gain_blocks gain next count x).2,
        (scaled bufs.1 i (gain_blocks gain next count x).1,
         scaled bufs.2 i (gain_blocks gain next count x).1)).
Proof.
  revert x i bufs. induction count as [|count IH]; intros x i bufs Hc H1 H2 Hx; [lia|].
  cbn [compress_loop]. pose proof (gain_blocks_length gain next (S count) x Hc) as [L _].
  rewrite (scale_at_spec bufs.1), bind_Done_eq by (rewrite length_map; lia).
  rewrite (scale_at_spec bufs.2), bind_Done_eq by (rewrite length_map; lia).
  cbn [gain_blocks] in *. destruct (Nat.eqb_spec count 0) as [->|Hn]; [done|].
  rewrite IH; cbn [fst snd]; rewrite ?scaled_length, ?length_map by (rewrite ?length_map; lia); try lia.
  destruct (gain_blocks gain next count (map next x)) as [gs x']. cbn [fst snd] in *.
  assert (forall b, i + S count * length x <= length b ->
    scaled (scaled b i (map gain x)) (i + 4) gs = scaled b i (map gain x ++ gs)) as Hs.
  { intros b Hb. pose proof (scale_at_app b i (map gain x) gs) as E.
    rewrite length_app, length_map in L.
    rewrite (scale_at_spec b i (map gain x)), bind_Done_eq in E by (rewrite length_map; lia).
    rewrite !scale_at_spec in E; rewrite ?scaled_length, ?length_app, ?length_map;
      rewrite ?length_map; try lia.
    injection E as E. rewrite length_map, Hx in E. by rewrite E. }
  by rewrite !Hs by done.
Qed.

Lemma powers_length c r : length (powers c r) = 4.
Proof. done. Qed.

Lemma next_gains_length r e : length (next_gains r e).1 = DIVISION_FRAMES.
Proof.
  unfold next_gains. destruct (flt _ _).
  - match goal with |- context [gain_blocks ?a ?b ?c ?d] =>
      destruct (gain_blocks_length a b c d ltac:(cbn; lia)) as [L _];
      destruct (gain_blocks a b c d) end. exact L.
  - match goal with |- context [gain_blocks ?a ?b ?c ?d] =>
      destruct (gain_blocks_length a b c d ltac:(cbn; lia)) as [L _];
      destruct (gain_blocks a b c d) end. exact L.
Qed.

(** ** Following an outcome: the same fault, or related results; no timeout *)

Definition follows {A B} (R : A -> B -> Prop) (m : outcome A) (m' : outcome B) : Prop :=
  match m with
  | Done a => exists b, m' = Done b /\ R a b
  | Fault => m' = Fault
  | Timeout => False
  end.

Lemma follows_bind {A B A' B'} (R : A -> B -> Prop) (S : A' -> B' -> Prop) m m' f g :
  follows R m m' -> (forall a b, R a b -> follows S (f a) (g b)) ->
  follows S (m ≫= f) (m' ≫= g).
Proof.
  destruct m as [a| |]; cbn; [|by intros -> | done]. intros (b & -> & HR) Hf.
  rewrite bind_Done_eq. by apply Hf.
Qed.

(** A result that is only put together differently. *)
Lemma follows_post {A B A'} (R : A -> B -> Prop) (S : A' -> B -> Prop) m m' (f : A -> outcome A') :
  follows R m m' -> (forall a b, R a b -> exists a', f a = Done a' /\ S a' b) ->
  follows S (m ≫= f) m'.
Proof.
  destruct m as [a| |]; cbn; [|done | done]. intros (b & -> & HR) Hf.
  destruct (Hf a b HR) as (a' & -> & HS). by exists b.
Qed.

Lemma follows_Done {A B} (R : A -> B -> Prop) a b : R a b -> follows R (Done a) (Done b).
Proof. intros HR. by exists b. Qed.

Lemma follows_same {A} (m : outcome A) : m <> Timeout -> follows Logic.eq m m.
Proof. destruct m; cbn; [eauto | done | done]. Qed.

Section Follow.
Context `{LibM} `{LibMF}.

Lemma bind_no_timeout {A B} (m : outcome A) (f : A -> outcome B) :
  m <> Timeout -> (forall a, f a <> Timeout) -> (m ≫= f) <> Timeout.
Proof. destruct m; cbn; auto. Qed.

Lemma access_no_timeout {A} (o : option A) : access o <> Timeout.
Proof. by destruct o. Qed.

Lemma Done_no_timeout {A} (a : A) : Done a <> Timeout.
Proof. discriminate. Qed.

Lemma decibels_no_timeout x : decibels_to_linear x <> Timeout.
Proof.
  unfold decibels_to_linear, db_to_linear. apply bind_no_timeout; [apply access_no_timeout|].
  intros i. apply bind_no_timeout; [|intros t; apply Done_no_timeout].
  destruct (_ && _); discriminate.
Qed.

Ltac no_timeout :=
  repeat match goal with
  | |- Done ?a <> _ => exact (Done_no_timeout a)
  | |- access ?o <> _ => exact (access_no_timeout o)
  | |- decibels_to_linear ?x <> _ => exact (decibels_no_timeout x)
  | |- knee_expf ?x <> _ => exact (decibels_no_timeout _)
  | |- (if ?b then _ else _) <> _ => destruct b
  | |- (_ ≫= _) <> _ => apply bind_no_timeout; [|intros ?]
  end.

Lemma volume_gain_no_timeout c x : volume_gain c x <> Timeout.
Proof. unfold volume_gain, knee_curveK. no_timeout. Qed.

Lemma detector_loop_no_timeout c r a xs : detector_loop c r a xs <> Timeout.
Proof.
  revert a. induction xs as [|x xs IH]; intros a; cbn [detector_loop]; [discriminate|].
  apply bind_no_timeout; [|auto]. unfold detector_step.
  apply bind_no_timeout; [apply volume_gain_no_timeout|]. intros g. no_timeout.
Qed.

Lemma update_envelope_no_timeout r e : update_envelope r e <> Timeout.
Proof.
  unfold update_envelope, release_rate. destruct (fgt _ _); [no_timeout|].
  destruct (attack_rate _ _ _). no_timeout.
Qed.

(** ** The state of a kernel *)

(** What does not depend on how far the division is. *)
Record core (k : drc_kernel) (s : lookahead) : Prop := {
  core_enabled : enabled k = la_enabled s;
  core_curve : curve k = la_curve s;
  core_rates : rates k = la_rates s;
  core_envelope : envelope k = la_envelope s;
  core_whole : last_pre_delay_frames k mod DIVISION_FRAMES = 0;
  core_delay : DIVISION_FRAMES <= last_pre_delay_frames k <= N - DIVISION_FRAMES;
  core_read : pre_delay_read_index k < N;
  core_write : pre_delay_write_index k = wr N (pre_delay_read_index k + last_pre_delay_frames k);
  core_holds : holds (pre_delay_buffers k) (pre_delay_read_index k) (last_pre_delay_frames k)
                 (heard (la_gains s) (la_queue s))
}.

(** [n] samples of a division have come in. *)
Record in_division (k : drc_kernel) (s : lookahead) (n : nat) : Prop := {
  div_started : processed k = true /\ la_started s = true;
  div_phase : pre_delay_read_index k mod DIVISION_FRAMES = n mod DIVISION_FRAMES;
  div_length : length (la_division s) = n;
  div_gains : length (la_gains s) + n = DIVISION_FRAMES;
  div_queue : exists q, la_queue s = q ++ la_division s
}.

Lemma divisions : N = 32 * DIVISION_FRAMES.
Proof. reflexivity. Qed.

Lemma division_pos : DIVISION_FRAMES <> 0.
Proof. unfold DIVISION_FRAMES. lia. Qed.

Lemma wr_mod i : wr N i mod DIVISION_FRAMES = i mod DIVISION_FRAMES.
Proof.
  unfold wr. rewrite divisions. destruct (Nat.ltb_spec i (32 * DIVISION_FRAMES)); [done|].
  replace i with (i - 32 * DIVISION_FRAMES + 32 * DIVISION_FRAMES) at 2 by lia.
  by rewrite Nat.Div0.mod_add.
Qed.

(** A read index that is at a division has the whole division before it. *)
Lemma whole_division r n :
  r < N -> r mod DIVISION_FRAMES = n -> n < DIVISION_FRAMES -> r + (DIVISION_FRAMES - n) <= N.
Proof.
  intros Hr Hm Hn. rewrite divisions in *. pose proof (Nat.div_mod r DIVISION_FRAMES division_pos) as E.
  rewrite Hm in E. revert E Hr Hn. generalize (r / DIVISION_FRAMES). generalize DIVISION_FRAMES. intros d q E Hr Hn.
  assert (q < 32) as Hq by (apply (Nat.mul_lt_mono_pos_l d); lia).
  pose proof (Nat.mul_le_mono_l (q + 1) 32 d ltac:(lia)). lia.
Qed.

(** The write index is in the same place of its division as the read index. *)
Lemma write_phase r d :
  d mod DIVISION_FRAMES = 0 -> wr N (r + d) mod DIVISION_FRAMES = r mod DIVISION_FRAMES.
Proof.
  intros Hd. rewrite wr_mod, <- Nat.Div0.add_mod_idemp_r, Hd. by rewrite Nat.add_0_r.
Qed.

(** ** Making gains *)

Lemma ring_take (buf : list float) r d n :
  length buf = N -> r + n <= N -> n <= d -> take n (ring r d buf) = take n (drop r buf).
Proof.
  intros Hl Hr Hn. unfold ring. rewrite take_take, Nat.min_l by lia.
  rewrite drop_app_le by lia. by rewrite take_app_le by (rewrite length_drop; lia).
Qed.

Lemma zip_with_take_l {A B C} (f : A -> B -> C) l k n :
  length k = n -> zip_with f (take n l) k = zip_with f l k.
Proof.
  revert l k. induction n as [|n IH]; intros [|x l] [|y k]; cbn; intros Hl; try lia; [done..|].
  by rewrite IH by lia.
Qed.

Lemma map_scale2 gs (q : list (float * float)) :
  map fst (zip_with scale2 gs q) = zip_with fmul (map fst q) gs /\
  map snd (zip_with scale2 gs q) = zip_with fmul (map snd q) gs.
Proof.
  revert q. induction gs as [|g gs IH]; intros [|p q]; [done..|]. cbn.
  destruct (IH q) as [-> ->]. done.
Qed.

(** The front of the queue multiplied in place. *)
Lemma holds_scaled bufs r d q gs :
  holds bufs r d q -> r < N -> r + length gs <= N -> length gs <= d -> d <= N ->
  holds (scaled bufs.1 r gs, scaled bufs.2 r gs) r d (heard gs q).
Proof.
  intros [H1 H2 H3 H4 H5] Hr Hg Hgd Hd.
  assert (forall b (m : list float), length b = N -> ring r d b = m ->
    ring r d (scaled b r gs) = zip_with fmul (take (length gs) m) gs ++ drop (length gs) m) as Hs.
  { intros b m Hb <-. assert (length (zip_with fmul (drop r b) gs) = length gs) as Hz
      by (rewrite length_zip_with, length_drop; lia).
    unfold scaled. rewrite (ring_front N) by (rewrite ?Hz; lia). rewrite Hz. f_equal.
    rewrite ring_take by lia. by rewrite zip_with_take_l. }
  rewrite (heard_full gs q (length gs)) by lia.
  split; cbn [fst snd]; rewrite ?scaled_length by lia; [done | done | | |].
  - rewrite (Hs _ _ H1 H3), map_app, (proj1 (map_scale2 _ _)). by rewrite firstn_map, skipn_map.
  - rewrite (Hs _ _ H2 H4), map_app, (proj2 (map_scale2 _ _)). by rewrite firstn_map, skipn_map.
  - rewrite length_app, length_zip_with, length_take, length_drop. lia.
Qed.

Lemma third_of_four (x : list float) : length x = 4 -> access (x !! 3) = Done (nth 3 x float_zero).
Proof. by destruct x as [|? [|? [|? [|? []]]]]. Qed.

Lemma compress_output_gains k :
  length (pre_delay_buffers k).1 = N -> length (pre_delay_buffers k).2 = N ->
  pre_delay_read_index k + DIVISION_FRAMES <= N ->
  let '(gs, e) := next_gains (rates k) (envelope k) in
  dk_compress_output k =
  Done (set_envelope (set_buffers k (scaled (pre_delay_buffers k).1 (pre_delay_read_index k) gs,
                                     scaled (pre_delay_buffers k).2 (pre_delay_read_index k) gs)) e).
Proof.
  intros H1 H2 Hr. unfold dk_compress_output, next_gains.
  assert (DIVISION_FRAMES / 4 * 4 = DIVISION_FRAMES) as Hd by reflexivity.
  assert (0 < DIVISION_FRAMES / 4) as Hc by (apply Nat.ltb_lt; reflexivity).
  destruct (flt (envelope_rate (envelope k)) one);
    (rewrite compress_loop_gains, bind_Done_eq by (rewrite ?powers_length, ?Hd; first [done | lia]);
     match goal with |- context [gain_blocks ?a ?b ?c ?d] =>
       pose proof (proj2 (gain_blocks_length a b c d Hc)) as L; rewrite powers_length in L;
       destruct (gain_blocks a b c d) as [gs x] end;
     cbn [fst snd] in *; by rewrite third_of_four).
Qed.

Lemma reload_follows k s :
  core k s -> la_gains s = [] -> pre_delay_read_index k mod DIVISION_FRAMES = 0 ->
  follows (fun s' k' => core k' s' /\ processed k' = processed k /\ la_started s' = true /\
             la_enabled s' = la_enabled s /\
             la_division s' = [] /\ length (la_gains s') = DIVISION_FRAMES /\
             la_queue s' = la_queue s /\ pre_delay_read_index k' = pre_delay_read_index k)
    (la_reload s (la_envelope s)) (k ← dk_update_envelope k; dk_compress_output k).
Proof.
  intros Hc Hg Hm. pose proof (whole_division _ _ (core_read _ _ Hc) Hm) as Hr.
  unfold la_reload, dk_update_envelope. rewrite (core_rates _ _ Hc), (core_envelope _ _ Hc).
  destruct (update_envelope (la_rates s) (la_envelope s)) as [e| |] eqn:Ee;
    [|done | by apply update_envelope_no_timeout in Ee].
  rewrite !bind_Done_eq. destruct Hc as [C1 C2 C3 C4 C5 C6 C7 C8 C9].
  pose proof (compress_output_gains (set_envelope k e)) as Hk. cbn [set_envelope envelope rates
    pre_delay_buffers pre_delay_read_index] in Hk. rewrite C3 in Hk.
  pose proof (next_gains_length (la_rates s) e) as Hl.
  destruct (next_gains (la_rates s) e) as [gs e'] eqn:En. cbn [fst] in Hl.
  pose proof C9 as [B1 B2 _ _ B5]. rewrite Hk by (try done; pose proof division_pos; lia).
  apply follows_Done. cbn. split; [|by split_and!].
  rewrite Hg in C9. cbn [heard] in C9. split; try done. cbn.
  apply holds_scaled; [done | done | rewrite Hl; pose proof division_pos; lia | lia | lia].
Qed.

(** ** The end of a division *)

Lemma max_abs_loudness (xs : list (float * float)) :
  max_abs_division (map fst xs) (map snd xs) = map loudness xs.
Proof. induction xs as [|x xs IH]; cbn; [done|]. by rewrite <- IH. Qed.

(** The samples of a full division, where the detector looks for them. *)
Lemma read_division k s :
  core k s -> in_division k s DIVISION_FRAMES ->
  let w := pre_delay_write_index k in
  exists d, (if w =? 0 then Done (N - DIVISION_FRAMES)
             else if DIVISION_FRAMES <=? w then Done (w - DIVISION_FRAMES) else Fault) = Done d /\
    read_range (pre_delay_buffers k).1 d DIVISION_FRAMES = Done (map fst (la_division s)) /\
    read_range (pre_delay_buffers k).2 d DIVISION_FRAMES = Done (map snd (la_division s)).
Proof.
  intros [C1 C2 C3 C4 C5 C6 C7 C8 [B1 B2 B3 B4 B5]] [D1 D2 D3 D4 [q D5]] w.
  assert (la_gains s = []) as Hg by (apply nil_length_inv; lia).
  rewrite Hg in *. cbn [heard] in *.
  pose proof division_pos. rewrite Nat.Div0.mod_same in D2.
  assert (w mod DIVISION_FRAMES = 0) as Hw by (unfold w; by rewrite C8, write_phase).
  assert (w <> 0 -> DIVISION_FRAMES <= w) as Hw0.
  { intros Hne. destruct (Nat.lt_ge_cases w DIVISION_FRAMES); [|lia]. by rewrite Nat.mod_small in Hw. }
  assert (w < N) as HwN by (unfold w; rewrite C8; unfold wr; destruct (Nat.ltb_spec
    (pre_delay_read_index k + last_pre_delay_frames k) N); lia).
  set (d := if w =? 0 then N - DIVISION_FRAMES else w - DIVISION_FRAMES).
  exists d. split.
  { unfold d. destruct (Nat.eqb_spec w 0); [done|]. by rewrite (proj2 (Nat.leb_le _ _)) by auto. }
  assert (d + DIVISION_FRAMES <= N) as Hd by (unfold d; destruct (Nat.eqb_spec w 0); lia).
  assert (length q = last_pre_delay_frames k - DIVISION_FRAMES) as Hq.
  { rewrite D5, length_app in B5. lia. }
  assert (forall (b : list float) m, length b = N -> ring (pre_delay_read_index k) (last_pre_delay_frames k) b = m ->
    read_range b d DIVISION_FRAMES = Done (drop (last_pre_delay_frames k - DIVISION_FRAMES) m)) as Hrr.
  { intros b m Hb <-. unfold read_range. rewrite (proj2 (Nat.leb_le _ _)) by lia. f_equal. symmetry.
    unfold d, w. rewrite C8. apply ring_end; [done | done | lia | lia|]. rewrite <- C8. exact Hw0. }
  rewrite (Hrr _ _ B1 B3), (Hrr _ _ B2 B4), D5, !map_app.
  split; f_equal; apply drop_app_length'; by rewrite length_map.
Qed.

(** A kernel stands for a look-ahead compressor. *)
Definition represents (k : drc_kernel) (s : lookahead) : Prop :=
  core k s /\
  if la_enabled s then
    if la_started s then exists n, n < DIVISION_FRAMES /\ in_division k s n
    else processed k = false /\ la_gains s = [] /\ la_division s = [] /\
         pre_delay_read_index k mod DIVISION_FRAMES = 0
  else la_gains s = [].

Lemma division_follows k s :
  core k s -> la_enabled s = true -> in_division k s DIVISION_FRAMES ->
  follows (fun s' k' => core k' s' /\ la_enabled s' = true /\ in_division k' s' 0)
    (la_finish s) (dk_process_one_division k).
Proof.
  intros Hc He Hd. destruct (read_division k s Hc Hd) as (d & E1 & E2 & E3).
  pose proof Hd as [[D1 D1'] D2 D3 D4 _].
  unfold la_finish, dk_process_one_division, dk_update_detector_average.
  rewrite D3, Nat.eqb_refl, E1, bind_Done_eq, E2, bind_Done_eq, E3, bind_Done_eq, max_abs_loudness.
  rewrite (core_curve _ _ Hc), (core_rates _ _ Hc), (core_envelope _ _ Hc).
  destruct (detector_loop _ _ _ _) as [a| |] eqn:Ea; [|done | by apply detector_loop_no_timeout in Ea].
  rewrite !bind_Done_eq.
  set (e := set_average (la_envelope s) a).
  set (s1 := La (la_enabled s) (la_started s) (la_curve s) (la_rates s) e (la_queue s) (la_gains s) (la_division s)).
  change (la_reload s e) with (la_reload s1 (la_envelope s1)).
  assert (la_gains s = []) as Hg by (apply nil_length_inv; lia).
  assert (core (set_envelope k e) s1) as Hc1 by (by destruct Hc).
  rewrite Nat.Div0.mod_same in D2.
  pose proof (reload_follows (set_envelope k e) s1 Hc1 Hg D2) as Hf.
  destruct (la_reload s1 (la_envelope s1)) as [s'| |]; cbn [follows] in *; [|done|done].
  destruct Hf as (k' & -> & C & P & S & En & V & G & Q & R). exists k'. split; [done|].
  split; [done|]. split; [by rewrite En|].
  split; [by rewrite P | rewrite R, Nat.Div0.mod_0_l; exact D2 | by rewrite V | lia | exists (la_queue s')].
  by rewrite V, app_nil_r.
Qed.

(** ** A fragment *)

Lemma copy_fragment_absorb k s n a xs t :
  core k s -> in_division k s n -> n + length xs <= DIVISION_FRAMES -> n < DIVISION_FRAMES ->
  exists k', dk_copy_fragment k (channels a xs t) (length a) (length xs) =
      Done (k', channels (a ++ take (length xs) (heard (la_gains s) (la_queue s))) [] t) /\
    core k' (la_absorb s xs) /\ in_division k' (la_absorb s xs) (n + length xs).
Proof.
  intros [C1 C2 C3 C4 C5 C6 C7 C8 C9] [D1 D2 D3 D4 [q D5]] Hn Hlt.
  pose proof division_pos. pose proof (holds_length _ _ _ _ C9) as Hlen. rewrite heard_length in Hlen.
  rewrite (Nat.mod_small n) in D2 by lia.
  pose proof (whole_division _ _ C7 D2 Hlt) as Hr.
  pose proof (write_phase (pre_delay_read_index k) _ C5) as Hw. rewrite D2, <- C8 in Hw.
  assert (pre_delay_write_index k < N) as HwN by (rewrite C8; unfold wr; destruct (Nat.ltb_spec
    (pre_delay_read_index k + last_pre_delay_frames k) N); lia).
  pose proof (whole_division _ _ HwN Hw Hlt) as Hr'.
  unfold dk_copy_fragment.
  destruct (exchange_holds _ _ _ _ a xs t C9 C7) as (bufs & E & B); try lia.
  rewrite C8, E, bind_Done_eq. eexists. split; [reflexivity|].
  rewrite <- heard_app, heard_drop in B by lia. rewrite masked_wr by lia.
  split.
  - split; cbn; try done.
    + unfold wr. destruct (Nat.ltb_spec (pre_delay_read_index k + length xs) N); lia.
    + destruct (decide (length xs = 0)) as [Ez|Ez].
      * rewrite Ez, !Nat.add_0_r, masked_wr by lia. rewrite C8 in HwN. unfold wr at 1.
        rewrite (proj2 (Nat.ltb_lt _ _) HwN). f_equal. f_equal. unfold wr.
        by rewrite (proj2 (Nat.ltb_lt _ _) C7).
      * apply wr_add; lia.
  - split; cbn [la_absorb set_queue la_division la_gains la_queue la_started]; try done.
    + cbn [pre_delay_read_index set_indices set_buffers]. by rewrite wr_mod, <- (Nat.Div0.add_mod_idemp_l (pre_delay_read_index k)), D2.
    + rewrite length_app. lia.
    + rewrite length_drop. lia.
    + rewrite D5 in *. rewrite length_app in Hlen. exists (drop (length xs) q).
      rewrite <- app_assoc, drop_app_le by lia. done.
Qed.
End Follow.
