(* ===== verification/DrcBand.v ===== *)
(** * DrcBand: dk_process does what the look-ahead compressor does

    The loops of dk_process and dk_process_delay_only end, stay inside their
    arrays and produce what the look-ahead compressor of DrcLookahead does,
    from the kernel that dk_init and dk_set_parameters make and for any
    division of the signal into blocks. *)

From S2P Require Import Prelude Float32 Eq DrcMath DrcKernel DrcLookahead DrcRefine.

Section Band.
Context `{LibM} `{LibMF}.

(** Samples that end before the division does, or with it. *)
Lemma la_steps_fragment s xs :
  0 < length xs -> length xs <= length (la_gains s) -> length (la_gains s) <= length (la_queue s) ->
  length (la_gains s) + length (la_division s) = DIVISION_FRAMES ->
  la_steps s xs =
  s' ← la_finish (la_absorb s xs);
  Done (take (length xs) (heard (la_gains s) (la_queue s)), s').
Proof.
  revert s. induction xs as [|x xs IH]; intros s; cbn [length]; intros Hpos Hg Hq Hd; [lia|].
  cbn [la_steps]. unfold la_step.
  destruct (la_gains s) as [|g gains] eqn:Eg; [cbn in Hg; lia|].
  destruct (la_queue s) as [|q queue] eqn:Eq; [cbn in Hq; lia|]. cbn [head access].
  rewrite !bind_Done_eq. destruct xs as [|y xs].
  { destruct (la_finish (la_absorb s [x])) as [s'| |]; [|done|done]. by rewrite !bind_Done_eq. }
  assert (la_finish (la_absorb s [x]) = Done (la_absorb s [x])) as ->.
  { unfold la_finish, la_absorb. cbn [set_queue la_division]. rewrite length_app. cbn [length] in *.
    destruct (Nat.eqb_spec (length (la_division s) + 1) DIVISION_FRAMES); [lia | done]. }
  rewrite !bind_Done_eq.
  assert (la_gains (la_absorb s [x]) = gains) as G1 by (cbn; by rewrite Eg).
  assert (la_queue (la_absorb s [x]) = queue ++ [x]) as Q1 by (cbn; by rewrite Eq).
  assert (la_division (la_absorb s [x]) = la_division s ++ [x]) as V1 by done.
  rewrite IH; rewrite ?G1, ?Q1, ?V1, ?length_app; cbn [length] in *; try lia.
  assert (la_absorb (la_absorb s [x]) (y :: xs) = la_absorb s (x :: y :: xs)) as ->.
  { unfold la_absorb at 1. rewrite G1, Q1, V1. unfold la_absorb. rewrite Eg, Eq. cbn [length drop app].
    rewrite <- !app_assoc. done. }
  destruct (la_finish _) as [s'| |]; [|done|done]. rewrite !bind_Done_eq.
  cbn [heard take]. do 2 f_equal. rewrite heard_app, take_app_le by (rewrite ?heard_length; lia). done.
Qed.

Lemma channels_split a xs ys t :
  channels a (xs ++ ys) t = channels a xs (map fst ys ++ t.1, map snd ys ++ t.2).
Proof. unfold channels. cbn [fst snd]. by rewrite !map_app, <- !app_assoc. Qed.

Lemma channels_join a ys t :
  channels a [] (map fst ys ++ t.1, map snd ys ++ t.2) = channels a ys t.
Proof. done. Qed.

(** One turn of the loop of dk_process. *)
Lemma fragment_follows k s n a xs t :
  core k s -> la_enabled s = true -> in_division k s n -> n < DIVISION_FRAMES ->
  0 < length xs -> n + length xs <= DIVISION_FRAMES ->
  follows (fun '(os, s') '(k', data) =>
      data = channels (a ++ os) [] t /\ length os = length xs /\ core k' s' /\ la_enabled s' = true /\
      exists n', n' < DIVISION_FRAMES /\ n' = Nat.land (n + length xs) DIVISION_FRAMES_MASK /\
        in_division k' s' n')
    (la_steps s xs)
    ('(k, data) ← dk_copy_fragment k (channels a xs t) (length a) (length xs);
     k ← (if Nat.land (n + length xs) DIVISION_FRAMES_MASK =? 0
          then dk_process_one_division k else Done k);
     Done (k, data)).
Proof.
  intros Hc He Hd Hn Hpos Hle.
  pose proof Hd as [[D0 D0'] _ D3 D4 _]. pose proof (core_holds _ _ Hc) as Hh.
  apply holds_length in Hh. rewrite heard_length in Hh. pose proof (core_delay _ _ Hc) as Hdel.
  rewrite la_steps_fragment by (rewrite ?D3; lia).
  destruct (copy_fragment_absorb k s n a xs t Hc Hd Hle Hn) as (k1 & -> & C1 & V1).
  rewrite bind_Done_eq. set (os := take (length xs) (heard (la_gains s) (la_queue s))).
  assert (length os = length xs) as Hos by (unfold os; rewrite length_take, heard_length; lia).
  assert (Nat.land (n + length xs) DIVISION_FRAMES_MASK = (n + length xs) mod DIVISION_FRAMES) as Hm.
  { unfold DIVISION_FRAMES_MASK. change 31 with (Nat.ones 5). by rewrite Nat.land_ones. }
  rewrite Hm. destruct (decide (n + length xs = DIVISION_FRAMES)) as [E|E].
  - rewrite E, Nat.Div0.mod_same, Nat.eqb_refl. rewrite E in V1.
    pose proof (division_follows k1 (la_absorb s xs) C1 He V1) as Hf.
    eapply follows_bind; [exact Hf|]. intros s' k' (C & En & V). apply follows_Done.
    split_and!; try done. exists 0. split_and!; [pose proof division_pos; lia | done | done].
  - rewrite (Nat.mod_small (n + length xs)) by lia.
    destruct (Nat.eqb_spec (n + length xs) 0); [lia|].
    assert (la_finish (la_absorb s xs) = Done (la_absorb s xs)) as ->.
    { unfold la_finish. rewrite (div_length _ _ _ V1). by destruct (Nat.eqb_spec (n + length xs) DIVISION_FRAMES). }
    rewrite !bind_Done_eq. apply follows_Done. split_and!; try done.
    exists (n + length xs). split_and!; [lia | done | done].
Qed.

Lemma process_loop_turn fuel k data count i offset :
  i < count ->
  let m := Nat.min (DIVISION_FRAMES - offset) (count - i) in
  process_loop (S fuel) k data count i offset =
  '(k, data) ←
    ('(k, data) ← dk_copy_fragment k data i m;
     k ← (if Nat.land (offset + m) DIVISION_FRAMES_MASK =? 0
          then dk_process_one_division k else Done k);
     Done (k, data));
  process_loop fuel k data count (i + m) (Nat.land (offset + m) DIVISION_FRAMES_MASK).
Proof.
  intros Hi m. cbn [process_loop]. rewrite (proj2 (Nat.leb_gt _ _)) by lia. fold m.
  destruct (dk_copy_fragment k data i m) as [[k1 data1]| |]; [|done|done]. rewrite !bind_Done_eq.
  by destruct (if _ =? _ then _ else _).
Qed.

Lemma process_loop_follows fuel k s n a xs t :
  core k s -> la_enabled s = true -> in_division k s n -> n < DIVISION_FRAMES ->
  length xs <= fuel ->
  follows (fun '(os, s') '(k', data) =>
      data = channels (a ++ os) [] t /\ length os = length xs /\ represents k' s')
    (la_steps s xs)
    (process_loop fuel k (channels a xs t) (length a + length xs) (length a) n).
Proof.
  revert k s n a xs. induction fuel as [|fuel IH]; intros k s n a xs Hc He Hd Hn Hf.
  - apply Nat.le_0_r, nil_length_inv in Hf as ->. cbn [process_loop length la_steps].
    rewrite (proj2 (Nat.leb_le _ _)) by lia. apply follows_Done.
    rewrite app_nil_r. split_and!; [done..|]. split; [done|]. rewrite He.
    rewrite (proj2 (div_started _ _ _ Hd)). by exists n.
  - destruct (decide (xs = [])) as [->|Hne].
    { cbn [process_loop length la_steps]. rewrite (proj2 (Nat.leb_le _ _)) by lia. apply follows_Done.
      rewrite app_nil_r. split_and!; [done..|]. split; [done|]. rewrite He.
      rewrite (proj2 (div_started _ _ _ Hd)). by exists n. }
    assert (0 < length xs) as Hpos by (destruct xs; [done | cbn; lia]).
    set (m := Nat.min (DIVISION_FRAMES - n) (length a + length xs - length a)).
    assert (0 < m /\ m <= length xs /\ n + m <= DIVISION_FRAMES) as (Hm1 & Hm2 & Hm3) by (unfold m; lia).
    assert (length (take m xs) = m) as Hlm by (rewrite length_take; lia).
    rewrite process_loop_turn by lia. fold m.
    rewrite <- (take_drop m xs) at 1. rewrite la_steps_app.
    pose proof (fragment_follows k s n a (take m xs) (map fst (drop m xs) ++ t.1, map snd (drop m xs) ++ t.2)
      Hc He Hd Hn) as Hfr. rewrite Hlm, <- channels_split, take_drop in Hfr.
    eapply follows_bind; [exact (Hfr Hm1 Hm3)|].
    intros [os s1] [k1 data1] (-> & Hos & C1 & E1 & n1 & Hn1 & -> & V1). rewrite channels_join.
    replace (length a + length xs) with (length (a ++ os) + length (drop m xs))
      by (rewrite length_app, length_drop; lia).
    replace (length a + m) with (length (a ++ os)) by (rewrite length_app; lia).
    eapply follows_post.
    { apply (IH k1 s1 _ (a ++ os) (drop m xs) C1 E1 V1 Hn1). rewrite length_drop. lia. }
    intros [os' s2] [k2 data2] (-> & Hos' & R2). eexists. split; [reflexivity|].
    rewrite <- app_assoc, length_app, Hos, Hos', length_drop. split_and!; [done | lia | done].
Qed.

(** ** Delay only *)

Lemma delay_loop_spec fuel bufs r d q a xs t :
  holds bufs r d q -> r < N -> 0 < d < N -> length xs <= fuel ->
  exists bufs' r', delay_loop fuel (length a + length xs) (length a) r (wr N (r + d)) bufs (channels a xs t) =
      Done (r', wr N (r' + d), bufs', channels (a ++ take (length xs) (q ++ xs)) [] t) /\
    holds bufs' r' d (drop (length xs) (q ++ xs)) /\ r' < N.
Proof.
  revert bufs r q a xs. induction fuel as [|fuel IH]; intros bufs r q a xs Hh Hr Hd Hf.
  { apply Nat.le_0_r, nil_length_inv in Hf as ->. cbn [delay_loop length take drop].
    rewrite (proj2 (Nat.leb_le _ _)) by lia. rewrite !app_nil_r. by exists bufs, r. }
  destruct (decide (length xs = 0)) as [E|E].
  { apply nil_length_inv in E as ->. cbn [delay_loop length take drop].
    rewrite (proj2 (Nat.leb_le _ _)) by lia. rewrite !app_nil_r. by exists bufs, r. }
  pose proof (holds_length _ _ _ _ Hh) as Hq.
  cbn [delay_loop]. rewrite (proj2 (Nat.leb_gt _ _)) by lia.
  set (w := wr N (r + d)) in *.
  set (m := Nat.min (Nat.min (Nat.max r w - Nat.min r w) (N - Nat.max r w)) (length a + length xs - length a)).
  assert (0 < m /\ m <= d /\ d + m <= N /\ r + m <= N /\ w + m <= N /\ m <= length xs)
    as (M1 & M2 & M3 & M4 & M5 & M6).
  { unfold m, w, wr. destruct (Nat.ltb_spec (r + d) N); lia. }
  assert (length (take m xs) = m) as Hlm by (rewrite length_take; lia).
  destruct (exchange_holds bufs d r q a (take m xs) (map fst (drop m xs) ++ t.1, map snd (drop m xs) ++ t.2)
    Hh Hr) as (bufs1 & E1 & H1); try (rewrite Hlm; lia).
  rewrite Hlm, <- channels_split, take_drop in E1. fold w in E1. rewrite E1, bind_Done_eq, channels_join.
  rewrite Hlm in H1. change (masked (w + m)) with (masked (wr N (r + d) + m)).
  rewrite wr_add by (fold w; lia). rewrite masked_wr by lia.
  set (os := take m q). assert (length os = m) as Hos by (unfold os; rewrite length_take; lia).
  replace (length a + length xs) with (length (a ++ os) + length (drop m xs))
    by (rewrite length_app, length_drop; lia).
  replace (length a + m) with (length (a ++ os)) by (rewrite length_app; lia).
  destruct (IH bufs1 (wr N (r + m)) _ (a ++ os) (drop m xs) H1) as (bufs2 & r2 & E2 & H2 & R2);
    [unfold wr; destruct (Nat.ltb_spec (r + m) N); lia | done | rewrite length_drop; lia|].
  exists bufs2, r2. rewrite E2. rewrite length_drop in *.
  assert (drop m (q ++ take m xs) ++ drop m xs = drop m (q ++ xs)) as Eq.
  { rewrite <- (take_drop m xs) at 3. rewrite app_assoc.
    by rewrite (drop_app_le (q ++ take m xs)) by (rewrite length_app; lia). }
  rewrite Eq, drop_drop in H2. rewrite Eq, <- app_assoc. unfold os.
  rewrite <- (take_app_le q xs) by lia. rewrite take_take_drop.
  by replace (m + (length xs - m)) with (length xs) in * by lia.
Qed.

(** ** dk_process *)

Lemma dk_process_follows k s xs t :
  represents k s ->
  follows (fun '(os, s') '(k', data) =>
      data = (map fst os ++ t.1, map snd os ++ t.2) /\ length os = length xs /\ represents k' s')
    (la_process s xs)
    (dk_process k (map fst xs ++ t.1, map snd xs ++ t.2) (length xs)).
Proof.
  intros [Hc Hp]. unfold la_process, dk_process. rewrite (core_enabled _ _ Hc).
  change (map fst xs ++ t.1, map snd xs ++ t.2) with (channels [] xs t).
  destruct (la_enabled s) eqn:En; cbn [negb].
  - assert (forall k s n, core k s -> la_enabled s = true -> in_division k s n -> n < DIVISION_FRAMES ->
      follows (fun '(os, s') '(k', data) =>
        data = channels [] os t /\ length os = length xs /\ represents k' s') (la_steps s xs)
      (process_loop (length xs) k (channels [] xs t) (length xs) 0
         (Nat.land (pre_delay_write_index k) DIVISION_FRAMES_MASK))) as Hrun.
    { intros k0 s0 n C E D Hn.
      assert (Nat.land (pre_delay_write_index k0) DIVISION_FRAMES_MASK = n) as ->.
      { unfold DIVISION_FRAMES_MASK. change 31 with (Nat.ones 5). rewrite Nat.land_ones.
        change (2 ^ 5) with DIVISION_FRAMES. rewrite (core_write _ _ C), write_phase by apply C.
        rewrite (div_phase _ _ _ D). by apply Nat.mod_small. }
      exact (process_loop_follows (length xs) k0 s0 n [] xs t C E D Hn (le_n _)). }
    destruct (la_started s) eqn:Es.
    + destruct Hp as (n & Hn & D). rewrite (proj1 (div_started _ _ _ D)), !bind_Done_eq.
      exact (Hrun k s n Hc En D Hn).
    + destruct Hp as (P & G & V & M). rewrite P.
      pose proof (reload_follows k s Hc G M) as Hf.
      assert (forall B (f : drc_kernel -> outcome B),
        (k ← dk_update_envelope k; k ← dk_compress_output k; Done (set_processed k)) ≫= f =
        (k ← dk_update_envelope k; dk_compress_output k) ≫= (fun k => f (set_processed k))) as ->.
      { intros B f. destruct (dk_update_envelope k) as [k1| |]; [|done|done]. rewrite !bind_Done_eq.
        by destruct (dk_compress_output k1). }
      eapply follows_bind; [exact Hf|]. intros s1 k1 (C1 & P1 & S1 & E1 & V1 & G1 & Q1 & R1).
      rewrite En in E1. apply (Hrun (set_processed k1) s1 0); [by destruct C1 | done | | pose proof division_pos; lia].
      split; [done | | by rewrite V1 | lia | exists (la_queue s1); by rewrite V1, app_nil_r].
      rewrite Nat.Div0.mod_0_l. cbn [set_processed pre_delay_read_index]. by rewrite R1.
  - pose proof Hc as [C1 C2 C3 C4 C5 C6 C7 C8 C9]. rewrite Hp in C9. cbn [heard] in C9.
    unfold dk_process_delay_only. rewrite C8.
    destruct (delay_loop_spec (length xs) _ _ _ _ [] xs t C9 C7) as (bufs & r & E & Hh & Hr);
      [pose proof division_pos; lia | done|].
    cbn [length Nat.add] in E. rewrite E, bind_Done_eq. apply follows_Done.
    split_and!; [done | rewrite length_take, length_app; lia|].
    split; [|cbn; by rewrite En].
    split; cbn; try done. by rewrite Hp.
Qed.

(** ** From the start *)

(** The queue of a kernel that has not processed anything. *)
Definition la_new (k : drc_kernel) : lookahead :=
  La (enabled k) (processed k) (curve k) (rates k) (envelope k)
     (replicate (last_pre_delay_frames k) (float_zero, float_zero)) [] [].

(** The look-ahead section as dk_init and set_pre_delay_time leave it. *)
Definition fresh (k : drc_kernel) : Prop :=
  last_pre_delay_frames k mod DIVISION_FRAMES = 0 /\
  DIVISION_FRAMES <= last_pre_delay_frames k <= N - DIVISION_FRAMES /\
  pre_delay_buffers k = (zero_buffer, zero_buffer) /\ pre_delay_read_index k = 0 /\
  pre_delay_write_index k = last_pre_delay_frames k /\ processed k = false.

Lemma init_fresh k rate : fresh (dk_init k rate).
Proof. split_and!; try reflexivity; apply Nat.leb_le; reflexivity. Qed.

Lemma whole_divisions_spec n : whole_divisions n mod DIVISION_FRAMES = 0 /\ whole_divisions n <= n.
Proof.
  unfold whole_divisions, DIVISION_FRAMES_MASK. change 31 with (Nat.ones 5). rewrite Nat.land_ones.
  change (2 ^ 5) with DIVISION_FRAMES. split; [|lia].
  pose proof (Nat.div_mod n DIVISION_FRAMES division_pos) as E.
  replace (n - n mod DIVISION_FRAMES) with (0 + n / DIVISION_FRAMES * DIVISION_FRAMES) by lia.
  by rewrite Nat.Div0.mod_add, Nat.Div0.mod_0_l.
Qed.

Lemma set_pre_delay_fresh k t k' : fresh k -> set_pre_delay_time k t = Done k' -> fresh k'.
Proof.
  intros Hf E. unfold set_pre_delay_time in E. outcome_inv.
  match type of E with context [whole_divisions ?n] => set (m := n) in E end.
  destruct (whole_divisions_spec m) as [M1 M2].
  assert (m <= N - 1) as Hm by (unfold m; lia).
  destruct (_ =? _); outcome_inv; [done|]. destruct Hf as (_ & _ & _ & _ & _ & P).
  split_and!; cbn [last_pre_delay_frames pre_delay_buffers pre_delay_read_index pre_delay_write_index processed];
    try done; pose proof division_pos.
  - destruct (Nat.max_spec (whole_divisions m) DIVISION_FRAMES) as [[_ ->]|[_ ->]]; [|done].
    apply Nat.Div0.mod_same.
  - lia.
  - assert (whole_divisions m <= N - DIVISION_FRAMES) as Hle.
    { apply Nat.Div0.div_exact in M1. rewrite M1. rewrite divisions in *.
      revert Hm M2. rewrite M1 at 1. generalize (whole_divisions m / DIVISION_FRAMES). intros q Hm M2.
      assert (q < 32) by (apply (Nat.mul_lt_mono_pos_l DIVISION_FRAMES); lia).
      pose proof (Nat.mul_le_mono_l (q + 1) 32 DIVISION_FRAMES ltac:(lia)). lia. }
    rewrite divisions in *. lia.
Qed.

Lemma fresh_represents k : fresh k -> represents k (la_new k).
Proof.
  intros (F1 & F2 & F3 & F4 & F5 & F6). pose proof division_pos.
  assert (forall d, d <= N -> ring 0 d zero_buffer = replicate d float_zero) as Hz.
  { intros d Hd. unfold ring. rewrite drop_0, take_app_le by (unfold zero_buffer; by rewrite length_replicate).
    unfold zero_buffer. by rewrite take_replicate, Nat.min_l. }
  split.
  - split; cbn; try done; rewrite ?F4; [lia | |].
    + rewrite F5. unfold wr. destruct (Nat.ltb_spec (0 + last_pre_delay_frames k) N); lia.
    + rewrite F3. split; cbn [fst snd]; try apply length_replicate; rewrite Hz by lia;
        change (@map (float * float)) with (@fmap list list_fmap (float * float)); by rewrite fmap_replicate.
  - unfold la_new. cbn. rewrite F6. destruct (enabled k); [|done]. by rewrite F4.
Qed.

(** ** Runs *)

Fixpoint dk_run (k : drc_kernel) (blocks : list (list (float * float)))
    : outcome (list (list (float * float)) * drc_kernel) :=
  match blocks with
  | [] => Done ([], k)
  | xs :: blocks =>
      '(k, data) ← dk_process k (map fst xs, map snd xs) (length xs);
      '(outs, k) ← dk_run k blocks;
      Done (combine data.1 data.2 :: outs, k)
  end.

Fixpoint la_run (s : lookahead) (blocks : list (list (float * float)))
    : outcome (list (list (float * float)) * lookahead) :=
  match blocks with
  | [] => Done ([], s)
  | xs :: blocks =>
      '(os, s) ← la_process s xs;
      '(outs, s) ← la_run s blocks;
      Done (os :: outs, s)
  end.

Lemma combine_map {A B} (l : list (A * B)) : combine (map fst l) (map snd l) = l.
Proof. induction l as [|[a b] l IH]; cbn; [done | by rewrite IH]. Qed.

Lemma dk_run_follows k s blocks :
  represents k s ->
  follows (fun '(outs, s') '(outs', k') =>
      outs' = outs /\ map length outs = map length blocks /\ represents k' s')
    (la_run s blocks) (dk_run k blocks).
Proof.
  revert k s. induction blocks as [|xs blocks IH]; intros k s Hr; cbn [la_run dk_run].
  { by apply follows_Done. }
  pose proof (dk_process_follows k s xs ([], []) Hr) as Hf. cbn [fst snd] in Hf. rewrite !app_nil_r in Hf.
  eapply follows_bind; [exact Hf|]. intros [os s1] [k1 data] (-> & Hl & R1).
  eapply follows_bind; [exact (IH k1 s1 R1)|]. intros [outs s2] [outs' k2] (-> & Hls & R2).
  apply follows_Done. cbn [fst snd map]. rewrite !app_nil_r, combine_map, Hl, Hls. done.
Qed.

(** What leaves is what came in, as much later as the queue is long; with a
    gain for every sample when the band is enabled. *)
Definition delayed (amplified : bool) (gs : list float) (q xs : list (float * float))
    : list (float * float) :=
  let out := take (length xs) (q ++ xs) in if amplified then zip_with scale2 gs out else out.

Lemma la_process_delay s xs os s' :
  la_process s xs = Done (os, s') ->
  exists gs, length gs = length xs /\ os = delayed (la_enabled s) gs (la_queue s) xs /\
    la_queue s' = drop (length xs) (la_queue s ++ xs) /\ la_enabled s' = la_enabled s.
Proof.
  unfold la_process. destruct (la_enabled s) eqn:En.
  - intros H1. outcome_inv. rename a into s0.
    assert (la_started s0 = true /\ la_enabled s0 = true /\ la_queue s0 = la_queue s) as (S0 & E0 & Q0).
    { destruct (la_started s) eqn:Es; [by outcome_inv|]. unfold la_reload in E. outcome_inv.
      destruct (next_gains _ _). by outcome_inv. }
    pose proof (la_steps_started _ _ _ _ H1 S0) as [_ E1].
    apply la_steps_delay in H1 as (gs & Hl & -> & Hq). exists gs. rewrite <- Q0, E1, E0. done.
  - intros [= <- <-]. exists (replicate (length xs) float_zero). rewrite length_replicate. done.
Qed.

Lemma delayed_app e gs gs' q xs ys :
  length gs = length xs ->
  delayed e gs q xs ++ delayed e gs' (drop (length xs) (q ++ xs)) ys =
  delayed e (gs ++ gs') q (xs ++ ys).
Proof.
  intros Hl. unfold delayed. rewrite length_app, (app_assoc q xs ys), <- take_take_drop.
  rewrite (take_app_le (q ++ xs) ys), (drop_app_le (q ++ xs) ys) by (rewrite length_app; lia).
  destruct e; [|done]. symmetry. apply zip_with_app. rewrite length_take, length_app. lia.
Qed.

Lemma la_run_delay s blocks outs s' :
  la_run s blocks = Done (outs, s') ->
  exists gs, length gs = length (concat blocks) /\
    concat outs = delayed (la_enabled s) gs (la_queue s) (concat blocks).
Proof.
  revert s outs. induction blocks as [|xs blocks IH]; intros s outs; cbn [la_run concat].
  { intros [= <- <-]. exists []. unfold delayed. by destruct (la_enabled s). }
  intros H1. outcome_inv. destruct a as [os s1]. outcome_inv. destruct a as [outs1 s2]. outcome_inv.
  apply la_process_delay in E as (gs & Hl & -> & Hq & He). apply IH in E0 as (gs' & Hl' & E0).
  exists (gs ++ gs'). rewrite !length_app, Hl, Hl'. split; [done|].
  cbn [concat]. rewrite E0, He, Hq. by apply delayed_app.
Qed.

(** C19.  A band of the compressor is a look-ahead compressor.  A kernel set up
    by dk_init and dk_set_parameters delays by a whole number of divisions
    between 32 and 992 samples, and dk_process, called with blocks of any
    lengths, does what the look-ahead compressor does with the same blocks:
    faults when it does (an exponent out of the range of int), never accesses
    its arrays outside their bounds, always returns, and outputs the same
    blocks.  Their samples are the samples that came in, delayed; when the
    kernel is enabled each is multiplied by one gain. *)
Theorem dk_refines_lookahead k0 rate db_threshold db_knee ratio attack release pre_delay post_gain
    z1 z2 z3 z4 k1 (en : bool)
    (Hset : dk_set_parameters (dk_init k0 rate) db_threshold db_knee ratio attack release pre_delay
              post_gain z1 z2 z3 z4 = Done k1) :
  let k := dk_set_enabled k1 en in
  let d := last_pre_delay_frames k in
  (d mod 32 = 0 /\ 32 <= d <= 992) /\
  forall blocks,
    follows (fun '(outs, _) '(outs', _) =>
        outs' = outs /\ map length outs = map length blocks /\
        exists gs, length gs = length (concat blocks) /\
          concat outs = delayed en gs (replicate d (float_zero, float_zero)) (concat blocks))
      (la_run (la_new k) blocks) (dk_run k blocks).
Proof.
  assert (fresh (dk_set_enabled k1 en)) as Hf.
  { unfold dk_set_parameters in Hset. outcome_inv. change (fresh k1).
    eapply set_pre_delay_fresh; [|exact Hset]. apply (init_fresh k0 rate). }
  intros k d. split; [split; apply Hf|]. intros blocks.
  pose proof (dk_run_follows k (la_new k) blocks (fresh_represents _ Hf)) as Hr.
  pose proof (la_run_delay (la_new k) blocks) as Hd.
  destruct (la_run (la_new k) blocks) as [[outs s']| |]; [|done|done].
  destruct Hr as ([outs' k'] & -> & -> & Hl & _). apply follows_Done.
  destruct (Hd outs s' eq_refl) as (gs & Hg & E). split_and!; [done | done | by exists gs].
Qed.
End Band.

(** A libm for concrete instances. *)
#[export] Instance flat_libmf : LibMF :=
  {| expf _ := f_half; logf _ := f_of_Z 0; powf _ _ := f_of_Z 1; asinf x := x |}.

(** The default parameters of drc.c at 48 kHz. *)
Definition default_band : outcome drc_kernel :=
  dk_set_parameters (dk_init zero_kernel (f_of_Z 48000)) (f_of_Z (-24)) (f_of_Z 30) (f_of_Z 12)
    (f_const 3 1000) (f_const 250 1000) (f_const 6 1000) (f_of_Z 0)
    (f_const 9 100) (f_const 16 100) (f_const 42 100) (f_const 98 100).

Lemma delay_of_band (m : outcome drc_kernel) d :
  outcome_value (last_pre_delay_frames <$> m) = Some d ->
  exists k, m = Done k /\ last_pre_delay_frames k = d.
Proof. destruct m as [k| |]; [|done|done]. cbn. intros [= <-]. by exists k. Qed.

Lemma follows_weaken {A B} (R R' : A -> B -> Prop) m m' :
  follows R m m' -> (forall a b, R a b -> R' a b) -> follows R' m m'.
Proof. destruct m; cbn; [|done|done]. intros (b & -> & HR) Hw. eauto. Qed.

Lemma dk_refines_lookahead_witness :
  exists k, default_band = Done k /\ last_pre_delay_frames k = 288 /\
    follows (fun '(outs, _) '(outs', _) => outs' = outs)
      (la_run (la_new (dk_set_enabled k true)) [[(f_of_Z 1, f_of_Z 2)]; [(f_of_Z 3, f_of_Z 4)]])
      (dk_run (dk_set_enabled k true) [[(f_of_Z 1, f_of_Z 2)]; [(f_of_Z 3, f_of_Z 4)]]).
Proof.
  destruct (delay_of_band default_band 288 ltac:(vm_compute; reflexivity)) as (k & E & Hd).
  exists k. split; [exact E|]. split; [exact Hd|].
  destruct (dk_refines_lookahead _ _ _ _ _ _ _ _ _ _ _ _ _ k true E) as [_ H].
  specialize (H [[(f_of_Z 1, f_of_Z 2)]; [(f_of_Z 3, f_of_Z 4)]]).
  exact (follows_weaken _ _ _ _ H (fun '(outs, _) '(outs', _) H => proj1 H)).
Defined.
