(* ===== verification/DrcInterface.v ===== *)
(** * DrcInterface: what the modules use of the compressor, audio/hal/dsp/drc.h *)

From S2P Require Import Prelude Float32.

(** enum: the parameters of a band. *)
Definition PARAM_THRESHOLD : nat := 0.
Definition PARAM_KNEE : nat := 1.
Definition PARAM_RATIO : nat := 2.
Definition PARAM_ATTACK : nat := 3.
Definition PARAM_RELEASE : nat := 4.
Definition PARAM_PRE_DELAY : nat := 5.
Definition PARAM_RELEASE_ZONE1 : nat := 6.
Definition PARAM_RELEASE_ZONE2 : nat := 7.
Definition PARAM_RELEASE_ZONE3 : nat := 8.
Definition PARAM_RELEASE_ZONE4 : nat := 9.
Definition PARAM_POST_GAIN : nat := 10.
Definition PARAM_FILTER_STAGE_GAIN : nat := 11.
Definition PARAM_FILTER_STAGE_RATIO : nat := 12.
Definition PARAM_FILTER_ANCHOR : nat := 13.
Definition PARAM_CROSSOVER_LOWER_FREQ : nat := 14.
Definition PARAM_ENABLED : nat := 15.
Definition PARAM_LAST : nat := 16.

Definition DRC_NUM_KERNELS : nat := 3.
Definition DRC_PROCESS_MAX_FRAMES : nat := 2048.

(** 0.006f *)
Definition DRC_DEFAULT_PRE_DELAY : float := f_const 6 1000.

(** The functions, and the write to emphasis_disabled the drc module makes. *)
Class DrcLib : Type := {
  drc : Type;
  drc_new : float -> drc;
  drc_set_emphasis_disabled : drc -> Z -> drc;
  drc_set_param : drc -> nat -> nat -> float -> outcome drc;
  drc_init : drc -> outcome drc;
  drc_process : drc -> list float * list float -> nat -> outcome (drc * (list float * list float))
}.
