(* ===== verification/Drc.v ===== *)
(** * Drc: the compressor of audio/hal/dsp/drc.c

    Emphasis, crossover, one kernel for each of the three bands, their sum,
    de-emphasis.  The mid and high bands are in two scratch buffers that
    drc_init allocates; before, and where an allocation fails, they are NULL, a
    buffer without elements.  The functions of calloc are taken to succeed, as
    the code does.  The portable sum3 is modelled.  init_emphasis_eq computes
    the coefficients of two biquads on its stack, whose histories it does not
    write and eq2_append_biquad_direct copies: [stack] is what was there. *)

From Stdlib Require Import SpecFloat.
From S2P Require Import Prelude Float32 Biquad Eq Crossover DrcMath DrcKernel DrcInterface.

Record drc_state : Type := DrcState {
  sample_rate : float;
  emphasis_disabled : Z;
  parameters : list (list float);
  emphasis_eq : option eq2;
  deemphasis_eq : option eq2;
  xo2 : crossover2;
  kernel : list drc_kernel;
  data1 : list float * list float;
  data2 : list float * list float
}.

Definition zero_lr42 : lr42 :=
  let z := float_zero in Lr42 z z z z z z z z z z z z z z z z z.

Definition zero_crossover2 : crossover2 :=
  Xo2 (replicate 3 zero_lr42) (replicate 3 zero_lr42).

(** parameters[index][paramID] = value, with the assertion. *)
Definition store_param (params : list (list float)) (index paramID : nat) (value : float)
    : outcome (list (list float)) :=
  p ← access (params !! index);
  if paramID <? PARAM_LAST then Done (<[index := <[paramID := value]> p]> params) else Fault.

Definition load_param (params : list (list float)) (index paramID : nat) : outcome float :=
  p ← access (params !! index); access (p !! paramID).

Definition set_parameters (d : drc_state) (params : list (list float)) : drc_state :=
  DrcState (sample_rate d) (emphasis_disabled d) params (emphasis_eq d) (deemphasis_eq d) (xo2 d)
    (kernel d) (data1 d) (data2 d).

(** The defaults of every kernel, in the order of the enum; those
    set_default_parameters does not write are zero. *)
Definition default_kernel_parameters : list float :=
  [f_of_Z (-24); f_of_Z 30; f_of_Z 12; f_const 3 1000; f_const 250 1000; DRC_DEFAULT_PRE_DELAY;
   f_const 9 100; f_const 16 100; f_const 42 100; f_const 98 100; f_of_Z 0;
   float_zero; float_zero; float_zero; float_zero; f_of_Z 0].

Definition set_default_parameters (rate : float) : list (list float) :=
  let nyquist := fdiv rate (f_of_Z 2) in
  let p := default_kernel_parameters in
  [<[PARAM_CROSSOVER_LOWER_FREQ := f_of_Z 0]>
     (<[PARAM_FILTER_STAGE_GAIN := f_const 44 10]>
       (<[PARAM_FILTER_STAGE_RATIO := f_of_Z 2]>
         (<[PARAM_FILTER_ANCHOR := fdiv (f_of_Z 15000) nyquist]> p)));
   <[PARAM_CROSSOVER_LOWER_FREQ := fdiv (f_of_Z 200) nyquist]> p;
   <[PARAM_CROSSOVER_LOWER_FREQ := fdiv (f_of_Z 2000) nyquist]> p].

Definition drc_state_new (rate : float) : drc_state :=
  DrcState rate 0 (set_default_parameters rate) None None zero_crossover2
    (replicate DRC_NUM_KERNELS zero_kernel) ([], []) ([], []).

Definition drc_state_set_param (d : drc_state) (index paramID : nat) (value : float)
    : outcome drc_state :=
  params ← store_param (parameters d) index paramID value; Done (set_parameters d params).

Definition drc_state_set_emphasis (d : drc_state) (disabled : Z) : drc_state :=
  DrcState (sample_rate d) disabled (parameters d) (emphasis_eq d) (deemphasis_eq d) (xo2 d)
    (kernel d) (data1 d) (data2 d).

Section Drc.
Context `{LibM} `{LibMF}.

(** ** Initialisation *)

Definition scratch : list float * list float :=
  (replicate DRC_PROCESS_MAX_FRAMES float_zero, replicate DRC_PROCESS_MAX_FRAMES float_zero).

Definition init_data_buffer (d : drc_state) : drc_state :=
  DrcState (sample_rate d) (emphasis_disabled d) (parameters d) (emphasis_eq d) (deemphasis_eq d)
    (xo2 d) (kernel d) scratch scratch.

(** Zero and pole. *)
Definition emphasis_stage_roots (gain normalized_frequency : float) : float * float :=
  let gk := (one - fdiv gain (f_of_Z 20))%float in
  let f1 := (normalized_frequency * gk)%float in
  let f2 := fdiv normalized_frequency gk in
  (expf (fneg f1 * PI_FLOAT)%float, expf (fneg f2 * PI_FLOAT)%float).

Definition set_coefficients (bq : biquad) (b0 b1 b2 a1 a2 : float) : biquad :=
  Bq b0 b1 b2 a1 a2 (x1 bq) (x2 bq) (y1 bq) (y2 bq).

(** The coefficients of [emphasis] and [deemphasis]. *)
Definition emphasis_stage_pair_biquads (gain f1 f2 : float) (emphasis deemphasis : biquad)
    : biquad * biquad :=
  let '(z1, p1) := emphasis_stage_roots gain f1 in
  let '(z2, p2) := emphasis_stage_roots gain f2 in
  let b0 := one in
  let b1 := fneg (z1 + z2)%float in
  let b2 := (z1 * z2)%float in
  let a0 := one in
  let a1 := fneg (p1 + p2)%float in
  let a2 := (p1 * p2)%float in
  let alpha := fdiv (a0 + a1 + a2)%float (b0 + b1 + b2)%float in
  let beta := fdiv (b0 + b1 + b2)%float (a0 + a1 + a2)%float in
  (set_coefficients emphasis (b0 * alpha)%float (b1 * alpha)%float (b2 * alpha)%float a1 a2,
   set_coefficients deemphasis (a0 * beta)%float (a1 * beta)%float (a2 * beta)%float b1 b2).

(** eq2_append_biquad_direct on both channels, the result ignored. *)
Definition append_both (e : eq2) (bq : biquad) : eq2 :=
  (eq2_append_biquad_direct (eq2_append_biquad_direct e false bq).2 true bq).2.

Fixpoint emphasis_loop (todo : nat) (gain ratio anchor : float) (stack : biquad * biquad)
    (emphasis deemphasis : eq2) : eq2 * eq2 :=
  match todo with
  | 0 => (emphasis, deemphasis)
  | S todo =>
      let '(e, d) := emphasis_stage_pair_biquads gain anchor (fdiv anchor ratio) stack.1 stack.2 in
      emphasis_loop todo gain ratio (fdiv anchor (ratio * ratio)%float) (e, d)
        (append_both emphasis e) (append_both deemphasis d)
  end.

Definition init_emphasis_eq (stack : biquad * biquad) (d : drc_state) : outcome drc_state :=
  stage_gain ← load_param (parameters d) 0 PARAM_FILTER_STAGE_GAIN;
  stage_ratio ← load_param (parameters d) 0 PARAM_FILTER_STAGE_RATIO;
  anchor_freq ← load_param (parameters d) 0 PARAM_FILTER_ANCHOR;
  let '(e, de) := emphasis_loop 2 stage_gain stage_ratio anchor_freq stack eq2_new eq2_new in
  Done (DrcState (sample_rate d) (emphasis_disabled d) (parameters d) (Some e) (Some de) (xo2 d)
          (kernel d) (data1 d) (data2 d)).

Definition init_crossover (d : drc_state) : outcome drc_state :=
  freq1 ← load_param (parameters d) 1 PARAM_CROSSOVER_LOWER_FREQ;
  freq2 ← load_param (parameters d) 2 PARAM_CROSSOVER_LOWER_FREQ;
  Done (DrcState (sample_rate d) (emphasis_disabled d) (parameters d) (emphasis_eq d)
          (deemphasis_eq d) (crossover2_init freq1 freq2) (kernel d) (data1 d) (data2 d)).

Definition init_one_kernel (d : drc_state) (i : nat) : outcome drc_kernel :=
  k ← access (kernel d !! i);
  let k := dk_init k (sample_rate d) in
  let get := load_param (parameters d) i in
  db_threshold ← get PARAM_THRESHOLD;
  db_knee ← get PARAM_KNEE;
  ratio ← get PARAM_RATIO;
  attack_time ← get PARAM_ATTACK;
  release_time ← get PARAM_RELEASE;
  pre_delay_time ← get PARAM_PRE_DELAY;
  releaseZone1 ← get PARAM_RELEASE_ZONE1;
  releaseZone2 ← get PARAM_RELEASE_ZONE2;
  releaseZone3 ← get PARAM_RELEASE_ZONE3;
  releaseZone4 ← get PARAM_RELEASE_ZONE4;
  db_post_gain ← get PARAM_POST_GAIN;
  e ← get PARAM_ENABLED;
  enabled ← access (f_to_int e);
  k ← dk_set_parameters k db_threshold db_knee ratio attack_time release_time pre_delay_time
        db_post_gain releaseZone1 releaseZone2 releaseZone3 releaseZone4;
  Done (dk_set_enabled k (negb (enabled =? 0)%Z)).

Definition init_kernel (d : drc_state) : outcome drc_state :=
  k0 ← init_one_kernel d 0;
  k1 ← init_one_kernel d 1;
  k2 ← init_one_kernel d 2;
  Done (DrcState (sample_rate d) (emphasis_disabled d) (parameters d) (emphasis_eq d)
          (deemphasis_eq d) (xo2 d) [k0; k1; k2] (data1 d) (data2 d)).

Definition drc_state_init (stack : biquad * biquad) (d : drc_state) : outcome drc_state :=
  let d := init_data_buffer d in
  d ← init_emphasis_eq stack d;
  d ← init_crossover d;
  init_kernel d.

(** ** Processing *)

(** data[i] += data1[i] + data2[i] for the first [n]. *)
Definition sum3 (data data1 data2 : list float) (n : nat) : outcome (list float) :=
  if (n <=? length data) && (n <=? length data1) && (n <=? length data2) then
    Done (zip_with fadd (take n data) (zip_with fadd (take n data1) (take n data2)) ++ drop n data)
  else Fault.

(** eq2_process on the first [frames] of two channels. *)
Definition run_eq2 (e : option eq2) (data : list float * list float) (frames : nat)
    : outcome (option eq2 * (list float * list float)) :=
  e ← access e;
  if (frames <=? length data.1) && (frames <=? length data.2) then
    let '(out, e) := eq2_process e (combine (take frames data.1) (take frames data.2)) frames in
    Done (Some e, (map fst out ++ drop frames data.1, map snd out ++ drop frames data.2))
  else Fault.

Definition drc_state_process (d : drc_state) (data : list float * list float) (frames : nat)
    : outcome (drc_state * (list float * list float)) :=
  let emphasis := (emphasis_disabled d =? 0)%Z in
  '(emphasis_eq, data) ←
    (if emphasis then run_eq2 (emphasis_eq d) data frames else Done (emphasis_eq d, data));
  '(xo2, dL, dR, d1L, d1R, d2L, d2R) ←
    crossover2_process (xo2 d) frames data.1 data.2 (data1 d).1 (data1 d).2 (data2 d).1 (data2 d).2;
  match kernel d with
  | [k0; k1; k2] =>
      '(k0, data) ← dk_process k0 (dL, dR) frames;
      '(k1, data1) ← dk_process k1 (d1L, d1R) frames;
      '(k2, data2) ← dk_process k2 (d2L, d2R) frames;
      l ← sum3 data.1 data1.1 data2.1 frames;
      r ← sum3 data.2 data1.2 data2.2 frames;
      '(deemphasis_eq, data) ←
        (if emphasis then run_eq2 (deemphasis_eq d) (l, r) frames else Done (deemphasis_eq d, (l, r)));
      Done (DrcState (sample_rate d) (emphasis_disabled d) (parameters d) emphasis_eq deemphasis_eq
              xo2 [k0; k1; k2] data1 data2, data)
  | _ => Fault
  end.

(** What is on the stack of drc_init, for the instance of the interface. *)
Class StackContents : Type := { stack_biquads : biquad * biquad }.

#[export] Instance drc_lib `{StackContents} : DrcLib := {|
  drc := drc_state;
  drc_new := drc_state_new;
  drc_set_emphasis_disabled := drc_state_set_emphasis;
  drc_set_param := drc_state_set_param;
  drc_init := drc_state_init stack_biquads;
  drc_process := drc_state_process
|}.
End Drc.
