(* ===== verification/DrcBlocks.v ===== *)
(** * DrcBlocks: the compressor does not see the blocks it is called with

    The compressor of drc.c follows a compressor without buffers: equalizers,
    a crossover and three look-ahead compressors over lists of samples. *)

From S2P Require Import Prelude Float32 Biquad Eq Crossover CrossoverBands DrcMath DrcKernel DrcLookahead DrcRefine DrcBand DrcInterface Drc.

(** ** The equalizer of two channels, block by block *)

Lemma set_history_twice q a b c d a' b' c' d' :
  set_history (set_history q a b c d) a' b' c' d' = set_history q a' b' c' d'.
Proof. done. Qed.

Lemma stereo_loop_set_history qL qR a b c d a' b' c' d' hL hR data :
  stereo_loop (set_history qL a b c d) (set_history qR a' b' c' d') hL hR data =
  stereo_loop qL qR hL hR data.
Proof.
  revert hL hR. induction data as [|[xL xR] data IH]; intros hL hR; [done|]. cbn [stereo_loop].
  destruct hL as [[[? ?] ?] ?], hR as [[[? ?] ?] ?]. by rewrite !filter_out_history, IH.
Qed.

Lemma stereo_loop_app qL qR hL hR xs ys :
  stereo_loop qL qR hL hR (xs ++ ys) =
  let '(os, hL, hR) := stereo_loop qL qR hL hR xs in
  let '(os', hL, hR) := stereo_loop qL qR hL hR ys in (os ++ os', hL, hR).
Proof.
  revert hL hR. induction xs as [|[xL xR] xs IH]; intros hL hR; cbn [app stereo_loop].
  { by destruct (stereo_loop qL qR hL hR ys) as [[? ?] ?]. }
  destruct hL as [[[? ?] ?] ?], hR as [[[? ?] ?] ?]. rewrite IH.
  destruct (stereo_loop qL qR _ _ xs) as [[os hL] hR].
  by destruct (stereo_loop qL qR hL hR ys) as [[os' hL'] hR'].
Qed.

Lemma process_one_app p xs ys :
  eq2_process_one p (xs ++ ys) =
  let '(os, p) := eq2_process_one p xs in
  let '(os', p) := eq2_process_one p ys in (os ++ os', p).
Proof.
  destruct p as [qL qR]. unfold eq2_process_one. rewrite stereo_loop_app.
  destruct (stereo_loop qL qR _ _ xs) as [[os hL] hR] eqn:E.
  destruct hL as [[[? ?] ?] ?], hR as [[[? ?] ?] ?].
  cbn [set_history Biquad.x1 Biquad.x2 Biquad.y1 Biquad.y2]. rewrite stereo_loop_set_history.
  by destruct (stereo_loop qL qR _ _ ys) as [[os' [[[? ?] ?] ?]] [[[? ?] ?] ?]].
Qed.

Lemma process_loop2_app todo ps xs ys :
  stereo_process_loop ps todo (xs ++ ys) =
  let '(os, ps) := stereo_process_loop ps todo xs in
  let '(os', ps) := stereo_process_loop ps todo ys in (os ++ os', ps).
Proof.
  revert ps xs ys. induction todo as [todo IH] using lt_wf_ind. intros ps xs ys.
  destruct todo as [|[|todo]].
  - by destruct ps.
  - destruct ps as [|p ps]; [done|]. cbn [stereo_process_loop]. rewrite process_one_app.
    destruct (eq2_process_one p xs) as [os p1]. cbn [stereo_process_loop].
    by destruct (eq2_process_one p1 ys).
  - destruct ps as [|p [|p' ps]]; [done | done|]. cbn [stereo_process_loop]. rewrite process_one_app.
    destruct (eq2_process_one p xs) as [os p1], (eq2_process_one p1 ys) as [os' p2] eqn:E1.
    rewrite process_one_app. destruct (eq2_process_one p' os) as [us q1].
    destruct (eq2_process_one q1 os') as [us' q2] eqn:E2.
    rewrite IH by lia. destruct (stereo_process_loop ps todo us) as [vs rs].
    cbn [stereo_process_loop]. rewrite E1, E2. by destruct (stereo_process_loop rs todo us').
Qed.

(** The whole of a list through an equalizer. *)
Definition eq2_run (e : eq2) (xs : list (float * float)) : list (float * float) * eq2 :=
  eq2_process e xs (length xs).

Lemma stereo_loop_nil ps todo : stereo_process_loop ps todo [] = ([], ps).
Proof.
  revert ps. induction todo as [todo IH] using lt_wf_ind. intros ps.
  destruct todo as [|[|todo]]; [by destruct ps | |].
  - destruct ps as [|[[] []] ps]; done.
  - destruct ps as [|[[] []] [|[[] []] ps]]; try done. cbn. by rewrite IH by lia.
Qed.

Lemma eq2_run_loop e xs :
  eq2_run e xs =
  let '(os, ps) := stereo_process_loop (e2_biquad e) (Nat.max (e2_n e).1 (e2_n e).2) xs in
  (os, Eq2 (e2_n e) ps).
Proof.
  unfold eq2_run, eq2_process. destruct (Nat.eqb_spec (length xs) 0) as [E|E].
  - apply nil_length_inv in E as ->. rewrite stereo_loop_nil. by destruct e.
  - rewrite firstn_all, skipn_all.
    destruct (stereo_process_loop _ _ xs). by rewrite app_nil_r.
Qed.

Lemma eq2_run_app e xs ys :
  eq2_run e (xs ++ ys) =
  let '(os, e) := eq2_run e xs in let '(os', e) := eq2_run e ys in (os ++ os', e).
Proof.
  rewrite !eq2_run_loop, process_loop2_app.
  destruct (stereo_process_loop (e2_biquad e) _ xs) as [os ps]. rewrite eq2_run_loop. cbn [e2_biquad e2_n].
  by destruct (stereo_process_loop ps _ ys).
Qed.

Lemma process_one_length p xs : length (eq2_process_one p xs).1 = length xs.
Proof.
  destruct p as [qL qR]. unfold eq2_process_one.
  generalize (Biquad.x1 qL, Biquad.x2 qL, Biquad.y1 qL, Biquad.y2 qL).
  generalize (Biquad.x1 qR, Biquad.x2 qR, Biquad.y1 qR, Biquad.y2 qR). intros hR hL.
  assert (length (stereo_loop qL qR hL hR xs).1.1 = length xs) as Hl.
  { revert hL hR. induction xs as [|[xL xR] xs IH]; intros hL hR; [done|]. cbn [stereo_loop].
    destruct hL as [[[? ?] ?] ?], hR as [[[? ?] ?] ?].
    match goal with |- context [stereo_loop qL qR ?a ?b xs] => specialize (IH a b);
      destruct (stereo_loop qL qR a b xs) as [[? ?] ?] end. cbn in *. by rewrite IH. }
  destruct (stereo_loop qL qR hL hR xs) as [[os [[[? ?] ?] ?]] [[[? ?] ?] ?]]. exact Hl.
Qed.

Lemma eq2_run_length e xs : length (eq2_run e xs).1 = length xs.
Proof.
  rewrite eq2_run_loop. generalize (e2_biquad e), (Nat.max (e2_n e).1 (e2_n e).2). intros ps todo.
  assert (length (stereo_process_loop ps todo xs).1 = length xs) as Hl.
  { revert ps xs. induction todo as [todo IH] using lt_wf_ind. intros ps xs.
    destruct todo as [|[|todo]]; [by destruct ps | |].
    - destruct ps as [|p ps]; [done|]. cbn [stereo_process_loop].
      pose proof (process_one_length p xs). by destruct (eq2_process_one p xs).
    - destruct ps as [|p [|p' ps]]; [done | done|]. cbn [stereo_process_loop].
      pose proof (process_one_length p xs) as L1. destruct (eq2_process_one p xs) as [os p1].
      pose proof (process_one_length p' os) as L2. destruct (eq2_process_one p' os) as [us p2].
      specialize (IH todo ltac:(lia) ps us). destruct (stereo_process_loop ps todo us). cbn in *. congruence. }
  by destruct (stereo_process_loop ps todo xs).
Qed.

(** ** The compressor without buffers *)

(** The equalizers are absent when the emphasis is disabled. *)
Record compressor : Type := Comp {
  c_emphasis : option eq2;
  c_deemphasis : option eq2;
  c_crossover : crossover2;
  c_low : lookahead; c_mid : lookahead; c_high : lookahead
}.

Section Compressor.
Context `{LibM} `{LibMF}.

Definition run_optional (e : option eq2) (xs : list (float * float))
    : list (float * float) * option eq2 :=
  match e with
  | None => (xs, None)
  | Some e => let '(xs, e) := eq2_run e xs in (xs, Some e)
  end.

Definition sum_bands (low mid high : list (float * float)) : list (float * float) :=
  zip_with fadd2 low (zip_with fadd2 mid high).

Definition run_bands (s0 s1 s2 : lookahead) (low mid high : list (float * float))
    : outcome (list (float * float) * list (float * float) * list (float * float)
               * lookahead * lookahead * lookahead) :=
  '(low, s0) ← la_process s0 low;
  '(mid, s1) ← la_process s1 mid;
  '(high, s2) ← la_process s2 high;
  Done (low, mid, high, s0, s1, s2).

Definition compress (c : compressor) (xs : list (float * float))
    : outcome (list (float * float) * compressor) :=
  let '(xs, e) := run_optional (c_emphasis c) xs in
  '(low, mid, high, xo) ← access (bands2 (c_crossover c) xs);
  '(low, mid, high, s0, s1, s2) ← run_bands (c_low c) (c_mid c) (c_high c) low mid high;
  let '(out, d) := run_optional (c_deemphasis c) (sum_bands low mid high) in
  Done (out, Comp e d xo s0 s1 s2).

Lemma la_process_no_timeout s xs : la_process s xs <> Timeout.
Proof.
  assert (forall s e, la_reload s e <> Timeout) as Hr.
  { intros s0 e. unfold la_reload. apply bind_no_timeout; [apply update_envelope_no_timeout|].
    intros e'. destruct (next_gains _ _). discriminate. }
  assert (forall xs s, la_steps s xs <> Timeout) as Hs.
  { induction xs0 as [|x xs0 IH]; intros s0; cbn [la_steps]; [discriminate|].
    apply bind_no_timeout; [|intros [o s1]; apply bind_no_timeout; [auto | intros []; discriminate]].
    unfold la_step. apply bind_no_timeout; [apply access_no_timeout|]. intros q.
    apply bind_no_timeout; [apply access_no_timeout|]. intros g.
    apply bind_no_timeout; [|discriminate]. unfold la_finish. destruct (_ =? _); [|discriminate].
    apply bind_no_timeout; [apply detector_loop_no_timeout | auto]. }
  unfold la_process. destruct (la_enabled s); [|discriminate].
  apply bind_no_timeout; [|auto]. destruct (la_started s); [discriminate | auto].
Qed.

(** Look at the outcome of every band. *)
Ltac band_cases :=
  repeat (rewrite ?bind_Done_eq;
    match goal with |- context [la_process ?s ?l] =>
      let P := fresh "P" in
      destruct (la_process s l) as [[? ?]| |] eqn:P; [ | |by apply la_process_no_timeout in P]
    end).

Lemma run_bands_app s0 s1 s2 low low' mid mid' high high' :
  run_bands s0 s1 s2 (low ++ low') (mid ++ mid') (high ++ high') =
  '(low, mid, high, s0, s1, s2) ← run_bands s0 s1 s2 low mid high;
  '(low', mid', high', s0, s1, s2) ← run_bands s0 s1 s2 low' mid' high';
  Done (low ++ low', mid ++ mid', high ++ high', s0, s1, s2).
Proof. unfold run_bands. rewrite !la_process_app. band_cases; by simplify_eq. Qed.

Lemma run_bands_no_timeout s0 s1 s2 low mid high : run_bands s0 s1 s2 low mid high <> Timeout.
Proof. unfold run_bands. band_cases; discriminate. Qed.

Lemma sum_bands_app l l' m m' h h' :
  length l = length m -> length m = length h ->
  sum_bands (l ++ l') (m ++ m') (h ++ h') = sum_bands l m h ++ sum_bands l' m' h'.
Proof.
  intros E1 E2. unfold sum_bands. rewrite zip_with_same_app by done.
  by rewrite zip_with_same_app by (rewrite length_zip_with; lia).
Qed.

Lemma run_optional_app e xs ys :
  run_optional e (xs ++ ys) =
  let '(os, e) := run_optional e xs in let '(os', e) := run_optional e ys in (os ++ os', e).
Proof.
  destruct e as [e|]; [|done]. unfold run_optional. rewrite eq2_run_app.
  destruct (eq2_run e xs) as [os e1]. by destruct (eq2_run e1 ys).
Qed.

Lemma run_optional_length e xs : length (run_optional e xs).1 = length xs.
Proof.
  destruct e as [e|]; [|done]. cbn [run_optional]. pose proof (eq2_run_length e xs). by destruct (eq2_run e xs).
Qed.

Lemma la_process_length s xs os s' : la_process s xs = Done (os, s') -> length os = length xs.
Proof.
  intros (gs & Hl & -> & _)%la_process_delay. unfold delayed.
  destruct (la_enabled s); rewrite ?length_zip_with, length_take, length_app; lia.
Qed.

Lemma run_bands_length s0 s1 s2 low mid high low' mid' high' t0 t1 t2 :
  run_bands s0 s1 s2 low mid high = Done (low', mid', high', t0, t1, t2) ->
  length low' = length low /\ length mid' = length mid /\ length high' = length high.
Proof.
  unfold run_bands. intros H1. outcome_inv. destruct a as [l u0]. outcome_inv. destruct a as [m u1].
  outcome_inv. destruct a as [h u2]. outcome_inv.
  split_and!; by eapply la_process_length.
Qed.

Lemma access_bind {A B} (o : option A) (f : A -> option B) :
  access (o ≫= f) = a ← access o; access (f a).
Proof. by destruct o. Qed.

(** The compressor does the same to a signal in whatever blocks it comes. *)
Lemma compress_app c xs ys :
  compress c (xs ++ ys) =
  '(os, c) ← compress c xs; '(os', c) ← compress c ys; Done (os ++ os', c).
Proof.
  unfold compress. rewrite run_optional_app.
  destruct (run_optional (c_emphasis c) xs) as [xs1 e1].
  destruct (run_optional e1 ys) as [ys1 e2] eqn:Ee.
  rewrite bands2_app, access_bind.
  destruct (bands2 (c_crossover c) xs1) as [[[[lo mi] hi] xo1]|] eqn:Eb; [|done].
  apply bands2_lengths in Eb as (L1 & L2 & L3). cbn [access]. rewrite !bind_Done_eq, access_bind.
  destruct (bands2 xo1 ys1) as [[[[lo' mi'] hi'] xo2]|] eqn:Eb'; cbn [access].
  - rewrite !bind_Done_eq. cbn [access]. rewrite bind_Done_eq, run_bands_app.
    destruct (run_bands _ _ _ lo mi hi) as [[[[[[l m] h] s0] s1] s2]| |] eqn:Er; [|done|done].
    apply run_bands_length in Er as (R1 & R2 & R3). rewrite !bind_Done_eq.
    destruct (run_bands s0 s1 s2 lo' mi' hi') as [[[[[[l' m'] h'] t0] t1] t2]| |] eqn:Er'.
    + rewrite !bind_Done_eq, sum_bands_app, run_optional_app by congruence.
      destruct (run_optional (c_deemphasis c) (sum_bands l m h)) as [os d1]. rewrite bind_Done_eq.
      cbn [c_emphasis c_crossover c_low c_mid c_high c_deemphasis]. rewrite Ee, Eb'. cbn [access].
      rewrite !bind_Done_eq, Er', !bind_Done_eq. by destruct (run_optional d1 _).
    + destruct (run_optional (c_deemphasis c) (sum_bands l m h)) as [os d1]. rewrite bind_Done_eq.
      cbn [c_emphasis c_crossover c_low c_mid c_high c_deemphasis]. rewrite Ee, Eb'. cbn [access].
      by rewrite !bind_Done_eq, Er'.
    + by apply run_bands_no_timeout in Er'.
  - destruct (run_bands _ _ _ lo mi hi) as [[[[[[l m] h] s0] s1] s2]| |] eqn:Er;
      [|done | by apply run_bands_no_timeout in Er].
    rewrite bind_Done_eq. destruct (run_optional (c_deemphasis c) _) as [os d1]. rewrite bind_Done_eq.
    cbn [c_emphasis c_crossover]. by rewrite Ee, Eb'.
Qed.
End Compressor.
