(* ===== verification/DrcWhole.v ===== *)
(** * DrcWhole: the compressor from drc_init on

    drc_process follows the compressor without buffers, as long as it is not
    called with more frames than its scratch buffers hold. *)

From S2P Require Import Prelude Float32 Biquad Eq Crossover CrossoverBands DrcMath DrcKernel DrcLookahead DrcRefine DrcBand DrcInterface Drc DrcBlocks.

Abbreviation MAX := DRC_PROCESS_MAX_FRAMES.

(** Two channels of samples before [t]. *)
Abbreviation samples xs t := (map fst xs ++ fst t, map snd xs ++ snd t).

Definition holds_max (bufs : list float * list float) : Prop :=
  length bufs.1 = MAX /\ length bufs.2 = MAX.

Lemma split_samples bufs n :
  holds_max bufs -> n <= MAX ->
  exists u t, length u = n /\ bufs = samples u t /\ length t.1 = MAX - n /\ length t.2 = MAX - n.
Proof.
  intros [H1 H2] Hn. exists (combine (take n bufs.1) (take n bufs.2)), (drop n bufs.1, drop n bufs.2).
  assert (length (take n bufs.1) = n /\ length (take n bufs.2) = n) as [L1 L2] by (rewrite !length_take; lia).
  rewrite length_combine, L1, L2, Nat.min_id. cbn [fst snd]. rewrite !length_drop, H1, H2.
  split_and!; [done | | done | done].
  assert (forall (l r : list float), length l = length r ->
    map fst (combine l r) = l /\ map snd (combine l r) = r) as Hc.
  { induction l as [|x l IH]; intros [|y r]; cbn; intros E; try done. destruct (IH r) as [-> ->]; [lia | done]. }
  destruct (Hc (take n bufs.1) (take n bufs.2)) as [-> ->]; [congruence|]. rewrite !take_drop. by destruct bufs.
Qed.

Lemma samples_max (u : list (float * float)) t n :
  length u = n -> n <= MAX -> length t.1 = MAX - n -> length t.2 = MAX - n -> holds_max (samples u t).
Proof. intros. split; cbn; rewrite length_app, length_map; lia. Qed.

Lemma run_eq2_run e xs t :
  run_eq2 (Some e) (samples xs t) (length xs) =
  let '(os, e) := eq2_run e xs in Done (Some e, samples os t).
Proof.
  unfold run_eq2. cbn [access fst snd]. rewrite bind_Done_eq, !fits_app by (by rewrite length_map). cbn [andb].
  rewrite !take_app_length', !drop_app_length' by (by rewrite length_map).
  rewrite combine_map. fold (eq2_run e xs). by destruct (eq2_run e xs).
Qed.

Lemma map_zip_fadd2 (l m : list (float * float)) :
  map fst (zip_with fadd2 l m) = zip_with fadd (map fst l) (map fst m) /\
  map snd (zip_with fadd2 l m) = zip_with fadd (map snd l) (map snd m).
Proof.
  revert m. induction l as [|x l IH]; intros [|y m]; [done..|]. cbn. destruct (IH m) as [-> ->]. done.
Qed.

Lemma sum3_samples (f : float * float -> float) l m h t t1 t2 n :
  length l = n -> length m = n -> length h = n ->
  sum3 (map f l ++ t) (map f m ++ t1) (map f h ++ t2) n =
  Done (zip_with fadd (map f l) (zip_with fadd (map f m) (map f h)) ++ t).
Proof.
  intros Hl Hm Hh. unfold sum3. rewrite !fits_app by (by rewrite length_map). cbn [andb].
  by rewrite !take_app_length', drop_app_length' by (by rewrite length_map).
Qed.

Lemma sum3_bands l m h t t1 t2 n :
  length l = n -> length m = n -> length h = n ->
  sum3 (map fst l ++ t) (map fst m ++ t1) (map fst h ++ t2) n = Done (map fst (sum_bands l m h) ++ t) /\
  sum3 (map snd l ++ t) (map snd m ++ t1) (map snd h ++ t2) n = Done (map snd (sum_bands l m h) ++ t).
Proof.
  intros. unfold sum_bands. rewrite !sum3_samples by done.
  rewrite (proj1 (map_zip_fadd2 _ _)), (proj2 (map_zip_fadd2 _ _)).
  by rewrite (proj1 (map_zip_fadd2 _ _)), (proj2 (map_zip_fadd2 _ _)).
Qed.

Definition three_filters (xo : crossover2) : Prop := length (xo2_lp xo) = 3 /\ length (xo2_hp xo) = 3.

Lemma three_filters_bands xo xs :
  three_filters xo ->
  exists low mid high xo', bands2 xo xs = Some (low, mid, high, xo') /\ three_filters xo'.
Proof.
  intros [H1 H2]. destruct xo as [[|lp0 [|lp1 [|lp2 []]]] [|hp0 [|hp1 [|hp2 []]]]]; try done.
  unfold bands2. destruct (lr42_run lp0 xs) as [l ?], (lr42_run hp0 xs) as [h ?].
  destruct (lr42_run lp1 l), (lr42_run hp1 l), (lr42_run lp2 h), (lr42_run hp2 h).
  by eexists _, _, _, _.
Qed.

Lemma bind_bind {A B C} (m : outcome A) (f : A -> outcome B) (g : B -> outcome C) :
  ((m ≫= f) ≫= g) = (m ≫= fun a => f a ≫= g).
Proof. by destruct m. Qed.

Section Whole.
Context `{LibM} `{LibMF}.

(** The equalizer of a state, when emphasis is not disabled. *)
Definition eq_agrees (disabled : Z) (e e' : option eq2) : Prop :=
  if (disabled =? 0)%Z then e = e' /\ is_Some e else e' = None.

Record stands_for (d : drc_state) (c : compressor) : Prop := {
  sf_emphasis : eq_agrees (emphasis_disabled d) (emphasis_eq d) (c_emphasis c);
  sf_deemphasis : eq_agrees (emphasis_disabled d) (deemphasis_eq d) (c_deemphasis c);
  sf_crossover : xo2 d = c_crossover c;
  sf_filters : three_filters (xo2 d);
  sf_kernel : exists k0 k1 k2, kernel d = [k0; k1; k2] /\
    represents k0 (c_low c) /\ represents k1 (c_mid c) /\ represents k2 (c_high c);
  sf_data1 : holds_max (data1 d);
  sf_data2 : holds_max (data2 d)
}.

(** An equalizer that is skipped when the emphasis is disabled. *)
Lemma optional_eq2 disabled e e' xs t :
  eq_agrees disabled e e' ->
  exists e1, (if (disabled =? 0)%Z then run_eq2 e (samples xs t) (length xs) else Done (e, samples xs t)) =
      Done (e1, samples (run_optional e' xs).1 t) /\
    eq_agrees disabled e1 (run_optional e' xs).2.
Proof.
  unfold eq_agrees. destruct (disabled =? 0)%Z; [intros [<- [e0 ->]] | intros ->]; [|by exists e].
  rewrite run_eq2_run. cbn [run_optional]. destruct (eq2_run e0 xs) as [os e1]. by exists (Some e1).
Qed.

Lemma drc_process_follows d c xs t :
  stands_for d c -> length xs <= MAX ->
  follows (fun '(os, c') '(d', data) =>
      data = samples os t /\ length os = length xs /\ stands_for d' c')
    (compress c xs) (drc_state_process d (samples xs t) (length xs)).
Proof.
  intros [S1 S2 S3 S4 (k0 & k1 & k2 & S5 & K0 & K1 & K2) S6 S7] Hn.
  unfold compress, drc_state_process.
  destruct (optional_eq2 _ _ _ xs t S1) as (e1 & -> & A1). rewrite bind_Done_eq.
  pose proof (run_optional_length (c_emphasis c) xs) as Hlen.
  destruct (run_optional (c_emphasis c) xs) as [xs1 e1']. cbn [fst snd] in *.
  destruct (three_filters_bands (xo2 d) xs1 S4) as (low & mid & high & xo' & Eb & F').
  rewrite <- S3, Eb. cbn [access]. rewrite bind_Done_eq.
  pose proof (bands2_lengths _ _ _ _ _ _ Eb) as (L1 & L2 & L3).
  destruct (split_samples (data1 d) (length xs) S6 Hn) as (u & tu & Hu & -> & Tu1 & Tu2).
  destruct (split_samples (data2 d) (length xs) S7 Hn) as (v & tv & Hv & -> & Tv1 & Tv2).
  cbn [fst snd]. rewrite <- Hlen.
  rewrite (crossover2_process_bands (xo2 d) xs1 u v _ _ _ _ _ _ _ _ _ _ ltac:(lia) ltac:(lia) Eb).
  rewrite bind_Done_eq, S5. unfold run_bands. rewrite <- L1.
  rewrite bind_bind.
  eapply follows_bind; [exact (dk_process_follows k0 (c_low c) low t K0)|].
  intros [l s0] [k0' data0] (-> & N0 & K0'). rewrite bind_bind, L1, <- L2.
  eapply follows_bind; [exact (dk_process_follows k1 (c_mid c) mid tu K1)|].
  intros [m s1] [k1' data1'] (-> & N1 & K1'). rewrite bind_bind, L2, <- L3.
  eapply follows_bind; [exact (dk_process_follows k2 (c_high c) high tv K2)|].
  intros [h s2] [k2' data2'] (-> & N2 & K2'). rewrite bind_Done_eq, L3. cbn [fst snd].
  destruct (sum3_bands l m h t.1 tu.1 tv.1 (length xs1)) as [Q1 _]; try lia.
  destruct (sum3_bands l m h t.2 tu.2 tv.2 (length xs1)) as [_ Q2]; try lia.
  rewrite Q1, bind_Done_eq, Q2, bind_Done_eq.
  assert (length (sum_bands l m h) = length xs1) as Hs by (unfold sum_bands; rewrite !length_zip_with; lia).
  rewrite <- Hs.
  destruct (optional_eq2 _ _ _ (sum_bands l m h) t S2) as (d1 & -> & A2). rewrite bind_Done_eq.
  pose proof (run_optional_length (c_deemphasis c) (sum_bands l m h)) as Hd.
  destruct (run_optional (c_deemphasis c) (sum_bands l m h)) as [os d1'].
  apply follows_Done. cbn [fst snd] in *. split_and!; [done | lia|].
  split; cbn; try done; [by eexists _, _, _ | |]; (eapply samples_max; [|exact Hn|done|done]; lia).
Qed.

(** ** From drc_init on *)

Definition when_enabled (disabled : Z) (e : option eq2) : option eq2 :=
  if (disabled =? 0)%Z then e else None.

(** The compressor a state just initialised stands for. *)
Definition compressor_of (d : drc_state) : option compressor :=
  match kernel d with
  | [k0; k1; k2] =>
      Some (Comp (when_enabled (emphasis_disabled d) (emphasis_eq d))
              (when_enabled (emphasis_disabled d) (deemphasis_eq d)) (xo2 d)
              (la_new k0) (la_new k1) (la_new k2))
  | _ => None
  end.

Lemma init_one_kernel_fresh d i k : init_one_kernel d i = Done k -> fresh k.
Proof.
  unfold init_one_kernel. intros H1. outcome_inv.
  match goal with E : dk_set_parameters _ _ _ _ _ _ _ _ _ _ _ _ = Done ?k |- fresh (dk_set_enabled ?k _) =>
    change (fresh k); unfold dk_set_parameters in E end.
  outcome_inv. eapply set_pre_delay_fresh; [|eassumption].
  match goal with |- fresh (Dk (dk_sample_rate (dk_init ?k0 ?r)) _ _ _ _ _ _ _ _ _) => exact (init_fresh k0 r) end.
Qed.

Lemma drc_init_stands stack d0 d :
  drc_state_init stack d0 = Done d ->
  exists c, compressor_of d = Some c /\ stands_for d c.
Proof.
  unfold drc_state_init, init_kernel, init_crossover, init_emphasis_eq. intros H1. outcome_inv.
  destruct (emphasis_loop _ _ _ _ _ _ _) as [e de]. outcome_inv.
  unfold compressor_of. cbn [kernel emphasis_disabled emphasis_eq deemphasis_eq xo2].
  eexists. split; [reflexivity|].
  repeat match goal with E : init_one_kernel _ _ = Done _ |- _ =>
    apply init_one_kernel_fresh, fresh_represents in E end.
  split; cbn [c_emphasis c_deemphasis c_crossover c_low c_mid c_high emphasis_disabled emphasis_eq
    deemphasis_eq xo2 kernel data1 data2]; try done.
  - unfold eq_agrees, when_enabled. cbn. by destruct (_ =? _)%Z.
  - unfold eq_agrees, when_enabled. cbn. by destruct (_ =? _)%Z.
  - by eexists _, _, _.
Qed.

(** ** Runs *)

Fixpoint drc_run (d : drc_state) (blocks : list (list (float * float)))
    : outcome (list (list (float * float)) * drc_state) :=
  match blocks with
  | [] => Done ([], d)
  | xs :: blocks =>
      '(d, data) ← drc_state_process d (map fst xs, map snd xs) (length xs);
      '(outs, d) ← drc_run d blocks;
      Done (combine data.1 data.2 :: outs, d)
  end.

Fixpoint compress_run (c : compressor) (blocks : list (list (float * float)))
    : outcome (list (list (float * float)) * compressor) :=
  match blocks with
  | [] => Done ([], c)
  | xs :: blocks =>
      '(os, c) ← compress c xs;
      '(outs, c) ← compress_run c blocks;
      Done (os :: outs, c)
  end.

Definition blocks_fit (blocks : list (list (float * float))) : Prop :=
  Forall (fun xs => length xs <= MAX) blocks.

Lemma drc_run_follows d c blocks :
  stands_for d c -> blocks_fit blocks ->
  follows (fun '(outs, c') '(outs', d') =>
      outs' = outs /\ map length outs = map length blocks /\ stands_for d' c')
    (compress_run c blocks) (drc_run d blocks).
Proof.
  intros Hs Hf. revert d c Hs. induction Hf as [|xs blocks Hx Hf IH]; intros d c Hs;
    cbn [compress_run drc_run]; [by apply follows_Done|].
  pose proof (drc_process_follows d c xs ([], []) Hs Hx) as Hp. cbn [fst snd] in Hp. rewrite !app_nil_r in Hp.
  eapply follows_bind; [exact Hp|]. intros [os c1] [d1 data] (-> & Hl & S1).
  eapply follows_bind; [exact (IH d1 c1 S1)|]. intros [outs c2] [outs' d2] (-> & Hls & S2).
  apply follows_Done. cbn [fst snd map]. rewrite !app_nil_r, combine_map, Hl, Hls. done.
Qed.

(** Running over blocks is compressing what they make up. *)
Lemma compress_run_concat c xs blocks :
  ('(outs, c) ← compress_run c (xs :: blocks); Done (concat outs, c)) =
  compress c (xs ++ concat blocks).
Proof.
  revert c xs. induction blocks as [|ys blocks IH]; intros c xs; cbn [compress_run concat].
  - rewrite !app_nil_r. destruct (compress c xs) as [[os c1]| |]; [|done|done]. cbn. by rewrite app_nil_r.
  - rewrite compress_app. destruct (compress c xs) as [[os c1]| |]; [|done|done]. rewrite !bind_Done_eq.
    rewrite <- IH. cbn [compress_run].
    destruct (compress c1 ys) as [[os1 c2]| |]; [|done|done]. rewrite !bind_Done_eq.
    by destruct (compress_run c2 blocks) as [[outs c3]| |].
Qed.

(** C20.  The output of the compressor does not depend on the blocks it is
    called with.  After drc_init, with whatever was on its stack, if drc_process
    called with blocks of at most DRC_PROCESS_MAX_FRAMES frames gives some
    output for a signal of one sample or more, then called with any other
    blocks of the same signal it returns, without an access outside its
    buffers, and gives the same output; the blocks keep their lengths. *)
Theorem drc_process_blocks stack d0 d blocks blocks' outs d1
    (Hinit : drc_state_init stack d0 = Done d)
    (Hfit : blocks_fit blocks) (Hfit' : blocks_fit blocks')
    (Hsame : concat blocks' = concat blocks) (Hsome : concat blocks <> [])
    (Hrun : drc_run d blocks = Done (outs, d1)) :
  map length outs = map length blocks /\
  exists outs' d2, drc_run d blocks' = Done (outs', d2) /\
    concat outs' = concat outs /\ map length outs' = map length blocks'.
Proof.
  destruct (drc_init_stands _ _ _ Hinit) as (c & _ & Hc).
  pose proof (drc_run_follows d c blocks Hc Hfit) as F. pose proof (drc_run_follows d c blocks' Hc Hfit') as F'.
  destruct blocks as [|xs blocks]; [done|].
  destruct blocks' as [|xs' blocks']; [by rewrite <- Hsame in Hsome|].
  pose proof (compress_run_concat c xs blocks) as E. pose proof (compress_run_concat c xs' blocks') as E'.
  cbn [concat] in Hsame. rewrite Hsame in E'. rewrite Hrun in F.
  destruct (compress_run c (xs :: blocks)) as [[o c1]| |]; cbn [follows] in F;
    [|discriminate F | destruct F].
  destruct F as ([? ?] & [= -> ->] & <- & Hl & _). split; [done|]. rewrite bind_Done_eq in E.
  destruct (compress_run c (xs' :: blocks')) as [[o' c2]| |];
    [|by cbn in E'; rewrite <- E' in E | by destruct F'].
  destruct F' as ([outs' d2'] & -> & -> & Hl' & _). exists o', d2'.
  rewrite bind_Done_eq, <- E in E'. injection E' as E' _. done.
Qed.
End Whole.

(** A stereo compressor at 48 kHz, its first band enabled. *)
Definition sample_state : drc_state :=
  default (drc_state_new (f_of_Z 48000))
    (outcome_value (drc_state_set_param (drc_state_new (f_of_Z 48000)) 0 PARAM_ENABLED (f_of_Z 1))).

Lemma init_and_run (m : outcome drc_state) blocks ls :
  outcome_value (d ← m; '(o, _) ← drc_run d blocks; Done (map length o)) = Some ls ->
  exists d out d2, m = Done d /\ drc_run d blocks = Done (out, d2) /\ map length out = ls.
Proof.
  destruct m as [d| |]; [|done|done]. rewrite bind_Done_eq.
  destruct (drc_run d blocks) as [[o d1]| |] eqn:E; [|done|done]. cbn. intros [= <-]. by exists d, o, d1.
Qed.

Lemma drc_process_blocks_witness :
  exists d out d2, drc_state_init (zero_biquad, zero_biquad) sample_state = Done d /\
    drc_run d [[(f_of_Z 1, f_of_Z 2)]; [(f_of_Z 3, f_of_Z 4)]] = Done (out, d2) /\ map length out = [1; 1].
Proof.
  assert (outcome_value (d ← drc_state_init (zero_biquad, zero_biquad) sample_state;
            '(o, _) ← drc_run d [[(f_of_Z 1, f_of_Z 2); (f_of_Z 3, f_of_Z 4)]];
            Done (map length o)) = Some [2]) as Hv by (vm_compute; reflexivity).
  apply init_and_run in Hv as (d & o & d1 & Ei & Er & _).
  destruct (drc_process_blocks (zero_biquad, zero_biquad) sample_state d
    [[(f_of_Z 1, f_of_Z 2); (f_of_Z 3, f_of_Z 4)]]
    [[(f_of_Z 1, f_of_Z 2)]; [(f_of_Z 3, f_of_Z 4)]] o d1 Ei) as (_ & outs' & d2 & E & _ & L).
  - repeat (apply Forall_cons_2 || apply Forall_nil_2); apply Nat.leb_le; vm_compute; reflexivity.
  - repeat (apply Forall_cons_2 || apply Forall_nil_2); apply Nat.leb_le; vm_compute; reflexivity.
  - reflexivity.
  - discriminate.
  - exact Er.
  - exists d, outs', d2. split; [exact Ei|]. split; [exact E | exact L].
Defined.

(** ** What drc_init leaves on the filters *)

(** The histories of the emphasis filters are those of the stack: two
    initialisations of the same state give different outputs. *)
Definition dirty_biquad : biquad :=
  Bq float_zero float_zero float_zero float_zero float_zero one float_zero float_zero float_zero.

Definition first_output (stack : biquad * biquad) : option float :=
  outcome_value
    (d ← init_emphasis_eq stack (drc_state_new (f_of_Z 48000));
     '(e, _) ← run_eq2 (emphasis_eq d) ([f_of_Z 0], [f_of_Z 0]) 1;
     e ← access e;
     q ← access (head (e2_biquad e));
     Done (y1 q.1)).

Example emphasis_uninitialised :
  first_output (zero_biquad, zero_biquad) <> first_output (dirty_biquad, dirty_biquad).
Proof. vm_compute. discriminate. Qed.
