(* ===== verification/ModBuiltin.v ===== *)
(** * ModBuiltin: the built-in modules of audio/hal/cras_dsp_mod_builtin.c

    Each kind of module with its own data, and their dispatch: the instance of
    [ModuleLib] the pipeline runs.  The dynamics compressor (dsp/drc.c) is used
    through the interface [DrcLib].  A pointer to a buffer or control value is
    a [location]; the locations of two ports may be the same.  Two output ports
    in one buffer, which the pipeline never assigns, count as a fault in the
    modules that process them together. *)

From S2P Require Import Prelude CString Float32 Dictionary Expr DspIni DspUtil Pipeline Biquad Eq DrcInterface.

Section ModBuiltin.
Context `{FloatLib} `{LibM} `{DrcLib}.

Abbreviation ports_table := (list (option location)).

(** module->data: NULL before instantiate, then the structure of the kind. *)
Inductive builtin_data : Type :=
| DataNone
| DataPorts (ports : ports_table)                                   (* float *[4] *)
| DataEq (sample_rate : Z) (state : option eq) (ports : ports_table)
| DataEq2 (sample_rate : Z) (state : option eq2) (ports : ports_table)
| DataDrc (sample_rate : Z) (state : option drc) (ports : ports_table).

Inductive builtin_kind : Type :=
| KEmpty | KInvertLr | KMixStereo | KEq | KEq2 | KDrc.

Record builtin : Type := Builtin { kind : builtin_kind; data : builtin_data }.

(** ** Memory *)

Definition memory : Type := location -> option (list float).

Definition mem_set (m : memory) (l : location) (v : list float) : memory :=
  fun l' => if decide (l' = l) then Some v else m l'.

(** A port that is connected. *)
Definition port_loc (ports : ports_table) (k : nat) : outcome location :=
  o ← access (ports !! k); access o.

Definition read_at (m : memory) (l : location) (i : nat) : outcome float :=
  v ← access (m l); access (v !! i).

Definition write_at (m : memory) (l : location) (i : nat) (x : float) : outcome memory :=
  v ← access (m l); if i <? length v then Done (mem_set m l (<[i := x]> v)) else Fault.

(** memcpy of [n] floats between two buffers. *)
Definition copy_floats (m : memory) (dst src : location) (n : nat) : outcome memory :=
  s ← access (m src); d ← access (m dst);
  if (n <=? length s) && (n <=? length d)
  then Done (mem_set m dst (take n s ++ drop n d)) else Fault.

(** The value of a control port: *data->ports[k]. *)
Definition control (m : memory) (ports : ports_table) (k : nat) : outcome float :=
  l ← port_loc ports k; read_at m l 0.

(** The final contents of the locations a module wrote. *)
Definition written (m : memory) (ls : list location) : list (location * list float) :=
  omap (fun l => v ← m l; Some (l, v)) ls.

(** ** instantiate, connect_port, deinstantiate *)

Definition builtin_instantiate (b : builtin) (sample_rate : Z) : Z * builtin :=
  (0%Z,
   Builtin (kind b)
     match kind b with
     | KEmpty => data b
     | KInvertLr | KMixStereo => DataPorts (replicate 4 None)
     | KEq => DataEq (s32 sample_rate) None (replicate (2 + MAX_BIQUADS_PER_EQ * 4) None)
     | KEq2 => DataEq2 (s32 sample_rate) None (replicate (4 + MAX_BIQUADS_PER_EQ2 * 8) None)
     | KDrc => DataDrc (s32 sample_rate) None (replicate (4 + 1 + 8 * 3) None)
     end).

(** ports[port] = data_location, with no test of the index. *)
Definition set_port (ports : ports_table) (port : nat) (l : location) : outcome ports_table :=
  if port <? length ports then Done (<[port := Some l]> ports) else Fault.

Definition builtin_connect_port (b : builtin) (port : nat) (l : location) : outcome builtin :=
  match kind b, data b with
  | KEmpty, _ => Done b
  | _, DataNone => Fault
  | _, DataPorts ports => p ← set_port ports port l; Done (Builtin (kind b) (DataPorts p))
  | _, DataEq r s ports => p ← set_port ports port l; Done (Builtin (kind b) (DataEq r s p))
  | _, DataEq2 r s ports => p ← set_port ports port l; Done (Builtin (kind b) (DataEq2 r s p))
  | _, DataDrc r s ports => p ← set_port ports port l; Done (Builtin (kind b) (DataDrc r s p))
  end.

(** DRC_DEFAULT_PRE_DELAY * data->sample_rate, converted to int. *)
Definition builtin_get_delay (b : builtin) (m : memory) : outcome Z :=
  match kind b, data b with
  | KDrc, DataDrc r _ _ => access (f_to_int (fmul DRC_DEFAULT_PRE_DELAY (f_of_Z r)))
  | KDrc, _ => Fault
  | _, _ => Done 0%Z
  end.

(** The data is freed: what the pointer is left at is not used again. *)
Definition builtin_deinstantiate (b : builtin) : outcome builtin :=
  match kind b, data b with
  | KEmpty, _ => Done b
  | (KEq | KEq2 | KDrc), DataNone => Fault
  | _, _ => Done (Builtin (kind b) DataNone)
  end.

(** ** run *)

Fixpoint invert_lr_loop (ports : ports_table) (todo i : nat) (m : memory) : outcome memory :=
  match todo with
  | 0 => Done m
  | S todo =>
      p0 ← port_loc ports 0; p1 ← port_loc ports 1;
      p2 ← port_loc ports 2; p3 ← port_loc ports 3;
      x ← read_at m p0 i; m ← write_at m p2 i (fneg x);
      y ← read_at m p1 i; m ← write_at m p3 i y;
      invert_lr_loop ports todo (i + 1) m
  end.

Fixpoint mix_stereo_loop (ports : ports_table) (todo i : nat) (m : memory) : outcome memory :=
  match todo with
  | 0 => Done m
  | S todo =>
      p0 ← port_loc ports 0; p1 ← port_loc ports 1;
      p2 ← port_loc ports 2; p3 ← port_loc ports 3;
      x ← read_at m p0 i; y ← read_at m p1 i;
      let tmp := fadd x y in
      m ← write_at m p2 i tmp; m ← write_at m p3 i tmp;
      mix_stereo_loop ports todo (i + 1) m
  end.

Definition nyquist (sample_rate : Z) : float := f_of_Z (Z.quot sample_rate 2).

(** The biquads of an equalizer from its control ports, 4 for each, up to the
    first that is not connected. *)
Fixpoint eq_params (rate : Z) (m : memory) (ports : ports_table) (todo i : nat) (e : eq)
    : outcome eq :=
  match todo with
  | 0 => Done e
  | S todo =>
      o ← access (ports !! i);
      match o with
      | None => Done e
      | Some _ =>
          t ← control m ports i; type ← access (f_to_int t);
          freq ← control m ports (i + 1);
          Q ← control m ports (i + 2);
          gain ← control m ports (i + 3);
          eq_params rate m ports todo (i + 4)
            (eq_append_biquad e (biquad_type_of type) (fdiv freq (nyquist rate)) Q gain).2
      end
  end.

Definition eq_run (rate : Z) (state : option eq) (ports : ports_table) (n : nat) (m : memory)
    : outcome (eq * memory * location) :=
  e ← (match state with
       | Some e => Done e
       | None => eq_params rate m ports MAX_BIQUADS_PER_EQ 2 eq_new
       end);
  p0 ← access (ports !! 0); p1 ← access (ports !! 1);
  m ← (if bool_decide (p0 <> p1) then
         l0 ← access p0; l1 ← access p1; copy_floats m l1 l0 n
       else Done m);
  l1 ← access p1;
  v ← access (m l1);
  if n <=? length v then
    let '(out, e) := eq_process e v n in Done (e, mem_set m l1 out, l1)
  else Fault.

(** One channel of a pair of biquads of eq2. *)
Definition eq2_param (rate : Z) (m : memory) (ports : ports_table) (k : nat) (channel : bool)
    (e : eq2) : outcome eq2 :=
  t ← control m ports k; type ← access (f_to_int t);
  freq ← control m ports (k + 1);
  Q ← control m ports (k + 2);
  gain ← control m ports (k + 3);
  Done (eq2_append_biquad e channel (biquad_type_of type) (fdiv freq (nyquist rate)) Q gain).2.

Fixpoint eq2_params (rate : Z) (m : memory) (ports : ports_table) (todo i : nat) (e : eq2)
    : outcome eq2 :=
  match todo with
  | 0 => Done e
  | S todo =>
      o ← access (ports !! i);
      match o with
      | None => Done e
      | Some _ =>
          e ← eq2_param rate m ports i false e;
          e ← eq2_param rate m ports (i + 4) true e;
          eq2_params rate m ports todo (i + 8) e
      end
  end.

(** Input port [src] copied to output port [dst] unless they are the same. *)
Definition copy_port (ports : ports_table) (dst src n : nat) (m : memory) : outcome memory :=
  ps ← access (ports !! src); pd ← access (ports !! dst);
  if bool_decide (ps <> pd) then
    s ← access ps; d ← access pd; copy_floats m d s n
  else Done m.

Definition eq2_run (rate : Z) (state : option eq2) (ports : ports_table) (n : nat) (m : memory)
    : outcome (eq2 * memory * list location) :=
  e ← (match state with
       | Some e => Done e
       | None => eq2_params rate m ports MAX_BIQUADS_PER_EQ2 4 eq2_new
       end);
  m ← copy_port ports 2 0 n m;
  m ← copy_port ports 3 1 n m;
  l2 ← port_loc ports 2; l3 ← port_loc ports 3;
  v2 ← access (m l2); v3 ← access (m l3);
  if (n <=? length v2) && (n <=? length v3) && bool_decide (l2 <> l3) then
    let '(out, e) := eq2_process e (combine v2 v3) n in
    Done (e, mem_set (mem_set m l2 (map fst out)) l3 (map snd out), [l2; l3])
  else Fault.

(** The parameters of compressor kernel [i], eight control ports from [k]. *)
Definition drc_kernel_params (rate : Z) (m : memory) (ports : ports_table) (i k : nat) (d : drc)
    : outcome drc :=
  f ← control m ports k;
  enable ← control m ports (k + 1);
  threshold ← control m ports (k + 2);
  knee ← control m ports (k + 3);
  ratio ← control m ports (k + 4);
  attack ← control m ports (k + 5);
  release ← control m ports (k + 6);
  boost ← control m ports (k + 7);
  d ← drc_set_param d i PARAM_CROSSOVER_LOWER_FREQ (fdiv f (nyquist rate));
  d ← drc_set_param d i PARAM_ENABLED enable;
  d ← drc_set_param d i PARAM_THRESHOLD threshold;
  d ← drc_set_param d i PARAM_KNEE knee;
  d ← drc_set_param d i PARAM_RATIO ratio;
  d ← drc_set_param d i PARAM_ATTACK attack;
  d ← drc_set_param d i PARAM_RELEASE release;
  drc_set_param d i PARAM_POST_GAIN boost.

Definition drc_setup (rate : Z) (m : memory) (ports : ports_table) : outcome drc :=
  let d := drc_new (f_of_Z rate) in
  e ← control m ports 4; disabled ← access (f_to_int e);
  let d := drc_set_emphasis_disabled d disabled in
  d ← drc_kernel_params rate m ports 0 5 d;
  d ← drc_kernel_params rate m ports 1 13 d;
  d ← drc_kernel_params rate m ports 2 21 d;
  drc_init d.

Definition drc_run (rate : Z) (state : option drc) (ports : ports_table) (n : nat) (m : memory)
    : outcome (drc * memory * list location) :=
  d ← (match state with Some d => Done d | None => drc_setup rate m ports end);
  m ← copy_port ports 2 0 n m;
  m ← copy_port ports 3 1 n m;
  l2 ← port_loc ports 2; l3 ← port_loc ports 3;
  v2 ← access (m l2); v3 ← access (m l3);
  if (n <=? length v2) && (n <=? length v3) && bool_decide (l2 <> l3) then
    '(d, (o2, o3)) ← drc_process d (v2, v3) n;
    Done (d, mem_set (mem_set m l2 o2) l3 o3, [l2; l3])
  else Fault.

Definition builtin_run (b : builtin) (n : nat) (m : memory)
    : outcome (builtin * list (location * list float)) :=
  match kind b, data b with
  | KEmpty, _ => Done (b, [])
  | KInvertLr, DataPorts ports =>
      m ← invert_lr_loop ports n 0 m; Done (b, written m (omap id (drop 2 ports)))
  | KMixStereo, DataPorts ports =>
      m ← mix_stereo_loop ports n 0 m; Done (b, written m (omap id (drop 2 ports)))
  | KEq, DataEq r s ports =>
      '(e, m, l) ← eq_run r s ports n m;
      Done (Builtin KEq (DataEq r (Some e) ports), written m [l])
  | KEq2, DataEq2 r s ports =>
      '(e, m, ls) ← eq2_run r s ports n m;
      Done (Builtin KEq2 (DataEq2 r (Some e) ports), written m ls)
  | KDrc, DataDrc r s ports =>
      '(d, m, ls) ← drc_run r s ports n m;
      Done (Builtin KDrc (DataDrc r (Some d) ports), written m ls)
  | _, _ => Fault
  end.

Definition builtin_get_properties (b : builtin) : Z := 0.

(** ** cras_dsp_module_load_builtin *)

Definition kind_of_label (label : string) : builtin_kind :=
  if String.eqb label "mix_stereo" then KMixStereo
  else if String.eqb label "invert_lr" then KInvertLr
  else if String.eqb label "eq" then KEq
  else if String.eqb label "eq2" then KEq2
  else if String.eqb label "drc" then KDrc
  else KEmpty.

(** library and label are not NULL in a plugin of an ini structure. *)
Definition load_builtin (pl : plugin) : option builtin :=
  lib ← library pl;
  if negb (String.eqb lib "builtin") then None
  else l ← label pl; Some (Builtin (kind_of_label l) DataNone).

#[export] Instance builtin_modules : ModuleLib := {|
  dsp_module := builtin;
  cras_dsp_module_load_builtin := load_builtin;
  m_instantiate := builtin_instantiate;
  m_connect_port := builtin_connect_port;
  m_get_delay := builtin_get_delay;
  m_run := builtin_run;
  m_deinstantiate := builtin_deinstantiate;
  m_get_properties := builtin_get_properties
|}.
End ModBuiltin.
