(* ===== verification/PipelineBuffers.v ===== *)
(** * PipelineBuffers: the assignment of audio buffers

    allocate_buffers counts the buffers a pipeline needs and hands them out in
    the order of the instances.  When every output port feeds at most one
    input port it never leaves the array of busy flags and never gives a
    buffer that still holds data somebody will read. *)

From S2P Require Import Prelude CString Float32 Dictionary Expr ExprEval DspIni DspGraph DspUtil Pipeline PipelineRun PipelineSort PipelineTopo PipelineCreate.

(** ** Busy flags and the live outputs they stand for *)

(** [M] maps the live output ports to their buffers. *)
Record good (M : gmap (nat * nat) nat) (busy : list bool) : Prop := {
  good_busy : forall o x, M !! o = Some x -> busy !! x = Some true;
  good_inj : forall o o' x, M !! o = Some x -> M !! o' = Some x -> o = o';
  good_count : count id busy = size M
}.

Lemma good_empty n : good ∅ (replicate n false).
Proof.
  split.
  - intros o x. by rewrite lookup_empty.
  - intros o o' x. by rewrite lookup_empty.
  - by rewrite count_replicate, map_size_empty.
Qed.

Lemma good_unuse M busy o x :
  good M busy -> M !! o = Some x -> good (delete o M) (<[x := false]> busy).
Proof.
  intros [H1 H2 H3] Ho. pose proof (H1 o x Ho) as Hx. split.
  - intros o' x' Ho'. apply lookup_delete_Some in Ho' as [Hne Ho'].
    rewrite list_lookup_insert_ne; [by eapply H1|]. intros ->. apply Hne. by eapply H2.
  - intros o1 o2 x' E1 E2. apply lookup_delete_Some in E1 as [_ E1], E2 as [_ E2]. by eapply H2.
  - pose proof (count_insert id busy x false true Hx) as Hc. cbn in Hc.
    rewrite map_size_delete, Ho. cbn. lia.
Qed.

Lemma good_use M busy o x :
  good M busy -> M !! o = None -> busy !! x = Some false -> good (<[o := x]> M) (<[x := true]> busy).
Proof.
  intros [H1 H2 H3] Ho Hx.
  assert (forall o', M !! o' <> Some x) as Hnx by (intros o' Ho'; apply H1 in Ho'; congruence).
  split.
  - intros o' x' Ho'. apply lookup_insert_Some in Ho' as [[<- <-]|[Hne Ho']].
    + apply list_lookup_insert_eq. by eapply lookup_lt_Some.
    + rewrite list_lookup_insert_ne; [by eapply H1|]. intros ->. by eapply Hnx.
  - intros o1 o2 x' E1 E2.
    apply lookup_insert_Some in E1 as [[<- <-]|[_ E1]], E2 as [[<- E2]|[_ E2]];
      [done | exfalso; by eapply Hnx | subst x'; exfalso; by eapply Hnx | by eapply H2].
  - pose proof (count_insert id busy x true false Hx) as Hc. cbn in Hc.
    rewrite map_size_insert, Ho. cbn. lia.
Qed.

(** The buffers of some outputs released. *)
Definition release (os : list (nat * nat)) (M : gmap (nat * nat) nat) : gmap (nat * nat) nat :=
  fold_left (fun M o => delete o M) os M.

Lemma release_out os M o : o ∉ os -> release os M !! o = M !! o.
Proof.
  revert M. induction os as [|o' os IH]; intros M Ho; [done|]. cbn.
  apply not_elem_of_cons in Ho as [Hne Ho]. fold (release os (delete o' M)). rewrite IH by done.
  by apply lookup_delete_ne.
Qed.

Lemma release_in os M o : o ∈ os -> release os M !! o = None.
Proof.
  revert M. induction os as [|o' os IH]; intros M Ho; [inversion Ho|]. cbn.
  fold (release os (delete o' M)).
  destruct (decide (o ∈ os)) as [Hin|Hnin]; [by apply IH|].
  apply elem_of_cons in Ho as [->|?]; [|done].
  rewrite release_out by done. apply lookup_delete_eq.
Qed.

Lemma release_Some os M o x : release os M !! o = Some x <-> o ∉ os /\ M !! o = Some x.
Proof.
  destruct (decide (o ∈ os)) as [Hin|Hnin].
  - rewrite release_in by done. split; [done | tauto].
  - rewrite release_out by done. tauto.
Qed.

(** unuse_buffers releases the outputs the collected inputs come from. *)
Lemma unuse_buffers_spec M busy ps os :
  good M busy -> Forall2 (fun p o => M !! o = Some (a_buf_index p)) ps os -> NoDup os ->
  exists busy', unuse_buffers busy ps = Done busy' /\ good (release os M) busy' /\
    length busy' = length busy /\ size (release os M) + length os = size M.
Proof.
  intros Hg H2. revert M busy Hg H2. induction ps as [|p ps IH] in os |- *; intros M busy Hg H2 Hnd.
  { inversion H2; subst. exists busy. cbn. split_and!; [done | done | done | lia]. }
  inversion H2 as [|? o ? os' Ho H2']; subst. apply list.NoDup_cons in Hnd as [Hn Hnd].
  pose proof (good_busy _ _ Hg _ _ Ho) as Hb. cbn [unuse_buffers].
  rewrite (proj2 (Nat.ltb_lt _ _) (lookup_lt_Some _ _ _ Hb)).
  destruct (IH os' (delete o M) (<[a_buf_index p:=false]> busy)) as (busy' & E & Hg' & Hl & Hs).
  - by apply good_unuse.
  - clear -H2' Hn. revert Hn. induction H2' as [|p' o' ps os' Ho' _ IH]; intros Hn; constructor.
    + rewrite lookup_delete_ne; [done|]. intros ->. apply Hn. by left.
    + apply IH. intros Hin. apply Hn. by right.
  - done.
  - exists busy'. cbn [release fold_left]. fold (release os' (delete o M)).
    rewrite length_insert in Hl. split_and!; [done | done | done|].
    rewrite map_size_delete, Ho in Hs. cbn in *.
    assert (size M <> 0) by (apply map_size_non_empty_iff; intros ->; by rewrite lookup_empty in Ho).
    lia.
Qed.

(** The first flag that is clear. *)
Lemma first_free_Some busy k i :
  first_free busy k = Some i ->
  exists b, i = k + b /\ busy !! b = Some false /\ forall j, j < b -> busy !! j = Some true.
Proof.
  revert k. induction busy as [|f busy IH]; intros k; cbn; [done|]. destruct f.
  - intros Hf. destruct (IH (S k) Hf) as (b & -> & Hb & Hj). exists (S b).
    split_and!; [lia | done|]. intros [|j] Hlt; [done | apply Hj; lia].
  - intros [= <-]. exists 0. split_and!; [lia | done | lia].
Qed.

Lemma first_free_None busy k : first_free busy k = None -> forall b, b ∈ busy -> b = true.
Proof.
  revert k. induction busy as [|f busy IH]; intros k Hf b Hb; [inversion Hb|]. cbn in Hf.
  destruct f; [|done]. apply elem_of_cons in Hb as [->|Hb]; [done | by eapply IH].
Qed.

(** The buffers taken by some outputs. *)
Fixpoint acquire (os : list (nat * nat)) (xs : list nat) (M : gmap (nat * nat) nat)
    : gmap (nat * nat) nat :=
  match os, xs with
  | o :: os, x :: xs => acquire os xs (<[o := x]> M)
  | _, _ => M
  end.

Lemma acquire_old os xs M o : o ∉ os -> acquire os xs M !! o = M !! o.
Proof.
  revert xs M. induction os as [|o' os IH]; intros [|x xs] M Ho; cbn; try done.
  apply not_elem_of_cons in Ho as [Hne Ho]. rewrite IH by done. by rewrite lookup_insert_ne.
Qed.

Lemma acquire_new os xs M i o x :
  NoDup os -> os !! i = Some o -> xs !! i = Some x -> acquire os xs M !! o = Some x.
Proof.
  revert xs M i. induction os as [|o' os IH]; intros [|x' xs] M i Hnd Ho Hx; try done.
  apply list.NoDup_cons in Hnd as [Hn Hnd]. cbn. destruct i as [|i]; cbn in Ho, Hx.
  - injection Ho as ->. injection Hx as ->. rewrite acquire_old by done. apply lookup_insert_eq.
  - by eapply IH.
Qed.

(** use_buffers gives each port a clear flag and sets it. *)
Lemma use_buffers_spec M busy k ps os :
  good M busy -> length os = length ps -> NoDup os -> (forall o, o ∈ os -> M !! o = None) ->
  size M + length ps <= length busy -> (forall j, j < k -> j < length busy -> busy !! j = Some true) ->
  exists busy' xs, use_buffers busy k ps = Done (busy', zip_with set_buf xs ps) /\
    length xs = length ps /\ good (acquire os xs M) busy' /\ length busy' = length busy /\
    size (acquire os xs M) = size M + length ps /\
    Forall (fun x => busy !! x = Some false) xs.
Proof.
  revert M busy k os. induction ps as [|p ps IH]; intros M busy k os Hg Hl Hnd Hnew Hs Hk; cbn [use_buffers].
  { destruct os; [|done]. exists busy, []. cbn. split_and!; try done; lia. }
  destruct os as [|o os]; [done|]. apply list.NoDup_cons in Hnd as [Hn Hnd]. cbn in Hl, Hs.
  destruct (count_lt id busy) as (i & b & Hi & Hb); [rewrite (good_count _ _ Hg); lia|].
  cbn in Hb. subst b.
  destruct (first_free (drop k busy) k) as [x|] eqn:Ef.
  2:{ exfalso. assert (k <= i) as Hki.
      { destruct (decide (k <= i)); [done|]. rewrite Hk in Hi; [done | lia | by eapply lookup_lt_Some]. }
      assert (drop k busy !! (i - k) = Some false) as Hd.
      { rewrite lookup_drop. by replace (k + (i - k)) with i by lia. }
      pose proof (first_free_None _ _ Ef false (list_elem_of_lookup_2 _ _ _ Hd)). done. }
  cbn [access]. rewrite bind_Done_eq.
  apply first_free_Some in Ef as (b & -> & Hx & Hj). rewrite lookup_drop in Hx.
  destruct (IH (<[o := k + b]> M) (<[k + b := true]> busy) (k + b) os) as (busy' & xs & E & Hlx & Hg' & Hl' & Hs' & HF).
  - apply good_use; [done | apply Hnew; by left | done].
  - lia.
  - done.
  - intros o' Ho'. rewrite lookup_insert_ne; [apply Hnew; by right|]. by intros ->.
  - rewrite length_insert, map_size_insert, Hnew by (by left). cbn. lia.
  - intros j Hjk Hjl. rewrite length_insert in Hjl. rewrite list_lookup_insert_ne by lia.
    destruct (decide (j < k)); [by apply Hk|].
    specialize (Hj (j - k) ltac:(lia)). rewrite lookup_drop in Hj.
    by replace (k + (j - k)) with j in Hj by lia.
  - rewrite E, bind_Done_eq. exists busy', ((k + b) :: xs). cbn [acquire zip_with].
    rewrite length_insert in Hl'. rewrite map_size_insert, Hnew in Hs' by (by left). cbn in Hs'.
    split_and!; [done | cbn; lia | done | done | cbn; lia|]. constructor; [done|].
    apply Forall_lookup_2. intros i' x' Hx'. pose proof (Forall_lookup_1 _ _ _ _ HF Hx') as Hf. cbn in Hf.
    destruct (decide (x' = k + b)) as [->|Hne]; [|by rewrite list_lookup_insert_ne in Hf].
    rewrite list_lookup_insert_eq in Hf by (by eapply lookup_lt_Some). done.
Qed.

(** The lookups after some outputs took their buffers. *)
Lemma acquire_Some os xs M o x :
  NoDup os -> length os = length xs -> (forall o, o ∈ os -> M !! o = None) ->
  (acquire os xs M !! o = Some x <-> M !! o = Some x \/ exists k, os !! k = Some o /\ xs !! k = Some x).
Proof.
  intros Hnd Hl Hnew. destruct (decide (o ∈ os)) as [Ho|Ho].
  - apply list_elem_of_lookup in Ho as [k Hk].
    destruct (lookup_lt_is_Some_2 xs k) as [y Hy]; [rewrite <- Hl; by eapply lookup_lt_Some|].
    rewrite (acquire_new _ _ _ _ _ _ Hnd Hk Hy). split; [intros [= <-]; right; eauto|].
    intros [Hm|(k' & Hk' & Hy')]; [by rewrite Hnew in Hm; [|by eapply list_elem_of_lookup_2]|].
    pose proof (NoDup_lookup _ _ _ _ Hnd Hk Hk') as ->. congruence.
  - rewrite acquire_old by done. split; [tauto|]. intros [Hm|(k & Hk & _)]; [done|].
    exfalso. by eapply Ho, list_elem_of_lookup_2.
Qed.

Lemma release_acquire os own xs M :
  NoDup own -> length own = length xs -> (forall o, o ∈ own -> M !! o = None) ->
  (forall o, o ∈ os -> o ∉ own) -> release os (acquire own xs M) = acquire own xs (release os M).
Proof.
  intros Hnd Hl Hnew Hd. apply map_eq. intros o. apply option_eq. intros x.
  assert (forall o, o ∈ own -> release os M !! o = None) as Hnew'.
  { intros o' Ho'. destruct (decide (o' ∈ os)); [by apply release_in | rewrite release_out; auto]. }
  rewrite release_Some, !acquire_Some, release_Some by done. split; [tauto|].
  intros [[Hx Hm]|(k & Hk & Hx)]; [tauto|]. split; [|eauto].
  intros Hin. apply (Hd o Hin). by eapply list_elem_of_lookup_2.
Qed.

(** One turn: the inputs release the buffers of the outputs [os], the outputs
    [own] take theirs, in the order the module asks for. *)
Lemma turn_spec (broken : bool) M busy ins os outs own :
  good M busy -> Forall2 (fun p o => M !! o = Some (a_buf_index p)) ins os -> NoDup os ->
  length own = length outs -> NoDup own -> (forall o, o ∈ own -> M !! o = None) ->
  size M + length outs <= length busy + (if broken then 0 else length os) ->
  exists busy' xs,
    (if broken then
       '(busy, outs) ← use_buffers busy 0 outs; busy ← unuse_buffers busy ins; Done (busy, outs)
     else busy ← unuse_buffers busy ins; use_buffers busy 0 outs)
    = Done (busy', zip_with set_buf xs outs) /\
    length xs = length outs /\ good (acquire own xs (release os M)) busy' /\
    length busy' = length busy /\
    size (acquire own xs (release os M)) + length os = size M + length outs /\
    (forall x, x ∈ xs -> x < length busy /\ (forall o, release os M !! o <> Some x) /\
       (broken = true -> forall o, M !! o <> Some x)).
Proof.
  intros Hg HF Hnd Hl Hndo Hnew Hs.
  assert (forall o, o ∈ os -> o ∉ own) as Hd.
  { intros o Ho Ho'. apply list_elem_of_lookup in Ho as [k Hk].
    destruct (Forall2_lookup_r _ _ _ _ _ HF Hk) as (p & _ & Hp). by rewrite Hnew in Hp. }
  destruct broken; [rewrite Nat.add_0_r in Hs|].
  - destruct (use_buffers_spec M busy 0 outs own) as (b1 & xs & -> & Hlx & Hg1 & Hl1 & Hs1 & HF1);
      try done; [intros; lia|].
    rewrite bind_Done_eq.
    destruct (unuse_buffers_spec (acquire own xs M) b1 ins os) as (b2 & -> & Hg2 & Hl2 & Hs2); try done.
    { clear -HF Hd. revert Hd. induction HF as [|p o ins os Hp _ IH]; intros Hd; constructor.
      - rewrite acquire_old; [done | apply Hd; by left].
      - apply IH. intros o' Ho'. apply Hd. by right. }
    rewrite bind_Done_eq. rewrite release_acquire in Hg2, Hs2 by (try done; lia).
    exists b2, xs. split_and!; [done | lia | done | lia | lia|]. intros x Hx.
    rewrite Forall_forall in HF1. apply list_elem_of_In, HF1 in Hx. split; [by eapply lookup_lt_Some|].
    assert (forall o, M !! o <> Some x) as Hm by (intros o Ho; apply (good_busy _ _ Hg) in Ho; congruence).
    split; [|done]. intros o Ho. apply release_Some in Ho as [_ Ho]. by eapply Hm.
  - destruct (unuse_buffers_spec M busy ins os) as (b1 & -> & Hg1 & Hl1 & Hs1); try done.
    rewrite bind_Done_eq.
    destruct (use_buffers_spec (release os M) b1 0 outs own) as (b2 & xs & -> & Hlx & Hg2 & Hl2 & Hs2 & HF2);
      try done; [|lia|lia|].
    { intros o Ho. rewrite release_out; [auto|]. intros Hin. by apply (Hd o). }
    exists b2, xs. split_and!; [done | lia | done | lia | lia|]. intros x Hx.
    rewrite Forall_forall in HF2. apply list_elem_of_In, HF2 in Hx.
    split; [rewrite <- Hl1; by eapply lookup_lt_Some|]. split; [|done].
    intros o Ho. apply (good_busy _ _ Hg1) in Ho. congruence.
Qed.

Section Assign.
Context `{ModuleLib}.

(** ** What the assignment of buffers leaves alone *)

(** An instance without its buffer indices. *)
Definition unassigned (inst : instance) : instance :=
  set_output_audio (map (set_buf 0)) (set_input_audio (map (set_buf 0)) inst).

(** The output ports an instance reads from. *)
Definition peers (inst : instance) : list (nat * nat) := omap a_peer (input_audio_ports inst).

(** The buffer of output port [o]. *)
Definition buf_at (insts : list instance) (o : nat * nat) : option nat :=
  inst ← insts !! o.1; q ← output_audio_ports inst !! o.2; Some (a_buf_index q).

(** Every audio input port of an instance is connected to an output port of an
    earlier instance. *)
Definition wired (insts : list instance) : Prop :=
  forall i inst p, insts !! i = Some inst -> p ∈ input_audio_ports inst ->
    exists o, a_peer p = Some o /\ o.1 < i /\ is_Some (buf_at insts o).

(** Every output port is connected to one input port at most. *)
Definition fan_out_free (insts : list instance) : Prop := NoDup (insts ≫= peers).

(** The outputs read by the first [i] instances. *)
Definition consumed (insts : list instance) (i : nat) : list (nat * nat) := take i insts ≫= peers.

(** Input port [p] of the instance at [j] has the buffer of its peer, and no
    output port written between them, nor at [j] itself when that cannot work
    in place, has the same. *)
Definition input_ok (insts : list instance) (j : nat) (inst : instance) (p : audio_port) : Prop :=
  exists o, a_peer p = Some o /\ buf_at insts o = Some (a_buf_index p) /\
    forall o', o' <> o -> o.1 <= o'.1 -> o'.1 < j \/ (o'.1 = j /\ inplace_broken inst = true) ->
    buf_at insts o' <> Some (a_buf_index p).

Lemma unassigned_peers inst inst' : unassigned inst = unassigned inst' -> peers inst = peers inst'.
Proof.
  intros E. assert (forall x, peers x = peers (unassigned x)) as Hp.
  { intros x. unfold peers. cbn. by induction (input_audio_ports x) as [|q l IH]; cbn; [|rewrite IH]. }
  by rewrite Hp, E, <- Hp.
Qed.

Lemma unassigned_props inst inst' :
  unassigned inst = unassigned inst' -> inplace_broken inst = inplace_broken inst' /\
    length (input_audio_ports inst) = length (input_audio_ports inst') /\
    length (output_audio_ports inst) = length (output_audio_ports inst').
Proof.
  intros E. unfold inplace_broken. split; [by injection E as ? ? ? ? ? ? ? -> | split].
  - apply (f_equal (fun x => length (input_audio_ports x))) in E. cbn in E. by rewrite !length_map in E.
  - apply (f_equal (fun x => length (output_audio_ports x))) in E. cbn in E. by rewrite !length_map in E.
Qed.

Lemma unassigned_lookup insts orig i inst :
  map unassigned insts = map unassigned orig -> orig !! i = Some inst ->
  exists inst', insts !! i = Some inst' /\ unassigned inst' = unassigned inst.
Proof.
  intros E Hi. assert (map unassigned insts !! i = Some (unassigned inst)) as Hm.
  { rewrite E. change (map unassigned orig) with (unassigned <$> orig). by rewrite list_lookup_fmap, Hi. }
  change (map unassigned insts) with (unassigned <$> insts) in Hm.
  apply list_lookup_fmap_Some in Hm as (x & Hx & Hi'). by exists x.
Qed.

Lemma set_buf_twice b b' p : set_buf b (set_buf b' p) = set_buf b p.
Proof. done. Qed.

Lemma unassigned_set inst ins outs :
  map (set_buf 0) ins = map (set_buf 0) (input_audio_ports inst) ->
  map (set_buf 0) outs = map (set_buf 0) (output_audio_ports inst) ->
  unassigned (set_output_audio (fun _ => outs) (set_input_audio (fun _ => ins) inst)) = unassigned inst.
Proof. intros E1 E2. unfold unassigned, set_output_audio, set_input_audio. cbn. by rewrite E1, E2. Qed.

Lemma map_unassigned_insert insts i inst inst' :
  insts !! i = Some inst -> unassigned inst' = unassigned inst ->
  map unassigned (<[i := inst']> insts) = map unassigned insts.
Proof.
  intros Hi E. change (map unassigned) with (fmap (M := list) unassigned).
  rewrite list_fmap_insert, E. apply list_insert_id. by rewrite list_lookup_fmap, Hi.
Qed.

Lemma consumed_S insts i inst :
  insts !! i = Some inst -> consumed insts (S i) = consumed insts i ++ peers inst.
Proof.
  intros Hi. unfold consumed. rewrite (take_S_r _ _ _ Hi), bind_app. cbn. by rewrite app_nil_r.
Qed.

Lemma fan_out_free_peers insts i inst :
  fan_out_free insts -> insts !! i = Some inst ->
  NoDup (peers inst) /\ forall o, o ∈ peers inst -> o ∉ consumed insts i.
Proof.
  intros Hf Hi. unfold fan_out_free in Hf. rewrite <- (take_drop i insts) in Hf.
  rewrite (drop_S _ _ _ Hi), bind_app in Hf. cbn in Hf.
  apply list.NoDup_app in Hf as (_ & Hd & Hf). apply list.NoDup_app in Hf as (Hn & _ & _).
  split; [done|]. intros o Ho Hc. by apply (Hd o Hc), elem_of_app; left.
Qed.

(** The buffers of the input ports are those of their peers. *)
Lemma collect_buffers_spec insts ps :
  (forall p, p ∈ ps -> exists o, a_peer p = Some o /\ is_Some (buf_at insts o)) ->
  exists ps', collect_buffers insts ps = Done ps' /\ map (set_buf 0) ps' = map (set_buf 0) ps /\
    Forall2 (fun p o => a_peer p = Some o /\ buf_at insts o = Some (a_buf_index p)) ps'
      (omap a_peer ps).
Proof.
  induction ps as [|p ps IH]; intros Hp; cbn [collect_buffers].
  { exists []. split_and!; [done | done | constructor]. }
  destruct (Hp p) as (o & Ho & [x Hx]); [by left|].
  destruct IH as (ps' & E & Hm & HF); [intros q Hq; apply Hp; by right|].
  exists (set_buf x p :: ps'). unfold collect_buffer. rewrite Ho. cbn [access]. rewrite bind_Done_eq.
  unfold buf_at in Hx. destruct (insts !! o.1) as [up|] eqn:Eu; cbn in Hx; [|done].
  destruct (output_audio_ports up !! o.2) as [q|] eqn:Eq; cbn in Hx; [|done].
  injection Hx as <-. cbn [access]. rewrite !bind_Done_eq, Eq. cbn [access].
  rewrite !bind_Done_eq, E, bind_Done_eq. cbn [map omap list_omap]. rewrite Ho, Hm.
  split_and!; [done | done|]. constructor; [|done]. split; [done|]. unfold buf_at. by rewrite Eu; cbn; rewrite Eq.
Qed.

(** The state of the loop when the first [i] instances have their buffers. *)
Record assigned (orig : list instance) (i : nat) (insts : list instance) (busy : list bool)
    (M : gmap (nat * nat) nat) : Prop := {
  as_same : map unassigned insts = map unassigned orig;
  as_good : good M busy;
  as_live : forall o x, M !! o = Some x <->
    o.1 < i /\ o ∉ consumed orig i /\ buf_at insts o = Some x;
  as_apart : forall o x, M !! o = Some x -> forall o', o' <> o -> o.1 <= o'.1 -> o'.1 < i ->
    buf_at insts o' <> Some x;
  as_inputs : forall j inst p, j < i -> insts !! j = Some inst -> p ∈ input_audio_ports inst ->
    input_ok insts j inst p;
  as_range : forall o x, o.1 < i -> buf_at insts o = Some x -> x < length busy
}.

Lemma assigned_start orig n : assigned orig 0 orig (replicate n false) ∅.
Proof.
  split; [done | apply good_empty | | | lia | lia].
  - intros o x. rewrite lookup_empty. split; [done | lia].
  - intros o x. by rewrite lookup_empty.
Qed.

(** The buffers of instance [i] replaced. *)
Lemma buf_at_insert insts i inst inst' o :
  insts !! i = Some inst ->
  buf_at (<[i := inst']> insts) o =
  if decide (o.1 = i) then a_buf_index <$> output_audio_ports inst' !! o.2 else buf_at insts o.
Proof.
  intros Hi. unfold buf_at. case_decide as E.
  - rewrite E, list_lookup_insert_eq by (by eapply lookup_lt_Some). cbn.
    by destruct (output_audio_ports inst' !! o.2).
  - by rewrite list_lookup_insert_ne.
Qed.

Lemma buf_at_same insts orig o :
  map unassigned insts = map unassigned orig -> is_Some (buf_at orig o) -> is_Some (buf_at insts o).
Proof.
  intros E [x Hx]. unfold buf_at in *. destruct (orig !! o.1) as [inst|] eqn:Ei; cbn in Hx; [|done].
  destruct (unassigned_lookup _ _ _ _ E Ei) as (inst' & Hi' & Eu). rewrite Hi'. cbn.
  destruct (output_audio_ports inst !! o.2) as [q|] eqn:Eq; cbn in Hx; [|done].
  destruct (lookup_lt_is_Some_2 (output_audio_ports inst') o.2) as [q' Hq'].
  { destruct (unassigned_props _ _ Eu) as (_ & _ & ->). by eapply lookup_lt_Some. }
  by rewrite Hq'.
Qed.

Definition own_outputs (i n : nat) : list (nat * nat) := pair i <$> seq 0 n.

Lemma own_outputs_NoDup i n : NoDup (own_outputs i n).
Proof. apply NoDup_fmap_2; [by intros ? ? [=] | apply NoDup_seq]. Qed.

Lemma elem_of_own_outputs i n o : o ∈ own_outputs i n <-> o.1 = i /\ o.2 < n.
Proof.
  unfold own_outputs. rewrite list_elem_of_fmap. split.
  - intros (k & -> & Hk). rewrite elem_of_seq in Hk. cbn. lia.
  - intros [<- Hk]. exists o.2. split; [by destruct o | rewrite elem_of_seq; lia].
Qed.

Lemma own_outputs_lookup i n k o : own_outputs i n !! k = Some o <-> o = (i, k) /\ k < n.
Proof.
  unfold own_outputs. rewrite list_lookup_fmap_Some. split.
  - intros (k' & -> & Hk). by apply lookup_seq in Hk as [-> Hk].
  - intros [-> Hk]. exists k. split; [done|]. by apply lookup_seq.
Qed.

Lemma wired_peers insts i inst o : wired insts -> insts !! i = Some inst -> o ∈ peers inst -> o.1 < i.
Proof.
  intros W Hi Ho. apply list_elem_of_omap in Ho as (p & Hp & Ho).
  destruct (W i inst p Hi Hp) as (o' & Ho' & Hlt & _). congruence.
Qed.

Lemma wired_consumed insts i o : wired insts -> o ∈ consumed insts i -> o.1 < i.
Proof.
  intros W Ho. apply list_elem_of_bind in Ho as (inst & Ho & Hin).
  apply list_elem_of_lookup in Hin as [j Hj]. apply lookup_take_Some in Hj as [Hj Hji].
  pose proof (wired_peers _ _ _ _ W Hj Ho). lia.
Qed.

(** The live outputs after turn [i]. *)
Lemma live_next orig i insts M inst xs inst' outs inst2 :
  (forall o x, M !! o = Some x <-> o.1 < i /\ o ∉ consumed orig i /\ buf_at insts o = Some x) ->
  wired orig -> orig !! i = Some inst -> insts !! i = Some inst' -> length xs = length outs ->
  output_audio_ports inst2 = zip_with set_buf xs outs ->
  forall o x, acquire (own_outputs i (length outs)) xs (release (peers inst) M) !! o = Some x <->
    o.1 < S i /\ o ∉ consumed orig (S i) /\ buf_at (<[i := inst2]> insts) o = Some x.
Proof.
  intros Hlive W Hi Hi' Hlx Houts o x.
  rewrite acquire_Some, release_Some; [|apply own_outputs_NoDup | |].
  2:{ unfold own_outputs. rewrite length_fmap, length_seq. lia. }
  2:{ intros o' Ho'. apply elem_of_own_outputs in Ho' as [E _].
      destruct (release (peers inst) M !! o') as [y|] eqn:Er; [|done].
      apply release_Some in Er as [_ Er]. apply Hlive in Er as [Hlt _]. lia. }
  rewrite (buf_at_insert _ _ _ _ _ Hi'), (consumed_S _ _ _ Hi), not_elem_of_app, Hlive.
  setoid_rewrite own_outputs_lookup. case_decide as E.
  - rewrite Houts, lookup_zip_with.
    assert (o ∉ consumed orig i) by (intros Hc; apply (wired_consumed _ _ _ W) in Hc; lia).
    assert (o ∉ peers inst) by (intros Hc; apply (wired_peers _ _ _ _ W Hi) in Hc; lia).
    split.
    + intros [(? & ? & ?)|(k & [-> Hk] & Hx)]; [lia|]. split_and!; [lia | done | done|].
      cbn. rewrite Hx. cbn. by destruct (lookup_lt_is_Some_2 outs k Hk) as [q ->].
    + intros (_ & _ & Hx). right. exists o.2.
      destruct (xs !! o.2) as [y|] eqn:Ey; cbn in Hx; [|done].
      destruct (outs !! o.2) eqn:Eo; cbn in Hx; [|done]. injection Hx as <-.
      split_and!; [by destruct o; cbn in E; subst | by eapply lookup_lt_Some | done].
  - split; [|intuition lia]. intros [?|(k & [-> _] & _)]; [intuition lia | done].
Qed.

Lemma peers_length insts i inst :
  wired insts -> insts !! i = Some inst -> length (peers inst) = length (input_audio_ports inst).
Proof.
  intros W Hi. assert (forall p, p ∈ input_audio_ports inst -> is_Some (a_peer p)) as Hp.
  { intros p Hp. destruct (W i inst p Hi Hp) as (o & -> & _). by eexists. }
  unfold peers. induction (input_audio_ports inst) as [|p l IH]; cbn; [done|].
  destruct (Hp p) as [o Ho]; [by left|]. rewrite Ho. cbn. rewrite IH; [done|].
  intros q Hq. apply Hp. by right.
Qed.

(** Input ports that already have their buffers keep them. *)
Lemma input_ok_insert insts i inst inst2 j x p :
  insts !! i = Some inst -> j < i -> (forall o, a_peer p = Some o -> o.1 < j) ->
  input_ok insts j x p -> input_ok (<[i := inst2]> insts) j x p.
Proof.
  intros Hi Hj Hp (o & Ho & Hb & Ha). exists o. specialize (Hp o Ho).
  rewrite (buf_at_insert _ _ _ _ _ Hi), decide_False by lia. split_and!; [done | done|].
  intros o' Hne Hle Hlt. rewrite (buf_at_insert _ _ _ _ _ Hi), decide_False by lia. by apply Ha.
Qed.

(** The input ports of instance [i] itself. *)
Lemma input_ok_new orig i insts busy M inst ins outs xs inst2 :
  assigned orig i insts busy M -> insts !! i = Some inst ->
  Forall2 (fun p o => a_peer p = Some o /\ buf_at insts o = Some (a_buf_index p)) ins (peers inst) ->
  (forall o, o ∈ peers inst -> o.1 < i /\ o ∉ consumed orig i) ->
  output_audio_ports inst2 = zip_with set_buf xs outs ->
  (inplace_broken inst2 = true -> forall x o, x ∈ xs -> M !! o <> Some x) ->
  forall p, p ∈ ins -> input_ok (<[i := inst2]> insts) i inst2 p.
Proof.
  intros A Hi HF Hpe Houts Hxs p Hp. apply list_elem_of_lookup in Hp as [k Hk].
  destruct (Forall2_lookup_l _ _ _ _ _ HF Hk) as (o & Ho & Hpo & Hb).
  destruct (Hpe o (list_elem_of_lookup_2 _ _ _ Ho)) as [Hlt Hc].
  assert (M !! o = Some (a_buf_index p)) as Hm by (apply (as_live _ _ _ _ _ A); done).
  exists o. rewrite (buf_at_insert _ _ _ _ _ Hi), decide_False by lia. split_and!; [done | done|].
  intros o' Hne Hle Hcase. rewrite (buf_at_insert _ _ _ _ _ Hi). case_decide as E.
  - destruct Hcase as [?|[_ Hbr]]; [lia|]. rewrite Houts, lookup_zip_with.
    destruct (xs !! o'.2) as [x|] eqn:Ex; cbn; [|done]. destruct (outs !! o'.2); cbn; [|done].
    intros [= Heq]. rewrite Heq in Ex. by eapply (Hxs Hbr), Hm; eapply list_elem_of_lookup_2.
  - apply (as_apart _ _ _ _ _ A o); [done | done | done | lia].
Qed.

(** The outputs that are live after turn [i] are apart. *)
Lemma apart_next orig i insts busy M inst inst' inst2 M' busy' :
  assigned orig i insts busy M -> wired orig -> orig !! i = Some inst -> insts !! i = Some inst' ->
  (forall o x, M' !! o = Some x <->
    o.1 < S i /\ o ∉ consumed orig (S i) /\ buf_at (<[i := inst2]> insts) o = Some x) ->
  good M' busy' ->
  forall o x, M' !! o = Some x -> forall o', o' <> o -> o.1 <= o'.1 -> o'.1 < S i ->
    buf_at (<[i := inst2]> insts) o' <> Some x.
Proof.
  intros A W Hi Hi' Hlive Hg o x Hox o' Hne Hle Hlt Hb. rewrite (consumed_S _ _ _ Hi) in Hlive.
  destruct (decide (o'.1 = i)) as [Ei|Ei].
  { apply Hne. eapply (good_inj _ _ Hg); [|done]. apply Hlive. split_and!; [lia | | done].
    rewrite not_elem_of_app. split; intros Hc;
      [apply (wired_consumed _ _ _ W) in Hc; lia | apply (wired_peers _ _ _ _ W Hi) in Hc; lia]. }
  rewrite (buf_at_insert _ _ _ _ _ Hi'), decide_False in Hb by done.
  apply (as_apart _ _ _ _ _ A o x) in Hb; [done | | done | done | lia].
  apply (as_live _ _ _ _ _ A). apply Hlive in Hox as (_ & Ho2 & Ho3).
  rewrite not_elem_of_app in Ho2. rewrite (buf_at_insert _ _ _ _ _ Hi'), decide_False in Ho3 by lia.
  split_and!; [lia | tauto | done].
Qed.

Lemma set_buf_zip xs outs :
  length xs = length outs -> map (set_buf 0) (zip_with set_buf xs outs) = map (set_buf 0) outs.
Proof.
  revert xs. induction outs as [|p outs IH]; intros [|x xs] Hl; cbn in *; try done.
  by rewrite IH by lia.
Qed.

Lemma wired_same orig insts : map unassigned insts = map unassigned orig -> wired orig -> wired insts.
Proof.
  intros E W i inst' p Hi' Hp. destruct (unassigned_lookup _ _ _ _ (eq_sym E) Hi') as (inst & Hi & Eu).
  assert (set_buf 0 p ∈ map (set_buf 0) (input_audio_ports inst)) as Hp'.
  { apply (f_equal input_audio_ports) in Eu. cbn in Eu. rewrite Eu. by apply list_elem_of_fmap_2. }
  apply list_elem_of_fmap in Hp' as (q & Hq & Hqi). destruct (W i inst q Hi Hqi) as (o & Ho & Hlt & Hb).
  exists o. split_and!; [|done | by eapply buf_at_same].
  rewrite <- Ho. by apply (f_equal a_peer) in Hq.
Qed.

(** The turn for instance [i]. *)
Lemma assigned_step orig i insts busy M inst :
  assigned orig i insts busy M -> wired orig -> fan_out_free orig -> orig !! i = Some inst ->
  size M + length (output_audio_ports inst) <=
    length busy + (if inplace_broken inst then 0 else length (input_audio_ports inst)) ->
  exists insts' busy' M', assign_buffers i insts busy = Done (insts', busy') /\
    assigned orig (S i) insts' busy' M' /\ length busy' = length busy /\
    size M' + length (input_audio_ports inst) = size M + length (output_audio_ports inst).
Proof.
  intros A W Hff Hi Hs. destruct (unassigned_lookup _ _ _ _ (as_same _ _ _ _ _ A) Hi) as (inst' & Hi' & Eu).
  pose proof (wired_same _ _ (as_same _ _ _ _ _ A) W) as W'.
  pose proof (unassigned_peers _ _ Eu) as Ep. destruct (unassigned_props _ _ Eu) as (Ebr & Eli & Elo).
  destruct (fan_out_free_peers _ _ _ Hff Hi) as [Hnd Hnc].
  destruct (collect_buffers_spec insts (input_audio_ports inst')) as (ins & Ec & Emi & HF);
    [intros p Hp; destruct (W' i inst' p Hi' Hp) as (o & ? & _ & ?); by exists o|].
  fold (peers inst') in HF. rewrite Ep in HF. set (outs := output_audio_ports inst') in *.
  destruct (turn_spec (inplace_broken inst') M busy ins (peers inst) outs (own_outputs i (length outs)))
    as (busy' & xs & Et & Hlx & Hg' & Hlb & Hsz & Hxs); try done.
  - apply A.
  - apply Forall2_same_length_lookup. split; [by eapply Forall2_length|]. intros k p o Hp Ho.
    destruct (Forall2_lookup_lr _ _ _ _ _ _ HF Hp Ho) as [_ Hb].
    apply list_elem_of_lookup_2 in Ho. apply (as_live _ _ _ _ _ A).
    split_and!; [by apply (wired_peers _ _ _ _ W Hi) | by apply Hnc | done].
  - unfold own_outputs. by rewrite length_fmap, length_seq.
  - apply own_outputs_NoDup.
  - intros o Ho. apply elem_of_own_outputs in Ho as [E _]. destruct (M !! o) as [x|] eqn:Ex; [|done].
    apply (as_live _ _ _ _ _ A) in Ex as [Hlt _]. lia.
  - by rewrite (peers_length _ _ _ W Hi), Ebr, Elo.
  - set (inst2 := set_output_audio (fun _ => zip_with set_buf xs outs) (set_input_audio (fun _ => ins) inst')).
    pose proof (live_next orig i insts M inst xs inst' outs inst2 (as_live _ _ _ _ _ A) W Hi Hi' Hlx eq_refl)
      as Hlive.
    exists (<[i := inst2]> insts), busy', (acquire (own_outputs i (length outs)) xs (release (peers inst) M)).
    unfold assign_buffers. rewrite Hi'. cbn [access]. rewrite bind_Done_eq, Ec, bind_Done_eq.
    fold outs. rewrite Et, bind_Done_eq. rewrite (peers_length _ _ _ W Hi), <- Elo in *.
    split_and!; [done | | done | done]. split; [ | done | done | | | ].
    + rewrite (map_unassigned_insert _ _ _ _ Hi'), (as_same _ _ _ _ _ A); [done|].
      apply unassigned_set; [done | by apply set_buf_zip].
    + by eapply apart_next.
    + intros j instj p Hj Hinst Hp. apply list_lookup_insert_Some in Hinst as [(<- & <- & _)|[Hne Hinst]].
      * eapply (input_ok_new orig); [done | done | by rewrite Ep | | done | | done].
        -- rewrite Ep. intros o Ho. split; [by apply (wired_peers _ _ _ _ W Hi) | by apply Hnc].
        -- intros Hb x o Hx. by apply Hxs.
      * eapply input_ok_insert; [done | lia | | eapply (as_inputs _ _ _ _ _ A); [lia|done|done]].
        intros o Ho. destruct (W' j instj p Hinst Hp) as (o' & Ho' & Hlt & _). congruence.
    + intros o x Ho. rewrite (buf_at_insert _ _ _ _ _ Hi'), Hlb. case_decide as E.
      * cbn. rewrite lookup_zip_with. destruct (xs !! o.2) as [y|] eqn:Ey; cbn; [|done].
        destruct (outs !! o.2); cbn; [|done]. intros [= <-]. by eapply Hxs, list_elem_of_lookup_2.
      * intros Hb. apply (as_range _ _ _ _ _ A o); [lia | done].
Qed.

(** ** The count of buffers is enough *)

Lemma count_buffers_ge insts nb pk : (pk <= count_buffers insts nb pk)%Z.
Proof.
  revert nb pk. induction insts as [|inst insts IH]; intros nb pk; cbn [count_buffers]; [lia|].
  destruct (inplace_broken inst);
    (etrans; [|apply IH]); lia.
Qed.

Lemma assign_loop_spec orig todo i insts busy M pk :
  assigned orig i insts busy M -> wired orig -> fan_out_free orig ->
  todo + i = length orig -> count_buffers (drop i orig) (Z.of_nat (size M)) pk = Z.of_nat (length busy) ->
  exists insts' busy' M', assign_loop todo i insts busy = Done (insts', busy') /\
    assigned orig (length orig) insts' busy' M' /\ length busy' = length busy.
Proof.
  intros A W Hff. revert i insts busy M pk A. induction todo as [|todo IH]; intros i insts busy M pk A Ht Hc;
    cbn [assign_loop].
  { cbn in Ht. subst i. by exists insts, busy, M. }
  destruct (lookup_lt_is_Some_2 orig i) as [inst Hi]; [lia|].
  rewrite (drop_S _ _ _ Hi) in Hc. cbn [count_buffers] in Hc.
  destruct (assigned_step orig i insts busy M inst A W Hff Hi) as (insts' & busy' & M' & E & A' & Hl & Hs).
  { destruct (inplace_broken inst);
      match type of Hc with count_buffers ?l ?nb ?p = _ => pose proof (count_buffers_ge l nb p) end; lia. }
  rewrite E, bind_Done_eq.
  destruct (IH (i + 1) insts' busy' M' (if inplace_broken inst then
      Z.max pk (Z.of_nat (size M) + Z.of_nat (length (output_audio_ports inst)))
    else Z.max pk (Z.of_nat (size M) + (Z.of_nat (length (output_audio_ports inst))
                                         - Z.of_nat (length (input_audio_ports inst)))))%Z)
    as (insts2 & busy2 & M2 & E2 & A2 & Hl2).
  - by rewrite Nat.add_1_r.
  - lia.
  - rewrite Hl, <- Hc, Nat.add_1_r. destruct (inplace_broken inst); f_equal; lia.
  - exists insts2, busy2, M2. split_and!; [done | done | lia].
Qed.

Lemma alloc_buffers_all todo :
  alloc_buffers (fun _ => true) todo = (replicate todo (Some (replicate DSP_BUFFER_SIZE float_zero)), true).
Proof. induction todo as [|todo IH]; [done|]. cbn [alloc_buffers]. by rewrite IH. Qed.

(** What a pipeline whose buffers are assigned satisfies: there are peak_buf
    buffers of DSP_BUFFER_SIZE floats, every audio port has one of them, and
    every input port reads what its peer wrote. *)
Record buffers_ok (p : pipeline) : Prop := {
  bo_buffers : buffers p =
    Some (replicate (Z.to_nat (peak_buf p)) (Some (replicate DSP_BUFFER_SIZE float_zero)));
  bo_outputs : forall o x, buf_at (instances p) o = Some x -> (Z.of_nat x < peak_buf p)%Z;
  bo_inputs : forall j inst q, instances p !! j = Some inst -> q ∈ input_audio_ports inst ->
    input_ok (instances p) j inst q
}.

Lemma allocate_buffers_spec p :
  wired (instances p) -> fan_out_free (instances p) ->
  exists p', allocate_buffers (fun _ => true) p = Done (0%Z, p') /\ buffers_ok p' /\
    map unassigned (instances p') = map unassigned (instances p) /\
    p' = set_instances (instances p') (set_buffers (peak_buf p') (buffers p') p).
Proof.
  intros W Hff. unfold allocate_buffers. cbn [negb]. set (peak := count_buffers (instances p) 0 0).
  pose proof (count_buffers_ge (instances p) 0 0) as Hge. fold peak in Hge.
  rewrite alloc_buffers_all. cbn [negb].
  destruct (assign_loop_spec (instances p) (length (instances p)) 0 (instances p)
              (replicate (Z.to_nat peak) false) ∅ 0%Z) as (insts & busy & M & E & A & Hl); try done.
  - apply assigned_start.
  - rewrite length_replicate, map_size_empty. change (peak = Z.of_nat (Z.to_nat peak)). lia.
  - cbn [instances set_buffers]. rewrite E, bind_Done_eq.
    eexists. split; [done|]. rewrite length_replicate in Hl. split; [|split; [apply A | done]].
    split; cbn; [done | |].
    + intros o x Hb. pose proof (as_range _ _ _ _ _ A o x) as Hr. rewrite Hl in Hr.
      enough (x < Z.to_nat peak) by lia. apply Hr; [|done].
      unfold buf_at in Hb. destruct (insts !! o.1) eqn:Eo; [|done].
      apply lookup_lt_Some in Eo. pose proof (f_equal length (as_same _ _ _ _ _ A)) as El.
      rewrite !length_map in El. lia.
    + intros j inst q Hj. eapply (as_inputs _ _ _ _ _ A); [|done].
      apply lookup_lt_Some in Hj. pose proof (f_equal length (as_same _ _ _ _ _ A)) as El.
      rewrite !length_map in El. lia.
Qed.

(** ** cras_dsp_pipeline_load *)

(** The module the plugin of an instance asks for. *)
Definition module_of (n : ini) (inst : instance) : option dsp_module :=
  pl ← plugins n !! i_plugin inst; cras_dsp_module_load_builtin pl.

Definition loaded (m : dsp_module) (inst : instance) : instance :=
  Instance (i_plugin inst) (input_audio_ports inst) (output_audio_ports inst)
    (input_control_ports inst) (output_control_ports inst) (Some m)
    (instantiated inst) (m_get_properties m) (total_delay inst).

Lemma load_modules_spec n insts :
  (forall inst, inst ∈ insts -> is_Some (plugins n !! i_plugin inst)) ->
  exists rc insts', load_modules n insts = Done (rc, insts') /\
    ((rc = 0%Z /\ Forall2 (fun inst inst' => exists m, module_of n inst = Some m /\ inst' = loaded m inst)
        insts insts') \/
     (rc = (-1)%Z /\ exists inst, inst ∈ insts /\ module_of n inst = None)).
Proof.
  induction insts as [|inst insts IH]; intros Hp; cbn [load_modules].
  { exists 0%Z, []. split; [done|]. left. by split; [|constructor]. }
  destruct (Hp inst) as [pl Hpl]; [by left|]. rewrite Hpl. cbn [access]. rewrite bind_Done_eq.
  unfold load_module. destruct (cras_dsp_module_load_builtin pl) as [m|] eqn:Em; cbn -[load_modules].
  2:{ eexists _, _. split; [done|]. right. split; [done|]. exists inst. split; [by left|].
      unfold module_of. rewrite Hpl. done. }
  assert (module_of n inst = Some m) as Hm by (unfold module_of; by rewrite Hpl).
  destruct IH as (rc & insts' & -> & IH); [intros i Hi; apply Hp; by right|]. cbn.
  eexists _, _. split; [done|]. destruct IH as [[-> HF]|(-> & i & Hi & Hn)]; [left|right].
  - split; [done|]. constructor; [|done]. by exists m.
  - split; [done|]. exists i. split; [by right | done].
Qed.

Lemma loaded_audio n insts insts' :
  Forall2 (fun inst inst' => exists m, module_of n inst = Some m /\ inst' = loaded m inst) insts insts' ->
  (forall o, buf_at insts' o = buf_at insts o) /\ (wired insts -> wired insts') /\
  (fan_out_free insts -> fan_out_free insts').
Proof.
  intros HF. assert (forall o, buf_at insts' o = buf_at insts o) as Hb.
  { intros o. unfold buf_at. destruct (insts !! o.1) as [inst|] eqn:Ei.
    - destruct (Forall2_lookup_l _ _ _ _ _ HF Ei) as (inst' & -> & m & _ & ->). done.
    - assert (insts' !! o.1 = None) as -> by
        (apply lookup_ge_None; rewrite <- (Forall2_length HF); by apply lookup_ge_None). done. }
  split; [done|]. split.
  - intros W i inst' p Hi' Hp. destruct (Forall2_lookup_r _ _ _ _ _ HF Hi') as (inst & Hi & m & _ & ->).
    setoid_rewrite Hb. by apply (W i inst).
  - unfold fan_out_free. replace (insts' ≫= peers) with (insts ≫= peers); [done|].
    clear Hb. induction HF as [|inst inst' insts insts' (m & _ & ->) _ IH]; [done|]. cbn. by f_equal.
Qed.

(** A pipeline that was created is wired. *)
Lemma built_wired n env purp so si p :
  ini_wf n -> pipeline_built n env purp so si p -> wired (instances p).
Proof.
  intros Wn B i inst q Hi Hq.
  assert (cores (instances p) !! i = Some (instance_core inst)) as Hc.
  { unfold cores. change (map instance_core) with (fmap (M := list) instance_core).
    by rewrite list_lookup_fmap, Hi. }
  destruct (pb_cores _ _ _ _ _ _ B _ _ Hc) as (pl & Hpl & Hup). destruct (Hup PORT_AUDIO) as (_ & Hin & HF).
  set (x := (a_original_index q, a_peer q)).
  assert (x ∈ k_in PORT_AUDIO (instance_core inst)) as Hx
    by exact (list_elem_of_fmap_2 (fun p => (a_original_index p, a_peer p)) _ _ Hq).
  rewrite Forall_forall in HF. destruct (HF x (proj1 (list_elem_of_In _ _) Hx)) as (pt & Hpt & Hpeer).
  destruct (a_peer q) as [[b k]|] eqn:Ep; cbn in Hpeer.
  - destruct Hpeer as (cb & q' & oj & Hlt & Hcb & Hk & _). exists (b, k). split_and!; [done | done|].
    unfold cores in Hcb. change (map instance_core) with (fmap (M := list) instance_core) in Hcb.
    apply list_lookup_fmap_Some in Hcb as (up & -> & Hup'). unfold buf_at. cbn. rewrite Hup'. cbn.
    cbn in Hk. change (map (fun p => (a_plugin p, a_original_index p)))
      with (fmap (M := list) (fun p => (a_plugin p, a_original_index p))) in Hk.
    apply list_lookup_fmap_Some in Hk as (y & _ & Hy). by rewrite Hy.
  - exfalso. assert (x.1 ∈ idxs PORT_INPUT PORT_AUDIO 0 (ports pl)) as Hi0
      by (rewrite <- Hin; by apply (list_elem_of_fmap_2 fst)).
    apply elem_of_idxs in Hi0 as (j & y & Hj & Hy & _ & Hty). unfold port_at in Hpt. rewrite Hpl in Hpt.
    cbn in Hpt, Hj. rewrite Hj in Hpt. rewrite Hy in Hpt. injection Hpt as <-.
    destruct (Forall_lookup_1 _ _ _ _ (wf_plugins _ Wn) Hpl) as (_ & _ & _ & Hps).
    destruct (Forall_lookup_1 _ _ _ _ Hps Hy) as [[_ Hc']|(f & _ & Hf & _)]; [congruence|].
    rewrite Hf in Hpeer. unfold INVALID_FLOW_ID in Hpeer. lia.
Qed.

Lemma pipeline_load_spec n env purp so si p :
  ini_wf n -> pipeline_built n env purp so si p -> fan_out_free (instances p) ->
  exists rc p', cras_dsp_pipeline_load (fun _ => true) p = Done (rc, p') /\
    ((rc = 0%Z /\ buffers_ok p' /\
      Forall2 (fun inst inst' => exists m, module_of n inst = Some m /\
        unassigned inst' = unassigned (loaded m inst)) (instances p) (instances p')) \/
     (rc = (-1)%Z /\ exists inst, inst ∈ instances p /\ module_of n inst = None)).
Proof.
  intros Wn B Hff. pose proof (built_wired _ _ _ _ _ _ Wn B) as W.
  unfold cras_dsp_pipeline_load. rewrite (pb_ini _ _ _ _ _ _ B).
  destruct (load_modules_spec n (instances p)) as (rc & insts & -> & Hrc).
  { intros inst Hi. apply list_elem_of_lookup in Hi as [i Hi].
    assert (cores (instances p) !! i = Some (instance_core inst)) as Hc.
    { unfold cores. change (map instance_core) with (fmap (M := list) instance_core).
      by rewrite list_lookup_fmap, Hi. }
    destruct (pb_cores _ _ _ _ _ _ B _ _ Hc) as (pl & Hpl & _). by exists pl. }
  rewrite bind_Done_eq. destruct Hrc as [[-> HF]|[-> Hn]]; cbn [negb Z.eqb].
  2:{ eexists _, _. split; [done | by right]. }
  destruct (loaded_audio _ _ _ HF) as (_ & Hw & Hf).
  destruct (allocate_buffers_spec (set_instances insts p)) as (p' & -> & Hok & Hsame & _); [by apply Hw | by apply Hf|].
  rewrite bind_Done_eq. eexists _, _. split; [done|]. left. split_and!; [done | done|].
  cbn [instances set_instances] in Hsame. clear -HF Hsame. revert Hsame. generalize (instances p').
  induction HF as [|inst inst1 l l1 (m & Hm & ->) _ IH]; intros [|x l2] E; cbn in E; try done.
  pose proof (inj Some _ _ (f_equal head E : Some _ = Some _)) as Ex.
  constructor; [by exists m | exact (IH _ (f_equal tail E))].
Qed.

(** C21.  Loading a pipeline that was created assigns its buffers soundly.  If
    no audio flow has two readers and the allocations succeed, the load ends
    without an access outside the flags, and fails only when some plugin has
    no builtin module.  Otherwise nothing but the modules and the buffer
    indices changes, there are peak_buf buffers and every audio port has one
    of them, every input port has the buffer of the output port it is
    connected to, and no other output port writes that buffer between the two
    (nor, when the module cannot work in place, in the reading module
    itself). *)
Theorem pipeline_load_assigns_buffers n env purp so si p :
  ini_wf n -> pipeline_built n env purp so si p -> fan_out_free (instances p) ->
  exists rc p', cras_dsp_pipeline_load (fun _ => true) p = Done (rc, p') /\
    ((rc = 0%Z /\ buffers_ok p' /\
      Forall2 (fun inst inst' => exists m, module_of n inst = Some m /\
        unassigned inst' = unassigned (loaded m inst)) (instances p) (instances p')) \/
     (rc = (-1)%Z /\ exists inst, inst ∈ instances p /\ module_of n inst = None)).
Proof. apply pipeline_load_spec. Qed.
End Assign.
