(* ===== verification/PipelineSamples.v ===== *)
(** * PipelineSamples: concrete pipelines

    The theorems on pipelines at concrete graphs with the built-in modules,
    and graphs on which the construction misbehaves. *)

From S2P Require Import Prelude CString Float32 Dictionary Expr ExprEval DspIni DspGraph DspConnect DspUtil Pipeline PipelineRun PipelineSort PipelineTopo PipelineCreate Biquad Eq DrcInterface ModBuiltin PipelineBuffers.

(** A compressor that does nothing, for the concrete instances. *)
#[export] Instance null_drc : DrcLib := {|
  drc := unit;
  drc_new _ := tt;
  drc_set_emphasis_disabled d _ := d;
  drc_set_param d _ _ _ := Done d;
  drc_init d := Done d;
  drc_process d data _ := Done (d, data)
|}.

Definition ini_of (l : list string) : ini :=
  match cras_dsp_ini_create (fun _ => true) 64 (Some (lines l)) with
  | Done (Some n) => n
  | _ => Ini None [] []
  end.

(** The environment of a new context, with the builtin functions. *)
Definition base_env : cras_expr_env :=
  default empty_env (outcome_value (cras_expr_env_install_builtins empty_env)).

Lemma base_env_ok : env_ok base_env.
Proof. split; [vm_compute; reflexivity | apply (bool_decide_unpack _); vm_compute; reflexivity]. Qed.

(** ** The graph conditions, decided *)

Definition port_okb (n : ini) (rank : nat -> nat) (x : nat * nat * port) : bool :=
  let '(p, j, pt) := x in
  match direction pt with
  | PORT_OUTPUT => (flow_id pt =? INVALID_FLOW_ID)%Z || bool_decide (port_up n pt = Some (p, j))
  | PORT_INPUT => match port_up n pt with Some (q, _) => rank q <? rank p | None => true end
  end.

Definition graph_okb (n : ini) (rank : nat -> nat) : bool :=
  forallb (port_okb n rank) (place 0 (plugins n)).

Lemma graph_okb_spec n rank : ini_wf n -> graph_okb n rank = true -> graph_ok n rank.
Proof.
  intros W Hg. unfold graph_okb in Hg. rewrite forallb_forall in Hg.
  assert (forall p j x, port_at n p j = Some x -> port_okb n rank (p, j, x) = true) as Hx.
  { intros p j x Hx. apply Hg, list_elem_of_In, elem_of_place. unfold port_at in Hx.
    destruct (plugins n !! p) as [pl|] eqn:Hp; [|done]. by exists p, pl. }
  split; [done | |].
  - intros p j x Hp Hd Hf. specialize (Hx p j x Hp). unfold port_okb in Hx. rewrite Hd in Hx.
    apply orb_true_iff in Hx as [Hx|Hx]; [by apply Z.eqb_eq in Hx | by apply bool_decide_eq_true in Hx].
  - intros p j x q oj Hp Hd Hu. specialize (Hx p j x Hp). unfold port_okb in Hx.
    rewrite Hd, Hu in Hx. by apply Nat.ltb_lt in Hx.
Qed.

Definition created (ofuel : nat) (n : ini) (env : cras_expr_env) : option pipeline :=
  match cras_dsp_pipeline_create (fun _ => true) ofuel n env "playback" with Done r => r | _ => None end.

Definition sample_rank (p : nat) : nat := Nat.min p 3.

Lemma sample_ini_wf : ini_wf sample_ini.
Proof.
  pose proof (ini_create_spec (fun _ => true) 64 (fun _ => eq_refl) (Some sample_ini_file)) as S.
  assert (cras_dsp_ini_create (fun _ => true) 64 (Some sample_ini_file) = Done (Some sample_ini)) as E
    by (vm_compute; reflexivity).
  rewrite E in S. by destruct S as (d & _ & W & _).
Qed.

Lemma pipeline_create_built_witness :
  exists p so si, cras_dsp_pipeline_create (fun _ => true) 4 sample_ini base_env "playback" = Done (Some p) /\
    pipeline_built sample_ini base_env "playback" so si p /\ length (instances p) = 3.
Proof.
  assert (match created 4 sample_ini base_env with Some q => length (instances q) | None => 0 end = 3)
    as L by (vm_compute; reflexivity).
  unfold created in L.
  destruct (pipeline_create_built (fun _ => true) sample_ini base_env sample_rank 4 "playback") as (r & E & H).
  - apply graph_okb_spec; [exact sample_ini_wf | vm_compute; reflexivity].
  - exact base_env_ok.
  - intros p; unfold sample_rank; lia.
  - rewrite E in L. destruct r as [p|]; [|discriminate L].
    destruct (H p eq_refl) as (so & si & B). exists p, so, si.
    split; [exact E|]. split; [exact B | exact L].
Defined.

Definition has_module (n : ini) (inst : instance) : bool :=
  match module_of n inst with Some _ => true | None => false end.

Lemma pipeline_load_assigns_buffers_witness :
  exists p p', cras_dsp_pipeline_create (fun _ => true) 4 sample_ini base_env "playback" = Done (Some p) /\
    cras_dsp_pipeline_load (fun _ => true) p = Done (0%Z, p') /\ buffers_ok p'.
Proof.
  assert (match created 4 sample_ini base_env with
          | Some q => (instances q ≫= peers, forallb (has_module sample_ini) (instances q))
          | None => ([], false) end = ([(0, 0); (1, 0)], true)) as L by (vm_compute; reflexivity).
  unfold created in L.
  destruct (pipeline_create_built (fun _ => true) sample_ini base_env sample_rank 4 "playback") as (r & E & H).
  - apply graph_okb_spec; [exact sample_ini_wf | vm_compute; reflexivity].
  - exact base_env_ok.
  - intros p; unfold sample_rank; lia.
  - rewrite E in L. destruct r as [p|]; [|discriminate L].
    destruct (H p eq_refl) as (so & si & B).
    pose proof (f_equal fst L) as L1. pose proof (f_equal snd L) as L2. cbn [fst snd] in L1, L2.
    destruct (pipeline_load_assigns_buffers sample_ini base_env "playback" so si p sample_ini_wf B)
      as (rc & p' & El & [(-> & Hok & _)|(_ & inst & Hin & Hm)]).
    + unfold fan_out_free. rewrite L1. apply (bool_decide_unpack _); vm_compute; reflexivity.
    + exists p, p'. split; [exact E|]. split; [exact El | exact Hok].
    + exfalso. rewrite forallb_forall in L2. apply list_elem_of_In, L2 in Hin.
      unfold has_module in Hin. rewrite Hm in Hin. discriminate Hin.
Defined.

(** ** A flow with two readers *)

(** A mono source mixed with itself. *)
Definition fan_out_file : list string :=
  ["[src]"; "library=builtin"; "label=source"; "purpose=playback"; "output_0={s}";
   "[mix]"; "library=builtin"; "label=mix_stereo"; "input_0={s}"; "input_1={s}";
   "output_2={l}"; "output_3={r}";
   "[snk]"; "library=builtin"; "label=sink"; "purpose=playback"; "input_0={l}"]%string.

Definition fan_out_ini : ini := Eval vm_compute in ini_of fan_out_file.

(** A flow read by two input ports makes the load of a pipeline write
    outside its array of flags: the count of the buffers subtracts one buffer
    for each reader although the flow has only one.  The file is read and its
    pipeline created without an error, and loading it, with every allocation
    successful, is undefined. *)
Theorem pipeline_load_overruns_flags :
  cras_dsp_ini_create (fun _ => true) 64 (Some (lines fan_out_file)) = Done (Some fan_out_ini) /\
  exists p, cras_dsp_pipeline_create (fun _ => true) 4 fan_out_ini base_env "playback" = Done (Some p) /\
    cras_dsp_pipeline_load (fun _ => true) p = Fault.
Proof.
  split; [vm_compute; reflexivity|].
  assert (match created 4 fan_out_ini base_env with
          | Some p => match cras_dsp_pipeline_load (fun _ => true) p with Fault => true | _ => false end
          | None => false end = true) as L by (vm_compute; reflexivity).
  unfold created in L.
  destruct (cras_dsp_pipeline_create (fun _ => true) 4 fan_out_ini base_env "playback") as [[p|]| |]; try discriminate L.
  exists p. split; [done|].
  by destruct (cras_dsp_pipeline_load (fun _ => true) p).
Qed.

(** ** A disabled plugin fed by itself *)

Definition loop_file : list string :=
  ["[src]"; "library=builtin"; "label=source"; "purpose=playback"; "output_0={s}";
   "[a]"; "library=builtin"; "label=eq"; "disable=(and)"; "input_0={a}"; "output_1={a}";
   "[snk]"; "library=builtin"; "label=sink"; "purpose=playback"; "input_0={a}"]%string.

Definition loop_ini : ini := Eval vm_compute in ini_of loop_file.

Lemma loop_origin fuel insts p :
  p = 1 \/ p = 2 -> find_instance_by_plugin insts (Some 1) = None ->
  find_origin_port fuel loop_ini insts p 0 = Timeout.
Proof.
  intros Hp Hi. revert p Hp. induction fuel as [|fuel IH]; intros p Hp; [done|].
  destruct Hp as [->| ->]; cbn [find_origin_port]; unfold flow_at;
    cbn -[find_origin_port find_instance_by_plugin]; change (Z.to_nat 1) with 1;
    cbn -[find_origin_port find_instance_by_plugin]; rewrite Hi;
    cbn -[find_origin_port]; apply IH; auto.
Qed.

(** Replace the evaluation of a disable expression by its result. *)
Ltac decide_disabled :=
  match goal with
  | |- context [is_disabled ?p base_env] =>
      let b := eval vm_compute in (is_disabled p base_env) in
      change (is_disabled p base_env) with b
  end.

(**  find_origin_port does not terminate on a graph that the ini format
    can express: when a disabled plugin is fed by its own output, the search
    for the origin of what it feeds goes round for ever.  The file is read
    without an error, and creating its pipeline exceeds every bound on the
    recursion of find_origin_port. *)
Theorem pipeline_create_diverges :
  cras_dsp_ini_create (fun _ => true) 64 (Some (lines loop_file)) = Done (Some loop_ini) /\
  forall ofuel, cras_dsp_pipeline_create (fun _ => true) ofuel loop_ini base_env "playback" = Timeout.
Proof.
  split; [vm_compute; reflexivity|]. intros o. unfold cras_dsp_pipeline_create.
  assert (find_enabled_builtin_plugin loop_ini "source" "playback" base_env = Done (Some 0)) as ->
    by (vm_compute; reflexivity).
  assert (find_enabled_builtin_plugin loop_ini "sink" "playback" base_env = Done (Some 2)) as ->
    by (vm_compute; reflexivity).
  rewrite !bind_Done_eq.
  do 4 (cbn -[build_ports base_env is_disabled]; change (Z.to_nat 1) with 1).
  repeat (decide_disabled; cbn -[build_ports base_env is_disabled]).
  cbn -[find_origin_port find_output_audio_port]. rewrite loop_origin; auto.
Qed.
