(* ===== verification/FlashDevice.v ===== *)
(** * FlashDevice: recovery/updater/flash_device.c and the flash maps

    A flash device is a table of operations on a handle ([void *hnd] is the
    type [hnd]) and what was cached of its contents.  The flash map functions
    of vboot_interface.c are here too, since flash_get_fmap and
    fmap_read_section call each other's files.  Bytes are integers between 0
    and 255; an offset is an off_t of 64 bits. *)

From S2P Require Import Prelude CString.

Definition EIO : Z := 5.
Definition EINVAL : Z := 22.
Definition ENOENT : Z := 2.

(** ** Little-endian fields of a packed structure *)

Fixpoint le_bytes (l : list Z) : Z :=
  match l with [] => 0%Z | b :: l => (b + 256 * le_bytes l)%Z end.

Fixpoint le_encode (n : nat) (z : Z) : list Z :=
  match n with 0 => [] | S n => (z mod 256)%Z :: le_encode n (z / 256) end.

(** The [n] bytes at [off]; undefined outside the object. *)
Definition bytes_at (l : list Z) (off n : nat) : outcome (list Z) :=
  if off + n <=? length l then Done (take n (drop off l)) else Fault.

Definition field (l : list Z) (off n : nat) : outcome Z := le_bytes <$> bytes_at l off n.

(** strcmp of a string with the bytes of a buffer, which is read up to the
    first difference. *)
Fixpoint strcmp_eq (s : string) (l : list Z) : outcome bool :=
  match s, l with
  | _, [] => Fault
  | EmptyString, b :: _ => Done (b =? 0)%Z
  | String c s, b :: l =>
      if (b =? Z.of_nat (nat_of_ascii c))%Z then strcmp_eq s l else Done false
  end.

(** struct fmap and struct fmap_area, packed. *)
Definition FMAP_SIGNATURE : list Z := [95; 95; 70; 77; 65; 80; 95; 95]%Z.
Definition fmap_sizeof : nat := 56.
Definition area_sizeof : nat := 42.

Definition nareas (fm : list Z) : outcome Z := field fm 54 2.

Definition area_offset (fm : list Z) (i : nat) : outcome Z := field fm (fmap_sizeof + i * area_sizeof) 4.
Definition area_size (fm : list Z) (i : nat) : outcome Z := field fm (fmap_sizeof + i * area_sizeof + 4) 4.
Definition area_name (fm : list Z) (i : nat) : list Z := drop (fmap_sizeof + i * area_sizeof + 8) fm.

(** ** Devices *)

Section Flash.
Context {hnd : Type}.

(** struct flash_device_ops: read gives the return code and the bytes, which
    are meaningful when the code is 0. *)
Record flash_device_ops : Type := FlashOps {
  ops_name : string;
  ops_open : option string -> option hnd;
  ops_close : hnd -> outcome unit;
  ops_read : hnd -> Z -> Z -> outcome (Z * list Z * hnd);
  ops_write : hnd -> Z -> list Z -> outcome (Z * hnd);
  ops_erase : hnd -> Z -> Z -> outcome (Z * hnd);
  ops_get_size : hnd -> Z;
  ops_get_write_size : hnd -> Z;
  ops_get_erase_size : hnd -> Z;
  ops_get_fmap_offset : hnd -> Z;
  ops_cmd : option (hnd -> Z -> Z -> list Z -> Z -> outcome (Z * list Z * hnd))
}.

Record flash_device : Type := FlashDevice {
  ops : flash_device_ops;
  priv_data : hnd;
  fmap_cache : option (list Z);
  gbb : option (list Z);
  gbb_size : Z;
  total_size : Z;
  write_size : Z;
  erase_size : Z
}.

Definition set_priv (h : hnd) (dev : flash_device) : flash_device :=
  FlashDevice (ops dev) h (fmap_cache dev) (gbb dev) (gbb_size dev) (total_size dev)
    (write_size dev) (erase_size dev).

Definition set_fmap (fm : option (list Z)) (dev : flash_device) : flash_device :=
  FlashDevice (ops dev) (priv_data dev) fm (gbb dev) (gbb_size dev) (total_size dev)
    (write_size dev) (erase_size dev).

Definition set_gbb (g : option (list Z)) (size : Z) (dev : flash_device) : flash_device :=
  FlashDevice (ops dev) (priv_data dev) (fmap_cache dev) g size (total_size dev)
    (write_size dev) (erase_size dev).

(** The first device whose name is [name], else the first of the array. *)
Fixpoint find_ops (devices : list flash_device_ops) (name : string) (default : flash_device_ops)
    : flash_device_ops :=
  match devices with
  | [] => default
  | o :: devices => if String.eqb (ops_name o) name then o else find_ops devices name default
  end.

Definition flash_open (devices : list flash_device_ops) (name params : option string)
    : outcome (option flash_device) :=
  first ← access (head devices);
  let o := match name with Some s => find_ops devices s first | None => first end in
  match ops_open o params with
  | None => Done None
  | Some h =>
      Done (Some (FlashDevice o h None None 0 (ops_get_size o h) (ops_get_write_size o h)
                    (ops_get_erase_size o h)))
  end.

Definition flash_close (dev : flash_device) : outcome unit := ops_close (ops dev) (priv_data dev).

Definition flash_read (dev : flash_device) (off len : Z) : outcome (Z * list Z * flash_device) :=
  '(res, data, h) ← ops_read (ops dev) (priv_data dev) off len;
  Done (res, data, set_priv h dev).

(** off_t % size_t is computed in 64-bit unsigned arithmetic; % 0 is undefined. *)
Definition misaligned (x size : Z) : outcome bool :=
  if (size =? 0)%Z then Fault else Done (negb (u64 x mod size =? 0)%Z).

Definition flash_write (dev : flash_device) (off : Z) (buff : list Z) : outcome (Z * flash_device) :=
  m1 ← misaligned off (write_size dev);
  m2 ← misaligned (Z.of_nat (length buff)) (write_size dev);
  if m1 || m2 then Done ((- EINVAL)%Z, dev)
  else
    '(res, h) ← ops_write (ops dev) (priv_data dev) off buff;
    Done (res, set_priv h dev).

Definition flash_erase (dev : flash_device) (off len : Z) : outcome (Z * flash_device) :=
  m1 ← misaligned off (erase_size dev);
  m2 ← misaligned len (erase_size dev);
  if m1 || m2 then Done ((- EINVAL)%Z, dev)
  else
    '(res, h) ← ops_erase (ops dev) (priv_data dev) off len;
    Done (res, set_priv h dev).

Definition flash_get_size (dev : flash_device) : Z := ops_get_size (ops dev) (priv_data dev).

Definition flash_cmd (dev : flash_device) (cmd ver : Z) (odata : list Z) (isize : Z)
    : outcome (Z * list Z * flash_device) :=
  match ops_cmd (ops dev) with
  | None => Done ((- ENOENT)%Z, [], dev)
  | Some f =>
      '(res, idata, h) ← f (priv_data dev) cmd ver odata isize;
      Done (res, idata, set_priv h dev)
  end.

(** ** Flash maps (vboot_interface.c) *)

(** The do loop of fmap_scan_offset, entered with [off] (uint32_t). *)
Fixpoint scan_loop (fuel : nat) (off : Z) (dev : flash_device) : outcome (Z * flash_device) :=
  match fuel with
  | 0 => Timeout
  | S fuel =>
      let off := u32 (off - 64) in
      '(res, h, dev) ← flash_read dev off 8;
      if negb (res =? 0)%Z then Done (off, dev)
      else if bool_decide (h = FMAP_SIGNATURE) then Done (off, dev)
      else if (off =? 0)%Z then Done (off, dev)
      else scan_loop fuel off dev
  end.

(** end % 64 is the remainder of C. *)
Definition fmap_scan_offset (fuel : nat) (dev : flash_device) (end_ : Z)
    : outcome (Z * flash_device) :=
  scan_loop fuel (u32 (end_ - Z.rem end_ 64)) dev.

(** [None] is NULL; the allocation of the map is not tested. *)
Definition fmap_load (dev : flash_device) (offset : Z) : outcome (option (list Z) * flash_device) :=
  '(res, hdr, dev) ← flash_read dev offset (Z.of_nat fmap_sizeof);
  if negb (res =? 0)%Z then Done (None, dev)
  else
    sig ← bytes_at hdr 0 8;
    if negb (bool_decide (sig = FMAP_SIGNATURE)) then Done (None, dev)
    else
      n ← nareas hdr;
      '(res, fm, dev) ← flash_read dev offset (Z.of_nat fmap_sizeof + n * Z.of_nat area_sizeof);
      if negb (res =? 0)%Z then Done (None, dev) else Done (Some fm, dev).

Definition flash_get_fmap (fuel : nat) (dev : flash_device)
    : outcome (option (list Z) * flash_device) :=
  dev ← (match fmap_cache dev with
         | Some _ => Done dev
         | None =>
             let end_ := ops_get_fmap_offset (ops dev) (priv_data dev) in
             '(off, dev) ← fmap_scan_offset fuel dev end_;
             '(fm, dev) ← fmap_load dev off;
             Done (set_fmap fm dev)
         end);
  Done (fmap_cache dev, dev).

(** The loop over the areas: the index of the one called [name], or the number
    of areas. *)
Fixpoint find_area (todo i : nat) (fm : list Z) (name : string) : outcome nat :=
  match todo with
  | 0 => Done i
  | S todo =>
      eq ← strcmp_eq name (area_name fm i);
      if eq : bool then Done i else find_area todo (i + 1) fm name
  end.

(** The return code and, when it is 0, the offset. *)
Definition fmap_get_section_offset (fuel : nat) (dev : flash_device) (name : option string)
    : outcome (Z * Z * flash_device) :=
  '(fm, dev) ← flash_get_fmap fuel dev;
  match fm with
  | None => Done ((-1)%Z, 0%Z, dev)
  | Some fm =>
      match name with
      | None => Done (0%Z, 0%Z, dev)
      | Some s =>
          n ← nareas fm;
          i ← find_area (Z.to_nat n) 0 fm s;
          if (Z.of_nat i =? n)%Z then Done ((-1)%Z, 0%Z, dev)
          else o ← area_offset fm i; Done (0%Z, o, dev)
      end
  end.

Section Alloc.
Context (alloc : Z -> bool).

(** The search of fmap_read_section: the size and the offset of the area. *)
Definition find_section (fm : list Z) (name : string) : outcome (option (Z * Z)) :=
  n ← nareas fm;
  i ← find_area (Z.to_nat n) 0 fm name;
  if (Z.of_nat i =? n)%Z then Done None
  else sz ← area_size fm i; o ← area_offset fm i; Done (Some (sz, o)).

(** The contents, the size and the offset of a section of the map. *)
Definition fmap_read_section (fuel : nat) (dev : flash_device) (name : option string)
    : outcome (option (list Z * Z * Z) * flash_device) :=
  '(fm, dev) ← flash_get_fmap fuel dev;
  match fm with
  | None => Done (None, dev)
  | Some fm =>
      found ← (match name with
               | None => Done (Some (flash_get_size dev, 0%Z))
               | Some s => find_section fm s
               end);
      match found with
      | None => Done (None, dev)
      | Some (size, start_offset) =>
          if negb (alloc size) then Done (None, dev)
          else
            '(r, data, dev) ← flash_read dev start_offset size;
            if negb (r =? 0)%Z then Done (None, dev)
            else Done (Some (data, size, start_offset), dev)
      end
  end.

(** dev->gbb_size is also stored when the section cannot be read; it is read
    only when dev->gbb is not NULL, and stored again before that. *)
Definition flash_get_gbb (fuel : nat) (dev : flash_device)
    : outcome (option (list Z) * Z * flash_device) :=
  dev ← (match gbb dev with
         | Some _ => Done dev
         | None =>
             '(s, dev) ← fmap_read_section fuel dev (Some "GBB"%string);
             Done (match s with
                   | Some (data, size, _) => set_gbb (Some data) size dev
                   | None => dev
                   end)
         end);
  Done (gbb dev, gbb_size dev, dev).
End Alloc.
End Flash.

Arguments flash_device_ops : clear implicits.
Arguments flash_device : clear implicits.

(** ** Little-endian encoding *)

Lemma le_encode_length n z : length (le_encode n z) = n.
Proof. revert z. induction n as [|n IH]; intros z; cbn; [done | by rewrite IH]. Qed.

Lemma le_bytes_encode n z : (0 <= z < 256 ^ Z.of_nat n)%Z -> le_bytes (le_encode n z) = z.
Proof.
  revert z. induction n as [|n IH]; intros z Hz; cbn [le_encode le_bytes].
  { change (256 ^ Z.of_nat 0)%Z with 1%Z in Hz. lia. }
  rewrite Nat2Z.inj_succ, Z.pow_succ_r in Hz by lia.
  rewrite IH; [pose proof (Z.div_mod z 256 ltac:(lia)); lia|].
  split; [apply Z.div_pos; lia | apply Z.div_lt_upper_bound; lia].
Qed.
