(* ===== verification/Vboot.v ===== *)
(** * Vboot: the rest of recovery/updater/vboot_interface.c

    What the firmware passes through the device tree, the root key of the
    Google Binary Block, and the verified boot NVRAM: a section of the flash
    used as a log of 16-byte blocks.  The structures of gbb_header.h and
    vboot_struct.h are not in this repository: their layout is a class. *)

From S2P Require Import Prelude CString FlashDevice.

(** ** Structures of the verified boot library *)

Class VbootLayout : Type := {
  GBB_SIGNATURE : list Z;
  gbb_header_size : Z;
  rootkey_offset : list Z -> outcome Z;
  rootkey_size : list Z -> outcome Z;
  VB_SHARED_DATA_MAGIC : Z;
  shd_magic : list Z -> outcome Z;
  shd_firmware_index : list Z -> outcome Z
}.

(** ** Device tree: [fdt] gives the contents of the files that can be read *)

Section Fdt.
Context (fdt : string -> option (list Z)) (alloc : Z -> bool).

Definition PATH_MAX : nat := 4096.

Definition fdt_path (prop : string) : string :=
  stake (PATH_MAX - 1) ("/proc/device-tree/firmware/chromeos/" ++ prop)%string.

Definition fdt_read_string (prop : string) : option (list Z) :=
  data ← fdt (fdt_path prop);
  if alloc (Z.of_nat (length data) + 1) then Some (data ++ [0%Z]) else None.

(** ntohl of the first four bytes on a little-endian machine. *)
Definition fdt_read_u32 (prop : string) : Z :=
  match fdt (fdt_path prop) with
  | None => u32 (-1)
  | Some data => if length data <? 4 then u32 (-1) else le_bytes (rev (take 4 data))
  end.

Definition vboot_get_mainfw_act `{VbootLayout} : outcome ascii :=
  match fdt_read_string "vboot-shared-data" with
  | None => Done "E"%char
  | Some shd =>
      magic ← shd_magic shd;
      if negb (magic =? VB_SHARED_DATA_MAGIC)%Z then Done "E"%char
      else
        i ← shd_firmware_index shd;
        Done (if (i =? 0)%Z then "A"%char
              else if (i =? 1)%Z then "B"%char
              else if (i =? 255)%Z then "R"%char
              else "E"%char)
  end.
End Fdt.

(** ** Google Binary Block: the root key as an offset in the block and a size.
    The signature is compared before the size of the block is looked at. *)
Definition gbb_get_rootkey {hnd} `{VbootLayout} (alloc : Z -> bool) (fuel : nat)
    (dev : flash_device hnd) : outcome (option (Z * Z) * flash_device hnd) :=
  '(g, size, dev) ← flash_get_gbb alloc fuel dev;
  match g with
  | None => Done (None, dev)
  | Some data =>
      sig ← bytes_at data 0 (length GBB_SIGNATURE);
      if negb (bool_decide (sig = GBB_SIGNATURE)) then Done (None, dev)
      else if (size <? gbb_header_size)%Z then Done (None, dev)
      else
        o ← rootkey_offset data; s ← rootkey_size data;
        if (size <? u32 (o + s))%Z then Done (None, dev)
        else Done (Some (o, s), dev)
  end.

(** ** Verified boot NVRAM *)

Definition VB_BOOT_OFFSET : nat := 1.
Definition VB_RECOVERY_OFFSET : nat := 2.
Definition VB_DEV_OFFSET : nat := 4.
Definition VB_TPM_OFFSET : nat := 5.
Definition VB_BOOT2_OFFSET : nat := 7.
Definition VB_MISC_OFFSET : nat := 8.
Definition VB_CRC_OFFSET : nat := 15.
Definition VB_NVDATA_SIZE : nat := 16.

Record vbnv_param : Type := VbnvParam {
  v_name : string;
  v_writable : bool;
  v_offset : nat;
  v_shift : Z;
  v_mask : Z
}.

Definition param_table : list vbnv_param := [
  VbnvParam "try_count" true VB_BOOT_OFFSET 0 15;
  VbnvParam "backup_nvram" true VB_BOOT_OFFSET 4 1;
  VbnvParam "oprom_needed" true VB_BOOT_OFFSET 5 1;
  VbnvParam "disable_dev" true VB_BOOT_OFFSET 6 1;
  VbnvParam "debug_reset" true VB_BOOT_OFFSET 7 1;
  VbnvParam "boot_result" true VB_BOOT2_OFFSET 0 3;
  VbnvParam "fw_tried" false VB_BOOT2_OFFSET 2 1;
  VbnvParam "fw_try_next" true VB_BOOT2_OFFSET 3 1;
  VbnvParam "fw_prev_result" false VB_BOOT2_OFFSET 4 3;
  VbnvParam "prev_tried" false VB_BOOT2_OFFSET 6 1;
  VbnvParam "dev_boot_usb" true VB_DEV_OFFSET 0 1;
  VbnvParam "dev_boot_signed_only" true VB_DEV_OFFSET 1 1;
  VbnvParam "dev_boot_legacy" true VB_DEV_OFFSET 2 1;
  VbnvParam "dev_boot_fastboot_full_cap" true VB_DEV_OFFSET 3 1;
  VbnvParam "tpm_clear_owner_request" true VB_TPM_OFFSET 0 1;
  VbnvParam "tpm_clear_owner_done" true VB_TPM_OFFSET 1 1;
  VbnvParam "unlock_fastboot" true VB_MISC_OFFSET 0 1;
  VbnvParam "boot_on_ac_detect" true VB_MISC_OFFSET 1 1;
  VbnvParam "recovery_reason" true VB_RECOVERY_OFFSET 0 255
]%Z.

(** The inner loop of crc8, over the bits of a byte (uint32_t). *)
Fixpoint crc8_bits (todo : nat) (crc : Z) : Z :=
  match todo with
  | 0 => crc
  | S todo =>
      let crc := if negb (Z.land crc 32768 =? 0)%Z then Z.lxor crc (Z.shiftl 4208 3) else crc in
      crc8_bits todo (u32 (Z.shiftl crc 1))
  end.

Definition crc8 (data : list Z) : Z :=
  let crc := fold_left (fun crc b => crc8_bits 8 (Z.lxor crc (Z.shiftl b 8))) data 0%Z in
  u8 (Z.shiftr crc 8).

Definition can_overwrite (current new : Z) : bool := (Z.land current new =? new)%Z.

(** The byte masks of a parameter (uint8_t). *)
Definition param_mask (p : vbnv_param) : Z := u8 (Z.shiftl (v_mask p) (v_shift p)).

Definition flag_value (p : vbnv_param) (value : Z) : Z :=
  u8 (Z.shiftl (Z.land value (v_mask p)) (v_shift p)).

(** The bytes of the block at [pos] of the NVRAM. *)
Definition block_at (nvram : list Z) (pos : nat) : list Z := take VB_NVDATA_SIZE (drop pos nvram).

Definition blank : list Z := replicate VB_NVDATA_SIZE 255%Z.

(** The loop over the blocks: the last used block and where it stopped. *)
Fixpoint find_block (todo : nat) (curr block : nat) (nvram : list Z) : nat * nat :=
  match todo with
  | 0 => (block, curr)
  | S todo =>
      if bool_decide (block_at nvram curr = blank) then (block, curr)
      else find_block todo (curr + VB_NVDATA_SIZE) curr nvram
  end.

(** The block that is written: the parameter replaced and the crc updated. *)
Definition updated_block (p : vbnv_param) (value : Z) (block : list Z) : outcome (list Z) :=
  b ← access (block !! v_offset p);
  let b := Z.lor (Z.land b (Z.lnot (param_mask p))) (Z.land (flag_value p value) (param_mask p)) in
  let dummy := <[v_offset p := b]> block in
  Done (<[VB_CRC_OFFSET := crc8 (take VB_CRC_OFFSET dummy)]> dummy).

Definition overwritable (block new : list Z) : bool :=
  forallb (fun '(c, n) => can_overwrite c n) (zip block new).

Section Nvram.
Context {hnd : Type} (alloc : Z -> bool) (fuel : nat).

Abbreviation device := (flash_device hnd).

(** Read the block of the NVRAM. *)
Definition vbnv_read_nvram (spi : device) : outcome (option (list Z * nat * Z) * device) :=
  '(s, spi) ← fmap_read_section alloc fuel spi (Some "RW_NVRAM"%string);
  match s with
  | None => Done (None, spi)
  | Some (nvram, size, offset) =>
      if (size <? Z.of_nat VB_NVDATA_SIZE)%Z || negb (size mod Z.of_nat VB_NVDATA_SIZE =? 0)%Z
      then Done (None, spi)
      else Done (Some (nvram, Z.to_nat size, offset), spi)
  end.

(** The write branch: [block] and [curr] are positions in the NVRAM. *)
Definition vbnv_write_block (spi : device) (p : vbnv_param) (value : Z) (nvram : list Z)
    (size : nat) (offset : Z) (block curr : nat) : outcome (Z * device) :=
  dummy ← updated_block p value (block_at nvram block);
  '(res, offset, spi) ←
    (if overwritable (block_at nvram block) dummy
     then Done (0%Z, (offset + Z.of_nat block)%Z, spi)
     else if negb (curr =? size) then Done (0%Z, (offset + Z.of_nat curr)%Z, spi)
     else '(res, spi) ← flash_erase spi offset (Z.of_nat size); Done (res, offset, spi));
  if negb (res =? 0)%Z then Done ((- EIO)%Z, spi)
  else
    '(res, spi) ← flash_write spi offset dummy;
    if negb (res =? 0)%Z then Done ((- EIO)%Z, spi) else Done (0%Z, spi).

(** The value read is meaningful when the code is 0. *)
Definition vbnv_readwrite (spi : device) (p : vbnv_param) (value : Z) (write : bool)
    : outcome (Z * Z * device) :=
  if VB_NVDATA_SIZE <=? v_offset p then Done ((- EIO)%Z, value, spi)
  else
    '(nv, spi) ← vbnv_read_nvram spi;
    match nv with
    | None => Done ((- EIO)%Z, value, spi)
    | Some (nvram, size, offset) =>
        let '(block, curr) := find_block (size / VB_NVDATA_SIZE) 0 0 nvram in
        if write then
          '(res, spi) ← vbnv_write_block spi p value nvram size offset block curr;
          Done (res, value, spi)
        else
          b ← access (block_at nvram block !! v_offset p);
          Done (0%Z, Z.shiftr (Z.land b (param_mask p)) (v_shift p), spi)
    end.

Definition find_param (name : string) : option vbnv_param :=
  i ← find_idx (fun p => String.eqb name (v_name p)) param_table; param_table !! i.

Definition vbnv_set_flag (spi : device) (param : string) (value : Z) : outcome (Z * device) :=
  match find_param param with
  | None => Done ((- EIO)%Z, spi)
  | Some p =>
      if v_writable p then
        '(res, _, spi) ← vbnv_readwrite spi p value true; Done (res, spi)
      else Done ((- EIO)%Z, spi)
  end.

Definition vbnv_get_flag (spi : device) (param : string) (value : Z) : outcome (Z * Z * device) :=
  match find_param param with
  | None => Done ((- EIO)%Z, value, spi)
  | Some p => vbnv_readwrite spi p value false
  end.
End Nvram.

(** The names vbnv_usage prints. *)
Definition vbnv_usage (write : bool) : list string :=
  map v_name (List.filter (fun p => negb write || v_writable p) param_table).
