(* ===== verification/NorFlash.v ===== *)
(** * NorFlash: what a NOR flash device promises

    The drivers' operations seen through the contents of the device: reading
    returns them, programming can only clear bits, erasing sets all the bits
    of a region.  The clients of flash_device.c are proved against this
    interface; a memory that behaves so implements it. *)

From S2P Require Import Prelude CString FlashDevice.

Definition is_byte (b : Z) : Prop := (0 <= b < 256)%Z.

Definition slice (off n : nat) (l : list Z) : list Z := take n (drop off l).

(** [l] with the bytes [new] programmed at [off]. *)
Definition program (off : nat) (new l : list Z) : list Z :=
  imap (fun i b => if (off <=? i) then match new !! (i - off) with
                                       | Some x => Z.land b x
                                       | None => b
                                       end else b) l.

(** [l] with [n] bytes at [off] erased. *)
Definition erase (off n : nat) (l : list Z) : list Z :=
  imap (fun i b => if (off <=? i) && (i <? off + n) then 255%Z else b) l.

Lemma slice_lookup off n l i : i < n -> slice off n l !! i = l !! (off + i).
Proof. intros Hi. unfold slice. rewrite lookup_take_lt by done. apply lookup_drop. Qed.

Lemma slice_length off n l : off + n <= length l -> length (slice off n l) = n.
Proof. intros Hl. unfold slice. rewrite length_take, length_drop. lia. Qed.

Lemma program_length off new l : length (program off new l) = length l.
Proof. apply length_imap. Qed.

Lemma erase_length off n l : length (erase off n l) = length l.
Proof. apply length_imap. Qed.

Lemma program_lookup off new l i :
  program off new l !! i =
  match l !! i with
  | None => None
  | Some b => Some (if off <=? i then match new !! (i - off) with Some x => Z.land b x | None => b end
                    else b)
  end.
Proof. unfold program. rewrite list_lookup_imap. by destruct (l !! i). Qed.

Lemma erase_lookup off n l i :
  erase off n l !! i =
  match l !! i with
  | None => None
  | Some b => Some (if (off <=? i) && (i <? off + n) then 255%Z else b)
  end.
Proof. unfold erase. rewrite list_lookup_imap. by destruct (l !! i). Qed.

(** Two lists with the same first [n] elements and that length are equal. *)
Lemma list_eq_upto {A} (n : nat) (l l' : list A) :
  length l = n -> length l' = n -> (forall i, i < n -> l !! i = l' !! i) -> l = l'.
Proof.
  intros H1 H2 H. apply list_eq. intros i. destruct (decide (i < n)); [by apply H|].
  rewrite !lookup_ge_None_2 by lia. done.
Qed.

Lemma slice_program start size pos new l :
  start + size <= length l -> pos + length new <= size ->
  slice start size (program (start + pos) new l) = program pos new (slice start size l).
Proof.
  intros Hl Hp. apply (list_eq_upto size).
  - apply slice_length. by rewrite program_length.
  - rewrite program_length. by apply slice_length.
  - intros i Hi. rewrite slice_lookup, !program_lookup, slice_lookup by done.
    destruct (l !! (start + i)) as [b|]; [|done].
    destruct (pos <=? i) eqn:E1, (start + pos <=? start + i) eqn:E2;
      rewrite ?Nat.leb_le, ?Nat.leb_gt in *; try lia; [|done].
    by replace (start + i - (start + pos)) with (i - pos) by lia.
Qed.

Lemma slice_erase start size l :
  start + size <= length l -> slice start size (erase start size l) = replicate size 255%Z.
Proof.
  intros Hl. apply (list_eq_upto size).
  - apply slice_length. by rewrite erase_length.
  - apply length_replicate.
  - intros i Hi. rewrite slice_lookup, erase_lookup, lookup_replicate_2 by done.
    destruct (lookup_lt_is_Some_2 l (start + i)) as [b ->]; [lia|].
    rewrite (proj2 (Nat.leb_le _ _)), (proj2 (Nat.ltb_lt _ _)) by lia. done.
Qed.

(** Programming what has fewer bits set stores it. *)
Lemma program_same pos new l i :
  pos + length new <= length l -> pos <= i < pos + length new ->
  (forall b x, l !! i = Some b -> new !! (i - pos) = Some x -> Z.land b x = x) ->
  program pos new l !! i = new !! (i - pos).
Proof.
  intros Hl Hi Hb. rewrite program_lookup.
  destruct (lookup_lt_is_Some_2 l i) as [b Eb]; [lia|].
  destruct (lookup_lt_is_Some_2 new (i - pos)) as [x Ex]; [lia|].
  rewrite Eb, (proj2 (Nat.leb_le _ _)), Ex by lia. by rewrite (Hb b x).
Qed.

Lemma program_other pos new l i :
  i < pos \/ pos + length new <= i -> program pos new l !! i = l !! i.
Proof.
  intros Hi. rewrite program_lookup. destruct (l !! i) as [b|]; [|done].
  destruct (pos <=? i) eqn:E; [|done]. apply Nat.leb_le in E.
  by rewrite (lookup_ge_None_2 new) by lia.
Qed.

Lemma slice_app off n m l : slice off n l ++ slice (off + n) m l = slice off (n + m) l.
Proof. unfold slice. by rewrite <- drop_drop, take_take_drop. Qed.

Lemma program_app p a b l :
  program (p + length a) b (program p a l) = program p (a ++ b) l.
Proof.
  apply list_eq. intros i. rewrite !program_lookup. destruct (l !! i) as [x|]; [|done].
  destruct (Nat.leb_spec (p + length a) i), (Nat.leb_spec p i); try lia; [| |done].
  - rewrite (lookup_ge_None_2 a), lookup_app_r by lia.
    by replace (i - p - length a) with (i - (p + length a)) by lia.
  - by rewrite lookup_app_l by lia.
Qed.

Lemma program_nil off l : program off [] l = l.
Proof.
  apply list_eq. intros i. rewrite program_lookup. destruct (l !! i); [|done]. by destruct (off <=? i).
Qed.

Section Nor.
Context {hnd : Type}.

(** Inside the device an operation ends; when it fails (a code other than 0)
    it promises nothing but that reading does not change the contents.  What
    is written is a whole number of units. *)
Class NorFlash (o : flash_device_ops hnd) : Type := {
  contents : hnd -> list Z;
  nor_ok : hnd -> Prop;
  nor_unit : nat;
  nor_bytes : forall h, nor_ok h -> Forall is_byte (contents h);
  nor_read : forall h off n, nor_ok h -> off + n <= length (contents h) -> exists res data h',
    ops_read o h (Z.of_nat off) (Z.of_nat n) = Done (res, data, h') /\ nor_ok h' /\
    contents h' = contents h /\ (res = 0%Z -> data = slice off n (contents h));
  nor_write : forall h off buf, nor_ok h -> Forall is_byte buf ->
    Nat.divide nor_unit (length buf) -> off + length buf <= length (contents h) -> exists res h',
    ops_write o h (Z.of_nat off) buf = Done (res, h') /\ nor_ok h' /\
    (res = 0%Z -> contents h' = program off buf (contents h));
  nor_erase : forall h off n, nor_ok h -> off + n <= length (contents h) -> exists res h',
    ops_erase o h (Z.of_nat off) (Z.of_nat n) = Done (res, h') /\ nor_ok h' /\
    (res = 0%Z -> contents h' = erase off n (contents h))
}.

Context {o : flash_device_ops hnd} `{!NorFlash o}.

Abbreviation memory_of dev := (contents (priv_data dev)).

(** Reading moves the handle but not the contents. *)
Definition same_device (dev dev' : flash_device hnd) : Prop :=
  dev' = set_priv (priv_data dev') dev /\ memory_of dev' = memory_of dev /\ nor_ok (priv_data dev').

Lemma same_device_refl dev : nor_ok (priv_data dev) -> same_device dev dev.
Proof. intros Hok. split; [by destruct dev | done]. Qed.

Lemma same_device_trans d1 d2 d3 : same_device d1 d2 -> same_device d2 d3 -> same_device d1 d3.
Proof. intros (E1 & M1 & _) (E2 & M2 & H2). split_and!; [by rewrite E2, E1 | congruence | done]. Qed.

Lemma flash_read_nor (dev : flash_device hnd) off n :
  ops dev = o -> nor_ok (priv_data dev) -> off + n <= length (memory_of dev) ->
  exists res data dev', flash_read dev (Z.of_nat off) (Z.of_nat n) = Done (res, data, dev') /\
    same_device dev dev' /\ (res = 0%Z -> data = slice off n (memory_of dev)).
Proof.
  intros Ho Hok Hl. unfold flash_read. rewrite Ho.
  destruct (nor_read (priv_data dev) off n) as (res & data & h & -> & Hok' & Hc & Hr); [done | done|].
  exists res, data, (set_priv h dev). by split_and!.
Qed.

(** A device that never fails to read what it has. *)
Definition reliable : Prop := forall h off n, nor_ok h -> off + n <= length (contents h) ->
  exists data h', ops_read o h (Z.of_nat off) (Z.of_nat n) = Done (0%Z, data, h').

Lemma flash_read_reliable (dev : flash_device hnd) off n :
  ops dev = o -> nor_ok (priv_data dev) -> off + n <= length (memory_of dev) ->
  exists res data dev', flash_read dev (Z.of_nat off) (Z.of_nat n) = Done (res, data, dev') /\
    same_device dev dev' /\ (res = 0%Z -> data = slice off n (memory_of dev)) /\ (reliable -> res = 0%Z).
Proof.
  intros Ho Hok Hl. destruct (flash_read_nor dev off n Ho Hok Hl) as (res & data & dev' & E & Hs & Hr).
  exists res, data, dev'. split_and!; [done | done | done|]. intros R.
  destruct (R (priv_data dev) off n Hok Hl) as (data' & h' & E'). unfold flash_read in E. rewrite Ho, E' in E. by injection E as <- _ _.
Qed.
End Nor.

Abbreviation memory_of dev := (contents (priv_data dev)).
