(* ===== verification/VbnvStore.v ===== *)
(** * VbnvStore: the verified boot NVRAM as a store of parameters

    On NOR flash the log of blocks keeps one current record: setting a
    parameter replaces it in that record and nothing else. *)

From S2P Require Import Prelude CString FlashDevice NorFlash Vboot.

(** ** Parameters in a byte *)

Lemma byte_bits b : is_byte b <-> (0 <= b)%Z /\ forall i, (8 <= i)%Z -> Z.testbit b i = false.
Proof.
  unfold is_byte. split.
  - intros Hb. split; [lia|]. intros i Hi. rewrite <- (Z.mod_small b (2 ^ 8)) by lia.
    by apply Z.mod_pow2_bits_high.
  - intros [Hb Hi]. split; [done|]. destruct (decide (b = 0)%Z) as [->|Hne]; [lia|].
    apply (Z.log2_lt_pow2 b 8); [lia|]. destruct (decide (8 <= Z.log2 b)%Z) as [Hl|]; [|lia].
    apply Hi in Hl. rewrite Z.bit_log2 in Hl by lia. done.
Qed.

Lemma u8_bits z i : (0 <= i)%Z -> Z.testbit (u8 z) i = (i <? 8)%Z && Z.testbit z i.
Proof.
  intros Hi. unfold wrap. destruct (Z.ltb_spec i 8); cbn [andb].
  - by apply Z.mod_pow2_bits_low.
  - by apply Z.mod_pow2_bits_high.
Qed.

(** Two parameters never overlap: they are in different bytes or use
    different bits. *)
Definition disjoint_params (p q : vbnv_param) : bool :=
  String.eqb (v_name p) (v_name q) || negb (v_offset p =? v_offset q)
  || (Z.land (param_mask p) (param_mask q) =? 0)%Z.

Definition param_okb (p : vbnv_param) : bool :=
  (0 <=? v_shift p)%Z && (0 <=? v_mask p)%Z && (Z.shiftl (v_mask p) (v_shift p) <? 256)%Z
  && (v_offset p <? VB_CRC_OFFSET).

Lemma param_table_ok : forallb param_okb param_table = true.
Proof. vm_compute. reflexivity. Qed.

Lemma param_table_disjoint :
  forallb (fun p => forallb (disjoint_params p) param_table) param_table = true.
Proof. vm_compute. reflexivity. Qed.

Lemma find_param_in name p : find_param name = Some p -> p ∈ param_table /\ v_name p = name.
Proof.
  unfold find_param. intros Hp. destruct (find_idx _ param_table) as [i|] eqn:Ei; [|done]. cbn in Hp.
  apply find_idx_Some in Ei as ((x & Hx & Hq) & _). rewrite Hx in Hp. injection Hp as ->.
  split; [by eapply list_elem_of_lookup_2 | symmetry; by apply String.eqb_eq].
Qed.

Lemma param_ok p : p ∈ param_table ->
  (0 <= v_shift p)%Z /\ (0 <= v_mask p)%Z /\ (Z.shiftl (v_mask p) (v_shift p) < 256)%Z /\
  v_offset p < VB_CRC_OFFSET.
Proof.
  intros Hp. pose proof param_table_ok as Hok. rewrite forallb_forall in Hok.
  specialize (Hok p (proj1 (list_elem_of_In _ _) Hp)). unfold param_okb in Hok.
  rewrite !andb_true_iff, !Z.leb_le, Z.ltb_lt, Nat.ltb_lt in Hok. tauto.
Qed.

Lemma params_disjoint p q : p ∈ param_table -> q ∈ param_table -> v_name p <> v_name q ->
  v_offset p = v_offset q -> Z.land (param_mask p) (param_mask q) = 0%Z.
Proof.
  intros Hp Hq Hne Ho. pose proof param_table_disjoint as Hd. rewrite forallb_forall in Hd.
  specialize (Hd p (proj1 (list_elem_of_In _ _) Hp)). rewrite forallb_forall in Hd.
  specialize (Hd q (proj1 (list_elem_of_In _ _) Hq)). unfold disjoint_params in Hd.
  rewrite !orb_true_iff, negb_true_iff, String.eqb_eq, Nat.eqb_neq, Z.eqb_eq in Hd. tauto.
Qed.

(** The parameter read from a byte, and the byte with it replaced. *)
Definition get_bits (p : vbnv_param) (b : Z) : Z := Z.shiftr (Z.land b (param_mask p)) (v_shift p).

Definition put_bits (p : vbnv_param) (value b : Z) : Z :=
  Z.lor (Z.land b (Z.lnot (param_mask p))) (Z.land (flag_value p value) (param_mask p)).

#[local] Hint Rewrite Z.land_spec Z.lor_spec Z.shiftr_spec Z.shiftl_spec Z.lnot_spec u8_bits using lia : bits.

Lemma mask_bits p i : p ∈ param_table -> (0 <= i)%Z ->
  Z.testbit (param_mask p) i = Z.testbit (v_mask p) (i - v_shift p).
Proof.
  intros Hp Hi. destruct (param_ok p Hp) as (Hs & Hm & Hlt & _). unfold param_mask.
  rewrite u8_bits, Z.shiftl_spec by done. destruct (Z.ltb_spec i 8); cbn [andb]; [done|].
  assert (is_byte (Z.shiftl (v_mask p) (v_shift p))) as [_ Hb]%byte_bits
    by (split; [by apply Z.shiftl_nonneg | done]).
  rewrite <- Z.shiftl_spec by done. by rewrite Hb.
Qed.

Lemma flag_bits p value i : p ∈ param_table -> (0 <= i)%Z ->
  Z.testbit (Z.land (flag_value p value) (param_mask p)) i =
  Z.testbit (param_mask p) i && Z.testbit value (i - v_shift p).
Proof.
  intros Hp Hi. unfold flag_value. autorewrite with bits. rewrite mask_bits by done.
  assert ((i <? 8)%Z = false -> Z.testbit (v_mask p) (i - v_shift p) = false) as H8.
  { intros Hlt. rewrite <- (mask_bits p i) by done. unfold param_mask. rewrite u8_bits by done.
    by rewrite Hlt. }
  destruct (i <? 8)%Z; [|by rewrite H8].
  by destruct (Z.testbit value _), (Z.testbit (v_mask p) _).
Qed.

Lemma get_put_bits p value b : p ∈ param_table ->
  get_bits p (put_bits p value b) = Z.land value (v_mask p).
Proof.
  intros Hp. destruct (param_ok p Hp) as (Hs & Hm & _). apply Z.bits_inj'. intros i Hi.
  unfold get_bits, put_bits. rewrite Z.shiftr_spec, Z.land_spec, Z.lor_spec, flag_bits by (done || lia).
  autorewrite with bits. rewrite mask_bits by (done || lia). rewrite Z.add_simpl_r.
  by destruct (Z.testbit b _), (Z.testbit (v_mask p) i), (Z.testbit value i).
Qed.

Lemma get_put_other p q value b : p ∈ param_table -> q ∈ param_table ->
  Z.land (param_mask p) (param_mask q) = 0%Z -> get_bits q (put_bits p value b) = get_bits q b.
Proof.
  intros Hp Hq Hd. destruct (param_ok q Hq) as (Hs & _ & _). apply Z.bits_inj'. intros i Hi.
  unfold get_bits, put_bits. rewrite !Z.shiftr_spec, !Z.land_spec, Z.lor_spec, flag_bits by (done || lia).
  apply (f_equal (fun z => Z.testbit z (i + v_shift q))) in Hd.
  rewrite Z.land_spec, Z.testbit_0_l in Hd. autorewrite with bits.
  destruct (Z.testbit (param_mask q) _); [|by rewrite !andb_false_r].
  rewrite andb_true_r in Hd. rewrite Hd. cbn. by rewrite andb_true_r, orb_false_r.
Qed.

Lemma put_bits_byte p value b : p ∈ param_table -> is_byte b -> is_byte (put_bits p value b).
Proof.
  intros Hp [Hb Hh]%byte_bits. destruct (param_ok p Hp) as (Hs & Hm & Hlt & _).
  apply byte_bits. unfold put_bits. split.
  - apply Z.lor_nonneg. split; apply Z.land_nonneg; [by left|]. right. unfold param_mask.
    apply wrap_range. lia.
  - intros i Hi. rewrite Z.lor_spec, Z.land_spec, flag_bits, Hh by (done || lia).
    unfold param_mask. rewrite u8_bits by lia. by rewrite (proj2 (Z.ltb_ge _ _)).
Qed.

(** ** The log of blocks *)

Ltac nvlia := unfold VB_NVDATA_SIZE, VB_CRC_OFFSET in *; lia.

(** Of the [n] blocks the first [c] are used, the others blank. *)
Record nv_log (n : nat) (nvram : list Z) (c : nat) : Prop := {
  log_length : length nvram = VB_NVDATA_SIZE * n;
  log_used : c <= n;
  log_data : forall i, i < c -> block_at nvram (VB_NVDATA_SIZE * i) <> blank;
  log_blank : forall i, c <= i < n -> block_at nvram (VB_NVDATA_SIZE * i) = blank
}.

Lemma block_at_slice nvram pos : block_at nvram pos = slice pos VB_NVDATA_SIZE nvram.
Proof. done. Qed.

Lemma block_length n nvram c i :
  nv_log n nvram c -> i < n -> length (block_at nvram (VB_NVDATA_SIZE * i)) = VB_NVDATA_SIZE.
Proof. intros L Hi. apply slice_length. rewrite (log_length _ _ _ L). nvlia. Qed.

Lemma find_block_from n nvram c todo k b :
  nv_log n nvram c -> todo + k = n -> k <= c ->
  find_block todo (VB_NVDATA_SIZE * k) b nvram =
  (if c =? k then b else VB_NVDATA_SIZE * (c - 1), VB_NVDATA_SIZE * c).
Proof.
  intros L. revert k b. induction todo as [|todo IH]; intros k b Hn Hk; cbn [find_block].
  { pose proof (log_used _ _ _ L). assert (c = k) as -> by nvlia. by rewrite Nat.eqb_refl. }
  case_bool_decide as E.
  - destruct (decide (k < c)) as [Hlt|]; [by apply (log_data _ _ _ L) in Hlt|].
    assert (c = k) as -> by nvlia. by rewrite Nat.eqb_refl.
  - assert (k < c) as Hlt.
    { destruct (decide (k < c)); [done|]. exfalso. apply E, (log_blank _ _ _ L). nvlia. }
    replace (VB_NVDATA_SIZE * k + VB_NVDATA_SIZE) with (VB_NVDATA_SIZE * S k) by nvlia.
    rewrite IH by nvlia. rewrite (proj2 (Nat.eqb_neq c k)) by nvlia.
    destruct (Nat.eqb_spec c (S k)) as [->|]; [|done]. by replace (S k - 1) with k by nvlia.
Qed.

Lemma find_block_log n nvram c :
  nv_log n nvram c -> find_block n 0 0 nvram = (VB_NVDATA_SIZE * (c - 1), VB_NVDATA_SIZE * c).
Proof.
  intros L. pose proof (find_block_from n nvram c n 0 0 L ltac:(nvlia) ltac:(nvlia)) as E.
  rewrite Nat.mul_0_r in E. rewrite E. destruct (Nat.eqb_spec c 0) as [->|]; [|done].
  by rewrite Nat.mul_0_r.
Qed.

Lemma overwritable_spec block new :
  overwritable block new = true <->
  forall i b x, block !! i = Some b -> new !! i = Some x -> Z.land b x = x.
Proof.
  unfold overwritable. rewrite forallb_forall. split.
  - intros H i b x Hb Hx. assert (zip block new !! i = Some (b, x)) as Hc
      by (rewrite lookup_zip_with, Hb; cbn; by rewrite Hx).
    apply list_elem_of_lookup_2, list_elem_of_In, H in Hc. by apply Z.eqb_eq.
  - intros H [b x] Hin. apply list_elem_of_In, list_elem_of_lookup in Hin as [i Hi].
    rewrite lookup_zip_with in Hi.
    destruct (block !! i) as [b'|] eqn:Eb; cbn in Hi; [|done].
    destruct (new !! i) as [x'|] eqn:Ex; cbn in Hi; [|done]. injection Hi as -> ->.
    apply Z.eqb_eq. by eapply H.
Qed.

Lemma blank_overwritable new : Forall is_byte new -> overwritable blank new = true.
Proof.
  intros Hn. apply overwritable_spec. intros i b x Hb Hx. apply replicate_lookup_None in Hb as ->.
  pose proof (Forall_lookup_1 _ _ _ _ Hn Hx) as [H0 H1]. rewrite Z.land_comm. change 255%Z with (Z.ones 8).
  rewrite Z.land_ones by nvlia. by apply Z.mod_small.
Qed.

(** Programming block [k], the last used or the first blank, over bytes it can
    overwrite. *)
Lemma nv_log_program n nvram c k new :
  nv_log n nvram c -> k < n -> k = c \/ k = c - 1 -> length new = VB_NVDATA_SIZE -> new <> blank ->
  overwritable (block_at nvram (VB_NVDATA_SIZE * k)) new = true ->
  nv_log n (program (VB_NVDATA_SIZE * k) new nvram) (S k) /\
  block_at (program (VB_NVDATA_SIZE * k) new nvram) (VB_NVDATA_SIZE * k) = new.
Proof.
  intros L Hk Hc Hl Hnb Hov. rewrite overwritable_spec in Hov. pose proof (log_length _ _ _ L) as Hlen.
  assert (forall i, i < n -> i <> k -> block_at (program (VB_NVDATA_SIZE * k) new nvram) (VB_NVDATA_SIZE * i)
                              = block_at nvram (VB_NVDATA_SIZE * i)) as Hother.
  { intros i Hi Hne. apply (list_eq_upto VB_NVDATA_SIZE); rewrite ?block_at_slice.
    - apply slice_length. rewrite program_length. nvlia.
    - apply slice_length. nvlia.
    - intros j Hj. rewrite !slice_lookup by done. apply program_other. unfold VB_NVDATA_SIZE in *. nvlia. }
  assert (block_at (program (VB_NVDATA_SIZE * k) new nvram) (VB_NVDATA_SIZE * k) = new) as Hnew.
  { apply (list_eq_upto VB_NVDATA_SIZE); [|done|].
    - apply slice_length. rewrite program_length. nvlia.
    - intros j Hj. rewrite block_at_slice, slice_lookup by done.
      rewrite program_same, Nat.add_comm, Nat.add_sub; [done | nvlia | nvlia |].
      intros b x Hb Hx. rewrite Nat.add_comm, Nat.add_sub in Hx. apply (Hov j); [|done].
      by rewrite block_at_slice, slice_lookup. }
  split; [|done]. split.
  - by rewrite program_length.
  - nvlia.
  - intros i Hi. destruct (decide (i = k)) as [->|Hne]; [by rewrite Hnew|].
    rewrite Hother by nvlia. apply (log_data _ _ _ L). nvlia.
  - intros i Hi. rewrite Hother by nvlia. apply (log_blank _ _ _ L). nvlia.
Qed.

Lemma nv_log_erased n : nv_log n (replicate (VB_NVDATA_SIZE * n) 255%Z) 0.
Proof.
  split; [apply length_replicate | nvlia | nvlia|]. intros i Hi.
  apply (list_eq_upto VB_NVDATA_SIZE); [|apply length_replicate|].
  - apply slice_length. rewrite length_replicate. nvlia.
  - intros j Hj. unfold blank. rewrite block_at_slice, slice_lookup, !lookup_replicate_2 by
      (nvlia). done.
Qed.

(** ** The block that is written *)

Lemma crc8_byte_range data : is_byte (crc8 data).
Proof. unfold crc8. apply (wrap_range 8). nvlia. Qed.

Lemma updated_block_spec p value block :
  p ∈ param_table -> length block = VB_NVDATA_SIZE -> Forall is_byte block ->
  exists dummy, updated_block p value block = Done dummy /\ length dummy = VB_NVDATA_SIZE /\
    Forall is_byte dummy /\ dummy <> blank /\
    (exists b, block !! v_offset p = Some b /\ dummy !! v_offset p = Some (put_bits p value b)) /\
    (forall i, i <> v_offset p -> i <> VB_CRC_OFFSET -> dummy !! i = block !! i) /\
    dummy !! VB_CRC_OFFSET = Some (crc8 (take VB_CRC_OFFSET dummy)).
Proof.
  intros Hp Hl Hb. destruct (param_ok p Hp) as (_ & _ & _ & Ho).
  destruct (lookup_lt_is_Some_2 block (v_offset p)) as [b Eb]; [nvlia|].
  unfold updated_block. rewrite Eb. cbn [access]. rewrite bind_Done_eq. fold (put_bits p value b).
  set (d1 := <[v_offset p := put_bits p value b]> block). eexists. split; [done|].
  assert (length d1 = VB_NVDATA_SIZE) as Hl1 by (unfold d1; by rewrite length_insert).
  assert (Forall is_byte d1) as Hb1.
  { apply Forall_insert; [done|]. apply put_bits_byte; [done|]. by apply (Forall_lookup_1 _ _ _ _ Hb Eb). }
  set (d2 := <[VB_CRC_OFFSET := _]> d1).
  assert (take VB_CRC_OFFSET d2 = take VB_CRC_OFFSET d1) as Ht by (apply take_insert_ge; nvlia).
  assert (d2 !! VB_CRC_OFFSET = Some (crc8 (take VB_CRC_OFFSET d1))) as Hcrc
    by (apply list_lookup_insert_eq; rewrite Hl1; nvlia).
  split_and!.
  - unfold d2. by rewrite length_insert.
  - apply Forall_insert; [done | apply crc8_byte_range].
  - intros E. rewrite <- Ht, E in Hcrc. vm_compute in Hcrc. discriminate Hcrc.
  - exists b. split; [done|]. unfold d2. rewrite list_lookup_insert_ne by nvlia.
    apply list_lookup_insert_eq. by eapply lookup_lt_Some.
  - intros i H1 H2. unfold d2, d1. by rewrite !list_lookup_insert_ne by done.
  - by rewrite Ht.
Qed.

(** ** The NVRAM of a device *)

Section Store.
Context {hnd : Type} (o : flash_device_ops hnd) `{!NorFlash o} (alloc : Z -> bool) (fuel : nat).
Abbreviation device := (flash_device hnd).

(** The NVRAM section, of [n] blocks from [off] on. *)
Definition nvram_of (off n : nat) (spi : device) : list Z :=
  slice off (VB_NVDATA_SIZE * n) (memory_of spi).

(** An open device whose map is known and has an NVRAM, a log of [n] blocks of
    which [c] are used. *)
Record store_ok (off n c : nat) (spi : device) : Prop := {
  st_ops : ops spi = o;
  st_ok : nor_ok (priv_data spi);
  st_unit : Nat.divide nor_unit VB_NVDATA_SIZE;
  st_map : exists fm, fmap_cache spi = Some fm /\
    find_section fm "RW_NVRAM" = Done (Some (Z.of_nat (VB_NVDATA_SIZE * n), Z.of_nat off));
  st_size : 1 <= n;
  st_fits : off + VB_NVDATA_SIZE * n <= length (memory_of spi);
  st_log : nv_log n (nvram_of off n spi) c;
  st_write : write_size spi <> 0%Z;
  st_erase : erase_size spi <> 0%Z
}.

(** The current record. *)
Definition current (off n c : nat) (spi : device) : list Z :=
  block_at (nvram_of off n spi) (VB_NVDATA_SIZE * (c - 1)).

Lemma store_ok_same off n c spi spi' :
  store_ok off n c spi -> same_device spi spi' ->
  store_ok off n c spi' /\ current off n c spi' = current off n c spi.
Proof.
  intros [] (E & M & Hok). assert (nvram_of off n spi' = nvram_of off n spi) as En
    by (unfold nvram_of; by rewrite M).
  split; [|unfold current; by rewrite En].
  split; try done; try (rewrite E; done); [by rewrite M | by rewrite En].
Qed.

Lemma nvram_bytes off n spi : nor_ok (priv_data spi) -> Forall is_byte (nvram_of off n spi).
Proof. intros Hok. by apply Forall_take, Forall_drop, nor_bytes. Qed.

Lemma current_facts off n c spi :
  store_ok off n c spi ->
  length (current off n c spi) = VB_NVDATA_SIZE /\ Forall is_byte (current off n c spi).
Proof.
  intros S. pose proof (st_size _ _ _ _ S). pose proof (log_used _ _ _ (st_log _ _ _ _ S)). split.
  - eapply block_length; [apply S|]. lia.
  - apply Forall_take, Forall_drop, nvram_bytes, S.
Qed.

(** The section is read, or nothing. *)
Lemma read_nvram_spec off n c spi :
  store_ok off n c spi ->
  exists r spi', vbnv_read_nvram alloc fuel spi = Done (r, spi') /\ same_device spi spi' /\
    (r = None \/ r = Some (nvram_of off n spi, VB_NVDATA_SIZE * n, Z.of_nat off)).
Proof.
  intros S. destruct (st_map _ _ _ _ S) as (fm & Hfm & Hsec).
  unfold vbnv_read_nvram, fmap_read_section, flash_get_fmap. rewrite Hfm, !bind_Done_eq, Hfm, Hsec.
  rewrite !bind_Done_eq. pose proof (same_device_refl spi (st_ok _ _ _ _ S)) as Hrefl.
  destruct (alloc _); cbn [negb]; [|rewrite bind_Done_eq; by exists None, spi; auto].
  destruct (flash_read_nor spi off (VB_NVDATA_SIZE * n)) as (res & data & spi' & -> & Hsame & Hr); [apply S..|].
  rewrite !bind_Done_eq.
  destruct (Z.eqb_spec res 0) as [->|]; cbn [negb]; rewrite bind_Done_eq;
    [|by exists None, spi'; auto].
  rewrite (Hr eq_refl). pose proof (st_size _ _ _ _ S). 
  rewrite (proj2 (Z.ltb_ge _ _)) by nvlia. cbn [orb].
  rewrite Nat2Z.inj_mul, Z.mul_comm, Z.mod_mul by nvlia. cbn [Z.eqb negb].
  eexists _, _. split; [done|]. split; [done|]. right. do 3 f_equal; nvlia.
Qed.

Lemma blocks_count n : VB_NVDATA_SIZE * n / VB_NVDATA_SIZE = n.
Proof. rewrite Nat.mul_comm. by apply Nat.div_mul. Qed.

(** Reading a parameter. *)
Lemma get_spec off n c spi p value :
  store_ok off n c spi -> p ∈ param_table ->
  exists rc w spi', vbnv_readwrite alloc fuel spi p value false = Done (rc, w, spi') /\
    same_device spi spi' /\ (rc = 0%Z \/ rc = (- EIO)%Z) /\
    (rc = 0%Z -> exists b, current off n c spi !! v_offset p = Some b /\ w = get_bits p b).
Proof.
  intros S Hp. destruct (param_ok p Hp) as (_ & _ & _ & Ho).
  destruct (current_facts _ _ _ _ S) as [Hl _].
  unfold vbnv_readwrite. rewrite (proj2 (Nat.leb_gt _ _)) by nvlia.
  destruct (read_nvram_spec _ _ _ _ S) as (r & spi' & -> & Hsame & Hr). rewrite bind_Done_eq.
  destruct Hr as [->| ->]; [by eexists _, _, _; split_and!; eauto|].
  rewrite blocks_count, (find_block_log _ _ _ (st_log _ _ _ _ S)). fold (current off n c spi).
  destruct (lookup_lt_is_Some_2 (current off n c spi) (v_offset p)) as [b Hb]; [nvlia|].
  rewrite Hb. cbn [access]. rewrite bind_Done_eq. eexists _, _, _. split_and!; eauto.
Qed.

Lemma flash_write_nor spi a buf :
  ops spi = o -> nor_ok (priv_data spi) -> write_size spi <> 0%Z -> Forall is_byte buf ->
  Nat.divide nor_unit (length buf) -> a + length buf <= length (memory_of spi) ->
  exists rc spi', flash_write spi (Z.of_nat a) buf = Done (rc, spi') /\
    (rc = 0%Z -> spi' = set_priv (priv_data spi') spi /\ nor_ok (priv_data spi') /\
                 memory_of spi' = program a buf (memory_of spi)).
Proof.
  intros Ho Hok Hw Hb Hu Hl. unfold flash_write, misaligned. rewrite (proj2 (Z.eqb_neq _ _) Hw), !bind_Done_eq.
  destruct (_ || _); [eexists _, _; split; [done|]; unfold EINVAL; lia|].
  rewrite Ho. destruct (nor_write (priv_data spi) a buf) as (res & h & -> & Hok' & Hr); [done..|].
  rewrite bind_Done_eq. eexists _, _. split; [done|]. intros E. by split_and!; [| |apply Hr].
Qed.

Lemma flash_erase_nor spi a n :
  ops spi = o -> nor_ok (priv_data spi) -> erase_size spi <> 0%Z ->
  a + n <= length (memory_of spi) ->
  exists rc spi', flash_erase spi (Z.of_nat a) (Z.of_nat n) = Done (rc, spi') /\
    (rc = 0%Z -> spi' = set_priv (priv_data spi') spi /\ nor_ok (priv_data spi') /\
                 memory_of spi' = erase a n (memory_of spi)).
Proof.
  intros Ho Hok He Hl. unfold flash_erase, misaligned. rewrite (proj2 (Z.eqb_neq _ _) He), !bind_Done_eq.
  destruct (_ || _); [eexists _, _; split; [done|]; unfold EINVAL; lia|].
  rewrite Ho. destruct (nor_erase (priv_data spi) a n) as (res & h & -> & Hok' & Hr); [done..|].
  rewrite bind_Done_eq. eexists _, _. split; [done|]. intros E. by split_and!; [| |apply Hr].
Qed.

(** What is outside the section. *)
Definition outside (off n i : nat) : Prop := i < off \/ off + VB_NVDATA_SIZE * n <= i.

(** The new record is block [k], the last used, the first blank, or the first
    of the erased section. *)
Lemma write_block_spec off n c spi spi0 k new :
  store_ok off n c spi -> k < n -> k = c \/ k = c - 1 -> length new = VB_NVDATA_SIZE ->
  Forall is_byte new -> new <> blank ->
  overwritable (block_at (nvram_of off n spi) (VB_NVDATA_SIZE * k)) new = true ->
  (forall i, outside off n i -> memory_of spi !! i = memory_of spi0 !! i) ->
  exists rc spi', flash_write spi (Z.of_nat off + Z.of_nat (VB_NVDATA_SIZE * k)) new = Done (rc, spi') /\
    (rc = 0%Z -> store_ok off n (S k) spi' /\ current off n (S k) spi' = new /\
       forall i, outside off n i -> memory_of spi' !! i = memory_of spi0 !! i).
Proof.
  intros S Hk Hc Hl Hb Hnb Hov Hout. rewrite <- Nat2Z.inj_add.
  pose proof (st_fits _ _ _ _ S) as Hfits.
  destruct (flash_write_nor spi (off + VB_NVDATA_SIZE * k) new) as (rc & spi' & E & Hrc);
    [apply S | apply S | apply S | done | rewrite Hl; apply S | nvlia|].
  exists rc, spi'. split; [done|]. intros ->. destruct (Hrc eq_refl) as (Es & Hok & Em).
  assert (nvram_of off n spi' = program (VB_NVDATA_SIZE * k) new (nvram_of off n spi)) as En.
  { unfold nvram_of. rewrite Em. apply slice_program; [done | nvlia]. }
  destruct (nv_log_program n _ c k new (st_log _ _ _ _ S)) as [L Hnew]; try done.
  split_and!.
  - destruct S. split; try done; try (rewrite Es; done).
    + by rewrite Em, program_length.
    + by rewrite En.
  - unfold current. rewrite En, Nat.sub_succ, Nat.sub_0_r. done.
  - intros i Hi. rewrite Em, program_other; [by apply Hout|]. unfold outside in Hi. nvlia.
Qed.

(** An operation whose failure is reported as -EIO. *)
Lemma eio_tail (m : outcome (Z * device)) (P : device -> Prop) :
  (exists rc spi', m = Done (rc, spi') /\ (rc = 0%Z -> P spi')) ->
  exists rc spi',
    ('(res, spi) ← m; if negb (res =? 0)%Z then Done ((- EIO)%Z, spi) else Done (0%Z, spi))
    = Done (rc, spi') /\ (rc = 0%Z \/ rc = (- EIO)%Z) /\ (rc = 0%Z -> P spi').
Proof.
  intros (rc & spi' & -> & HP). rewrite bind_Done_eq.
  destruct (Z.eqb_spec rc 0) as [->|]; cbn [negb]; eexists _, _; (split; [done|]); split; auto.
  unfold EIO. lia.
Qed.

(** The write branch. *)
Lemma write_spec off n c spi p value new :
  store_ok off n c spi -> p ∈ param_table -> updated_block p value (current off n c spi) = Done new ->
  length new = VB_NVDATA_SIZE -> Forall is_byte new -> new <> blank ->
  exists rc spi', vbnv_write_block spi p value (nvram_of off n spi) (VB_NVDATA_SIZE * n) (Z.of_nat off)
      (VB_NVDATA_SIZE * (c - 1)) (VB_NVDATA_SIZE * c) = Done (rc, spi') /\
    (rc = 0%Z \/ rc = (- EIO)%Z) /\
    (rc = 0%Z -> exists c', store_ok off n c' spi' /\ current off n c' spi' = new /\
       forall i, outside off n i -> memory_of spi' !! i = memory_of spi !! i).
Proof.
  intros S Hp Enew Hl Hb Hnb. pose proof (st_log _ _ _ _ S) as L. pose proof (log_used _ _ _ L).
  pose proof (st_size _ _ _ _ S). unfold vbnv_write_block. fold (current off n c spi).
  rewrite Enew, bind_Done_eq.
  destruct (overwritable (current off n c spi) new) eqn:Eov.
  { rewrite bind_Done_eq. cbn [negb Z.eqb]. apply eio_tail.
    destruct (write_block_spec off n c spi spi (c - 1) new) as (rc & spi' & -> & Hrc);
      [done | lia | auto | done | done | done | exact Eov | done |].
    eexists _, _. split; [done|]. intros E. destruct (Hrc E). eauto. }
  destruct (Nat.eqb_spec (VB_NVDATA_SIZE * c) (VB_NVDATA_SIZE * n)) as [Ec|Ec]; cbn [negb].
  - destruct (flash_erase_nor spi off (VB_NVDATA_SIZE * n)) as (rc & spi1 & -> & Hrc); [apply S..|].
    rewrite !bind_Done_eq. destruct (Z.eqb_spec rc 0) as [->|]; cbn [negb];
      [|eexists _, _; split; [done|]; split; [auto | unfold EIO; lia]].
    destruct (Hrc eq_refl) as (Es & Hok & Em). pose proof (st_fits _ _ _ _ S) as Hfits.
    assert (nvram_of off n spi1 = replicate (VB_NVDATA_SIZE * n) 255%Z) as En
      by (unfold nvram_of; rewrite Em; by apply slice_erase).
    assert (store_ok off n 0 spi1) as S1.
    { destruct S. split; try done; try (rewrite Es; done); [by rewrite Em, erase_length|].
      rewrite En. apply nv_log_erased. }
    destruct (write_block_spec off n 0 spi1 spi 0 new) as (rc & spi' & E & Hrc');
      [done | lia | auto | done | done | done | | | ].
    { rewrite (log_blank _ _ _ (st_log _ _ _ _ S1)) by lia. by apply blank_overwritable. }
    { intros i Hi. rewrite Em, erase_lookup. destruct (memory_of spi !! i); [|done].
      destruct (Nat.leb_spec off i), (Nat.ltb_spec i (off + VB_NVDATA_SIZE * n)); try done.
      unfold outside in Hi. lia. }
    rewrite Nat.mul_0_r, Z.add_0_r in E. apply eio_tail.
    rewrite E. eexists _, _. split; [done|]. intros E0. destruct (Hrc' E0). eauto.
  - rewrite bind_Done_eq. cbn [negb Z.eqb]. apply eio_tail.
    destruct (write_block_spec off n c spi spi c new) as (rc & spi' & -> & Hrc);
      [done | nvlia | auto | done | done | done | | done | ].
    { rewrite (log_blank _ _ _ L) by nvlia. by apply blank_overwritable. }
    eexists _, _. split; [done|]. intros E. destruct (Hrc E). eauto.
Qed.

(** Setting a parameter. *)
Lemma set_spec off n c spi p value :
  store_ok off n c spi -> p ∈ param_table ->
  exists rc spi', vbnv_readwrite alloc fuel spi p value true = Done (rc, value, spi') /\
    (rc = 0%Z \/ rc = (- EIO)%Z) /\
    (rc = 0%Z -> exists c', store_ok off n c' spi' /\
       updated_block p value (current off n c spi) = Done (current off n c' spi') /\
       forall i, outside off n i -> memory_of spi' !! i = memory_of spi !! i).
Proof.
  intros S Hp. destruct (param_ok p Hp) as (_ & _ & _ & Ho).
  destruct (current_facts _ _ _ _ S) as [Hl Hb].
  unfold vbnv_readwrite. rewrite (proj2 (Nat.leb_gt _ _)) by nvlia.
  destruct (read_nvram_spec _ _ _ _ S) as (r & spi1 & -> & Hsame & Hr). rewrite bind_Done_eq.
  destruct Hr as [->| ->]; [by eexists _, _; split_and!; eauto; unfold EIO; lia|].
  destruct (store_ok_same _ _ _ _ _ S Hsame) as [S1 Ecur].
  destruct (updated_block_spec p value _ Hp Hl Hb) as (new & Enew & Hln & Hbn & Hnb & _).
  rewrite blocks_count, (find_block_log _ _ _ (st_log _ _ _ _ S)).
  assert (memory_of spi1 = memory_of spi) as Em by apply Hsame.
  assert (nvram_of off n spi = nvram_of off n spi1) as -> by (unfold nvram_of; by rewrite Em).
  rewrite <- Ecur in Enew. destruct (write_spec _ _ _ _ _ _ _ S1 Hp Enew Hln Hbn Hnb) as (rc & spi' & -> & Hrc & H0).
  rewrite bind_Done_eq. exists rc, spi'. split; [done|]. split; [done|]. intros E.
  destruct (H0 E) as (c' & S' & E' & Hout). exists c'. rewrite E', <- Ecur, <- Em. by split_and!.
Qed.

(** C9.  Setting a parameter of the NVRAM and getting parameters back.  On NOR
    flash whose map has been read, when the section is a log of used blocks followed
    by blank ones, vbnv_set_flag ends with 0 or -EIO.  When it returns 0, the section is
    again such a log, the bytes outside it are unchanged, the current record
    has a correct checksum, and vbnv_get_flag, which ends with 0 or -EIO, gives
    for the parameter that was set the value masked to its width, and for any
    other parameter what it gave before. *)
Theorem vbnv_set_get off n c spi name p value :
  store_ok off n c spi -> find_param name = Some p -> v_writable p = true ->
  exists rc spi1, vbnv_set_flag alloc fuel spi name value = Done (rc, spi1) /\
    (rc = 0%Z \/ rc = (- EIO)%Z) /\
    (rc = 0%Z -> exists c', store_ok off n c' spi1 /\
      (forall i, outside off n i -> memory_of spi1 !! i = memory_of spi !! i) /\
      current off n c' spi1 !! VB_CRC_OFFSET = Some (crc8 (take VB_CRC_OFFSET (current off n c' spi1))) /\
      forall name' q w, find_param name' = Some q ->
        exists rc' new spi2, vbnv_get_flag alloc fuel spi1 name' w = Done (rc', new, spi2) /\
          (rc' = 0%Z \/ rc' = (- EIO)%Z) /\
          (rc' = 0%Z -> if String.eqb name' name then new = Z.land value (v_mask p)
             else forall w0 old spi0,
               vbnv_get_flag alloc fuel spi name' w0 = Done (0%Z, old, spi0) -> new = old)).
Proof.
  intros S Hf Hw. destruct (find_param_in _ _ Hf) as [Hp Hn].
  unfold vbnv_set_flag. rewrite Hf, Hw.
  destruct (set_spec off n c spi p value S Hp) as (rc & spi1 & -> & Hrc & H0). rewrite bind_Done_eq.
  exists rc, spi1. split; [done|]. split; [done|]. intros ->.
  destruct (H0 eq_refl) as (c' & S' & Eup & Hout). exists c'.
  destruct (current_facts _ _ _ _ S) as [Hl Hb].
  destruct (updated_block_spec p value _ Hp Hl Hb) as (new & Enew & _ & _ & _ & (b & Eb & Eb') & Hother & Hcrc).
  rewrite Enew in Eup. injection Eup as Eup. rewrite <- Eup. split_and!; [done | done | done|].
  intros name' q w Hf'. destruct (find_param_in _ _ Hf') as [Hq Hnq]. unfold vbnv_get_flag. rewrite Hf'.
  destruct (get_spec off n c' spi1 q w S' Hq) as (rc' & r & spi2 & -> & _ & Hrc' & Hr).
  exists rc', r, spi2. split; [done|]. split; [done|]. intros ->. destruct (Hr eq_refl) as (b' & Hb' & ->).
  rewrite <- Eup in Hb'. destruct (String.eqb_spec name' name) as [->|Hne].
  - assert (q = p) as -> by congruence. rewrite Eb' in Hb'. injection Hb' as <-. by apply get_put_bits.
  - intros w0 old spi0 Hold. destruct (get_spec off n c spi q w0 S Hq) as (rc0 & r0 & s0 & E0 & _ & _ & Hr0).
    rewrite E0 in Hold. injection Hold as -> -> _. destruct (Hr0 eq_refl) as (b0 & Hb0 & ->).
    destruct (decide (v_offset q = v_offset p)) as [Ho|Ho].
    + rewrite Ho in Hb0, Hb'. rewrite Eb' in Hb'. rewrite Eb in Hb0. injection Hb' as <-. injection Hb0 as <-.
      apply get_put_other; [done | done|]. apply params_disjoint; congruence.
    + destruct (param_ok q Hq) as (_ & _ & _ & Hlt). rewrite Hother in Hb' by (done || nvlia). congruence.
Qed.
End Store.
