(* ===== verification/Crc8.v ===== *)
(** * Crc8: the checksum of the NVRAM records

    crc8 keeps its remainder in the second byte of a 32-bit word.  It is the
    CRC-8 of generator x^8 + x^2 + x + 1, and any error in one byte changes
    it. *)

From S2P Require Import Prelude CString FlashDevice NorFlash Vboot VbnvStore.

Lemma lxor_byte a b : is_byte a -> is_byte b -> is_byte (Z.lxor a b).
Proof.
  intros [H0 Ha]%byte_bits [H1 Hb]%byte_bits. apply byte_bits. split; [by apply Z.lxor_nonneg|].
  intros i Hi. by rewrite Z.lxor_spec, Ha, Hb.
Qed.

(** ** A remainder kept in the second byte of a word, byte after byte *)

Section Fold.
Variables (wide narrow : Z -> Z).
Hypothesis narrow_spec : forall x, is_byte x -> wide (Z.shiftl x 8) = Z.shiftl (narrow x) 8 /\ is_byte (narrow x).
Hypothesis narrow_inj : forall x y, is_byte x -> is_byte y -> narrow x = narrow y -> x = y.

Abbreviation wide_byte := (fun c b => wide (Z.lxor c (Z.shiftl b 8))).
Definition narrow_byte (r b : Z) : Z := narrow (Z.lxor r b).

Lemma narrow_byte_range r b : is_byte r -> is_byte b -> is_byte (narrow_byte r b).
Proof. intros Hr Hb. by apply narrow_spec, lxor_byte. Qed.

Lemma fold_agrees data r :
  is_byte r -> Forall is_byte data ->
  fold_left wide_byte data (Z.shiftl r 8) = Z.shiftl (fold_left narrow_byte data r) 8 /\
  is_byte (fold_left narrow_byte data r).
Proof.
  revert r. induction data as [|b data IH]; intros r Hr Hd; [done|].
  apply list.Forall_cons in Hd as [Hb Hd]. cbn [fold_left].
  destruct (narrow_spec (Z.lxor r b)) as [E Hx]; [by apply lxor_byte|].
  rewrite <- Z.shiftl_lxor, E. by apply IH.
Qed.

Lemma narrow_byte_inj r s b :
  is_byte r -> is_byte s -> is_byte b -> narrow_byte r b = narrow_byte s b -> r = s.
Proof.
  intros Hr Hs Hb E. apply narrow_inj in E; [|by apply lxor_byte..].
  apply (f_equal (fun z => Z.lxor z b)) in E.
  by rewrite !Z.lxor_assoc, Z.lxor_nilpotent, !Z.lxor_0_r in E.
Qed.

Lemma fold_injective data r s :
  is_byte r -> is_byte s -> Forall is_byte data ->
  fold_left narrow_byte data r = fold_left narrow_byte data s -> r = s.
Proof.
  revert r s. induction data as [|b data IH]; intros r s Hr Hs Hd E; [done|].
  apply list.Forall_cons in Hd as [Hb Hd]. cbn [fold_left] in E.
  apply IH in E; [|by apply narrow_byte_range..|done]. by apply narrow_byte_inj in E.
Qed.

Lemma fold_detects l b b' l' r :
  is_byte r -> Forall is_byte (l ++ b :: l') -> is_byte b' -> b' <> b ->
  fold_left narrow_byte (l ++ b' :: l') r <> fold_left narrow_byte (l ++ b :: l') r.
Proof.
  intros Hr Hd Hb' Hne E. apply Forall_app in Hd as [Hl [Hb Hl']%list.Forall_cons].
  rewrite !fold_left_app in E. cbn [fold_left] in E.
  destruct (fold_agrees l r Hr Hl) as [_ Hx].
  apply fold_injective in E; [|by apply narrow_byte_range..|done].
  apply narrow_inj in E; [|by apply lxor_byte..]. apply Hne.
  apply (f_equal (Z.lxor (fold_left narrow_byte l r))) in E.
  by rewrite <- !Z.lxor_assoc, Z.lxor_nilpotent, !Z.lxor_0_l in E.
Qed.
End Fold.

(** ** The reference *)

(** One step of the division on an 8-bit remainder, the generator without its
    leading term being 7. *)
Definition crc_step (r : Z) : Z :=
  if Z.testbit r 7 then Z.lxor (u8 (2 * r)) 7 else u8 (2 * r).

Definition crc_steps : Z -> Z := Nat.iter 8 crc_step.

(** Byte after byte, from the remainder 0. *)
Definition crc_reference (data : list Z) : Z := fold_left (narrow_byte crc_steps) data 0%Z.

Definition bytes : list Z := map Z.of_nat (seq 0 256).

Lemma elem_of_bytes x : x ∈ bytes <-> is_byte x.
Proof.
  unfold bytes. rewrite list_elem_of_fmap. split.
  - intros (k & -> & Hk%elem_of_seq). unfold is_byte. lia.
  - intros Hx. exists (Z.to_nat x). unfold is_byte in Hx. split; [lia | apply elem_of_seq; lia].
Qed.

Lemma bytes_forallb (f : Z -> bool) x : forallb f bytes = true -> is_byte x -> f x = true.
Proof. intros Hf Hx. rewrite forallb_forall in Hf. by apply Hf, list_elem_of_In, elem_of_bytes. Qed.

Definition agrees (w r : Z) : bool := (w =? Z.shiftl r 8)%Z && ((0 <=? r)%Z && (r <? 256)%Z).

Lemma agrees_spec w r : agrees w r = true -> w = Z.shiftl r 8 /\ is_byte r.
Proof. unfold agrees, is_byte. rewrite !andb_true_iff, Z.eqb_eq, Z.leb_le, Z.ltb_lt. tauto. Qed.

Lemma inner_agrees :
  forallb (fun x => agrees (crc8_bits 8 (Z.shiftl x 8)) (crc_steps x)) bytes = true.
Proof. vm_compute. reflexivity. Qed.

Lemma inner_loop x :
  is_byte x -> crc8_bits 8 (Z.shiftl x 8) = Z.shiftl (crc_steps x) 8 /\
               is_byte (crc_steps x).
Proof. intros Hx. exact (agrees_spec _ _ (bytes_forallb _ x inner_agrees Hx)). Qed.

(** The eight steps undo nothing: the remainder determines what it came from. *)
Lemma steps_injective x y :
  is_byte x -> is_byte y -> crc_steps x = crc_steps y -> x = y.
Proof.
  intros Hx%elem_of_bytes Hy%elem_of_bytes E.
  assert (NoDup (map (crc_steps) bytes)) as Hnd
    by (apply (bool_decide_unpack _); vm_compute; reflexivity).
  apply list_elem_of_lookup in Hx as [i Hi], Hy as [j Hj].
  change (map (crc_steps) bytes) with (crc_steps <$> bytes) in Hnd.
  assert (i = j) as <-; [|congruence].
  eapply (NoDup_lookup _ _ _ (crc_steps x) Hnd); rewrite list_lookup_fmap;
    [by rewrite Hi | by rewrite Hj, E].
Qed.

Lemma crc8_reference data : Forall is_byte data -> crc8 data = crc_reference data.
Proof.
  intros Hd. destruct (fold_agrees (crc8_bits 8) crc_steps inner_loop data 0) as [E Hr];
    [unfold is_byte; lia | done|].
  rewrite Z.shiftl_0_l in E. unfold crc8. rewrite E, Z.shiftr_shiftl_l, Z.sub_diag, Z.shiftl_0_r by lia. exact (wrap_small 8 _ Hr).
Qed.

Lemma crc_reference_detects l b b' l' :
  Forall is_byte (l ++ b :: l') -> is_byte b' -> b' <> b ->
  crc_reference (l ++ b' :: l') <> crc_reference (l ++ b :: l').
Proof.
  apply (fold_detects (crc8_bits 8) crc_steps inner_loop steps_injective). unfold is_byte. lia.
Qed.

(** C26.  crc8 computes the CRC-8 of its data, the remainder of the division
    by x^8 + x^2 + x + 1, and changing one byte of the data, whatever its place
    and its new value, changes the checksum. *)
Theorem crc8_is_crc l b l' :
  Forall is_byte (l ++ b :: l') ->
  crc8 (l ++ b :: l') = crc_reference (l ++ b :: l') /\
  forall b', is_byte b' -> b' <> b -> crc8 (l ++ b' :: l') <> crc8 (l ++ b :: l').
Proof.
  intros Hd. split; [by apply crc8_reference|]. intros b' Hb' Hne.
  rewrite !crc8_reference; [by apply crc_reference_detects | done|].
  apply Forall_app in Hd as [Hl [Hb Hl']%list.Forall_cons]. apply Forall_app.
  split; [done|]. by apply list.Forall_cons.
Qed.

Lemma crc8_is_crc_witness :
  crc8 [1; 2; 3]%Z = 72%Z /\ crc8 [1; 2; 3]%Z = crc_reference [1; 2; 3]%Z /\
  crc8 [1; 5; 3]%Z <> crc8 [1; 2; 3]%Z.
Proof.
  assert (Forall is_byte ([1] ++ 2 :: [3])%Z) as F by (repeat (apply list.Forall_cons; split; [unfold is_byte; lia|]); constructor).
  destruct (crc8_is_crc [1%Z] 2%Z [3%Z] F) as [E H].
  split; [vm_compute; reflexivity|]. split; [exact E|].
  apply (H 5%Z); [unfold is_byte; lia | discriminate].
Defined.
