(* ===== verification/FlashMap.v ===== *)
(** * FlashMap: finding a section through the map of the flash

    A flash whose map lists some areas: the scan finds the map, the search the
    first area with a name, and reading the section gives its bytes. *)

From S2P Require Import Prelude CString FlashDevice NorFlash.

(** ** The format of a map *)

Record area : Type := Area { ar_name : string; ar_offset : Z; ar_size : Z; ar_flags : Z }.

Fixpoint chars (s : string) : list Z :=
  match s with EmptyString => [] | String c s => Z.of_nat (nat_of_ascii c) :: chars s end.

(** A name padded with zeros to 32 bytes. *)
Definition encode_name (s : string) : list Z := chars s ++ replicate (32 - String.length s) 0%Z.

Definition encode_area (a : area) : list Z :=
  le_encode 4 (ar_offset a) ++ le_encode 4 (ar_size a) ++ encode_name (ar_name a)
  ++ le_encode 2 (ar_flags a).

(** [header] is what is between the signature and the number of areas. *)
Definition encode_map (header : list Z) (areas : list area) : list Z :=
  FMAP_SIGNATURE ++ header ++ le_encode 2 (Z.of_nat (length areas)) ++ (areas ≫= encode_area).

Definition no_nul (s : string) : Prop := Forall (fun z => z <> 0%Z) (chars s).

Definition area_ok (a : area) : Prop :=
  String.length (ar_name a) < 32 /\ no_nul (ar_name a) /\
  (0 <= ar_offset a < 2 ^ 32)%Z /\ (0 <= ar_size a < 2 ^ 32)%Z.

Record map_ok (header : list Z) (areas : list area) : Prop := {
  mo_header : length header = 46;
  mo_count : (Z.of_nat (length areas) < 2 ^ 16)%Z;
  mo_areas : Forall area_ok areas
}.

Lemma length_chars s : length (chars s) = String.length s.
Proof. by induction s as [|c s IH]; cbn; [|rewrite IH]. Qed.

Lemma encode_area_length a : area_ok a -> length (encode_area a) = area_sizeof.
Proof.
  intros (Hn & _). unfold encode_area, encode_name.
  rewrite !length_app, !le_encode_length, length_chars, length_replicate. unfold area_sizeof. lia.
Qed.

Lemma encode_areas_length areas :
  Forall area_ok areas -> length (areas ≫= encode_area) = length areas * area_sizeof.
Proof.
  induction 1 as [|a areas Ha _ IH]; [done|]. cbn [mbind list_bind]. change (list_bind area Z encode_area areas) with (areas ≫= encode_area).
  rewrite length_app, IH, encode_area_length by done. cbn [length]. lia.
Qed.

(** A field in the middle of the bytes. *)
Lemma field_app pre n z post off :
  off = length pre -> (0 <= z < 256 ^ Z.of_nat n)%Z ->
  field (pre ++ le_encode n z ++ post) off n = Done z.
Proof.
  intros -> Hz. unfold field, bytes_at. rewrite !length_app, le_encode_length.
  rewrite (proj2 (Nat.leb_le _ _)) by lia. rewrite drop_app_length, take_app_length' by (by rewrite le_encode_length).
  cbn. by rewrite le_bytes_encode.
Qed.

(** strcmp on a padded name. *)
Lemma strcmp_name s s' rest :
  no_nul s -> no_nul s' -> String.length s' < 32 ->
  strcmp_eq s (encode_name s' ++ rest) = Done (String.eqb s s').
Proof.
  intros Hs Hs' Hl. unfold encode_name. rewrite <- (app_assoc (chars s')).
  set (k := 32 - String.length s'). assert (0 < k) as Hk by lia. clearbody k. clear Hl.
  revert s' Hs'. induction s as [|c s IH]; intros [|c' s'] Hs'.
  - destruct k; [lia | done].
  - cbn. unfold no_nul in Hs'. cbn in Hs'. apply list.Forall_cons in Hs' as [Hc _].
    by rewrite (proj2 (Z.eqb_neq _ _)) by lia.
  - destruct k; [lia|]. unfold no_nul in Hs. cbn in Hs. apply list.Forall_cons in Hs as [Hc _].
    cbn [chars app replicate strcmp_eq].
    by rewrite (proj2 (Z.eqb_neq _ _)) by lia.
  - unfold no_nul in Hs, Hs'. cbn in Hs, Hs'. apply list.Forall_cons in Hs as [_ Hs], Hs' as [_ Hs'].
    cbn [chars app strcmp_eq]. cbn [String.eqb].
    destruct (Ascii.eqb_spec c c') as [->|Hne].
    + rewrite Z.eqb_refl. by apply IH.
    + rewrite (proj2 (Z.eqb_neq _ _)); [done|]. intros E. apply Hne.
      apply Nat2Z.inj in E. rewrite <- (ascii_nat_embedding c), <- (ascii_nat_embedding c'). congruence.
Qed.

Section Map.
Variables (header : list Z) (areas : list area).
Hypothesis M : map_ok header areas.

Lemma map_prefix_length : length (FMAP_SIGNATURE ++ header ++ le_encode 2 (Z.of_nat (length areas))) = fmap_sizeof.
Proof. rewrite !length_app, le_encode_length, (mo_header _ _ M). done. Qed.

(** The bytes around area [i]. *)
Lemma map_at i a :
  areas !! i = Some a -> exists pre post,
    encode_map header areas = pre ++ encode_area a ++ post /\
    length pre = fmap_sizeof + i * area_sizeof.
Proof.
  intros Hi. pose proof (mo_areas _ _ M) as Hok. pose proof (take_drop_middle _ _ _ Hi) as E.
  exists ((FMAP_SIGNATURE ++ header ++ le_encode 2 (Z.of_nat (length areas)))
          ++ (take i areas ≫= encode_area)), (drop (S i) areas ≫= encode_area).
  split.
  - unfold encode_map. rewrite <- !app_assoc. do 3 f_equal. rewrite <- E at 1. by rewrite bind_app.
  - rewrite length_app, map_prefix_length, encode_areas_length by (by apply Forall_take).
    rewrite length_take_le; [done|]. apply lookup_lt_Some in Hi. lia.
Qed.

Lemma map_nareas : nareas (encode_map header areas) = Done (Z.of_nat (length areas)).
Proof.
  unfold nareas, encode_map. rewrite (app_assoc FMAP_SIGNATURE). apply field_app.
  - rewrite length_app, (mo_header _ _ M). done.
  - split; [lia | apply (mo_count _ _ M)].
Qed.

Lemma map_area i a :
  areas !! i = Some a ->
  area_offset (encode_map header areas) i = Done (ar_offset a) /\
  area_size (encode_map header areas) i = Done (ar_size a) /\
  forall s, no_nul s -> strcmp_eq s (area_name (encode_map header areas) i) = Done (String.eqb s (ar_name a)).
Proof.
  intros Hi. destruct (map_at i a Hi) as (pre & post & -> & Hl).
  destruct (Forall_lookup_1 _ _ _ _ (mo_areas _ _ M) Hi) as (Hn & Hnul & Ho & Hs).
  unfold encode_area. split_and!.
  - unfold area_offset. rewrite <- !app_assoc. by apply field_app.
  - unfold area_size. rewrite <- !app_assoc, (app_assoc pre). apply field_app; [|done].
    rewrite length_app, Hl, le_encode_length. done.
  - intros s Hs'. unfold area_name. rewrite <- !app_assoc, (app_assoc pre), (app_assoc (pre ++ _)).
    rewrite drop_app_length' by (rewrite !length_app, Hl, !le_encode_length; lia).
    by apply strcmp_name.
Qed.

Lemma find_area_spec s todo i :
  no_nul s -> todo + i = length areas ->
  find_area todo i (encode_map header areas) s =
  Done (i + default todo (find_idx (fun a => String.eqb s (ar_name a)) (drop i areas))).
Proof.
  intros Hs. revert i. induction todo as [|todo IH]; intros i Hi; cbn [find_area].
  { rewrite drop_ge by lia. cbn. by rewrite Nat.add_0_r. }
  destruct (lookup_lt_is_Some_2 areas i) as [a Ha]; [lia|].
  destruct (map_area i a Ha) as (_ & _ & Hcmp). rewrite Hcmp, bind_Done_eq by done.
  rewrite (drop_S _ _ _ Ha). cbn [find_idx]. destruct (String.eqb s (ar_name a)).
  - cbn. by rewrite Nat.add_0_r.
  - rewrite IH by lia. rewrite Nat.add_1_r.
    destruct (find_idx _ (drop (S i) areas)); cbn; f_equal; lia.
Qed.

(** The first area of that name. *)
Definition first_area (s : string) : option area :=
  i ← find_idx (fun a => String.eqb s (ar_name a)) areas; areas !! i.

Lemma find_section_spec s :
  no_nul s ->
  find_section (encode_map header areas) s =
  Done ((fun a => (ar_size a, ar_offset a)) <$> first_area s).
Proof.
  intros Hs. unfold find_section, first_area. rewrite map_nareas, bind_Done_eq, Nat2Z.id.
  rewrite find_area_spec by (done || lia). rewrite drop_0, bind_Done_eq, Nat.add_0_l.
  destruct (find_idx _ areas) as [i|] eqn:Ei; unfold default; cbn [from_option id mbind option_bind].
  - pose proof (find_idx_lt _ _ _ Ei) as Hlt. destruct (lookup_lt_is_Some_2 areas i Hlt) as [a Ha].
    rewrite (proj2 (Z.eqb_neq _ _)) by lia. destruct (map_area i a Ha) as (-> & -> & _).
    by rewrite !bind_Done_eq, Ha.
  - by rewrite Z.eqb_refl.
Qed.
End Map.

(** ** The scan for the map *)

Section Scan.
Context {hnd : Type} {o : flash_device_ops hnd} `{!NorFlash o}.

Definition signed (mem : list Z) (off : nat) : Prop := slice off 8 mem = FMAP_SIGNATURE.

(** From 64 (b + k) the scan goes down to the signature at 64 b, or to where a
    read fails. *)
Lemma scan_loop_spec b k fuel (dev : flash_device hnd) :
  ops dev = o -> nor_ok (priv_data dev) -> k <= fuel -> 1 <= k -> (Z.of_nat (64 * (b + k)) < 2 ^ 32)%Z ->
  64 * (b + k) <= length (memory_of dev) -> signed (memory_of dev) (64 * b) ->
  (forall i, b < i -> i < b + k -> ~ signed (memory_of dev) (64 * i)) ->
  exists i dev', scan_loop fuel (Z.of_nat (64 * (b + k))) dev = Done (Z.of_nat (64 * i), dev') /\
    same_device dev dev' /\ b <= i /\ i < b + k /\ (reliable (o := o) -> i = b).
Proof.
  revert fuel dev. induction k as [|k IH]; intros fuel dev Ho Hok Hf Hk Hw Hl Hsig Hno; [lia|].
  destruct fuel as [|fuel]; [lia|]. cbn [scan_loop].
  assert (u32 (Z.of_nat (64 * (b + S k)) - 64) = Z.of_nat (64 * (b + k))) as ->
    by (rewrite wrap_small; lia).
  destruct (flash_read_reliable dev (64 * (b + k)) 8 Ho Hok) as (res & h & dev1 & E & Hs & Hh & Hr); [lia|].
  change 8%Z with (Z.of_nat 8). rewrite E, bind_Done_eq. destruct (Z.eqb_spec res 0) as [->|Hne]; cbn [negb].
  2:{ exists (b + k), dev1. split_and!; [done | done | lia | lia|]. intros R. by apply Hr in R. }
  rewrite (Hh eq_refl). case_bool_decide as Eb.
  - destruct k as [|k]; [rewrite Nat.add_0_r; exists b, dev1; split_and!; (done || lia)|].
    exfalso. apply (Hno (b + S k)); [lia | lia | done].
  - destruct k as [|k]; [rewrite Nat.add_0_r in Eb; done|].
    rewrite (proj2 (Z.eqb_neq _ _)) by lia. destruct Hs as (Ed & Em & Hok1).
    destruct (IH fuel dev1) as (i & dev2 & E2 & Hs2 & Hi1 & Hi2 & Hi3); try lia; rewrite ?Em; try done; try lia.
    + by rewrite Ed.
    + intros i Hi Hi'. apply Hno; lia.
    + exists i, dev2. split_and!; [done | by eapply same_device_trans | done | lia | done].
Qed.

(** A flash whose map is the last signature below where the driver starts the
    scan. *)
Record mapped (dev : flash_device hnd) (b k : nat) (header : list Z) (areas : list area) : Prop := {
  mp_ops : ops dev = o;
  mp_ok : nor_ok (priv_data dev);
  mp_cache : fmap_cache dev = None;
  mp_map : map_ok header areas;
  mp_end : exists e, ops_get_fmap_offset o (priv_data dev) = Z.of_nat e /\ e / 64 = b + k;
  mp_below : 1 <= k;
  mp_width : (Z.of_nat (64 * (b + k)) < 2 ^ 32)%Z;
  mp_inside : 64 * (b + k) <= length (memory_of dev);
  mp_bytes : slice (64 * b) (length (encode_map header areas)) (memory_of dev) = encode_map header areas;
  mp_last : forall i, b < i -> i < b + k -> ~ signed (memory_of dev) (64 * i)
}.

Lemma encode_map_length header areas :
  map_ok header areas -> length (encode_map header areas) = fmap_sizeof + length areas * area_sizeof.
Proof.
  intros M. unfold encode_map. rewrite !length_app, (mo_header _ _ M), le_encode_length,
    encode_areas_length by apply M. change (length FMAP_SIGNATURE) with 8. unfold fmap_sizeof. lia.
Qed.

Lemma slice_slice off n m l : m <= n -> slice off m l = take m (slice off n l).
Proof. intros Hm. unfold slice. rewrite take_take. by rewrite Nat.min_l. Qed.

(** Nothing is loaded where there is no signature. *)
Lemma fmap_load_unsigned (dev : flash_device hnd) off :
  ops dev = o -> nor_ok (priv_data dev) -> off + 56 <= length (memory_of dev) -> ~ signed (memory_of dev) off ->
  exists dev', fmap_load dev (Z.of_nat off) = Done (None, dev') /\ same_device dev dev'.
Proof.
  intros Ho Hok Hin Hno. unfold fmap_load. change fmap_sizeof with 56.
  destruct (flash_read_reliable dev off 56 Ho Hok Hin) as (res & h & dev1 & -> & S1 & Hh & _). rewrite bind_Done_eq.
  destruct (Z.eqb_spec res 0) as [->|Hne]; cbn [negb]; [|by exists dev1]. rewrite (Hh eq_refl). unfold bytes_at.
  rewrite slice_length by done. change (0 + 8 <=? 56) with true. cbv iota. rewrite bind_Done_eq, drop_0.
  rewrite bool_decide_false; [by exists dev1|]. intros Hs. apply Hno. unfold signed. by rewrite (slice_slice _ 56) by lia.
Qed.

(** The map is loaded when its bytes are there, and can be read. *)
Lemma fmap_load_spec (dev : flash_device hnd) off header areas :
  ops dev = o -> nor_ok (priv_data dev) -> map_ok header areas ->
  slice off (length (encode_map header areas)) (memory_of dev) = encode_map header areas ->
  exists fm dev', fmap_load dev (Z.of_nat off) = Done (fm, dev') /\ same_device dev dev' /\
    (fm = None \/ fm = Some (encode_map header areas)) /\ (reliable (o := o) -> fm = Some (encode_map header areas)).
Proof.
  intros Ho Hok M Hbytes. pose proof (encode_map_length _ _ M) as Hlen.
  pose proof (map_nareas _ _ M) as Hn. unfold nareas, field, bytes_at in Hn.
  assert (take 8 (encode_map header areas) = FMAP_SIGNATURE) as Hsig by done.
  set (fm := encode_map header areas) in *. change fmap_sizeof with 56 in *.
  rewrite (proj2 (Nat.leb_le _ _)) in Hn by lia.
  assert (off + length fm <= length (memory_of dev)) as Hin.
  { apply (f_equal length) in Hbytes. unfold slice in Hbytes. rewrite length_take, length_drop in Hbytes. lia. }
  assert (slice off 56 (memory_of dev) = take 56 fm) as Hhdr
    by (rewrite (slice_slice _ (length fm)), Hbytes; [done | lia]).
  unfold fmap_load. change fmap_sizeof with 56.
  destruct (flash_read_reliable dev off 56 Ho Hok) as (res & h & dev1 & -> & S1 & Hh & Hr); [lia|]. pose proof S1 as (E1 & M1 & Hok1).
  rewrite bind_Done_eq. destruct (Z.eqb_spec res 0) as [->|Hne]; cbn [negb].
  2:{ exists None, dev1. split_and!; [done | done | by left|]. intros R. by apply Hr in R. }
  rewrite (Hh eq_refl), Hhdr. unfold bytes_at at 1.
  rewrite length_take_le by lia. change (0 + 8 <=? 56) with true. cbv iota. rewrite bind_Done_eq.
  rewrite drop_0, take_take. change (Nat.min 8 56) with 8. rewrite Hsig, bool_decide_true by done. cbn [negb].
  unfold nareas, field, bytes_at. rewrite length_take_le by lia.
  change (54 + 2 <=? 56) with true. rewrite skipn_firstn_comm, take_take.
  change (Nat.min 2 (56 - 54)) with 2. cbn in Hn |- *. injection Hn as Hn. rewrite Hn.
  replace (Z.of_nat 56 + Z.of_nat (length areas) * Z.of_nat area_sizeof)%Z
    with (Z.of_nat (length fm)) by lia.
  destruct (flash_read_reliable dev1 off (length fm)) as (res & h2 & dev2 & -> & S2 & Hh2 & Hr2); [by rewrite E1 | done | by rewrite M1|].
  rewrite bind_Done_eq. destruct (Z.eqb_spec res 0) as [->|Hne]; cbn [negb]; eexists _, dev2; (split; [done|]); (split; [by eapply same_device_trans|]).
  - rewrite (Hh2 eq_refl), M1, Hbytes. by split; [right|].
  - split; [by left|]. intros R. by apply Hr2 in R.
Qed.

Lemma round_down e x : e / 64 = x -> (Z.of_nat (64 * x) < 2 ^ 32)%Z ->
  u32 (Z.of_nat e - Z.rem (Z.of_nat e) 64) = Z.of_nat (64 * x).
Proof.
  intros He Hw. rewrite Z.rem_mod_nonneg by lia.
  assert (Z.of_nat e mod 64 = Z.of_nat (e mod 64))%Z as -> by (by rewrite Nat2Z.inj_mod).
  pose proof (Nat.div_mod_eq e 64).
  replace (Z.of_nat e - Z.of_nat (e mod 64))%Z with (Z.of_nat (64 * x)) by lia. apply wrap_small. lia.
Qed.

Lemma get_fmap_spec fuel dev b k header areas :
  mapped dev b k header areas -> k <= fuel ->
  exists fm dev', flash_get_fmap fuel dev = Done (fm, set_fmap fm dev') /\ same_device dev dev' /\
    (fm = None \/ fm = Some (encode_map header areas)) /\ (reliable (o := o) -> fm = Some (encode_map header areas)).
Proof.
  intros P Hf. destruct (mp_end _ _ _ _ _ P) as (e & He & Heq). pose proof (mp_map _ _ _ _ _ P) as M.
  pose proof (encode_map_length _ _ M) as Hlen. pose proof (mp_bytes _ _ _ _ _ P) as Hb.
  unfold flash_get_fmap. rewrite (mp_cache _ _ _ _ _ P), (mp_ops _ _ _ _ _ P), He.
  unfold fmap_scan_offset. rewrite (round_down e _ Heq) by apply P.
  destruct (scan_loop_spec b k fuel dev) as (i & dev1 & -> & S1 & Hi1 & Hi2 & Hi3); try apply P; [done | |].
  { unfold signed. rewrite (slice_slice _ (length (encode_map header areas))), Hb; [done|].
    unfold fmap_sizeof in Hlen. lia. }
  rewrite bind_Done_eq. pose proof S1 as (E1 & M1 & Hok1). pose proof (mp_inside _ _ _ _ _ P).
  assert (ops dev1 = o) as Ho1 by (rewrite E1; apply P). destruct (decide (i = b)) as [->|Hne].
  - destruct (fmap_load_spec dev1 (64 * b) header areas Ho1 Hok1 M) as (fm & dev2 & -> & S2 & Hfm & Hr); [by rewrite M1|].
    rewrite !bind_Done_eq. exists fm, dev2. split_and!; [done | by eapply same_device_trans | done | done].
  - destruct (fmap_load_unsigned dev1 (64 * i) Ho1 Hok1) as (dev2 & -> & S2); [rewrite M1; lia | rewrite M1; apply (mp_last _ _ _ _ _ P); lia|].
    rewrite !bind_Done_eq. exists None, dev2. split_and!; [done | by eapply same_device_trans | by left|]. intros R. by apply Hi3 in R.
Qed.

(** C25.  Reading a section of a mapped flash.  The scan from where the driver
    says, in steps of 64 bytes, ends (the fuel need not be more than its
    number of steps).  Whatever fails, the result is nothing, or the first area
    of that name in the map: its bytes, its size and its offset.  When no read of
    the driver fails ([reliable]) and the memory for the section is there, the
    result is that area, nothing only when there is none of that name, and the map
    is then kept.  The contents of the flash stay as they are. *)
Theorem fmap_section_read alloc fuel dev b k header areas s :
  mapped dev b k header areas -> k <= fuel -> no_nul s ->
  (forall a, first_area areas s = Some a ->
     (ar_offset a + ar_size a <= Z.of_nat (length (memory_of dev)))%Z) ->
  let section := (fun a => (slice (Z.to_nat (ar_offset a)) (Z.to_nat (ar_size a)) (memory_of dev),
                            ar_size a, ar_offset a)) <$> first_area areas s in
  exists r fm dev', same_device dev dev' /\
    fmap_read_section alloc fuel dev (Some s) = Done (r, set_fmap fm dev') /\
    (r = None \/ r = section) /\
    (reliable (o := o) -> (forall size, alloc size = true) -> r = section /\ fm = Some (encode_map header areas)).
Proof.
  intros P Hf Hs Hin section. destruct (get_fmap_spec _ _ _ _ _ _ P Hf) as (fm & dev1 & E & S1 & Hfm & Hrel).
  unfold fmap_read_section. rewrite E, bind_Done_eq. destruct Hfm as [-> | ->].
  { exists None, None, dev1. split_and!; [done | done | by left|]. intros R. by apply Hrel in R. }
  rewrite (find_section_spec _ _ (mp_map _ _ _ _ _ P) s Hs), bind_Done_eq. unfold section. clear section.
  destruct (first_area areas s) as [a|] eqn:Ea; cbn [fmap option_fmap option_map]; [|eexists None, _, dev1; split_and!; by auto].
  specialize (Hin a eq_refl). assert (area_ok a) as (_ & _ & Ho & Hz).
  { unfold first_area in Ea. destruct (find_idx _ areas) as [i|]; cbn in Ea; [|done].
    exact (Forall_lookup_1 _ _ _ _ (mo_areas _ _ (mp_map _ _ _ _ _ P)) Ea). }
  destruct (alloc (ar_size a)) eqn:Em; cbn [negb].
  2:{ eexists None, _, dev1. split_and!; [done | done | by left|]. intros _ R. by rewrite R in Em. }
  destruct S1 as (E1 & M1 & Hok1). set (d := set_fmap _ dev1).
  destruct (flash_read_reliable d (Z.to_nat (ar_offset a)) (Z.to_nat (ar_size a)))
    as (res & h & d' & Er & (Ed & Md & Hok') & Hh & Hr); [cbn; rewrite E1; apply P | done | cbn; rewrite M1; lia|].
  rewrite !Z2Nat.id in Er by lia. rewrite Er, bind_Done_eq.
  assert (same_device dev (set_priv (priv_data d') dev1)) as Sd by (split_and!; [by rewrite E1 | cbn; by rewrite Md | done]).
  destruct (Z.eqb_spec res 0) as [->|Hne]; cbn [negb].
  - eexists _, (Some (encode_map header areas)), (set_priv (priv_data d') dev1). split; [exact Sd|]. rewrite (Hh eq_refl), Ed.
    cbn [priv_data set_fmap d] in M1 |- *. rewrite M1. split_and!; solve [auto].
  - exists None, (Some (encode_map header areas)), (set_priv (priv_data d') dev1). split; [exact Sd|]. rewrite Ed.
    split_and!; [done | by left|]. intros R. by apply Hr in R.
Qed.
End Scan.
