(* ===== verification/FlashMtd.v ===== *)
(** * FlashMtd: the SPI flash behind the kernel's MTD interface,
      recovery/updater/flash_mtd.c

    The system calls are a class: each takes the state of the system and gives
    its result and the new state; [sys_errno] is errno after it. *)

From S2P Require Import Prelude CString FlashDevice NorFlash Vboot.

Class MtdSys : Type := {
  sys : Type;
  sys_errno : sys -> Z;
  sys_open : sys -> string -> Z * sys;
  sys_close : sys -> Z -> sys;
  sys_lseek : sys -> Z -> Z -> Z * sys;
  sys_read : sys -> Z -> Z -> Z * list Z * sys;
  sys_write : sys -> Z -> list Z -> Z * sys;
  sys_memerase : sys -> Z -> Z -> Z -> Z * sys;
  mtd_info : Type;
  sys_memgetinfo : sys -> Z -> Z * mtd_info * sys;
  info_type : mtd_info -> Z;
  info_size : mtd_info -> Z;
  info_erasesize : mtd_info -> Z;
  info_writesize : mtd_info -> Z;
  MTD_NORFLASH : Z
}.

Definition DEFAULT_MTD_FILE : string := "/dev/mtd/mtd0".
Definition ALTERNATE_MTD_FILE : string := "/dev/mtd0".

Section Mtd.
Context `{MtdSys}.

(** struct mtd_data and the system it works on. *)
Record mtd_data : Type := MtdData { fd : Z; info : mtd_info; system : sys }.

Definition set_system (s : sys) (dev : mtd_data) : mtd_data := MtdData (fd dev) (info dev) s.

(** mtd_open of a path, [retry] when it is the default one, whose pointer is
    compared. *)
Definition mtd_open_path (s : sys) (path : string) (retry : sys -> option mtd_data * sys)
    : option mtd_data * sys :=
  let '(f, s) := sys_open s path in
  if (f =? -1)%Z then retry s
  else
    let '(r, i, s) := sys_memgetinfo s f in
    if negb (r =? 0)%Z then (None, sys_close s f)
    else if negb (info_type i =? MTD_NORFLASH)%Z then (None, sys_close s f)
    else (Some (MtdData f i s), s).

Definition mtd_open (s : sys) (params : option string) : option mtd_data * sys :=
  match params with
  | Some path => mtd_open_path s path (fun s => (None, s))
  | None =>
      mtd_open_path s DEFAULT_MTD_FILE
        (fun s => mtd_open_path s ALTERNATE_MTD_FILE (fun s => (None, s)))
  end.

Definition mtd_close (dev : mtd_data) : sys := sys_close (system dev) (fd dev).

(** The loop of mtd_read: what is left to read, the bytes so far.  A call
    that reads or writes more than it was asked has left the buffer. *)
Fixpoint mtd_read_loop (fuel : nat) (count : Z) (acc : list Z) (dev : mtd_data)
    : outcome (Z * list Z * mtd_data) :=
  if (count =? 0)%Z then Done (0%Z, acc, dev)
  else
    match fuel with
    | 0 => Timeout
    | S fuel =>
        let '(res, data, s) := sys_read (system dev) (fd dev) count in
        let dev := set_system s dev in
        if (res <? 0)%Z then Done (sys_errno s, acc, dev)
        else if (count <? res)%Z then Fault
        else mtd_read_loop fuel (count - res) (acc ++ data) dev
    end.

Definition mtd_read (fuel : nat) (dev : mtd_data) (offset count : Z)
    : outcome (Z * list Z * mtd_data) :=
  let '(p, s) := sys_lseek (system dev) (fd dev) offset in
  let dev := set_system s dev in
  if negb (p =? offset)%Z then Done (sys_errno s, [], dev)
  else mtd_read_loop fuel count [] dev.

(** The loop of mtd_write: [rest] is what ptr and count still describe. *)
Fixpoint mtd_write_loop (fuel : nat) (rest : list Z) (dev : mtd_data) : outcome (Z * mtd_data) :=
  if length rest =? 0 then Done (0%Z, dev)
  else
    match fuel with
    | 0 => Timeout
    | S fuel =>
        let '(res, s) := sys_write (system dev) (fd dev) rest in
        let dev := set_system s dev in
        if (res <? 0)%Z then Done (sys_errno s, dev)
        else if (Z.of_nat (length rest) <? res)%Z then Fault
        else mtd_write_loop fuel (drop (Z.to_nat res) rest) dev
    end.

Definition mtd_write (fuel : nat) (dev : mtd_data) (offset : Z) (buffer : list Z)
    : outcome (Z * mtd_data) :=
  let '(p, s) := sys_lseek (system dev) (fd dev) offset in
  let dev := set_system s dev in
  if negb (p =? offset)%Z then Done (sys_errno s, dev)
  else mtd_write_loop fuel buffer dev.

(** The fields of struct erase_info_user are 32-bit. *)
Definition mtd_erase (dev : mtd_data) (offset count : Z) : outcome (Z * mtd_data) :=
  let '(res, s) := sys_memerase (system dev) (fd dev) (u32 offset) (u32 count) in
  let dev := set_system s dev in
  Done (if (res <? 0)%Z then sys_errno s else 0%Z, dev).

Definition mtd_get (f : mtd_info -> Z) (dev : mtd_data) : Z :=
  if (0 <? fd dev)%Z then f (info dev) else 0%Z.

Definition mtd_get_size : mtd_data -> Z := mtd_get info_size.
Definition mtd_get_write_size : mtd_data -> Z := mtd_get info_writesize.
Definition mtd_get_erase_size : mtd_data -> Z := mtd_get info_erasesize.

(** fdt_read_u32("fmap-offset") + 64 in 32-bit arithmetic. *)
Definition mtd_get_fmap_offset (fdt : string -> option (list Z)) : Z :=
  u32 (fdt_read_u32 fdt "fmap-offset" + 64).

Definition flash_mtd_ops (fuel : nat) (s : sys) (fdt : string -> option (list Z))
    : flash_device_ops mtd_data := {|
  ops_name := "spi";
  ops_open := fun params => fst (mtd_open s params);
  ops_close := fun _ => Done tt;
  ops_read := mtd_read fuel;
  ops_write := mtd_write fuel;
  ops_erase := mtd_erase;
  ops_get_size := mtd_get_size;
  ops_get_write_size := mtd_get_write_size;
  ops_get_erase_size := mtd_get_erase_size;
  ops_get_fmap_offset := fun _ => mtd_get_fmap_offset fdt;
  ops_cmd := None
|}.
End Mtd.

Arguments mtd_data : clear implicits.
Arguments mtd_data {_}.

(** ** The MTD character device

    What the driver relies on of the system calls: a file of bytes with a
    position; reads and writes may be short but make progress, a read at the
    end of the device returns 0, and an erase sets the bits of its region.  A
    call that fails leaves a positive errno. *)

Class MtdDevice `{MtdSys} : Type := {
  file : sys -> list Z;
  pos : sys -> Z -> nat;
  sys_ok : sys -> Prop;
  file_bytes : forall s, sys_ok s -> Forall is_byte (file s);
  file_size : forall s, sys_ok s -> (Z.of_nat (length (file s)) < 2 ^ 32)%Z;
  lseek_spec : forall s f off p s', sys_ok s -> sys_lseek s f (Z.of_nat off) = (p, s') ->
    sys_ok s' /\ file s' = file s /\
    (p = Z.of_nat off /\ pos s' f = off \/ p = (-1)%Z /\ (0 < sys_errno s')%Z);
  read_spec : forall s f count res data s', sys_ok s -> 0 < count ->
    sys_read s f (Z.of_nat count) = (res, data, s') ->
    sys_ok s' /\ file s' = file s /\
    ((res < 0)%Z /\ (0 < sys_errno s')%Z \/
     exists k, res = Z.of_nat k /\ data = slice (pos s f) k (file s) /\ pos s' f = pos s f + k /\
       k <= count /\ pos s f + k <= Nat.max (pos s f) (length (file s)) /\
       (pos s f < length (file s) -> 0 < k));
  write_spec : forall s f buf res s', sys_ok s -> Forall is_byte buf -> 0 < length buf ->
    pos s f + length buf <= length (file s) -> sys_write s f buf = (res, s') ->
    sys_ok s' /\
    ((res < 0)%Z /\ (0 < sys_errno s')%Z /\ length (file s') = length (file s) \/
     exists k, res = Z.of_nat k /\ 0 < k /\ k <= length buf /\ pos s' f = pos s f + k /\
       file s' = program (pos s f) (take k buf) (file s));
  memerase_spec : forall s f off n res s', sys_ok s -> off + n <= length (file s) ->
    sys_memerase s f (Z.of_nat off) (Z.of_nat n) = (res, s') ->
    sys_ok s' /\
    ((res < 0)%Z /\ (0 < sys_errno s')%Z /\ length (file s') = length (file s) \/
     res = 0%Z /\ file s' = erase off n (file s))
}.

Section MtdProofs.
Context `{MtdDevice}.
Variables (fuel : nat) (s0 : sys) (fdt : string -> option (list Z)).

Definition mtd_file (h : mtd_data) : list Z := file (system h).

Definition mtd_ok (h : mtd_data) : Prop := sys_ok (system h) /\ length (mtd_file h) <= fuel.

(** Reading inside the device ends with all the bytes, or with the errno of
    the call that failed. *)
Lemma mtd_read_loop_spec f count acc h :
  sys_ok (system h) -> count <= f -> pos (system h) (fd h) + count <= length (mtd_file h) ->
  exists res data h', mtd_read_loop f (Z.of_nat count) acc h = Done (res, data, h') /\
    sys_ok (system h') /\ mtd_file h' = mtd_file h /\
    ((0 < res)%Z \/ res = 0%Z /\ data = acc ++ slice (pos (system h) (fd h)) count (mtd_file h)).
Proof.
  revert count acc h. induction f as [|f IH]; intros count acc h Hok Hf Hin; cbn [mtd_read_loop].
  - assert (count = 0) as -> by lia. exists 0%Z, acc, h. split_and!; [done | done | done|].
    right. split; [done|]. unfold slice. by rewrite take_0, app_nil_r.
  - destruct (Z.eqb_spec (Z.of_nat count) 0) as [E|Hne].
    { assert (count = 0) as -> by lia. exists 0%Z, acc, h. split_and!; [done | done | done|].
      right. split; [done|]. unfold slice. by rewrite take_0, app_nil_r. }
    destruct (sys_read (system h) (fd h) (Z.of_nat count)) as [[res data] s'] eqn:Er.
    destruct (read_spec _ _ count _ _ _ Hok ltac:(lia) Er) as (Hok' & Hfile & [[Hneg He]|(k & -> & -> & Hpos & Hk & Hmax & Hprog)]).
    + rewrite (proj2 (Z.ltb_lt _ _) Hneg). eexists _, _, _. split; [done|]. split_and!; [done | done | by left].
    + rewrite (proj2 (Z.ltb_ge _ _)), (proj2 (Z.ltb_ge _ _)) by lia. unfold mtd_file in *.
      specialize (Hprog ltac:(lia)). rewrite <- Nat2Z.inj_sub by lia.
      destruct (IH (count - k) (acc ++ slice (pos (system h) (fd h)) k (file (system h))) (set_system s' h))
        as (res & data & h' & E & Hok2 & Hfile2 & Hres); [done | lia | cbn; rewrite Hpos, Hfile; lia|].
      cbn [system fd set_system] in *. exists res, data, h'. split_and!; [done | done | by rewrite Hfile2|].
      destruct Hres as [?|[-> ->]]; [by left | right]. split; [done|].
      rewrite Hpos, Hfile, <- app_assoc, slice_app. do 3 f_equal. lia.
Qed.

Lemma mtd_write_loop_spec f rest h :
  sys_ok (system h) -> length rest <= f -> Forall is_byte rest ->
  pos (system h) (fd h) + length rest <= length (mtd_file h) ->
  exists res h', mtd_write_loop f rest h = Done (res, h') /\
    sys_ok (system h') /\ length (mtd_file h') = length (mtd_file h) /\
    ((0 < res)%Z \/ res = 0%Z /\ mtd_file h' = program (pos (system h) (fd h)) rest (mtd_file h)).
Proof.
  revert rest h. induction f as [|f IH]; intros rest h Hok Hf Hb Hin; cbn [mtd_write_loop].
  - destruct rest; [|cbn in Hf; lia]. cbn. exists 0%Z, h. split_and!; [done | done | done|].
    right. split; [done|]. by rewrite program_nil.
  - destruct (Nat.eqb_spec (length rest) 0) as [E|Hne].
    { destruct rest; [|done]. exists 0%Z, h. split_and!; [done | done | done|]. right. split; [done|].
      by rewrite program_nil. }
    destruct (sys_write (system h) (fd h) rest) as [res s'] eqn:Er.
    destruct (write_spec _ _ _ _ _ Hok Hb ltac:(lia) Hin Er) as (Hok' & [(Hneg & He & Hl)|(k & -> & Hk0 & Hk & Hpos & Hfile)]).
    + rewrite (proj2 (Z.ltb_lt _ _) Hneg). eexists _, _. split; [done|]. split_and!; [done | done | by left].
    + rewrite (proj2 (Z.ltb_ge _ _)), (proj2 (Z.ltb_ge _ _)) by lia. rewrite Nat2Z.id. unfold mtd_file in *.
      destruct (IH (drop k rest) (set_system s' h)) as (res & h' & E & Hok2 & Hl2 & Hres);
        [done | rewrite length_drop; lia | by apply Forall_drop | cbn; rewrite Hpos, Hfile, program_length, length_drop; lia|].
      cbn [system fd set_system] in *. exists res, h'.
      split_and!; [done | done | by rewrite Hl2, Hfile, program_length|].
      destruct Hres as [?|[-> ->]]; [by left | right]. split; [done|].
      rewrite Hpos, Hfile. replace (pos (system h) (fd h) + k) with (pos (system h) (fd h) + length (take k rest))
        by (rewrite length_take; lia). by rewrite program_app, take_drop.
Qed.

(** Seeking first. *)
Lemma mtd_seek h off :
  mtd_ok h -> exists p s', sys_lseek (system h) (fd h) (Z.of_nat off) = (p, s') /\
    sys_ok s' /\ file s' = mtd_file h /\
    (p = Z.of_nat off /\ pos s' (fd h) = off \/ p = (-1)%Z /\ (0 < sys_errno s')%Z).
Proof.
  intros [Hok _]. destruct (sys_lseek _ _ _) as [p s'] eqn:E. exists p, s'. split; [done|].
  exact (lseek_spec _ _ _ _ _ Hok E).
Qed.

Lemma mtd_read_inside h off n :
  mtd_ok h -> off + n <= length (mtd_file h) ->
  exists res data h', mtd_read fuel h (Z.of_nat off) (Z.of_nat n) = Done (res, data, h') /\
    mtd_ok h' /\ mtd_file h' = mtd_file h /\
    ((0 < res)%Z \/ res = 0%Z /\ data = slice off n (mtd_file h)).
Proof.
  intros Hok Hin. unfold mtd_read. destruct (mtd_seek h off Hok) as (p & s' & -> & Hs & Hf & Hp).
  destruct Hok as [Hok Hl]. destruct Hp as [[-> Hpos]|[-> He]].
  - rewrite Z.eqb_refl. cbn [negb].
    destruct (mtd_read_loop_spec fuel n [] (set_system s' h)) as (res & data & h' & E & Hs' & Hf' & Hr);
      [done | lia | cbn; unfold mtd_file in *; cbn; rewrite Hpos, Hf; lia|].
    cbn [system fd set_system mtd_file] in *. exists res, data, h'. unfold mtd_ok, mtd_file in *.
    cbn [system set_system] in *. rewrite Hf' in *. split_and!; [done | done | by rewrite Hf | by rewrite Hf|].
    by rewrite Hpos, Hf in Hr.
  - rewrite (proj2 (Z.eqb_neq _ _)) by lia. cbn [negb]. eexists _, _, _. split; [done|].
    unfold mtd_ok, mtd_file in *. cbn. rewrite Hf. split_and!; [done | done | done | by left].
Qed.

Lemma mtd_write_inside h off buf :
  mtd_ok h -> Forall is_byte buf -> off + length buf <= length (mtd_file h) ->
  exists res h', mtd_write fuel h (Z.of_nat off) buf = Done (res, h') /\
    mtd_ok h' /\ ((0 < res)%Z \/ res = 0%Z /\ mtd_file h' = program off buf (mtd_file h)).
Proof.
  intros Hok Hb Hin. unfold mtd_write. destruct (mtd_seek h off Hok) as (p & s' & -> & Hs & Hf & Hp).
  destruct Hok as [Hok Hl]. destruct Hp as [[-> Hpos]|[-> He]].
  - rewrite Z.eqb_refl. cbn [negb].
    destruct (mtd_write_loop_spec fuel buf (set_system s' h)) as (res & h' & E & Hs' & Hf' & Hr);
      [done | lia | done | cbn; unfold mtd_file in *; cbn; rewrite Hpos, Hf; lia|].
    exists res, h'. unfold mtd_ok, mtd_file in *. cbn [system fd set_system] in *. rewrite Hf' in *.
    rewrite Hpos, Hf in Hr. rewrite Hf. by split_and!.
  - rewrite (proj2 (Z.eqb_neq _ _)) by lia. cbn [negb]. eexists _, _. split; [done|].
    unfold mtd_ok, mtd_file in *. cbn. rewrite Hf. split_and!; [done | done | by left].
Qed.

(** The driver keeps the promise of a NOR flash device. *)
#[export] Instance mtd_nor : NorFlash (flash_mtd_ops fuel s0 fdt).
Proof.
  refine {| contents := mtd_file; nor_ok := mtd_ok; nor_unit := 1 |}.
  - intros h [Hok _]. by apply file_bytes.
  - intros h off n Hok Hin. destruct (mtd_read_inside h off n Hok Hin) as (res & data & h' & E & Hok' & Hf & Hr).
    exists res, data, h'. split_and!; [done..|]. intros ->. by destruct Hr as [?|[_ ->]].
  - intros h off buf Hok Hb _ Hin. destruct (mtd_write_inside h off buf Hok Hb Hin) as (res & h' & E & Hok' & Hr).
    exists res, h'. split_and!; [done..|]. intros ->. by destruct Hr as [?|[_ ->]].
  - intros h off n [Hok Hl] Hin. cbn. unfold mtd_erase, mtd_file in *.
    pose proof (file_size _ Hok). rewrite !wrap_small by lia.
    destruct (sys_memerase _ _ _ _) as [res s'] eqn:E.
    destruct (memerase_spec _ _ _ _ _ _ Hok Hin E) as (Hok' & [(Hneg & He & Hl')|[-> Hf]]).
    + rewrite (proj2 (Z.ltb_lt _ _) Hneg). eexists _, _. split; [done|]. unfold mtd_ok, mtd_file. cbn.
      rewrite Hl'. split; [done|]. lia.
    + cbn [Z.ltb Z.compare]. eexists _, _. split; [done|]. unfold mtd_ok, mtd_file. cbn.
      rewrite Hf, erase_length. done.
Defined.

(** Past the end the loop never has all it wants. *)
Lemma mtd_read_loop_past f count acc h :
  (forall s g c r d s', sys_read s g c = (r, d, s') -> (0 <= r)%Z) ->
  sys_ok (system h) -> 0 < count -> length (mtd_file h) < pos (system h) (fd h) + count ->
  mtd_read_loop f (Z.of_nat count) acc h = Timeout.
Proof.
  intros Hno. revert count acc h. induction f as [|f IH]; intros count acc h Hok Hc Hpast; cbn [mtd_read_loop];
    rewrite (proj2 (Z.eqb_neq _ _)) by lia; [done|].
  destruct (sys_read (system h) (fd h) (Z.of_nat count)) as [[res data] s'] eqn:Er.
  pose proof (Hno _ _ _ _ _ _ Er) as Hnn.
  destruct (read_spec _ _ count _ _ _ Hok Hc Er) as (Hok' & Hfile & [[Hneg He]|(k & -> & -> & Hpos & Hk & Hmax & _)]); [lia|].
  rewrite (proj2 (Z.ltb_ge _ _)), (proj2 (Z.ltb_ge _ _)), <- Nat2Z.inj_sub by lia. unfold mtd_file in *.
  apply IH; unfold mtd_file; cbn [system fd set_system]; rewrite ?Hpos, ?Hfile; [done | lia | lia].
Qed.

(** mtd_read inside the device ends, in at most as many calls as bytes:
    it returns 0 with the bytes at the offset, or the positive errno of the
    call that failed, and the device is unchanged.  Past the end of the device
    it does not end when no call fails, whatever the number of calls: read
    returns 0 there, which the loop does not take for an end. *)
Theorem mtd_read_ends_inside h off n :
  mtd_ok h -> 0 < n ->
  (off + n <= length (mtd_file h) ->
   exists res data h', mtd_read fuel h (Z.of_nat off) (Z.of_nat n) = Done (res, data, h') /\
     mtd_ok h' /\ mtd_file h' = mtd_file h /\
     ((0 < res)%Z \/ res = 0%Z /\ data = slice off n (mtd_file h))) /\
  (length (mtd_file h) < off + n ->
   (forall s g c r d s', sys_read s g c = (r, d, s') -> (0 <= r)%Z) ->
   (forall s g o p s', sys_lseek s g o = (p, s') -> p = o) ->
   forall f, mtd_read f h (Z.of_nat off) (Z.of_nat n) = Timeout).
Proof.
  intros Hok Hn. split; [by apply mtd_read_inside|]. intros Hpast Hno Hseek f. unfold mtd_read.
  destruct (mtd_seek h off Hok) as (p & s' & E & Hs & Hf & Hp). rewrite E. apply Hseek in E as ->.
  rewrite Z.eqb_refl. cbn [negb]. destruct Hp as [[_ Hpos]|[? _]]; [|lia].
  apply mtd_read_loop_past; [done | done | done|]. unfold mtd_file in *. cbn. rewrite Hf, Hpos. lia.
Qed.
End MtdProofs.
