(* ===== verification/FlashEc.v ===== *)
(** * FlashEc: the flash of the embedded controller, recovery/updater/flash_ec.c

    Commands go to the controller through an ioctl of the cros_ec driver,
    which is a class.  The structures of ec_commands.h that are sent or
    received are bytes. *)

From S2P Require Import Prelude CString FlashDevice NorFlash.

Definition ENODEV : Z := 19.
Definition ENOMEM : Z := 12.

(** struct cros_ec_command; [indata] is a buffer of [insize] bytes. *)
Record cros_ec_command : Type := EcCommand {
  c_version : Z;
  c_command : Z;
  c_outdata : list Z;
  c_insize : Z;
  c_result : Z
}.

(** The ioctl gives its return value, the result field after it, what it
    stored in the in-buffer, and the new state. *)
Class EcSys : Type := {
  ec_sys : Type;
  ec_errno : ec_sys -> Z;
  ec_sys_open : ec_sys -> string -> Z * ec_sys;
  ec_sys_close : ec_sys -> Z -> ec_sys;
  ec_ioctl : ec_sys -> Z -> cros_ec_command -> Z * Z * list Z * ec_sys
}.

(** ** ec_commands.h *)

Definition EC_RES_SUCCESS : Z := 0.
Definition EC_CMD_GET_PROTOCOL_INFO : Z := 11.
Definition EC_CMD_FLASH_INFO : Z := 16.
Definition EC_CMD_FLASH_READ : Z := 17.
Definition EC_CMD_FLASH_WRITE : Z := 18.
Definition EC_CMD_FLASH_ERASE : Z := 19.
Definition EC_CMD_FLASH_REGION_INFO : Z := 22.
Definition EC_FLASH_REGION_RO : Z := 0.

Definition ec_host_response_size : Z := 8.
Definition protocol_info_size : nat := 12.
Definition flash_info_1_size : nat := 24.
Definition region_info_size : nat := 8.

Definition max_response_packet_size (proto : list Z) : outcome Z := field proto 6 2.
Definition flash_size (info : list Z) : outcome Z := field info 0 4.
Definition erase_block_size (info : list Z) : outcome Z := field info 8 4.
Definition write_ideal_size (info : list Z) : outcome Z := field info 16 4.
Definition region_offset (region : list Z) : outcome Z := field region 0 4.
Definition region_size (region : list Z) : outcome Z := field region 4 4.

(** An offset and a size: the parameters of read, write and erase. *)
Definition flash_params (offset size : Z) : list Z :=
  le_encode 4 (u32 offset) ++ le_encode 4 (u32 size).

Definition region_params (region : Z) : list Z := le_encode 4 region.

Section Ec.
Context `{EcSys}.

Definition CROS_EC_DEV_NAME : string := "/dev/cros_ec".

(** struct ec_data and the system it works on. *)
Record ec_data : Type := EcData {
  ec_fd : Z;
  proto : list Z;
  ec_info : list Z;
  ro_region : list Z;
  ec_system : ec_sys
}.

Definition set_ec_system (s : ec_sys) (ec : ec_data) : ec_data :=
  EcData (ec_fd ec) (proto ec) (ec_info ec) (ro_region ec) s.

(** The return code and what was stored in the in-buffer. *)
Definition ec_command (ec : ec_data) (command version : Z) (outdata : list Z) (insize : Z)
    : Z * list Z * ec_data :=
  if (ec_fd ec <? 0)%Z then ((- ENODEV)%Z, [], ec)
  else
    let s_cmd := EcCommand version command outdata insize 255 in
    let '(r, result, indata, s) := ec_ioctl (ec_system ec) (ec_fd ec) s_cmd in
    let ec := set_ec_system s ec in
    if (r <? 0)%Z then ((- ec_errno s)%Z, indata, ec)
    else if negb (result =? EC_RES_SUCCESS)%Z then (s32 result, indata, ec)
    else (0%Z, indata, ec).

(** What was stored over the bytes of an object. *)
Definition store (data object : list Z) : outcome (list Z) :=
  if length data <=? length object then Done (data ++ drop (length data) object) else Fault.

(** A command of ec_open that fills a field of the structure. *)
Definition ec_query (ec : ec_data) (command version : Z) (outdata : list Z) (size : nat)
    (set : list Z -> ec_data -> ec_data) : outcome (bool * ec_data) :=
  let '(res, indata, ec) := ec_command ec command version outdata (Z.of_nat size) in
  object ← store indata (replicate size 0%Z);
  Done (res =? 0, set object ec)%Z.

Definition set_proto (p : list Z) (ec : ec_data) : ec_data :=
  EcData (ec_fd ec) p (ec_info ec) (ro_region ec) (ec_system ec).
Definition set_info (i : list Z) (ec : ec_data) : ec_data :=
  EcData (ec_fd ec) (proto ec) i (ro_region ec) (ec_system ec).
Definition set_ro_region (r : list Z) (ec : ec_data) : ec_data :=
  EcData (ec_fd ec) (proto ec) (ec_info ec) r (ec_system ec).

Definition ec_close (ec : ec_data) : ec_sys := ec_sys_close (ec_system ec) (ec_fd ec).

Definition ec_open (s : ec_sys) (params : option string) : outcome (option ec_data * ec_sys) :=
  let path := default CROS_EC_DEV_NAME params in
  let '(f, s) := ec_sys_open s path in
  if (f =? -1)%Z then Done (None, s)
  else
    let dev := EcData f (replicate protocol_info_size 0%Z) (replicate flash_info_1_size 0%Z)
                 (replicate region_info_size 0%Z) s in
    '(ok, dev) ← ec_query dev EC_CMD_GET_PROTOCOL_INFO 0 [] protocol_info_size set_proto;
    if negb ok then Done (None, ec_close dev)
    else
      '(ok, dev) ← ec_query dev EC_CMD_FLASH_INFO 1 [] flash_info_1_size set_info;
      if negb ok then Done (None, ec_close dev)
      else
        '(ok, dev) ← ec_query dev EC_CMD_FLASH_REGION_INFO 1 (region_params EC_FLASH_REGION_RO)
                       region_info_size set_ro_region;
        if negb ok then Done (None, ec_close dev) else Done (Some dev, ec_system dev).

(** The loop of ec_read: [uninit] is a byte of the caller's buffer that the
    controller left as it was; what is stored past the buffer is undefined. *)
Fixpoint ec_read_loop (uninit : Z) (fuel : nat) (read_size offset count : Z) (acc : list Z)
    (dev : ec_data) : outcome (Z * list Z * ec_data) :=
  if (count =? 0)%Z then Done (0%Z, acc, dev)
  else
    match fuel with
    | 0 => Timeout
    | S fuel =>
        let size := Z.min read_size count in
        let '(res, data, dev) :=
          ec_command dev EC_CMD_FLASH_READ 0 (flash_params offset size) read_size in
        chunk ← store data (replicate (Z.to_nat size) uninit);
        if negb (res =? 0)%Z then Done (res, acc ++ chunk, dev)
        else ec_read_loop uninit fuel read_size (offset + size) (count - size) (acc ++ chunk) dev
    end.

Definition ec_read (uninit : Z) (fuel : nat) (dev : ec_data) (offset count : Z)
    : outcome (Z * list Z * ec_data) :=
  m ← max_response_packet_size (proto dev);
  ec_read_loop uninit fuel (u32 (m - ec_host_response_size)) offset count [] dev.

(** The loop of ec_write: [rest] is what ptr and count still describe; memcpy
    takes write_size bytes of it, into a packet of [total_size] bytes. *)
Fixpoint ec_write_loop (fuel : nat) (write_size total_size offset : Z) (rest : list Z)
    (dev : ec_data) : outcome (Z * ec_data) :=
  if length rest =? 0 then Done (0%Z, dev)
  else
    match fuel with
    | 0 => Timeout
    | S fuel =>
        if (Z.of_nat (length rest) <? write_size)%Z || (total_size <? 8 + write_size)%Z then Fault
        else
          let packet := flash_params offset write_size ++ take (Z.to_nat write_size) rest in
          let '(res, _, dev) := ec_command dev EC_CMD_FLASH_WRITE 1 packet 0 in
          if negb (res =? 0)%Z then Done (res, dev)
          else ec_write_loop fuel write_size total_size (offset + write_size)
                 (drop (Z.to_nat write_size) rest) dev
    end.

Definition ec_write (alloc : Z -> bool) (fuel : nat) (dev : ec_data) (offset : Z)
    (buffer : list Z) : outcome (Z * ec_data) :=
  write_size ← write_ideal_size (ec_info dev);
  let total_size := u32 (8 + write_size) in
  if negb (alloc total_size) then Done ((- ENOMEM)%Z, dev)
  else ec_write_loop fuel write_size total_size offset buffer dev.

Definition ec_erase (dev : ec_data) (offset count : Z) : outcome (Z * ec_data) :=
  let '(res, _, dev) := ec_command dev EC_CMD_FLASH_ERASE 0 (flash_params offset count) 0 in
  Done (res, dev).

(** The structure always has its size, so the fields are there. *)
Definition ec_get (f : list Z -> outcome Z) (dev : ec_data) : Z :=
  if (0 <? ec_fd dev)%Z then default 0%Z (outcome_value (f (ec_info dev))) else 0%Z.

Definition ec_get_size : ec_data -> Z := ec_get flash_size.
Definition ec_get_write_size : ec_data -> Z := ec_get write_ideal_size.
Definition ec_get_erase_size : ec_data -> Z := ec_get erase_block_size.

Definition ec_get_fmap_offset (dev : ec_data) : Z :=
  let get f := default 0%Z (outcome_value (f (ro_region dev))) in
  u32 (get region_offset + get region_size).

Definition flash_ec_ops (uninit : Z) (alloc : Z -> bool) (fuel : nat) (s : ec_sys)
    : flash_device_ops ec_data := {|
  ops_name := "ec";
  ops_open := fun params => ec ← outcome_value (ec_open s params); fst ec;
  ops_close := fun _ => Done tt;
  ops_read := ec_read uninit fuel;
  ops_write := ec_write alloc fuel;
  ops_erase := ec_erase;
  ops_get_size := ec_get_size;
  ops_get_write_size := ec_get_write_size;
  ops_get_erase_size := ec_get_erase_size;
  ops_get_fmap_offset := ec_get_fmap_offset;
  ops_cmd := Some (fun dev cmd ver odata isize => Done (ec_command dev cmd ver odata isize))
|}.
End Ec.

Arguments ec_data : clear implicits.
Arguments ec_data {_}.

(** ** The controller

    What the driver relies on of the commands, for a flash that erases to
    ones: inside the flash a read answers with the bytes asked for, a write
    programs its data, an erase sets the bits of its region; a command that
    fails leaves a positive errno or a positive status. *)

Definition ec_fails `{EcSys} (r result : Z) (s : ec_sys) : Prop :=
  (r < 0)%Z /\ (0 < ec_errno s)%Z \/ (0 <= r)%Z /\ (0 < result < 2 ^ 31)%Z.

Class EcDevice `{EcSys} : Type := {
  ec_file : ec_sys -> list Z;
  ec_sys_ok : ec_sys -> Prop;
  ec_file_bytes : forall s, ec_sys_ok s -> Forall is_byte (ec_file s);
  ec_file_size : forall s, ec_sys_ok s -> (Z.of_nat (length (ec_file s)) < 2 ^ 32)%Z;
  ec_read_spec : forall s f off n insize r result data s',
    ec_sys_ok s -> 0 < n -> off + n <= length (ec_file s) -> (Z.of_nat n <= insize)%Z ->
    ec_ioctl s f (EcCommand 0 EC_CMD_FLASH_READ (flash_params (Z.of_nat off) (Z.of_nat n)) insize 255)
      = (r, result, data, s') ->
    ec_sys_ok s' /\ ec_file s' = ec_file s /\ length data <= n /\
    (ec_fails r result s' \/ (0 <= r)%Z /\ result = 0%Z /\ data = slice off n (ec_file s));
  ec_write_spec : forall s f off buf r result data s',
    ec_sys_ok s -> Forall is_byte buf -> 0 < length buf -> off + length buf <= length (ec_file s) ->
    ec_ioctl s f (EcCommand 1 EC_CMD_FLASH_WRITE
      (flash_params (Z.of_nat off) (Z.of_nat (length buf)) ++ buf) 0 255) = (r, result, data, s') ->
    ec_sys_ok s' /\ length (ec_file s') = length (ec_file s) /\
    (ec_fails r result s' \/ (0 <= r)%Z /\ result = 0%Z /\ ec_file s' = program off buf (ec_file s));
  ec_erase_spec : forall s f off n r result data s',
    ec_sys_ok s -> off + n <= length (ec_file s) ->
    ec_ioctl s f (EcCommand 0 EC_CMD_FLASH_ERASE (flash_params (Z.of_nat off) (Z.of_nat n)) 0 255)
      = (r, result, data, s') ->
    ec_sys_ok s' /\ length (ec_file s') = length (ec_file s) /\
    (ec_fails r result s' \/ (0 <= r)%Z /\ result = 0%Z /\ ec_file s' = erase off n (ec_file s))
}.

Section EcProofs.
Context `{EcDevice}.
Variables (uninit : Z) (alloc : Z -> bool) (fuel unit : nat) (s0 : ec_sys).

Definition ec_contents (h : ec_data) : list Z := ec_file (ec_system h).

(** The controller was opened, takes [unit] bytes at a time and answers with
    more than a header. *)
Record ec_ok (h : ec_data) : Prop := {
  eo_fd : (0 <= ec_fd h)%Z;
  eo_sys : ec_sys_ok (ec_system h);
  eo_fuel : length (ec_contents h) <= fuel;
  eo_packet : exists m, max_response_packet_size (proto h) = Done m /\ (8 < m < 2 ^ 16)%Z;
  eo_unit : write_ideal_size (ec_info h) = Done (Z.of_nat unit);
  eo_room : 0 < unit /\ (8 + Z.of_nat unit < 2 ^ 32)%Z
}.

(** Only the state of the system changes. *)
Definition same_ec (h h' : ec_data) : Prop := h' = set_ec_system (ec_system h') h.

Lemma same_ec_refl h : same_ec h h.
Proof. by destruct h. Qed.

Lemma ec_ok_next h h' :
  ec_ok h -> same_ec h h' -> ec_sys_ok (ec_system h') ->
  length (ec_contents h') = length (ec_contents h) -> ec_ok h'.
Proof.
  intros [] Hs Hok Hl. unfold same_ec in Hs. split; try done; try (by rewrite Hs). by rewrite Hl.
Qed.

(** The code of a command that fails is not 0. *)
Lemma ec_command_result h command version out insize r result data s :
  (0 <= ec_fd h)%Z ->
  ec_ioctl (ec_system h) (ec_fd h) (EcCommand version command out insize 255) = (r, result, data, s) ->
  exists res, ec_command h command version out insize = (res, data, set_ec_system s h) /\
    (ec_fails r result s -> res <> 0%Z) /\ ((0 <= r)%Z -> result = 0%Z -> res = 0%Z).
Proof.
  intros Hfd E. unfold ec_command. rewrite (proj2 (Z.ltb_ge _ _)) by done. rewrite E.
  unfold ec_fails, EC_RES_SUCCESS.
  destruct (Z.ltb_spec r 0); [eexists; split; [done|]; split; lia|].
  destruct (Z.eqb_spec result 0) as [->|]; cbn [negb]; eexists; (split; [done|]); (split; [|lia]).
  - lia.
  - intros [?|[_ ?]]; [lia|]. rewrite swrap_small; lia.
Qed.

Lemma store_fits data n :
  length data <= n -> exists rest, store data (replicate n uninit) = Done (data ++ rest) /\
    length (data ++ rest) = n.
Proof.
  intros Hl. unfold store. rewrite length_replicate, (proj2 (Nat.leb_le _ _)) by done.
  eexists. split; [done|]. rewrite length_app, length_drop, length_replicate. lia.
Qed.

Lemma store_exact data n : length data = n -> store data (replicate n uninit) = Done data.
Proof.
  intros <-. unfold store. rewrite length_replicate, Nat.leb_refl.
  by rewrite drop_ge, app_nil_r by (by rewrite length_replicate).
Qed.

(** One command reads at most [read] bytes; as many commands as needed are
    enough. *)
Lemma ec_read_loop_spec read f off count acc h :
  0 < read -> count <= f * read -> (0 <= ec_fd h)%Z -> ec_sys_ok (ec_system h) ->
  off + count <= length (ec_contents h) ->
  exists res data h', ec_read_loop uninit f (Z.of_nat read) (Z.of_nat off) (Z.of_nat count) acc h
      = Done (res, data, h') /\
    same_ec h h' /\ ec_sys_ok (ec_system h') /\ ec_contents h' = ec_contents h /\
    (res = 0%Z -> data = acc ++ slice off count (ec_contents h)).
Proof.
  intros Hread. revert off count acc h. induction f as [|f IH]; intros off count acc h Hf Hfd Hok Hin;
    cbn [ec_read_loop].
  all: destruct (Z.eqb_spec (Z.of_nat count) 0) as [E|Hne];
    [assert (count = 0) as -> by lia; exists 0%Z, acc, h; split_and!; [done | apply same_ec_refl | done | done|];
     intros _; unfold slice; by rewrite take_0, app_nil_r|].
  1: lia.
  rewrite <- Nat2Z.inj_min. pose proof (Nat.min_spec read count) as Hmin.
  set (n := Nat.min read count) in *. clearbody n. assert (0 < n /\ n <= read /\ n <= count) as Hn by lia.
  assert (0 < n) as Hn1 by lia. assert (off + n <= length (ec_file (ec_system h))) as Hn2
    by (unfold ec_contents in Hin; lia). assert (Z.of_nat n <= Z.of_nat read)%Z as Hn3 by lia.
  destruct (ec_ioctl (ec_system h) (ec_fd h) (EcCommand 0 EC_CMD_FLASH_READ
    (flash_params (Z.of_nat off) (Z.of_nat n)) (Z.of_nat read) 255)) as [[[r result] data] s] eqn:Ei.
  destruct (ec_read_spec _ _ off n _ _ _ _ _ Hok Hn1 Hn2 Hn3 Ei)
    as (Hs & Hfile & Hlen & Hr).
  destruct (ec_command_result _ _ _ _ _ _ _ _ _ Hfd Ei) as (res & -> & Hbad & Hgood). rewrite Nat2Z.id.
  destruct (store_fits data n Hlen) as (rest & -> & Hrest). rewrite bind_Done_eq.
  destruct (Z.eqb_spec res 0) as [->|Hres]; cbn [negb].
  - destruct Hr as [Hr|(_ & _ & ->)]; [by apply Hbad in Hr|].
    destruct (IH (off + n) (count - n) (acc ++ (slice off n (ec_file (ec_system h)) ++ rest)) (set_ec_system s h))
      as (res & data & h' & E & Hsame & Hok' & Hc & Hd);
      [rewrite Nat.mul_succ_l in Hf; lia
      |done | done | cbn; unfold ec_contents in *; cbn; rewrite Hfile; lia|].
    rewrite <- Nat2Z.inj_add, <- Nat2Z.inj_sub by lia. exists res, data, h'.
    unfold ec_contents in *. cbn in Hc, Hd. rewrite Hfile in Hc, Hd. split_and!; [done | done | done | done|].
    intros E0. rewrite (Hd E0).
    rewrite length_app, slice_length in Hrest by (unfold ec_contents in Hin; lia).
    rewrite (nil_length_inv rest), app_nil_r, <- app_assoc, slice_app by lia. do 3 f_equal. lia.
  - eexists _, _, _. split_and!; [done | done | done | by unfold ec_contents; cbn; rewrite Hfile | done].
Qed.

(** The command for the packet at [off]. *)
Definition write_packet (h : ec_data) (off : nat) (data : list Z) : Z * list Z * ec_data :=
  ec_command h EC_CMD_FLASH_WRITE 1 (flash_params (Z.of_nat off) (Z.of_nat unit) ++ data) 0.

(** How a write ends: every packet is programmed, or those before the [k]-th
    are, and the result is that of the command for the [k]-th, which failed. *)
Inductive written (off : nat) (buf : list Z) (h : ec_data) : Z -> ec_data -> Prop :=
| written_all h' : ec_contents h' = program off buf (ec_contents h) -> written off buf h 0 h'
| written_upto k h1 res data h' :
    k * unit < length buf -> same_ec h h1 -> ec_contents h1 = program off (take (k * unit) buf) (ec_contents h) ->
    write_packet h1 (off + k * unit) (slice (k * unit) unit buf) = (res, data, h') -> res <> 0%Z -> written off buf h res h'.

Lemma written_zero off buf h h' : written off buf h 0 h' -> ec_contents h' = program off buf (ec_contents h).
Proof. intros W. by inversion W. Qed.

Lemma written_cons off buf h h1 res h' : unit <= length buf -> same_ec h h1 ->
  ec_contents h1 = program off (take unit buf) (ec_contents h) -> written (off + unit) (drop unit buf) h1 res h' -> written off buf h res h'.
Proof.
  intros Hu Hs Hc W. assert (length (take unit buf) = unit) as Hlt by (rewrite length_take; lia).
  inversion W as [? Hw|k h2 ? data ? Hk Hs2 Hc2 Hp Hr]; subst.
  - constructor. rewrite Hw, Hc. replace (off + unit) with (off + length (take unit buf)) by lia. by rewrite program_app, take_drop.
  - eapply (written_upto _ _ _ (S k) h2); [rewrite length_drop in Hk; lia| | | |exact Hr].
    + unfold same_ec in *. rewrite Hs in Hs2. exact Hs2.
    + rewrite Hc2, Hc. replace (off + unit) with (off + length (take unit buf)) by lia. by rewrite program_app, take_take_drop.
    + rewrite <- Hp. unfold slice. rewrite drop_drop. by replace (off + S k * unit) with (off + unit + k * unit) by lia.
Qed.

(** A whole number of packets is programmed packet by packet. *)
Lemma ec_write_loop_spec f k off rest h :
  k <= f -> length rest = k * unit -> ec_ok h -> Forall is_byte rest ->
  off + length rest <= length (ec_contents h) ->
  exists res h', ec_write_loop f (Z.of_nat unit) (8 + Z.of_nat unit) (Z.of_nat off) rest h = Done (res, h') /\
    same_ec h h' /\ ec_ok h' /\ written off rest h res h'.
Proof.
  revert k off rest h. induction f as [|f IH]; intros [|k] off rest h Hf Hk Hok Hb Hin; [|lia| |]; cbn [ec_write_loop].
  1,2: destruct rest; [|done]; cbn; exists 0%Z, h; split_and!; [done | apply same_ec_refl | done|];
    constructor; by rewrite program_nil.
  destruct (eo_room _ Hok) as [Hu1 Hu2]. rewrite Nat.mul_succ_l in Hk.
  destruct (Nat.eqb_spec (length rest) 0); [lia|].
  rewrite (proj2 (Z.ltb_ge _ _)), (proj2 (Z.ltb_ge _ _)) by lia. cbn [orb]. rewrite Nat2Z.id.
  assert (length (take unit rest) = unit) as Hlt by (rewrite length_take; lia).
  destruct (ec_ioctl (ec_system h) (ec_fd h) (EcCommand 1 EC_CMD_FLASH_WRITE
    (flash_params (Z.of_nat off) (Z.of_nat unit) ++ take unit rest) 0 255)) as [[[r result] data] s] eqn:Ei.
  assert (Ei' := Ei). rewrite <- Hlt in Ei' at 1. unfold ec_contents in Hin.
  assert (0 < length (take unit rest)) as H1 by lia.
  assert (off + length (take unit rest) <= length (ec_file (ec_system h))) as H2 by lia.
  destruct (ec_write_spec _ _ off (take unit rest) _ _ _ _ (eo_sys _ Hok) (Forall_take _ _ _ Hb) H1 H2 Ei')
    as (Hs & Hlen & Hr).
  destruct (ec_command_result _ _ _ _ _ _ _ _ _ (eo_fd _ Hok) Ei) as (res & Epk & Hbad & Hgood).
  rewrite Epk.
  assert (ec_ok (set_ec_system s h)) as Hok1 by by apply (ec_ok_next h).
  destruct (Z.eqb_spec res 0) as [->|Hres]; cbn [negb].
  2:{ eexists _, _. split_and!; [done | done | done|]. eapply (written_upto _ _ _ 0 h); [lia | apply same_ec_refl | by rewrite program_nil | |exact Hres].
      unfold write_packet, slice. by rewrite Nat.add_0_r, drop_0, Epk. }
  destruct Hr as [Hr|(_ & _ & Hfile)]; [by apply Hbad in Hr|].
  destruct (IH k (off + unit) (drop unit rest) (set_ec_system s h)) as (res & h' & E & Hsame & Hok' & Hc);
    [lia | rewrite length_drop; lia | done | by apply Forall_drop
    |unfold ec_contents; cbn; rewrite Hlen, length_drop; lia|].
  rewrite Nat2Z.inj_add in E. exists res, h'. split_and!; [done | done | done|].
  by apply (written_cons _ _ _ (set_ec_system s h)); [lia | | |].
Qed.

Lemma ec_read_inside h off n :
  ec_ok h -> off + n <= length (ec_contents h) ->
  exists res data h', ec_read uninit fuel h (Z.of_nat off) (Z.of_nat n) = Done (res, data, h') /\
    same_ec h h' /\ ec_ok h' /\ ec_contents h' = ec_contents h /\
    (res = 0%Z -> data = slice off n (ec_contents h)).
Proof.
  intros Hok Hin. unfold ec_read. destruct (eo_packet _ Hok) as (m & -> & Hm). rewrite bind_Done_eq.
  unfold ec_host_response_size. rewrite wrap_small, <- (Z2Nat.id (m - 8)) by lia.
  pose proof (eo_fuel _ Hok). destruct (ec_read_loop_spec (Z.to_nat (m - 8)) fuel off n [] h)
    as (res & data & h' & E & Hs & Hok' & Hc & Hd); [lia | nia | apply Hok | apply Hok | done|].
  exists res, data, h'. split_and!; [done | done | | done | done]. apply (ec_ok_next h); [done | done | done | by rewrite Hc].
Qed.

Lemma ec_write_inside h off buf :
  ec_ok h -> Forall is_byte buf -> Nat.divide unit (length buf) ->
  off + length buf <= length (ec_contents h) ->
  exists res h', ec_write alloc fuel h (Z.of_nat off) buf = Done (res, h') /\ ec_ok h' /\
    if alloc (8 + Z.of_nat unit)%Z then written off buf h res h' else res = (- ENOMEM)%Z /\ h' = h.
Proof.
  intros Hok Hb [k Hk] Hin. unfold ec_write. rewrite (eo_unit _ Hok), bind_Done_eq.
  destruct (eo_room _ Hok) as [Hu1 Hu2]. rewrite wrap_small by lia. pose proof (eo_fuel _ Hok).
  destruct (alloc _); cbn [negb]; [|by eexists _, h].
  destruct (ec_write_loop_spec fuel k off buf h) as (res & h' & E & _ & Hok' & W); [nia | done..|]. by exists res, h'.
Qed.

Lemma ec_erase_inside h off n :
  ec_ok h -> off + n <= length (ec_contents h) ->
  exists res h', ec_erase h (Z.of_nat off) (Z.of_nat n) = Done (res, h') /\
    same_ec h h' /\ ec_ok h' /\ (res = 0%Z -> ec_contents h' = erase off n (ec_contents h)).
Proof.
  intros Hok Hin. unfold ec_erase.
  destruct (ec_ioctl (ec_system h) (ec_fd h) (EcCommand 0 EC_CMD_FLASH_ERASE
    (flash_params (Z.of_nat off) (Z.of_nat n)) 0 255)) as [[[r result] data] s] eqn:Ei.
  destruct (ec_erase_spec _ _ off n _ _ _ _ (eo_sys _ Hok) Hin Ei) as (Hs & Hlen & Hr).
  destruct (ec_command_result _ _ _ _ _ _ _ _ _ (eo_fd _ Hok) Ei) as (res & -> & Hbad & Hgood).
  exists res, (set_ec_system s h). split_and!; [done | done | by apply (ec_ok_next h)|].
  intros ->. destruct Hr as [Hr|(_ & _ & ?)]; [by apply Hbad in Hr | done].
Qed.

(** The driver keeps the promise of a NOR flash device written by packets. *)
#[export] Instance ec_nor : NorFlash (flash_ec_ops uninit alloc fuel s0).
Proof.
  refine {| contents := ec_contents; nor_ok := ec_ok; nor_unit := unit |}.
  - intros h Hok. apply ec_file_bytes, Hok.
  - intros h off n Hok Hin. destruct (ec_read_inside h off n Hok Hin) as (res & data & h' & ? & _ & ? & ? & ?).
    by exists res, data, h'.
  - intros h off buf Hok Hb Hu Hin.
    destruct (ec_write_inside h off buf Hok Hb Hu Hin) as (res & h' & ? & ? & Hr). exists res, h'. split_and!; [done | done|].
    intros ->. destruct (alloc _); [by apply written_zero|]. by destruct Hr.
  - intros h off n Hok Hin. destruct (ec_erase_inside h off n Hok Hin) as (res & h' & ? & _ & ? & ?).
    by exists res, h'.
Defined.

Lemma misaligned_nat a m : 0 < m -> (Z.of_nat a < 2 ^ 64)%Z ->
  misaligned (Z.of_nat a) (Z.of_nat m) = Done (negb (a mod m =? 0)).
Proof.
  intros Hm Ha. unfold misaligned. rewrite (proj2 (Z.eqb_neq _ _)), wrap_small by lia.
  rewrite <- Nat2Z.inj_mod. do 2 f_equal. destruct (Nat.eqb_spec (a mod m) 0) as [->|]; [done|].
  by apply Z.eqb_neq; lia.
Qed.

(** C32.  Writing to the controller's flash through flash_write.  A buffer
    inside the flash whose offset or length is not a whole number of the
    controller's packets is refused with -EINVAL and nothing is sent.  Without
    memory for a packet the result is -ENOMEM and nothing is sent.  Otherwise the
    buffer is sent packet by packet, never reading past it: the write ends with 0
    and the buffer programmed over the old contents, or with the result of the
    command for the packet that failed, the packets before it programmed and none
    sent after it.  The device stays usable.  The contract of the controller is
    [EcDevice]: inside the flash a write command programs its data or fails. *)
Theorem ec_flash_write dev off buf :
  ops dev = flash_ec_ops uninit alloc fuel s0 -> ec_ok (priv_data dev) ->
  write_size dev = Z.of_nat unit -> Forall is_byte buf ->
  off + length buf <= length (ec_contents (priv_data dev)) ->
  exists res h, flash_write dev (Z.of_nat off) buf = Done (res, set_priv h dev) /\ ec_ok h /\
    if (off mod unit =? 0) && (length buf mod unit =? 0) then
      if alloc (8 + Z.of_nat unit)%Z then written off buf (priv_data dev) res h
      else res = (- ENOMEM)%Z /\ h = priv_data dev
    else res = (- EINVAL)%Z /\ h = priv_data dev.
Proof.
  intros Ho Hok Hw Hb Hin. destruct (eo_room _ Hok) as [Hu1 Hu2].
  pose proof (ec_file_size _ (eo_sys _ Hok)). unfold ec_contents in Hin.
  unfold flash_write. rewrite Hw, !misaligned_nat, !bind_Done_eq, Ho by lia.
  destruct (Nat.eqb_spec (off mod unit) 0) as [D0|D0]; cbn [negb orb];
    [destruct (Nat.eqb_spec (length buf mod unit) 0) as [D1|D1]; cbn [negb]|].
  2,3: eexists _, (priv_data dev); split; [by destruct dev|]; by split.
  destruct (ec_write_inside (priv_data dev) off buf) as (res & h & E & Hok' & Hr);
    [done | done | by apply Nat.Lcm0.mod_divide | done|]. cbn [ops_write flash_ec_ops]. rewrite E, bind_Done_eq.
  by exists res, h.
Qed.
End EcProofs.
