(* ===== verification/FlashSamples.v ===== *)
(** * FlashSamples: flashes in memory

    A list of bytes that behaves like NOR flash, with a map and an NVRAM, at
    which the theorems on flash devices apply; a system with one MTD device; a
    controller with a small flash. *)

From S2P Require Import Prelude CString FlashDevice Vboot NorFlash VbnvStore FlashMap FlashMtd FlashEc.

(** ** Memory as a device *)

Definition mem_contents (h : list Z) : list Z := map u8 h.

Definition fits (h : list Z) (off n : Z) : bool := (off + n <=? Z.of_nat (length h))%Z.

Definition mem_ops (fmap_offset : Z) : flash_device_ops (list Z) := {|
  ops_name := "memory";
  ops_open := fun _ => None;
  ops_close := fun _ => Done tt;
  ops_read := fun h off n =>
    if fits h off n then Done (0%Z, slice (Z.to_nat off) (Z.to_nat n) (mem_contents h), h)
    else Done ((- EINVAL)%Z, [], h);
  ops_write := fun h off buf =>
    if fits h off (Z.of_nat (length buf))
    then Done (0%Z, program (Z.to_nat off) buf (mem_contents h)) else Done ((- EINVAL)%Z, h);
  ops_erase := fun h off n =>
    if fits h off n then Done (0%Z, erase (Z.to_nat off) (Z.to_nat n) (mem_contents h))
    else Done ((- EINVAL)%Z, h);
  ops_get_size := fun h => Z.of_nat (length h);
  ops_get_write_size := fun _ => 1%Z;
  ops_get_erase_size := fun _ => 16%Z;
  ops_get_fmap_offset := fun _ => fmap_offset;
  ops_cmd := None
|}.

Lemma mem_contents_bytes h : Forall is_byte (mem_contents h).
Proof.
  unfold mem_contents. apply Forall_map, Forall_true. intros b. apply (wrap_range 8). lia.
Qed.

Lemma mem_contents_id l : Forall is_byte l -> mem_contents l = l.
Proof.
  unfold mem_contents. induction 1 as [|b l Hb _ IH]; cbn; [done|].
  rewrite IH. f_equal. exact (wrap_small 8 _ Hb).
Qed.

Lemma land_byte a b : is_byte a -> is_byte b -> is_byte (Z.land a b).
Proof.
  intros [H0 Ha]%byte_bits [H1 Hb]%byte_bits. apply byte_bits. split; [apply Z.land_nonneg; by left|].
  intros i Hi. by rewrite Z.land_spec, Ha.
Qed.

Lemma program_bytes off new l : Forall is_byte new -> Forall is_byte l -> Forall is_byte (program off new l).
Proof.
  intros Hn Hl. apply Forall_lookup_2. intros i x Hx. rewrite program_lookup in Hx.
  destruct (l !! i) as [b|] eqn:Eb; [|done]. pose proof (Forall_lookup_1 _ _ _ _ Hl Eb) as Hb.
  injection Hx as <-. destruct (off <=? i); [|done]. destruct (new !! (i - off)) as [y|] eqn:Ey; [|done].
  apply land_byte; [done | exact (Forall_lookup_1 _ _ _ _ Hn Ey)].
Qed.

Lemma erase_bytes off n l : Forall is_byte l -> Forall is_byte (erase off n l).
Proof.
  intros Hl. apply Forall_lookup_2. intros i x Hx. rewrite erase_lookup in Hx.
  destruct (l !! i) as [b|] eqn:Eb; [|done]. pose proof (Forall_lookup_1 _ _ _ _ Hl Eb) as Hb.
  injection Hx as <-. destruct (_ && _); [unfold is_byte; lia | done].
Qed.

Lemma mem_length h : length (mem_contents h) = length h.
Proof. apply length_map. Qed.

Lemma fits_true h off n : off + n <= length h -> fits h (Z.of_nat off) (Z.of_nat n) = true.
Proof. intros Hl. apply Z.leb_le. lia. Qed.

#[export] Instance mem_nor e : NorFlash (mem_ops e).
Proof.
  refine {| contents := mem_contents; nor_ok := fun _ => True; nor_unit := 1 |}.
  - intros h _. apply mem_contents_bytes.
  - intros h off n _ Hl. rewrite mem_length in Hl. cbn. rewrite fits_true, !Nat2Z.id by done.
    by eexists _, _, h.
  - intros h off buf _ Hb _ Hl. rewrite mem_length in Hl. cbn. rewrite fits_true, !Nat2Z.id by done.
    eexists _, _. split_and!; [done | done|]. intros _.
    apply mem_contents_id, program_bytes; [done | apply mem_contents_bytes].
  - intros h off n _ Hl. rewrite mem_length in Hl. cbn. rewrite fits_true, !Nat2Z.id by done.
    eexists _, _. split_and!; [done | done|]. intros _.
    apply mem_contents_id, erase_bytes, mem_contents_bytes.
Defined.

Lemma mem_reliable e : reliable (o := mem_ops e).
Proof.
  intros h off n _ Hl. cbn in Hl. rewrite mem_length in Hl. cbn. rewrite fits_true by done.
  by eexists _, _.
Qed.

(** ** A flash of 256 bytes: its map at 64, an NVRAM of two blocks at 208, the
    first used *)

Definition sample_areas : list area :=
  [Area "RO_VPD" 0 64 0; Area "RW_NVRAM" 208 32 0].

Definition sample_header : list Z := [1; 1]%Z ++ replicate 44 0%Z.

Definition sample_map : list Z := encode_map sample_header sample_areas.

Definition sample_record : list Z :=
  let block := [112; 0; 0; 0; 1; 0; 0; 0; 0; 0; 0; 0; 0; 0; 0]%Z in block ++ [crc8 block].

Definition sample_flash : list Z :=
  replicate 64 0%Z ++ sample_map ++ replicate 4 0%Z ++ sample_record ++ blank ++ replicate 16 0%Z.

Definition sample_device (fm : option (list Z)) : flash_device (list Z) :=
  FlashDevice (mem_ops 128) sample_flash fm None 0 256 1 16.

Lemma no_nul_decide s : forallb (fun z => negb (z =? 0)%Z) (chars s) = true -> no_nul s.
Proof.
  intros Hs. apply Forall_forall. intros x Hx E. rewrite forallb_forall in Hs.
  specialize (Hs x Hx). by subst x.
Qed.

Lemma sample_map_ok : map_ok sample_header sample_areas.
Proof.
  split; [done | done|].
  constructor; [|constructor; [|constructor]];
    (split; [cbn; lia|]); (split; [|cbn; lia]); by apply no_nul_decide.
Qed.

Lemma sample_mapped : mapped (o := mem_ops 128) (sample_device None) 1 1 sample_header sample_areas.
Proof.
  split.
  - reflexivity.
  - exact I.
  - reflexivity.
  - exact sample_map_ok.
  - exists 128. split; [reflexivity | vm_compute; reflexivity].
  - lia.
  - lia.
  - vm_compute. lia.
  - vm_compute. reflexivity.
  - intros i H1 H2. lia.
Qed.

Lemma fmap_section_read_witness :
  exists dev', same_device (o := mem_ops 128) (sample_device None) dev' /\
    fmap_read_section (fun _ => true) 5 (sample_device None) (Some "RW_NVRAM"%string) =
    Done (Some (sample_record ++ blank, 32%Z, 208%Z), set_fmap (Some sample_map) dev').
Proof.
  destruct (fmap_section_read (fun _ => true) 5 (sample_device None) 1 1 sample_header sample_areas
              "RW_NVRAM" sample_mapped) as (r & fm & dev' & S & E & _ & Hr); [lia | | |].
  - by apply no_nul_decide.
  - intros a Ha. vm_compute in Ha. injection Ha as <-. vm_compute. discriminate.
  - destruct (Hr (mem_reliable 128) (fun _ => eq_refl)) as [-> ->]. exists dev'. split; [exact S|]. rewrite E. vm_compute. reflexivity.
Defined.

Lemma sample_store : store_ok (mem_ops 128) 208 2 1 (sample_device (Some sample_map)).
Proof.
  split; try done.
  - apply Nat.divide_1_l.
  - exists sample_map. split; [done | vm_compute; reflexivity].
  - lia.
  - vm_compute. repeat constructor.
  - split; [done | lia | |].
    + intros [|i] Hi; [|lia]. apply (bool_decide_unpack _). vm_compute. reflexivity.
    + intros [|[|i]] Hi; [lia | vm_compute; reflexivity | lia].
Qed.

Definition sample_param : vbnv_param := VbnvParam "try_count" true VB_BOOT_OFFSET 0 15.

Lemma vbnv_set_get_witness :
  exists spi1, vbnv_set_flag (fun _ => true) 5 (sample_device (Some sample_map)) "try_count" 6
               = Done (0%Z, spi1) /\
    exists spi2, vbnv_get_flag (fun _ => true) 5 spi1 "try_count" 0 = Done (0%Z, 6%Z, spi2).
Proof.
  destruct (vbnv_set_get (mem_ops 128) (fun _ => true) 5 208 2 1 (sample_device (Some sample_map))
              "try_count" sample_param 6 sample_store)
    as (rc & spi1 & E & _ & H); [vm_compute; reflexivity | reflexivity|].
  assert (match vbnv_set_flag (fun _ => true) 5 (sample_device (Some sample_map)) "try_count" 6 with
          | Done (r, s) => match vbnv_get_flag (fun _ => true) 5 s "try_count" 0 with
                           | Done (r', _, _) => (r =? 0)%Z && (r' =? 0)%Z
                           | _ => false end
          | _ => false end = true) as C by (vm_compute; reflexivity).
  rewrite E in C.
  destruct (vbnv_get_flag (fun _ => true) 5 spi1 "try_count" 0) as [[[rc' v] s2]| |] eqn:G; try discriminate C.
  apply andb_prop in C as [C1%Z.eqb_eq C2%Z.eqb_eq]. subst rc rc'.
  exists spi1. split; [exact E|]. destruct (H eq_refl) as (c' & _ & _ & _ & H').
  destruct (H' "try_count"%string sample_param 0%Z ltac:(vm_compute; reflexivity)) as (rc' & new & spi2 & G' & _ & Hv).
  rewrite G in G'. injection G' as <- <- <-. specialize (Hv eq_refl). change (Z.land 6 (v_mask sample_param)) with 6%Z in Hv. cbn in Hv. subst v.
  exists s2. exact G.
Defined.

(** ** A system with one MTD device

    The device is a list of bytes with a position; a call reads or writes two
    bytes at most.  The verified boot NVRAM is set through the whole stack. *)

Record toy : Type := Toy { toy_file : list Z; toy_pos : nat }.

(** Flash type, size, erase size and write size. *)
#[export] Instance toy_sys : MtdSys := {|
  sys := toy;
  sys_errno := fun _ => 5%Z;
  sys_open := fun s path => (if String.eqb path ALTERNATE_MTD_FILE then 3%Z else (-1)%Z, s);
  sys_close := fun s _ => s;
  sys_lseek := fun s _ off => (off, Toy (toy_file s) (Z.to_nat off));
  sys_read := fun s _ count =>
    let k := Nat.min (Nat.min 2 (Z.to_nat count)) (length (toy_file s) - toy_pos s) in
    (Z.of_nat k, slice (toy_pos s) k (toy_file s), Toy (toy_file s) (toy_pos s + k));
  sys_write := fun s _ buf =>
    let k := Nat.min 2 (length buf) in
    (Z.of_nat k, Toy (program (toy_pos s) (take k buf) (toy_file s)) (toy_pos s + k));
  sys_memerase := fun s _ start len =>
    (0%Z, Toy (erase (Z.to_nat start) (Z.to_nat len) (toy_file s)) (toy_pos s));
  mtd_info := Z * Z * Z * Z;
  sys_memgetinfo := fun s _ => (0%Z, (3%Z, Z.of_nat (length (toy_file s)), 16%Z, 1%Z), s);
  info_type := fun i => i.1.1.1;
  info_size := fun i => i.1.1.2;
  info_erasesize := fun i => i.1.2;
  info_writesize := fun i => i.2;
  MTD_NORFLASH := 3%Z
|}.

Definition toy_ok (s : toy) : Prop :=
  Forall is_byte (toy_file s) /\ (Z.of_nat (length (toy_file s)) < 2 ^ 32)%Z.

#[export] Instance toy_device : MtdDevice.
Proof.
  refine {| file := toy_file; pos := fun s _ => toy_pos s; sys_ok := toy_ok |}.
  - by intros s [].
  - by intros s [].
  - intros s f off p s' Hok [= <- <-]. split_and!; [done | done|]. left. cbn. split; [done | lia].
  - intros s f count res data s' Hok Hc E. cbn -[Nat.min] in E. injection E as <- <- <-.
    split_and!; [done | done|]. right. rewrite Nat2Z.id. cbn -[Nat.min Nat.max].
    exists (Nat.min (Nat.min 2 count) (length (toy_file s) - toy_pos s)). split_and!; [done | done | done | lia | lia | lia].
  - intros s f buf res s' [Hb Hl] Hbuf Hpos Hin E. cbn -[Nat.min take] in E. injection E as <- <-. split.
    + split; cbn -[Nat.min take]; [apply program_bytes; [by apply Forall_take | done] | by rewrite program_length].
    + right. exists (Nat.min 2 (length buf)). split_and!; [done | lia | lia | done | done].
  - intros s f off n res s' [Hb Hl] Hin E. cbn in E. injection E as <- <-. rewrite !Nat2Z.id. split.
    + split; cbn; [by apply erase_bytes | by rewrite erase_length].
    + by right.
Defined.

Definition toy_handle (l : list Z) : mtd_data := MtdData 3 (3, Z.of_nat (length l), 16, 1)%Z (Toy l 0).

Lemma toy_ok_bytes fuel l :
  forallb (fun b => (0 <=? b)%Z && (b <? 256)%Z) l = true -> (length l <=? fuel) = true ->
  (Z.of_nat (length l) <? 2 ^ 32)%Z = true -> mtd_ok fuel (toy_handle l).
Proof.
  intros Hb Hl Hz. split; [split|]; cbn.
  - apply list.Forall_forall. intros b Hin. rewrite forallb_forall in Hb.
    apply list_elem_of_In, Hb, andb_prop in Hin as [H0%Z.leb_le H1%Z.ltb_lt]. done.
  - by apply Z.ltb_lt.
  - by apply Nat.leb_le.
Qed.

Lemma mtd_read_ends_inside_witness :
  (exists res data h', mtd_read 8 (toy_handle [1; 2; 3; 4; 5]%Z) 1 3 = Done (res, data, h') /\
     ((0 < res)%Z \/ res = 0%Z /\ data = [2; 3; 4]%Z)) /\
  mtd_read 1000 (toy_handle [1; 2; 3; 4; 5]%Z) 1 7 = Timeout.
Proof.
  assert (mtd_ok 8 (toy_handle [1; 2; 3; 4; 5]%Z)) as Hok by (apply toy_ok_bytes; vm_compute; reflexivity).
  split.
  - destruct (mtd_read_ends_inside 8 (toy_handle [1; 2; 3; 4; 5]%Z) 1 3 Hok) as [H _]; [lia|].
    destruct H as (res & data & h' & E & _ & _ & Hr); [cbn; lia|]. exists res, data, h'. split; [exact E | exact Hr].
  - destruct (mtd_read_ends_inside 8 (toy_handle [1; 2; 3; 4; 5]%Z) 1 7 Hok) as [_ H]; [lia|].
    apply (H ltac:(cbn; lia)).
    + intros s g c r d s' E. cbn -[Nat.min] in E. injection E as <- _ _. lia.
    + intros s g o p s' E. injection E as <- _. reflexivity.
Defined.

(** ** The NVRAM through the driver *)

Definition toy_flash : flash_device mtd_data :=
  FlashDevice (flash_mtd_ops 300 (Toy [] 0) (fun _ => None)) (toy_handle sample_flash)
    (Some sample_map) None 0 256 1 16.

Lemma toy_store : store_ok (flash_mtd_ops 300 (Toy [] 0) (fun _ => None)) 208 2 1 toy_flash.
Proof.
  split; try done.
  - apply toy_ok_bytes; vm_compute; reflexivity.
  - apply Nat.divide_1_l.
  - exists sample_map. split; [done | vm_compute; reflexivity].
  - lia.
  - vm_compute. repeat constructor.
  - split; [done | lia | |].
    + intros [|i] Hi; [|lia]. apply (bool_decide_unpack _). vm_compute. reflexivity.
    + intros [|[|i]] Hi; [lia | vm_compute; reflexivity | lia].
Qed.

(** The value is there when it is read back through the driver. *)
Example toy_set_get :
  match vbnv_set_flag (fun _ => true) 5 toy_flash "try_count" 6 with
  | Done (r, s) =>
      match vbnv_get_flag (fun _ => true) 5 s "try_count" 0 with
      | Done (r', v, _) => (r, r', v)
      | _ => (1, 1, 0)%Z
      end
  | _ => (1, 1, 0)%Z
  end = (0, 0, 6)%Z.
Proof. vm_compute. reflexivity. Qed.

(** ** A controller with a small flash

    A list of bytes answers the commands.  A variant of it answers a read with
    as many bytes as the driver says it has room for. *)

(** The numbers of [flash_params]. *)
Definition param_offset (l : list Z) : nat := Z.to_nat (le_bytes (take 4 l)).
Definition param_size (l : list Z) : nat := Z.to_nat (le_bytes (take 4 (drop 4 l))).

Definition toy_reply (pad : bool) (s : list Z) (cmd : cros_ec_command) : Z * Z * list Z * list Z :=
  let p := c_outdata cmd in
  if (c_command cmd =? EC_CMD_FLASH_READ)%Z then
    let data := slice (param_offset p) (param_size p) s in
    let room := if pad then Z.to_nat (c_insize cmd) else 0 in
    (0%Z, 0%Z, data ++ replicate (room - length data) 0%Z, s)
  else if (c_command cmd =? EC_CMD_FLASH_WRITE)%Z then
    (0%Z, 0%Z, [], program (param_offset p) (drop 8 p) s)
  else if (c_command cmd =? EC_CMD_FLASH_ERASE)%Z then
    (0%Z, 0%Z, [], erase (param_offset p) (param_size p) s)
  else if (c_command cmd =? EC_CMD_GET_PROTOCOL_INFO)%Z then
    (0%Z, 0%Z, le_encode 4 8 ++ le_encode 2 64 ++ le_encode 2 12 ++ le_encode 4 0, s)
  else if (c_command cmd =? EC_CMD_FLASH_INFO)%Z then
    (0%Z, 0%Z, le_encode 4 (Z.of_nat (length s)) ++ le_encode 4 2 ++ le_encode 4 4
               ++ le_encode 4 4 ++ le_encode 4 2 ++ le_encode 4 0, s)
  else if (c_command cmd =? EC_CMD_FLASH_REGION_INFO)%Z then
    (0%Z, 0%Z, le_encode 4 0 ++ le_encode 4 (Z.of_nat (length s)), s)
  else (0%Z, 1%Z, [], s).

Definition toy_controller (pad : bool) : EcSys := {|
  ec_sys := list Z;
  ec_errno := fun _ => 5%Z;
  ec_sys_open := fun s path => (if String.eqb path CROS_EC_DEV_NAME then 3%Z else (-1)%Z, s);
  ec_sys_close := fun s _ => s;
  ec_ioctl := fun s _ cmd => toy_reply pad s cmd
|}.

#[export] Instance toy_ec_sys : EcSys := toy_controller false.

Lemma params_decode off n rest :
  (Z.of_nat off < 2 ^ 32)%Z -> (Z.of_nat n < 2 ^ 32)%Z ->
  param_offset (flash_params (Z.of_nat off) (Z.of_nat n) ++ rest) = off /\
  param_size (flash_params (Z.of_nat off) (Z.of_nat n) ++ rest) = n /\
  drop 8 (flash_params (Z.of_nat off) (Z.of_nat n) ++ rest) = rest.
Proof.
  intros Ho Hn. unfold flash_params. rewrite !wrap_small by lia. unfold param_offset, param_size.
  rewrite <- app_assoc. rewrite take_app_length' by (by rewrite le_encode_length).
  rewrite drop_app_length' by (by rewrite le_encode_length).
  rewrite take_app_length' by (by rewrite le_encode_length).
  rewrite !le_bytes_encode, !Nat2Z.id by (cbn; lia). split_and!; [done | done|].
  rewrite app_assoc. by rewrite drop_app_length' by (by rewrite length_app, !le_encode_length).
Qed.

#[export] Instance toy_ec_device : EcDevice.
Proof.
  unshelve refine {| ec_file := fun s : @ec_sys toy_ec_sys => s;
            ec_sys_ok := fun s : @ec_sys toy_ec_sys => Forall is_byte s /\ (Z.of_nat (length s) < 2 ^ 32)%Z |}.
  - by intros s [].
  - by intros s [].
  - intros s f off n insize r result data s' Hs Hn Hin Hi E. destruct Hs as [Hb Hl].
    destruct (params_decode off n []) as (E1 & E2 & _); [lia | lia|]. rewrite app_nil_r in E1, E2.
    cbn -[flash_params slice] in E. rewrite E1, E2 in E. cbn in E. rewrite app_nil_r in E. injection E as <- <- <- <-.
    split_and!; [done | done | done | unfold slice; rewrite length_take; lia | right; done].
  - intros s f off buf r result data s' Hs Hbuf Hn Hin E. destruct Hs as [Hb Hl].
    destruct (params_decode off (length buf) buf) as (E1 & _ & E3); [lia | lia|].
    cbn -[flash_params drop] in E. rewrite E1, E3 in E. injection E as <- <- <- <-.
    split_and!; [by apply program_bytes | by rewrite program_length | by rewrite program_length | right; done].
  - intros s f off n r result data s' Hs Hin E. destruct Hs as [Hb Hl].
    destruct (params_decode off n []) as (E1 & E2 & _); [lia | lia|]. rewrite app_nil_r in E1, E2.
    cbn -[flash_params] in E. rewrite E1, E2 in E. injection E as <- <- <- <-.
    split_and!; [by apply erase_bytes | by rewrite erase_length | by rewrite erase_length | right; done].
Defined.

(** ** Opening it and writing to it *)

Definition ec_sample : list Z := [255; 255; 7; 255; 255; 255; 9; 9]%Z.

Definition ec_sample_ops : flash_device_ops ec_data := flash_ec_ops 0 (fun _ => true) 8 ec_sample.

Definition ec_sample_handle : ec_data :=
  match ec_open ec_sample None with
  | Done (Some h, _) => h
  | _ => EcData 0 [] [] [] []
  end.

Definition ec_sample_device : flash_device ec_data :=
  let h := ec_sample_handle in
  FlashDevice ec_sample_ops h None None 0 (ec_get_size h) (ec_get_write_size h) (ec_get_erase_size h).

Lemma ec_sample_ok : ec_ok 8 2 (priv_data ec_sample_device).
Proof.
  split.
  - vm_compute. discriminate.
  - split; vm_compute; [repeat constructor; discriminate || done | reflexivity].
  - vm_compute. lia.
  - exists 12%Z. split; [vm_compute; reflexivity | lia].
  - vm_compute. reflexivity.
  - lia.
Qed.

Lemma ec_flash_write_witness :
  exists h, flash_write ec_sample_device 2 [5; 6]%Z = Done (0%Z, set_priv h ec_sample_device) /\
    ec_contents h = [255; 255; 5; 6; 255; 255; 9; 9]%Z.
Proof.
  destruct (ec_flash_write (H := toy_ec_sys) 0 (fun _ => true) 8 2 ec_sample ec_sample_device 2 [5; 6]%Z)
    as (res & h & E & _ & Hr).
  - reflexivity.
  - exact ec_sample_ok.
  - vm_compute. reflexivity.
  - repeat constructor; done.
  - vm_compute. lia.
  - assert (match flash_write ec_sample_device 2 [5; 6]%Z with Done (r, _) => r | _ => 1%Z end = 0%Z) as C
      by (vm_compute; reflexivity).
    change 2%Z with (Z.of_nat 2) in C |- *. rewrite E in C. subst res. exists h. split; [exact E|].
    cbn [Nat.modulo Nat.divmod Nat.eqb andb fst snd Nat.sub length] in Hr. apply written_zero in Hr. rewrite Hr. vm_compute. reflexivity.
Defined.

(** The device the handle was opened on is read in packets of four bytes. *)
Example ec_sample_read :
  match ec_read 0 8 (priv_data ec_sample_device) 1 6 with
  | Done (r, data, _) => (r, data)
  | _ => (1%Z, [])
  end = (0%Z, [255; 7; 255; 255; 255; 9]%Z).
Proof. vm_compute. reflexivity. Qed.

(** A controller that fills the room it is offered overruns the caller's
    buffer when the length is not a whole number of packets. *)
Definition faults {A} (m : outcome A) : bool := match m with Fault => true | _ => false end.

Example ec_read_overruns :
  match ec_open (H := toy_controller true) ec_sample None with
  | Done (Some h, _) => (faults (ec_read (H := toy_controller true) 0 8 h 0 4),
                         faults (ec_read (H := toy_controller true) 0 8 h 1 6))
  | _ => (true, false)
  end = (false, true).
Proof. vm_compute. reflexivity. Qed.
