(* ===== verification/SoundTrigger.v ===== *)
(** * SoundTrigger: the hotword detector, audio/soundtrigger/sound_trigger_hw.c

    Three parties share one device: the client of the HAL, whose calls come
    one at a time, the callback thread of each recognition, and a client that
    streams the sound after the hotword.  What a party does between taking and
    releasing the lock is one step; what it does without the lock is cut at
    each access to the device.  The results of the system calls are inputs of
    the steps. *)

From S2P Require Import Prelude.

Definition EINVAL : Z := 22.
Definition ENOMEM : Z := 12.
Definition EFAULT : Z := 14.
Definition EBUSY : Z := 16.
Definition ENOSYS : Z := 38.

(** ** Data

    Of the structures of system/sound_trigger.h, the fields that are read or
    written; [ph_id] stands for the others.  A callback is a number, and
    [None] is NULL. *)

Record phrase_extra : Type := PhraseExtra {
  ph_id : Z;
  ph_confidence : Z;
  ph_num_levels : Z;
  ph_user : Z;
  ph_level : Z
}.

Record recognition_config : Type := RecognitionConfig {
  capture_requested : bool;
  num_phrases : Z;
  phrases : list phrase_extra
}.

Record recognition_event : Type := RecognitionEvent {
  ev_model : Z;
  ev_num_phrases : Z;
  ev_extras : list phrase_extra;
  ev_capture_available : bool;
  ev_sample_rate : Z
}.

(** What pcm_open returns is never NULL: an open PCM, or a handle that is not
    ready and that may be closed any number of times. *)
Inductive pcm_handle : Type := BadPcm | Pcm (n : nat).

(** struct dragon_sound_trigger_device, without the table of functions. *)
Record device : Type := Device {
  model_handle : Z;
  recognition_callback : option Z;
  recognition_cookie : Z;
  sound_model_callback : Z;
  sound_model_cookie : Z;
  callback_thread : nat;
  send_sock : Z;
  term_sock : Z;
  hotword_model : bool;
  config : option recognition_config;
  pcm : option pcm_handle;
  is_streaming : bool;
  opened : bool
}.

Definition set_model_handle (x : Z) (d : device) : device :=
  Device x (recognition_callback d) (recognition_cookie d) (sound_model_callback d)
    (sound_model_cookie d) (callback_thread d) (send_sock d) (term_sock d) (hotword_model d)
    (config d) (pcm d) (is_streaming d) (opened d).
Definition set_recognition_callback (x : option Z) (d : device) : device :=
  Device (model_handle d) x (recognition_cookie d) (sound_model_callback d)
    (sound_model_cookie d) (callback_thread d) (send_sock d) (term_sock d) (hotword_model d)
    (config d) (pcm d) (is_streaming d) (opened d).
Definition set_recognition_cookie (x : Z) (d : device) : device :=
  Device (model_handle d) (recognition_callback d) x (sound_model_callback d)
    (sound_model_cookie d) (callback_thread d) (send_sock d) (term_sock d) (hotword_model d)
    (config d) (pcm d) (is_streaming d) (opened d).
Definition set_sound_model_callback (x : Z) (d : device) : device :=
  Device (model_handle d) (recognition_callback d) (recognition_cookie d) x
    (sound_model_cookie d) (callback_thread d) (send_sock d) (term_sock d) (hotword_model d)
    (config d) (pcm d) (is_streaming d) (opened d).
Definition set_sound_model_cookie (x : Z) (d : device) : device :=
  Device (model_handle d) (recognition_callback d) (recognition_cookie d)
    (sound_model_callback d) x (callback_thread d) (send_sock d) (term_sock d) (hotword_model d)
    (config d) (pcm d) (is_streaming d) (opened d).
Definition set_callback_thread (x : nat) (d : device) : device :=
  Device (model_handle d) (recognition_callback d) (recognition_cookie d)
    (sound_model_callback d) (sound_model_cookie d) x (send_sock d) (term_sock d)
    (hotword_model d) (config d) (pcm d) (is_streaming d) (opened d).
Definition set_send_sock (x : Z) (d : device) : device :=
  Device (model_handle d) (recognition_callback d) (recognition_cookie d)
    (sound_model_callback d) (sound_model_cookie d) (callback_thread d) x (term_sock d)
    (hotword_model d) (config d) (pcm d) (is_streaming d) (opened d).
Definition set_term_sock (x : Z) (d : device) : device :=
  Device (model_handle d) (recognition_callback d) (recognition_cookie d)
    (sound_model_callback d) (sound_model_cookie d) (callback_thread d) (send_sock d) x
    (hotword_model d) (config d) (pcm d) (is_streaming d) (opened d).
Definition set_hotword_model (x : bool) (d : device) : device :=
  Device (model_handle d) (recognition_callback d) (recognition_cookie d)
    (sound_model_callback d) (sound_model_cookie d) (callback_thread d) (send_sock d)
    (term_sock d) x (config d) (pcm d) (is_streaming d) (opened d).
Definition set_config (x : option recognition_config) (d : device) : device :=
  Device (model_handle d) (recognition_callback d) (recognition_cookie d)
    (sound_model_callback d) (sound_model_cookie d) (callback_thread d) (send_sock d)
    (term_sock d) (hotword_model d) x (pcm d) (is_streaming d) (opened d).
Definition set_pcm (x : option pcm_handle) (d : device) : device :=
  Device (model_handle d) (recognition_callback d) (recognition_cookie d)
    (sound_model_callback d) (sound_model_cookie d) (callback_thread d) (send_sock d)
    (term_sock d) (hotword_model d) (config d) x (is_streaming d) (opened d).
Definition set_is_streaming (x : bool) (d : device) : device :=
  Device (model_handle d) (recognition_callback d) (recognition_cookie d)
    (sound_model_callback d) (sound_model_cookie d) (callback_thread d) (send_sock d)
    (term_sock d) (hotword_model d) (config d) (pcm d) x (opened d).
Definition set_opened (x : bool) (d : device) : device :=
  Device (model_handle d) (recognition_callback d) (recognition_cookie d)
    (sound_model_callback d) (sound_model_cookie d) (callback_thread d) (send_sock d)
    (term_sock d) (hotword_model d) (config d) (pcm d) (is_streaming d) x.

(** The book of what the code holds of the system: the value it gave the
    microphone switch, whether it has the mixer, its sockets, the one each is
    connected to and those with something to read, the PCMs it has opened and
    not closed.  [wrong] tells that it used or closed what it does not hold. *)
Record kernel : Type := Kernel {
  int_mic : Z;
  mixer_open : bool;
  fds : gset Z;
  peer : gmap Z Z;
  readable : gset Z;
  pcms : gset nat;
  next_pcm : nat;
  wrong : bool
}.

Definition set_int_mic (x : Z) (k : kernel) : kernel :=
  Kernel x (mixer_open k) (fds k) (peer k) (readable k) (pcms k) (next_pcm k) (wrong k).
Definition set_mixer_open (x : bool) (k : kernel) : kernel :=
  Kernel (int_mic k) x (fds k) (peer k) (readable k) (pcms k) (next_pcm k) (wrong k).
Definition set_fds (x : gset Z) (k : kernel) : kernel :=
  Kernel (int_mic k) (mixer_open k) x (peer k) (readable k) (pcms k) (next_pcm k) (wrong k).
Definition set_peer (x : gmap Z Z) (k : kernel) : kernel :=
  Kernel (int_mic k) (mixer_open k) (fds k) x (readable k) (pcms k) (next_pcm k) (wrong k).
Definition set_readable (x : gset Z) (k : kernel) : kernel :=
  Kernel (int_mic k) (mixer_open k) (fds k) (peer k) x (pcms k) (next_pcm k) (wrong k).
Definition set_pcms (x : gset nat) (k : kernel) : kernel :=
  Kernel (int_mic k) (mixer_open k) (fds k) (peer k) (readable k) x (next_pcm k) (wrong k).
Definition set_next_pcm (x : nat) (k : kernel) : kernel :=
  Kernel (int_mic k) (mixer_open k) (fds k) (peer k) (readable k) (pcms k) x (wrong k).
Definition set_wrong (x : bool) (k : kernel) : kernel :=
  Kernel (int_mic k) (mixer_open k) (fds k) (peer k) (readable k) (pcms k) (next_pcm k) x.

Definition state : Type := device * kernel.

Definition on_dev (f : device -> device) (s : state) : state := (f (fst s), snd s).
Definition on_ker (f : kernel -> kernel) (s : state) : state := (fst s, f (snd s)).

(** [cbn] reduces updates. *)
#[global] Arguments set_model_handle _ _ /.
#[global] Arguments set_recognition_callback _ _ /.
#[global] Arguments set_recognition_cookie _ _ /.
#[global] Arguments set_sound_model_callback _ _ /.
#[global] Arguments set_sound_model_cookie _ _ /.
#[global] Arguments set_callback_thread _ _ /.
#[global] Arguments set_send_sock _ _ /.
#[global] Arguments set_term_sock _ _ /.
#[global] Arguments set_hotword_model _ _ /.
#[global] Arguments set_config _ _ /.
#[global] Arguments set_pcm _ _ /.
#[global] Arguments set_is_streaming _ _ /.
#[global] Arguments set_opened _ _ /.
#[global] Arguments set_int_mic _ _ /.
#[global] Arguments set_mixer_open _ _ /.
#[global] Arguments set_fds _ _ /.
#[global] Arguments set_peer _ _ /.
#[global] Arguments set_readable _ _ /.
#[global] Arguments set_pcms _ _ /.
#[global] Arguments set_next_pcm _ _ /.
#[global] Arguments set_wrong _ _ /.
#[global] Arguments on_dev _ _ /.
#[global] Arguments on_ker _ _ /.

(** ** System calls *)

Definition mixer_ctl_set_value (val : Z) (k : kernel) : kernel :=
  if mixer_open k then set_int_mic val k else set_wrong true k.

Definition mixer_close (k : kernel) : kernel :=
  if mixer_open k then set_mixer_open false k else set_wrong true k.

Definition close_fd (fd : Z) (k : kernel) : kernel :=
  if decide (fd ∈ fds k)
  then set_readable (readable k ∖ {[fd]}) (set_fds (fds k ∖ {[fd]}) k)
  else set_wrong true k.

Definition socketpair (a b : Z) (k : kernel) : kernel :=
  set_peer (<[a := b]> (<[b := a]> (peer k))) (set_fds ({[a; b]} ∪ fds k) k).

(** Writing to a socket whose other end is closed does nothing. *)
Definition write_fd (fd : Z) (k : kernel) : kernel :=
  if decide (fd ∈ fds k)
  then match peer k !! fd with
       | Some p => if decide (p ∈ fds k) then set_readable ({[p]} ∪ readable k) k else k
       | None => k
       end
  else set_wrong true k.

Definition read_fd (fd : Z) (k : kernel) : kernel := set_readable (readable k ∖ {[fd]}) k.

Definition pcm_open (ready : bool) (k : kernel) : pcm_handle * kernel :=
  if ready then (Pcm (next_pcm k), set_next_pcm (S (next_pcm k)) (set_pcms ({[next_pcm k]} ∪ pcms k) k))
  else (BadPcm, k).

Definition pcm_close (p : option pcm_handle) (k : kernel) : kernel :=
  match p with
  | None => set_wrong true k
  | Some BadPcm => k
  | Some (Pcm n) =>
      if decide (n ∈ pcms k) then set_pcms (pcms k ∖ {[n]}) k else set_wrong true k
  end.

(** if (stdev->pcm) { pcm_close(stdev->pcm); stdev->pcm = NULL; } *)
Definition close_pcm (s : state) : state :=
  match pcm (fst s) with
  | None => s
  | p => on_dev (set_pcm None) (on_ker (pcm_close p) s)
  end.

(** ** Helpers of the device *)

Definition stdev_dsp_set_power (val : Z) (s : state) : state :=
  on_ker (mixer_ctl_set_value val) (on_dev (set_is_streaming false) s).

(** What mixer_open and mixer_get_ctl_by_name find; the return code. *)
Definition stdev_init_mixer (mixer int_mic_sw hotword : bool) (s : state) : Z * state :=
  if negb mixer then ((-1)%Z, s)
  else
    let s := on_ker (set_mixer_open true) s in
    if negb int_mic_sw then ((-1)%Z, on_ker mixer_close s)
    else (0%Z, stdev_dsp_set_power 0 (on_dev (set_hotword_model hotword) s)).

Definition stdev_close_term_sock (s : state) : state :=
  let s := if (0 <=? send_sock (fst s))%Z
           then on_dev (set_send_sock (-1)) (on_ker (close_fd (send_sock (fst s))) s) else s in
  if (0 <=? term_sock (fst s))%Z
  then on_dev (set_term_sock (-1)) (on_ker (close_fd (term_sock (fst s))) s) else s.

Definition stdev_close_mixer (s : state) : state :=
  stdev_close_term_sock (on_ker mixer_close (stdev_dsp_set_power 0 s)).

Section Events.
Context (MAX_PHRASES : nat).

Definition zero_extra : phrase_extra := PhraseExtra 0 0 0 0 0.

Definition first_extra (e : phrase_extra) : phrase_extra := PhraseExtra (ph_id e) 100 1 0 100.

(** The phrases of the configuration are an array of MAX_PHRASES. *)
Definition sound_trigger_event_alloc (alloc : bool) (d : device) : option recognition_event :=
  if negb alloc then None
  else
    let zeros := replicate MAX_PHRASES zero_extra in
    let extras :=
      match config d with
      | None => zeros
      | Some c =>
          let n := Z.to_nat (Z.min (num_phrases c) (Z.of_nat MAX_PHRASES)) in
          take n (phrases c) ++ drop n zeros
      end in
    Some (RecognitionEvent (model_handle d) 1 (alter first_extra 0 extras) true 16000).

(** ** The callback thread

    Where a thread is: before its first lock, in poll, in the client's
    callback, gone. *)
Inductive cb_pc : Type :=
| CbStart
| CbPoll (fd : Z)
| CbNotify (callback cookie : Z) (event : recognition_event)
| CbDone.

(** What the system answers a thread: the sockets of socketpair, whether
    pcm_open gave a PCM that is ready, pcm_start, the descriptor of the PCM;
    then poll: its result, what is in revents; and calloc. *)
Record answers : Type := Answers {
  a_sockets : option (Z * Z);
  a_ready : bool;
  a_start : Z;
  a_poll_fd : Z;
  a_poll : Z;
  a_pcm_event : bool;
  a_alloc : bool
}.

Definition cb_exit (s : state) : state :=
  let s := stdev_close_term_sock (on_dev (set_recognition_callback None) s) in
  match config (fst s) with
  | Some c => if capture_requested c then s else stdev_dsp_set_power 0 s
  | None => s
  end.

(** Up to the loop. *)
Definition cb_start (a : answers) (s : state) : cb_pc * state :=
  match recognition_callback (fst s), a_sockets a with
  | None, _ | _, None => (CbDone, cb_exit s)
  | Some _, Some (x, y) =>
      let s := stdev_close_term_sock (on_ker (socketpair x y) s) in
      let s := stdev_dsp_set_power 1 (on_dev (fun d => set_term_sock y (set_send_sock x d)) s) in
      let '(p, k) := pcm_open (a_ready a) (snd s) in
      let s := (set_pcm (Some p) (fst s), k) in
      if negb (a_ready a) then (CbDone, cb_exit s)
      else if negb (a_start a =? 0)%Z then (CbDone, cb_exit s)
      else if (a_poll_fd a =? -1)%Z then (CbDone, cb_exit s)
      else (CbPoll y, s)
  end.

(** One turn of the loop, after poll returned. *)
Definition cb_turn (fd : Z) (a : answers) (s : state) : cb_pc * state :=
  match recognition_callback (fst s) with
  | None => (CbDone, cb_exit (close_pcm s))
  | Some callback =>
      if (a_poll a <? 0)%Z then (CbDone, cb_exit (close_pcm s))
      else if a_pcm_event a then
        match sound_trigger_event_alloc (a_alloc a) (fst s) with
        | None =>
            (CbDone, cb_exit (on_dev (set_pcm None) (on_ker (pcm_close (pcm (fst s))) s)))
        | Some event =>
            (CbNotify callback (recognition_cookie (fst s)) event, on_dev (set_is_streaming true) s)
        end
      else if decide (fd ∈ readable (snd s)) then (CbDone, cb_exit (close_pcm (on_ker (read_fd fd) s)))
      else (CbPoll fd, s)
  end.

Definition callback_thread_loop (pc : cb_pc) (a : answers) (s : state) : cb_pc * state :=
  match pc with
  | CbStart => cb_start a s
  | CbPoll fd => cb_turn fd a s
  | CbNotify _ _ _ | CbDone => (CbDone, cb_exit s)
  end.
End Events.

(** ** The calls of the HAL *)

(** [args] tells that neither pointer is NULL, [ret] is what
    mixer_ctl_set_array returns. *)
Definition stdev_load_sound_model (args : bool) (ret callback cookie : Z) (s : state) : Z * state :=
  if negb args then ((- EINVAL)%Z, s)
  else if (model_handle (fst s) =? 1)%Z then ((- ENOSYS)%Z, s)
  else if negb (ret =? 0)%Z then (ret, s)
  else
    (0%Z, on_dev (fun d => set_sound_model_cookie cookie (set_sound_model_callback callback
                             (set_model_handle 1 d))) s).

(** Tell the thread to stop: up to the unlock before pthread_join. *)
Definition stop_thread (s : state) : state :=
  let s := on_dev (set_recognition_callback None) s in
  if (0 <=? send_sock (fst s))%Z then on_ker (write_fd (send_sock (fst s))) s else s.

(** The end of a call, at the label exit: the DSP is powered off. *)
Definition power_off (status : Z) (s : state) : Z * state := (status, stdev_dsp_set_power 0 s).

(** [None]: the call goes on with pthread_join. *)
Definition stdev_unload_sound_model (handle : Z) (s : state) : option Z * state :=
  if negb (handle =? 1)%Z then (Some (- EINVAL)%Z, stdev_dsp_set_power 0 s)
  else if (model_handle (fst s) =? 0)%Z then (Some (- ENOSYS)%Z, stdev_dsp_set_power 0 s)
  else
    let s := on_dev (fun d => set_config None (set_model_handle 0 d)) s in
    match recognition_callback (fst s) with
    | Some _ => (None, stop_thread s)
    | None => (Some 0%Z, stdev_dsp_set_power 0 s)
    end.

(** The second component tells that a thread was created: [thread] is its
    identifier. *)
Definition stdev_start_recognition (thread : nat) (handle : Z) (cfg : option recognition_config)
    (alloc : bool) (callback : option Z) (cookie : Z) (s : state) : Z * bool * state :=
  if negb (model_handle (fst s) =? handle)%Z then ((- ENOSYS)%Z, false, s)
  else
    match recognition_callback (fst s) with
    | Some _ => ((- ENOSYS)%Z, false, s)
    | None =>
        let s := on_dev (set_config None) s in
        if match cfg with Some _ => negb alloc | None => false end
        then ((- ENOMEM)%Z, false, s)
        else
          let s := stdev_dsp_set_power 0 (close_pcm (on_dev (set_config cfg) s)) in
          (0%Z, true, on_dev (fun d => set_callback_thread thread (set_recognition_cookie cookie
                                (set_recognition_callback callback d))) s)
    end.

Definition stdev_stop_recognition (handle : Z) (s : state) : option Z * state :=
  if negb (model_handle (fst s) =? handle)%Z then (Some (- ENOSYS)%Z, stdev_dsp_set_power 0 s)
  else
    match recognition_callback (fst s) with
    | None => (Some (- ENOSYS)%Z, stdev_dsp_set_power 0 s)
    | Some _ => (None, stop_thread (on_dev (set_config None) s))
    end.

Definition stdev_close (s : state) : Z * state :=
  if negb (opened (fst s)) then ((- EFAULT)%Z, s)
  else
    let s := stdev_close_mixer s in
    (0%Z, on_dev (fun d => set_opened false (set_term_sock 0 (set_send_sock 0
                             (set_model_handle 0 d)))) s).

(** [name] tells that the name is that of the interface. *)
Definition stdev_open (name mixer int_mic_sw hotword : bool) (s : state) : Z * state :=
  if negb name then ((- EINVAL)%Z, s)
  else if opened (fst s) then ((- EBUSY)%Z, s)
  else
    let '(ret, s) := stdev_init_mixer mixer int_mic_sw hotword s in
    if negb (ret =? 0)%Z then (ret, s)
    else (0%Z, on_dev (fun d => set_opened true (set_send_sock (-1) (set_term_sock (-1) d))) s).

(** ** Streaming *)

Definition sound_trigger_open_for_streaming (s : state) : Z :=
  if negb (opened (fst s)) then (- EFAULT)%Z
  else if negb (is_streaming (fst s)) then (- EBUSY)%Z
  else match pcm (fst s) with None => (- EINVAL)%Z | Some _ => 1%Z end.

(** The loop at read_again: [avail] gives what pcm_mmap_avail returns at each
    try; the number of frames, or what the function returns instead. *)
Fixpoint wait_frames (tries : nat) (avail : nat -> Z) (attempt : nat) : Z + Z :=
  let frames := avail attempt in
  if (frames <? 0)%Z then inr frames
  else if (frames =? 0)%Z then
    match tries with 0 => inr 0%Z | S tries => wait_frames tries avail (S attempt) end
  else inl frames.

(** [begin] is pcm_mmap_begin: from the frames wanted, its code, the frames
    given and their samples.  The result is the return value (as the int it is
    computed in) and the bytes written to the buffer. *)
Definition sound_trigger_read_samples (avail : nat -> Z) (begin : Z -> Z * Z * list Z)
    (audio_handle buffer_len : Z) (s : state) : Z * list Z :=
  if (audio_handle <=? 0)%Z then ((- EINVAL)%Z, [])
  else if negb (opened (fst s)) then ((- EFAULT)%Z, [])
  else if negb (is_streaming (fst s)) then ((- EINVAL)%Z, [])
  else
    match pcm (fst s) with
    | None => ((- EINVAL)%Z, [])
    | Some _ =>
        match wait_frames 10 avail 0 with
        | inr ret => (ret, [])
        | inl frames =>
            let frames := if (buffer_len / 2 <? frames)%Z then s32 (buffer_len / 2) else frames in
            let '(ret, frames, bytes) := begin frames in
            if (ret <? 0)%Z then (ret, [])
            else (s32 (frames * 2), take (Z.to_nat (u64 (frames * 2))) bytes)
        end
    end.
