(* ===== verification/SoundTriggerSteps.v ===== *)
(** * SoundTriggerSteps: the parties of the sound trigger, interleaved

    The state of the device, where each party is, and the actions that move
    one party by one step. *)

From S2P Require Import Prelude SoundTrigger.

Section Steps.
Context (MAX_PHRASES : nat).

(** Where the client of the HAL is: between two calls, in pthread_join of a
    call, or in what stop_recognition does after it. *)
Inductive hal_pc : Type :=
| HalIdle
| HalJoinUnload
| HalJoinStop
| HalStopTest
| HalStopClose
| HalStopClear
| HalStopEnd.

#[export] Instance hal_pc_eq_dec : EqDecision hal_pc.
Proof. solve_decision. Defined.

(** Where the streaming client is in sound_trigger_close_for_streaming. *)
Inductive stream_pc : Type := StreamIdle | StreamClose | StreamClear.

(** [ret] is the code of the last call of each client. *)
Record world : Type := World {
  shared : state;
  hal : hal_pc;
  hal_ret : Z;
  stream : stream_pc;
  stream_ret : Z;
  threads : list cb_pc
}.

Definition set_shared (s : state) (w : world) : world :=
  World s (hal w) (hal_ret w) (stream w) (stream_ret w) (threads w).
Definition set_hal (h : hal_pc) (w : world) : world :=
  World (shared w) h (hal_ret w) (stream w) (stream_ret w) (threads w).
Definition set_hal_ret (r : Z) (w : world) : world :=
  World (shared w) (hal w) r (stream w) (stream_ret w) (threads w).
Definition set_stream (p : stream_pc) (w : world) : world :=
  World (shared w) (hal w) (hal_ret w) p (stream_ret w) (threads w).
Definition set_stream_ret (r : Z) (w : world) : world :=
  World (shared w) (hal w) (hal_ret w) (stream w) r (threads w).
Definition set_threads (l : list cb_pc) (w : world) : world :=
  World (shared w) (hal w) (hal_ret w) (stream w) (stream_ret w) l.

Inductive call : Type :=
| Open (name mixer int_mic_sw hotword : bool)
| Load (args : bool) (ret callback cookie : Z)
| Unload (handle : Z)
| Start (handle : Z) (cfg : option recognition_config) (alloc : bool) (callback : option Z) (cookie : Z)
| Stop (handle : Z)
| Close.

Inductive action : Type :=
| Call (c : call)
| HalNext
| Thread (t : nat) (a : answers) (other : bool)
| StreamOpen
| StreamClosing (handle : Z)
| StreamNext.

Definition returns (r : Z * state) (w : world) : world := set_hal_ret (fst r) (set_shared (snd r) w).

(** A call that may go on with pthread_join. *)
Definition returns_or_joins (join : hal_pc) (r : option Z * state) (w : world) : world :=
  match r with
  | (Some code, s) => returns (code, s) w
  | (None, s) => set_hal join (set_shared s w)
  end.

Definition exec_call (c : call) (w : world) : world :=
  let s := shared w in
  match c with
  | Open name mixer mic hotword => returns (stdev_open name mixer mic hotword s) w
  | Load args ret cb cookie => returns (stdev_load_sound_model args ret cb cookie s) w
  | Unload h => returns_or_joins HalJoinUnload (stdev_unload_sound_model h s) w
  | Start h cfg alloc cb cookie =>
      let '(code, created, s) :=
        stdev_start_recognition (length (threads w)) h cfg alloc cb cookie s in
      let w := returns (code, s) w in
      if created : bool then set_threads (threads w ++ [CbStart]) w else w
  | Stop h => returns_or_joins HalJoinStop (stdev_stop_recognition h s) w
  | Close => returns (stdev_close s) w
  end.

Definition is_done (pc : option cb_pc) : bool := match pc with Some CbDone => true | _ => false end.

(** pthread_join returns when the thread has ended. *)
Definition joined (w : world) : bool := is_done (threads w !! callback_thread (fst (shared w))).

Definition close_now (s : state) : state := on_ker (pcm_close (pcm (fst s))) s.

Definition is_some {A} (o : option A) : bool := match o with Some _ => true | None => false end.

(** The client of the HAL, in the middle of a call. *)
Definition hal_next (w : world) : option world :=
  let s := shared w in
  match hal w with
  | HalIdle => None
  | HalJoinUnload =>
      if joined w then Some (set_hal HalIdle (returns (power_off 0 s) w)) else None
  | HalJoinStop => if joined w then Some (set_hal HalStopTest w) else None
  | HalStopTest => Some (set_hal (if is_some (pcm (fst s)) then HalStopClose else HalStopEnd) w)
  | HalStopClose => Some (set_hal HalStopClear (set_shared (close_now s) w))
  | HalStopClear => Some (set_hal HalStopEnd (set_shared (on_dev (set_pcm None) s) w))
  | HalStopEnd => Some (set_hal HalIdle (returns (power_off 0 s) w))
  end.

(** sound_trigger_close_for_streaming, which does not take the lock. *)
Definition stream_start (handle : Z) (w : world) : world :=
  if (handle <=? 0)%Z then set_stream_ret (- EINVAL) w
  else if is_some (pcm (fst (shared w))) then set_stream StreamClose w
  else set_stream_ret 0 w.

Definition stream_next (w : world) : option world :=
  let s := shared w in
  match stream w with
  | StreamIdle => None
  | StreamClose => Some (set_stream StreamClear (set_shared (close_now s) w))
  | StreamClear => Some (set_stream_ret 0 (set_stream StreamIdle (set_shared (on_dev (set_pcm None) s) w)))
  end.

(** The sockets that socketpair gives are new. *)
Definition answers_ok (a : answers) (k : kernel) : bool :=
  match a_sockets a with
  | None => true
  | Some (x, y) => (0 <=? x)%Z && (0 <=? y)%Z && negb (x =? y)%Z &&
      bool_decide (x ∉ fds k) && bool_decide (y ∉ fds k)
  end.

(** A thread moves when it has not ended; poll returns on an error, an event
    of the PCM, a message, or ([other]) something that is ignored. *)
Definition enabled (pc : cb_pc) (a : answers) (other : bool) (k : kernel) : bool :=
  match pc with
  | CbStart => answers_ok a k
  | CbPoll fd => (a_poll a <? 0)%Z || a_pcm_event a || bool_decide (fd ∈ readable k) || other
  | CbNotify _ _ _ => true
  | CbDone => false
  end.

Definition exec (a : action) (w : world) : option world :=
  match a with
  | Call c => match hal w with HalIdle => Some (exec_call c w) | _ => None end
  | HalNext => hal_next w
  | Thread t a other =>
      pc ← threads w !! t;
      if enabled pc a other (snd (shared w)) then
        let '(pc', s) := callback_thread_loop MAX_PHRASES pc a (shared w) in
        Some (set_threads (<[t := pc']> (threads w)) (set_shared s w))
      else None
  | StreamOpen => Some (set_stream_ret (sound_trigger_open_for_streaming (shared w)) w)
  | StreamClosing h =>
      match stream w with StreamIdle => Some (stream_start h w) | _ => None end
  | StreamNext => stream_next w
  end.

Definition exec_all (l : list action) (w : world) : option world :=
  fold_left (fun o a => w ← o; exec a w) l (Some w).

Definition init : world :=
  let d := Device 0 None 0 0 0 0 0 0 false None None false false in
  let k := Kernel 0 false ∅ ∅ ∅ ∅ 0 false in
  World (d, k) HalIdle 0 StreamIdle 0 [].

(** ** The discipline of the clients

    The HAL is called on an open device, with a callback; it is closed when
    no recognition is going on; sound_trigger_close_for_streaming is not called
    while a recognition waits for the hotword and does not overlap any other
    step. *)

Definition allowed_call (c : call) (w : world) : Prop :=
  match c with
  | Open _ _ _ _ => True
  | Start _ _ _ cb _ => opened (fst (shared w)) = true /\ cb <> None
  | Close => recognition_callback (fst (shared w)) = None
  | _ => opened (fst (shared w)) = true
  end.

Definition allowed (a : action) (w : world) : Prop :=
  match a with
  | Call c => allowed_call c w /\ stream w = StreamIdle
  | StreamClosing _ =>
      (is_streaming (fst (shared w)) = true \/ recognition_callback (fst (shared w)) = None) /\
      match hal w with HalStopTest | HalStopClose | HalStopClear => False | _ => True end
  | StreamNext => True
  | _ => stream w = StreamIdle
  end.

Inductive disciplined : world -> Prop :=
| disc_init : disciplined init
| disc_step w a w' : disciplined w -> allowed a w -> exec a w = Some w' -> disciplined w'.
End Steps.

#[global] Arguments set_shared _ _ /.
#[global] Arguments set_hal _ _ /.
#[global] Arguments set_hal_ret _ _ /.
#[global] Arguments set_stream _ _ /.
#[global] Arguments set_stream_ret _ _ /.
#[global] Arguments set_threads _ _ /.
#[global] Arguments returns _ _ /.
