(* ===== verification/SoundTriggerSafety.v ===== *)
(** * SoundTriggerSafety: what holds of every interleaving

    For clients that keep the discipline: nothing is closed twice or used
    after it was closed, at most one recognition runs, and the thread that
    stop_recognition and unload_sound_model wait for always ends. *)

From S2P Require Import Prelude SoundTrigger SoundTriggerSteps.

Section Safety.
Context (MAX_PHRASES : nat).

Abbreviation disciplined := (disciplined MAX_PHRASES).
Abbreviation exec := (exec MAX_PHRASES).

(** The thread of the recognition. *)
Definition current (w : world) : cb_pc :=
  default CbDone (threads w !! callback_thread (fst (shared w))).

Definition joining (h : hal_pc) : bool := match h with HalJoinUnload | HalJoinStop => true | _ => false end.

Definition pcm_set (p : option pcm_handle) : gset nat :=
  match p with Some (Pcm n) => {[n]} | _ => ∅ end.

(** The sockets that the device has when its thread is at [pc]. *)
Definition sockets (pc : cb_pc) (d : device) (k : kernel) : Prop :=
  let pair y := exists x, send_sock d = x /\ term_sock d = y /\ (0 <= x)%Z /\ (0 <= y)%Z /\ x <> y /\
                  fds k = {[x; y]} /\ peer k !! x = Some y in
  match pc with
  | CbStart | CbDone => send_sock d = (-1)%Z /\ term_sock d = (-1)%Z /\ fds k = ∅
  | CbPoll fd => pair fd
  | CbNotify _ _ _ => exists y, pair y
  end.

(** The state of the device alone, its thread at [pc]. *)
Record device_ok (pc : cb_pc) (s : state) : Prop := {
  ok_wrong : wrong (snd s) = false;
  ok_mixer : mixer_open (snd s) = opened (fst s);
  ok_sockets : if opened (fst s) then sockets pc (fst s) (snd s) else fds (snd s) = ∅;
  ok_readable : readable (snd s) ⊆ fds (snd s)
}.

(** Which PCMs are open, when [closing] says that the one of the device was
    just closed. *)
Definition pcm_ok (closing : bool) (s : state) : Prop :=
  pcms (snd s) = if closing then ∅ else pcm_set (pcm (fst s)).

(** The PCM of a thread: none before it starts, one while it waits for the
    hotword. *)
Definition waits_ok (pc : cb_pc) (d : device) : Prop :=
  match pc with
  | CbStart => pcm d = None
  | CbPoll _ => recognition_callback d <> None -> pcm d <> None /\ is_streaming d = false
  | _ => True
  end.

Definition closing (w : world) : bool :=
  match hal w, stream w with HalStopClear, _ | _, StreamClear => true | _, _ => false end.

Record inv (w : world) : Prop := {
  i_device : device_ok (current w) (shared w);
  i_pcm : pcm_ok (closing w) (shared w);
  i_done : forall t pc, threads w !! t = Some pc -> pc = CbDone \/ t = callback_thread (fst (shared w));
  i_running : current w <> CbDone -> opened (fst (shared w)) = true /\
    (hal w = HalIdle /\ recognition_callback (fst (shared w)) <> None \/ joining (hal w) = true);
  i_quiet : current w = CbDone -> recognition_callback (fst (shared w)) = None;
  i_call : hal w <> HalIdle -> opened (fst (shared w)) = true /\
    recognition_callback (fst (shared w)) = None /\
    is_Some (threads w !! callback_thread (fst (shared w)));
  i_join : forall fd, joining (hal w) = true -> current w = CbPoll fd -> fd ∈ readable (snd (shared w));
  i_wait : waits_ok (current w) (fst (shared w));
  i_close : hal w = HalStopClose \/ stream w = StreamClose -> pcm (fst (shared w)) <> None;
  i_end : hal w = HalStopEnd -> pcm (fst (shared w)) = None;
  i_stream : stream w <> StreamIdle ->
    (is_streaming (fst (shared w)) = true \/ recognition_callback (fst (shared w)) = None) /\
    match hal w with HalStopTest | HalStopClose | HalStopClear => False | _ => True end
}.

(** ** Steps of the device *)

Lemma close_held fd k :
  fd ∈ fds k -> close_fd fd k = set_readable (readable k ∖ {[fd]}) (set_fds (fds k ∖ {[fd]}) k).
Proof. intros Hin. unfold close_fd. by rewrite decide_True. Qed.

Lemma close_sockets pc d k :
  wrong k = false -> sockets pc d k -> readable k ⊆ fds k ->
  stdev_close_term_sock (d, k) =
  (set_term_sock (-1) (set_send_sock (-1) d), set_readable ∅ (set_fds ∅ k)).
Proof.
  intros Hw Hs Hr.
  assert (send_sock d = (-1)%Z /\ term_sock d = (-1)%Z /\ fds k = ∅ \/
          exists x y, send_sock d = x /\ term_sock d = y /\ (0 <= x)%Z /\ (0 <= y)%Z /\ x <> y /\
            fds k = {[x; y]}) as [(Ex & Ey & Ef)|(x & y & Ex & Ey & Hx & Hy & Hne & Ef)].
  { destruct pc; cbn in Hs; [left | right | right | left]; naive_solver. }
  - destruct d, k; cbn in *; subst. unfold stdev_close_term_sock. cbn.
    assert (readable = ∅) as -> by set_solver. done.
  - clear Hs. unfold stdev_close_term_sock. destruct d, k; cbn in *; subst.
    rewrite (proj2 (Z.leb_le _ _) Hx), close_held by (cbn; set_solver). cbn.
    rewrite (proj2 (Z.leb_le _ _) Hy). cbn. rewrite close_held by (cbn; set_solver). cbn.
    f_equal. f_equal; set_solver.
Qed.

(** The exit of a thread powers the DSP off when no capture was asked for. *)
Definition powers_off (d : device) : bool :=
  match config d with Some c => negb (capture_requested c) | None => false end.

Lemma cb_exit_eq pc d k :
  device_ok pc (d, k) -> opened d = true ->
  cb_exit (d, k) =
  (let d' := set_term_sock (-1) (set_send_sock (-1) (set_recognition_callback None d)) in
   if powers_off d then set_is_streaming false d' else d',
   let k' := set_readable ∅ (set_fds ∅ k) in if powers_off d then set_int_mic 0 k' else k').
Proof.
  intros [Hw Hm Hs Hr] Ho. cbn in *. rewrite Ho in Hs, Hm. unfold cb_exit, on_dev. cbn.
  rewrite (close_sockets pc); [|done | destruct d; exact Hs | done].
  unfold powers_off. destruct d, k; cbn in *. subst. destruct config as [c|]; [|done]. cbn.
  by destruct (capture_requested c).
Qed.
(** What a thread does not change. *)
Definition keeps (s s' : state) : Prop :=
  opened (fst s') = opened (fst s) /\ callback_thread (fst s') = callback_thread (fst s).

Lemma cb_exit_ok pc s :
  device_ok pc s -> opened (fst s) = true -> pcm_ok false s ->
  device_ok CbDone (cb_exit s) /\ pcm_ok false (cb_exit s) /\ keeps s (cb_exit s) /\
  recognition_callback (fst (cb_exit s)) = None.
Proof.
  destruct s as [d k]. intros Hok Ho Hp. rewrite (cb_exit_eq pc) by done. destruct Hok as [Hw Hm _ _].
  unfold pcm_ok, keeps in *. cbn in *. destruct (powers_off d); cbn; split_and!; try done.
  all: split; cbn; try done; by rewrite Ho.
Qed.

Lemma close_pcm_ok pc s :
  device_ok pc s -> pcm_ok false s ->
  close_pcm s = (set_pcm None (fst s), set_pcms ∅ (snd s)).
Proof.
  destruct s as [d k]. intros [Hw _ _ _] Hp. unfold pcm_ok, close_pcm in *. cbn in *.
  destruct d, k; cbn in *; subst. destruct pcm as [[|n]|]; cbn; [done | | done].
  rewrite decide_True by (cbn; set_solver). cbn. do 2 f_equal. set_solver.
Qed.

Lemma close_pcm_keeps pc s :
  device_ok pc s -> pcm_ok false s ->
  device_ok pc (close_pcm s) /\ pcm_ok false (close_pcm s) /\ keeps s (close_pcm s) /\
  pcm (fst (close_pcm s)) = None /\
  recognition_callback (fst (close_pcm s)) = recognition_callback (fst s).
Proof.
  intros Hok Hp. rewrite (close_pcm_ok pc) by done. destruct s as [d k], Hok as [Hw Hm Hs Hr].
  split_and!; try done.
Qed.

(** A turn of a thread. *)
Definition thread_step (pc : cb_pc) (s : state) (r : cb_pc * state) : Prop :=
  device_ok (fst r) (snd r) /\ pcm_ok false (snd r) /\ keeps s (snd r) /\
  waits_ok (fst r) (fst (snd r)) /\
  (fst r = CbDone /\ recognition_callback (fst (snd r)) = None \/
   fst r <> CbDone /\ recognition_callback (fst (snd r)) = recognition_callback (fst s) /\
   recognition_callback (fst s) <> None).

Lemma thread_exits pc0 pc s0 s :
  device_ok pc s -> opened (fst s) = true -> pcm_ok false s -> keeps s0 s ->
  thread_step pc0 s0 (CbDone, cb_exit s).
Proof.
  intros Hok Ho Hp [K1 K2]. destruct (cb_exit_ok pc s Hok Ho Hp) as (H1 & H2 & [H3 H4] & H5).
  unfold thread_step, keeps. cbn. split_and!; [done | done | congruence | congruence | done | by left].
Qed.

Lemma answers_fresh x y a k :
  a_sockets a = Some (x, y) -> answers_ok a k = true ->
  (0 <= x)%Z /\ (0 <= y)%Z /\ x <> y /\ x ∉ fds k /\ y ∉ fds k.
Proof.
  unfold answers_ok. intros -> H. rewrite !andb_true_iff, !bool_decide_eq_true, negb_true_iff in H.
  destruct H as ((((?%Z.leb_le & ?%Z.leb_le) & ?%Z.eqb_neq) & ?) & ?). done.
Qed.

Lemma close_none s :
  send_sock (fst s) = (-1)%Z -> term_sock (fst s) = (-1)%Z -> stdev_close_term_sock s = s.
Proof. intros Ex Ey. unfold stdev_close_term_sock. rewrite Ex. cbn. by rewrite Ey. Qed.

Lemma pcm_open_spec r k p k' :
  pcm_open r k = (p, k') -> pcms k = ∅ ->
  exists n, k' = set_next_pcm n (set_pcms (pcm_set (Some p)) k).
Proof.
  intros E Hk. unfold pcm_open in E. destruct r; injection E as <- <-.
  - eexists. cbn. by rewrite Hk, union_empty_r_L.
  - exists (next_pcm k). destruct k; cbn in *. by subst.
Qed.

Lemma cb_start_ok a s :
  device_ok CbStart s -> opened (fst s) = true -> pcm_ok false s -> pcm (fst s) = None ->
  answers_ok a (snd s) = true -> thread_step CbStart s (cb_start a s).
Proof.
  intros Hok Ho Hp Hnone Ha. unfold cb_start.
  destruct (recognition_callback (fst s)) as [cb|] eqn:Ecb; [|by apply (thread_exits _ CbStart)].
  destruct (a_sockets a) as [[x y]|] eqn:Es; [|by apply (thread_exits _ CbStart)].
  destruct (answers_fresh x y a (snd s) Es Ha) as (Hx & Hy & Hne & _ & _). destruct s as [d k].
  destruct Hok as [Hw Hm Hs Hr]. cbn in Ecb, Ho, Hnone, Hw, Hm, Hs, Hr. rewrite Ho in Hs.
  destruct Hs as (Ex & Ey & Ef). rewrite close_none by done. cbn [on_ker on_dev fst snd].
  assert (pcms k = ∅) as Hk by (unfold pcm_ok in Hp; cbn in Hp; by rewrite Hp, Hnone).
  set (d' := set_term_sock y (set_send_sock x d)).
  unfold stdev_dsp_set_power, mixer_ctl_set_value, socketpair. cbn.
  replace (mixer_open k) with true by congruence. cbn.
  destruct (pcm_open (a_ready a) _) as [p k'] eqn:Ep.
  assert (device_ok (CbPoll y) (set_pcm (Some p) (set_is_streaming false d'), k') /\
          pcm_ok false (set_pcm (Some p) (set_is_streaming false d'), k')) as [Hok' Hp'].
  { destruct (pcm_open_spec _ _ _ _ Ep Hk) as [n ->].
    split; [split; cbn; rewrite ?Ho; try done|done].
    - exists x. split_and!; try done; [rewrite Ef; clear; set_solver | apply lookup_insert_eq].
    - by apply union_subseteq_r'. }
  assert (thread_step CbStart (d, k) (CbDone, cb_exit (set_pcm (Some p) (set_is_streaming false d'), k')))
    as Hexit by (by apply (thread_exits _ (CbPoll y))).
  cbn [fst snd]. destruct (negb (a_ready a)); [exact Hexit|]. destruct (negb _); [exact Hexit|].
  destruct (_ =? -1)%Z; [exact Hexit|].
  unfold thread_step. cbn. split_and!; [done | done | done | done|]. right. by rewrite Ecb.
Qed.

Lemma read_ok pc fd s :
  device_ok pc s -> device_ok pc (on_ker (read_fd fd) s).
Proof.
  destruct s as [d k]. intros [Hw Hm Hs Hr]. split; cbn in *; try done.
  transitivity (readable k); [apply subseteq_difference_l; reflexivity | done].
Qed.

Lemma thread_closes pc0 pc s0 s :
  device_ok pc s -> opened (fst s) = true -> pcm_ok false s -> keeps s0 s ->
  thread_step pc0 s0 (CbDone, cb_exit (close_pcm s)).
Proof.
  intros Hok Ho Hp [K1 K2]. destruct (close_pcm_keeps pc s Hok Hp) as (H1 & H2 & [K3 K4] & _ & _).
  apply (thread_exits _ pc); [done | congruence | done | split; congruence].
Qed.

Lemma cb_turn_ok fd a s :
  device_ok (CbPoll fd) s -> opened (fst s) = true -> pcm_ok false s ->
  waits_ok (CbPoll fd) (fst s) ->
  thread_step (CbPoll fd) s (cb_turn MAX_PHRASES fd a s).
Proof.
  intros Hok Ho Hp Hopen. unfold cb_turn.
  assert (keeps s s) as K by done.
  destruct (recognition_callback (fst s)) as [cb|] eqn:Ecb; [|by apply (thread_closes _ (CbPoll fd))].
  destruct (a_poll a <? 0)%Z; [by apply (thread_closes _ (CbPoll fd))|].
  destruct (a_pcm_event a).
  - unfold sound_trigger_event_alloc. destruct (a_alloc a); cbn [negb].
    + unfold thread_step. cbn [fst snd]. split_and!; [|done|done|done|].
      * destruct Hok as [Hw Hm Hs Hr]. split; try done. cbn in *. rewrite Ho in *. by exists fd.
      * right. cbn. by rewrite Ecb.
    + assert (pcm (fst s) <> None) as Hpcm by (apply Hopen; by rewrite Ecb). pose proof (thread_closes (CbPoll fd) (CbPoll fd) s s Hok Ho Hp K) as H.
      unfold close_pcm in H. by destruct (pcm (fst s)).
  - destruct (decide _); [by apply (thread_closes _ (CbPoll fd)), K; [apply read_ok | | ]|].
    unfold thread_step. cbn. split_and!; [done | done | done | done|]. right. by rewrite Ecb.
Qed.

Lemma callback_thread_ok pc a other s :
  device_ok pc s -> opened (fst s) = true -> pcm_ok false s -> waits_ok pc (fst s) ->
  enabled pc a other (snd s) = true -> thread_step pc s (callback_thread_loop MAX_PHRASES pc a s).
Proof.
  intros Hok Ho Hp Hw He. destruct pc as [|fd|cb ck ev|]; cbn [callback_thread_loop].
  - by apply cb_start_ok.
  - by apply cb_turn_ok.
  - by apply (thread_exits _ (CbNotify cb ck ev)).
  - done.
Qed.

(** ** Steps of the world *)

Lemma current_done w : hal w = HalIdle -> recognition_callback (fst (shared w)) = None ->
  inv w -> current w = CbDone.
Proof.
  intros Hh Hc I. destruct (current w) eqn:E; [| | |done]; exfalso;
    (destruct (i_running _ I) as [_ [[_ H]|H]]; [by rewrite E | done | by rewrite Hh in H]).
Qed.

Lemma inv_thread w t a other w' :
  inv w -> stream w = StreamIdle -> exec (Thread t a other) w = Some w' -> inv w'.
Proof.
  intros I Hs E. cbn in E. destruct (threads w !! t) as [pc|] eqn:Et; [|done]. cbn in E.
  destruct (enabled pc a other _) eqn:He; [|done].
  destruct (callback_thread_loop MAX_PHRASES pc a (shared w)) as [pc' s'] eqn:El.
  assert (w' = set_threads (<[t := pc']> (threads w)) (set_shared s' w)) as -> by (by injection E). clear E.
  assert (pc <> CbDone) as Hpc by (by intros ->).
  destruct (i_done _ I t pc Et) as [?| Ht]; [done|].
  assert (current w = pc) as Hcur by (unfold current; by rewrite <- Ht, Et).
  destruct (i_running _ I) as [Ho Hh]; [by rewrite Hcur|].
  assert (closing w = false) as Hcl.
  { unfold closing. rewrite Hs. destruct Hh as [[-> _]|H]; [done | by destruct (hal w)]. }
  pose proof (i_device _ I) as Hok. pose proof (i_wait _ I) as Hw. pose proof (i_pcm _ I) as Hp.
  rewrite Hcur in Hok, Hw. rewrite Hcl in Hp.
  pose proof (callback_thread_ok pc a other (shared w) Hok Ho Hp Hw He) as (H1 & H2 & [K1 K2] & H3 & H4).
  rewrite El in *. cbn [fst snd] in *.
  assert (current (set_threads (<[t := pc']> (threads w)) (set_shared s' w)) = pc') as Hcur'.
  { unfold current. cbn. rewrite K2, <- Ht, list_lookup_insert_eq; [done|].
    apply lookup_lt_is_Some_1. by rewrite Et. }
  split; rewrite ?Hcur'; cbn [shared hal stream threads set_threads set_shared].
  - done.
  - change (closing _) with (closing w). by rewrite Hcl.
  - intros t' q Hq. rewrite K2. destruct (decide (t' = t)) as [->|Hne]; [by right|].
    rewrite list_lookup_insert_ne in Hq by done. exact (i_done _ I _ _ Hq).
  - intros Hne. rewrite K1. split; [done|]. destruct H4 as [[? _]|(_ & -> & _)]; [done|]. done.
  - intros ->. by destruct H4 as [[_ ?]|[? _]].
  - intros Hne. destruct (i_call _ I Hne) as (_ & Hc & _). rewrite K1, K2. split; [done|].
    destruct H4 as [[_ ?]|(_ & _ & ?)]; [|done]. split; [done|].
    rewrite <- Ht. rewrite list_lookup_insert_eq; [done|]. apply lookup_lt_is_Some_1. by rewrite Et.
  - intros fd Hj ->. destruct (i_call _ I) as (_ & Hc & _); [by intros E; rewrite E in Hj|].
    by destruct H4 as [[? _]|(_ & _ & ?)].
  - done.
  - rewrite Hs. intros [E|E]; [|done]. rewrite E in Hh. by destruct Hh as [[? _]|?].
  - intros E. rewrite E in Hh. by destruct Hh as [[? _]|?].
  - rewrite Hs. done.
Qed.

(** A call that leaves the threads as they are. *)
Lemma inv_returns w s' r :
  inv w -> hal w = HalIdle -> stream w = StreamIdle ->
  device_ok (current w) s' -> pcm_ok false s' ->
  callback_thread (fst s') = callback_thread (fst (shared w)) ->
  opened (fst s') = opened (fst (shared w)) \/ current w = CbDone ->
  recognition_callback (fst s') = recognition_callback (fst (shared w)) ->
  waits_ok (current w) (fst s') -> inv (returns (r, s') w).
Proof.
  intros I Hh Hs Hok Hp Ht Ho Hc Hw.
  assert (current (returns (r, s') w) = current w) as Hcur by (unfold current; cbn; by rewrite Ht).
  split; rewrite ?Hcur; cbn [shared hal stream threads set_hal_ret set_shared returns fst snd];
    rewrite ?Hh, ?Hs; try done.
  - rewrite Ht. apply I.
  - rewrite Hc. intros Hne. destruct (i_running _ I Hne) as [Ho1 Hr]. rewrite Hh in Hr.
    destruct Ho as [->|?]; [|done]. done.
  - rewrite Hc. apply I.
  - by intros [?|?].
Qed.

Lemma closing_idle w : hal w = HalIdle -> stream w = StreamIdle -> closing w = false.
Proof. intros Hh Hs. unfold closing. by rewrite Hh, Hs. Qed.

(** Powering the DSP off, and other updates of fields that no thread needs. *)
Lemma power_off_ok pc s :
  device_ok pc s -> opened (fst s) = true -> device_ok pc (stdev_dsp_set_power 0 s).
Proof.
  destruct s as [d k]. intros [Hw Hm Hs Hr] Ho. unfold stdev_dsp_set_power, mixer_ctl_set_value.
  cbn in *. replace (mixer_open k) with true by congruence. rewrite Ho in Hs.
  split; cbn; try done; first [congruence | by rewrite Ho].
Qed.

Lemma power_off_same s : opened (fst s) = true -> mixer_open (snd s) = true ->
  stdev_dsp_set_power 0 s = (set_is_streaming false (fst s), set_int_mic 0 (snd s)).
Proof. intros Ho Hm. unfold stdev_dsp_set_power, mixer_ctl_set_value. cbn. by rewrite Hm. Qed.

Lemma waits_power pc d : waits_ok pc d -> waits_ok pc (set_is_streaming false d).
Proof. destruct pc; cbn; [done| |done|done]. intros H Hc. destruct (H Hc). done. Qed.

(** The end of a call that powers the DSP off. *)
Lemma inv_power_off w s' r :
  inv w -> hal w = HalIdle -> stream w = StreamIdle -> opened (fst s') = true ->
  device_ok (current w) s' -> pcm_ok false s' ->
  callback_thread (fst s') = callback_thread (fst (shared w)) ->
  opened (fst s') = opened (fst (shared w)) ->
  recognition_callback (fst s') = recognition_callback (fst (shared w)) ->
  waits_ok (current w) (fst s') -> inv (returns (r, stdev_dsp_set_power 0 s') w).
Proof.
  intros I Hh Hs Ho1 Hok Hp Ht Ho Hc Hw. pose proof (power_off_ok _ _ Hok Ho1) as Hok'.
  destruct Hok as [_ Hm _ _]. rewrite power_off_same in * by congruence.
  apply inv_returns; try done; [by left|]. by apply waits_power.
Qed.

(** The message to stop: what the thread polls has something to read. *)
Lemma stop_writes pc d k :
  sockets pc d k -> readable k ⊆ fds k -> pc <> CbDone -> exists R,
    (if (0 <=? send_sock d)%Z then write_fd (send_sock d) k else k) = set_readable R k /\
    R ⊆ fds k /\ forall fd, pc = CbPoll fd -> fd ∈ R.
Proof.
  intros Hs Hr Hpc. destruct k as [mic mo f pe r ps np wr]. cbn in *.
  destruct pc as [|fd|cb ck ev|]; [| | |done]; cbn in Hs.
  { destruct Hs as (-> & _ & _). by exists r. }
  2: destruct Hs as (fd & Hs).
  all: destruct Hs as (x & -> & Ey & Hx & Hy & Hne & -> & Hp); rewrite (proj2 (Z.leb_le _ _) Hx);
    unfold write_fd; cbn; rewrite decide_True by (clear; set_solver); rewrite Hp;
    rewrite decide_True by (clear; set_solver); exists ({[fd]} ∪ r); split; [done|];
    (split; [apply union_least; [clear; set_solver | done]|]).
  - intros fd' [= <-]. clear; set_solver.
  - done.
Qed.

Section Calls.
Variables (w : world).
Hypotheses (I : inv w) (Hh : hal w = HalIdle) (Hs : stream w = StreamIdle).

Abbreviation s := (shared w).

Lemma call_pcm : pcm_ok false s.
Proof using I Hh Hs. pose proof (i_pcm _ I) as H. by rewrite closing_idle in H. Qed.

(** Nothing happens to the shared state but its answer. *)
Lemma inv_unchanged r : inv (returns (r, s) w).
Proof using I Hh Hs.
  apply inv_returns; try done; [apply I | apply call_pcm | by left | apply I].
Qed.

Lemma inv_refused r : opened (fst s) = true -> inv (returns (r, stdev_dsp_set_power 0 s) w).
Proof using I Hh Hs.
  intros Ho. apply inv_power_off; try done; [apply I | apply call_pcm | apply I].
Qed.

Lemma inv_open name mixer mic hotword : inv (exec_call (Open name mixer mic hotword) w).
Proof using I Hh Hs.
  cbn [exec_call]. unfold stdev_open. destruct name; cbn [negb]; [|apply inv_unchanged].
  destruct (opened (fst s)) eqn:Ho; [apply inv_unchanged|].
  assert (current w = CbDone) as Hcur.
  { destruct (current w) eqn:E; [| | |done]; (destruct (i_running _ I) as [H _]; [by rewrite E|]; congruence). }
  pose proof (i_device _ I) as [Hw Hm Hk Hr]. rewrite Hcur, Ho in *. pose proof call_pcm as Hp.
  unfold stdev_init_mixer. destruct mixer; cbn [negb]; [|apply inv_unchanged].
  destruct s as [d k] eqn:Es. cbn in Hw, Hm, Hk, Hr, Ho. destruct mic; cbn [negb].
  - apply inv_returns; rewrite ?Es, ?Hcur; try done. by right.
  - change (negb (-1 =? 0)%Z) with true. cbv iota.
    apply inv_returns; rewrite ?Es, ?Hcur; try done; [|by left]. split; cbn; try done; by rewrite ?Ho.
Qed.

Lemma inv_load args ret cb ck : inv (exec_call (Load args ret cb ck) w).
Proof using I Hh Hs.
  cbn [exec_call]. unfold stdev_load_sound_model. destruct args; cbn [negb]; [|apply inv_unchanged].
  destruct (_ =? 1)%Z; [apply inv_unchanged|]. destruct (negb _); [apply inv_unchanged|].
  pose proof (i_device _ I) as [Hw Hm Hk Hr]. pose proof call_pcm as Hp. pose proof (i_wait _ I) as Hwt.
  apply inv_returns; try done. by left.
Qed.

Lemma inv_close : recognition_callback (fst s) = None -> inv (exec_call Close w).
Proof using I Hh Hs.
  intros Hc. pose proof (current_done _ Hh Hc I) as Hcur. cbn [exec_call]. unfold stdev_close.
  destruct (opened (fst s)) eqn:Ho; cbn [negb]; [|apply inv_unchanged].
  pose proof (i_device _ I) as [Hw Hm Hk Hr]. rewrite Hcur, Ho in *. pose proof call_pcm as Hp.
  unfold stdev_close_mixer. rewrite power_off_same by congruence. destruct Hk as (Ex & Ey & Ef).
  unfold mixer_close. cbn. rewrite Hm, close_none by done.
  apply inv_returns; rewrite ?Hcur; try done. by right.
Qed.

(** The thread is told to stop: it is there, and what it polls has a message. *)
Lemma inv_stop_thread (f : device -> device) join :
  recognition_callback (fst s) <> None -> joining join = true ->
  (forall d, f d = set_config None d \/ f d = set_config None (set_model_handle 0 d)) ->
  inv (set_hal join (set_shared (stop_thread (on_dev f s)) w)).
Proof using I Hh Hs.
  intros Hc Hj Hf. assert (current w <> CbDone) as Hcur by (intros E; by apply (i_quiet _ I) in E).
  destruct (i_running _ I Hcur) as [Ho _]. pose proof (i_device _ I) as [Hw Hm Hk Hr].
  pose proof call_pcm as Hp. pose proof (i_wait _ I) as Hwt. rewrite Ho in Hk.
  destruct (stop_writes _ _ _ Hk Hr Hcur) as (R & E & HR & Hfd).
  assert (stop_thread (on_dev f s) = (set_recognition_callback None (f (fst s)), set_readable R (snd s))) as ->.
  { unfold stop_thread. rewrite <- E. destruct (Hf (fst s)) as [Ef|Ef]; cbn; rewrite !Ef; cbn; by destruct (_ <=? _)%Z. }
  assert (callback_thread (f (fst s)) = callback_thread (fst s) /\ opened (f (fst s)) = opened (fst s) /\
          send_sock (f (fst s)) = send_sock (fst s) /\ term_sock (f (fst s)) = term_sock (fst s) /\
          pcm (f (fst s)) = pcm (fst s)) as (E1 & E2 & E3 & E4 & E5) by (by destruct (Hf (fst s)) as [-> | ->]).
  set (w' := set_hal _ _). assert (current w' = current w) as Hcur' by (unfold current; cbn; by rewrite E1).
  assert (hal w' = join /\ stream w' = StreamIdle) as [Hh' Hs'] by done.
  split; rewrite ?Hcur', ?Hh', ?Hs'.
  - split; cbn; [done | by rewrite E2 | | done]. rewrite E2, Ho. unfold sockets in *. cbn. by rewrite E3, E4.
  - unfold closing. rewrite Hh', Hs'. unfold pcm_ok in *. cbn. rewrite E5. by destruct join.
  - cbn. rewrite E1. apply I.
  - intros _. cbn. rewrite E2. split; [done | by right].
  - done.
  - intros _. cbn. rewrite E1, E2. split_and!; [done | done|]. unfold current in Hcur.
    destruct (threads w !! _) eqn:Et; [eauto | done].
  - intros fd _ Efd. by apply Hfd.
  - destruct (current w) eqn:Ecur; cbn; try done. by rewrite E5.
  - intros [->|?]; done.
  - by intros ->.
  - done.
Qed.

Lemma inv_unload h : opened (fst s) = true -> inv (exec_call (Unload h) w).
Proof using I Hh Hs.
  intros Ho. cbn [exec_call]. unfold stdev_unload_sound_model.
  destruct (negb _); [by apply inv_refused|]. destruct (_ =? 0)%Z; [by apply inv_refused|].
  set (f := fun d => set_config None (set_model_handle 0 d)).
  destruct (recognition_callback (fst (on_dev f s))) as [cb|] eqn:Ec.
  - apply inv_stop_thread; [|done | by right]. change (recognition_callback (fst s) = Some cb) in Ec. by rewrite Ec.
  - pose proof (i_device _ I) as [Hw Hm Hk Hr]. pose proof call_pcm as Hp. pose proof (i_wait _ I) as Hwt.
    by apply inv_power_off.
Qed.

Lemma inv_stop h : opened (fst s) = true -> inv (exec_call (Stop h) w).
Proof using I Hh Hs.
  intros Ho. cbn [exec_call]. unfold stdev_stop_recognition.
  destruct (negb _); [by apply inv_refused|].
  destruct (recognition_callback (fst s)) as [cb|] eqn:Ec; [|by apply inv_refused].
  apply inv_stop_thread; [by rewrite Ec | done | by left].
Qed.

(** A new thread, when the last one has ended. *)
Lemma inv_create d' k' r cb :
  current w = CbDone -> device_ok CbDone (d', k') -> pcm_ok false (d', k') -> opened d' = true ->
  callback_thread d' = length (threads w) -> recognition_callback d' = Some cb -> pcm d' = None ->
  inv (set_threads (threads w ++ [CbStart]) (returns (r, (d', k')) w)).
Proof using I Hh Hs.
  intros Hcur Hok Hp Ho Ht Hc Hn. set (w' := set_threads _ _).
  assert (current w' = CbStart) as Hcur'.
  { unfold current. cbn. by rewrite Ht, lookup_app_r, Nat.sub_diag. }
  assert (hal w' = HalIdle /\ stream w' = StreamIdle) as [Hh' Hs'] by done.
  assert (closing w' = false) as Hcl by (by apply closing_idle).
  split; rewrite ?Hcl, ?Hcur', ?Hh', ?Hs'; try done.
  - destruct Hok as [Hw Hm Hk Hr]. by split.
  - cbn. rewrite Ht. intros t pc [Hq|[Hle Hq]]%lookup_app_Some.
    + left. destruct (i_done _ I t pc Hq) as [?|Hq']; [done|]. subst t.
      unfold current in Hcur. by rewrite Hq in Hcur.
    + apply list_lookup_singleton_Some in Hq as [Hq _]. right. lia.
  - intros _. split; [done|]. left. split; [done|]. cbn. by rewrite Hc.
  - by intros [?|?].
Qed.

Lemma inv_start h cfg alloc cb ck :
  opened (fst s) = true -> cb <> None -> inv (exec_call (Start h cfg alloc cb ck) w).
Proof using I Hh Hs.
  intros Ho Hcb. cbn [exec_call]. unfold stdev_start_recognition.
  destruct (negb _); [apply inv_unchanged|].
  destruct (recognition_callback (fst s)) as [cb0|] eqn:Ec; [apply inv_unchanged|].
  pose proof (current_done _ Hh Ec I) as Hcur.
  pose proof (i_device _ I) as [Hw Hm Hk Hr]. pose proof call_pcm as Hp. rewrite Hcur, Ho in *.
  destruct (match cfg with Some _ => negb alloc | None => false end).
  - apply inv_returns; rewrite ?Hcur; try done; [|by left]. split; try done; cbn; by rewrite Ho.
  - set (s1 := on_dev (set_config cfg) (on_dev (set_config None) s)).
    assert (device_ok CbDone s1) as Hok1 by (split; try done; cbn; by rewrite Ho).
    assert (pcm_ok false s1) as Hp1 by done. rewrite (close_pcm_ok CbDone) by done.
    rewrite power_off_same by (cbn; congruence). destruct cb as [cb|]; [|done].
    apply (inv_create _ _ _ cb); try done. split; cbn; try done; try congruence. by rewrite Ho.
Qed.

Lemma inv_call c : allowed_call c w -> inv (exec_call c w).
Proof using I Hh Hs.
  destruct c; cbn [allowed_call]; intros Ha.
  - apply inv_open.
  - apply inv_load.
  - by apply inv_unload.
  - destruct Ha. by apply inv_start.
  - by apply inv_stop.
  - by apply inv_close.
Qed.
End Calls.

(** ** The rest of a call, and streaming *)

(** A step of the clients: they move, and at most the PCM changes. *)
Lemma inv_pcm_step w h p r r' dp kp :
  inv w -> current w = CbDone \/ hal w = h ->
  (h <> HalIdle -> hal w <> HalIdle) ->
  let d := fst (shared w) in
  let w' := World (set_pcm dp d, set_pcms kp (snd (shared w))) h r p r' (threads w) in
  pcm_ok (closing w') (shared w') -> waits_ok (current w) (set_pcm dp d) ->
  (h = HalStopClose \/ p = StreamClose -> dp <> None) -> (h = HalStopEnd -> dp = None) ->
  (p <> StreamIdle -> (is_streaming d = true \/ recognition_callback d = None) /\
    match h with HalStopTest | HalStopClose | HalStopClear => False | _ => True end) ->
  inv w'.
Proof.
  intros I Hc Hidle d w' Hp Hw Hclose Hend Hst. assert (current w' = current w) as Hcur by done.
  pose proof (i_device _ I) as [H1 H2 H3 H4].
  split; rewrite ?Hcur; cbn [shared hal stream threads w']; try apply I; try done.
  - intros Hne. destruct Hc as [?| <-]; [done|]. by apply I.
  - intros Hne. apply I. by apply Hidle.
  - intros fd Hj E. destruct Hc as [Hd|Hd]; [by rewrite Hd in E|]. apply (i_join _ I fd); [|done].
    by rewrite Hd.
Qed.

Lemma inv_move w h p r r' :
  inv w -> current w = CbDone \/ hal w = h ->
  closing (World (shared w) h r p r' (threads w)) = closing w ->
  (h <> HalIdle -> hal w <> HalIdle) ->
  (h = HalStopClose \/ p = StreamClose -> pcm (fst (shared w)) <> None) ->
  (h = HalStopEnd -> pcm (fst (shared w)) = None) ->
  (p <> StreamIdle ->
    (is_streaming (fst (shared w)) = true \/ recognition_callback (fst (shared w)) = None) /\
    match h with HalStopTest | HalStopClose | HalStopClear => False | _ => True end) ->
  inv (World (shared w) h r p r' (threads w)).
Proof.
  intros I Hc Hcl Hidle Hclose Hend Hst.
  pose proof (inv_pcm_step w h p r r' (pcm (fst (shared w))) (pcms (snd (shared w))) I Hc Hidle) as H.
  cbv zeta in H. assert ((set_pcm (pcm (fst (shared w))) (fst (shared w)),
    set_pcms (pcms (snd (shared w))) (snd (shared w))) = shared w) as E
    by (by destruct (shared w) as [[] []]). rewrite E in H.
  apply H; [|pose proof (i_wait _ I) as Hw; by destruct (fst (shared w)) | done | done | done].
  rewrite Hcl. apply I.
Qed.

Lemma joined_done w : joined w = true -> current w = CbDone.
Proof. unfold joined, current. destruct (threads w !! _) as [[]|]; done. Qed.

(** Powering off at the end of a call. *)
Lemma inv_return_power_off w r :
  inv w -> hal w <> HalIdle -> hal w <> HalStopClear -> current w = CbDone -> stream w = StreamIdle ->
  inv (set_hal HalIdle (returns (power_off r (shared w)) w)).
Proof.
  intros I Hne Hnc Hcur Hs. destruct (i_call _ I Hne) as (Ho & Hc & Hsome).
  assert (closing w = false) as Hcl by (unfold closing; rewrite Hs; by destruct (hal w)).
  assert (inv (set_hal HalIdle w)) as I'.
  { apply (inv_move w HalIdle (stream w) (hal_ret w) (stream_ret w)); try done; [by left | |].
    - rewrite Hcl. unfold closing. cbn. by rewrite Hs.
    - rewrite Hs. by intros [?|?]. }
  pose proof (i_pcm _ I) as Hp. rewrite Hcl in Hp.
  apply (inv_power_off (set_hal HalIdle w) (shared w) r); try done; [apply I | apply I].
Qed.

Lemma hal_done w : inv w -> hal w <> HalIdle -> joining (hal w) = false -> current w = CbDone.
Proof.
  intros I H1 H2. destruct (current w) eqn:E; [| | |done]; exfalso;
    (destruct (i_running _ I) as [_ [[? _]|H]]; [by rewrite E | done | congruence]).
Qed.

Lemma close_now_eq w :
  inv w -> closing w = false -> pcm (fst (shared w)) <> None ->
  close_now (shared w) = (set_pcm (pcm (fst (shared w))) (fst (shared w)), set_pcms ∅ (snd (shared w))).
Proof.
  intros I Hcl Hn. pose proof (i_pcm _ I) as Hp. rewrite Hcl in Hp.
  pose proof (close_pcm_ok _ _ (i_device _ I) Hp) as E. unfold close_pcm, close_now in *.
  destruct (shared w) as [d k]. cbn [fst snd on_ker on_dev] in *. destruct (pcm d) as [q|] eqn:Eq; [|done].
  apply (f_equal snd) in E. cbn [snd] in E. rewrite E. f_equal. destruct d; cbn in *. by subst.
Qed.

(** What is left of a step of the clients. *)
Ltac clients Hs Hh :=
  rewrite ?Hs, ?Hh; try done; try (by left); try (unfold closing; cbn; by rewrite ?Hs, ?Hh);
  try (by intros [?|?]).

Lemma pcms_same x (s : state) : pcms (snd s) = x -> set_pcms x (snd s) = snd s.
Proof. intros <-. by destruct s as [d []]. Qed.

Lemma inv_hal_next w w' : inv w -> stream w = StreamIdle -> hal_next w = Some w' -> inv w'.
Proof.
  intros I Hs. unfold hal_next. destruct (hal w) eqn:Hh; try done.
  1,2: destruct (joined w) eqn:Hj; [|done]; apply joined_done in Hj; intros [= <-].
  1: apply inv_return_power_off; try done; by rewrite Hh.
  1: apply (inv_move w HalStopTest (stream w) (hal_ret w) (stream_ret w)); rewrite ?Hs; clients Hs Hh.
  all: assert (current w = CbDone) as Hcur by (apply hal_done; rewrite ?Hh; done).
  all: intros [= <-].
  - destruct (pcm (fst (shared w))) as [q|] eqn:Ep; cbn [is_some].
    + apply (inv_move w HalStopClose (stream w) (hal_ret w) (stream_ret w)); rewrite ?Hs, ?Ep; clients Hs Hh.
    + apply (inv_move w HalStopEnd (stream w) (hal_ret w) (stream_ret w)); rewrite ?Hs, ?Ep; clients Hs Hh.
  - assert (closing w = false) as Hcl by (unfold closing; by rewrite Hs, Hh).
    assert (pcm (fst (shared w)) <> None) as Hn by (apply I; by left).
    rewrite close_now_eq by done. apply inv_pcm_step; rewrite ?Hs, ?Hcur; clients Hs Hh.
  - pose proof (i_pcm _ I) as Hp. unfold closing in Hp. rewrite Hh in Hp.
    pose proof (inv_pcm_step w HalStopEnd (stream w) (hal_ret w) (stream_ret w) None ∅ I) as H.
    cbv zeta in H. rewrite pcms_same in H by done. apply H; rewrite ?Hs, ?Hcur; clients Hs Hh.
  - apply inv_return_power_off; try done; by rewrite Hh.
Qed.

Lemma inv_stream_start w h :
  inv w -> stream w = StreamIdle -> allowed (StreamClosing h) w -> inv (stream_start h w).
Proof.
  intros I Hs [Ha Hh]. unfold stream_start.
  destruct (h <=? 0)%Z; [|destruct (pcm (fst (shared w))) as [q|] eqn:Ep; cbn [is_some]].
  - apply (inv_move w (hal w) (stream w) (hal_ret w) (- EINVAL)); try done; [by right | | apply I].
    rewrite Hs. intros [?|?]; [|done]. apply I. by left.
  - apply (inv_move w (hal w) StreamClose (hal_ret w) (stream_ret w)); try done;
      [by right | | by rewrite Ep | apply I].
    unfold closing. cbn. rewrite Hs. by destruct (hal w).
  - apply (inv_move w (hal w) (stream w) (hal_ret w) 0); try done; [by right |].
    rewrite Hs. intros [E|?]; [|done]. by rewrite E in Hh.
Qed.

Lemma inv_stream_next w w' : inv w -> stream_next w = Some w' -> inv w'.
Proof.
  intros I. unfold stream_next. destruct (stream w) eqn:Hs; try done;
    destruct (i_stream _ I) as [Hst Hh]; rewrite ?Hs; try done; intros [= <-].
  - assert (closing w = false) as Hcl by (unfold closing; rewrite Hs; by destruct (hal w)).
    assert (pcm (fst (shared w)) <> None) as Hn by (apply I; by right).
    rewrite close_now_eq by done. apply inv_pcm_step; try done; [by right | | | apply I].
    + unfold closing. cbn. by destruct (hal w).
    + pose proof (i_wait _ I) as Hw. by destruct (fst (shared w)).
  - pose proof (i_pcm _ I) as Hp. unfold closing in Hp. rewrite Hs in Hp.
    assert (pcms (snd (shared w)) = ∅) as Hk by (unfold pcm_ok in Hp; by destruct (hal w)).
    pose proof (inv_pcm_step w (hal w) StreamIdle (hal_ret w) 0 None ∅ I) as H.
    cbv zeta in H. rewrite pcms_same in H by done. apply H; try done; [by right | | |].
    + unfold closing, pcm_ok. cbn. rewrite Hk. by destruct (hal w).
    + pose proof (i_wait _ I) as Hw. destruct (current w); cbn in *; try done.
      intros Hc. destruct (Hw Hc) as [_ E]. destruct Hst; congruence.
    + intros [E|?]; [|done]. by rewrite E in Hh.
Qed.

Lemma disciplined_inv w : disciplined w -> inv w.
Proof.
  induction 1 as [|w a w' _ I Ha E].
  - split; try done. by intros [?|?].
  - destruct a as [c| |t a other| |h|]; cbn in Ha, E.
    + destruct (hal w) eqn:Hh; try done. injection E as <-. destruct Ha. by apply inv_call.
    + by apply (inv_hal_next w).
    + by apply (inv_thread w t a other).
    + injection E as <-. apply (inv_move w (hal w) (stream w) (hal_ret w) _); try done; [by right | | apply I].
      intros Hq. by apply (i_close _ I).
    + destruct (stream w) eqn:Hs; try done. injection E as <-. by apply inv_stream_start.
    + by apply (inv_stream_next w).
Qed.

(** ** The end of a call *)

(** No thread, no socket, the DSP off. *)
Record quiet (w : world) : Prop := {
  q_ret : hal_ret w = 0%Z;
  q_callback : recognition_callback (fst (shared w)) = None;
  q_thread : forall t pc, threads w !! t = Some pc -> pc = CbDone;
  q_sockets : send_sock (fst (shared w)) = (-1)%Z /\ term_sock (fst (shared w)) = (-1)%Z /\
    fds (snd (shared w)) = ∅;
  q_mic : int_mic (snd (shared w)) = 0%Z;
  q_streaming : is_streaming (fst (shared w)) = false
}.

(** How many steps the call still takes, of its own and of the thread. *)
Definition rank (w : world) : nat :=
  let wait := if joined w then 0 else 1 in
  match hal w with
  | HalIdle => 0
  | HalStopEnd => 1
  | HalStopClear => 2
  | HalStopClose => 3
  | HalStopTest => 4
  | HalJoinStop => 5 + wait
  | HalJoinUnload => 1 + wait
  end.

(** The answers of a system where nothing happens. *)
Definition no_event : answers := Answers None false 0 0 0 false true.

(** A thread that is told to stop can move, and ends when it does. *)
Lemma stopped_thread_ends w t pc :
  inv w -> joining (hal w) = true -> stream w = StreamIdle -> t = callback_thread (fst (shared w)) ->
  threads w !! t = Some pc -> pc <> CbDone ->
  (exists w', exec (Thread t no_event false) w = Some w') /\
  forall a other w', exec (Thread t a other) w = Some w' ->
    threads w' !! t = Some CbDone /\ hal w' = hal w /\ stream w' = StreamIdle /\
    callback_thread (fst (shared w')) = t.
Proof.
  intros I Hj Hs Ht Hpc Hne.
  assert (current w = pc) as Hcur by (unfold current; by rewrite <- Ht, Hpc).
  destruct (i_call _ I) as (Ho & Hc & _); [by intros E; rewrite E in Hj|]. split.
  - cbn [exec SoundTriggerSteps.exec]. rewrite Hpc. cbn [mbind option_bind].
    assert (enabled pc no_event false (snd (shared w)) = true) as ->.
    { destruct pc as [|fd| |]; try done. cbn. apply orb_true_iff. left. apply bool_decide_eq_true.
      by apply (i_join _ I). }
    destruct (callback_thread_loop _ _ _ _). eauto.
  - intros a other w' E. assert (E' := E). cbn [exec SoundTriggerSteps.exec] in E. rewrite Hpc in E.
    cbn [mbind option_bind] in E. destruct (enabled pc a other _) eqn:He; [|done].
    assert (closing w = false) as Hcl by (unfold closing; rewrite Hs; by destruct (hal w)).
    pose proof (i_device _ I) as Hok. pose proof (i_wait _ I) as Hw. pose proof (i_pcm _ I) as Hp.
    rewrite Hcur in Hok, Hw. rewrite Hcl in Hp.
    pose proof (callback_thread_ok pc a other (shared w) Hok Ho Hp Hw He) as (_ & _ & [_ K] & _ & H4).
    destruct (callback_thread_loop _ _ _ _) as [pc' s']. cbn [fst snd] in *. injection E as <-.
    destruct H4 as [[-> _]|(_ & _ & ?)]; [|done]. cbn. split_and!; [|done|done|congruence].
    apply list_lookup_insert_eq, lookup_lt_is_Some_1. by rewrite Hpc.
Qed.

Lemma quiet_after w :
  inv w -> hal w <> HalIdle -> current w = CbDone ->
  quiet (set_hal HalIdle (returns (power_off 0 (shared w)) w)).
Proof.
  intros I Hh Hcur. destruct (i_call _ I Hh) as (Ho & Hc & _). pose proof (i_device _ I) as [_ Hm Hk _].
  rewrite Ho, Hcur in Hk. destruct Hk as (Ex & Ey & Ef).
  unfold power_off. rewrite power_off_same by congruence. split; try done.
  intros t pc Hq. destruct (i_done _ I t pc Hq) as [?| ->]; [done|].
  unfold current in Hcur. cbn in Hq. by rewrite Hq in Hcur.
Qed.

(** Until it returns, a call has a step to take, or the thread has. *)
Lemma call_step w :
  inv w -> stream w = StreamIdle -> hal w <> HalIdle ->
  exists a w', (a = HalNext \/ a = Thread (callback_thread (fst (shared w))) no_event false) /\
    exec a w = Some w' /\ inv w' /\ stream w' = StreamIdle /\ rank w' < rank w /\
    if decide (hal w' = HalIdle) then quiet w' /\ (hal w <> HalJoinUnload -> pcm (fst (shared w')) = None)
    else hal w = HalJoinUnload <-> hal w' = HalJoinUnload.
Proof.
  intros I Hs Hh. destruct (decide (joining (hal w) = true /\ joined w = false)) as [[Hj Hnj]|Hnj].
  - destruct (i_call _ I Hh) as (_ & _ & pc & Hpc).
    destruct (stopped_thread_ends w _ pc I Hj Hs eq_refl Hpc) as [[w' E] Hend].
    { intros ->. unfold joined in Hnj. by rewrite Hpc in Hnj. }
    destruct (Hend _ _ _ E) as (Hd & Hh' & Hs' & Hc'). exists (Thread (callback_thread (fst (shared w))) no_event false), w'.
    split; [by right|]. split; [done|]. split; [by apply (inv_thread w _ _ _ _ I Hs E)|]. split; [done|].
    rewrite decide_False by congruence. rewrite Hh'. split; [|done].
    unfold rank. rewrite Hh', Hnj. unfold joined. rewrite Hc', Hd. destruct (hal w); try done; cbn; lia.
  - assert (joining (hal w) = true -> joined w = true) as Hj by (destruct (joined w); naive_solver).
    assert (current w = CbDone) as Hcur.
    { destruct (joining (hal w)) eqn:Ej; [by apply joined_done, Hj | by apply hal_done]. }
    destruct (hal_next w) as [w'|] eqn:E.
    2: { unfold hal_next in E. destruct (hal w); try done; by rewrite Hj in E. }
    exists HalNext, w'. split; [by left|]. split; [done|]. split; [by apply (inv_hal_next w)|].
    pose proof (quiet_after w I Hh Hcur) as Q. assert (E' := E).
    unfold hal_next in E. unfold rank.
    destruct (hal w) eqn:Ehal; try done; try rewrite Hj in E by done;
      injection E as <-; (split; [done|]); (split; [cbn; try destruct (joined _); try destruct (pcm _); cbn; lia|]);
      cbn; try done.
    + by destruct (is_some _).
    + rewrite decide_True by done. split; [exact Q|]. intros _. by apply (i_end _ I).
Qed.

Definition of_call (a : action) : Prop :=
  match a with HalNext | Thread _ _ _ => True | _ => False end.

Lemma call_returns n w :
  rank w <= n -> inv w -> stream w = StreamIdle -> hal w <> HalIdle ->
  exists l w', length l <= n /\ Forall of_call l /\ exec_all MAX_PHRASES l w = Some w' /\
    hal w' = HalIdle /\ quiet w' /\ (hal w <> HalJoinUnload -> pcm (fst (shared w')) = None).
Proof.
  revert w. induction n as [|n IH]; intros w Hn I Hs Hh;
    destruct (call_step w I Hs Hh) as (a & w1 & Ha & E & I1 & Hs1 & Hr & Hend); [lia|].
  assert (of_call a) as Hof by (by destruct Ha as [-> | ->]).
  assert (forall l, exec_all MAX_PHRASES (a :: l) w = exec_all MAX_PHRASES l w1) as Hcons
    by (intros l; unfold exec_all; cbn [fold_left mbind option_bind]; by rewrite E).
  destruct (decide (hal w1 = HalIdle)) as [Hi|Hi].
  - exists [a], w1. rewrite Hcons. cbn. destruct Hend. split_and!; [lia | by repeat constructor | done..].
  - destruct (IH w1) as (l & w' & Hl & Hf & E' & Hh' & Q & Hp); [lia | done..|].
    exists (a :: l), w'. rewrite Hcons. cbn. split_and!; [lia | by constructor | done | done | done|].
    intros Hne. apply Hp. by rewrite <- Hend.
Qed.

(** C10.  Safety of the sound trigger.  For clients that keep the discipline
    (calls of the HAL one at a time, on an open device and with a callback;
    closed when no recognition is going on; no overlapping close of the
    stream), in every interleaving of the parties: nothing is used or closed
    that is not held, at most one callback thread has not ended, a device that
    is not open holds no socket and no mixer, and the only PCM that is open is
    the one the device records. *)
Theorem sound_trigger_safe w :
  disciplined w ->
  wrong (snd (shared w)) = false /\
  (forall t t' pc pc', threads w !! t = Some pc -> threads w !! t' = Some pc' ->
     pc <> CbDone -> pc' <> CbDone -> t = t') /\
  (opened (fst (shared w)) = false -> fds (snd (shared w)) = ∅ /\ mixer_open (snd (shared w)) = false) /\
  pcms (snd (shared w)) ⊆ pcm_set (pcm (fst (shared w))).
Proof.
  intros I%disciplined_inv. destruct (i_device _ I) as [Hw Hm Hk _]. split_and!; [done | | |].
  - intros t t' pc pc' Ht Ht' Hpc Hpc'.
    destruct (i_done _ I _ _ Ht), (i_done _ I _ _ Ht'); congruence.
  - intros Ho. rewrite Ho in Hk. split; [done | congruence].
  - pose proof (i_pcm _ I) as Hp. unfold pcm_ok in Hp. rewrite Hp. by destruct (closing w).
Qed.

(** C16.  stop_recognition and unload_sound_model return.  Under the same
    discipline, while such a call waits for the callback thread, that thread
    can always take a step (its poll has the message), and whatever it is
    answered that step is its last; at any point of a call, at most six steps
    of the call and of the thread end it.  It returns 0 with no callback, no
    running thread, no socket, the microphone off and no streaming, and
    stop_recognition has closed the PCM. *)
Theorem stop_returns w :
  disciplined w -> stream w = StreamIdle -> hal w <> HalIdle ->
  (forall pc, joining (hal w) = true -> threads w !! callback_thread (fst (shared w)) = Some pc ->
     pc <> CbDone ->
     let t := callback_thread (fst (shared w)) in
     (exists w', exec (Thread t no_event false) w = Some w') /\
     forall a other w', exec (Thread t a other) w = Some w' -> threads w' !! t = Some CbDone) /\
  exists l w', length l <= 6 /\ Forall of_call l /\ exec_all MAX_PHRASES l w = Some w' /\
    hal w' = HalIdle /\ quiet w' /\ (hal w <> HalJoinUnload -> pcm (fst (shared w')) = None).
Proof.
  intros I%disciplined_inv Hs Hh. split.
  - intros pc Hj Hpc Hne t. destruct (stopped_thread_ends w t pc I Hj Hs eq_refl Hpc Hne) as [H1 H2].
    split; [done|]. intros a other w' E. apply (H2 a other w' E).
  - apply call_returns; [|done..]. unfold rank. destruct (hal w), (joined w); lia.
Qed.

(** A call that is refused still powers the DSP off.  On an open device,
    stop_recognition with another handle than the model's returns -ENOSYS and
    unload_sound_model with a handle other than 1 returns -EINVAL, but the
    microphone switch is set to 0 and streaming ends, while the recognition
    that was going on is left waiting: its thread, its callback and its PCM
    are unchanged. *)
Theorem refused_calls_power_off w c code :
  disciplined w -> hal w = HalIdle -> opened (fst (shared w)) = true ->
  (exists h, c = Stop h /\ h <> model_handle (fst (shared w)) /\ code = (- ENOSYS)%Z \/
             c = Unload h /\ h <> 1%Z /\ code = (- EINVAL)%Z) ->
  exists w', exec (Call c) w = Some w' /\ hal w' = HalIdle /\ hal_ret w' = code /\
    int_mic (snd (shared w')) = 0%Z /\ is_streaming (fst (shared w')) = false /\
    threads w' = threads w /\
    recognition_callback (fst (shared w')) = recognition_callback (fst (shared w)) /\
    pcm (fst (shared w')) = pcm (fst (shared w)).
Proof.
  intros I%disciplined_inv Hh Ho (h & Hc). destruct (i_device _ I) as [_ Hm _ _]. rewrite Ho in Hm.
  cbn [exec SoundTriggerSteps.exec]. rewrite Hh. eexists. split; [done|].
  destruct Hc as [(-> & Hne & ->)|(-> & Hne & ->)]; cbn [exec_call];
    unfold stdev_stop_recognition, stdev_unload_sound_model;
    [rewrite (proj2 (Z.eqb_neq (model_handle _) h)) by congruence | rewrite (proj2 (Z.eqb_neq h 1)) by done];
    cbn [negb]; rewrite power_off_same by done; done.
Qed.
End Safety.
