(* ===== verification/SoundTriggerSamples.v ===== *)
(** * SoundTriggerSamples: reading samples, and runs of the sound trigger

    What sound_trigger_read_samples gives its caller, the runs at which the
    theorems of SoundTriggerSafety apply, and two runs of clients that do not
    keep the discipline. *)

From S2P Require Import Prelude SoundTrigger SoundTriggerSteps SoundTriggerSafety.

(** ** Reading samples *)

Lemma wait_frames_positive tries avail i n : wait_frames tries avail i = inl n -> (0 < n)%Z.
Proof.
  revert i. induction tries as [|tries IH]; intros i; cbn [wait_frames];
    destruct (Z.ltb_spec (avail i) 0); try done; destruct (Z.eqb_spec (avail i) 0); try done.
  - intros [= <-]. lia.
  - apply IH.
  - intros [= <-]. lia.
Qed.

Lemma wait_frames_error tries avail i r : wait_frames tries avail i = inr r -> (r <= 0)%Z.
Proof.
  revert i. induction tries as [|tries IH]; intros i; cbn [wait_frames];
    destruct (Z.ltb_spec (avail i) 0); try done; try (intros [= <-]; lia);
    destruct (Z.eqb_spec (avail i) 0); try done; [intros [= <-]; lia | apply IH].
Qed.

Lemma wait_frames_first tries avail avail' i :
  (forall j, j <= tries -> avail (i + j) = avail' (i + j)) ->
  wait_frames tries avail i = wait_frames tries avail' i.
Proof.
  revert i. induction tries as [|tries IH]; intros i H; cbn [wait_frames].
  - pose proof (H 0 ltac:(lia)) as E. rewrite Nat.add_0_r in E. by rewrite E.
  - pose proof (H 0 ltac:(lia)) as E. rewrite Nat.add_0_r in E. rewrite E.
    rewrite (IH (S i)); [done|]. intros j Hj. rewrite Nat.add_succ_comm. apply H. lia.
Qed.

(**  sound_trigger_read_samples never overruns its caller's buffer.  When
    pcm_mmap_begin gives at most the frames it was asked for, for a buffer of
    less than 2 GiB the bytes stored fit in the buffer; a return value that is
    not negative is their number, and with a negative one nothing is stored.
    It asks for the available frames eleven times at most, and when there are
    none each time it returns 0. *)
Theorem read_samples_bounded avail begin handle len s :
  (forall n, 0 <= n -> let '(ret, m, bytes) := begin n in
     ret < 0 \/ 0 <= m <= n /\ Z.of_nat (length bytes) = 2 * m)%Z ->
  (0 <= len < 2 ^ 31)%Z ->
  (let '(ret, bytes) := sound_trigger_read_samples avail begin handle len s in
   (Z.of_nat (length bytes) <= len /\ (0 <= ret -> ret = Z.of_nat (length bytes)) /\
    (ret < 0 -> bytes = []))%Z) /\
  (forall avail', (forall i, i <= 10 -> avail i = avail' i) ->
     sound_trigger_read_samples avail begin handle len s =
     sound_trigger_read_samples avail' begin handle len s) /\
  ((forall i, i <= 10 -> avail i = 0%Z) ->
     let '(ret, bytes) := sound_trigger_read_samples avail begin handle len s in
     (ret <= 0)%Z /\ bytes = []).
Proof.
  intros Hbegin Hlen. unfold sound_trigger_read_samples. split_and!.
  - repeat match goal with |- context [if ?b then (_, []) else _] => destruct b; [cbn; split_and!; unfold EINVAL, EFAULT; (done || lia)|] end.
    destruct (pcm (fst s)); [|cbn; split_and!; unfold EINVAL; (done || lia)].
    destruct (wait_frames 10 avail 0) as [n|r] eqn:Ew.
    2: apply wait_frames_error in Ew; cbn; split_and!; (done || lia).
    apply wait_frames_positive in Ew.
    assert (0 <= len / 2 /\ len / 2 * 2 <= len)%Z as [Hq0 Hq] by (split; [apply Z.div_pos; lia | pose proof (Z.mod_pos_bound len 2); pose proof (Z.div_mod len 2); lia]).
    set (frames := if (len / 2 <? n)%Z then _ else _).
    assert (0 <= frames <= len / 2)%Z as Hf.
    { subst frames. destruct (Z.ltb_spec (len / 2) n); [rewrite swrap_small; lia | lia]. }
    specialize (Hbegin frames ltac:(lia)). destruct (begin frames) as [[ret m] bytes].
    destruct (Z.ltb_spec ret 0); [cbn; split_and!; (done || lia)|].
    destruct Hbegin as [?|[Hm Hb]]; [lia|].
    rewrite wrap_small, swrap_small, firstn_all2 by lia. split_and!; lia.
  - intros avail' Ha. by rewrite (wait_frames_first 10 avail avail' 0).
  - intros Ha. rewrite (wait_frames_first 10 avail (fun _ => 0%Z) 0) by done.
    repeat match goal with |- context [if ?b then (_, []) else _] => destruct b; [cbn; unfold EINVAL, EFAULT; split; (done || lia)|] end.
    by destruct (pcm (fst s)).
Qed.

(** ** Runs *)

Definition yes : answers := Answers (Some (3, 4)%Z) true 0 5 1 true true.

Definition open_and_load : list action :=
  [Call (Open true true true true); Call (Load true 0 7 8)].

(** A recognition waits for the hotword. *)
Definition start_waiting : list action :=
  open_and_load ++ [Call (Start 1 None true (Some 9%Z) 10); Thread 0 yes false].

Definition after (l : list action) : world := default init (exec_all 2 l init).

Definition allowedb (a : action) (w : world) : bool :=
  match a with
  | Call (Start _ _ _ cb _) => opened (fst (shared w)) && is_some cb
  | Call (Open _ _ _ _) => true
  | Call Close => negb (is_some (recognition_callback (fst (shared w))))
  | Call _ => opened (fst (shared w))
  | StreamClosing _ => false
  | _ => true
  end && match stream w with StreamIdle => true | _ => false end.

Lemma allowedb_spec a w : allowedb a w = true -> allowed a w.
Proof.
  unfold allowedb. intros [H1 H2]%andb_prop. destruct (stream w) eqn:Hs; try done.
  destruct a as [[]| | | | |]; cbn in *; rewrite ?Hs; try done.
  - apply andb_prop in H1 as [? Hcb]. split; [split; [done|]|done]. by destruct callback.
  - split; [|done]. by destruct (recognition_callback _).
Qed.

Fixpoint disciplined_run (l : list action) (w : world) : option world :=
  match l with
  | [] => Some w
  | a :: l => if allowedb a w then w ← exec 2 a w; disciplined_run l w else None
  end.

Lemma disciplined_run_spec l w w' :
  disciplined 2 w -> disciplined_run l w = Some w' -> disciplined 2 w'.
Proof.
  revert w. induction l as [|a l IH]; intros w Hw E; cbn in E; [by injection E as <-|].
  destruct (allowedb a w) eqn:Ha; [|done]. destruct (exec 2 a w) as [w1|] eqn:E1; [|done].
  apply (IH w1); [|done]. apply (disc_step _ w a); [done | by apply allowedb_spec | done].
Qed.

Definition run (l : list action) : world := default init (disciplined_run l init).

Lemma run_disciplined l : disciplined 2 (run l).
Proof.
  unfold run. destruct (disciplined_run l init) as [w|] eqn:E; [|apply disc_init].
  apply (disciplined_run_spec l init); [apply disc_init | done].
Qed.

(** stop_recognition has told the waiting thread to stop. *)
Definition stopping : world := run (start_waiting ++ [Call (Stop 1)]).

Lemma sound_trigger_safe_witness :
  exists w, disciplined 2 w /\ threads w = [CbPoll 4] /\ wrong (snd (shared w)) = false.
Proof.
  exists stopping. destruct (sound_trigger_safe 2 stopping (run_disciplined _)) as [H _].
  split; [apply run_disciplined|]. split; [vm_compute; reflexivity | exact H].
Defined.

Lemma stop_returns_witness :
  exists l w', exec_all 2 l stopping = Some w' /\ hal w' = HalIdle /\ quiet w'.
Proof.
  destruct (stop_returns 2 stopping (run_disciplined _)) as [_ (l & w' & _ & _ & E & Hh & Q & _)].
  - vm_compute. reflexivity.
  - vm_compute. discriminate.
  - exists l, w'. split; [exact E | split; [exact Hh | exact Q]].
Defined.

Lemma refused_calls_power_off_witness :
  exists w', exec 2 (Call (Stop 5)) (run start_waiting) = Some w' /\ hal_ret w' = (- ENOSYS)%Z /\
    int_mic (snd (shared (run start_waiting))) = 1%Z /\ int_mic (snd (shared w')) = 0%Z /\
    threads w' = [CbPoll 4].
Proof.
  destruct (refused_calls_power_off 2 (run start_waiting) (Stop 5) (- ENOSYS)%Z (run_disciplined _))
    as (w' & E & _ & Hr & Hm & _ & Ht & _).
  - vm_compute. reflexivity.
  - vm_compute. reflexivity.
  - exists 5%Z. left. split; [reflexivity|]. split; [vm_compute; discriminate | reflexivity].
  - exists w'. split; [exact E|]. split; [exact Hr|]. split; [vm_compute; reflexivity|].
    split; [exact Hm|]. rewrite Ht. vm_compute. reflexivity.
Defined.

Lemma read_samples_bounded_witness :
  let s := shared (run (start_waiting ++ [Thread 0 yes false])) in
  let '(ret, bytes) := sound_trigger_read_samples (fun i => if i =? 0 then 0%Z else 100%Z)
                         (fun n => (0, n, replicate (Z.to_nat (2 * n)) 1)%Z) 1 7 s in
  ret = 6%Z /\ bytes = [1; 1; 1; 1; 1; 1]%Z /\ (Z.of_nat (length bytes) <= 7)%Z.
Proof.
  destruct (read_samples_bounded (fun i => if i =? 0 then 0%Z else 100%Z)
    (fun n => (0, n, replicate (Z.to_nat (2 * n)) 1)%Z) 1 7
    (shared (run (start_waiting ++ [Thread 0 yes false])))) as [H _].
  - intros n Hn. right. rewrite length_replicate. lia.
  - lia.
  - cbv zeta. destruct (sound_trigger_read_samples _ _ _ _ _) as [ret bytes] eqn:E. vm_compute in E.
    injection E as <- <-. split; [reflexivity|]. split; [reflexivity|]. apply H.
Defined.

(** ** Runs of clients that do not keep the discipline *)

(** sound_trigger_close_for_streaming has tested the PCM when
    stdev_start_recognition closes it: the PCM is closed again. *)
Definition streaming_race : list action :=
  start_waiting ++ [Thread 0 yes false; Thread 0 yes false; StreamClosing 1;
                    Call (Start 1 None true (Some 9%Z) 10); StreamNext].

Example streaming_close_races : wrong (snd (shared (after streaming_race))) = true.
Proof. vm_compute. reflexivity. Qed.

(** The device is closed while a recognition waits: stdev_close leaves 0 in
    the two fields, and the thread closes descriptor 0, which is not its own. *)
Example closing_while_waiting :
  let w := after (start_waiting ++ [Call Close]) in
  let w' := after (start_waiting ++ [Call Close; Thread 0 yes false; Thread 0 yes false]) in
  wrong (snd (shared w)) = false /\ send_sock (fst (shared w)) = 0%Z /\ wrong (snd (shared w')) = true.
Proof. vm_compute. repeat split. Qed.

(** Without a model, both handles are 0 and the recognition starts. *)
Example start_without_model :
  let w := after [Call (Open true true true true); Call (Start 0 None true (Some 9%Z) 10)] in
  hal_ret w = 0%Z /\ threads w = [CbStart].
Proof. vm_compute. repeat split. Qed.

(** With a callback that is NULL a thread is created each time. *)
Example start_without_callback :
  threads (after (open_and_load ++ [Call (Start 1 None true None 0); Call (Start 1 None true None 0)]))
  = [CbStart; CbStart].
Proof. vm_compute. reflexivity. Qed.
