(* ===== verification/CrasDsp.v ===== *)
(** * CrasDsp: the dsp contexts, audio/hal/cras_dsp.c

    A context keeps what its pipeline is made from, so that the pipeline can
    be loaded again.  The static variables of the file are a record; a pointer
    to a context is its identifier, and one that is not in the list dangles.
    [files] gives the contents of the files that can be opened. *)

From S2P Require Import Prelude CString Float32 Dictionary Expr ExprEval DspIni DspGraph DspConnect DspUtil Pipeline PipelineRun PipelineCreate Biquad Eq ModBuiltin PipelineSamples.

Section CrasDsp.
Context `{ModuleLib} (alloc : Z -> bool) (long_width : Z) (ofuel : nat).
Context (files : string -> option string).

Record cras_dsp_context : Type := Context {
  c_pipeline : option pipeline;
  c_env : cras_expr_env;
  c_sample_rate : Z;
  c_purpose : string
}.

(** ini_filename, NULL or freed when [None]; ini; context_list, and the
    identifier of the next context. *)
Record dsp_state : Type := DspState {
  ini_filename : option string;
  the_ini : option ini;
  context_list : list (nat * cras_dsp_context);
  next_context : nat
}.

Definition set_pipeline (p : option pipeline) (ctx : cras_dsp_context) : cras_dsp_context :=
  Context p (c_env ctx) (c_sample_rate ctx) (c_purpose ctx).
Definition set_env (env : cras_expr_env) (ctx : cras_dsp_context) : cras_dsp_context :=
  Context (c_pipeline ctx) env (c_sample_rate ctx) (c_purpose ctx).
Definition set_ini (n : option ini) (st : dsp_state) : dsp_state :=
  DspState (ini_filename st) n (context_list st) (next_context st).
Definition set_contexts (l : list (nat * cras_dsp_context)) (st : dsp_state) : dsp_state :=
  DspState (ini_filename st) (the_ini st) l (next_context st).

Definition initialize_environment (env : cras_expr_env) : outcome cras_expr_env :=
  env ← cras_expr_env_install_builtins env;
  env ← cras_expr_env_set_variable_boolean env "disable_eq" 0;
  env ← cras_expr_env_set_variable_boolean env "disable_drc" 0;
  cras_expr_env_set_variable_string env "dsp_name" "".

(** The label bail. *)
Definition bail (p : pipeline) : outcome (option pipeline) :=
  _ ← cras_dsp_pipeline_free p; Done None.

Definition prepare_pipeline (n : option ini) (ctx : cras_dsp_context) : outcome (option pipeline) :=
  match n with
  | None => Done None
  | Some n =>
      p ← cras_dsp_pipeline_create alloc ofuel n (c_env ctx) (c_purpose ctx);
      match p with
      | None => Done None
      | Some p =>
          '(rc, p) ← cras_dsp_pipeline_load alloc p;
          if negb (rc =? 0)%Z then bail p
          else
            '(rc, p) ← cras_dsp_pipeline_instantiate p (c_sample_rate ctx);
            if negb (rc =? 0)%Z then bail p
            else if negb (cras_dsp_pipeline_get_sample_rate p =? c_sample_rate ctx)%Z then bail p
            else Done (Some p)
      end
  end.

(** Freeing a pipeline that may be NULL. *)
Definition free_pipeline (p : option pipeline) : outcome unit :=
  match p with None => Done tt | Some p => _ ← cras_dsp_pipeline_free p; Done tt end.

Definition load_context (n : option ini) (ctx : cras_dsp_context) : outcome cras_dsp_context :=
  p ← prepare_pipeline n ctx;
  _ ← free_pipeline (c_pipeline ctx);
  Done (set_pipeline p ctx).

(** DL_FOREACH(context_list, ctx). *)
Fixpoint load_contexts (n : option ini) (l : list (nat * cras_dsp_context))
    : outcome (list (nat * cras_dsp_context)) :=
  match l with
  | [] => Done []
  | (id, ctx) :: l => ctx ← load_context n ctx; l ← load_contexts n l; Done ((id, ctx) :: l)
  end.

(** The context a pointer points to. *)
Definition find_context (id : nat) (st : dsp_state) : outcome (nat * cras_dsp_context) :=
  i ← access (find_idx (fun c => fst c =? id) (context_list st));
  c ← access (context_list st !! i); Done (i, snd c).

Definition store_context (i : nat) (ctx : cras_dsp_context) (st : dsp_state) : dsp_state :=
  set_contexts (alter (fun c => (fst c, ctx)) i (context_list st)) st.

Definition cras_dsp_set_variable (id : nat) (key value : string) (st : dsp_state)
    : outcome dsp_state :=
  '(i, ctx) ← find_context id st;
  env ← cras_expr_env_set_variable_string (c_env ctx) key value;
  Done (store_context i (set_env env ctx) st).

Definition cras_dsp_load_pipeline (id : nat) (st : dsp_state) : outcome dsp_state :=
  '(i, ctx) ← find_context id st;
  ctx ← load_context (the_ini st) ctx;
  Done (store_context i ctx st).

Definition cras_dsp_reload_ini (st : dsp_state) : outcome dsp_state :=
  name ← access (ini_filename st);
  n ← cras_dsp_ini_create alloc long_width (files name);
  l ← load_contexts n (context_list st);
  _ ← (match the_ini st with Some old => cras_dsp_ini_free old | None => Done tt end);
  Done (set_contexts l (set_ini n st)).

(** The control word of the floating-point unit is not modelled. *)
Definition cras_dsp_init (filename : string) (st : dsp_state) : outcome dsp_state :=
  cras_dsp_reload_ini (DspState (Some filename) (the_ini st) (context_list st) (next_context st)).

Definition cras_dsp_stop (st : dsp_state) : outcome dsp_state :=
  _ ← (match the_ini st with Some n => cras_dsp_ini_free n | None => Done tt end);
  Done (DspState None None (context_list st) (next_context st)).

Definition cras_dsp_context_new (sample_rate : Z) (purpose : string) (st : dsp_state)
    : outcome (nat * dsp_state) :=
  env ← initialize_environment empty_env;
  let ctx := Context None env sample_rate purpose in
  let id := next_context st in
  Done (id, DspState (ini_filename st) (the_ini st) (context_list st ++ [(id, ctx)]) (S id)).

Definition cras_dsp_context_free (id : nat) (st : dsp_state) : outcome dsp_state :=
  '(i, ctx) ← find_context id st;
  _ ← free_pipeline (c_pipeline ctx);
  Done (set_contexts (delete i (context_list st)) st).

Definition cras_dsp_get_pipeline (id : nat) (st : dsp_state) : outcome (option pipeline) :=
  '(_, ctx) ← find_context id st; Done (c_pipeline ctx).

(** ctx->pipeline is not tested. *)
Definition cras_dsp_num_output_channels (id : nat) (st : dsp_state) : outcome nat :=
  '(_, ctx) ← find_context id st; p ← access (c_pipeline ctx);
  Done (cras_dsp_pipeline_get_num_output_channels p).

Definition cras_dsp_num_input_channels (id : nat) (st : dsp_state) : outcome nat :=
  '(_, ctx) ← find_context id st; p ← access (c_pipeline ctx);
  Done (cras_dsp_pipeline_get_num_input_channels p).

(** ** What a pipeline keeps of what it was made from *)

Definition made_from (n : ini) (purp : string) (p : pipeline) : Prop :=
  p_ini p = n /\ p_purpose p = purp.

(** Every way through an outcome that is [Done]. *)
Ltac paths E :=
  repeat match type of E with
  | (_ ≫= _) = _ => apply bind_Done in E as (? & ? & E)
  | (match ?x with _ => _ end) = _ => destruct x
  end; try discriminate E.

Lemma create_made n env purp p :
  cras_dsp_pipeline_create alloc ofuel n env purp = Done (Some p) -> made_from n purp p.
Proof. unfold cras_dsp_pipeline_create. intros E. paths E. by injection E as <-. Qed.

Lemma load_made n purp p rc p' :
  made_from n purp p -> cras_dsp_pipeline_load alloc p = Done (rc, p') -> made_from n purp p'.
Proof.
  unfold cras_dsp_pipeline_load. intros Hm E. apply bind_Done in E as ([rc1 insts] & _ & E).
  destruct (negb _); [by injection E as _ <-|]. apply bind_Done in E as ([rc2 p2] & E2 & E).
  assert (made_from n purp p2) as Hm2; [|by injection E as _ <-].
  unfold allocate_buffers in E2. paths E2; by injection E2 as _ <-.
Qed.

Lemma delay_made n purp p todo i p' :
  made_from n purp p -> delay_loop todo i p = Done p' -> made_from n purp p' /\ sample_rate p' = sample_rate p.
Proof.
  revert i p. induction todo as [|todo IH]; intros i p Hm E; cbn in E; [by injection E as <-|].
  paths E. by apply IH in E.
Qed.

Lemma instantiate_made n purp p rate p' :
  made_from n purp p -> cras_dsp_pipeline_instantiate p rate = Done (0%Z, p') ->
  made_from n purp p' /\ sample_rate p' = rate.
Proof.
  unfold cras_dsp_pipeline_instantiate. intros Hm E. apply bind_Done in E as ([rc1 insts] & _ & E).
  destruct (negb _); [done|]. apply bind_Done in E as (insts2 & _ & E).
  apply bind_Done in E as (p2 & E2 & E). injection E as <-.
  unfold calculate_audio_delay in E2. by apply (delay_made n purp) in E2.
Qed.

(** What a context is given was made for it. *)
Definition made_for (n : option ini) (ctx : cras_dsp_context) : Prop :=
  forall p, c_pipeline ctx = Some p -> exists n', n = Some n' /\ made_from n' (c_purpose ctx) p /\
    sample_rate p = c_sample_rate ctx.

Lemma prepare_made n ctx p :
  prepare_pipeline n ctx = Done p -> made_for n (set_pipeline p ctx).
Proof.
  intros E p0 Hp. cbn in Hp. subst p. unfold prepare_pipeline in E. destruct n as [n|]; [|done].
  apply bind_Done in E as ([p1|] & E1 & E); [|done]. apply create_made in E1.
  apply bind_Done in E as ([rc2 p2] & E2 & E). apply (load_made _ _ _ _ _ E1) in E2.
  destruct (negb _); [unfold bail in E; by paths E|]. apply bind_Done in E as ([rc3 p3] & E3 & E).
  destruct (Z.eqb_spec rc3 0) as [->|]; cbn [negb] in E; [|unfold bail in E; by paths E].
  apply (instantiate_made _ _ _ _ _ E2) in E3 as [E3 E4].
  destruct (negb _); [unfold bail in E; by paths E|]. injection E as <-. by exists n.
Qed.

Lemma load_context_made n ctx ctx' :
  load_context n ctx = Done ctx' ->
  exists p, prepare_pipeline n ctx = Done p /\ ctx' = set_pipeline p ctx /\ made_for n ctx'.
Proof.
  unfold load_context. intros E. apply bind_Done in E as (p & E1 & E). apply bind_Done in E as (_ & _ & E).
  injection E as <-. exists p. split_and!; [done | done | by apply prepare_made].
Qed.

(** ** The list of contexts *)

Definition all_contexts (P : cras_dsp_context -> Prop) (st : dsp_state) : Prop :=
  Forall (fun c => P (snd c)) (context_list st).

Lemma find_context_spec id st i ctx :
  find_context id st = Done (i, ctx) -> context_list st !! i = Some (id, ctx).
Proof.
  unfold find_context. intros E. apply bind_Done in E as (j & Ej & E). apply bind_Done in E as ([id' c] & Ec & E).
  injection E as <- <-. apply access_Done in Ej, Ec. apply find_idx_Some in Ej as ((x & Hx & Hq) & _).
  rewrite Ec in Hx. injection Hx as <-. apply Nat.eqb_eq in Hq. cbn in Hq. by subst.
Qed.

Lemma store_context_all P i ctx st :
  all_contexts P st -> P ctx -> all_contexts P (store_context i ctx st).
Proof.
  unfold all_contexts, store_context. cbn. intros Hall Hp. apply Forall_alter; [done|]. done.
Qed.

(** ** Runs of the exported functions *)

Inductive dsp_op : Type :=
| OpInit (filename : string)
| OpReload
| OpNew (sample_rate : Z) (purpose : string)
| OpSet (id : nat) (key value : string)
| OpLoad (id : nat)
| OpFree (id : nat).

Definition dsp_exec (op : dsp_op) (st : dsp_state) : outcome dsp_state :=
  match op with
  | OpInit f => cras_dsp_init f st
  | OpReload => cras_dsp_reload_ini st
  | OpNew rate purp => '(_, st) ← cras_dsp_context_new rate purp st; Done st
  | OpSet id k v => cras_dsp_set_variable id k v st
  | OpLoad id => cras_dsp_load_pipeline id st
  | OpFree id => cras_dsp_context_free id st
  end.

Fixpoint dsp_run (ops : list dsp_op) (st : dsp_state) : outcome dsp_state :=
  match ops with [] => Done st | op :: ops => st ← dsp_exec op st; dsp_run ops st end.

Definition dsp_start : dsp_state := DspState None None [] 0.

Record dsp_inv (st : dsp_state) : Prop := {
  di_ids : NoDup (context_list st).*1;
  di_next : Forall (fun c => fst c < next_context st) (context_list st);
  di_env : all_contexts (fun ctx => env_ok (c_env ctx)) st;
  di_made : all_contexts (made_for (the_ini st)) st
}.

Lemma load_contexts_spec n l l' :
  load_contexts n l = Done l' ->
  Forall2 (fun c c' => fst c' = fst c /\ exists p, prepare_pipeline n (snd c) = Done p /\
    snd c' = set_pipeline p (snd c) /\ made_for n (snd c')) l l'.
Proof.
  revert l'. induction l as [|[id ctx] l IH]; intros l' E; cbn in E; [by injection E as <-|].
  apply bind_Done in E as (ctx' & E1 & E). apply bind_Done in E as (l2 & E2 & E). injection E as <-.
  constructor; [|by apply IH]. split; [done|]. by apply load_context_made.
Qed.

Lemma reload_spec st st' :
  cras_dsp_reload_ini st = Done st' ->
  next_context st' = next_context st /\
  Forall2 (fun c c' => fst c' = fst c /\ exists p, prepare_pipeline (the_ini st') (snd c) = Done p /\
    snd c' = set_pipeline p (snd c) /\ made_for (the_ini st') (snd c')) (context_list st) (context_list st').
Proof.
  unfold cras_dsp_reload_ini. intros E. apply bind_Done in E as (name & _ & E).
  apply bind_Done in E as (n & _ & E). apply bind_Done in E as (l & El & E).
  apply bind_Done in E as (_ & _ & E). injection E as <-. split; [done|]. by apply load_contexts_spec.
Qed.

Lemma reload_inv st st' : dsp_inv st -> cras_dsp_reload_ini st = Done st' -> dsp_inv st'.
Proof.
  intros [Hids Hnext Henv _] E. destruct (reload_spec _ _ E) as [En Hl].
  assert ((context_list st').*1 = (context_list st).*1) as Eids.
  { clear -Hl. induction Hl as [|c c' l l' [Hc _] _ IH]; [done|]. cbn. by rewrite Hc, IH. }
  split.
  - by rewrite Eids.
  - rewrite En. assert (Forall (fun i => i < next_context st) (context_list st').*1) as Hf
      by (rewrite Eids; by apply Forall_fmap). by apply Forall_fmap in Hf.
  - unfold all_contexts in *. clear -Hl Henv. induction Hl as [|c c' l l' (_ & p & _ & Hc & _) _ IH]; [done|].
    apply list.Forall_cons in Henv as [? ?]. constructor; [by rewrite Hc | by apply IH].
  - unfold all_contexts. clear -Hl. induction Hl as [|c c' l l' (_ & p & _ & _ & ?) _ IH]; by constructor.
Qed.

Lemma alter_fst {A B} (b : B) i (l : list (A * B)) : (alter (fun c => (fst c, b)) i l).*1 = l.*1.
Proof.
  apply list_eq. intros j. rewrite !list_lookup_fmap.
  destruct (decide (i = j)) as [->|?]; [rewrite list_lookup_alter_eq|by rewrite list_lookup_alter_ne].
  by destruct (l !! j).
Qed.

Lemma store_inv st i id ctx ctx' :
  dsp_inv st -> context_list st !! i = Some (id, ctx) -> env_ok (c_env ctx') ->
  made_for (the_ini st) ctx' -> dsp_inv (store_context i ctx' st).
Proof.
  intros [Hids Hnext Henv Hmade] Hi He Hm. split; try by apply store_context_all.
  - cbn. change (NoDup ((alter (fun c => (fst c, ctx')) i (context_list st)).*1)).
    by rewrite alter_fst.
  - cbn. by apply Forall_alter.
Qed.

(** The environment of a new context. *)
Definition new_env : cras_expr_env :=
  Eval vm_compute in default empty_env (outcome_value (initialize_environment empty_env)).

Lemma new_env_eq : initialize_environment empty_env = Done new_env.
Proof. vm_compute. reflexivity. Qed.

Lemma new_env_ok : env_ok new_env.
Proof. split; [vm_compute; reflexivity | apply (bool_decide_unpack _); vm_compute; reflexivity]. Qed.

Lemma dsp_exec_inv op st st' : dsp_inv st -> dsp_exec op st = Done st' -> dsp_inv st'.
Proof.
  intros I E. destruct op as [f| |rate purp|id k v|id|id]; cbn [dsp_exec] in E.
  - apply (reload_inv (DspState (Some f) (the_ini st) (context_list st) (next_context st)) st'); [|done].
    by destruct I.
  - by apply (reload_inv st).
  - unfold cras_dsp_context_new in E. rewrite new_env_eq in E. injection E as <-.
    destruct I as [Hids Hnext Henv Hmade]. unfold all_contexts in *. split; cbn.
    + rewrite fmap_app. cbn. apply list.NoDup_app. split; [done|]. split; [|apply list.NoDup_singleton].
      intros x Hx ->%list_elem_of_singleton. apply list_elem_of_fmap in Hx as (c & Hc & Hin).
      rewrite list.Forall_forall in Hnext. specialize (Hnext c Hin). lia.
    + apply Forall_app. split; [|by repeat constructor].
      apply (list.Forall_impl _ _ _ Hnext). intros c Hc. lia.
    + apply Forall_app. split; [done|]. constructor; [apply new_env_ok | done].
    + apply Forall_app. split; [done|]. by constructor.
  - unfold cras_dsp_set_variable in E. apply bind_Done in E as ([i ctx] & Ei & E).
    apply find_context_spec in Ei. apply bind_Done in E as (env & Ee & E). injection E as <-.
    pose proof (Forall_lookup_1 _ _ _ _ (di_env _ I) Ei) as He.
    pose proof (Forall_lookup_1 _ _ _ _ (di_made _ I) Ei) as Hm.
    apply (store_inv st i id ctx); [done | done | | exact Hm].
    destruct (set_at_map (c_env ctx) k (value_set_string v) He) as (env' & E' & H' & _).
    assert (Done env = Done env') as [= ->]; [|done]. rewrite <- Ee. exact E'.
  - unfold cras_dsp_load_pipeline in E. apply bind_Done in E as ([i ctx] & Ei & E).
    apply find_context_spec in Ei. apply bind_Done in E as (ctx' & Ec & E). injection E as <-.
    apply load_context_made in Ec as (p & _ & -> & Hm).
    apply (store_inv st i id ctx); [done | done | | done].
    exact (Forall_lookup_1 _ _ _ _ (di_env _ I) Ei).
  - unfold cras_dsp_context_free in E. apply bind_Done in E as ([i ctx] & Ei & E).
    apply bind_Done in E as (_ & _ & E). injection E as <-.
    destruct I as [Hids Hnext Henv Hmade]. unfold all_contexts in *. split; cbn.
    + rewrite list_fmap_delete. apply (sublist_NoDup _ _ Hids), sublist_delete.
    + by apply Forall_delete.
    + by apply Forall_delete.
    + by apply Forall_delete.
Qed.

Lemma dsp_run_inv ops st st' : dsp_inv st -> dsp_run ops st = Done st' -> dsp_inv st'.
Proof.
  revert st. induction ops as [|op ops IH]; intros st I E; cbn in E; [by injection E as <-|].
  apply bind_Done in E as (st1 & E1 & E). apply (IH st1); [|done]. by apply (dsp_exec_inv op st).
Qed.

(** C31.  The pipelines of the contexts are those of the current ini.  After
    any run of cras_dsp_init, cras_dsp_reload_ini, cras_dsp_context_new,
    cras_dsp_set_variable, cras_dsp_load_pipeline and cras_dsp_context_free
    that ends, no two contexts have the same identifier, every environment is
    well formed, and a context has no pipeline or one that was made from the
    ini in use, for the purpose of the context and at its sample rate.  And
    reloading the ini loads every context, in order, anew: its pipeline is what
    prepare_pipeline gives for it and the new ini. *)
Theorem dsp_contexts_current ops st :
  dsp_run ops dsp_start = Done st ->
  NoDup (context_list st).*1 /\
  (forall id ctx, (id, ctx) ∈ context_list st ->
     env_ok (c_env ctx) /\
     forall p, c_pipeline ctx = Some p ->
       the_ini st = Some (p_ini p) /\ p_purpose p = c_purpose ctx /\ sample_rate p = c_sample_rate ctx) /\
  (forall st', cras_dsp_reload_ini st = Done st' ->
     Forall2 (fun c c' => fst c' = fst c /\ exists p,
       prepare_pipeline (the_ini st') (snd c) = Done p /\ snd c' = set_pipeline p (snd c))
       (context_list st) (context_list st')).
Proof.
  intros E. assert (dsp_inv st) as I.
  { apply (dsp_run_inv ops dsp_start); [|done]. split; by constructor. }
  split; [apply I|]. split.
  - intros id ctx Hin. apply list_elem_of_lookup in Hin as [i Hi].
    split; [exact (Forall_lookup_1 _ _ _ _ (di_env _ I) Hi)|]. intros p Hp.
    destruct (Forall_lookup_1 _ _ _ _ (di_made _ I) Hi p Hp) as (n & -> & [-> ->] & ->). done.
  - intros st' E'. destruct (reload_spec _ _ E') as [_ Hl].
    refine (Forall2_impl _ _ Hl). intros c c' (Hc & p & Hp & Hs & _). split; [done|]. by exists p.
Qed.

Lemma create_fresh n env purp p :
  cras_dsp_pipeline_create alloc ofuel n env purp = Done (Some p) -> Forall fresh (instances p).
Proof.
  unfold cras_dsp_pipeline_create. intros E. apply bind_Done in E as ([so|] & _ & E); [|by paths E].
  apply bind_Done in E as ([si|] & _ & E); [|done]. destruct (negb _); [done|]. apply bind_Done in E as ([rc [insts v]] & Es & E).
  apply topological_sort_fresh in Es; [|constructor]. paths E. by injection E as <-.
Qed.

Lemma load_modules_fresh n insts rc insts' :
  Forall fresh insts -> load_modules n insts = Done (rc, insts') ->
  Forall (fun i => instantiated i = false) insts'.
Proof.
  intros HF. revert rc insts'. induction HF as [|i l [Hm Hi] HF IH]; intros rc insts' E; cbn in E.
  { injection E as _ <-. constructor. }
  apply bind_Done in E as (pl & _ & E). unfold load_module in E.
  destruct (cras_dsp_module_load_builtin pl); cbn in E.
  - apply bind_Done in E as ([rc' l'] & E' & E). injection E as _ <-. constructor; [done | by apply (IH rc')].
  - injection E as _ <-. constructor; [done|]. apply (list.Forall_impl _ _ _ HF). by intros x [].
Qed.

(** A failed allocation while a pipeline is prepared.  When the modules
    of a pipeline that needs buffers are loaded but the array of its buffers
    cannot be allocated, prepare_pipeline does not return NULL: freeing the
    pipeline dereferences the array that was not allocated. *)
Theorem prepare_out_of_memory n ctx p insts :
  cras_dsp_pipeline_create alloc ofuel n (c_env ctx) (c_purpose ctx) = Done (Some p) ->
  load_modules n (instances p) = Done (0%Z, insts) ->
  (0 < count_buffers insts 0 0)%Z -> alloc (count_buffers insts 0 0 * 8) = false ->
  prepare_pipeline (Some n) ctx = Fault.
Proof.
  intros Ec El Hpos Ha. pose proof (load_modules_fresh _ _ _ _ (create_fresh _ _ _ _ Ec) El) as Hi.
  unfold prepare_pipeline. rewrite Ec, bind_Done_eq.
  apply create_made in Ec as [Ep _]. unfold cras_dsp_pipeline_load. rewrite Ep, El, bind_Done_eq.
  cbn [negb Z.eqb]. unfold allocate_buffers. cbn [instances set_instances]. rewrite Ha. cbn [negb].
  rewrite bind_Done_eq. cbn [Z.eqb negb]. rewrite bind_Done_eq. cbn.
  unfold bail, cras_dsp_pipeline_free. cbn.
  assert (exists ms, free_instances insts = Done ms) as [ms ->].
  { clear -Hi. induction Hi as [|i l Hi _ [ms IH]]; [by exists []|]. cbn [free_instances].
    destruct (module i) as [m|]; [|by exists ms]. rewrite Hi, bind_Done_eq, IH. by exists (m :: ms). }
  cbn. by rewrite (proj2 (Z.ltb_lt _ _)).
Qed.
End CrasDsp.

(** ** Contexts over a small ini file *)

Definition one_file (name : string) : option string :=
  if String.eqb name "dsp.ini" then Some sample_ini_file else None.

Definition sample_ops : list dsp_op :=
  [OpInit "dsp.ini"; OpNew 48000 "playback"; OpNew 44100 "capture"; OpLoad 0;
   OpSet 1 "dsp_name" "speaker"].

Abbreviation sample_state := (dsp_run (fun _ => true) 64 4 one_file sample_ops dsp_start).

(** The sample rates of the contexts that have a pipeline. *)
Definition rates (st : dsp_state) : list (nat * option Z) :=
  map (fun c => (fst c, sample_rate <$> c_pipeline (snd c))) (context_list st).

Lemma dsp_contexts_current_witness :
  exists st p ctx, sample_state = Done st /\ (0, ctx) ∈ context_list st /\
    c_pipeline ctx = Some p /\ the_ini st = Some (p_ini p) /\ sample_rate p = c_sample_rate ctx.
Proof.
  assert (match sample_state with Done st => rates st | _ => [] end = [(0, Some 48000%Z); (1, None)]) as R
    by (vm_compute; reflexivity).
  pose proof (dsp_contexts_current (fun _ => true) 64 4 one_file sample_ops) as C.
  destruct sample_state as [st| |]; [|discriminate R|discriminate R].
  destruct (C st eq_refl) as (_ & H & _). clear C.
  unfold rates in R. destruct (context_list st) as [|[id ctx] l] eqn:El; [discriminate R|].
  apply (f_equal head) in R. cbn in R. injection R as Hid Hp. subst id.
  destruct (c_pipeline ctx) as [p|] eqn:Ep; [|discriminate Hp].
  assert ((0, ctx) ∈ context_list st) as Hin by (rewrite El; apply list_elem_of_here).
  rewrite <- El in H. destruct (H 0 ctx Hin) as [_ Hm]. destruct (Hm p Ep) as (H1 & _ & H3).
  exists st, p, ctx. split; [reflexivity|]. split; [exact Hin|]. split; [exact Ep|]. split; [exact H1 | exact H3].
Defined.

(** ** A machine that has no memory for the buffers *)

Definition sample_context : cras_dsp_context := Context None base_env 48000 "playback".

Definition sample_modules : outcome (Z * list instance) :=
  match created 4 sample_ini base_env with
  | Some p => load_modules sample_ini (instances p)
  | None => Fault
  end.

Definition pipeline_only (b : Z) : bool := (b =? sizeof_pipeline)%Z.

Lemma prepare_out_of_memory_witness :
  prepare_pipeline pipeline_only 4 (Some sample_ini) sample_context = Fault.
Proof.
  assert (match sample_modules with
          | Done (rc, l) => (rc, (0 <? count_buffers l 0 0)%Z, pipeline_only (count_buffers l 0 0 * 8))
          | _ => (1%Z, false, true) end = (0%Z, true, false)) as R by (vm_compute; reflexivity).
  unfold sample_modules in R. destruct (created 4 sample_ini base_env) as [p|] eqn:Ep; [|discriminate R].
  unfold created in Ep.
  assert (cras_dsp_pipeline_create pipeline_only 4 sample_ini base_env "playback" =
          cras_dsp_pipeline_create (fun _ => true) 4 sample_ini base_env "playback") as Es by (cbv delta [cras_dsp_pipeline_create]; reflexivity).
  rewrite <- Es in Ep.
  destruct (cras_dsp_pipeline_create pipeline_only 4 sample_ini base_env "playback") as [[q|]| |] eqn:Eq; try discriminate Ep.
  injection Ep as ->.
  destruct (load_modules sample_ini (instances p)) as [[rc l]| |] eqn:El; try discriminate R.
  apply pair_equal_spec in R as [[R1 R2]%pair_equal_spec R3]. subst rc.
  apply (prepare_out_of_memory pipeline_only 4 sample_ini sample_context p l Eq El); [|exact R3].
  apply Z.ltb_lt. exact R2.
Defined.
