(* ===== verification/AudioDefs.v ===== *)
(** * AudioDefs: the data of the audio HAL, audio/hal/audio_hw.h and audio_hw.c

    The structures of audio_hw.h, the tables of audio_hw.c, and what the code
    has of its surroundings.  Streams are known by handles, the lists of a
    structure are lists; the profiles of the PCM devices are written to and so
    are part of the state.  A mixer has one list node for each use case, and
    [st_nodes] tells which use case's list a node is in. *)

From S2P Require Import Prelude CString.

(** ** Constants

    The values of system/audio.h, system/audio_effect.h and errno.h that the
    code compares with are part of the binary interface of Android. *)

Definition EIO : Z := 5.
Definition ENODEV : Z := 19.
Definition EEXIST : Z := 17.
Definition EINVAL : Z := 22.
Definition ENOSYS : Z := 38.

Definition AUDIO_DEVICE_NONE : Z := 0.
Definition AUDIO_DEVICE_OUT_EARPIECE : Z := 0x1.
Definition AUDIO_DEVICE_OUT_SPEAKER : Z := 0x2.
Definition AUDIO_DEVICE_OUT_WIRED_HEADSET : Z := 0x4.
Definition AUDIO_DEVICE_OUT_WIRED_HEADPHONE : Z := 0x8.
Definition AUDIO_DEVICE_BIT_IN : Z := 0x80000000.
Definition AUDIO_DEVICE_IN_COMMUNICATION : Z := 0x80000001.
Definition AUDIO_DEVICE_IN_BUILTIN_MIC : Z := 0x80000004.
Definition AUDIO_DEVICE_IN_WIRED_HEADSET : Z := 0x80000010.
Definition AUDIO_DEVICE_IN_AUX_DIGITAL : Z := 0x80000020.
Definition AUDIO_DEVICE_IN_VOICE_CALL : Z := 0x80000040.
Definition AUDIO_DEVICE_IN_BACK_MIC : Z := 0x80000080.

Definition AUDIO_MODE_NORMAL : Z := 0.
Definition AUDIO_MODE_IN_CALL : Z := 2.
Definition AUDIO_MODE_IN_COMMUNICATION : Z := 3.

Definition AUDIO_SOURCE_DEFAULT : Z := 0.
Definition AUDIO_SOURCE_MIC : Z := 1.
Definition AUDIO_SOURCE_CAMCORDER : Z := 5.
Definition AUDIO_SOURCE_VOICE_RECOGNITION : Z := 6.
Definition AUDIO_SOURCE_VOICE_COMMUNICATION : Z := 7.
Definition AUDIO_SOURCE_HOTWORD : Z := 1999.

Definition AUDIO_FORMAT_PCM_16_BIT : Z := 0x1.
Definition AUDIO_OUTPUT_FLAG_PRIMARY : Z := 0x2.
Definition AUDIO_OUTPUT_FLAG_DEEP_BUFFER : Z := 0x8.
Definition AUDIO_INPUT_FLAG_FAST : Z := 0x1.
Definition AUDIO_CHANNEL_OUT_STEREO : Z := 0x3.
Definition AUDIO_CHANNEL_IN_MONO : Z := 0x10.
Definition AUDIO_CHANNEL_IN_FRONT_BACK : Z := 0x30.
Definition AUDIO_CHANNEL_INDEX_MASK_4 : Z := 0x8000000F.

Definition TTY_MODE_OFF : Z := 1.
Definition TTY_MODE_FULL : Z := 2.
Definition TTY_MODE_VCO : Z := 4.
Definition TTY_MODE_HCO : Z := 8.
Definition DUALMIC_CONFIG_NONE : Z := 0.
Definition DUALMIC_CONFIG_1 : Z := 1.
Definition MAX_PREPROCESSORS : nat := 3.

Definition PCM_FORMAT_S16_LE : Z := 0.
Definition INT_MAX : Z := 2147483647.
Definition SOUND_CARD : Z := 0.

(** The enumeration of the sound devices. *)
Definition SND_DEVICE_NONE : Z := 0.
Definition SND_DEVICE_MIN : Z := 1.
Definition SND_DEVICE_OUT_BEGIN : Z := 1.
Definition SND_DEVICE_OUT_HANDSET : Z := 1.
Definition SND_DEVICE_OUT_SPEAKER : Z := 2.
Definition SND_DEVICE_OUT_HEADPHONES : Z := 3.
Definition SND_DEVICE_OUT_SPEAKER_AND_HEADPHONES : Z := 4.
Definition SND_DEVICE_OUT_VOICE_HANDSET : Z := 5.
Definition SND_DEVICE_OUT_VOICE_SPEAKER : Z := 6.
Definition SND_DEVICE_OUT_VOICE_HEADPHONES : Z := 7.
Definition SND_DEVICE_OUT_HDMI : Z := 8.
Definition SND_DEVICE_OUT_SPEAKER_AND_HDMI : Z := 9.
Definition SND_DEVICE_OUT_VOICE_TTY_FULL_HEADPHONES : Z := 10.
Definition SND_DEVICE_OUT_VOICE_TTY_VCO_HEADPHONES : Z := 11.
Definition SND_DEVICE_OUT_VOICE_TTY_HCO_HANDSET : Z := 12.
Definition SND_DEVICE_OUT_END : Z := 13.
Definition SND_DEVICE_IN_BEGIN : Z := 13.
Definition SND_DEVICE_IN_HANDSET_MIC : Z := 13.
Definition SND_DEVICE_IN_SPEAKER_MIC : Z := 14.
Definition SND_DEVICE_IN_HEADSET_MIC : Z := 15.
Definition SND_DEVICE_IN_HANDSET_MIC_AEC : Z := 16.
Definition SND_DEVICE_IN_SPEAKER_MIC_AEC : Z := 17.
Definition SND_DEVICE_IN_HEADSET_MIC_AEC : Z := 18.
Definition SND_DEVICE_IN_VOICE_SPEAKER_MIC : Z := 19.
Definition SND_DEVICE_IN_VOICE_HEADSET_MIC : Z := 20.
Definition SND_DEVICE_IN_HDMI_MIC : Z := 21.
Definition SND_DEVICE_IN_CAMCORDER_MIC : Z := 22.
Definition SND_DEVICE_IN_VOICE_DMIC_1 : Z := 23.
Definition SND_DEVICE_IN_VOICE_SPEAKER_DMIC_1 : Z := 24.
Definition SND_DEVICE_IN_VOICE_TTY_FULL_HEADSET_MIC : Z := 25.
Definition SND_DEVICE_IN_VOICE_TTY_VCO_HANDSET_MIC : Z := 26.
Definition SND_DEVICE_IN_VOICE_TTY_HCO_HEADSET_MIC : Z := 27.
Definition SND_DEVICE_IN_VOICE_REC_HEADSET_MIC : Z := 28.
Definition SND_DEVICE_IN_VOICE_REC_MIC : Z := 29.
Definition SND_DEVICE_IN_VOICE_REC_DMIC_1 : Z := 30.
Definition SND_DEVICE_IN_VOICE_REC_DMIC_NS_1 : Z := 31.
Definition SND_DEVICE_IN_LOOPBACK_AEC : Z := 32.
Definition SND_DEVICE_IN_END : Z := 33.
Definition SND_DEVICE_MAX : Z := 33.

(** usecase_type_t and audio_usecase_t. *)
Definition PCM_PLAYBACK : Z := 0x1.
Definition PCM_CAPTURE : Z := 0x2.
Definition VOICE_CALL : Z := 0x4.
Definition PCM_HOTWORD_STREAMING : Z := 0x8.

Definition USECASE_AUDIO_PLAYBACK : Z := 0.
Definition USECASE_AUDIO_PLAYBACK_MULTI_CH : Z := 1.
Definition USECASE_AUDIO_PLAYBACK_DEEP_BUFFER : Z := 2.
Definition USECASE_AUDIO_CAPTURE : Z := 3.
Definition USECASE_AUDIO_CAPTURE_HOTWORD : Z := 4.
Definition USECASE_VOICE_CALL : Z := 5.

(** The sizes of the PCM devices. *)
Definition PLAYBACK_PERIOD_SIZE : Z := 512.
Definition PLAYBACK_PERIOD_COUNT : Z := 2.
Definition PLAYBACK_DEFAULT_CHANNEL_COUNT : Z := 4.
Definition PLAYBACK_DEFAULT_SAMPLING_RATE : Z := 48000.
Definition PLAYBACK_START_THRESHOLD : Z := PLAYBACK_PERIOD_SIZE * PLAYBACK_PERIOD_COUNT - 1.
Definition PLAYBACK_STOP_THRESHOLD : Z := PLAYBACK_PERIOD_SIZE * PLAYBACK_PERIOD_COUNT.
Definition PLAYBACK_AVAILABLE_MIN : Z := 1.
Definition CAPTURE_PERIOD_SIZE : Z := 1024.
Definition CAPTURE_PERIOD_SIZE_LOW_LATENCY : Z := 512.
Definition CAPTURE_PERIOD_COUNT : Z := 2.
Definition CAPTURE_DEFAULT_CHANNEL_COUNT : Z := 4.
Definition CAPTURE_DEFAULT_SAMPLING_RATE : Z := 48000.
Definition CAPTURE_START_THRESHOLD : Z := 1.
Definition DEEP_BUFFER_OUTPUT_SAMPLING_RATE : Z := 48000.
Definition DEEP_BUFFER_OUTPUT_PERIOD_SIZE : Z := 1440.
Definition DEEP_BUFFER_OUTPUT_PERIOD_COUNT : Z := 8.

(** struct pcm_config of tinyalsa. *)
Record pcm_config : Type := PcmConfig {
  pc_channels : Z;
  pc_rate : Z;
  pc_period_size : Z;
  pc_period_count : Z;
  pc_format : Z;
  pc_start_threshold : Z;
  pc_stop_threshold : Z;
  pc_silence_threshold : Z;
  pc_avail_min : Z
}.

(** struct pcm_device_profile; [None] is a NULL name. *)
Record pcm_device_profile : Type := PcmProfile {
  pp_config : pcm_config;
  pp_card : Z;
  pp_device : Z;
  pp_id : Z;
  pp_type : Z;
  pp_devices : Z;
  pp_dsp_name : option string
}.

(** struct pcm_device.  The profile is an index, an open PCM and a dsp context
    are known by numbers; of the buffer of the resampler only whether there is
    one matters. *)
Record pcm_device : Type := PcmDevice {
  pd_profile : nat;
  pd_pcm : option nat;
  pd_status : Z;
  pd_resampler : bool;
  pd_res_byte_count : Z;
  pd_res_buffer : bool;
  pd_dsp : option nat;
  pd_sound_trigger : Z
}.

(** struct stream_out.  The list of PCM devices is [None] as long as nothing has
    initialised it: its head is then a pair of null pointers. *)
Record stream_out : Type := StreamOut {
  so_config : pcm_config;
  so_pcm_devs : option (list pcm_device);
  so_standby : bool;
  so_sample_rate : Z;
  so_channel_mask : Z;
  so_format : Z;
  so_devices : Z;
  so_flags : Z;
  so_usecase : Z;
  so_supported : list Z;
  so_muted : bool;
  so_written : Z;
  so_proc_buf_size : Z
}.

(** struct stream_in.  Buffers are lists of 16-bit samples; an effect is a
    number. *)
Record stream_in : Type := StreamIn {
  si_config : pcm_config;
  si_pcm_devs : option (list pcm_device);
  si_standby : bool;
  si_source : Z;
  si_devices : Z;
  si_main_channels : Z;
  si_usecase : Z;
  si_usecase_type : Z;
  si_enable_aec : bool;
  si_input_flags : Z;
  si_requested_rate : Z;
  si_resampler : bool;
  si_read_status : Z;
  si_read_buf : list Z;
  si_read_buf_size : Z;
  si_read_buf_frames : Z;
  si_proc_buf_size : Z;
  si_proc_buf_in : list Z;
  si_proc_buf_frames : Z;
  si_preprocessors : list nat;
  si_aux_changed : bool;
  si_aux_channels : Z
}.

(** The stream of a use case: [uc_stream] is a pointer to either structure. *)
Variant stream : Type := OutStream (h : nat) | InStream (h : nat).

#[export] Instance stream_eq_dec : EqDecision stream.
Proof. solve_decision. Defined.

(** struct audio_usecase; [uc_loc] is its address. *)
Record audio_usecase : Type := Usecase {
  uc_loc : nat;
  uc_id : Z;
  uc_type : Z;
  uc_devices : Z;
  uc_out : Z;
  uc_in : Z;
  uc_stream : stream;
  uc_mixers : list Z
}.

(** struct audio_device.  The cached voice volume is never read; [ad_st] tells
    whether the functions of the sound trigger library were found. *)
Record audio_device : Type := AudioDevice {
  ad_mixers : list Z;
  ad_mode : Z;
  ad_active_input : option nat;
  ad_primary : option nat;
  ad_in_call : bool;
  ad_mic_mute : bool;
  ad_tty_mode : Z;
  ad_bluetooth_nrec : bool;
  ad_screen_off : bool;
  ad_ref_cnt : list Z;
  ad_usecases : list audio_usecase;
  ad_lr_swap : bool;
  ad_dualmic : Z;
  ad_ns : bool;
  ad_st : bool
}.

(** ** Assignments to fields; [cbn] reduces them *)

Definition set_pc_channels (x : Z) (r : pcm_config) : pcm_config :=
  PcmConfig x (pc_rate r) (pc_period_size r) (pc_period_count r) (pc_format r)
    (pc_start_threshold r) (pc_stop_threshold r) (pc_silence_threshold r) (pc_avail_min r) .
#[global] Arguments set_pc_channels _ _ /.
Definition set_pc_period_size (x : Z) (r : pcm_config) : pcm_config :=
  PcmConfig (pc_channels r) (pc_rate r) x (pc_period_count r) (pc_format r)
    (pc_start_threshold r) (pc_stop_threshold r) (pc_silence_threshold r) (pc_avail_min r) .
#[global] Arguments set_pc_period_size _ _ /.

Definition set_pp_config (x : pcm_config) (r : pcm_device_profile) : pcm_device_profile :=
  PcmProfile x (pp_card r) (pp_device r) (pp_id r) (pp_type r) (pp_devices r) (pp_dsp_name r) .
#[global] Arguments set_pp_config _ _ /.

Definition set_pd_pcm (x : option nat) (r : pcm_device) : pcm_device :=
  PcmDevice (pd_profile r) x (pd_status r) (pd_resampler r) (pd_res_byte_count r)
    (pd_res_buffer r) (pd_dsp r) (pd_sound_trigger r) .
#[global] Arguments set_pd_pcm _ _ /.
Definition set_pd_status (x : Z) (r : pcm_device) : pcm_device :=
  PcmDevice (pd_profile r) (pd_pcm r) x (pd_resampler r) (pd_res_byte_count r) (pd_res_buffer r)
    (pd_dsp r) (pd_sound_trigger r) .
#[global] Arguments set_pd_status _ _ /.
Definition set_pd_resampler (x : bool) (r : pcm_device) : pcm_device :=
  PcmDevice (pd_profile r) (pd_pcm r) (pd_status r) x (pd_res_byte_count r) (pd_res_buffer r)
    (pd_dsp r) (pd_sound_trigger r) .
#[global] Arguments set_pd_resampler _ _ /.
Definition set_pd_res_byte_count (x : Z) (r : pcm_device) : pcm_device :=
  PcmDevice (pd_profile r) (pd_pcm r) (pd_status r) (pd_resampler r) x (pd_res_buffer r)
    (pd_dsp r) (pd_sound_trigger r) .
#[global] Arguments set_pd_res_byte_count _ _ /.
Definition set_pd_res_buffer (x : bool) (r : pcm_device) : pcm_device :=
  PcmDevice (pd_profile r) (pd_pcm r) (pd_status r) (pd_resampler r) (pd_res_byte_count r) x
    (pd_dsp r) (pd_sound_trigger r) .
#[global] Arguments set_pd_res_buffer _ _ /.
Definition set_pd_dsp (x : option nat) (r : pcm_device) : pcm_device :=
  PcmDevice (pd_profile r) (pd_pcm r) (pd_status r) (pd_resampler r) (pd_res_byte_count r)
    (pd_res_buffer r) x (pd_sound_trigger r) .
#[global] Arguments set_pd_dsp _ _ /.
Definition set_pd_sound_trigger (x : Z) (r : pcm_device) : pcm_device :=
  PcmDevice (pd_profile r) (pd_pcm r) (pd_status r) (pd_resampler r) (pd_res_byte_count r)
    (pd_res_buffer r) (pd_dsp r) x.
#[global] Arguments set_pd_sound_trigger _ _ /.

Definition set_so_pcm_devs (x : option (list pcm_device)) (r : stream_out) : stream_out :=
  StreamOut (so_config r) x (so_standby r) (so_sample_rate r) (so_channel_mask r) (so_format r)
    (so_devices r) (so_flags r) (so_usecase r) (so_supported r) (so_muted r) (so_written r)
    (so_proc_buf_size r) .
#[global] Arguments set_so_pcm_devs _ _ /.
Definition set_so_standby (x : bool) (r : stream_out) : stream_out :=
  StreamOut (so_config r) (so_pcm_devs r) x (so_sample_rate r) (so_channel_mask r) (so_format r)
    (so_devices r) (so_flags r) (so_usecase r) (so_supported r) (so_muted r) (so_written r)
    (so_proc_buf_size r) .
#[global] Arguments set_so_standby _ _ /.
Definition set_so_devices (x : Z) (r : stream_out) : stream_out :=
  StreamOut (so_config r) (so_pcm_devs r) (so_standby r) (so_sample_rate r) (so_channel_mask r)
    (so_format r) x (so_flags r) (so_usecase r) (so_supported r) (so_muted r) (so_written r)
    (so_proc_buf_size r) .
#[global] Arguments set_so_devices _ _ /.
Definition set_so_muted (x : bool) (r : stream_out) : stream_out :=
  StreamOut (so_config r) (so_pcm_devs r) (so_standby r) (so_sample_rate r) (so_channel_mask r)
    (so_format r) (so_devices r) (so_flags r) (so_usecase r) (so_supported r) x (so_written r)
    (so_proc_buf_size r) .
#[global] Arguments set_so_muted _ _ /.
Definition set_so_written (x : Z) (r : stream_out) : stream_out :=
  StreamOut (so_config r) (so_pcm_devs r) (so_standby r) (so_sample_rate r) (so_channel_mask r)
    (so_format r) (so_devices r) (so_flags r) (so_usecase r) (so_supported r) (so_muted r) x
    (so_proc_buf_size r) .
#[global] Arguments set_so_written _ _ /.
Definition set_so_proc_buf_size (x : Z) (r : stream_out) : stream_out :=
  StreamOut (so_config r) (so_pcm_devs r) (so_standby r) (so_sample_rate r) (so_channel_mask r)
    (so_format r) (so_devices r) (so_flags r) (so_usecase r) (so_supported r) (so_muted r)
    (so_written r) x.
#[global] Arguments set_so_proc_buf_size _ _ /.

Definition set_si_config (x : pcm_config) (r : stream_in) : stream_in :=
  StreamIn x (si_pcm_devs r) (si_standby r) (si_source r) (si_devices r) (si_main_channels r)
    (si_usecase r) (si_usecase_type r) (si_enable_aec r) (si_input_flags r)
    (si_requested_rate r) (si_resampler r) (si_read_status r) (si_read_buf r)
    (si_read_buf_size r) (si_read_buf_frames r) (si_proc_buf_size r) (si_proc_buf_in r)
    (si_proc_buf_frames r) (si_preprocessors r) (si_aux_changed r) (si_aux_channels r) .
#[global] Arguments set_si_config _ _ /.
Definition set_si_pcm_devs (x : option (list pcm_device)) (r : stream_in) : stream_in :=
  StreamIn (si_config r) x (si_standby r) (si_source r) (si_devices r) (si_main_channels r)
    (si_usecase r) (si_usecase_type r) (si_enable_aec r) (si_input_flags r)
    (si_requested_rate r) (si_resampler r) (si_read_status r) (si_read_buf r)
    (si_read_buf_size r) (si_read_buf_frames r) (si_proc_buf_size r) (si_proc_buf_in r)
    (si_proc_buf_frames r) (si_preprocessors r) (si_aux_changed r) (si_aux_channels r) .
#[global] Arguments set_si_pcm_devs _ _ /.
Definition set_si_standby (x : bool) (r : stream_in) : stream_in :=
  StreamIn (si_config r) (si_pcm_devs r) x (si_source r) (si_devices r) (si_main_channels r)
    (si_usecase r) (si_usecase_type r) (si_enable_aec r) (si_input_flags r)
    (si_requested_rate r) (si_resampler r) (si_read_status r) (si_read_buf r)
    (si_read_buf_size r) (si_read_buf_frames r) (si_proc_buf_size r) (si_proc_buf_in r)
    (si_proc_buf_frames r) (si_preprocessors r) (si_aux_changed r) (si_aux_channels r) .
#[global] Arguments set_si_standby _ _ /.
Definition set_si_source (x : Z) (r : stream_in) : stream_in :=
  StreamIn (si_config r) (si_pcm_devs r) (si_standby r) x (si_devices r) (si_main_channels r)
    (si_usecase r) (si_usecase_type r) (si_enable_aec r) (si_input_flags r)
    (si_requested_rate r) (si_resampler r) (si_read_status r) (si_read_buf r)
    (si_read_buf_size r) (si_read_buf_frames r) (si_proc_buf_size r) (si_proc_buf_in r)
    (si_proc_buf_frames r) (si_preprocessors r) (si_aux_changed r) (si_aux_channels r) .
#[global] Arguments set_si_source _ _ /.
Definition set_si_devices (x : Z) (r : stream_in) : stream_in :=
  StreamIn (si_config r) (si_pcm_devs r) (si_standby r) (si_source r) x (si_main_channels r)
    (si_usecase r) (si_usecase_type r) (si_enable_aec r) (si_input_flags r)
    (si_requested_rate r) (si_resampler r) (si_read_status r) (si_read_buf r)
    (si_read_buf_size r) (si_read_buf_frames r) (si_proc_buf_size r) (si_proc_buf_in r)
    (si_proc_buf_frames r) (si_preprocessors r) (si_aux_changed r) (si_aux_channels r) .
#[global] Arguments set_si_devices _ _ /.
Definition set_si_resampler (x : bool) (r : stream_in) : stream_in :=
  StreamIn (si_config r) (si_pcm_devs r) (si_standby r) (si_source r) (si_devices r)
    (si_main_channels r) (si_usecase r) (si_usecase_type r) (si_enable_aec r) (si_input_flags r)
    (si_requested_rate r) x (si_read_status r) (si_read_buf r) (si_read_buf_size r)
    (si_read_buf_frames r) (si_proc_buf_size r) (si_proc_buf_in r) (si_proc_buf_frames r)
    (si_preprocessors r) (si_aux_changed r) (si_aux_channels r) .
#[global] Arguments set_si_resampler _ _ /.
Definition set_si_read_status (x : Z) (r : stream_in) : stream_in :=
  StreamIn (si_config r) (si_pcm_devs r) (si_standby r) (si_source r) (si_devices r)
    (si_main_channels r) (si_usecase r) (si_usecase_type r) (si_enable_aec r) (si_input_flags r)
    (si_requested_rate r) (si_resampler r) x (si_read_buf r) (si_read_buf_size r)
    (si_read_buf_frames r) (si_proc_buf_size r) (si_proc_buf_in r) (si_proc_buf_frames r)
    (si_preprocessors r) (si_aux_changed r) (si_aux_channels r) .
#[global] Arguments set_si_read_status _ _ /.
Definition set_si_read_buf (x : list Z) (r : stream_in) : stream_in :=
  StreamIn (si_config r) (si_pcm_devs r) (si_standby r) (si_source r) (si_devices r)
    (si_main_channels r) (si_usecase r) (si_usecase_type r) (si_enable_aec r) (si_input_flags r)
    (si_requested_rate r) (si_resampler r) (si_read_status r) x (si_read_buf_size r)
    (si_read_buf_frames r) (si_proc_buf_size r) (si_proc_buf_in r) (si_proc_buf_frames r)
    (si_preprocessors r) (si_aux_changed r) (si_aux_channels r) .
#[global] Arguments set_si_read_buf _ _ /.
Definition set_si_read_buf_size (x : Z) (r : stream_in) : stream_in :=
  StreamIn (si_config r) (si_pcm_devs r) (si_standby r) (si_source r) (si_devices r)
    (si_main_channels r) (si_usecase r) (si_usecase_type r) (si_enable_aec r) (si_input_flags r)
    (si_requested_rate r) (si_resampler r) (si_read_status r) (si_read_buf r) x
    (si_read_buf_frames r) (si_proc_buf_size r) (si_proc_buf_in r) (si_proc_buf_frames r)
    (si_preprocessors r) (si_aux_changed r) (si_aux_channels r) .
#[global] Arguments set_si_read_buf_size _ _ /.
Definition set_si_read_buf_frames (x : Z) (r : stream_in) : stream_in :=
  StreamIn (si_config r) (si_pcm_devs r) (si_standby r) (si_source r) (si_devices r)
    (si_main_channels r) (si_usecase r) (si_usecase_type r) (si_enable_aec r) (si_input_flags r)
    (si_requested_rate r) (si_resampler r) (si_read_status r) (si_read_buf r)
    (si_read_buf_size r) x (si_proc_buf_size r) (si_proc_buf_in r) (si_proc_buf_frames r)
    (si_preprocessors r) (si_aux_changed r) (si_aux_channels r) .
#[global] Arguments set_si_read_buf_frames _ _ /.
Definition set_si_proc_buf_size (x : Z) (r : stream_in) : stream_in :=
  StreamIn (si_config r) (si_pcm_devs r) (si_standby r) (si_source r) (si_devices r)
    (si_main_channels r) (si_usecase r) (si_usecase_type r) (si_enable_aec r) (si_input_flags r)
    (si_requested_rate r) (si_resampler r) (si_read_status r) (si_read_buf r)
    (si_read_buf_size r) (si_read_buf_frames r) x (si_proc_buf_in r) (si_proc_buf_frames r)
    (si_preprocessors r) (si_aux_changed r) (si_aux_channels r) .
#[global] Arguments set_si_proc_buf_size _ _ /.
Definition set_si_proc_buf_in (x : list Z) (r : stream_in) : stream_in :=
  StreamIn (si_config r) (si_pcm_devs r) (si_standby r) (si_source r) (si_devices r)
    (si_main_channels r) (si_usecase r) (si_usecase_type r) (si_enable_aec r) (si_input_flags r)
    (si_requested_rate r) (si_resampler r) (si_read_status r) (si_read_buf r)
    (si_read_buf_size r) (si_read_buf_frames r) (si_proc_buf_size r) x (si_proc_buf_frames r)
    (si_preprocessors r) (si_aux_changed r) (si_aux_channels r) .
#[global] Arguments set_si_proc_buf_in _ _ /.
Definition set_si_proc_buf_frames (x : Z) (r : stream_in) : stream_in :=
  StreamIn (si_config r) (si_pcm_devs r) (si_standby r) (si_source r) (si_devices r)
    (si_main_channels r) (si_usecase r) (si_usecase_type r) (si_enable_aec r) (si_input_flags r)
    (si_requested_rate r) (si_resampler r) (si_read_status r) (si_read_buf r)
    (si_read_buf_size r) (si_read_buf_frames r) (si_proc_buf_size r) (si_proc_buf_in r) x
    (si_preprocessors r) (si_aux_changed r) (si_aux_channels r) .
#[global] Arguments set_si_proc_buf_frames _ _ /.
Definition set_si_preprocessors (x : list nat) (r : stream_in) : stream_in :=
  StreamIn (si_config r) (si_pcm_devs r) (si_standby r) (si_source r) (si_devices r)
    (si_main_channels r) (si_usecase r) (si_usecase_type r) (si_enable_aec r) (si_input_flags r)
    (si_requested_rate r) (si_resampler r) (si_read_status r) (si_read_buf r)
    (si_read_buf_size r) (si_read_buf_frames r) (si_proc_buf_size r) (si_proc_buf_in r)
    (si_proc_buf_frames r) x (si_aux_changed r) (si_aux_channels r) .
#[global] Arguments set_si_preprocessors _ _ /.
Definition set_si_aux_changed (x : bool) (r : stream_in) : stream_in :=
  StreamIn (si_config r) (si_pcm_devs r) (si_standby r) (si_source r) (si_devices r)
    (si_main_channels r) (si_usecase r) (si_usecase_type r) (si_enable_aec r) (si_input_flags r)
    (si_requested_rate r) (si_resampler r) (si_read_status r) (si_read_buf r)
    (si_read_buf_size r) (si_read_buf_frames r) (si_proc_buf_size r) (si_proc_buf_in r)
    (si_proc_buf_frames r) (si_preprocessors r) x (si_aux_channels r) .
#[global] Arguments set_si_aux_changed _ _ /.
Definition set_si_aux_channels (x : Z) (r : stream_in) : stream_in :=
  StreamIn (si_config r) (si_pcm_devs r) (si_standby r) (si_source r) (si_devices r)
    (si_main_channels r) (si_usecase r) (si_usecase_type r) (si_enable_aec r) (si_input_flags r)
    (si_requested_rate r) (si_resampler r) (si_read_status r) (si_read_buf r)
    (si_read_buf_size r) (si_read_buf_frames r) (si_proc_buf_size r) (si_proc_buf_in r)
    (si_proc_buf_frames r) (si_preprocessors r) (si_aux_changed r) x.
#[global] Arguments set_si_aux_channels _ _ /.

Definition set_uc_devices (x : Z) (r : audio_usecase) : audio_usecase :=
  Usecase (uc_loc r) (uc_id r) (uc_type r) x (uc_out r) (uc_in r) (uc_stream r) (uc_mixers r) .
#[global] Arguments set_uc_devices _ _ /.
Definition set_uc_out (x : Z) (r : audio_usecase) : audio_usecase :=
  Usecase (uc_loc r) (uc_id r) (uc_type r) (uc_devices r) x (uc_in r) (uc_stream r)
    (uc_mixers r) .
#[global] Arguments set_uc_out _ _ /.
Definition set_uc_in (x : Z) (r : audio_usecase) : audio_usecase :=
  Usecase (uc_loc r) (uc_id r) (uc_type r) (uc_devices r) (uc_out r) x (uc_stream r)
    (uc_mixers r) .
#[global] Arguments set_uc_in _ _ /.
Definition set_uc_mixers (x : list Z) (r : audio_usecase) : audio_usecase :=
  Usecase (uc_loc r) (uc_id r) (uc_type r) (uc_devices r) (uc_out r) (uc_in r) (uc_stream r) x.
#[global] Arguments set_uc_mixers _ _ /.

Definition set_ad_mixers (x : list Z) (r : audio_device) : audio_device :=
  AudioDevice x (ad_mode r) (ad_active_input r) (ad_primary r) (ad_in_call r) (ad_mic_mute r)
    (ad_tty_mode r) (ad_bluetooth_nrec r) (ad_screen_off r) (ad_ref_cnt r) (ad_usecases r)
    (ad_lr_swap r) (ad_dualmic r) (ad_ns r) (ad_st r) .
#[global] Arguments set_ad_mixers _ _ /.
Definition set_ad_mode (x : Z) (r : audio_device) : audio_device :=
  AudioDevice (ad_mixers r) x (ad_active_input r) (ad_primary r) (ad_in_call r) (ad_mic_mute r)
    (ad_tty_mode r) (ad_bluetooth_nrec r) (ad_screen_off r) (ad_ref_cnt r) (ad_usecases r)
    (ad_lr_swap r) (ad_dualmic r) (ad_ns r) (ad_st r) .
#[global] Arguments set_ad_mode _ _ /.
Definition set_ad_active_input (x : option nat) (r : audio_device) : audio_device :=
  AudioDevice (ad_mixers r) (ad_mode r) x (ad_primary r) (ad_in_call r) (ad_mic_mute r)
    (ad_tty_mode r) (ad_bluetooth_nrec r) (ad_screen_off r) (ad_ref_cnt r) (ad_usecases r)
    (ad_lr_swap r) (ad_dualmic r) (ad_ns r) (ad_st r) .
#[global] Arguments set_ad_active_input _ _ /.
Definition set_ad_primary (x : option nat) (r : audio_device) : audio_device :=
  AudioDevice (ad_mixers r) (ad_mode r) (ad_active_input r) x (ad_in_call r) (ad_mic_mute r)
    (ad_tty_mode r) (ad_bluetooth_nrec r) (ad_screen_off r) (ad_ref_cnt r) (ad_usecases r)
    (ad_lr_swap r) (ad_dualmic r) (ad_ns r) (ad_st r) .
#[global] Arguments set_ad_primary _ _ /.
Definition set_ad_in_call (x : bool) (r : audio_device) : audio_device :=
  AudioDevice (ad_mixers r) (ad_mode r) (ad_active_input r) (ad_primary r) x (ad_mic_mute r)
    (ad_tty_mode r) (ad_bluetooth_nrec r) (ad_screen_off r) (ad_ref_cnt r) (ad_usecases r)
    (ad_lr_swap r) (ad_dualmic r) (ad_ns r) (ad_st r) .
#[global] Arguments set_ad_in_call _ _ /.
Definition set_ad_mic_mute (x : bool) (r : audio_device) : audio_device :=
  AudioDevice (ad_mixers r) (ad_mode r) (ad_active_input r) (ad_primary r) (ad_in_call r) x
    (ad_tty_mode r) (ad_bluetooth_nrec r) (ad_screen_off r) (ad_ref_cnt r) (ad_usecases r)
    (ad_lr_swap r) (ad_dualmic r) (ad_ns r) (ad_st r) .
#[global] Arguments set_ad_mic_mute _ _ /.
Definition set_ad_tty_mode (x : Z) (r : audio_device) : audio_device :=
  AudioDevice (ad_mixers r) (ad_mode r) (ad_active_input r) (ad_primary r) (ad_in_call r)
    (ad_mic_mute r) x (ad_bluetooth_nrec r) (ad_screen_off r) (ad_ref_cnt r) (ad_usecases r)
    (ad_lr_swap r) (ad_dualmic r) (ad_ns r) (ad_st r) .
#[global] Arguments set_ad_tty_mode _ _ /.
Definition set_ad_bluetooth_nrec (x : bool) (r : audio_device) : audio_device :=
  AudioDevice (ad_mixers r) (ad_mode r) (ad_active_input r) (ad_primary r) (ad_in_call r)
    (ad_mic_mute r) (ad_tty_mode r) x (ad_screen_off r) (ad_ref_cnt r) (ad_usecases r)
    (ad_lr_swap r) (ad_dualmic r) (ad_ns r) (ad_st r) .
#[global] Arguments set_ad_bluetooth_nrec _ _ /.
Definition set_ad_screen_off (x : bool) (r : audio_device) : audio_device :=
  AudioDevice (ad_mixers r) (ad_mode r) (ad_active_input r) (ad_primary r) (ad_in_call r)
    (ad_mic_mute r) (ad_tty_mode r) (ad_bluetooth_nrec r) x (ad_ref_cnt r) (ad_usecases r)
    (ad_lr_swap r) (ad_dualmic r) (ad_ns r) (ad_st r) .
#[global] Arguments set_ad_screen_off _ _ /.
Definition set_ad_ref_cnt (x : list Z) (r : audio_device) : audio_device :=
  AudioDevice (ad_mixers r) (ad_mode r) (ad_active_input r) (ad_primary r) (ad_in_call r)
    (ad_mic_mute r) (ad_tty_mode r) (ad_bluetooth_nrec r) (ad_screen_off r) x (ad_usecases r)
    (ad_lr_swap r) (ad_dualmic r) (ad_ns r) (ad_st r) .
#[global] Arguments set_ad_ref_cnt _ _ /.
Definition set_ad_usecases (x : list audio_usecase) (r : audio_device) : audio_device :=
  AudioDevice (ad_mixers r) (ad_mode r) (ad_active_input r) (ad_primary r) (ad_in_call r)
    (ad_mic_mute r) (ad_tty_mode r) (ad_bluetooth_nrec r) (ad_screen_off r) (ad_ref_cnt r) x
    (ad_lr_swap r) (ad_dualmic r) (ad_ns r) (ad_st r) .
#[global] Arguments set_ad_usecases _ _ /.
Definition set_ad_lr_swap (x : bool) (r : audio_device) : audio_device :=
  AudioDevice (ad_mixers r) (ad_mode r) (ad_active_input r) (ad_primary r) (ad_in_call r)
    (ad_mic_mute r) (ad_tty_mode r) (ad_bluetooth_nrec r) (ad_screen_off r) (ad_ref_cnt r)
    (ad_usecases r) x (ad_dualmic r) (ad_ns r) (ad_st r) .
#[global] Arguments set_ad_lr_swap _ _ /.

(** ** The tables of audio_hw.c *)

Declare Scope audio_scope.
Delimit Scope audio_scope with audio.
#[global] Open Scope audio_scope.

(** a | b, and the test of a & b. *)
Notation "a |. b" := (Z.lor a b) (at level 45, left associativity) : audio_scope.
Definition has (a b : Z) : bool := negb (Z.land a b =? 0)%Z.

Definition pcm_device_playback_hs : pcm_device_profile :=
  PcmProfile (PcmConfig PLAYBACK_DEFAULT_CHANNEL_COUNT PLAYBACK_DEFAULT_SAMPLING_RATE PLAYBACK_PERIOD_SIZE PLAYBACK_PERIOD_COUNT
      PCM_FORMAT_S16_LE PLAYBACK_START_THRESHOLD PLAYBACK_STOP_THRESHOLD 0 PLAYBACK_AVAILABLE_MIN)
    SOUND_CARD 0 1 PCM_PLAYBACK 
    (AUDIO_DEVICE_OUT_WIRED_HEADSET |. AUDIO_DEVICE_OUT_WIRED_HEADPHONE) (Some "invert_lr").
Definition pcm_device_capture : pcm_device_profile :=
  PcmProfile (PcmConfig CAPTURE_DEFAULT_CHANNEL_COUNT CAPTURE_DEFAULT_SAMPLING_RATE CAPTURE_PERIOD_SIZE CAPTURE_PERIOD_COUNT
      PCM_FORMAT_S16_LE CAPTURE_START_THRESHOLD 0 0 0)
    SOUND_CARD 0 2 PCM_CAPTURE 
    (AUDIO_DEVICE_IN_BUILTIN_MIC |. AUDIO_DEVICE_IN_WIRED_HEADSET |. AUDIO_DEVICE_IN_BACK_MIC) None.
Definition pcm_device_capture_loopback_aec : pcm_device_profile :=
  PcmProfile (PcmConfig CAPTURE_DEFAULT_CHANNEL_COUNT CAPTURE_DEFAULT_SAMPLING_RATE CAPTURE_PERIOD_SIZE CAPTURE_PERIOD_COUNT
      PCM_FORMAT_S16_LE CAPTURE_START_THRESHOLD 0 0 0)
    SOUND_CARD 1 3 PCM_CAPTURE SND_DEVICE_IN_LOOPBACK_AEC None.
Definition pcm_device_playback_spk_and_headset : pcm_device_profile :=
  PcmProfile (PcmConfig PLAYBACK_DEFAULT_CHANNEL_COUNT PLAYBACK_DEFAULT_SAMPLING_RATE PLAYBACK_PERIOD_SIZE PLAYBACK_PERIOD_COUNT
      PCM_FORMAT_S16_LE PLAYBACK_START_THRESHOLD PLAYBACK_STOP_THRESHOLD 0 PLAYBACK_AVAILABLE_MIN)
    SOUND_CARD 0 4 PCM_PLAYBACK 
    (AUDIO_DEVICE_OUT_SPEAKER |. AUDIO_DEVICE_OUT_WIRED_HEADSET |. AUDIO_DEVICE_OUT_WIRED_HEADPHONE) 
    (Some "speaker_eq").
Definition pcm_device_playback_spk : pcm_device_profile :=
  PcmProfile (PcmConfig PLAYBACK_DEFAULT_CHANNEL_COUNT PLAYBACK_DEFAULT_SAMPLING_RATE PLAYBACK_PERIOD_SIZE PLAYBACK_PERIOD_COUNT
      PCM_FORMAT_S16_LE PLAYBACK_START_THRESHOLD PLAYBACK_STOP_THRESHOLD 0 PLAYBACK_AVAILABLE_MIN)
    SOUND_CARD 0 5 PCM_PLAYBACK AUDIO_DEVICE_OUT_SPEAKER (Some "speaker_eq").
Definition pcm_device_hotword_streaming : pcm_device_profile :=
  PcmProfile (PcmConfig 1 16000 CAPTURE_PERIOD_SIZE CAPTURE_PERIOD_COUNT
      PCM_FORMAT_S16_LE CAPTURE_START_THRESHOLD 0 0 0)
    SOUND_CARD 0 0 PCM_HOTWORD_STREAMING 
    (AUDIO_DEVICE_IN_BUILTIN_MIC |. AUDIO_DEVICE_IN_WIRED_HEADSET |. AUDIO_DEVICE_IN_BACK_MIC) None.

Definition pcm_devices : list pcm_device_profile :=
  [pcm_device_playback_hs; pcm_device_capture; pcm_device_playback_spk;
   pcm_device_capture_loopback_aec; pcm_device_playback_spk_and_headset;
   pcm_device_hotword_streaming].

Definition pcm_config_deep_buffer : pcm_config :=
  PcmConfig 2 DEEP_BUFFER_OUTPUT_SAMPLING_RATE DEEP_BUFFER_OUTPUT_PERIOD_SIZE
    DEEP_BUFFER_OUTPUT_PERIOD_COUNT PCM_FORMAT_S16_LE (DEEP_BUFFER_OUTPUT_PERIOD_SIZE / 4)
    INT_MAX 0 (DEEP_BUFFER_OUTPUT_PERIOD_SIZE / 4).

(** The names of the mixer paths. *)
Definition device_table : list string :=
  ["none"; "handset"; "speaker"; "headphones"; "speaker-and-headphones"; "voice-handset";
   "voice-speaker"; "voice-headphones"; "hdmi"; "speaker-and-hdmi";
   "voice-tty-full-headphones"; "voice-tty-vco-headphones"; "voice-tty-hco-handset";
   "handset-mic"; "speaker-mic"; "headset-mic"; "handset-mic"; "voice-speaker-mic";
   "headset-mic"; "voice-speaker-mic"; "voice-headset-mic"; "hdmi-mic"; "camcorder-mic";
   "voice-dmic-1"; "voice-speaker-dmic-1"; "voice-tty-full-headset-mic";
   "voice-tty-vco-handset-mic"; "voice-tty-hco-headset-mic"; "voice-rec-headset-mic";
   "voice-rec-mic"; "voice-rec-dmic-1"; "voice-rec-dmic-ns-1"; "loopback-aec"].

(** ** The surroundings *)

(** What pcm_open returns: NULL when memory is short, a PCM that is not ready
    (and that may be closed any number of times), or an open PCM. *)
Variant pcm_answer : Type := NoPcm | NotReady | Ready.

(** Answers of the libraries, each a function of the number of questions asked
    before: tinyalsa, the resampler (0 or a negative error), the functions of
    the sound trigger library, the commands of an effect. *)
Class AudioEnv := {
  mixer_open_answer : nat -> bool;
  audio_route_init_answer : nat -> bool;
  pcm_open_answer : nat -> pcm_answer;
  create_resampler_answer : nat -> Z;
  pcm_read_answer : nat -> Z * list Z;
  pcm_write_answer : nat -> Z;
  pcm_htimestamp_answer : nat -> Z * Z;
  st_open_answer : nat -> Z;
  st_read_answer : nat -> Z;
  effect_descriptor_answer : nat -> Z;
  effect_command_answer : nat -> Z * Z
}.

(** The fields of a struct stream_in that the code reads through a pointer. *)
Record in_view : Type := InView {
  v_source : Z;
  v_devices : Z;
  v_main_channels : Z;
  v_enable_aec : bool;
  v_usecase : Z
}.

(** Functions of system/audio.h, hardware/audio.h and audio_utils; the size of a
    frame is a function of the channels and the format of the stream.
    [misread] is what the code gets that reads an output stream as if it were an
    input stream. *)
Class AudioLib := {
  audio_channel_count_from_in_mask : Z -> Z;
  audio_channel_count_from_out_mask : Z -> Z;
  audio_bytes_per_sample : Z -> Z;
  in_frame_size : Z -> Z -> Z;
  out_frame_size : Z -> Z -> Z;
  adjust_channels : list Z -> Z -> Z -> list Z;
  misread : stream_out -> in_view
}.

(** The operations of cras_dsp.c on its state [D], contexts known by numbers. *)
Class DspContexts (D : Type) := {
  dsp_init : string -> D -> outcome D;
  dsp_context_new : Z -> string -> D -> outcome (option nat * D);
  dsp_set_variable : nat -> string -> string -> D -> outcome D;
  dsp_load_pipeline : nat -> D -> outcome D;
  dsp_context_free : nat -> D -> outcome D;
  dsp_pipeline_apply : nat -> list Z -> D -> outcome (list Z * D)
}.

(** The book of what the code has of the system: the PCMs it has opened and
    not closed, the handles of the sound trigger, the mixer paths that were
    applied to each audio_route and not reset, those the mixer was updated to,
    what was written to PCMs, and the number of answers it got. *)
Record kernel : Type := Kernel {
  k_pcms : gset nat;
  k_next_pcm : nat;
  k_streaming : gset Z;
  k_pending : gmap Z (gset string);
  k_live : gmap Z (gset string);
  k_written : list (nat * list Z);
  k_calls : nat
}.

Record state (D : Type) : Type := State {
  st_adev : audio_device;
  st_outs : gmap nat stream_out;
  st_ins : gmap nat stream_in;
  st_profiles : list pcm_device_profile;
  st_nodes : gmap (Z * Z) nat;
  st_next : nat;
  st_kernel : kernel;
  st_dsp : D
}.
#[global] Arguments State {D}.
#[global] Arguments st_adev {D}.
#[global] Arguments st_outs {D}.
#[global] Arguments st_ins {D}.
#[global] Arguments st_profiles {D}.
#[global] Arguments st_nodes {D}.
#[global] Arguments st_next {D}.
#[global] Arguments st_kernel {D}.
#[global] Arguments st_dsp {D}.

(** ** Computations on the state *)

Section Monad.
Context {D : Type}.

Definition M (A : Type) : Type := state D -> outcome (A * state D).

#[export] Instance M_ret : MRet M := fun A a s => Done (a, s).
#[export] Instance M_bind : MBind M := fun A B f m s => '(a, s) ← m s; f a s.

Definition get : M (state D) := fun s => Done (s, s).
Definition modify (f : state D -> state D) : M unit := fun s => Done (tt, f s).
Definition lift {A} (m : outcome A) : M A := fun s => a ← m; Done (a, s).
Definition when (b : bool) (m : M unit) : M unit := if b then m else mret tt.

Definition on_adev (f : audio_device -> audio_device) (s : state D) : state D :=
  State (f (st_adev s)) (st_outs s) (st_ins s) (st_profiles s) (st_nodes s) (st_next s)
    (st_kernel s) (st_dsp s).
Definition on_outs (f : gmap nat stream_out -> gmap nat stream_out) (s : state D) : state D :=
  State (st_adev s) (f (st_outs s)) (st_ins s) (st_profiles s) (st_nodes s) (st_next s)
    (st_kernel s) (st_dsp s).
Definition on_ins (f : gmap nat stream_in -> gmap nat stream_in) (s : state D) : state D :=
  State (st_adev s) (st_outs s) (f (st_ins s)) (st_profiles s) (st_nodes s) (st_next s)
    (st_kernel s) (st_dsp s).
Definition on_profiles (f : list pcm_device_profile -> list pcm_device_profile)
    (s : state D) : state D :=
  State (st_adev s) (st_outs s) (st_ins s) (f (st_profiles s)) (st_nodes s) (st_next s)
    (st_kernel s) (st_dsp s).
Definition on_nodes (f : gmap (Z * Z) nat -> gmap (Z * Z) nat) (s : state D) : state D :=
  State (st_adev s) (st_outs s) (st_ins s) (st_profiles s) (f (st_nodes s)) (st_next s)
    (st_kernel s) (st_dsp s).
Definition on_kernel (f : kernel -> kernel) (s : state D) : state D :=
  State (st_adev s) (st_outs s) (st_ins s) (st_profiles s) (st_nodes s) (st_next s)
    (f (st_kernel s)) (st_dsp s).
Definition with_dsp {A} (f : D -> outcome (A * D)) : M A := fun s =>
  '(a, d) ← f (st_dsp s);
  Done (a, State (st_adev s) (st_outs s) (st_ins s) (st_profiles s) (st_nodes s) (st_next s)
    (st_kernel s) d).

(** A fresh address, for a structure or a stream. *)
Definition fresh_loc : M nat := fun s =>
  Done (st_next s, State (st_adev s) (st_outs s) (st_ins s) (st_profiles s) (st_nodes s)
    (S (st_next s)) (st_kernel s) (st_dsp s)).

Definition adev : M audio_device := s ← get; mret (st_adev s).
Definition set_adev (f : audio_device -> audio_device) : M unit := modify (on_adev f).

(** Following a pointer to a stream: undefined when it was freed. *)
Definition the_out (h : nat) : M stream_out := s ← get; lift (access (st_outs s !! h)).
Definition the_in (h : nat) : M stream_in := s ← get; lift (access (st_ins s !! h)).
Definition set_out (h : nat) (f : stream_out -> stream_out) : M unit :=
  o ← the_out h; modify (on_outs (insert h (f o))).
Definition set_in (h : nat) (f : stream_in -> stream_in) : M unit :=
  i ← the_in h; modify (on_ins (insert h (f i))).

(** The profile a pointer points to. *)
Definition the_profile (i : nat) : M pcm_device_profile :=
  s ← get; lift (access (st_profiles s !! i)).

(** A loop over a list. *)
Fixpoint for_each {A} (f : A -> M unit) (l : list A) : M unit :=
  match l with [] => mret tt | x :: l => f x;; for_each f l end.

(** ** Calls of the libraries *)

Definition on_calls (f : nat -> nat) (k : kernel) : kernel :=
  Kernel (k_pcms k) (k_next_pcm k) (k_streaming k) (k_pending k) (k_live k) (k_written k)
    (f (k_calls k)).
Definition on_pcms (f : gset nat -> gset nat) (k : kernel) : kernel :=
  Kernel (f (k_pcms k)) (k_next_pcm k) (k_streaming k) (k_pending k) (k_live k) (k_written k)
    (k_calls k).
Definition on_streaming (f : gset Z -> gset Z) (k : kernel) : kernel :=
  Kernel (k_pcms k) (k_next_pcm k) (f (k_streaming k)) (k_pending k) (k_live k) (k_written k)
    (k_calls k).
Definition on_pending (f : gmap Z (gset string) -> gmap Z (gset string)) (k : kernel) : kernel :=
  Kernel (k_pcms k) (k_next_pcm k) (k_streaming k) (f (k_pending k)) (k_live k) (k_written k)
    (k_calls k).
Definition on_live (f : gmap Z (gset string) -> gmap Z (gset string)) (k : kernel) : kernel :=
  Kernel (k_pcms k) (k_next_pcm k) (k_streaming k) (k_pending k) (f (k_live k)) (k_written k)
    (k_calls k).

(** The next answer. *)
Definition ask {A} (answer : nat -> A) : M A :=
  s ← get; modify (on_kernel (on_calls S));; mret (answer (k_calls (st_kernel s))).

(** The paths of the audio_route of a card. *)
Definition paths (m : gmap Z (gset string)) (card : Z) : gset string := default ∅ (m !! card).

Definition audio_route_apply_path (card : Z) (path : string) : M unit :=
  modify (on_kernel (on_pending (fun m => <[card := {[path]} ∪ paths m card]> m))).
Definition audio_route_reset_path (card : Z) (path : string) : M unit :=
  modify (on_kernel (on_pending (fun m => <[card := paths m card ∖ {[path]}]> m))).
Definition audio_route_update_mixer (card : Z) : M unit :=
  modify (on_kernel (fun k => on_live (fun m => <[card := paths (k_pending k) card]> m) k)).

(** pcm_open followed by pcm_is_ready. *)
Definition pcm_open `{AudioEnv} : M (pcm_answer * nat) :=
  a ← ask pcm_open_answer;
  s ← get;
  let n := k_next_pcm (st_kernel s) in
  match a with
  | Ready =>
      modify (on_kernel (fun k =>
        Kernel ({[n]} ∪ k_pcms k) (S n) (k_streaming k) (k_pending k) (k_live k) (k_written k)
          (k_calls k)));;
      mret (Ready, n)
  | a => mret (a, n)
  end.

(** Closing a PCM that is not open is undefined. *)
Definition pcm_close (n : nat) : M unit :=
  s ← get;
  if decide (n ∈ k_pcms (st_kernel s)) then modify (on_kernel (on_pcms (fun p => p ∖ {[n]})))
  else lift Fault.

End Monad.
#[global] Arguments M D A : clear implicits.
