(* ===== verification/AudioDevices.v ===== *)
(** * AudioDevices: mixers, use cases and sound devices, audio/hal/audio_hw.c

    Which PCM profile and which sound devices go with a routing, and the
    selection of the devices of a use case: the sound devices are counted, and
    the first use and the last one write the mixer paths. *)

From S2P Require Import Prelude CString AudioDefs.

Open Scope Z_scope.

Section Devices.
Context {D : Type} `{AudioLib} `{AudioEnv}.

(** ** The mixers *)

Definition adev_get_mixer_for_card (card : Z) : M D (option Z) :=
  a ← adev; mret (find (Z.eqb card) (ad_mixers a)).

Definition RETRY_NUMBER : Z := 10.

(** The loop that opens the mixer, with the number of attempts that are left. *)
Fixpoint mixer_retry (todo : nat) (retry_num : Z) : M D (option unit) :=
  ok ← ask mixer_open_answer;
  if (ok : bool) then mret (Some tt)
  else
    let retry_num := retry_num + 1 in
    if RETRY_NUMBER <? retry_num then mret None
    else match todo with O => lift Timeout | S todo => mixer_retry todo retry_num end.

(** audio_route_free of all the cards. *)
Definition free_mixer_list : M D unit := set_adev (set_ad_mixers []).

(** The label error of mixer_init. *)
Definition mixer_error : M D Z := free_mixer_list;; mret (- ENODEV).

Fixpoint mixer_init_loop (profiles : list pcm_device_profile) : M D Z :=
  match profiles with
  | [] => mret 0
  | p :: profiles =>
      let card := pp_card p in
      m ← adev_get_mixer_for_card card;
      match m with
      | Some _ => mixer_init_loop profiles
      | None =>
          o ← mixer_retry (Z.to_nat RETRY_NUMBER) 0;
          match o with
          | None => mixer_error
          | Some _ =>
              ok ← ask audio_route_init_answer;
              if negb ok then mixer_error
              else set_adev (fun a => set_ad_mixers (ad_mixers a ++ [card]) a);; mixer_init_loop profiles
          end
      end
  end.

(** resolveConfigFile chooses the directory of the file of paths. *)
Definition mixer_init : M D Z :=
  set_adev (set_ad_mixers []);; s ← get; mixer_init_loop (st_profiles s).

(** The directories resolveConfigFile tries, and the first that has the file. *)
Definition kConfigLocationList : list string := ["/odm/etc"; "/vendor/etc"; "/system/etc"]%string.

Definition resolveConfigFile (exists_file : string -> bool) (file_name : string) : string * bool :=
  match find exists_file ((fun dir => dir +:+ "/" +:+ file_name)%string <$> kConfigLocationList) with
  | Some full => (full, true)
  | None => (file_name, false)
  end.

(** ** Sound devices *)

Definition get_snd_device_name (snd_device : Z) : option string :=
  if (SND_DEVICE_MIN <=? snd_device) && (snd_device <? SND_DEVICE_MAX)
  then device_table !! Z.to_nat snd_device else None.

Definition get_snd_device_display_name (snd_device : Z) : string :=
  default "SND DEVICE NOT FOUND"%string (get_snd_device_name snd_device).

Definition get_pcm_device (profiles : list pcm_device_profile) (uc_type devices : Z) : option nat :=
  let devices := Z.land devices (Z.lnot AUDIO_DEVICE_BIT_IN) in
  if devices =? 0 then None
  else find_idx (fun p => (pp_type p =? uc_type) && (Z.land devices (pp_devices p) =? devices)) profiles.

(** The number of bits of a 32-bit word. *)
Fixpoint popcount_bits (n : nat) (x : Z) : Z :=
  match n with O => 0 | S n => (x mod 2) + popcount_bits n (x / 2) end.
Definition popcount (x : Z) : Z := popcount_bits 32 x.

(** The devices of a call; SND_DEVICE_NONE when nothing fits. *)
Definition call_output_snd_device (tty_mode devices : Z) : Z :=
  if has devices AUDIO_DEVICE_OUT_WIRED_HEADPHONE || has devices AUDIO_DEVICE_OUT_WIRED_HEADSET then
    if tty_mode =? TTY_MODE_FULL then SND_DEVICE_OUT_VOICE_TTY_FULL_HEADPHONES
    else if tty_mode =? TTY_MODE_VCO then SND_DEVICE_OUT_VOICE_TTY_VCO_HEADPHONES
    else if tty_mode =? TTY_MODE_HCO then SND_DEVICE_OUT_VOICE_TTY_HCO_HANDSET
    else SND_DEVICE_OUT_VOICE_HEADPHONES
  else if has devices AUDIO_DEVICE_OUT_SPEAKER then SND_DEVICE_OUT_VOICE_SPEAKER
  else if has devices AUDIO_DEVICE_OUT_EARPIECE then SND_DEVICE_OUT_HANDSET
  else SND_DEVICE_NONE.

(** The devices outside of a call. *)
Definition media_output_snd_device (devices : Z) : Z :=
  if popcount devices =? 2 then
    if devices =? (AUDIO_DEVICE_OUT_WIRED_HEADPHONE |. AUDIO_DEVICE_OUT_SPEAKER) then
      SND_DEVICE_OUT_SPEAKER_AND_HEADPHONES
    else if devices =? (AUDIO_DEVICE_OUT_WIRED_HEADSET |. AUDIO_DEVICE_OUT_SPEAKER) then
      SND_DEVICE_OUT_SPEAKER_AND_HEADPHONES
    else SND_DEVICE_NONE
  else if negb (popcount devices =? 1) then SND_DEVICE_NONE
  else if has devices AUDIO_DEVICE_OUT_WIRED_HEADPHONE || has devices AUDIO_DEVICE_OUT_WIRED_HEADSET then
    SND_DEVICE_OUT_HEADPHONES
  else if has devices AUDIO_DEVICE_OUT_SPEAKER then SND_DEVICE_OUT_SPEAKER
  else if has devices AUDIO_DEVICE_OUT_EARPIECE then SND_DEVICE_OUT_HANDSET
  else SND_DEVICE_NONE.

Definition get_output_snd_device (a : audio_device) (devices : Z) : Z :=
  if (devices =? AUDIO_DEVICE_NONE) || has devices AUDIO_DEVICE_BIT_IN then SND_DEVICE_NONE
  else
    let snd_device :=
      if ad_mode a =? AUDIO_MODE_IN_CALL then call_output_snd_device (ad_tty_mode a) devices
      else SND_DEVICE_NONE in
    if negb (snd_device =? SND_DEVICE_NONE) then snd_device else media_output_snd_device devices.

(** ** Use cases *)

Definition get_usecase_from_id (a : audio_device) (id : Z) : option audio_usecase :=
  find (fun u => uc_id u =? id) (ad_usecases a).

Definition get_usecase_from_type (a : audio_device) (type : Z) : option audio_usecase :=
  find (fun u => has (uc_type u) type) (ad_usecases a).

(** Writing to the use case a pointer points to. *)
Definition set_usecase (loc : nat) (f : audio_usecase -> audio_usecase) : M D unit :=
  set_adev (fun a =>
    set_ad_usecases ((fun u => if Nat.eqb (uc_loc u) loc then f u else u) <$> ad_usecases a) a).

(** Following a pointer to a use case. *)
Definition the_usecase (loc : nat) : M D audio_usecase :=
  a ← adev; lift (access (find (fun u => Nat.eqb (uc_loc u) loc) (ad_usecases a))).

(** list_remove of its node, and free. *)
Definition remove_usecase (loc : nat) : M D unit :=
  set_adev (fun a =>
    set_ad_usecases (filter (fun u => uc_loc u <> loc) (ad_usecases a)) a).

(** Following the list of mixers of a use case: the node of a card leads back
    to the head of the list it was added to last. *)
Fixpoint mixers_of (u : audio_usecase) (l : list Z) : M D (list Z) :=
  match l with
  | [] => mret []
  | card :: l =>
      s ← get;
      if decide (st_nodes s !! (card, uc_id u) = Some (uc_loc u))
      then cards ← mixers_of u l; mret (card :: cards)
      else lift Fault
  end.

Definition uc_get_mixer_for_card (u : audio_usecase) (card : Z) : M D (option Z) :=
  l ← mixers_of u (uc_mixers u); mret (find (Z.eqb card) l).

(** list_add_tail(&usecase->mixer_list, &mixer_card->uc_list_node[usecase->id]). *)
Definition add_mixer (u : audio_usecase) (card : option Z) : M D audio_usecase :=
  card ← lift (access card);
  modify (on_nodes (fun m => <[(card, uc_id u) := uc_loc u]> m));;
  mret (set_uc_mixers (uc_mixers u ++ [card]) u).

(** *** What an input stream is recorded from *)

(** The stream of a use case, read as an input stream. *)
Definition view_of_in (i : stream_in) : in_view :=
  InView (si_source i) (si_devices i) (si_main_channels i) (si_enable_aec i) (si_usecase i).

Definition view_stream (st : stream) : M D in_view :=
  match st with
  | InStream h => i ← the_in h; mret (view_of_in i)
  | OutStream h => o ← the_out h; mret (misread o)
  end.

(** active_input: the stream of the first use case that captures or is a call. *)
Definition active_view : M D (option in_view) :=
  a ← adev;
  match get_usecase_from_type a (PCM_CAPTURE |. VOICE_CALL) with
  | None => mret None
  | Some u => v ← view_stream (uc_stream u); mret (Some v)
  end.

(** A call: [None] goes to the label exit with SND_DEVICE_NONE, [Some] gives
    the device found, which may be SND_DEVICE_NONE. *)
Definition call_input_snd_device (tty_mode out_device : Z) : Z * bool :=
  if out_device =? AUDIO_DEVICE_NONE then (SND_DEVICE_NONE, true)
  else if negb (tty_mode =? TTY_MODE_OFF) &&
      (has out_device AUDIO_DEVICE_OUT_WIRED_HEADPHONE || has out_device AUDIO_DEVICE_OUT_WIRED_HEADSET) then
    ((if tty_mode =? TTY_MODE_FULL then SND_DEVICE_IN_VOICE_TTY_FULL_HEADSET_MIC
      else if tty_mode =? TTY_MODE_VCO then SND_DEVICE_IN_VOICE_TTY_VCO_HANDSET_MIC
      else if tty_mode =? TTY_MODE_HCO then SND_DEVICE_IN_VOICE_TTY_HCO_HEADSET_MIC
      else SND_DEVICE_NONE), true)
  else
    ((if has out_device AUDIO_DEVICE_OUT_EARPIECE || has out_device AUDIO_DEVICE_OUT_WIRED_HEADPHONE
      then SND_DEVICE_IN_HANDSET_MIC
      else if has out_device AUDIO_DEVICE_OUT_WIRED_HEADSET then SND_DEVICE_IN_VOICE_HEADSET_MIC
      else if has out_device AUDIO_DEVICE_OUT_SPEAKER then SND_DEVICE_IN_VOICE_SPEAKER_MIC
      else SND_DEVICE_NONE), false).

Definition recognition_snd_device (a : audio_device) (in_device channel_mask : Z) : Z :=
  if has in_device AUDIO_DEVICE_IN_BUILTIN_MIC then
    let snd_device :=
      if ad_dualmic a =? DUALMIC_CONFIG_1 then
        if channel_mask =? AUDIO_CHANNEL_IN_FRONT_BACK then SND_DEVICE_IN_VOICE_REC_DMIC_1
        else if ad_ns a then SND_DEVICE_IN_VOICE_REC_DMIC_NS_1
        else SND_DEVICE_NONE
      else SND_DEVICE_NONE in
    if snd_device =? SND_DEVICE_NONE then SND_DEVICE_IN_VOICE_REC_MIC else snd_device
  else if has in_device AUDIO_DEVICE_IN_WIRED_HEADSET then SND_DEVICE_IN_VOICE_REC_HEADSET_MIC
  else SND_DEVICE_NONE.

(** The devices with echo cancellation. *)
Definition aec_snd_device (in_device out_device : Z) : Z :=
  if has in_device AUDIO_DEVICE_IN_BACK_MIC then SND_DEVICE_IN_SPEAKER_MIC_AEC
  else if has in_device AUDIO_DEVICE_IN_BUILTIN_MIC then
    if has out_device AUDIO_DEVICE_OUT_WIRED_HEADPHONE then SND_DEVICE_IN_SPEAKER_MIC_AEC
    else SND_DEVICE_IN_HANDSET_MIC_AEC
  else if has in_device AUDIO_DEVICE_IN_WIRED_HEADSET then SND_DEVICE_IN_HEADSET_MIC_AEC
  else SND_DEVICE_NONE.

(** The last part: by the input device, or by the output device. *)
Definition default_input_snd_device (in_device out_device : Z) : Z :=
  if negb (in_device =? AUDIO_DEVICE_NONE) && negb (has in_device AUDIO_DEVICE_IN_VOICE_CALL) &&
     negb (has in_device AUDIO_DEVICE_IN_COMMUNICATION) then
    if has in_device AUDIO_DEVICE_IN_BUILTIN_MIC then SND_DEVICE_IN_HANDSET_MIC
    else if has in_device AUDIO_DEVICE_IN_BACK_MIC then SND_DEVICE_IN_SPEAKER_MIC
    else if has in_device AUDIO_DEVICE_IN_WIRED_HEADSET then SND_DEVICE_IN_HEADSET_MIC
    else if has in_device AUDIO_DEVICE_IN_AUX_DIGITAL then SND_DEVICE_IN_HDMI_MIC
    else SND_DEVICE_IN_HANDSET_MIC
  else if has out_device AUDIO_DEVICE_OUT_EARPIECE then SND_DEVICE_IN_HANDSET_MIC
  else if has out_device AUDIO_DEVICE_OUT_WIRED_HEADSET then SND_DEVICE_IN_HEADSET_MIC
  else if has out_device AUDIO_DEVICE_OUT_SPEAKER then SND_DEVICE_IN_SPEAKER_MIC
  else if has out_device AUDIO_DEVICE_OUT_WIRED_HEADPHONE then SND_DEVICE_IN_HANDSET_MIC
  else SND_DEVICE_IN_HANDSET_MIC.

(** get_input_snd_device, given what the active input is. *)
Definition input_snd_device (a : audio_device) (active : option in_view) (out_device : Z) : Z :=
  let source := match active with None => AUDIO_SOURCE_DEFAULT | Some v => v_source v end in
  let in_device := Z.land (match active with None => AUDIO_DEVICE_NONE | Some v => v_devices v end)
                     (Z.lnot AUDIO_DEVICE_BIT_IN) in
  let channel_mask := match active with None => AUDIO_CHANNEL_IN_MONO | Some v => v_main_channels v end in
  let finish snd_device in_device :=
    if negb (snd_device =? SND_DEVICE_NONE) then snd_device
    else default_input_snd_device in_device out_device in
  if ad_mode a =? AUDIO_MODE_IN_CALL then
    let '(snd_device, exit) := call_input_snd_device (ad_tty_mode a) out_device in
    if exit then snd_device else finish snd_device in_device
  else if source =? AUDIO_SOURCE_CAMCORDER then
    finish (if has in_device AUDIO_DEVICE_IN_BUILTIN_MIC || has in_device AUDIO_DEVICE_IN_BACK_MIC
            then SND_DEVICE_IN_CAMCORDER_MIC else SND_DEVICE_NONE) in_device
  else if source =? AUDIO_SOURCE_VOICE_RECOGNITION then
    finish (recognition_snd_device a in_device channel_mask) in_device
  else if (source =? AUDIO_SOURCE_VOICE_COMMUNICATION) || (source =? AUDIO_SOURCE_MIC) then
    let in_device := if has out_device AUDIO_DEVICE_OUT_SPEAKER then AUDIO_DEVICE_IN_BACK_MIC else in_device in
    finish (match active with
            | Some v => if v_enable_aec v then aec_snd_device in_device out_device else SND_DEVICE_NONE
            | None => SND_DEVICE_NONE
            end) in_device
  else if source =? AUDIO_SOURCE_DEFAULT then SND_DEVICE_NONE
  else finish SND_DEVICE_NONE in_device.

Definition get_input_snd_device (out_device : Z) : M D Z :=
  active ← active_view; a ← adev; mret (input_snd_device a active out_device).

(** Three functions that are still to be written in the source. *)
Definition set_hdmi_channels (channel_count : Z) : Z := 0.
Definition edid_get_max_channels : Z := 2.
Definition render_latency (usecase : Z) : Z := 0.

(** ** Enabling and disabling *)

(** The counter of a device. *)
Definition ref_cnt (snd_device : Z) : M D Z :=
  a ← adev; lift (access (ad_ref_cnt a !! Z.to_nat snd_device)).
Definition set_ref_cnt (snd_device n : Z) : M D unit :=
  set_adev (fun a => set_ad_ref_cnt (<[Z.to_nat snd_device := n]> (ad_ref_cnt a)) a).

Definition enable_snd_device (u : audio_usecase) (snd_device : Z) (update_mixer : bool) : M D Z :=
  match get_snd_device_name snd_device with
  | None => mret (- EINVAL)
  | Some name =>
      n ← ref_cnt snd_device;
      let n := n + 1 in
      set_ref_cnt snd_device n;;
      if 1 <? n then mret 0
      else
        l ← mixers_of u (uc_mixers u);
        for_each (fun card =>
          audio_route_apply_path card name;; when update_mixer (audio_route_update_mixer card)) l;;
        mret 0
  end.

Definition disable_snd_device (u : audio_usecase) (snd_device : Z) (update_mixer : bool) : M D Z :=
  match get_snd_device_name snd_device with
  | None => mret (- EINVAL)
  | Some name =>
      n ← ref_cnt snd_device;
      if n <=? 0 then mret (- EINVAL)
      else
        let n := n - 1 in
        set_ref_cnt snd_device n;;
        if n =? 0 then
          l ← mixers_of u (uc_mixers u);
          for_each (fun card =>
            audio_route_reset_path card name;; when update_mixer (audio_route_update_mixer card)) l;;
          mret 0
        else mret 0
  end.

(** The end of select_devices: from the devices a use case has to others. *)
Definition switch_devices (loc : nat) (out_snd_device in_snd_device : Z) : M D Z :=
  u ← the_usecase loc;
  if (out_snd_device =? uc_out u) && (in_snd_device =? uc_in u) then mret 0
  else
    when (negb (uc_out u =? SND_DEVICE_NONE)) (disable_snd_device u (uc_out u) false;; mret tt);;
    when (negb (uc_in u =? SND_DEVICE_NONE)) (disable_snd_device u (uc_in u) false;; mret tt);;
    when (negb (out_snd_device =? SND_DEVICE_NONE)) (enable_snd_device u out_snd_device false;; mret tt);;
    when (negb (in_snd_device =? SND_DEVICE_NONE)) (enable_snd_device u in_snd_device false;; mret tt);;
    l ← mixers_of u (uc_mixers u);
    for_each audio_route_update_mixer l;;
    set_usecase (uc_loc u) (fun u => set_uc_out out_snd_device (set_uc_in in_snd_device u));;
    mret 0.

(** The field devices of the stream of a use case, which is an output stream
    for a use case that plays or is a call. *)
Definition out_devices (st : stream) : M D Z :=
  match st with
  | OutStream h => o ← the_out h; mret (so_devices o)
  | InStream _ => lift Fault
  end.

(** The devices of the voice call, when there is one. *)
Definition call_devices : M D (Z * Z) :=
  a ← adev;
  if ad_in_call a then
    vc ← lift (access (get_usecase_from_id a USECASE_VOICE_CALL)); mret (uc_out vc, uc_in vc)
  else mret (SND_DEVICE_NONE, SND_DEVICE_NONE).

(** For a use case that captures: is the primary output playing? *)
Definition capture_out_device (v : in_view) : M D Z :=
  a ← adev;
  if v_source v =? AUDIO_SOURCE_VOICE_COMMUNICATION then
    match ad_primary a with
    | None => mret AUDIO_DEVICE_NONE
    | Some p => o ← the_out p; mret (if so_standby o then AUDIO_DEVICE_NONE else so_devices o)
    end
  else mret AUDIO_DEVICE_NONE.

(** select_devices, where [inner] is the recursive call, which is for the use
    case of the active input. *)
Definition select_with (inner : Z -> M D unit) (uc_id : Z) : M D Z :=
  if uc_id =? USECASE_AUDIO_CAPTURE_HOTWORD then mret 0
  else
    active ← active_view;
    a ← adev;
    match get_usecase_from_id a uc_id with
    | None => mret (- EINVAL)
    | Some u =>
        if uc_type u =? VOICE_CALL then
          devices ← out_devices (uc_stream u);
          in_snd_device ← get_input_snd_device devices;
          set_usecase (uc_loc u) (set_uc_devices devices);;
          switch_devices (uc_loc u) (get_output_snd_device a devices) in_snd_device
        else
          '(out_snd_device, in_snd_device) ← call_devices;
          if uc_type u =? PCM_PLAYBACK then
            devices ← out_devices (uc_stream u);
            set_usecase (uc_loc u) (set_uc_devices devices);;
            if out_snd_device =? SND_DEVICE_NONE then
              (match active with
               | Some v =>
                   when (bool_decide (Some (uc_stream u) = OutStream <$> ad_primary a) &&
                         (v_source v =? AUDIO_SOURCE_VOICE_COMMUNICATION)) (inner (v_usecase v))
               | None => mret tt
               end);;
              switch_devices (uc_loc u) (get_output_snd_device a devices) SND_DEVICE_NONE
            else switch_devices (uc_loc u) out_snd_device SND_DEVICE_NONE
          else if uc_type u =? PCM_CAPTURE then
            v ← view_stream (uc_stream u);
            set_usecase (uc_loc u) (set_uc_devices (v_devices v));;
            if in_snd_device =? SND_DEVICE_NONE then
              active ← lift (access active);
              out_device ← capture_out_device active;
              in_snd_device ← get_input_snd_device out_device;
              switch_devices (uc_loc u) SND_DEVICE_NONE in_snd_device
            else switch_devices (uc_loc u) SND_DEVICE_NONE in_snd_device
          else switch_devices (uc_loc u) out_snd_device in_snd_device
    end.

Fixpoint select_devices (fuel : nat) (uc_id : Z) : M D Z :=
  match fuel with
  | O => lift Timeout
  | S fuel => select_with (fun id => select_devices fuel id;; mret tt) uc_id
  end.

End Devices.
