(* ===== verification/AudioStreams.v ===== *)
(** * AudioStreams: starting, stopping and routing streams, audio/hal/audio_hw.c

    What is done under the lock of the device: a stream that leaves standby
    gets a use case, sound devices and an open PCM, and gives them back when it
    goes to standby.  Memory is never short.  LOG_ALWAYS_FATAL_IF is undefined
    when it would abort. *)

From S2P Require Import Prelude CString AudioDefs AudioDevices.

Open Scope Z_scope.

Section Streams.
Context {D : Type} `{AudioLib} `{AudioEnv} `{DspContexts D}.

(** A computation that has no result but a new device of the audio_dsp. *)
Definition dsp_do (f : D -> outcome D) : M D unit := with_dsp (fun d => d ← f d; Done (tt, d)).

(** A loop over a list that replaces its elements. *)
Fixpoint map_each {A} (f : A -> M D A) (l : list A) : M D (list A) :=
  match l with [] => mret [] | x :: l => x ← f x; l ← map_each f l; mret (x :: l) end.

(** The use cases number six, so that no more calls of select_devices nest. *)
Definition select : Z -> M D Z := select_devices 6.

Definition new_pcm_device (profile : nat) : pcm_device := PcmDevice profile None 0 false 0 false None 0.

(** Closing what the sound trigger library opened. *)
Definition close_streaming (d : pcm_device) : M D pcm_device :=
  if 0 <? pd_sound_trigger d then
    modify (on_kernel (on_streaming (fun l => l ∖ {[pd_sound_trigger d]})));;
    mret (set_pd_sound_trigger 0 d)
  else mret d.

(** if (pcm_device->pcm) pcm_close(pcm_device->pcm); pcm_device->pcm = NULL. *)
Definition close_device_pcm (d : pcm_device) : M D pcm_device :=
  match pd_pcm d with
  | Some n => pcm_close n;; mret (set_pd_pcm None d)
  | None => mret d
  end.

(** ** Input streams *)

Definition in_close_pcm_devices (h : nat) : M D unit :=
  i ← the_in h;
  l ← lift (access (si_pcm_devs i));
  l ← map_each (fun d =>
    d ← close_device_pcm d; d ← close_streaming d; mret (set_pd_sound_trigger 0 d)) l;
  set_in h (set_si_pcm_devs (Some l)).

Definition in_release_pcm_devices (h : nat) : M D unit :=
  i ← the_in h;
  _ ← lift (access (si_pcm_devs i));
  set_in h (set_si_pcm_devs (Some [])).

Definition stop_input_stream (h : nat) : M D Z :=
  set_adev (set_ad_active_input None);;
  i ← the_in h;
  a ← adev;
  match get_usecase_from_id a (si_usecase i) with
  | None => mret (- EINVAL)
  | Some u =>
      disable_snd_device u (uc_in u) true;;
      remove_usecase (uc_loc u);;
      match si_pcm_devs i with
      | Some [] => mret (- EINVAL)
      | _ => in_release_pcm_devices h;; mret 0
      end
  end.

Definition do_in_standby_l (h : nat) : M D Z :=
  i ← the_in h;
  when (negb (si_standby i)) (
    in_close_pcm_devices h;;
    stop_input_stream h;;
    set_in h (fun i => set_si_standby true (set_si_read_buf [] i)));;
  mret 0.

(** The use case of a stream that starts to record, in the list of the mixer
    of its profile. *)
Definition new_capture (h : nat) (profile : nat) : M D unit :=
  i ← the_in h;
  loc ← fresh_loc;
  let u := Usecase loc (si_usecase i) PCM_CAPTURE (si_devices i) SND_DEVICE_NONE SND_DEVICE_NONE
             (InStream h) [] in
  set_in h (set_si_pcm_devs (Some [new_pcm_device profile]));;
  p ← the_profile profile;
  card ← adev_get_mixer_for_card (pp_card p);
  u ← add_mixer u card;
  set_adev (fun a => set_ad_usecases (ad_usecases a ++ [u]) a).

(** The configuration of the profile, and the resampler where one is needed. *)
Definition in_configure (h : nat) (profile : nat) : M D Z :=
  p ← the_profile profile;
  i ← the_in h;
  let recreate := negb (pc_rate (si_config i) =? pc_rate (pp_config p)) in
  let config := if si_aux_changed i
                then set_pc_channels (audio_channel_count_from_in_mask (si_aux_channels i)) (pp_config p)
                else pp_config p in
  let recreate := recreate || si_aux_changed i || negb (si_requested_rate i =? pc_rate config) in
  set_in h (set_si_config config);;
  if recreate then
    ret ← ask create_resampler_answer;
    set_in h (set_si_resampler (ret =? 0));;
    mret ret
  else mret 0.

(** Changing the device at the head of the list. *)
Definition set_in_device (h : nat) (f : pcm_device -> pcm_device) : M D unit :=
  set_in h (fun i =>
    match si_pcm_devs i with Some (d :: l) => set_si_pcm_devs (Some (f d :: l)) i | _ => i end).

(** Opening the PCM or the hotword stream; false when that fails. *)
Definition in_open (h : nat) (profile : nat) : M D bool :=
  p ← the_profile profile;
  if pp_type p =? PCM_HOTWORD_STREAMING then
    a ← adev;
    if negb (ad_st a) then mret false
    else
      handle ← ask st_open_answer;
      set_in_device h (fun d => set_pd_pcm None (set_pd_sound_trigger handle d));;
      when (0 <? handle) (modify (on_kernel (on_streaming (union {[handle]}))));;
      mret (0 <? handle)
  else
    '(answer, n) ← pcm_open;
    set_in_device h (fun d =>
      set_pd_sound_trigger 0 (set_pd_pcm (match answer with Ready => Some n | _ => None end) d));;
    mret (match answer with NotReady => false | _ => true end).

(** The counters of the buffers of a stream that starts. *)
Definition reset_buffers (i : stream_in) : stream_in :=
  set_si_proc_buf_frames 0 (set_si_proc_buf_size 0 (set_si_read_buf_size 0 (set_si_read_buf_frames 0 i))).

Definition start_input_stream (h : nat) : M D Z :=
  i ← the_in h;
  set_adev (set_ad_active_input (Some h));;
  s ← get;
  match get_pcm_device (st_profiles s) (si_usecase_type i) (si_devices i) with
  | None => set_adev (set_ad_active_input None);; mret (- EINVAL)
  | Some profile =>
      when (has (si_input_flags i) AUDIO_INPUT_FLAG_FAST)
        (modify (on_profiles (alter (fun p =>
           set_pp_config (set_pc_period_size CAPTURE_PERIOD_SIZE_LOW_LATENCY (pp_config p)) p) profile)));;
      new_capture h profile;;
      select (si_usecase i);;
      ret ← in_configure h profile;
      ok ← in_open h profile;
      if ok : bool then set_in h reset_buffers;; mret ret
      else
        set_in h (set_si_resampler false);;
        stop_input_stream h;;
        set_adev (set_ad_active_input None);;
        mret (- EIO)
  end.

Definition in_standby_l (h : nat) : M D Z :=
  i ← the_in h; if negb (si_standby i) then do_in_standby_l h else mret 0.

Definition in_standby (h : nat) : M D Z := in_standby_l h.

(** ** Effects *)

Definition get_command_status (status fct_status cmd_status : Z) : Z :=
  if negb (fct_status =? 0) then fct_status else if negb (cmd_status =? 0) then cmd_status else status.

Definition in_get_aux_channels (i : stream_in) : Z :=
  match si_preprocessors i with
  | [] => 0
  | _ =>
      if Z.land (Z.land (si_devices i) AUDIO_DEVICE_IN_BUILTIN_MIC) (Z.lnot AUDIO_DEVICE_BIT_IN) =? 0
      then 0 else AUDIO_CHANNEL_INDEX_MASK_4
  end.

(** The commands EFFECT_CMD_GET_CONFIG, SET_CONFIG and ENABLE. *)
Definition in_configure_effect_channels (effect : nat) (aux_channels : Z) : M D Z :=
  '(fct_status, _) ← ask effect_command_answer;
  if negb (fct_status =? 0) then mret fct_status
  else
    '(fct_status, cmd_status) ← ask effect_command_answer;
    let status := get_command_status 0 fct_status cmd_status in
    if negb (status =? 0) then mret status
    else '(fct_status, cmd_status) ← ask effect_command_answer;
         mret (get_command_status status fct_status cmd_status).

(** The loop over the effects of a stream: the last error. *)
Fixpoint reconfigure_all (effects : list nat) (aux_channels status : Z) : M D Z :=
  match effects with
  | [] => mret status
  | e :: effects =>
      cur_status ← in_configure_effect_channels e aux_channels;
      reconfigure_all effects aux_channels (if negb (cur_status =? 0) then cur_status else status)
  end.

Definition in_reconfigure_channels (h : nat) (effect : option nat) (aux_channels : Z)
    (config_changed : bool) : M D Z :=
  i ← the_in h;
  if config_changed then reconfigure_all (si_preprocessors i) aux_channels 0
  else match effect with
       | Some e => if negb (aux_channels =? 0) then in_configure_effect_channels e aux_channels else mret 0
       | None => mret 0
       end.

Definition in_update_aux_channels (h : nat) (effect : option nat) : M D unit :=
  i ← the_in h;
  let aux_channels := in_get_aux_channels i in
  status ← in_reconfigure_channels h effect aux_channels (negb (aux_channels =? si_aux_channels i));
  aux_channels ← (if negb (status =? 0) then in_reconfigure_channels h effect 0 true;; mret 0
                  else mret aux_channels);
  when (negb (si_aux_channels i =? aux_channels)) (
    set_in h (fun i => set_si_aux_changed true (set_si_aux_channels aux_channels i));;
    do_in_standby_l h;; mret tt).

(** The effects without the first that is [effect]. *)
Fixpoint remove_effect (effect : nat) (l : list nat) : option (list nat) :=
  match l with
  | [] => None
  | e :: l => if Nat.eqb e effect then Some l else cons e <$> remove_effect effect l
  end.

Definition add_remove_audio_effect (h effect : nat) (enable : bool) : M D Z :=
  status ← ask effect_descriptor_answer;
  if negb (status =? 0) then mret status
  else
    i ← the_in h;
    if enable then
      if Nat.leb MAX_PREPROCESSORS (length (si_preprocessors i)) then mret (- ENOSYS)
      else
        set_in h (set_si_preprocessors (si_preprocessors i ++ [effect]));;
        in_update_aux_channels h (Some effect);;
        set_in h (set_si_aux_changed true);;
        mret 0
    else
      match si_preprocessors i with
      | [] => mret (- ENOSYS)
      | l => match remove_effect effect l with
             | None => mret (- EINVAL)
             | Some l =>
                 set_in h (fun i => set_si_aux_changed false (set_si_preprocessors l i));; mret 0
             end
      end.

Definition in_add_audio_effect (h effect : nat) : M D Z := add_remove_audio_effect h effect true.
Definition in_remove_audio_effect (h effect : nat) : M D Z := add_remove_audio_effect h effect false.

(** ** Output streams *)

Definition uc_release_pcm_devices (u : audio_usecase) : M D unit :=
  match uc_stream u with
  | InStream _ => lift Fault
  | OutStream h =>
      o ← the_out h;
      _ ← lift (access (so_pcm_devs o));
      set_out h (set_so_pcm_devs (Some []));;
      set_usecase (uc_loc u) (set_uc_mixers [])
  end.

(** The use case is not in the list of use cases yet. *)
Definition uc_select_pcm_devices (u : audio_usecase) : M D audio_usecase :=
  match uc_stream u with
  | InStream _ => lift Fault
  | OutStream h =>
      let u := set_uc_mixers [] u in
      set_out h (set_so_pcm_devs (Some []));;
      s ← get;
      match get_pcm_device (st_profiles s) (uc_type u) (uc_devices u) with
      | None => mret u
      | Some profile =>
          set_out h (set_so_pcm_devs (Some [new_pcm_device profile]));;
          p ← the_profile profile;
          m ← uc_get_mixer_for_card u (pp_card p);
          match m with
          | Some _ => mret u
          | None => card ← adev_get_mixer_for_card (pp_card p); add_mixer u card
          end
      end
  end.

Definition out_close_device (d : pcm_device) : M D pcm_device :=
  d ← close_streaming d;
  d ← close_device_pcm d;
  let d := set_pd_res_buffer false (set_pd_resampler false d) in
  match pd_dsp d with
  | Some c => dsp_do (dsp_context_free c);; mret (set_pd_dsp None d)
  | None => mret d
  end.

Definition out_close_pcm_devices (h : nat) : M D unit :=
  o ← the_out h;
  l ← lift (access (so_pcm_devs o));
  l ← map_each out_close_device l;
  set_out h (set_so_pcm_devs (Some l)).

Definition set_out_device (h i : nat) (f : pcm_device -> pcm_device) : M D unit :=
  set_out h (fun o => set_so_pcm_devs (alter f i <$> so_pcm_devs o) o).

(** The dsp context of a device with a dsp name. *)
Definition out_open_dsp (h i : nat) (p : pcm_device_profile) : M D unit :=
  match pp_dsp_name p with
  | None => mret tt
  | Some name =>
      a ← adev;
      let purpose := if (ad_mode a =? AUDIO_MODE_IN_CALL) || (ad_mode a =? AUDIO_MODE_IN_COMMUNICATION)
                     then "voice-comm"%string else "playback"%string in
      c ← with_dsp (dsp_context_new (pc_rate (pp_config p)) purpose);
      set_out_device h i (set_pd_dsp c);;
      match c with
      | None => mret tt
      | Some c => dsp_do (dsp_set_variable c "dsp_name" name);; dsp_do (dsp_load_pipeline c)
      end
  end.

(** One device; [None] goes to the label error_open. *)
Definition out_open_device (h i : nat) (d : pcm_device) (ret : Z) : M D (option Z) :=
  p ← the_profile (pd_profile d);
  out_open_dsp h i p;;
  '(answer, n) ← pcm_open;
  set_out_device h i (set_pd_pcm (match answer with Ready => Some n | _ => None end));;
  match answer with
  | NotReady => mret None
  | _ =>
      o ← the_out h;
      if so_sample_rate o =? pc_rate (pp_config p) then mret (Some ret)
      else
        ret ← ask create_resampler_answer;
        set_out_device h i (fun d =>
          set_pd_res_buffer false (set_pd_res_byte_count 0 (set_pd_resampler (ret =? 0) d)));;
        mret (Some ret)
  end.

Fixpoint out_open_loop (h i : nat) (l : list pcm_device) (ret : Z) : M D Z :=
  match l with
  | [] => mret ret
  | d :: l =>
      r ← out_open_device h i d ret;
      match r with
      | None => out_close_pcm_devices h;; mret (- EIO)
      | Some ret => out_open_loop h (S i) l ret
      end
  end.

Definition out_open_pcm_devices (h : nat) : M D Z :=
  o ← the_out h;
  l ← lift (access (so_pcm_devs o));
  out_open_loop h 0 l 0.

Definition disable_output_path_l (h : nat) : M D Z :=
  o ← the_out h;
  a ← adev;
  match get_usecase_from_id a (so_usecase o) with
  | None => mret (- EINVAL)
  | Some u =>
      disable_snd_device u (uc_out u) true;;
      uc_release_pcm_devices u;;
      remove_usecase (uc_loc u);;
      mret 0
  end.

(** A use case that plays, for the stream and the type given. *)
Definition new_playback (h : nat) (id type : Z) : M D unit :=
  o ← the_out h;
  loc ← fresh_loc;
  u ← uc_select_pcm_devices
        (Usecase loc id type (so_devices o) SND_DEVICE_NONE SND_DEVICE_NONE (OutStream h) []);
  set_adev (fun a => set_ad_usecases (ad_usecases a ++ [u]) a).

Definition enable_output_path_l (h : nat) : M D unit :=
  o ← the_out h;
  new_playback h (so_usecase o) PCM_PLAYBACK;;
  select (so_usecase o);; mret tt.

Definition stop_output_stream (h : nat) : M D Z := disable_output_path_l h.

Definition start_output_stream (h : nat) : M D Z :=
  enable_output_path_l h;;
  ret ← out_open_pcm_devices h;
  if negb (ret =? 0) then stop_output_stream h;; mret ret else mret 0.

Definition do_out_standby_l (h : nat) : M D Z :=
  set_out h (set_so_standby true);;
  out_close_pcm_devices h;;
  stop_output_stream h.

Definition out_standby (h : nat) : M D Z :=
  o ← the_out h;
  when (negb (so_standby o)) (do_out_standby_l h;; mret tt);;
  mret 0.

(** ** Voice calls *)

Definition stop_voice_call : M D Z :=
  set_adev (set_ad_in_call false);;
  a ← adev;
  match get_usecase_from_id a USECASE_VOICE_CALL with
  | None => mret (- EINVAL)
  | Some u =>
      disable_snd_device u (uc_out u) false;;
      disable_snd_device u (uc_in u) true;;
      uc_release_pcm_devices u;;
      remove_usecase (uc_loc u);;
      mret 0
  end.

Definition start_voice_call : M D Z :=
  a ← adev;
  p ← lift (access (ad_primary a));
  new_playback p USECASE_VOICE_CALL VOICE_CALL;;
  select USECASE_VOICE_CALL;;
  set_adev (set_ad_in_call true);;
  mret 0.

End Streams.
