(* ===== verification/AudioData.v ===== *)
(** * AudioData: the samples a stream reads and writes, audio/hal/audio_hw.c

    Buffers are lists of 16-bit samples.  The kernel gives a PCM that is read
    whole periods; read_buf keeps what of a period was not asked for yet.  A
    resampler and an effect are parameters: a resampler may ask for frames any
    number of times, an effect says how many frames it took and which it
    produced. *)

From S2P Require Import Prelude CString AudioDefs AudioDevices AudioStreams.

Open Scope Z_scope.

Section Data.
Context {D : Type} `{AudioLib} `{AudioEnv} `{DspContexts D}.

(** [resample_from_provider next release n] for at most n frames: the samples
    and the number of frames; [resample_from_input samples frames_rq frames_wr]
    for at most frames_wr frames; [process effect samples in_frames out_frames]:
    the number of frames taken, the samples and the number of frames produced. *)
Context (resample_from_provider : (Z -> M D (option (list Z * Z))) -> (Z -> M D unit) -> Z ->
                                  M D (list Z * Z)).
Context (resample_from_input : list Z -> Z -> Z -> list Z * Z).
Context (process : nat -> list Z -> Z -> Z -> Z * (list Z * Z)).

(** Samples [from, from + n) of a buffer; reading past its end is undefined. *)
Definition slice (from n : Z) (l : list Z) : outcome (list Z) :=
  if (0 <=? from) && (0 <=? n) && (from + n <=? Z.of_nat (length l))
  then Done (take (Z.to_nat n) (drop (Z.to_nat from) l)) else Fault.

(** Writing samples into a buffer at an offset. *)
Definition splice (at_ : Z) (xs l : list Z) : outcome (list Z) :=
  if (0 <=? at_) && (at_ + Z.of_nat (length xs) <=? Z.of_nat (length l))
  then Done (take (Z.to_nat at_) l ++ xs ++ drop (Z.to_nat at_ + length xs) l) else Fault.

(** realloc: the old contents, and arbitrary (here zero) samples after them. *)
Definition grow (n : Z) (l : list Z) : list Z :=
  take (Z.to_nat n) l ++ replicate (Z.to_nat n - length l) 0.

(** ** Reading *)

(** The channels of an open PCM, which is opened with the configuration of its
    profile. *)
Definition pcm_channels (d : pcm_device) : M D Z :=
  n ← lift (access (pd_pcm d));
  s ← get;
  if decide (n ∈ k_pcms (st_kernel s)) then
    p ← the_profile (pd_profile d); mret (pc_channels (pp_config p))
  else lift Fault.

(** pcm_read of whole frames: an error, or as many samples as asked for. *)
Definition pcm_read (n : Z) : M D (Z * list Z) :=
  '(rc, xs) ← ask pcm_read_answer;
  if negb (rc =? 0) then mret (rc, []) else mret (0, grow n xs).

(** get_next_buffer for [frame_count] frames: [Some] samples of the buffer and
    how many frames they are, or [None] when buffer->raw is set to NULL. *)
Definition get_next_buffer (h : nat) (frame_count : Z) : M D (option (list Z * Z)) :=
  i ← the_in h;
  l ← lift (access (si_pcm_devs i));
  match l with
  | [] => set_in h (set_si_read_status (- ENODEV));; mret None
  | d :: _ =>
      let period := pc_period_size (si_config i) in
      ok ← (if si_read_buf_frames i =? 0 then
              channels ← pcm_channels d;
              let size := period * channels in
              when (si_read_buf_size i <? period)
                (set_in h (fun i => set_si_read_buf_size period (set_si_read_buf (grow size (si_read_buf i)) i)));;
              '(status, xs) ← pcm_read size;
              set_in h (set_si_read_status status);;
              if negb (status =? 0) then mret false
              else
                i ← the_in h;
                buf ← lift (splice 0 xs (si_read_buf i));
                set_in h (fun i => set_si_read_buf_frames period (set_si_read_buf buf i));;
                mret true
            else mret true);
      if ok : bool then
        i ← the_in h;
        let frame_count := if si_read_buf_frames i <? frame_count then si_read_buf_frames i else frame_count in
        channels ← pcm_channels d;
        xs ← lift (slice ((period - si_read_buf_frames i) * pc_channels (si_config i))
                     (frame_count * channels) (si_read_buf i));
        mret (Some (xs, frame_count))
      else mret None
  end.

Definition release_buffer (h : nat) (frame_count : Z) : M D unit :=
  set_in h (fun i => set_si_read_buf_frames (si_read_buf_frames i - frame_count) i).

(** One turn of the loop of read_frames: the samples that are appended to the
    buffer and the number of frames they count for. *)
Definition read_turn (h : nat) (frames_rd : Z) : M D (list Z * Z) :=
  i ← the_in h;
  if si_resampler i then resample_from_provider (get_next_buffer h) (release_buffer h) frames_rd
  else
    b ← get_next_buffer h frames_rd;
    match b with
    | Some (xs, n) => release_buffer h n;; mret (xs, n)
    | None => mret ([], frames_rd)
    end.

(** The loop of read_frames; the samples read so far, or the error. *)
Fixpoint read_loop (fuel : nat) (h : nat) (frames frames_wr : Z) (acc : list Z) : M D (Z * list Z) :=
  if frames_wr <? frames then
    match fuel with
    | O => lift Timeout
    | S fuel =>
        '(xs, n) ← read_turn h (frames - frames_wr);
        i ← the_in h;
        if negb (si_read_status i =? 0) then mret (si_read_status i, acc)
        else read_loop fuel h frames (frames_wr + n) (acc ++ xs)
    end
  else mret (frames_wr, acc).

Definition read_frames (fuel : nat) (h : nat) (frames : Z) : M D (Z * list Z) :=
  i ← the_in h;
  l ← lift (access (si_pcm_devs i));
  match l with
  | [] => mret (- EINVAL, [])
  | _ => read_loop fuel h frames 0 []
  end.

(** One turn of the effects, all of which are given the same buffers: what the
    last one made of them. *)
Fixpoint process_all (effects : list nat) (buf : list Z) (in_frames out_frames : Z) (out : list Z)
    : Z * (list Z * Z) :=
  match effects with
  | [] => (in_frames, (out, out_frames))
  | e :: effects =>
      let '(taken, (out, n)) := process e buf in_frames out_frames in
      process_all effects buf taken n out
  end.

(** The loop over the effects; [acc] is what they have produced.  The frames
    that are left are moved to the front of the buffer. *)
Fixpoint process_loop (fuel : nat) (h : nat) (src_channels frames_num frames_wr : Z) (acc : list Z)
    : M D (Z * list Z) :=
  if frames_wr <? frames_num then
    match fuel with
    | O => lift Timeout
    | S fuel' =>
        i ← the_in h;
        (* reload the input buffer *)
        e ← (if si_proc_buf_frames i <? frames_num then
               '(rd, xs) ← read_frames fuel h (frames_num - si_proc_buf_frames i);
               if rd <? 0 then mret (Some rd)
               else
                 buf ← lift (splice (si_proc_buf_frames i * src_channels) xs (si_proc_buf_in i));
                 set_in h (fun i => set_si_proc_buf_frames (si_proc_buf_frames i + rd) (set_si_proc_buf_in buf i));;
                 mret None
             else mret None);
        match e with
        | Some rd => mret (rd, acc)
        | None =>
            i ← the_in h;
            let '(taken, (out, n)) :=
              process_all (si_preprocessors i) (take (Z.to_nat (si_proc_buf_frames i * src_channels)) (si_proc_buf_in i))
                (si_proc_buf_frames i) (frames_num - frames_wr) [] in
            let left := si_proc_buf_frames i - taken in
            rest ← lift (slice (taken * src_channels) (left * src_channels) (si_proc_buf_in i));
            buf ← lift (splice 0 rest (si_proc_buf_in i));
            set_in h (fun i => set_si_proc_buf_frames left (set_si_proc_buf_in buf i));;
            if n =? 0 then process_loop fuel' h src_channels frames_num frames_wr acc
            else if frames_wr + n <=? frames_num
            then process_loop fuel' h src_channels frames_num (frames_wr + n) (acc ++ out)
            else process_loop fuel' h src_channels frames_num frames_num (acc ++ out)
        end
    end
  else mret (frames_wr, acc).

Definition in_get_format : Z := AUDIO_FORMAT_PCM_16_BIT.

(** The number of frames, or an error, and the samples in the caller's buffer. *)
Definition read_and_process_frames (fuel : nat) (h : nat) (frames_num : Z) : M D (Z * list Z) :=
  i ← the_in h;
  let src_channels := pc_channels (si_config i) in
  let dst_channels := audio_channel_count_from_in_mask (si_main_channels i) in
  let channel_remapping_needed := negb (dst_channels =? src_channels) in
  let has_processing := negb (Nat.eqb (length (si_preprocessors i)) 0) in
  let src_buffer_size := frames_num * src_channels * audio_bytes_per_sample in_get_format in
  when ((channel_remapping_needed || has_processing) && (si_proc_buf_size i <? src_buffer_size))
    (set_in h (fun i => set_si_proc_buf_size src_buffer_size
       (set_si_proc_buf_in (grow (frames_num * src_channels) (si_proc_buf_in i)) i)));;
  '(frames_wr, xs) ← (if has_processing then process_loop fuel h src_channels frames_num 0 []
                      else read_frames fuel h frames_num);
  if channel_remapping_needed && (0 <? frames_wr)
  then mret (frames_wr, adjust_channels xs src_channels dst_channels)
  else mret (frames_wr, xs).

(** The bytes the sound trigger library gives, when its handle is open. *)
Definition read_bytes_from_dsp (h : nat) (bytes : Z) : M D Z :=
  i ← the_in h;
  l ← lift (access (si_pcm_devs i));
  d ← lift (access (head l));
  if 0 <? pd_sound_trigger d then ask st_read_answer else mret 0.

(** The sizes of the frames of a stream. *)
Definition audio_stream_in_frame_size (i : stream_in) : Z :=
  in_frame_size (si_main_channels i) in_get_format.
Definition audio_stream_out_frame_size (o : stream_out) : Z :=
  out_frame_size (so_channel_mask o) (so_format o).

(** A number of bytes in frames: a division by 0 is undefined. *)
Definition in_frames (bytes frame_size : Z) : M D Z :=
  if frame_size =? 0 then lift Fault else mret (bytes / frame_size).

(** What in_read does with the lock of the stream, once the stream has started:
    whether it succeeded, the number of bytes, and the samples.  The number of
    bytes of a hotword stream is a size_t, so that an error of the library is a
    success, and as many bytes are cleared when the microphone is muted. *)
Definition in_read_data (fuel : nat) (h : nat) (bytes : Z) : M D (bool * (Z * list Z)) :=
  i ← the_in h;
  frames_rq ← in_frames bytes (audio_stream_in_frame_size i);
  l ← lift (access (si_pcm_devs i));
  a ← adev;
  match l with
  | [] => mret (false, (bytes, []))
  | _ =>
      if si_usecase i =? USECASE_AUDIO_CAPTURE_HOTWORD then
        n ← read_bytes_from_dsp h bytes;
        if ad_mic_mute a && (n <? 0) then lift Fault else mret (negb (n =? 0), (n, []))
      else
        '(frames, xs) ← read_and_process_frames fuel h frames_rq;
        mret (0 <=? frames, (bytes, if (0 <=? frames) && ad_mic_mute a then (fun _ => 0) <$> xs else xs))
  end.

(** in_read, with what it does once the stream has started: the number of bytes
    it returns, and the samples. *)
Definition in_read_with (data : M D (bool * (Z * list Z))) (h : nat) (bytes : Z) : M D (Z * list Z) :=
  i ← the_in h;
  _ ← in_frames bytes (audio_stream_in_frame_size i);
  ret ← (if si_standby i then
           ret ← start_input_stream h;
           when (ret =? 0) (set_in h (set_si_standby false));; mret ret
         else mret 0);
  '(ok, (n, xs)) ← (if negb (ret =? 0) then mret (false, (bytes, [])) else data);
  when (negb ok) (in_standby h;; mret tt);;
  mret (n, xs).

Definition in_read (fuel : nat) (h : nat) (bytes : Z) : M D (Z * list Z) :=
  in_read_with (in_read_data fuel h bytes) h bytes.

(** ** Writing *)

(** The samples the dsp makes of a buffer, in place. *)
Definition apply_dsp (d : pcm_device) (buf : list Z) : M D (list Z) :=
  match pd_dsp d with None => mret buf | Some c => with_dsp (dsp_pipeline_apply c buf) end.

Definition on_written (f : list (nat * list Z) -> list (nat * list Z)) (k : kernel) : kernel :=
  Kernel (k_pcms k) (k_next_pcm k) (k_streaming k) (k_pending k) (k_live k) (f (k_written k))
    (k_calls k).

(** pcm_write: what was written when that succeeded; the PCM must be open. *)
Definition pcm_write (n : nat) (xs : list Z) : M D Z :=
  s ← get;
  if decide (n ∈ k_pcms (st_kernel s)) then
    rc ← ask pcm_write_answer;
    when (rc =? 0) (modify (on_kernel (on_written (fun w => w ++ [(n, xs)]))));;
    mret rc
  else lift Fault.

(** The buffer of the resampler: its size in bytes. *)
Definition res_byte_count (o : stream_out) (p : pcm_device_profile) (bytes : Z) : Z :=
  bytes * pc_rate (pp_config p) / so_sample_rate o + audio_stream_out_frame_size o.

(** One device of the loop of out_write: the caller's buffer afterwards, ret. *)
Definition write_device (h i : nat) (d : pcm_device) (buffer : list Z) (bytes ret : Z)
    : M D (list Z * Z) :=
  o ← the_out h;
  p ← the_profile (pd_profile d);
  let frame_size := audio_stream_out_frame_size o in
  let need := res_byte_count o p bytes in
  let d := if pd_resampler d && (pd_res_byte_count d <? need)
           then set_pd_res_buffer true (set_pd_res_byte_count need d) else d in
  set_out_device h i (fun _ => d);;
  let '(res, frames_wr) :=
    if pd_resampler d then resample_from_input buffer (bytes / frame_size) (pd_res_byte_count d / frame_size)
    else ([], 0) in
  match pd_pcm d with
  | None => mret (buffer, ret)
  | Some n =>
      let src_channels := audio_channel_count_from_out_mask (so_channel_mask o) in
      let dst_channels := pc_channels (pp_config p) in
      let resampled := pd_resampler d && pd_res_buffer d in
      let audio_bytes := if resampled then frames_wr * frame_size else bytes in
      xs ← apply_dsp d (if resampled then res else buffer);
      let buffer := if resampled then buffer else xs in
      let remap := negb (dst_channels =? src_channels) in
      let dest_buffer_size := audio_bytes * dst_channels / src_channels in
      when (remap && (so_proc_buf_size o <? dest_buffer_size)) (set_out h (set_so_proc_buf_size dest_buffer_size));;
      status ← pcm_write n (if remap then adjust_channels xs src_channels dst_channels else xs);
      set_out_device h i (set_pd_status status);;
      mret (buffer, if negb (status =? 0) then status else ret)
  end.

Fixpoint write_loop (h i : nat) (l : list pcm_device) (buffer : list Z) (bytes ret : Z) : M D Z :=
  match l with
  | [] => mret ret
  | d :: l =>
      '(buffer, ret) ← write_device h i d buffer bytes ret;
      write_loop h (S i) l buffer bytes ret
  end.

(** The active input, when its microphone depends on the output. *)
Definition input_to_reset : M D (option nat) :=
  a ← adev;
  match ad_active_input a with
  | None => mret None
  | Some h =>
      i ← the_in h;
      mret (if (si_source i =? AUDIO_SOURCE_VOICE_COMMUNICATION) || (si_source i =? AUDIO_SOURCE_MIC)
            then Some h else None)
  end.

(** The end of out_write and out_set_parameters; LOG_ALWAYS_FATAL_IF aborts. *)
Definition reset_input (h : option nat) : M D unit :=
  match h with
  | None => mret tt
  | Some h =>
      a ← adev;
      if decide (ad_active_input a = Some h) then do_in_standby_l h;; mret tt else lift Fault
  end.

(** Leaving standby: the error, and the input stream to reset. *)
Definition out_leave_standby (h : nat) : M D (Z * option nat) :=
  o ← the_out h;
  if so_standby o then
    ret ← start_output_stream h;
    if negb (ret =? 0) then mret (ret, None)
    else set_out h (set_so_standby false);; h ← input_to_reset; mret (0, h)
  else mret (0, None).

(** Writing to every device of the stream. *)
Definition out_write_data (h : nat) (buffer : list Z) (bytes : Z) : M D Z :=
  o ← the_out h;
  l ← lift (access (so_pcm_devs o));
  let buffer := if so_muted o then (fun _ => 0) <$> buffer else buffer in
  ret ← write_loop h 0 l buffer bytes 0;
  when (ret =? 0) (set_out h (fun o =>
    set_so_written (u64 (so_written o + bytes / audio_stream_out_frame_size o)) o));;
  mret ret.

(** After an error: the log reads the status of every device. *)
Definition out_write (h : nat) (buffer : list Z) (bytes : Z) : M D Z :=
  o ← the_out h;
  _ ← in_frames bytes (audio_stream_out_frame_size o);
  '(ret, input) ← out_leave_standby h;
  ret ← (if negb (ret =? 0) then mret ret else out_write_data h buffer bytes);
  when (negb (ret =? 0)) (
    o ← the_out h;
    _ ← lift (access (so_pcm_devs o));
    out_standby h;; mret tt);;
  reset_input input;;
  mret bytes.

End Data.
