(* ===== verification/AudioHw.v ===== *)
(** * AudioHw: the entry points of the audio HAL, audio/hal/audio_hw.c

    Parameters are given as the function that str_parms_get_str computes.  What
    is done between taking and releasing the lock of the device is done at
    once; the calls of one client come one after the other. *)

From S2P Require Import Prelude CString Float32 AudioDefs AudioDevices AudioStreams AudioData.

Open Scope Z_scope.

Section Hw.
Context {D : Type} `{AudioLib} `{AudioEnv} `{DspContexts D}.

(** ** Parameters *)

Definition ENOENT : Z := 2.
Definition AUDIO_PARAMETER_STREAM_ROUTING : string := "routing".
Definition AUDIO_PARAMETER_STREAM_INPUT_SOURCE : string := "input_source".
Definition AUDIO_PARAMETER_STREAM_SUP_CHANNELS : string := "sup_channels".
Definition AUDIO_PARAMETER_KEY_TTY_MODE : string := "tty_mode".
Definition AUDIO_PARAMETER_VALUE_TTY_OFF : string := "tty_off".
Definition AUDIO_PARAMETER_VALUE_TTY_VCO : string := "tty_vco".
Definition AUDIO_PARAMETER_VALUE_TTY_HCO : string := "tty_hco".
Definition AUDIO_PARAMETER_VALUE_TTY_FULL : string := "tty_full".
Definition AUDIO_PARAMETER_KEY_BT_NREC : string := "bt_headset_nrec".
Definition AUDIO_PARAMETER_VALUE_ON : string := "on".

Definition atoi (s : string) : Z := s32 (fst (strtol 64 10 s)).

(** str_parms_get_str with a buffer of 32 bytes: the length or an error, and
    what the buffer holds. *)
Definition str_parms_get_str (parms : string -> option string) (key : string) : Z * option string :=
  match parms key with
  | Some v => (Z.of_nat (String.length v), Some (stake 31 v))
  | None => (- ENOENT, None)
  end.

(** ** Output streams *)

Definition out_get_sample_rate (o : stream_out) : Z := so_sample_rate o.
Definition out_set_sample_rate (rate : Z) : Z := - ENOSYS.
Definition out_get_buffer_size (o : stream_out) : Z :=
  pc_period_size (so_config o) * audio_stream_out_frame_size o.
Definition out_get_channels (o : stream_out) : Z := so_channel_mask o.
Definition out_get_format (o : stream_out) : Z := so_format o.
Definition out_set_format (format : Z) : Z := - ENOSYS.

(** The input to be reset by a change of the routing of the playback stream. *)
Definition routing_input (o : stream_out) (val : Z) : M D (option nat) :=
  if negb (s32 (so_devices o) =? val) && negb (val =? 0) && negb (so_standby o) &&
     (so_usecase o =? USECASE_AUDIO_PLAYBACK)
  then input_to_reset else mret None.

Definition is_primary (h : nat) (a : audio_device) : bool := bool_decide (ad_primary a = Some h).

(** A routing that is not zero. *)
Definition out_route (h : nat) (o : stream_out) (val : Z) : M D unit :=
  let devices_changed := negb (so_devices o =? u32 val) in
  set_out h (set_so_devices (u32 val));;
  when (negb (so_standby o)) (
    if devices_changed then do_out_standby_l h;; mret tt else select (so_usecase o);; mret tt);;
  a ← adev;
  if (ad_mode a =? AUDIO_MODE_IN_CALL) && negb (ad_in_call a) && is_primary h a
  then start_voice_call;; mret tt
  else if (ad_mode a =? AUDIO_MODE_IN_CALL) && ad_in_call a && is_primary h a
  then select USECASE_VOICE_CALL;; mret tt
  else mret tt.

Definition out_set_parameters (h : nat) (parms : string -> option string) : M D Z :=
  let '(ret, value) := str_parms_get_str parms AUDIO_PARAMETER_STREAM_ROUTING in
  match value with
  | None => mret ret
  | Some value =>
      let val := atoi value in
      o ← the_out h;
      input ← routing_input o val;
      when (negb (val =? 0)) (out_route h o val);;
      a ← adev;
      when ((ad_mode a =? AUDIO_MODE_NORMAL) && ad_in_call a && is_primary h a)
        (stop_voice_call;; mret tt);;
      reset_input input;;
      mret ret
  end.

(** The names of the channel masks of a stream; the array ends with 0. *)
Definition out_channels_name_to_enum_table : list (string * Z) :=
  [("AUDIO_CHANNEL_OUT_STEREO", 0x3); ("AUDIO_CHANNEL_OUT_5POINT1", 0x3f);
   ("AUDIO_CHANNEL_OUT_7POINT1", 0x63f)]%string.

Fixpoint channel_names (masks : list Z) (first : bool) (value : string) : string :=
  match masks with
  | [] => value
  | m :: masks =>
      if m =? 0 then value
      else
        match find (fun e => snd e =? m) out_channels_name_to_enum_table with
        | Some (name, _) =>
            channel_names masks false ((if first then value else value +:+ "|") +:+ name)%string
        | None => channel_names masks first value
        end
  end.

(** The reply to the query for channel masks, or the keys themselves. *)
Definition out_get_parameters (o : stream_out) (query : string -> option string) (keys : string)
    : string + string :=
  match query AUDIO_PARAMETER_STREAM_SUP_CHANNELS with
  | Some _ => inl (channel_names (so_supported o) true EmptyString)
  | None => inr keys
  end.

Definition out_get_latency (o : stream_out) : Z :=
  u32 (pc_period_count (so_config o) * pc_period_size (so_config o) * 1000) / pc_rate (so_config o).

Definition out_set_volume (h : nat) (left right : float) : M D Z :=
  o ← the_out h;
  if so_usecase o =? USECASE_AUDIO_PLAYBACK_MULTI_CH
  then set_out h (set_so_muted (feq left float_zero));; mret 0
  else mret (- ENOSYS).

Definition out_get_render_position : Z * Z := (- EINVAL, 0).
Definition out_add_audio_effect (effect : nat) : Z := 0.
Definition out_remove_audio_effect (effect : nat) : Z := 0.
Definition out_get_next_write_timestamp : Z := - EINVAL.

(** The frames that were presented, or -1.  The list of devices of a stream
    that never started is a null pointer, which is followed. *)
Definition out_get_presentation_position (h : nat) : M D (Z * option Z) :=
  o ← the_out h;
  l ← lift (access (so_pcm_devs o));
  match l with
  | [] => mret (-1, None)
  | d :: _ =>
      _ ← lift (access (pd_pcm d));
      '(rc, avail) ← ask pcm_htimestamp_answer;
      if negb (rc =? 0) then mret (-1, None)
      else
        let kernel_buffer_size := u32 (pc_period_size (so_config o) * pc_period_count (so_config o)) in
        let signed_frames := s64 (so_written o - kernel_buffer_size + avail) in
        let signed_frames := s64 (signed_frames - render_latency (so_usecase o) * so_sample_rate o / 1000000) in
        if 0 <=? signed_frames then mret (0, Some signed_frames) else mret (-1, None)
  end.

(** ** Input streams *)

Definition check_input_parameters (sample_rate format channel_count : Z) : Z :=
  if negb (format =? AUDIO_FORMAT_PCM_16_BIT) then - EINVAL
  else if (channel_count <? 1) || (4 <? channel_count) then - EINVAL
  else if existsb (Z.eqb sample_rate) [8000; 11025; 12000; 16000; 22050; 24000; 32000; 44100; 48000]
  then 0 else - EINVAL.

(** The size in bytes, a multiple of 16 frames, or 0. *)
Definition get_input_buffer_size (profiles : list pcm_device_profile)
    (sample_rate format channel_count usecase_type devices : Z) : Z :=
  if negb (check_input_parameters sample_rate format channel_count =? 0) then 0
  else
    match get_pcm_device profiles usecase_type devices ≫= (profiles !!.) with
    | None => 0
    | Some p =>
        let size := u32 (pc_period_size (pp_config p) * sample_rate) / pc_rate (pp_config p) in
        let size := (size + 15) / 16 * 16 in
        size * channel_count * audio_bytes_per_sample format
    end.

Definition in_get_sample_rate (i : stream_in) : Z := si_requested_rate i.
Definition in_set_sample_rate (rate : Z) : Z := - ENOSYS.
Definition in_get_channels (i : stream_in) : Z := si_main_channels i.
Definition in_set_format (format : Z) : Z := - ENOSYS.
Definition in_get_buffer_size (profiles : list pcm_device_profile) (i : stream_in) : Z :=
  get_input_buffer_size profiles (si_requested_rate i) in_get_format
    (audio_channel_count_from_in_mask (si_main_channels i)) (si_usecase_type i) (si_devices i).

(** A routing of an active stream: the device of its PCM may not have it. *)
Definition in_route (h : nat) (val : Z) : M D Z :=
  i ← the_in h;
  a ← adev;
  do_standby ←
    match get_usecase_from_id a (si_usecase i) with
    | None => mret false
    | Some _ =>
        l ← lift (access (si_pcm_devs i));
        match l with
        | [] => mret false
        | d :: _ =>
            p ← the_profile (pd_profile d);
            mret (Z.land (Z.land (pp_devices p) (u32 val)) (Z.lnot AUDIO_DEVICE_BIT_IN) =? 0)
        end
    end;
  if (do_standby : bool) then do_in_standby_l h else select (si_usecase i).

Definition in_set_parameters (h : nat) (parms : string -> option string) : M D Z :=
  i ← the_in h;
  match snd (str_parms_get_str parms AUDIO_PARAMETER_STREAM_INPUT_SOURCE) with
  | None => mret tt
  | Some value =>
      let val := atoi value in
      when (negb (s32 (si_source i) =? val) && negb (val =? 0)) (set_in h (set_si_source (u32 val)))
  end;;
  let '(ret, value) := str_parms_get_str parms AUDIO_PARAMETER_STREAM_ROUTING in
  ret ← match value with
        | None => mret ret
        | Some value =>
            let val := atoi value in
            if negb (s32 (si_devices i) =? val) && negb (val =? 0) then
              set_in h (set_si_devices (u32 val));;
              if negb (si_standby i) then in_route h val else mret ret
            else mret ret
        end;
  mret (if 0 <? ret then 0 else ret).

Definition in_get_parameters (keys : string) : string := EmptyString.
Definition in_set_gain : Z := 0.
Definition in_get_input_frames_lost : Z := 0.

(** ** The device *)

(** struct audio_config, which adev_open_output_stream writes to. *)
Record audio_config : Type := AudioConfig {
  cfg_sample_rate : Z;
  cfg_channel_mask : Z;
  cfg_format : Z
}.

(** The label error_open. *)
Definition open_error (h : nat) (ret : Z) (config : audio_config) : M D (Z * option nat * audio_config) :=
  modify (on_outs (delete h));; mret (ret, None, config).

(** The stream adev_open_output_stream fills. *)
Definition new_stream_out (flags devices : Z) (config : audio_config) (c : pcm_config) : stream_out :=
  let deep := has flags AUDIO_OUTPUT_FLAG_DEEP_BUFFER in
  let c := if deep then pcm_config_deep_buffer else c in
  StreamOut c None true (pc_rate c) AUDIO_CHANNEL_OUT_STEREO (cfg_format config) devices flags
    (if deep then USECASE_AUDIO_PLAYBACK_DEEP_BUFFER else USECASE_AUDIO_PLAYBACK)
    [AUDIO_CHANNEL_OUT_STEREO; 0; 0] false 0 0.

Definition adev_open_output_stream (devices flags : Z) (config : audio_config)
    : M D (Z * option nat * audio_config) :=
  h ← fresh_loc;
  let devices := if devices =? AUDIO_DEVICE_NONE then AUDIO_DEVICE_OUT_SPEAKER else devices in
  s ← get;
  match get_pcm_device (st_profiles s) PCM_PLAYBACK devices ≫= (st_profiles s !!.) with
  | None => open_error h (- EINVAL) config
  | Some p =>
      let out := new_stream_out flags devices config (pp_config p) in
      modify (on_outs (insert h out));;
      a ← adev;
      if has flags AUDIO_OUTPUT_FLAG_PRIMARY && bool_decide (is_Some (ad_primary a))
      then open_error h (- EEXIST) config
      else
        when (has flags AUDIO_OUTPUT_FLAG_PRIMARY) (set_adev (set_ad_primary (Some h)));;
        match get_usecase_from_id a (so_usecase out) with
        | Some _ => open_error h (- EEXIST) config
        | None =>
            mret (0, Some h, AudioConfig (out_get_sample_rate out) (out_get_channels out) (out_get_format out))
        end
  end.

Definition adev_close_output_stream (h : nat) : M D unit :=
  out_standby h;; modify (on_outs (delete h)).

(** The rotation of the screen: are the speakers swapped? *)
Definition adev_set_rotation (val : Z) : M D unit :=
  let reverse_speakers := val =? 180 in
  a ← adev;
  when (negb (Bool.eqb (ad_lr_swap a) reverse_speakers)) (
    set_adev (set_ad_lr_swap reverse_speakers);;
    m ← adev_get_mixer_for_card SOUND_CARD;
    match m with
    | Some card =>
        audio_route_apply_path card
          (if reverse_speakers then "speaker-lr-reverse" else "speaker-lr-normal")%string;;
        audio_route_update_mixer card
    | None => mret tt
    end).

(** str_parms_get_int. *)
Definition str_parms_get_int (parms : string -> option string) (key : string) : Z * Z :=
  match parms key with
  | Some v => (0, s32 (fst (strtol 64 0 v)))
  | None => (- ENOENT, 0)
  end.

Definition tty_mode_of (value : string) : option Z :=
  if String.eqb value AUDIO_PARAMETER_VALUE_TTY_OFF then Some TTY_MODE_OFF
  else if String.eqb value AUDIO_PARAMETER_VALUE_TTY_VCO then Some TTY_MODE_VCO
  else if String.eqb value AUDIO_PARAMETER_VALUE_TTY_HCO then Some TTY_MODE_HCO
  else if String.eqb value AUDIO_PARAMETER_VALUE_TTY_FULL then Some TTY_MODE_FULL
  else None.

Definition adev_set_tty_mode (tty_mode : Z) : M D unit :=
  a ← adev;
  when (negb (tty_mode =? ad_tty_mode a)) (
    set_adev (set_ad_tty_mode tty_mode);;
    when (ad_in_call a) (select USECASE_VOICE_CALL;; mret tt)).

(** The parameters after the mode of the teletypewriter. *)
Definition adev_set_other_parameters (parms : string -> option string) : M D Z :=
  match snd (str_parms_get_str parms AUDIO_PARAMETER_KEY_BT_NREC) with
  | Some v => set_adev (set_ad_bluetooth_nrec (String.eqb v AUDIO_PARAMETER_VALUE_ON))
  | None => mret tt
  end;;
  match snd (str_parms_get_str parms "screen_state") with
  | Some v => set_adev (set_ad_screen_off (negb (String.eqb v AUDIO_PARAMETER_VALUE_ON)))
  | None => mret tt
  end;;
  let '(ret, val) := str_parms_get_int parms "rotation" in
  when (0 <=? ret) (adev_set_rotation val);;
  mret ret.

Definition adev_set_parameters (parms : string -> option string) : M D Z :=
  match snd (str_parms_get_str parms AUDIO_PARAMETER_KEY_TTY_MODE) with
  | None => adev_set_other_parameters parms
  | Some v =>
      match tty_mode_of v with
      | None => mret (- EINVAL)
      | Some tty_mode => adev_set_tty_mode tty_mode;; adev_set_other_parameters parms
      end
  end.

Definition adev_get_parameters (keys : string) : string := EmptyString.
Definition adev_init_check : Z := 0.
Definition set_voice_volume_l (volume : float) : Z := 0.
Definition adev_set_voice_volume (volume : float) : Z := set_voice_volume_l volume.
Definition adev_set_master_volume (volume : float) : Z := - ENOSYS.
Definition adev_get_master_volume : Z := - ENOSYS.
Definition adev_set_master_mute (muted : bool) : Z := - ENOSYS.
Definition adev_get_master_mute : Z := - ENOSYS.

Definition adev_set_mode (mode : Z) : M D Z :=
  a ← adev; when (negb (ad_mode a =? mode)) (set_adev (set_ad_mode mode));; mret 0.

Definition adev_set_mic_mute (state : bool) : M D Z := set_adev (set_ad_mic_mute state);; mret 0.
Definition adev_get_mic_mute : M D (Z * bool) := a ← adev; mret (0, ad_mic_mute a).

Definition adev_get_input_buffer_size (profiles : list pcm_device_profile) (config : audio_config) : Z :=
  get_input_buffer_size profiles (cfg_sample_rate config) (cfg_format config)
    (audio_channel_count_from_in_mask (cfg_channel_mask config)) PCM_CAPTURE AUDIO_DEVICE_IN_BUILTIN_MIC.

Definition new_stream_in (devices source flags : Z) (config : audio_config) (c : pcm_config) : stream_in :=
  let hotword := source =? AUDIO_SOURCE_HOTWORD in
  let flags := if cfg_sample_rate config =? CAPTURE_DEFAULT_SAMPLING_RATE then flags
               else Z.land flags (Z.lnot AUDIO_INPUT_FLAG_FAST) in
  StreamIn c None true source devices (cfg_channel_mask config)
    (if hotword then USECASE_AUDIO_CAPTURE_HOTWORD else USECASE_AUDIO_CAPTURE)
    (if hotword then PCM_HOTWORD_STREAMING else PCM_CAPTURE)
    false flags (cfg_sample_rate config) false 0 [] 0 0 0 [] 0 [] false 0.

Definition adev_open_input_stream (devices : Z) (config : audio_config) (flags source : Z)
    : M D (Z * option nat) :=
  if negb (check_input_parameters (cfg_sample_rate config) (cfg_format config)
             (audio_channel_count_from_in_mask (cfg_channel_mask config)) =? 0)
  then mret (- EINVAL, None)
  else
    s ← get;
    let usecase_type := if source =? AUDIO_SOURCE_HOTWORD then PCM_HOTWORD_STREAMING else PCM_CAPTURE in
    match get_pcm_device (st_profiles s) usecase_type devices ≫= (st_profiles s !!.) with
    | None => mret (- EINVAL, None)
    | Some p =>
        h ← fresh_loc;
        modify (on_ins (insert h (new_stream_in devices source flags config (pp_config p))));;
        mret (0, Some h)
    end.

Definition adev_close_input_stream (h : nat) : M D unit :=
  in_standby_l h;; modify (on_ins (delete h)).

Definition adev_close : M D Z := free_mixer_list;; mret 0.

(** calloc, and the assignments of adev_open. *)
Definition new_audio_device : audio_device :=
  AudioDevice [] AUDIO_MODE_NORMAL None None false false TTY_MODE_OFF true false
    (replicate (Z.to_nat SND_DEVICE_MAX) 0) [] false DUALMIC_CONFIG_NONE false false.

Definition initial_state (d : D) : state D :=
  State new_audio_device ∅ ∅ pcm_devices ∅ 0%nat (Kernel ∅ 0%nat ∅ ∅ ∅ [] 0%nat) d.

(** [sound_trigger]: the library is there, and has its three functions. *)
Definition adev_open (name : string) (sound_trigger : bool) : M D Z :=
  if negb (String.eqb name "audio_hw_if") then mret (- EINVAL)
  else
    ret ← mixer_init;
    if negb (ret =? 0) then mret (- EINVAL)
    else
      set_adev (fun a =>
        AudioDevice (ad_mixers a) (ad_mode a) (ad_active_input a) (ad_primary a) (ad_in_call a)
          (ad_mic_mute a) (ad_tty_mode a) (ad_bluetooth_nrec a) (ad_screen_off a) (ad_ref_cnt a)
          (ad_usecases a) (ad_lr_swap a) (ad_dualmic a) (ad_ns a) sound_trigger);;
      dsp_do (dsp_init "/system/etc/cras/speakerdsp.ini");;
      mret 0.

End Hw.
