(* ===== verification/AudioBook.v ===== *)
(** * AudioBook: the counters of the sound devices and the mixer paths

    [wp m Q s]: the computation [m], started in [s], ends without an undefined
    step and [Q] holds of what it yields.  [book f s]: the counter of every
    sound device is what [f] says, and exactly the paths of the devices that
    are in use are applied. *)

From S2P Require Import Prelude CString AudioDefs AudioDevices.

Open Scope Z_scope.

(** ** Total correctness *)

Section Wp.
Context {D : Type}.
Implicit Types s : state D.

Definition wp {A} (m : M D A) (Q : A -> state D -> Prop) (s : state D) : Prop :=
  match m s with Done (a, s') => Q a s' | _ => False end.

Lemma wp_ret {A} (a : A) Q s : Q a s -> wp (mret a) Q s.
Proof. done. Qed.

Lemma wp_bind {A B} (m : M D A) (f : A -> M D B) Q s :
  wp m (fun a s' => wp (f a) Q s') s -> wp (m ≫= f) Q s.
Proof.
  unfold wp. change ((m ≫= f) s) with ('(a, s') ← m s; f a s').
  destruct (m s) as [[a s']| |]; done.
Qed.

Lemma wp_mono {A} (m : M D A) (P Q : A -> state D -> Prop) s :
  wp m P s -> (forall a s', P a s' -> Q a s') -> wp m Q s.
Proof. unfold wp. destruct (m s) as [[a s']| |]; auto. Qed.

Lemma wp_get (Q : state D -> state D -> Prop) s : Q s s -> wp get Q s.
Proof. done. Qed.

Lemma wp_modify f (Q : unit -> state D -> Prop) s : Q tt (f s) -> wp (modify f) Q s.
Proof. done. Qed.

Lemma wp_lift {A} (a : A) Q s : Q a s -> wp (lift (Done a)) Q s.
Proof. done. Qed.

Lemma wp_access {A} (o : option A) a Q s : o = Some a -> Q a s -> wp (lift (access o)) Q s.
Proof. by intros ->. Qed.

Lemma wp_adev (Q : audio_device -> state D -> Prop) s : Q (st_adev s) s -> wp adev Q s.
Proof. done. Qed.

Lemma wp_set_adev f (Q : unit -> state D -> Prop) s : Q tt (on_adev f s) -> wp (set_adev f) Q s.
Proof. done. Qed.

Lemma wp_the_out h o (Q : stream_out -> state D -> Prop) s :
  st_outs s !! h = Some o -> Q o s -> wp (the_out h) Q s.
Proof. intros E HQ. unfold the_out. apply wp_bind, wp_get. by eapply wp_access. Qed.

Lemma wp_the_in h i (Q : stream_in -> state D -> Prop) s :
  st_ins s !! h = Some i -> Q i s -> wp (the_in h) Q s.
Proof. intros E HQ. unfold the_in. apply wp_bind, wp_get. by eapply wp_access. Qed.

Lemma wp_set_out h f o (Q : unit -> state D -> Prop) s :
  st_outs s !! h = Some o -> Q tt (on_outs (insert h (f o)) s) -> wp (set_out h f) Q s.
Proof. intros E HQ. unfold set_out. apply wp_bind. by eapply wp_the_out. Qed.

Lemma wp_set_in h f i (Q : unit -> state D -> Prop) s :
  st_ins s !! h = Some i -> Q tt (on_ins (insert h (f i)) s) -> wp (set_in h f) Q s.
Proof. intros E HQ. unfold set_in. apply wp_bind. by eapply wp_the_in. Qed.

Lemma wp_the_profile n p (Q : pcm_device_profile -> state D -> Prop) s :
  st_profiles s !! n = Some p -> Q p s -> wp (the_profile n) Q s.
Proof. intros E HQ. unfold the_profile. apply wp_bind, wp_get. by eapply wp_access. Qed.

Lemma wp_fresh (Q : nat -> state D -> Prop) s :
  Q (st_next s) (State (st_adev s) (st_outs s) (st_ins s) (st_profiles s) (st_nodes s)
    (S (st_next s)) (st_kernel s) (st_dsp s)) -> wp fresh_loc Q s.
Proof. done. Qed.

Lemma wp_ask {A} (answer : nat -> A) (Q : A -> state D -> Prop) s :
  (forall a, Q a (on_kernel (on_calls S) s)) -> wp (ask answer) Q s.
Proof. intros HQ. unfold ask. apply wp_bind, wp_get, wp_bind, wp_modify, wp_ret, HQ. Qed.

Lemma wp_when (b : bool) m (Q : unit -> state D -> Prop) s :
  (b = true -> wp m Q s) -> (b = false -> Q tt s) -> wp (when b m) Q s.
Proof. destruct b; cbn; auto. Qed.

Lemma wp_if {A} (b : bool) (m1 m2 : M D A) Q s :
  (b = true -> wp m1 Q s) -> (b = false -> wp m2 Q s) -> wp (if b then m1 else m2) Q s.
Proof. destruct b; auto. Qed.
End Wp.

(** One step of a computation whose step is simple. *)
Ltac wp_step :=
  match goal with
  | |- wp (mret _) _ _ => apply wp_ret
  | |- wp (_ ≫= _) _ _ => apply wp_bind
  | |- wp get _ _ => apply wp_get
  | |- wp (modify _) _ _ => apply wp_modify
  | |- wp adev _ _ => apply wp_adev
  | |- wp (set_adev _) _ _ => apply wp_set_adev
  | |- wp (lift (Done _)) _ _ => apply wp_lift
  | |- wp (ask _) _ _ => apply wp_ask; intros
  | |- wp fresh_loc _ _ => apply wp_fresh
  end.

(** ** The tables *)

(** The path of a device is another's only among the devices for recording. *)
Definition names_distinct : bool :=
  forallb (fun i => forallb (fun j =>
    bool_decide (i = j \/ ((13 <= i)%nat /\ (13 <= j)%nat) \/
      device_table !! i <> device_table !! j)) (seq 1 32)) (seq 1 32).

Lemma names_distinct_ok : names_distinct = true.
Proof. vm_compute. reflexivity. Qed.

Lemma snd_device_name_Some d name :
  get_snd_device_name d = Some name -> 1 <= d < 33 /\ device_table !! Z.to_nat d = Some name.
Proof.
  unfold get_snd_device_name, SND_DEVICE_MIN, SND_DEVICE_MAX. destruct (_ && _) eqn:E; [|done].
  intros Hn. split; [lia | done].
Qed.

Lemma snd_device_name_ok d : 1 <= d < 33 -> exists name, get_snd_device_name d = Some name.
Proof.
  intros Hd. unfold get_snd_device_name, SND_DEVICE_MIN, SND_DEVICE_MAX.
  replace (_ && _) with true by (symmetry; lia).
  apply lookup_lt_is_Some_2. change (length device_table) with 33%nat. lia.
Qed.

Lemma snd_device_name_inj d d' name :
  get_snd_device_name d = Some name -> get_snd_device_name d' = Some name ->
  d = d' \/ (13 <= d /\ 13 <= d').
Proof.
  intros H H'. apply snd_device_name_Some in H as [Hd E], H' as [Hd' E'].
  pose proof names_distinct_ok as N. unfold names_distinct in N. rewrite forallb_forall in N.
  specialize (N (Z.to_nat d)). rewrite forallb_forall in N.
  assert (forall x, 1 <= x < 33 -> In (Z.to_nat x) (seq 1 32)) as Hin by (intros x Hx; apply in_seq; lia).
  specialize (N (Hin d Hd) (Z.to_nat d') (Hin d' Hd')). apply bool_decide_eq_true in N as [N|[N|N]].
  - left. lia.
  - right. lia.
  - congruence.
Qed.

(** ** Which devices are chosen *)

Lemma output_snd_device_range a devices :
  ad_mode a <> AUDIO_MODE_IN_CALL -> 0 <= get_output_snd_device a devices < 13.
Proof.
  intros Hm. unfold get_output_snd_device. apply Z.eqb_neq in Hm. rewrite Hm. cbn [negb Z.eqb SND_DEVICE_NONE].
  unfold media_output_snd_device, SND_DEVICE_NONE, SND_DEVICE_OUT_SPEAKER_AND_HEADPHONES,
    SND_DEVICE_OUT_HEADPHONES, SND_DEVICE_OUT_SPEAKER, SND_DEVICE_OUT_HANDSET.
  repeat match goal with |- context [if ?b then _ else _] => destruct b end; lia.
Qed.

Definition in_range (d : Z) : Prop := d = SND_DEVICE_NONE \/ 13 <= d < 33.

Lemma default_input_range in_device out_device : in_range (default_input_snd_device in_device out_device).
Proof.
  unfold default_input_snd_device, in_range, SND_DEVICE_NONE, SND_DEVICE_IN_HANDSET_MIC,
    SND_DEVICE_IN_SPEAKER_MIC, SND_DEVICE_IN_HEADSET_MIC, SND_DEVICE_IN_HDMI_MIC.
  repeat match goal with |- context [if ?b then _ else _] => destruct b end; lia.
Qed.

Lemma finish_range d in_device out_device :
  in_range d ->
  in_range (if negb (d =? SND_DEVICE_NONE) then d else default_input_snd_device in_device out_device).
Proof. intros Hd. destruct (negb _); [done | apply default_input_range]. Qed.

Lemma input_snd_device_range a active out_device :
  in_range (input_snd_device a active out_device).
Proof.
  unfold input_snd_device. destruct (ad_mode a =? AUDIO_MODE_IN_CALL).
  { unfold call_input_snd_device.
    repeat match goal with |- context [if ?b then _ else _] => destruct b end;
      try apply default_input_range; vm_compute; intuition congruence. }
  destruct (_ =? AUDIO_SOURCE_CAMCORDER).
  { apply finish_range. destruct (_ || _); vm_compute; intuition congruence. }
  destruct (_ =? AUDIO_SOURCE_VOICE_RECOGNITION).
  { apply finish_range. unfold recognition_snd_device.
    repeat match goal with |- context [if ?b then _ else _] => destruct b end; vm_compute; intuition congruence. }
  destruct (_ || _).
  { apply finish_range. destruct active as [v|]; [|vm_compute; intuition congruence]. unfold aec_snd_device.
    repeat match goal with |- context [if ?b then _ else _] => destruct b end; vm_compute; intuition congruence. }
  destruct (_ =? AUDIO_SOURCE_DEFAULT); [vm_compute; intuition congruence|].
  apply finish_range. vm_compute; intuition congruence.
Qed.

(** ** The book *)

Section Book.
Context {D : Type} `{AudioEnv}.
Implicit Types s : state D.

Definition path_used (f : Z -> Z) (name : string) : Prop :=
  exists d, get_snd_device_name d = Some name /\ 0 < f d.

Definition pending (s : state D) : gset string := paths (k_pending (st_kernel s)) SOUND_CARD.
Definition live (s : state D) : gset string := paths (k_live (st_kernel s)) SOUND_CARD.

Record book (f : Z -> Z) (s : state D) : Prop := {
  b_len : length (ad_ref_cnt (st_adev s)) = 33%nat;
  b_ref : forall d, 1 <= d < 33 -> ad_ref_cnt (st_adev s) !! Z.to_nat d = Some (f d);
  b_pos : forall d, 1 <= d < 33 -> 0 <= f d;
  b_path : forall d name, get_snd_device_name d = Some name -> name ∈ pending s <-> path_used f name
}.

(** The mixer was updated since the last change of a path. *)
Definition settled (s : state D) : Prop := live s = pending s.

(** Nothing but the counters and the paths differs. *)
Definition touched (r : list Z) (p l : gmap Z (gset string)) (s : state D) : state D :=
  on_kernel (fun k => Kernel (k_pcms k) (k_next_pcm k) (k_streaming k) p l (k_written k) (k_calls k))
    (on_adev (set_ad_ref_cnt r) s).

(** The use case has the mixer of the sound card. *)
Definition wired (u : audio_usecase) (s : state D) : Prop :=
  uc_mixers u = [SOUND_CARD] /\ st_nodes s !! (SOUND_CARD, uc_id u) = Some (uc_loc u).

Definition bump (d n : Z) (f : Z -> Z) : Z -> Z := fun x => if x =? d then f x + n else f x.

Lemma bump_eq d n f : bump d n f d = f d + n.
Proof. unfold bump. by rewrite Z.eqb_refl. Qed.

Lemma bump_ne d n f x : x <> d -> bump d n f x = f x.
Proof. unfold bump. intros Hx. by apply Z.eqb_neq in Hx as ->. Qed.

Lemma book_ext f g s : book f s -> (forall d, 1 <= d < 33 -> f d = g d) -> book g s.
Proof.
  intros [Hl Hr Hp Hn] E. split; [done | | |].
  - intros d Hd. rewrite <- E by done. by apply Hr.
  - intros d Hd. rewrite <- E by done. by apply Hp.
  - intros d name Hd. rewrite (Hn d name Hd). unfold path_used.
    split; intros (d' & Hd' & ?); exists d'; (split; [done|]);
      pose proof (snd_device_name_Some _ _ Hd') as [? _]; specialize (E d'); lia.
Qed.

Lemma wp_mixers u (Q : list Z -> state D -> Prop) s :
  wired u s -> Q [SOUND_CARD] s -> wp (mixers_of u (uc_mixers u)) Q s.
Proof.
  intros [-> E] HQ. cbn [mixers_of]. repeat wp_step. by rewrite decide_True by done.
Qed.

Lemma paths_insert m c x : paths (<[c := x]> m) c = x.
Proof. unfold paths. by rewrite lookup_insert_eq. Qed.

Lemma ref_insert d n r f :
  1 <= d < 33 -> length r = 33%nat -> (forall x, 1 <= x < 33 -> r !! Z.to_nat x = Some (f x)) ->
  forall x, 1 <= x < 33 -> <[Z.to_nat d := f d + n]> r !! Z.to_nat x = Some (bump d n f x).
Proof.
  intros Hd Hl Hr x Hx. destruct (decide (x = d)) as [->|Hne].
  - rewrite bump_eq. apply list_lookup_insert_eq. lia.
  - rewrite bump_ne by done. rewrite list_lookup_insert_ne by lia. by apply Hr.
Qed.

(** Two devices with the same path are the same, or [f] does not use the other. *)
Definition alone (d : Z) (f : Z -> Z) : Prop :=
  forall d' name, get_snd_device_name d = Some name -> get_snd_device_name d' = Some name ->
    d' <> d -> f d' = 0.

Lemma wp_ref_cnt d n (Q : Z -> state D -> Prop) s :
  ad_ref_cnt (st_adev s) !! Z.to_nat d = Some n -> Q n s -> wp (ref_cnt d) Q s.
Proof. intros E HQ. unfold ref_cnt. repeat wp_step. by eapply wp_access. Qed.

Lemma path_used_other d n f name n1 :
  get_snd_device_name d = Some name -> n1 <> name ->
  path_used (bump d n f) n1 <-> path_used f n1.
Proof.
  intros Ed Hne. unfold path_used. split; intros (d2 & E2 & H2); exists d2; (split; [done|]).
  - rewrite bump_ne in H2; [done | intros ->; congruence].
  - rewrite bump_ne; [done | intros ->; congruence].
Qed.

Lemma bump_pos d n f :
  (forall x, 1 <= x < 33 -> 0 <= f x) -> 0 <= f d + n -> forall x, 1 <= x < 33 -> 0 <= bump d n f x.
Proof.
  intros Hp Hd x Hx. unfold bump. specialize (Hp x Hx). destruct (Z.eqb_spec x d) as [->|]; lia.
Qed.

(** What enabling and disabling a device lead to. *)
Definition ref_post (b : bool) (f : Z -> Z) (s s' : state D) : Prop :=
  exists r p l, s' = touched r p l s /\ book f s' /\ (b = true -> settled s -> settled s').

Lemma finish_route b f r p l s :
  book f (touched r p l s) ->
  wp (when b (audio_route_update_mixer SOUND_CARD)) (fun _ => ref_post b f s) (touched r p l s).
Proof.
  intros Hb. unfold audio_route_update_mixer. apply wp_when; intros ->; repeat wp_step.
  - eexists r, p, _. split; [reflexivity|]. split; [by destruct Hb|]. intros _ _.
    unfold settled, live, pending. cbn. by rewrite !paths_insert.
  - exists r, p, l. done.
Qed.

(** The counter changes from or to a value where the path does not. *)
Lemma ref_only b d n f s name :
  book f s -> get_snd_device_name d = Some name -> 0 < f d -> 0 < f d + n ->
  ref_post b (bump d n f) s (on_adev (fun a => set_ad_ref_cnt (<[Z.to_nat d := f d + n]> (ad_ref_cnt a)) a) s).
Proof.
  intros [Hl Hr Hp Hn] Ed H1 H2. pose proof (snd_device_name_Some _ _ Ed) as [Hd _].
  exists (<[Z.to_nat d := f d + n]> (ad_ref_cnt (st_adev s))), (k_pending (st_kernel s)),
    (k_live (st_kernel s)). split; [by destruct s as [? ? ? ? ? ? []]|]. split; [|done].
  split; cbn; [by rewrite length_insert | by apply ref_insert | apply bump_pos; auto with lia|].
  intros d1 n1 E1. destruct (decide (n1 = name)) as [->|Hne].
  - rewrite (Hn d name Ed). split; intros _; exists d; (split; [done|]); [by rewrite bump_eq | done].
  - rewrite (Hn d1 n1 E1). symmetry. by apply (path_used_other d n f name).
Qed.

Lemma enable_book u d b f s :
  book f s -> wired u s -> 1 <= d < 33 ->
  wp (enable_snd_device u d b) (fun _ => ref_post b (bump d 1 f) s) s.
Proof.
  intros Hb Hw Hd. destruct (snd_device_name_ok d Hd) as [name Ename].
  unfold enable_snd_device. rewrite Ename.
  apply wp_bind, (wp_ref_cnt _ (f d)); [by apply b_ref|].
  apply wp_bind. unfold set_ref_cnt. apply wp_set_adev.
  apply wp_if; intros Eb.
  - apply wp_ret. apply (ref_only _ _ _ _ _ name); auto with lia.
  - apply wp_bind, wp_mixers; [done|]. cbn [for_each].
    unfold audio_route_apply_path, audio_route_reset_path. repeat wp_step.
    eapply wp_mono; [apply (finish_route b (bump d 1 f) (<[Z.to_nat d := f d + 1]> (ad_ref_cnt (st_adev s)))
      (<[SOUND_CARD := {[name]} ∪ pending s]> (k_pending (st_kernel s))) (k_live (st_kernel s)) s)|].
    2: { intros [] s'' Hs. repeat wp_step. exact Hs. }
    destruct Hb as [Hl Hr Hp Hn].
    split; cbn; [by rewrite length_insert | by apply ref_insert | apply bump_pos; auto with lia|].
    { specialize (Hp d Hd). lia. }
    intros d1 n1 E1. unfold pending at 1. cbn. rewrite paths_insert, elem_of_union, elem_of_singleton.
    destruct (decide (n1 = name)) as [->|Hne].
    + split; [|auto]. intros _. exists d. split; [done|]. rewrite bump_eq. specialize (Hp d Hd). lia.
    + rewrite (path_used_other d 1 f name n1 Ename Hne), <- (Hn d1 n1 E1). naive_solver.
Qed.

Lemma disable_book u d b f s :
  book f s -> wired u s -> 1 <= d < 33 -> 0 < f d -> alone d f ->
  wp (disable_snd_device u d b) (fun _ => ref_post b (bump d (-1) f) s) s.
Proof.
  intros Hb Hw Hd Hpos Hal. destruct (snd_device_name_ok d Hd) as [name Ename].
  unfold disable_snd_device. rewrite Ename.
  apply wp_bind, (wp_ref_cnt _ (f d)); [by apply b_ref|].
  apply wp_if; [lia|]. intros _. apply wp_bind. unfold set_ref_cnt. apply wp_set_adev.
  replace (f d - 1) with (f d + (-1)) by lia.
  apply wp_if; intros Eb.
  - apply wp_bind, wp_mixers; [done|]. cbn [for_each].
    unfold audio_route_apply_path, audio_route_reset_path. repeat wp_step.
    eapply wp_mono; [apply (finish_route b (bump d (-1) f) (<[Z.to_nat d := f d + -1]> (ad_ref_cnt (st_adev s)))
      (<[SOUND_CARD := pending s ∖ {[name]}]> (k_pending (st_kernel s))) (k_live (st_kernel s)) s)|].
    2: { intros [] s'' Hs. repeat wp_step. exact Hs. }
    destruct Hb as [Hl Hr Hp Hn].
    split; cbn; [by rewrite length_insert | by apply ref_insert | apply bump_pos; auto with lia|].
    intros d1 n1 E1. unfold pending at 1. cbn. rewrite paths_insert, elem_of_difference, elem_of_singleton.
    destruct (decide (n1 = name)) as [->|Hne].
    + split; [naive_solver|]. intros (d2 & E2 & H2). exfalso.
      destruct (decide (d2 = d)) as [->|Hne]; [rewrite bump_eq in H2; lia|].
      rewrite bump_ne, (Hal d2 name Ename E2 Hne) in H2 by done. lia.
    + rewrite (path_used_other d (-1) f name n1 Ename Hne), <- (Hn d1 n1 E1). naive_solver.
  - apply wp_ret. apply (ref_only _ _ _ _ _ name); auto with lia.
Qed.
End Book.
