(* ===== verification/AudioInv.v ===== *)
(** * AudioInv: what holds of the audio HAL between calls

    [inv act s], where [act] are the streams that are not in standby: every
    such stream has a use case and every use case such a stream; the counters
    and the mixer paths are those of the use cases; every PCM, hotword stream
    and dsp context that is open belongs to one stream that is not in standby.
    The selection of devices keeps it. *)

From S2P Require Import Prelude CString AudioDefs AudioDevices AudioStreams AudioBook.

Open Scope Z_scope.

(** The laws of a dsp: contexts that were made and not freed can be used. *)
Class DspContextsOk (D : Type) `{DspContexts D} := {
  dsp_ok : D -> gset nat -> Prop;
  dsp_init_ok : forall d l name, dsp_ok d l ->
    exists d', dsp_init name d = Done d' /\ dsp_ok d' l;
  dsp_new_ok : forall d l rate purpose, dsp_ok d l ->
    exists c d', dsp_context_new rate purpose d = Done (c, d') /\
      match c with
      | Some c => c ∉ l /\ dsp_ok d' ({[c]} ∪ l)
      | None => dsp_ok d' l
      end;
  dsp_set_ok : forall d l c key value, dsp_ok d l -> c ∈ l ->
    exists d', dsp_set_variable c key value d = Done d' /\ dsp_ok d' l;
  dsp_load_ok : forall d l c, dsp_ok d l -> c ∈ l ->
    exists d', dsp_load_pipeline c d = Done d' /\ dsp_ok d' l;
  dsp_free_ok : forall d l c, dsp_ok d l -> c ∈ l ->
    exists d', dsp_context_free c d = Done d' /\ dsp_ok d' (l ∖ {[c]});
  dsp_apply_ok : forall d l c xs, dsp_ok d l -> c ∈ l ->
    exists ys d', dsp_pipeline_apply c xs d = Done (ys, d') /\ dsp_ok d' l
}.

(** ** Use cases *)

Definition uc_handle (u : audio_usecase) : nat :=
  match uc_stream u with OutStream h => h | InStream h => h end.

(** How many use cases have a device. *)
Definition uses (l : list audio_usecase) (d : Z) : Z :=
  Z.of_nat (count (fun u => uc_out u =? d) l + count (fun u => uc_in u =? d) l).

Definition one (b : bool) : Z := if b then 1 else 0.

Lemma uses_split l1 l2 u d :
  uses (l1 ++ u :: l2) d = uses (l1 ++ l2) d + one (uc_out u =? d) + one (uc_in u =? d).
Proof.
  unfold uses, one. rewrite !count_app. cbn [count].
  destruct (uc_out u =? d), (uc_in u =? d); lia.
Qed.

Lemma uses_pos l d : 0 <= uses l d.
Proof. unfold uses. lia. Qed.

Lemma uses_cons_pos l u d : u ∈ l -> uc_out u = d \/ uc_in u = d -> 0 < uses l d.
Proof.
  intros Hu Hd. apply list_elem_of_split in Hu as (l1 & l2 & ->). rewrite uses_split.
  pose proof (uses_pos (l1 ++ l2) d). unfold one.
  destruct Hd as [-> | ->]; rewrite Z.eqb_refl; destruct (_ =? d); lia.
Qed.

(** The list with one use case changed, or removed. *)
Definition upd (loc : nat) (f : audio_usecase -> audio_usecase) (l : list audio_usecase) :=
  (fun u => if Nat.eqb (uc_loc u) loc then f u else u) <$> l.
Definition del (loc : nat) (l : list audio_usecase) := filter (fun u => uc_loc u <> loc) l.

Lemma upd_id loc f l : (forall u, u ∈ l -> uc_loc u <> loc) -> upd loc f l = l.
Proof.
  intros Hl. induction l as [|u l IH]; [done|]. cbn. fold (upd loc f l).
  rewrite IH by (intros v Hv; apply Hl; by right).
  assert (uc_loc u <> loc) as Hne by (apply Hl; by left). by apply Nat.eqb_neq in Hne as ->.
Qed.

Lemma del_id loc l : (forall u, u ∈ l -> uc_loc u <> loc) -> del loc l = l.
Proof.
  intros Hl. induction l as [|u l IH]; [done|]. unfold del in *. rewrite filter_cons, decide_True.
  - f_equal. apply IH. intros v Hv. apply Hl. by right.
  - apply Hl. by left.
Qed.

Lemma usecase_split l u :
  NoDup (uc_loc <$> l) -> u ∈ l ->
  exists l1 l2, l = l1 ++ u :: l2 /\ (forall f, upd (uc_loc u) f l = l1 ++ f u :: l2) /\
    del (uc_loc u) l = l1 ++ l2.
Proof.
  intros Hnd Hu. apply list_elem_of_split in Hu as (l1 & l2 & ->). exists l1, l2. split; [done|].
  rewrite fmap_app in Hnd. cbn in Hnd. apply list.NoDup_app in Hnd as (_ & Hd & Hc).
  apply list.NoDup_cons in Hc as [Hc _].
  assert (forall v, v ∈ l1 -> uc_loc v <> uc_loc u) as H1.
  { intros v Hv E. apply (Hd (uc_loc u)); [rewrite <- E; by apply list_elem_of_fmap_2 | left]. }
  assert (forall v, v ∈ l2 -> uc_loc v <> uc_loc u) as H2.
  { intros v Hv E. apply Hc. rewrite <- E. by apply list_elem_of_fmap_2. }
  split.
  - intros f. pose proof (upd_id (uc_loc u) f l1 H1) as E1. pose proof (upd_id (uc_loc u) f l2 H2) as E2.
    unfold upd in *. rewrite fmap_app, fmap_cons. cbn. by rewrite Nat.eqb_refl, E1, E2.
  - pose proof (del_id (uc_loc u) l1 H1) as E1. pose proof (del_id (uc_loc u) l2 H2) as E2.
    unfold del in *. rewrite list.filter_app, filter_cons, decide_False by (intros Hn; by apply Hn). by rewrite E1, E2.
Qed.

(** ** The invariant *)

Section Inv.
Context {D : Type} `{AudioLib} `{AudioEnv} `{DspContextsOk D}.
Implicit Types s : state D.

Notation usecases s := (ad_usecases (st_adev s)).

Definition uc_ok (s : state D) (u : audio_usecase) : Prop :=
  match uc_stream u with
  | OutStream h => exists o, st_outs s !! h = Some o /\ uc_id u = so_usecase o /\
      uc_type u = PCM_PLAYBACK /\ uc_in u = SND_DEVICE_NONE /\ 0 <= uc_out u < 13
  | InStream h => exists i, st_ins s !! h = Some i /\ uc_id u = si_usecase i /\
      uc_type u = PCM_CAPTURE /\ uc_out u = SND_DEVICE_NONE /\ in_range (uc_in u) /\
      (uc_in u <> SND_DEVICE_NONE -> uc_id u = USECASE_AUDIO_CAPTURE)
  end.

Record uses_inv (act : gset nat) (s : state D) : Prop := {
  i_ids : NoDup (uc_id <$> usecases s);
  i_locs : NoDup (uc_loc <$> usecases s);
  i_next : forall u, u ∈ usecases s -> (uc_loc u < st_next s)%nat;
  i_uc : forall u, u ∈ usecases s -> uc_ok s u;
  i_wired : forall u, u ∈ usecases s -> wired u s;
  i_listed : forall u, u ∈ usecases s -> uc_handle u ∈ act;
  i_act : forall h, h ∈ act -> exists u, u ∈ usecases s /\ uc_handle u = h;
  i_book : book (uses (usecases s)) s;
  i_settled : settled s
}.

(** What a stream holds: a PCM, a hotword stream, a dsp context. *)
Definition streaming_of (d : pcm_device) : option Z :=
  if 0 <? pd_sound_trigger d then Some (pd_sound_trigger d) else None.

Record resources : Type := Resources {
  r_pcm : option nat;
  r_streaming : option Z;
  r_dsp : option nat
}.

Definition no_resources : resources := Resources None None None.

Definition dev_res (l : option (list pcm_device)) : resources :=
  match l with
  | Some [d] => Resources (pd_pcm d) (streaming_of d) (pd_dsp d)
  | _ => no_resources
  end.

Definition res (s : state D) (h : nat) : resources :=
  match st_outs s !! h with
  | Some o => dev_res (so_pcm_devs o)
  | None => dev_res (st_ins s !! h ≫= si_pcm_devs)
  end.

(** What may be written to in the profiles: the period of the two that record. *)
Definition profile_like (p q : pcm_device_profile) : Prop :=
  pp_card p = pp_card q /\ pp_type p = pp_type q /\ pp_devices p = pp_devices q /\
  pp_dsp_name p = pp_dsp_name q /\ pc_rate (pp_config p) = pc_rate (pp_config q) /\
  pc_channels (pp_config p) = pc_channels (pp_config q) /\
  (pc_period_size (pp_config p) = CAPTURE_PERIOD_SIZE \/ pc_period_size (pp_config p) = CAPTURE_PERIOD_SIZE_LOW_LATENCY).

Lemma like_period p q : profile_like p q -> 0 < pc_period_size (pp_config p).
Proof.
  intros (_ & _ & _ & _ & _ & _ & [-> | ->]); done.
Qed.

Definition out_ok (act : gset nat) (h : nat) (o : stream_out) : Prop :=
  (h ∈ act -> exists d, so_pcm_devs o = Some [d]) /\
  (h ∉ act -> so_pcm_devs o = None \/ so_pcm_devs o = Some []) /\
  (forall d, so_pcm_devs o = Some [d] -> (pd_profile d < 5)%nat /\ pd_resampler d = false /\
    pd_sound_trigger d = 0) /\
  (so_usecase o = USECASE_AUDIO_PLAYBACK \/ so_usecase o = USECASE_AUDIO_PLAYBACK_DEEP_BUFFER) /\
  so_sample_rate o = 48000 /\
  is_Some (get_pcm_device pcm_devices PCM_PLAYBACK (so_devices o)).

Definition in_ok (act : gset nat) (h : nat) (i : stream_in) : Prop :=
  (h ∈ act -> exists d, si_pcm_devs i = Some [d]) /\
  (h ∉ act -> si_pcm_devs i = None \/ si_pcm_devs i = Some []) /\
  (forall d, si_pcm_devs i = Some [d] -> (pd_profile d < 6)%nat /\ pd_dsp d = None /\
    (si_usecase i <> USECASE_AUDIO_CAPTURE_HOTWORD -> pd_sound_trigger d <= 0)) /\
  (si_usecase i = USECASE_AUDIO_CAPTURE /\ si_usecase_type i = PCM_CAPTURE \/
   si_usecase i = USECASE_AUDIO_CAPTURE_HOTWORD /\ si_usecase_type i = PCM_HOTWORD_STREAMING) /\
  0 < pc_period_size (si_config i).

Record streams_inv (act : gset nat) (s : state D) : Prop := {
  i_outs : forall h o, st_outs s !! h = Some o -> out_ok act h o;
  i_ins : forall h i, st_ins s !! h = Some i -> in_ok act h i;
  i_disj : forall h, is_Some (st_outs s !! h) -> st_ins s !! h = None;
  i_hout : forall h, is_Some (st_outs s !! h) -> (h < st_next s)%nat;
  i_hin : forall h, is_Some (st_ins s !! h) -> (h < st_next s)%nat;
  i_one_out : forall h1 h2 o1 o2, st_outs s !! h1 = Some o1 -> st_outs s !! h2 = Some o2 ->
    so_usecase o1 = so_usecase o2 -> h1 = h2;
  i_one_in : forall h1 h2 i1 i2, st_ins s !! h1 = Some i1 -> st_ins s !! h2 = Some i2 ->
    si_usecase i1 = si_usecase i2 -> h1 = h2
}.

(** [S] are the resources of a kind, and each is held by one stream. *)
Definition owned {R} (holds : nat -> option R) (S : R -> Prop) : Prop :=
  (forall r, S r <-> exists h, holds h = Some r) /\
  (forall h1 h2 r, holds h1 = Some r -> holds h2 = Some r -> h1 = h2).

Record res_inv (s : state D) : Prop := {
  i_pcms : owned (fun h => r_pcm (res s h)) (fun n => n ∈ k_pcms (st_kernel s));
  i_next_pcm : forall n, n ∈ k_pcms (st_kernel s) -> (n < k_next_pcm (st_kernel s))%nat;
  i_streaming : owned (fun h => r_streaming (res s h)) (fun z => z ∈ k_streaming (st_kernel s));
  i_dsp : exists l, dsp_ok (st_dsp s) l /\ owned (fun h => r_dsp (res s h)) (fun c => c ∈ l)
}.

Record adev_inv (act : gset nat) (s : state D) : Prop := {
  i_mixers : ad_mixers (st_adev s) = [SOUND_CARD];
  i_mode : ad_mode (st_adev s) <> AUDIO_MODE_IN_CALL;
  i_in_call : ad_in_call (st_adev s) = false;
  i_active : forall h, ad_active_input (st_adev s) = Some h -> h ∈ act /\ is_Some (st_ins s !! h);
  i_primary : forall h, ad_primary (st_adev s) = Some h -> is_Some (st_outs s !! h);
  i_profiles : Forall2 profile_like (st_profiles s) pcm_devices
}.

Definition inv (act : gset nat) (s : state D) : Prop :=
  uses_inv act s /\ streams_inv act s /\ res_inv s /\ adev_inv act s.

(** ** Selecting devices *)

Definition uc_shape (u : audio_usecase) : nat * Z * stream := (uc_loc u, uc_id u, uc_stream u).

(** Nothing but the counters, the paths and the devices of the use cases. *)
Record keep (s s' : state D) : Prop := {
  kp_outs : st_outs s' = st_outs s;
  kp_ins : st_ins s' = st_ins s;
  kp_profiles : st_profiles s' = st_profiles s;
  kp_next : st_next s' = st_next s;
  kp_dsp : st_dsp s' = st_dsp s;
  kp_pcms : k_pcms (st_kernel s') = k_pcms (st_kernel s);
  kp_next_pcm : k_next_pcm (st_kernel s') = k_next_pcm (st_kernel s);
  kp_streaming : k_streaming (st_kernel s') = k_streaming (st_kernel s);
  kp_mixers : ad_mixers (st_adev s') = ad_mixers (st_adev s);
  kp_mode : ad_mode (st_adev s') = ad_mode (st_adev s);
  kp_in_call : ad_in_call (st_adev s') = ad_in_call (st_adev s);
  kp_active : ad_active_input (st_adev s') = ad_active_input (st_adev s);
  kp_primary : ad_primary (st_adev s') = ad_primary (st_adev s);
  kp_shape : uc_shape <$> usecases s' = uc_shape <$> usecases s
}.

Lemma keep_refl s : keep s s.
Proof. by split. Qed.

Lemma keep_trans s1 s2 s3 : keep s1 s2 -> keep s2 s3 -> keep s1 s3.
Proof. intros [] []. split; congruence. Qed.

Lemma keep_res s s' h : keep s s' -> res s' h = res s h.
Proof. intros K. unfold res. by rewrite (kp_outs _ _ K), (kp_ins _ _ K). Qed.

Lemma owned_ext {R} (F F' : nat -> option R) (S S' : R -> Prop) :
  owned F S -> (forall h, F' h = F h) -> (forall r, S' r <-> S r) -> owned F' S'.
Proof.
  intros [Hown Hinj] EF ES. split.
  - intros r. rewrite ES, Hown. split; intros (h & Hh); exists h; [by rewrite EF | by rewrite <- EF].
  - intros h1 h2 r. rewrite !EF. apply Hinj.
Qed.

(** A stream that held nothing of the kind takes what was free. *)
Lemma owned_acquire {R} (F F' : nat -> option R) (S S' : R -> Prop) h r :
  owned F S -> F h = None -> F' h = Some r -> (forall h', h' <> h -> F' h' = F h') -> ~ S r ->
  (forall r', S' r' <-> r' = r \/ S r') -> owned F' S'.
Proof.
  intros [Hown Hinj] Eh Eh' EF Hr ES. split.
  - intros r'. rewrite ES, Hown. split.
    + intros [-> | (h1 & E1)]; [by exists h|]. exists h1. rewrite EF; [done | congruence].
    + intros (h1 & E1). destruct (decide (h1 = h)) as [-> | Hne]; [left; congruence|].
      right. exists h1. by rewrite <- EF.
  - intros h1 h2 r' E1 E2. destruct (decide (h1 = h)) as [-> | N1], (decide (h2 = h)) as [-> | N2]; try done.
    + rewrite EF in E2 by done. exfalso. apply Hr, Hown. exists h2. congruence.
    + rewrite EF in E1 by done. exfalso. apply Hr, Hown. exists h1. congruence.
    + rewrite EF in E1, E2 by done. by apply (Hinj h1 h2 r').
Qed.

(** A stream gives back what it holds of the kind. *)
Lemma owned_release {R} (F F' : nat -> option R) (S S' : R -> Prop) h r :
  owned F S -> F h = Some r -> F' h = None -> (forall h', h' <> h -> F' h' = F h') ->
  (forall r', S' r' <-> r' <> r /\ S r') -> owned F' S'.
Proof.
  intros [Hown Hinj] Eh Eh' EF ES. split.
  - intros r'. rewrite ES, Hown. split.
    + intros (Hne & h1 & E1). exists h1. rewrite EF; [done | congruence].
    + intros (h1 & E1). destruct (decide (h1 = h)) as [-> | Hne]; [congruence|].
      rewrite EF in E1 by done. split; [|by exists h1].
      intros ->. apply Hne. by apply (Hinj h1 h r).
  - intros h1 h2 r' E1 E2.
    destruct (decide (h1 = h)) as [-> | N1], (decide (h2 = h)) as [-> | N2]; try congruence.
    rewrite EF in E1, E2 by done. by apply (Hinj h1 h2 r').
Qed.

Lemma res_inv_ext s s' :
  res_inv s -> (forall h, res s' h = res s h) ->
  k_pcms (st_kernel s') = k_pcms (st_kernel s) ->
  k_next_pcm (st_kernel s') = k_next_pcm (st_kernel s) ->
  k_streaming (st_kernel s') = k_streaming (st_kernel s) ->
  st_dsp s' = st_dsp s -> res_inv s'.
Proof.
  intros [Hp Hn Hs (l & Hl & Hd)] Ed E1 E2 E3 E4. split; rewrite ?E1, ?E2, ?E3, ?E4; [|done| |].
  - eapply owned_ext; [exact Hp | intros h; cbv beta; by rewrite Ed | done].
  - eapply owned_ext; [exact Hs | intros h; cbv beta; by rewrite Ed | done].
  - exists l. split; [done|]. eapply owned_ext; [exact Hd | intros h; cbv beta; by rewrite Ed | done].
Qed.

Lemma streams_inv_ext act s s' :
  streams_inv act s -> st_outs s' = st_outs s -> st_ins s' = st_ins s -> st_next s' = st_next s ->
  streams_inv act s'.
Proof. intros [] E1 E2 E3. split; rewrite ?E1, ?E2, ?E3; done. Qed.

Lemma keep_rest act s s' :
  keep s s' -> streams_inv act s /\ res_inv s /\ adev_inv act s ->
  streams_inv act s' /\ res_inv s' /\ adev_inv act s'.
Proof.
  intros K (Hs & Hr & Ha). split; [|split].
  - eapply streams_inv_ext; [done | apply K..].
  - eapply res_inv_ext; [done | intros h; by apply keep_res | apply K..].
  - destruct Ha. split; rewrite ?(kp_mixers _ _ K), ?(kp_mode _ _ K), ?(kp_in_call _ _ K),
      ?(kp_active _ _ K), ?(kp_primary _ _ K), ?(kp_ins _ _ K), ?(kp_outs _ _ K),
      ?(kp_profiles _ _ K); done.
Qed.

Lemma touched_keep r p l s : keep s (touched r p l s).
Proof. by split. Qed.
End Inv.
