(* ===== verification/AudioSelect.v ===== *)
(** * AudioSelect: the selection of devices keeps the invariant *)

From S2P Require Import Prelude CString AudioDefs AudioDevices AudioStreams AudioBook AudioInv.

Open Scope Z_scope.

(** ** Lists of use cases *)

Lemma upd_fmap {A} (g : audio_usecase -> A) loc f l :
  (forall u, g (f u) = g u) -> g <$> upd loc f l = g <$> l.
Proof.
  intros Hg. unfold upd. rewrite <- list_fmap_compose. apply list_fmap_ext. intros i u _. cbn.
  destruct (Nat.eqb _ _); [apply Hg | done].
Qed.

Lemma elem_of_upd l u f v :
  NoDup (uc_loc <$> l) -> u ∈ l -> v ∈ upd (uc_loc u) f l -> v ∈ l \/ v = f u.
Proof.
  intros Hnd Hu Hv. destruct (usecase_split l u Hnd Hu) as (l1 & l2 & -> & E & _).
  rewrite E in Hv. set_solver.
Qed.

Lemma elem_of_del l u v : NoDup (uc_loc <$> l) -> u ∈ l -> v ∈ del (uc_loc u) l -> v ∈ l /\ uc_loc v <> uc_loc u.
Proof. intros _ _ Hv. unfold del in Hv. by apply list_elem_of_filter in Hv as [? ?]. Qed.

Lemma uses_upd l u f d :
  NoDup (uc_loc <$> l) -> u ∈ l ->
  uses (upd (uc_loc u) f l) d =
  uses l d - one (uc_out u =? d) - one (uc_in u =? d) + one (uc_out (f u) =? d) + one (uc_in (f u) =? d).
Proof.
  intros Hnd Hu. destruct (usecase_split l u Hnd Hu) as (l1 & l2 & -> & E & _).
  rewrite E, !uses_split. lia.
Qed.

Lemma uses_del l u d :
  NoDup (uc_loc <$> l) -> u ∈ l ->
  uses (del (uc_loc u) l) d = uses l d - one (uc_out u =? d) - one (uc_in u =? d).
Proof.
  intros Hnd Hu. destruct (usecase_split l u Hnd Hu) as (l1 & l2 & -> & _ & E).
  rewrite E, !uses_split. lia.
Qed.

Lemma find_loc l u :
  NoDup (uc_loc <$> l) -> u ∈ l -> find (fun v => Nat.eqb (uc_loc v) (uc_loc u)) l = Some u.
Proof.
  intros Hnd Hu. induction l as [|v l IH]; [by apply not_elem_of_nil in Hu|].
  cbn in *. apply list.NoDup_cons in Hnd as [Hv Hnd]. apply elem_of_cons in Hu as [-> | Hu].
  - by rewrite Nat.eqb_refl.
  - destruct (Nat.eqb_spec (uc_loc v) (uc_loc u)) as [E|_]; [|by apply IH].
    exfalso. apply Hv. rewrite E. by apply list_elem_of_fmap_2.
Qed.

Lemma same_id l u v :
  NoDup (uc_id <$> l) -> u ∈ l -> v ∈ l -> uc_id u = uc_id v -> u = v.
Proof.
  intros Hnd Hu Hv E. apply list_elem_of_lookup in Hu as [i Hi], Hv as [j Hj].
  assert (i = j) as ->; [|congruence].
  eapply (NoDup_lookup (uc_id <$> l)); [done | |]; rewrite list_lookup_fmap; [by rewrite Hi | by rewrite Hj, E].
Qed.

Section Select.
Context {D : Type} `{AudioLib} `{AudioEnv} `{DspContextsOk D}.
Implicit Types s : state D.

Notation usecases s := (ad_usecases (st_adev s)).

Lemma usecase_of_id s id u :
  get_usecase_from_id (st_adev s) id = Some u -> u ∈ usecases s /\ uc_id u = id.
Proof.
  unfold get_usecase_from_id. intros E. apply List.find_some in E as [Hu E].
  split; [by apply list_elem_of_In | by apply Z.eqb_eq].
Qed.

Lemma wp_the_usecase act u (Q : audio_usecase -> state D -> Prop) s :
  uses_inv act s -> u ∈ usecases s -> Q u s -> wp (the_usecase (uc_loc u)) Q s.
Proof.
  intros I Hu HQ. unfold the_usecase. repeat wp_step. eapply wp_access; [|done].
  apply find_loc; [apply I | done].
Qed.

(** ** The counters while devices are switched *)

Definition dis (d : Z) (f : Z -> Z) : Z -> Z := if d =? SND_DEVICE_NONE then f else bump d (-1) f.
Definition ena (d : Z) (f : Z -> Z) : Z -> Z := if d =? SND_DEVICE_NONE then f else bump d 1 f.

Definition switching (f : Z -> Z) (s s' : state D) : Prop :=
  exists r p l, s' = touched r p l s /\ book f s'.

Lemma switching_refl f s : book f s -> switching f s s.
Proof.
  intros Hb. exists (ad_ref_cnt (st_adev s)), (k_pending (st_kernel s)), (k_live (st_kernel s)).
  split; [by destruct s as [[] ? ? ? ? ? [] ?] | done].
Qed.

Lemma opt_disable u d f s :
  book f s -> wired u s -> (d <> SND_DEVICE_NONE -> 1 <= d < 33 /\ 0 < f d /\ alone d f) ->
  wp (when (negb (d =? SND_DEVICE_NONE)) (disable_snd_device u d false;; mret tt))
    (fun _ => switching (dis d f) s) s.
Proof.
  intros Hb Hw Hd. unfold dis. destruct (Z.eqb_spec d SND_DEVICE_NONE) as [_|Hne]; cbn.
  - by apply switching_refl.
  - destruct (Hd Hne) as (Hd1 & Hd2 & Hd3). apply wp_bind. eapply wp_mono; [by apply (disable_book u d false f)|].
    intros _ s' (r & p & l & -> & Hb' & _). apply wp_ret. by exists r, p, l.
Qed.

Lemma opt_enable u d f s :
  book f s -> wired u s -> (d <> SND_DEVICE_NONE -> 1 <= d < 33) ->
  wp (when (negb (d =? SND_DEVICE_NONE)) (enable_snd_device u d false;; mret tt))
    (fun _ => switching (ena d f) s) s.
Proof.
  intros Hb Hw Hd. unfold ena. destruct (Z.eqb_spec d SND_DEVICE_NONE) as [_|Hne]; cbn.
  - by apply switching_refl.
  - apply wp_bind. eapply wp_mono; [apply (enable_book u d false f); auto|].
    intros _ s' (r & p & l & -> & Hb' & _). apply wp_ret. by exists r, p, l.
Qed.

(** Devices of outputs have their paths alone. *)
Lemma alone_out d f : 1 <= d < 13 -> alone d f.
Proof. intros Hd d' name E E' Hne. pose proof (snd_device_name_inj _ _ _ E E'). lia. Qed.

(** Only one use case has a device to record. *)
Lemma alone_in act s u :
  uses_inv act s -> u ∈ usecases s -> 13 <= uc_in u -> alone (uc_in u) (uses (usecases s)).
Proof.
  intros I Hu Hd d' name E E' Hne. pose proof (snd_device_name_inj _ _ _ E E') as Hd'.
  assert (forall v, v ∈ usecases s -> uc_out v <> d' /\ uc_in v <> d') as Hv.
  { intros v Hv. pose proof (i_uc _ _ I v Hv) as Ov. pose proof (i_uc _ _ I u Hu) as Ou.
    unfold uc_ok in Ov, Ou. destruct (uc_stream v) as [h|h].
    - destruct Ov as (o & _ & _ & _ & E1 & E2). unfold SND_DEVICE_NONE in *. lia.
    - destruct Ov as (i & _ & _ & _ & E1 & _ & E2). unfold SND_DEVICE_NONE in *. split; [lia|].
      intros E3. assert (uc_id v = USECASE_AUDIO_CAPTURE) as Iv by (apply E2; lia).
      destruct (uc_stream u) as [h'|h']; [destruct Ou as (? & _ & _ & _ & ? & _); lia|].
      destruct Ou as (? & _ & _ & _ & _ & _ & E4).
      assert (u = v) as -> by (apply (same_id (usecases s)); [apply I | done | done | rewrite Iv; apply E4; lia]).
      lia. }
  unfold uses. clear -Hv. induction (usecases s) as [|v l IH]; [done|]. cbn [count].
  destruct (Hv v) as [Hv1 Hv2]; [by left|]. apply Z.eqb_neq in Hv1 as ->. apply Z.eqb_neq in Hv2 as ->.
  apply IH. intros w Hw. apply Hv. by right.
Qed.

(** ** Switching *)

(** Changes of a use case that keep what it is of. *)
Definition reshapes (f : audio_usecase -> audio_usecase) : Prop :=
  forall u, uc_loc (f u) = uc_loc u /\ uc_id (f u) = uc_id u /\ uc_type (f u) = uc_type u /\
    uc_stream (f u) = uc_stream u /\ uc_mixers (f u) = uc_mixers u.

Lemma uses_inv_upd act s s' u f :
  uses_inv act s -> u ∈ usecases s -> reshapes f ->
  usecases s' = upd (uc_loc u) f (usecases s) ->
  st_outs s' = st_outs s -> st_ins s' = st_ins s -> st_nodes s' = st_nodes s -> st_next s' = st_next s ->
  uc_ok s' (f u) -> book (uses (usecases s')) s' -> settled s' -> uses_inv act s'.
Proof.
  intros I Hu Hf E Eo Ei En Ex Hok Hb Hs.
  assert (forall v, v ∈ usecases s' -> v ∈ usecases s \/ v = f u) as Hin
    by (intros v; rewrite E; apply elem_of_upd; [apply I | done]).
  destruct (Hf u) as (F1 & F2 & F3 & F4 & F5). split; try done.
  - rewrite E, upd_fmap by (intros v; apply Hf). apply I.
  - rewrite E, upd_fmap by (intros v; apply Hf). apply I.
  - intros v Hv. rewrite Ex. destruct (Hin v Hv) as [Hv' | ->]; [by apply I|]. rewrite F1. by apply I.
  - intros v Hv. destruct (Hin v Hv) as [Hv' | ->]; [|done].
    pose proof (i_uc _ _ I v Hv') as Hk. unfold uc_ok in *. by rewrite Eo, Ei.
  - intros v Hv. unfold wired. rewrite En. destruct (Hin v Hv) as [Hv' | ->]; [by apply (i_wired _ _ I)|].
    rewrite F1, F2, F5. by apply (i_wired _ _ I).
  - intros v Hv. destruct (Hin v Hv) as [Hv' | ->]; [by apply I|].
    unfold uc_handle. rewrite F4. by apply (i_listed _ _ I).
  - intros h Hh. destruct (i_act _ _ I h Hh) as (v & Hv & <-).
    rewrite E. exists (if Nat.eqb (uc_loc v) (uc_loc u) then f v else v). split.
    + unfold upd. by apply (list_elem_of_fmap_2 (fun w => if Nat.eqb (uc_loc w) (uc_loc u) then f w else w)).
    + destruct (Nat.eqb _ _); [|done]. unfold uc_handle. destruct (Hf v) as (_ & _ & _ & -> & _). done.
Qed.

(** The new devices of a use case, for its kind. *)
Definition new_devices (u : audio_usecase) (o i : Z) : Prop :=
  match uc_stream u with
  | OutStream _ => i = SND_DEVICE_NONE /\ 0 <= o < 13
  | InStream _ => o = SND_DEVICE_NONE /\ in_range i /\ (i <> SND_DEVICE_NONE -> uc_id u = USECASE_AUDIO_CAPTURE)
  end.

Lemma old_disable act s u :
  uses_inv act s -> u ∈ usecases s ->
  (uc_out u <> SND_DEVICE_NONE -> 1 <= uc_out u < 33 /\ 0 < uses (usecases s) (uc_out u) /\
     alone (uc_out u) (uses (usecases s))) /\
  (uc_in u <> SND_DEVICE_NONE -> 1 <= uc_in u < 33 /\ 0 < uses (usecases s) (uc_in u) /\
     alone (uc_in u) (uses (usecases s))) /\
  (uc_out u = SND_DEVICE_NONE \/ uc_in u = SND_DEVICE_NONE).
Proof.
  intros I Hu. pose proof (i_uc _ _ I u Hu) as Ou. unfold uc_ok, in_range, SND_DEVICE_NONE in *.
  pose proof (fun d => uses_cons_pos (usecases s) u d Hu) as Hp.
  destruct (uc_stream u) as [h|h].
  - destruct Ou as (o & _ & _ & _ & Ei & Eo). split_and!; [|lia|lia].
    intros Hne. split_and!; [lia | lia | apply Hp; by left | apply alone_out; lia].
  - destruct Ou as (i & _ & _ & _ & Eo & Ei & _). split_and!; [lia| |lia].
    intros Hne. split_and!; [lia | lia | apply Hp; by right | apply (alone_in act); [done | done | lia]].
Qed.
Lemma switched_uses s act u o i d :
  uses_inv act s -> u ∈ usecases s -> 1 <= d < 33 ->
  ena i (ena o (dis (uc_in u) (dis (uc_out u) (uses (usecases s))))) d =
  uses (upd (uc_loc u) (fun u => set_uc_out o (set_uc_in i u)) (usecases s)) d.
Proof.
  intros I Hu Hd. rewrite uses_upd by (done || apply I). cbn.
  assert (forall x f, ena x f d = f d + one (x =? d)) as Ee.
  { intros x f. unfold ena, bump, one, SND_DEVICE_NONE. destruct (Z.eqb_spec x 0) as [-> | _].
    - destruct (Z.eqb_spec 0 d); lia.
    - rewrite (Z.eqb_sym d x). destruct (Z.eqb_spec x d) as [-> | _]; lia. }
  assert (forall x f, dis x f d = f d - one (x =? d)) as Ed.
  { intros x f. unfold dis, bump, one, SND_DEVICE_NONE. destruct (Z.eqb_spec x 0) as [-> | _].
    - destruct (Z.eqb_spec 0 d); lia.
    - rewrite (Z.eqb_sym d x). destruct (Z.eqb_spec x d) as [-> | _]; lia. }
  rewrite !Ee, !Ed. lia.
Qed.

(** The four steps of a switch. *)
Lemma wp_switching act s u o i (m : M D Z) Q :
  uses_inv act s -> u ∈ usecases s -> new_devices u o i ->
  (forall r p l, book (ena i (ena o (dis (uc_in u) (dis (uc_out u) (uses (usecases s)))))) (touched r p l s) ->
    wp m Q (touched r p l s)) ->
  wp (when (negb (uc_out u =? SND_DEVICE_NONE)) (disable_snd_device u (uc_out u) false;; mret tt);;
      when (negb (uc_in u =? SND_DEVICE_NONE)) (disable_snd_device u (uc_in u) false;; mret tt);;
      when (negb (o =? SND_DEVICE_NONE)) (enable_snd_device u o false;; mret tt);;
      when (negb (i =? SND_DEVICE_NONE)) (enable_snd_device u i false;; mret tt);; m) Q s.
Proof.
  intros I Hu Hn Hm. destruct (old_disable act s u I Hu) as (Ho & Hi & Hor).
  pose proof (i_wired _ _ I u Hu) as Hw.
  assert ((o <> SND_DEVICE_NONE -> 1 <= o < 33) /\ (i <> SND_DEVICE_NONE -> 1 <= i < 33)) as [Ro Ri].
  { unfold new_devices, in_range, SND_DEVICE_NONE in *. destruct (uc_stream u); lia. }
  apply wp_bind. eapply wp_mono; [apply opt_disable; [apply I | done | done]|].
  intros _ s1 (r1 & p1 & l1 & -> & B1).
  apply wp_bind. eapply wp_mono; [apply opt_disable; [exact B1 | exact Hw |]|].
  { intros Hne. destruct Hor as [E|]; [|done]. unfold dis. rewrite E. cbn. by apply Hi. }
  intros _ s2 (r2 & p2 & l2 & -> & B2).
  apply wp_bind. eapply wp_mono; [apply opt_enable; [exact B2 | exact Hw | done]|].
  intros _ s3 (r3 & p3 & l3 & -> & B3).
  apply wp_bind. eapply wp_mono; [apply opt_enable; [exact B3 | exact Hw | done]|].
  intros _ s4 (r4 & p4 & l4 & -> & B4). by apply (Hm r4 p4 l4).
Qed.

Lemma wp_switch act s u o i :
  uses_inv act s -> u ∈ usecases s -> new_devices u o i ->
  wp (switch_devices (uc_loc u) o i) (fun _ s' => uses_inv act s' /\ keep s s') s.
Proof.
  intros I Hu Hn. unfold switch_devices. apply wp_bind, (wp_the_usecase act); [done | done|].
  apply wp_if; intros _; [apply wp_ret; by split|].
  apply (wp_switching act); [done | done | done|]. intros r p l B.
  apply wp_bind, wp_mixers; [by apply (i_wired _ _ I)|]. cbn [for_each].
  unfold audio_route_update_mixer, set_usecase. repeat wp_step.
  split; [|split; try done; by apply upd_fmap].
  apply (uses_inv_upd act s _ u (fun u => set_uc_out o (set_uc_in i u))); try done.
  - pose proof (i_uc _ _ I u Hu) as Ou. unfold uc_ok, new_devices in *. cbn in *.
    destruct (uc_stream u); [destruct Ou as (x & ? & ? & ? & ? & ?) | destruct Ou as (x & ? & ? & ? & ? & ? & ?)];
      exists x; split_and!; naive_solver.
  - eapply book_ext; [|intros d Hd; by apply (switched_uses s act u o i d)].
    by destruct B.
  - unfold settled, live, pending. cbn. by rewrite paths_insert.
Qed.
Lemma inv_keep act s s' : inv act s -> uses_inv act s' -> keep s s' -> inv act s'.
Proof. intros (_ & I) Hu K. split; [done|]. by apply (keep_rest act s). Qed.

(** Recording what a use case is routed to. *)
Lemma wp_set_devices act s u x (Q : unit -> state D -> Prop) :
  uses_inv act s -> u ∈ usecases s ->
  (forall s', uses_inv act s' -> keep s s' -> set_uc_devices x u ∈ usecases s' ->
     ad_mode (st_adev s') = ad_mode (st_adev s) -> Q tt s') ->
  wp (set_usecase (uc_loc u) (set_uc_devices x)) Q s.
Proof.
  intros I Hu HQ. unfold set_usecase. apply wp_set_adev, HQ; [|split; try done; by apply upd_fmap| |done].
  - apply (uses_inv_upd act s _ u (set_uc_devices x)); try done; [exact (i_uc _ _ I u Hu)| | apply I].
    apply (book_ext (uses (usecases s))); [by destruct (i_book _ _ I)|]. intros d _.
    change (uses (usecases s) d = uses (upd (uc_loc u) (set_uc_devices x) (usecases s)) d).
    rewrite uses_upd by (done || apply I). cbn. lia.
  - cbn. apply list_elem_of_fmap. exists u. by rewrite Nat.eqb_refl.
Qed.

Definition active_ok (s : state D) (av : option in_view) : Prop :=
  match av with
  | Some v => exists h i, st_ins s !! h = Some i /\ v = view_of_in i
  | None => forall u h, u ∈ usecases s -> uc_stream u <> InStream h
  end.

Lemma wp_active_view act s (Q : option in_view -> state D -> Prop) :
  uses_inv act s -> (forall av, active_ok s av -> Q av s) -> wp active_view Q s.
Proof.
  intros I HQ. unfold active_view. repeat wp_step. unfold get_usecase_from_type.
  destruct (find _ _) as [u|] eqn:E.
  - apply List.find_some in E as [Hu E]. apply list_elem_of_In in Hu.
    pose proof (i_uc _ _ I u Hu) as Ou. unfold uc_ok in Ou.
    destruct (uc_stream u) as [h|h] eqn:Es.
    { destruct Ou as (o & _ & _ & Ht & _). by rewrite Ht in E. }
    destruct Ou as (i & Hi & _). apply wp_bind. cbn [view_stream].
    apply wp_bind, (wp_the_in h i); [done|]. repeat wp_step. apply HQ. by exists h, i.
  - apply wp_ret, HQ. intros u h Hu Es. pose proof (i_uc _ _ I u Hu) as Ou. unfold uc_ok in Ou.
    rewrite Es in Ou. destruct Ou as (i & _ & _ & Ht & _).
    apply (List.find_none _ _) with (x := u) in E; [|by apply list_elem_of_In]. by rewrite Ht in E.
Qed.

Lemma wp_capture_out_device act s v (Q : Z -> state D -> Prop) :
  adev_inv act s -> (forall d, Q d s) -> wp (capture_out_device v) Q s.
Proof.
  intros I HQ. unfold capture_out_device. repeat wp_step. apply wp_if; intros _; [|by apply wp_ret].
  destruct (ad_primary (st_adev s)) as [p|] eqn:E; [|by apply wp_ret].
  destruct (i_primary _ _ I p E) as [o Ho]. apply wp_bind, (wp_the_out p o); [done|]. by apply wp_ret.
Qed.

Definition select_post (act : gset nat) (s : state D) (_ : Z) (s' : state D) : Prop :=
  inv act s' /\ keep s s'.

Lemma switch_post act s s1 u o i :
  inv act s -> uses_inv act s1 -> keep s s1 -> u ∈ usecases s1 -> new_devices u o i ->
  wp (switch_devices (uc_loc u) o i) (select_post act s) s1.
Proof.
  intros I I1 K Hu Hn. eapply wp_mono; [by apply (wp_switch act)|]. intros a s' [I' K'].
  assert (keep s s') as K2 by (by apply (keep_trans s s1)). split; [|done]. by apply (inv_keep act s).
Qed.

(** The use case of a stream that records. *)
Lemma select_capture act s av u h :
  inv act s -> active_ok s av -> u ∈ usecases s -> uc_stream u = InStream h ->
  uc_id u = USECASE_AUDIO_CAPTURE ->
  wp (v ← view_stream (uc_stream u);
      set_usecase (uc_loc u) (set_uc_devices (v_devices v));;
      if SND_DEVICE_NONE =? SND_DEVICE_NONE then
        active ← lift (access av);
        out_device ← capture_out_device active;
        in_snd_device ← get_input_snd_device out_device;
        switch_devices (uc_loc u) SND_DEVICE_NONE in_snd_device
      else switch_devices (uc_loc u) SND_DEVICE_NONE SND_DEVICE_NONE) (select_post act s) s.
Proof.
  intros I Hav Hu Es Hid. pose proof I as (IU & _ & _ & IA).
  pose proof (i_uc _ _ IU u Hu) as Ou. unfold uc_ok in Ou. rewrite Es in Ou.
  destruct Ou as (i & Hi & _). rewrite Es. apply wp_bind. cbn [view_stream].
  apply wp_bind, (wp_the_in h i); [done|]. apply wp_ret.
  apply wp_bind, (wp_set_devices act); [done | done|]. intros s1 I1 K1 Hu1 _. cbn.
  assert (adev_inv act s1) as IA1 by (apply (keep_rest act s s1 K1), I).
  destruct av as [v|]; [|by destruct (Hav u h)].
  apply wp_bind, wp_lift. apply wp_bind, (wp_capture_out_device act); [done|]. intros d.
  apply wp_bind. unfold get_input_snd_device.
  apply wp_bind, (wp_active_view act); [done|]. intros av1 _. repeat wp_step.
  change (uc_loc u) with (uc_loc (set_uc_devices (si_devices i) u)).
  apply switch_post; try done. unfold new_devices. cbn. rewrite Es.
  split_and!; [done | apply input_snd_device_range | done].
Qed.

Lemma shape_in s s' u :
  keep s s' -> u ∈ usecases s ->
  exists u', u' ∈ usecases s' /\ uc_loc u' = uc_loc u /\ uc_id u' = uc_id u /\ uc_stream u' = uc_stream u.
Proof.
  intros K Hu. assert (uc_shape u ∈ uc_shape <$> usecases s') as Hs
    by (rewrite (kp_shape _ _ K); by apply list_elem_of_fmap_2).
  apply list_elem_of_fmap in Hs as (u' & E & Hu'). unfold uc_shape in E. exists u'. naive_solver.
Qed.

(** The use case of a stream that plays; [m] selects for the active input. *)
Lemma select_playback act s u h (m : M D unit) :
  inv act s -> u ∈ usecases s -> uc_stream u = OutStream h ->
  (forall s1, inv act s1 -> keep s s1 -> wp m (fun _ s2 => inv act s2 /\ keep s1 s2) s1) ->
  wp (devices ← out_devices (uc_stream u);
      set_usecase (uc_loc u) (set_uc_devices devices);;
      m;;
      switch_devices (uc_loc u) (get_output_snd_device (st_adev s) devices) SND_DEVICE_NONE)
    (select_post act s) s.
Proof.
  intros I Hu Es Hm. pose proof I as (IU & _ & _ & IA).
  pose proof (i_uc _ _ IU u Hu) as Ou. unfold uc_ok in Ou. rewrite Es in Ou.
  destruct Ou as (o & Ho & _). rewrite Es. cbn [out_devices].
  apply wp_bind, wp_bind, (wp_the_out h o); [done|]. apply wp_ret.
  apply wp_bind, (wp_set_devices act); [done | done|]. intros s1 I1 K1 Hu1 _.
  apply wp_bind. eapply wp_mono; [apply Hm; [by apply (inv_keep act s) | done]|].
  intros _ s2 [I2 K2]. assert (keep s s2) as K by (by apply (keep_trans s s1)).
  destruct (shape_in s s2 u K Hu) as (u2 & Hu2 & <- & _ & Es2).
  apply switch_post; [done | apply I2 | done | done|]. unfold new_devices. rewrite Es2, Es.
  split; [done|]. apply output_snd_device_range, IA.
Qed.

Lemma wp_call_devices act s (Q : Z * Z -> state D -> Prop) :
  adev_inv act s -> Q (SND_DEVICE_NONE, SND_DEVICE_NONE) s -> wp call_devices Q s.
Proof. intros I HQ. unfold call_devices. repeat wp_step. by rewrite (i_in_call _ _ I). Qed.

Lemma in_stream_id act s u h :
  inv act s -> u ∈ usecases s -> uc_stream u = InStream h ->
  uc_id u = USECASE_AUDIO_CAPTURE \/ uc_id u = USECASE_AUDIO_CAPTURE_HOTWORD.
Proof.
  intros (IU & IS & _) Hu Es. pose proof (i_uc _ _ IU u Hu) as Ou. unfold uc_ok in Ou.
  rewrite Es in Ou. destruct Ou as (i & Hi & -> & _).
  destruct (i_ins _ _ IS h i Hi) as (_ & _ & _ & [[? _] | [? _]] & _); auto.
Qed.

(** The inner selection is for a use case that records. *)
Definition records (s : state D) (id : Z) : Prop :=
  forall u, u ∈ usecases s -> uc_id u = id -> exists h, uc_stream u = InStream h.

Lemma wp_select_with act s id inner :
  inv act s ->
  (forall s1 id1, inv act s1 -> records s1 id1 -> ~ records s id ->
     wp (inner id1) (fun _ s2 => inv act s2 /\ keep s1 s2) s1) ->
  wp (select_with inner id) (select_post act s) s.
Proof.
  intros I Hin. pose proof I as (IU & IS & _ & IA). unfold select_with.
  destruct (Z.eqb_spec id USECASE_AUDIO_CAPTURE_HOTWORD) as [_|Hne]; [by apply wp_ret|].
  apply wp_bind, (wp_active_view act); [done|]; intros av Hav; do 2 wp_step.
  destruct (get_usecase_from_id (st_adev s) id) as [u|] eqn:Eu; [|by apply wp_ret].
  apply usecase_of_id in Eu as [Hu Hid].
  pose proof (i_uc _ _ IU u Hu) as Ou; unfold uc_ok in Ou. destruct (uc_stream u) as [h|h] eqn:Es.
  - destruct Ou as (x & _ & _ & -> & _). change (PCM_PLAYBACK =? VOICE_CALL) with false.
    apply wp_bind, (wp_call_devices act); [done|]. rewrite <- Es.
    change (PCM_PLAYBACK =? PCM_PLAYBACK) with true. change (SND_DEVICE_NONE =? SND_DEVICE_NONE) with true.
    apply (select_playback act s u h); [done | done | done|]. intros s1 I1 K1.
    destruct av as [v|]; [|by apply wp_ret]. destruct Hav as (hi & i & Hi & ->).
    apply wp_when; intros _; [|done]. apply Hin; [done | |].
    + intros u1 Hu1 E1. cbn in E1. pose proof (i_uc _ _ (proj1 I1) u1 Hu1) as O1. unfold uc_ok in O1.
      destruct (uc_stream u1) as [h1|h1]; [|by exists h1]. exfalso.
      destruct O1 as (o1 & Ho1 & E2 & _). pose proof (proj1 (proj2 I1)) as IS1.
      rewrite <- (kp_ins _ _ K1) in Hi.
      pose proof (i_ins _ _ IS1 hi i Hi) as (_ & _ & _ & T1 & _).
      pose proof (i_outs _ _ IS1 h1 o1 Ho1) as (_ & _ & _ & T2 & _).
      unfold USECASE_AUDIO_CAPTURE, USECASE_AUDIO_CAPTURE_HOTWORD, USECASE_AUDIO_PLAYBACK,
        USECASE_AUDIO_PLAYBACK_DEEP_BUFFER in *. lia.
    + intros Hr. destruct (Hr u Hu Hid) as (h' & E). congruence.
  - destruct (in_stream_id act s u h I Hu Es) as [Hc|Hc]; [|congruence].
    destruct Ou as (x & _ & _ & -> & _). change (PCM_CAPTURE =? VOICE_CALL) with false.
    apply wp_bind, (wp_call_devices act); [done|]. rewrite <- Es.
    change (PCM_CAPTURE =? PCM_PLAYBACK) with false. change (PCM_CAPTURE =? PCM_CAPTURE) with true.
    by apply (select_capture act s av u h).
Qed.

Lemma wp_select act s id : inv act s -> wp (select id) (select_post act s) s.
Proof.
  intros I. unfold select. cbn [select_devices]. apply (wp_select_with act); [done|].
  intros s1 id1 I1 Hr1 _. apply wp_bind.
  eapply wp_mono; [apply (wp_select_with act); [done|]; by intros | auto].
Qed.
End Select.
