(* ===== verification/AudioFrame.v ===== *)
(** * AudioFrame: changing one stream, and adding or removing its use case *)

From S2P Require Import Prelude CString AudioDefs AudioDevices AudioStreams AudioBook AudioInv AudioSelect.

Open Scope Z_scope.

Section Frame.
Context {D : Type} `{AudioLib} `{AudioEnv} `{DspContextsOk D}.
Implicit Types s : state D.

Notation usecases s := (ad_usecases (st_adev s)).

(** What of the streams only the client changes. *)
Definition so_ctl (o : stream_out) : bool * Z * Z := (so_standby o, so_devices o, so_usecase o).
Definition si_ctl (i : stream_in) : bool * Z * Z * Z :=
  (si_standby i, si_main_channels i, si_usecase i, si_usecase_type i).

Definition ctl (s s' : state D) : Prop :=
  so_ctl <$> st_outs s' = so_ctl <$> st_outs s /\ si_ctl <$> st_ins s' = si_ctl <$> st_ins s.

(** A change of outputs only. *)
Definition pointers (a : audio_device) : option nat * option nat := (ad_active_input a, ad_primary a).
Definition octl (s s' : state D) : Prop :=
  so_ctl <$> st_outs s' = so_ctl <$> st_outs s /\ st_ins s' = st_ins s /\
  pointers (st_adev s') = pointers (st_adev s).

(** A change of one input, of the streams; and of that which is active neither. *)
Definition itl (h : nat) (s s' : state D) : Prop :=
  ctl s s' /\ forall h', h' <> h -> st_ins s' !! h' = st_ins s !! h'.
Definition ictl (h : nat) (s s' : state D) : Prop :=
  itl h s s' /\ ad_active_input (st_adev s') = ad_active_input (st_adev s).

Lemma ctl_refl s : ctl s s.
Proof. by split. Qed.

Lemma octl_refl s : octl s s.
Proof. by split_and!. Qed.

Lemma octl_ctl s s' : octl s s' -> ctl s s'.
Proof. intros (E1 & E2 & _). split; [done | by rewrite E2]. Qed.

Lemma ctl_trans s1 s2 s3 : ctl s1 s2 -> ctl s2 s3 -> ctl s1 s3.
Proof. intros [] []. split; congruence. Qed.

Lemma octl_trans s1 s2 s3 : octl s1 s2 -> octl s2 s3 -> octl s1 s3.
Proof. intros (? & ? & ?) (? & ? & ?). split_and!; congruence. Qed.

Lemma octl_keep s s' : keep s s' -> octl s s'.
Proof.
  intros K. split_and!; [by rewrite (kp_outs _ _ K) | apply K|]. unfold pointers.
  by rewrite (kp_active _ _ K), (kp_primary _ _ K).
Qed.

Lemma octl_active s s' : octl s s' -> ad_active_input (st_adev s') = ad_active_input (st_adev s).
Proof. intros (_ & _ & [= -> _]). done. Qed.

Lemma itl_trans h s1 s2 s3 : itl h s1 s2 -> itl h s2 s3 -> itl h s1 s3.
Proof.
  intros [C1 E1] [C2 E2]. split; [by apply (ctl_trans s1 s2)|]. intros h' Hne. by rewrite E2, E1.
Qed.

Lemma ictl_trans h s1 s2 s3 : ictl h s1 s2 -> ictl h s2 s3 -> ictl h s1 s3.
Proof. intros [] []. split; [by apply (itl_trans h s1 s2) | congruence]. Qed.

Lemma ictl_keep h s s' : keep s s' -> ictl h s s'.
Proof.
  intros K. split; [|apply K]. split.
  - split; [by rewrite (kp_outs _ _ K) | by rewrite (kp_ins _ _ K)].
  - intros h' _. by rewrite (kp_ins _ _ K).
Qed.

Lemma ctl_out s s' h o :
  ctl s s' -> st_outs s !! h = Some o -> exists o', st_outs s' !! h = Some o' /\ so_ctl o' = so_ctl o.
Proof.
  intros [E _] Ho. apply (f_equal (fun m => m !! h)) in E. rewrite !lookup_fmap, Ho in E.
  destruct (st_outs s' !! h) as [o'|]; [|done]. exists o'. split; [done|]. exact (inj Some _ _ E).
Qed.

Lemma ctl_in s s' h i :
  ctl s s' -> st_ins s !! h = Some i -> exists i', st_ins s' !! h = Some i' /\ si_ctl i' = si_ctl i.
Proof.
  intros [_ E] Hi. apply (f_equal (fun m => m !! h)) in E. rewrite !lookup_fmap, Hi in E.
  destruct (st_ins s' !! h) as [i'|]; [|done]. exists i'. split; [done|]. exact (inj Some _ _ E).
Qed.

Lemma ctl_sym s s' : ctl s s' -> ctl s' s.
Proof. intros []. by split. Qed.

Lemma octl_set_out s s' h o o' :
  st_outs s !! h = Some o -> so_ctl o' = so_ctl o ->
  st_outs s' = <[h := o']> (st_outs s) -> st_ins s' = st_ins s ->
  pointers (st_adev s') = pointers (st_adev s) -> octl s s'.
Proof.
  intros Ho E Eo Ei Ea. split; [|done]. rewrite Eo, fmap_insert, E.
  apply insert_id. by rewrite lookup_fmap, Ho.
Qed.

Lemma itl_set_in s s' h i i' :
  st_ins s !! h = Some i -> si_ctl i' = si_ctl i ->
  st_ins s' = <[h := i']> (st_ins s) -> st_outs s' = st_outs s -> itl h s s'.
Proof.
  intros Hi E Ei Eo. split; [split; [by rewrite Eo|]|].
  - rewrite Ei, fmap_insert, E. apply insert_id. by rewrite lookup_fmap, Hi.
  - intros h' Hne. rewrite Ei. by apply lookup_insert_ne.
Qed.

(** ** Changing a stream *)

(** The same streams are active, but for one. *)
Definition agrees_off (h : nat) (act act' : gset nat) : Prop :=
  forall h', h' <> h -> h' ∈ act' <-> h' ∈ act.

Lemma agrees_refl h act : agrees_off h act act.
Proof. done. Qed.

Lemma out_ok_act act act' h o : (h ∈ act' <-> h ∈ act) -> out_ok act h o -> out_ok act' h o.
Proof. unfold out_ok. intros E (O1 & O2 & O). rewrite E. done. Qed.

Lemma in_ok_act act act' h i : (h ∈ act' <-> h ∈ act) -> in_ok act h i -> in_ok act' h i.
Proof. unfold in_ok. intros E (O1 & O2 & O). rewrite E. done. Qed.

Lemma streams_set_out act act' s s' h o o' :
  streams_inv act s -> st_outs s !! h = Some o -> so_usecase o' = so_usecase o ->
  out_ok act' h o' -> agrees_off h act act' ->
  st_outs s' = <[h := o']> (st_outs s) -> st_ins s' = st_ins s -> (st_next s <= st_next s')%nat ->
  streams_inv act' s'.
Proof.
  intros I Ho Eu Hok Ha Eo Ei En.
  assert (forall h', is_Some (st_outs s' !! h') -> is_Some (st_outs s !! h')) as Hdom.
  { intros h'. rewrite Eo, lookup_insert_is_Some'. intros [<- | ?]; [by exists o | done]. }
  assert (forall h' o1, st_outs s' !! h' = Some o1 ->
            exists o2, st_outs s !! h' = Some o2 /\ so_usecase o2 = so_usecase o1) as Huc.
  { intros h' o1. rewrite Eo, lookup_insert_Some. intros [[<- <-] | [_ E1]]; [by exists o | by exists o1]. }
  split; rewrite ?Ei.
  - intros h' o1. rewrite Eo, lookup_insert_Some. intros [[<- <-] | [Hne E1]]; [done|].
    apply (out_ok_act act); [by apply Ha | by apply (i_outs _ _ I)].
  - intros h' i Hi. apply (in_ok_act act); [|by apply (i_ins _ _ I)]. apply Ha. intros ->.
    rewrite (i_disj _ _ I h) in Hi; [done | by exists o].
  - intros h' Hh. by apply (i_disj _ _ I), Hdom.
  - intros h' Hh. pose proof (i_hout _ _ I h' (Hdom h' Hh)). lia.
  - intros h' Hh. pose proof (i_hin _ _ I h' Hh). lia.
  - intros h1 h2 o1 o2 E1 E2 E. destruct (Huc _ _ E1) as (p1 & F1 & G1), (Huc _ _ E2) as (p2 & F2 & G2).
    apply (i_one_out _ _ I h1 h2 p1 p2); congruence.
  - apply I.
Qed.

Lemma streams_set_in act act' s s' h i i' :
  streams_inv act s -> st_ins s !! h = Some i -> si_usecase i' = si_usecase i ->
  in_ok act' h i' -> agrees_off h act act' ->
  st_ins s' = <[h := i']> (st_ins s) -> st_outs s' = st_outs s -> (st_next s <= st_next s')%nat ->
  streams_inv act' s'.
Proof.
  intros I Hi Eu Hok Ha Ei Eo En.
  assert (forall h', is_Some (st_ins s' !! h') -> is_Some (st_ins s !! h')) as Hdom.
  { intros h'. rewrite Ei, lookup_insert_is_Some'. intros [<- | ?]; [by exists i | done]. }
  assert (forall h' i1, st_ins s' !! h' = Some i1 ->
            exists i2, st_ins s !! h' = Some i2 /\ si_usecase i2 = si_usecase i1) as Huc.
  { intros h' i1. rewrite Ei, lookup_insert_Some. intros [[<- <-] | [_ E1]]; [by exists i | by exists i1]. }
  split; rewrite ?Eo.
  - intros h' o Ho. apply (out_ok_act act); [|by apply (i_outs _ _ I)]. apply Ha. intros ->.
    rewrite (i_disj _ _ I h) in Hi; [done | by exists o].
  - intros h' i1. rewrite Ei, lookup_insert_Some. intros [[<- <-] | [Hne E1]]; [done|].
    apply (in_ok_act act); [by apply Ha | by apply (i_ins _ _ I)].
  - intros h' Hh. rewrite Ei. apply lookup_insert_None.
    split; [by apply (i_disj _ _ I)|]. intros <-. rewrite (i_disj _ _ I h Hh) in Hi. done.
  - intros h' Hh. pose proof (i_hout _ _ I h' Hh). lia.
  - intros h' Hh. pose proof (i_hin _ _ I h' (Hdom h' Hh)). lia.
  - apply I.
  - intros h1 h2 i1 i2 E1 E2 E. destruct (Huc _ _ E1) as (p1 & F1 & G1), (Huc _ _ E2) as (p2 & F2 & G2).
    apply (i_one_in _ _ I h1 h2 p1 p2); congruence.
Qed.

Lemma uc_ok_out s s' h o o' u :
  st_outs s !! h = Some o -> so_usecase o' = so_usecase o ->
  st_outs s' = <[h := o']> (st_outs s) -> st_ins s' = st_ins s -> uc_ok s u -> uc_ok s' u.
Proof.
  intros Ho E Eo Ei. unfold uc_ok. destruct (uc_stream u) as [h'|h']; [|by rewrite Ei].
  intros (x & Hx & Hu). rewrite Eo. destruct (decide (h' = h)) as [-> | Hne].
  - exists o'. rewrite lookup_insert_eq. split; [done|]. rewrite E. congruence.
  - exists x. by rewrite lookup_insert_ne.
Qed.

Lemma uc_ok_in s s' h i i' u :
  st_ins s !! h = Some i -> si_usecase i' = si_usecase i ->
  st_ins s' = <[h := i']> (st_ins s) -> st_outs s' = st_outs s -> uc_ok s u -> uc_ok s' u.
Proof.
  intros Hi E Ei Eo. unfold uc_ok. destruct (uc_stream u) as [h'|h']; [by rewrite Eo|].
  intros (x & Hx & Hu). rewrite Ei. destruct (decide (h' = h)) as [-> | Hne].
  - exists i'. rewrite lookup_insert_eq. split; [done|]. rewrite E. congruence.
  - exists x. by rewrite lookup_insert_ne.
Qed.

(** Only what the use cases do not depend on. *)
Lemma uses_inv_ext act s s' :
  uses_inv act s -> usecases s' = usecases s -> ad_ref_cnt (st_adev s') = ad_ref_cnt (st_adev s) ->
  st_nodes s' = st_nodes s -> (st_next s <= st_next s')%nat ->
  k_pending (st_kernel s') = k_pending (st_kernel s) -> k_live (st_kernel s') = k_live (st_kernel s) ->
  (forall u, uc_ok s u -> uc_ok s' u) -> uses_inv act s'.
Proof.
  intros I E1 E2 E3 E4 E5 E6 Hok. split; rewrite ?E1; try apply I.
  - intros u Hu. pose proof (i_next _ _ I u Hu). lia.
  - intros u Hu. by apply Hok, I.
  - intros u Hu. unfold wired. rewrite E3. by apply (i_wired _ _ I).
  - destruct (i_book _ _ I) as [B1 B2 B3 B4].
    split; unfold pending; rewrite ?E2, ?E5; done.
  - unfold settled, live, pending. rewrite E5, E6. apply I.
Qed.

Lemma inv_set_out act s s' h o o' :
  inv act s -> st_outs s !! h = Some o -> so_usecase o' = so_usecase o -> out_ok act h o' ->
  st_outs s' = <[h := o']> (st_outs s) -> st_ins s' = st_ins s -> st_adev s' = st_adev s ->
  st_nodes s' = st_nodes s -> st_next s' = st_next s -> st_profiles s' = st_profiles s ->
  k_pending (st_kernel s') = k_pending (st_kernel s) -> k_live (st_kernel s') = k_live (st_kernel s) ->
  res_inv s' -> inv act s'.
Proof.
  intros (IU & IS & IR & IA) Ho Eu Hok Eo Ei Ea En Ex Ep E5 E6 Hr. split_and!; [| |done|].
  - apply (uses_inv_ext act s); rewrite ?Ea, ?Ex; try done. intros u. by apply (uc_ok_out s s' h o o').
  - apply (streams_set_out act act s s' h o o'); rewrite ?Ex; done.
  - destruct IA. split; rewrite ?Ea, ?Ei, ?Ep; try done.
    intros h' Hp. rewrite Eo, lookup_insert_is_Some'. auto.
Qed.

Lemma inv_set_in act s s' h i i' :
  inv act s -> st_ins s !! h = Some i -> si_usecase i' = si_usecase i -> in_ok act h i' ->
  st_ins s' = <[h := i']> (st_ins s) -> st_outs s' = st_outs s -> st_adev s' = st_adev s ->
  st_nodes s' = st_nodes s -> st_next s' = st_next s -> st_profiles s' = st_profiles s ->
  k_pending (st_kernel s') = k_pending (st_kernel s) -> k_live (st_kernel s') = k_live (st_kernel s) ->
  res_inv s' -> inv act s'.
Proof.
  intros (IU & IS & IR & IA) Hi Eu Hok Ei Eo Ea En Ex Ep E5 E6 Hr. split_and!; [| |done|].
  - apply (uses_inv_ext act s); rewrite ?Ea, ?Ex; try done. intros u. by apply (uc_ok_in s s' h i i').
  - apply (streams_set_in act act s s' h i i'); rewrite ?Ex; done.
  - destruct IA as [? ? ? A1 A2 A3]. split; rewrite ?Ea, ?Eo, ?Ep; try done.
    intros h' Hp. rewrite Ei, lookup_insert_is_Some'. destruct (A1 h' Hp). auto.
Qed.

(** ** What streams hold *)

Lemma res_set_out s s' h o o' h' :
  st_outs s !! h = Some o -> st_outs s' = <[h := o']> (st_outs s) -> st_ins s' = st_ins s ->
  res s' h' = if decide (h' = h) then dev_res (so_pcm_devs o') else res s h'.
Proof.
  intros Ho Eo Ei. unfold res. rewrite Eo, Ei. destruct (decide (h' = h)) as [-> | Hne].
  - by rewrite lookup_insert_eq.
  - by rewrite lookup_insert_ne.
Qed.

Lemma res_set_in act s s' h i i' h' :
  streams_inv act s -> st_ins s !! h = Some i -> st_ins s' = <[h := i']> (st_ins s) -> st_outs s' = st_outs s ->
  res s' h' = if decide (h' = h) then dev_res (si_pcm_devs i') else res s h'.
Proof.
  intros I Hi Ei Eo. unfold res. rewrite Eo, Ei. destruct (decide (h' = h)) as [-> | Hne].
  - destruct (st_outs s !! h) eqn:E; [|by rewrite lookup_insert_eq].
    rewrite (i_disj _ _ I h) in Hi; [done | by rewrite E].
  - by rewrite lookup_insert_ne.
Qed.

Lemma res_out s h o : st_outs s !! h = Some o -> res s h = dev_res (so_pcm_devs o).
Proof. unfold res. by intros ->. Qed.

Lemma res_in act s h i : streams_inv act s -> st_ins s !! h = Some i -> res s h = dev_res (si_pcm_devs i).
Proof.
  intros I Hi. unfold res. destruct (st_outs s !! h) eqn:E; [|by rewrite Hi].
  rewrite (i_disj _ _ I h) in Hi; [done | by rewrite E].
Qed.

(** ** Use cases *)

Lemma uses_inv_add act s s' u :
  uses_inv act s -> usecases s' = usecases s ++ [u] -> uc_loc u = st_next s ->
  uc_out u = SND_DEVICE_NONE -> uc_in u = SND_DEVICE_NONE -> uc_mixers u = [SOUND_CARD] ->
  (forall v, v ∈ usecases s -> uc_id v <> uc_id u) ->
  st_nodes s' = <[(SOUND_CARD, uc_id u) := uc_loc u]> (st_nodes s) -> (st_next s < st_next s')%nat ->
  ad_ref_cnt (st_adev s') = ad_ref_cnt (st_adev s) ->
  k_pending (st_kernel s') = k_pending (st_kernel s) -> k_live (st_kernel s') = k_live (st_kernel s) ->
  (forall v, uc_ok s v -> uc_ok s' v) -> uc_ok s' u ->
  uses_inv ({[uc_handle u]} ∪ act) s'.
Proof.
  intros I E El Eo Ei Em Hid En Ex Er E5 E6 Hok Hu.
  assert (forall v, v ∈ usecases s' <-> v ∈ usecases s \/ v = u) as Hin
    by (intros v; rewrite E, elem_of_app, list_elem_of_singleton; done).
  split.
  - rewrite E, fmap_app. apply list.NoDup_app. split; [apply I|]. split; [|apply list.NoDup_singleton].
    intros x Hx. cbn. rewrite list_elem_of_singleton. apply list_elem_of_fmap in Hx as (v & -> & Hv). by apply Hid.
  - rewrite E, fmap_app. apply list.NoDup_app. split; [apply I|]. split; [|apply list.NoDup_singleton].
    intros x Hx. cbn. rewrite list_elem_of_singleton. apply list_elem_of_fmap in Hx as (v & -> & Hv).
    pose proof (i_next _ _ I v Hv). lia.
  - intros v Hv. apply Hin in Hv as [Hv | ->]; [pose proof (i_next _ _ I v Hv)|]; lia.
  - intros v Hv. apply Hin in Hv as [Hv | ->]; [by apply Hok, I | done].
  - intros v Hv. unfold wired. rewrite En. apply Hin in Hv as [Hv | ->].
    + destruct (i_wired _ _ I v Hv) as [W1 W2]. split; [done|].
      rewrite lookup_insert_ne; [done|]. intros [= E1]. by apply (Hid v).
    + by rewrite lookup_insert_eq.
  - intros v Hv. apply Hin in Hv as [Hv | ->]; [|set_solver]. pose proof (i_listed _ _ I v Hv). set_solver.
  - intros h Hh. apply elem_of_union in Hh as [Hh | Hh].
    + apply elem_of_singleton in Hh as ->. exists u. rewrite Hin. auto.
    + destruct (i_act _ _ I h Hh) as (v & Hv & <-). exists v. rewrite Hin. auto.
  - apply (book_ext (uses (usecases s))).
    + destruct (i_book _ _ I) as [B1 B2 B3 B4]. split; unfold pending; rewrite ?Er, ?E5; done.
    + intros d Hd. rewrite E, (uses_split _ [] u). rewrite app_nil_r, Eo, Ei.
      unfold one, SND_DEVICE_NONE. destruct (Z.eqb_spec 0 d); lia.
  - unfold settled, live, pending. rewrite E5, E6. apply I.
Qed.

Lemma uses_inv_del act s s' u :
  uses_inv act s -> u ∈ usecases s -> usecases s' = del (uc_loc u) (usecases s) ->
  (forall v, v ∈ usecases s -> uc_handle v = uc_handle u -> v = u) ->
  st_nodes s' = st_nodes s -> st_next s' = st_next s ->
  (forall v, uc_ok s v -> uc_ok s' v) ->
  book (uses (usecases s')) s' -> settled s' ->
  uses_inv (act ∖ {[uc_handle u]}) s'.
Proof.
  intros I Hu E Hone En Ex Hok Hb Hs.
  assert (forall v, v ∈ usecases s' -> v ∈ usecases s /\ uc_loc v <> uc_loc u) as Hin
    by (intros v; rewrite E; apply elem_of_del; [apply I | done]).
  split; try done.
  - rewrite E. destruct (usecase_split _ _ (i_locs _ _ I) Hu) as (l1 & l2 & El & _ & ->).
    pose proof (i_ids _ _ I) as Hnd. rewrite El, fmap_app, fmap_cons in Hnd. rewrite fmap_app.
    apply list.NoDup_app in Hnd as (N1 & N2 & N3). apply list.NoDup_cons in N3 as [_ N3].
    apply list.NoDup_app. split_and!; [done | | done]. intros x Hx Hx2. apply (N2 x Hx). by right.
  - rewrite E. destruct (usecase_split _ _ (i_locs _ _ I) Hu) as (l1 & l2 & El & _ & ->).
    pose proof (i_locs _ _ I) as Hnd. rewrite El, fmap_app, fmap_cons in Hnd. rewrite fmap_app.
    apply list.NoDup_app in Hnd as (N1 & N2 & N3). apply list.NoDup_cons in N3 as [_ N3].
    apply list.NoDup_app. split_and!; [done | | done]. intros x Hx Hx2. apply (N2 x Hx). by right.
  - intros v Hv. rewrite Ex. by apply (i_next _ _ I), Hin.
  - intros v Hv. by apply Hok, (i_uc _ _ I), Hin.
  - intros v Hv. unfold wired. rewrite En. by apply (i_wired _ _ I), Hin.
  - intros v Hv. apply Hin in Hv as [Hv Hl]. apply elem_of_difference. split; [by apply (i_listed _ _ I)|].
    rewrite elem_of_singleton. intros Eh. by rewrite (Hone v Hv Eh) in Hl.
  - intros h Hh. apply elem_of_difference in Hh as [Hh Hne]. rewrite elem_of_singleton in Hne.
    destruct (i_act _ _ I h Hh) as (v & Hv & <-). exists v. split; [|done].
    rewrite E. unfold del. apply list_elem_of_filter. split; [|done].
    intros El. apply Hne. assert (v = u) as ->; [|done].
    apply list_elem_of_lookup in Hv as [x Hx], Hu as [y Hy].
    assert (x = y) as ->; [|congruence]. eapply (NoDup_lookup (uc_loc <$> usecases s)); [apply I| |];
      rewrite list_lookup_fmap; [by rewrite Hx | by rewrite Hy, El].
Qed.

(** Every active stream has one use case. *)
Lemma one_usecase act s u v :
  inv act s -> u ∈ usecases s -> v ∈ usecases s -> uc_handle v = uc_handle u -> v = u.
Proof.
  intros (IU & IS & _) Hu Hv E. pose proof (i_uc _ _ IU u Hu) as Ou. pose proof (i_uc _ _ IU v Hv) as Ov.
  unfold uc_ok, uc_handle in *.
  apply (same_id (usecases s)); [apply IU | done | done|].
  destruct (uc_stream u) as [h|h], (uc_stream v) as [h'|h']; subst;
    destruct Ou as (x & Hx & -> & _), Ov as (y & Hy & -> & _); try congruence.
  - rewrite (i_disj _ _ IS h) in Hy; [done | by exists x].
  - rewrite (i_disj _ _ IS h) in Hx; [done | by exists y].
Qed.
End Frame.
