(* ===== verification/AudioOut.v ===== *)
(** * AudioOut: output streams that start and stop keep the invariant *)

From S2P Require Import Prelude CString AudioDefs AudioDevices AudioStreams AudioBook AudioInv AudioSelect AudioFrame.

Open Scope Z_scope.

Section Out.
Context {D : Type} `{AudioLib} `{AudioEnv} `{DspContextsOk D}.
Implicit Types s : state D.

Notation usecases s := (ad_usecases (st_adev s)).

(** ** Profiles *)

Lemma profile_lookup act s n p :
  adev_inv act s -> pcm_devices !! n = Some p ->
  exists q, st_profiles s !! n = Some q /\ profile_like q p.
Proof.
  intros I Hp. destruct (Forall2_lookup_r _ _ _ _ _ (i_profiles _ _ I) Hp) as (q & Hq & L). by exists q.
Qed.

Lemma profile_exists act s n :
  adev_inv act s -> (n < 6)%nat -> exists p q, pcm_devices !! n = Some p /\
    st_profiles s !! n = Some q /\ profile_like q p.
Proof.
  intros I Hn. destruct (lookup_lt_is_Some_2 pcm_devices n) as [p Hp]; [done|].
  destruct (profile_lookup act s n p I Hp) as (q & ? & ?). by exists p, q.
Qed.

Lemma find_idx_ext {A} (P Q : A -> bool) l1 l2 :
  Forall2 (fun x y => P x = Q y) l1 l2 -> find_idx P l1 = find_idx Q l2.
Proof. induction 1 as [|x y l1 l2 E _ IH]; cbn; [done|]. by rewrite E, IH. Qed.

Lemma get_pcm_device_like act s type devices :
  adev_inv act s -> get_pcm_device (st_profiles s) type devices = get_pcm_device pcm_devices type devices.
Proof.
  intros I. unfold get_pcm_device. destruct (_ =? 0); [done|]. apply find_idx_ext.
  eapply Forall2_impl; [|exact (i_profiles _ _ I)]. intros p q (_ & -> & -> & _). done.
Qed.

(** The profile for hotwords is the last one. *)
Lemma get_pcm_device_playback devices n :
  get_pcm_device pcm_devices PCM_PLAYBACK devices = Some n -> (n < 5)%nat.
Proof.
  unfold get_pcm_device. destruct (_ =? 0); [done|]. intros E. pose proof (find_idx_lt _ _ _ E) as Hlt.
  apply find_idx_Some in E as [(p & Hp & E) _]. destruct (decide (n = 5%nat)) as [-> | Hne].
  - injection Hp as <-. discriminate E.
  - change (length pcm_devices) with 6%nat in Hlt. lia.
Qed.

Lemma profiles_rate n p : pcm_devices !! n = Some p -> (n < 5)%nat -> pc_rate (pp_config p) = 48000.
Proof. intros Hp Hn. do 5 (destruct n as [|n]; [by injection Hp as <-|]). lia. Qed.

Lemma get_pcm_device_lt type devices n :
  get_pcm_device pcm_devices type devices = Some n -> (n < 6)%nat.
Proof. unfold get_pcm_device. destruct (_ =? 0); [done|]. intros E. by apply find_idx_lt in E. Qed.

(** Every profile is of the one sound card, and plays at one rate. *)
Lemma profiles_card n p : pcm_devices !! n = Some p -> pp_card p = SOUND_CARD.
Proof. intros Hp. do 6 (destruct n as [|n]; [by injection Hp as <-|]). done. Qed.

Lemma wp_mixer_for_card s (Q : option Z -> state D -> Prop) :
  ad_mixers (st_adev s) = [SOUND_CARD] -> Q (Some SOUND_CARD) s ->
  wp (adev_get_mixer_for_card SOUND_CARD) Q s.
Proof. intros E HQ. unfold adev_get_mixer_for_card. repeat wp_step. by rewrite E. Qed.

(** ** A new use case *)

Lemma fresh_id act s h o v :
  inv act s -> st_outs s !! h = Some o -> h ∉ act -> v ∈ usecases s -> uc_id v <> so_usecase o.
Proof.
  intros (IU & IS & _) Ho Hh Hv E. pose proof (i_uc _ _ IU v Hv) as Ov. pose proof (i_listed _ _ IU v Hv) as Hl.
  destruct (i_outs _ _ IS h o Ho) as (_ & _ & _ & T & _). unfold uc_ok, uc_handle in *.
  destruct (uc_stream v) as [h'|h']; destruct Ov as (x & Hx & Ex & _).
  - assert (h' = h) as -> by (apply (i_one_out _ _ IS h' h x o); congruence). done.
  - destruct (i_ins _ _ IS h' x Hx) as (_ & _ & _ & T' & _).
    unfold USECASE_AUDIO_CAPTURE, USECASE_AUDIO_CAPTURE_HOTWORD, USECASE_AUDIO_PLAYBACK,
      USECASE_AUDIO_PLAYBACK_DEEP_BUFFER in *. lia.
Qed.

(** What new_playback leads to. *)
Definition played (h : nat) (o : stream_out) (p : nat) (u : audio_usecase) (s : state D) : state D :=
  on_adev (fun a => set_ad_usecases (ad_usecases a ++ [u]) a)
    (on_nodes (insert (SOUND_CARD, uc_id u) (uc_loc u))
      (State (st_adev s) (<[h := set_so_pcm_devs (Some [new_pcm_device p]) o]> (st_outs s)) (st_ins s)
        (st_profiles s) (st_nodes s) (S (st_next s)) (st_kernel s) (st_dsp s))).

Lemma wp_new_playback_eq act s h o (Q : unit -> state D -> Prop) :
  inv act s -> st_outs s !! h = Some o ->
  (forall p, (p < 5)%nat ->
    Q tt (played h o p (Usecase (st_next s) (so_usecase o) PCM_PLAYBACK (so_devices o) SND_DEVICE_NONE
            SND_DEVICE_NONE (OutStream h) [SOUND_CARD]) s)) ->
  wp (new_playback h (so_usecase o) PCM_PLAYBACK) Q s.
Proof.
  intros (IU & IS & IR & IA) Ho HQ. unfold new_playback.
  apply wp_bind, (wp_the_out h o); [done|]. apply wp_bind, wp_fresh.
  apply wp_bind. unfold uc_select_pcm_devices. cbn [uc_stream uc_type uc_devices set_uc_mixers].
  destruct (i_outs _ _ IS h o Ho) as (_ & _ & _ & _ & _ & [p Hp]).
  apply wp_bind, (wp_set_out h _ o); [done|]. repeat wp_step. cbn [st_profiles on_outs].
  rewrite (get_pcm_device_like act) by done. rewrite Hp.
  apply wp_bind. eapply wp_set_out; [apply lookup_insert_eq|].
  apply get_pcm_device_playback in Hp.
  destruct (profile_exists act s p IA ltac:(lia)) as (q & q' & Hq & Hq' & L1 & _).
  apply wp_bind, (wp_the_profile p q'); [done|]. rewrite L1, (profiles_card p q Hq).
  apply wp_bind. unfold uc_get_mixer_for_card. cbn [uc_mixers mixers_of]. repeat wp_step. cbn [find].
  apply wp_bind. apply wp_mixer_for_card; [apply IA|].
  unfold add_mixer. apply wp_bind, (wp_access _ SOUND_CARD); [done|]. repeat wp_step.
  specialize (HQ p Hp). unfold played in HQ.
  unfold on_adev, on_nodes, on_outs in *. cbn in HQ |- *. rewrite insert_insert_eq. exact HQ.
Qed.

Lemma playback_ok act h o p :
  out_ok act h o -> (p < 5)%nat ->
  out_ok ({[h]} ∪ act) h (set_so_pcm_devs (Some [new_pcm_device p]) o).
Proof.
  intros (O1 & O2 & O3 & O4 & O5 & O6) Hp. split_and!; try done; cbn.
  - intros _. by eexists.
  - set_solver.
  - intros d [= <-]. done.
Qed.

Lemma agrees_add h act : agrees_off h act ({[h]} ∪ act).
Proof. intros h' Hne. set_solver. Qed.

Lemma agrees_del h act : agrees_off h act (act ∖ {[h]}).
Proof. intros h' Hne. set_solver. Qed.

Lemma idle_res act s h o : streams_inv act s -> st_outs s !! h = Some o -> h ∉ act -> res s h = no_resources.
Proof.
  intros I Ho Hh. rewrite (res_out _ _ _ Ho). destruct (i_outs _ _ I h o Ho) as (_ & O & _).
  by destruct (O Hh) as [-> | ->].
Qed.

Lemma wp_new_playback act s h o :
  inv act s -> st_outs s !! h = Some o -> h ∉ act ->
  wp (new_playback h (so_usecase o) PCM_PLAYBACK)
    (fun _ s' => inv ({[h]} ∪ act) s' /\ octl s s' /\ res s' h = no_resources) s.
Proof.
  intros I Ho Hh. apply (wp_new_playback_eq act); [done | done|]. intros p Hp.
  pose proof I as (IU & IS & IR & IA).
  set (u := Usecase _ _ _ _ _ _ _ _). set (s' := played h o p u s).
  set (o' := set_so_pcm_devs (Some [new_pcm_device p]) o).
  assert (st_outs s' = <[h := o']> (st_outs s)) as Eo by done.
  assert (forall h', res s' h' = res s h') as Er.
  { intros h'. rewrite (res_set_out s s' h o o') by done. destruct (decide (h' = h)) as [-> | _]; [|done].
    by rewrite (idle_res act s h o). }
  split_and!.
  - split_and!.
    + apply (uses_inv_add act s s' u); try done; cbn; [|lia| |].
      * intros v Hv. by apply (fresh_id act s h o).
      * intros v. by apply (uc_ok_out s s' h o o').
      * exists o'. rewrite lookup_insert_eq. unfold SND_DEVICE_NONE. split_and!; try done.
    + apply (streams_set_out act _ s s' h o o'); try done; [|apply agrees_add | cbn; lia].
      apply playback_ok; [by apply (i_outs _ _ IS) | done].
    + by apply (res_inv_ext s).
    + destruct IA as [A1 A2 A3 A4 A5 A6]. split; try done; cbn.
      * intros h' Ha. destruct (A4 h' Ha). split; [set_solver | done].
      * intros h' Ha. rewrite lookup_insert_is_Some'. auto.
  - by apply (octl_set_out s s' h o o').
  - rewrite Er. by apply (idle_res act s h o).
Qed.
(** ** Opening *)

Lemma wp_with_dsp {A} (f : D -> outcome (A * D)) a d (Q : A -> state D -> Prop) s :
  f (st_dsp s) = Done (a, d) ->
  Q a (State (st_adev s) (st_outs s) (st_ins s) (st_profiles s) (st_nodes s) (st_next s) (st_kernel s) d) ->
  wp (with_dsp f) Q s.
Proof. intros E HQ. unfold wp, with_dsp. by rewrite E. Qed.

Lemma wp_dsp_do (f : D -> outcome D) d (Q : unit -> state D -> Prop) s :
  f (st_dsp s) = Done d ->
  Q tt (State (st_adev s) (st_outs s) (st_ins s) (st_profiles s) (st_nodes s) (st_next s) (st_kernel s) d) ->
  wp (dsp_do f) Q s.
Proof. intros E HQ. unfold dsp_do. eapply wp_with_dsp; [by rewrite E | done]. Qed.

(** The one device of an active output, changed. *)
Lemma out_device_inv act s s' h o d d' :
  inv act s -> st_outs s !! h = Some o -> so_pcm_devs o = Some [d] -> h ∈ act ->
  pd_profile d' = pd_profile d -> pd_resampler d' = false -> pd_sound_trigger d' = 0 ->
  st_outs s' = <[h := set_so_pcm_devs (Some [d']) o]> (st_outs s) -> st_ins s' = st_ins s ->
  st_adev s' = st_adev s -> st_nodes s' = st_nodes s -> st_next s' = st_next s ->
  st_profiles s' = st_profiles s -> k_pending (st_kernel s') = k_pending (st_kernel s) ->
  k_live (st_kernel s') = k_live (st_kernel s) -> res_inv s' -> inv act s' /\ octl s s'.
Proof.
  intros I Ho Ed Hh Ep Er Es Eo Ei Ea En Ex Epr E5 E6 Hr. split.
  - apply (inv_set_out act s s' h o (set_so_pcm_devs (Some [d']) o)); try done.
    destruct (i_outs _ _ (proj1 (proj2 I)) h o Ho) as (O1 & O2 & O3 & O4 & O5 & O6).
    split_and!; try done; cbn.
    + intros _. by eexists.
    + intros d1 [= <-]. rewrite Ep, Er, Es. destruct (O3 d Ed) as (? & _ & _). done.
  - apply (octl_set_out s s' h o (set_so_pcm_devs (Some [d']) o)); try done. by rewrite Ea.
Qed.

(** Nothing but the dsp. *)
Lemma dsp_inv act s d' l :
  inv act s -> dsp_ok d' l -> owned (fun h => r_dsp (res s h)) (fun c => c ∈ l) ->
  let s' := State (st_adev s) (st_outs s) (st_ins s) (st_profiles s) (st_nodes s) (st_next s) (st_kernel s) d' in
  inv act s' /\ octl s s'.
Proof.
  intros (IU & IS & [R1 R2 R3 _] & IA) Hl Ho s'. split; [|by repeat split]. split_and!.
  - by apply (uses_inv_ext act s).
  - by apply (streams_inv_ext act s).
  - split; try done. by exists l.
  - by destruct IA.
Qed.

(** The output stream [h] with one device, of the profile [p]. *)
Definition has_device (s : state D) (h p : nat) (r : resources) : Prop :=
  exists o d, st_outs s !! h = Some o /\ so_pcm_devs o = Some [d] /\ pd_profile d = p /\
    pd_resampler d = false /\ pd_sound_trigger d = 0 /\ pd_pcm d = r_pcm r /\ pd_dsp d = r_dsp r.

Lemma has_device_ctl s h p r o : has_device s h p r -> st_outs s !! h = Some o -> exists d, so_pcm_devs o = Some [d].
Proof. intros (o' & d & Ho & Ed & _) Ho'. exists d. congruence. Qed.

Lemma out_device_exists act s h o :
  inv act s -> st_outs s !! h = Some o -> h ∈ act ->
  exists p, (p < 5)%nat /\ has_device s h p (res s h).
Proof.
  intros (_ & IS & _) Ho Hh. destruct (i_outs _ _ IS h o Ho) as (O1 & _ & O3 & _).
  destruct (O1 Hh) as [d Ed]. destruct (O3 d Ed) as (Hp & Hr & Hs). exists (pd_profile d). split; [done|].
  exists o, d. rewrite (res_out _ _ _ Ho), Ed. done.
Qed.

Lemma has_device_res s h p r : has_device s h p r -> res s h = Resources (r_pcm r) None (r_dsp r).
Proof.
  intros (o & d & Ho & Ed & _ & _ & Es & E1 & E2). rewrite (res_out _ _ _ Ho), Ed. cbn.
  unfold streaming_of. by rewrite Es, E1, E2.
Qed.

(** A PCM, or a dsp context, that was free is taken, or given back. *)
Lemma pcm_taken s s' h n :
  res_inv s -> (forall h', h' <> h -> res s' h' = res s h') ->
  r_pcm (res s h) = None -> res s' h = Resources (Some n) (r_streaming (res s h)) (r_dsp (res s h)) ->
  n = k_next_pcm (st_kernel s) -> k_pcms (st_kernel s') = {[n]} ∪ k_pcms (st_kernel s) ->
  k_next_pcm (st_kernel s') = S n -> k_streaming (st_kernel s') = k_streaming (st_kernel s) ->
  st_dsp s' = st_dsp s -> res_inv s'.
Proof.
  intros [R1 R2 R3 (l & Hl & R4)] Ho Ep Er En E1 E2 E3 E4. split; rewrite ?E1, ?E2, ?E3, ?E4.
  - apply (owned_acquire _ _ _ _ h n R1); [done | by rewrite Er | | | set_solver].
    + intros h' Hne. by rewrite Ho.
    + intros Hn. specialize (R2 n Hn). lia.
  - intros m Hm. apply elem_of_union in Hm as [Hm | Hm]; [|specialize (R2 m Hm); lia].
    apply elem_of_singleton in Hm. lia.
  - apply (owned_ext _ _ _ _ R3); [|done]. intros h'. destruct (decide (h' = h)) as [-> | Hne];
      [by rewrite Er | by rewrite Ho].
  - exists l. split; [done|]. apply (owned_ext _ _ _ _ R4); [|done]. intros h'.
    destruct (decide (h' = h)) as [-> | Hne]; [by rewrite Er | by rewrite Ho].
Qed.

Lemma pcm_given s s' h n :
  res_inv s -> (forall h', h' <> h -> res s' h' = res s h') ->
  r_pcm (res s h) = Some n -> res s' h = Resources None (r_streaming (res s h)) (r_dsp (res s h)) ->
  k_pcms (st_kernel s') = k_pcms (st_kernel s) ∖ {[n]} ->
  k_next_pcm (st_kernel s') = k_next_pcm (st_kernel s) ->
  k_streaming (st_kernel s') = k_streaming (st_kernel s) -> st_dsp s' = st_dsp s -> res_inv s'.
Proof.
  intros [R1 R2 R3 (l & Hl & R4)] Ho Ep Er E1 E2 E3 E4. split; rewrite ?E1, ?E2, ?E3, ?E4.
  - apply (owned_release _ _ _ _ h n R1); [done | by rewrite Er | | set_solver].
    intros h' Hne. by rewrite Ho.
  - intros m Hm. apply R2. set_solver.
  - apply (owned_ext _ _ _ _ R3); [|done]. intros h'. destruct (decide (h' = h)) as [-> | Hne];
      [by rewrite Er | by rewrite Ho].
  - exists l. split; [done|]. apply (owned_ext _ _ _ _ R4); [|done]. intros h'.
    destruct (decide (h' = h)) as [-> | Hne]; [by rewrite Er | by rewrite Ho].
Qed.

Lemma dsp_changed s s' h l (S' : nat -> Prop) :
  res_inv s -> (forall h', h' <> h -> res s' h' = res s h') ->
  r_pcm (res s' h) = r_pcm (res s h) -> r_streaming (res s' h) = r_streaming (res s h) ->
  st_kernel s' = st_kernel s -> dsp_ok (st_dsp s') l ->
  owned (fun h => r_dsp (res s' h)) (fun c => c ∈ l) -> res_inv s'.
Proof.
  intros [R1 R2 R3 _] Ho E1 E2 Ek Hl R4. split; rewrite ?Ek; [| done | | by exists l].
  - apply (owned_ext _ _ _ _ R1); [|done]. intros h'.
    destruct (decide (h' = h)) as [-> | Hne]; [by rewrite E1 | by rewrite Ho].
  - apply (owned_ext _ _ _ _ R3); [|done]. intros h'.
    destruct (decide (h' = h)) as [-> | Hne]; [by rewrite E2 | by rewrite Ho].
Qed.
Lemma wp_set_device s h o d f (Q : unit -> state D -> Prop) :
  st_outs s !! h = Some o -> so_pcm_devs o = Some [d] ->
  Q tt (on_outs (insert h (set_so_pcm_devs (Some [f d]) o)) s) -> wp (set_out_device h 0%nat f) Q s.
Proof.
  intros Ho Ed HQ. unfold set_out_device. apply (wp_set_out h _ o); [done|]. by rewrite Ed.
Qed.

Definition opened (act : gset nat) (s : state D) (h p : nat) (n c : option nat) (s' : state D) : Prop :=
  inv act s' /\ octl s s' /\ has_device s' h p (Resources n None c).

(** The device gets or loses its dsp context. *)
Lemma dsp_given act s h o d d' d2 l l' :
  inv act s -> h ∈ act -> st_outs s !! h = Some o -> so_pcm_devs o = Some [d] ->
  pd_sound_trigger d = 0 -> pd_profile d' = pd_profile d -> pd_pcm d' = pd_pcm d ->
  pd_resampler d' = false -> pd_sound_trigger d' = 0 ->
  owned (fun h => r_dsp (res s h)) (fun c => c ∈ l) -> dsp_ok d2 l' ->
  (match pd_dsp d' with
   | Some c => pd_dsp d = None /\ c ∉ l /\ l' = {[c]} ∪ l
   | None => match pd_dsp d with None => l' = l | Some c => l' = l ∖ {[c]} end
   end) ->
  opened act s h (pd_profile d) (pd_pcm d) (pd_dsp d')
    (State (st_adev s) (<[h := set_so_pcm_devs (Some [d']) o]> (st_outs s)) (st_ins s)
       (st_profiles s) (st_nodes s) (st_next s) (st_kernel s) d2).
Proof.
  intros I Hh Ho Ed Es Ep' En' Er' Es' Hown Hl Hc. set (s2 := State _ _ _ _ _ _ _ _).
  assert (res s h = Resources (pd_pcm d) None (pd_dsp d)) as Ers.
  { rewrite (res_out _ _ _ Ho), Ed. cbn. unfold streaming_of. by rewrite Es. }
  assert (forall h', res s2 h' = if decide (h' = h) then Resources (pd_pcm d) None (pd_dsp d') else res s h') as Er2.
  { intros h'. rewrite (res_set_out s s2 h o (set_so_pcm_devs (Some [d']) o)) by done.
    destruct (decide _); [|done]. cbn. unfold streaming_of. by rewrite Es', En'. }
  assert (forall h', h' <> h -> res s2 h' = res s h') as Hoth by (intros h' Hne; by rewrite Er2, decide_False).
  assert (res s2 h = Resources (pd_pcm d) None (pd_dsp d')) as Eh by (by rewrite Er2, decide_True).
  assert (inv act s2 /\ octl s s2) as [I2 C2].
  { apply (out_device_inv act s s2 h o d (d')); try done.
    apply (dsp_changed s s2 h l' (fun c => c ∈ l')); try done; [apply I | by rewrite Eh, Ers | by rewrite Eh, Ers|].
    destruct (pd_dsp d') as [c|].
    - destruct Hc as (E1 & E2 & ->). apply (owned_acquire _ _ _ _ h c Hown);
        [by rewrite Ers | by rewrite Eh | intros h' Hne; by rewrite Hoth | done | set_solver].
    - destruct (pd_dsp d) as [c|] eqn:E; subst l'.
      + apply (owned_release _ _ _ _ h c Hown);
          [by rewrite Ers | by rewrite Eh | intros h' Hne; by rewrite Hoth | set_solver].
      + apply (owned_ext _ _ _ _ Hown); [|done]. intros h'.
        destruct (decide (h' = h)) as [-> | Hne]; [by rewrite Eh, Ers | by rewrite Hoth]. }
  split; [done|]. split; [done|]. exists (set_so_pcm_devs (Some [d']) o), d'.
  split; [by apply lookup_insert_eq | done].
Qed.

(** A step of the dsp that leaves its contexts. *)
Lemma wp_dsp_step act s s0 h p n c (f : D -> outcome D) (m : M D unit) Q :
  opened act s0 h p n c s ->
  (forall l, dsp_ok (st_dsp s) l -> owned (fun h => r_dsp (res s h)) (fun c => c ∈ l) ->
     exists d', f (st_dsp s) = Done d' /\ dsp_ok d' l) ->
  (forall s', opened act s0 h p n c s' -> wp m Q s') -> wp (dsp_do f;; m) Q s.
Proof.
  intros (I & C & Hd) Hf Hm. destruct (i_dsp _ (proj1 (proj2 (proj2 I)))) as (l & Hl & Hown).
  destruct (Hf l Hl Hown) as (d' & E & Hl'). apply wp_bind, (wp_dsp_do f d'); [done|]. apply Hm.
  destruct (dsp_inv act s d' l I Hl' Hown) as [I' C']. split; [done|]. split; [by apply (octl_trans s0 s)|].
  done.
Qed.

Lemma context_held s h p n c (l : gset nat) :
  has_device s h p (Resources n None (Some c)) -> owned (fun h => r_dsp (res s h)) (fun c => c ∈ l) -> c ∈ l.
Proof. intros Hd [Hown _]. apply Hown. exists h. by rewrite (has_device_res _ _ _ _ Hd). Qed.

Lemma wp_open_dsp act s h p n q :
  inv act s -> h ∈ act -> has_device s h p (Resources n None None) ->
  wp (out_open_dsp h 0%nat q) (fun _ s' => exists c, opened act s h p n c s') s.
Proof.
  intros I Hh Hd. unfold out_open_dsp. destruct (pp_dsp_name q) as [name|].
  2: { apply wp_ret. exists None. done. }
  repeat wp_step. pose proof Hd as (o & d & Ho & Ed & Ep & Er & Es & En & Ec).
  destruct (i_dsp _ (proj1 (proj2 (proj2 I)))) as (l & Hl & Hown). cbn in En, Ec.
  match goal with |- context [dsp_context_new _ ?x] => set (purpose := x) end.
  destruct (dsp_new_ok _ l (pc_rate (pp_config q)) purpose Hl) as (c & d2 & E & Hc).
  eapply wp_with_dsp; [exact E|]. apply wp_bind, (wp_set_device _ h o d); [done | done|].
  set (s2 := on_outs _ _).
  assert (opened act s h p n c s2) as Hop.
  { rewrite <- Ep, <- En. destruct c as [c|].
    - destruct Hc as [Hc1 Hc2]. by apply (dsp_given act s h o d (set_pd_dsp (Some c) d) d2 l ({[c]} ∪ l)).
    - apply (dsp_given act s h o d (set_pd_dsp None d) d2 l l); try done. by rewrite Ec. }
  destruct c as [c|]; [|apply wp_ret; by exists None].
  apply (wp_dsp_step act s2 s h p n (Some c)); [done | |].
  { intros l2 Hl2 Hown2. apply dsp_set_ok; [done|]. by apply (context_held s2 h p n c l2); [apply Hop|]. }
  intros s3 Hop3. apply wp_mono with (P := fun _ s' => opened act s h p n (Some c) s'); [|intros; by exists (Some c)].
  destruct Hop3 as (I3 & C3 & Hd3). destruct (i_dsp _ (proj1 (proj2 (proj2 I3)))) as (l3 & Hl3 & Hown3).
  destruct (dsp_load_ok _ l3 c Hl3 (context_held s3 h p n c l3 Hd3 Hown3)) as (d4 & E4 & Hl4).
  apply (wp_dsp_do _ d4); [done|]. destruct (dsp_inv act s3 d4 l3 I3 Hl4 Hown3) as [I4 C4].
  split; [done|]. split; [by apply (octl_trans s s3)|]. done.
Qed.
(** ** Opening and closing *)

Lemma wp_pcm_open (Q : pcm_answer * nat -> state D -> Prop) s :
  let n := k_next_pcm (st_kernel s) in
  let s1 := on_kernel (on_calls S) s in
  Q (Ready, n) (on_kernel (fun k => Kernel ({[n]} ∪ k_pcms k) (S n) (k_streaming k) (k_pending k) (k_live k)
    (k_written k) (k_calls k)) s1) ->
  (forall a, a <> Ready -> pcm_open_answer (k_calls (st_kernel s)) = a -> Q (a, n) s1) -> wp pcm_open Q s.
Proof.
  intros n s1 H1' H2'. unfold pcm_open. wp_step. unfold ask. repeat wp_step.
  destruct (pcm_open_answer _) eqn:E; repeat wp_step; [by apply H2' | by apply H2' | exact H1'].
Qed.

Lemma calls_inv act s s0 h p n c :
  opened act s0 h p n c s -> opened act s0 h p n c (on_kernel (on_calls S) s).
Proof.
  intros ((IU & IS & IR & IA) & C & Hd). split; [|by split]. split_and!.
  - by apply (uses_inv_ext act s).
  - by apply (streams_inv_ext act s).
  - by apply (res_inv_ext s).
  - by destruct IA.
Qed.

(** The PCM of the device, taken or given back. *)
Lemma pcm_moved act s0 s h p c o d n k :
  opened act s0 h p (pd_pcm d) c s -> h ∈ act -> st_outs s !! h = Some o -> so_pcm_devs o = Some [d] ->
  k_pending k = k_pending (st_kernel s) -> k_live k = k_live (st_kernel s) ->
  k_streaming k = k_streaming (st_kernel s) ->
  (match pd_pcm d, n with
   | None, Some n => n = k_next_pcm (st_kernel s) /\ k_pcms k = {[n]} ∪ k_pcms (st_kernel s) /\
       k_next_pcm k = S n
   | Some n, None => k_pcms k = k_pcms (st_kernel s) ∖ {[n]} /\ k_next_pcm k = k_next_pcm (st_kernel s)
   | None, None => k = st_kernel s
   | _, _ => False
   end) ->
  opened act s0 h p n c
    (State (st_adev s) (<[h := set_so_pcm_devs (Some [set_pd_pcm n d]) o]> (st_outs s)) (st_ins s)
       (st_profiles s) (st_nodes s) (st_next s) k (st_dsp s)).
Proof.
  intros (I & C & Hd) Hh Ho Ed E5 E6 E3 Hk. set (s' := State _ _ _ _ _ _ _ _).
  pose proof Hd as (o1 & d1 & Ho1 & Ed1 & Ep & Er & Est & En & Ec).
  assert (o1 = o) as -> by congruence. assert (d1 = d) as -> by congruence. cbn in En, Ec. clear Ho1 Ed1 En.
  pose proof (has_device_res _ _ _ _ Hd) as Ers. cbn in Ers.
  assert (forall h', res s' h' = if decide (h' = h) then Resources n None c else res s h') as Er2.
  { intros h'. rewrite (res_set_out s s' h o (set_so_pcm_devs (Some [set_pd_pcm n d]) o)) by done.
    destruct (decide _); [|done]. cbn. unfold streaming_of. cbn. by rewrite Est, Ec. }
  assert (forall h', h' <> h -> res s' h' = res s h') as Hoth by (intros h' Hne; by rewrite Er2, decide_False).
  assert (res s' h = Resources n None c) as Eh by (by rewrite Er2, decide_True).
  assert (res_inv s') as IR.
  { destruct I as (_ & _ & I & _). destruct (pd_pcm d) as [m|], n as [n|]; try done.
    - destruct Hk as (K1 & K2). by apply (pcm_given s s' h m); rewrite ?Ers, ?Eh.
    - destruct Hk as (K0 & K1 & K2). by apply (pcm_taken s s' h n); rewrite ?Ers, ?Eh.
    - subst k. apply (res_inv_ext s); try done. intros h'. rewrite Er2.
      destruct (decide _) as [-> | _]; [by rewrite Ers | done]. }
  destruct (out_device_inv act s s' h o d (set_pd_pcm n d)) as [I' C']; try done.
  split; [done|]. split; [by apply (octl_trans s0 s)|].
  exists (set_so_pcm_devs (Some [set_pd_pcm n d]) o), (set_pd_pcm n d).
  split; [apply lookup_insert_eq | done].
Qed.

Lemma held_pcm act s h o d n :
  inv act s -> st_outs s !! h = Some o -> so_pcm_devs o = Some [d] -> pd_pcm d = Some n ->
  n ∈ k_pcms (st_kernel s).
Proof.
  intros (_ & _ & [R1 _ _ _] & _) Ho Ed En. apply (proj1 R1). exists h. by rewrite (res_out _ _ _ Ho), Ed.
Qed.

Lemma wp_out_close act s h p n c :
  inv act s -> h ∈ act -> has_device s h p (Resources n None c) ->
  wp (out_close_pcm_devices h) (fun _ s' => opened act s h p None None s') s.
Proof.
  intros I Hh Hd. pose proof Hd as (o & d & Ho & Ed & Ep & Er & Es & En & Ec). cbn in En, Ec. subst p.
  unfold out_close_pcm_devices. apply wp_bind, (wp_the_out h o); [done|].
  rewrite Ed. apply wp_bind, wp_lift. apply wp_bind. cbn [map_each]. apply wp_bind. unfold out_close_device.
  apply wp_bind. unfold close_streaming. rewrite Es. cbn [Z.ltb Z.compare]. apply wp_ret. apply wp_bind.
  set (d1 := set_pd_pcm None d).
  set (k1 := fun k : kernel => match pd_pcm d with Some n => on_pcms (fun p => p ∖ {[n]}) k | None => k end).
  apply wp_mono with (P := fun d' s1 => d' = d1 /\ s1 = on_kernel k1 s).
  { unfold close_device_pcm, d1, k1. destruct (pd_pcm d) as [m|] eqn:Em.
    - unfold pcm_close. repeat wp_step. rewrite decide_True by (by apply (held_pcm act s h o d m)).
      repeat wp_step. done.
    - apply wp_ret. split; [by destruct d; cbn in Em; subst | by destruct s]. }
  intros d' s1 [-> ->].
  set (s1 := State (st_adev s) (<[h := set_so_pcm_devs (Some [d1]) o]> (st_outs s)) (st_ins s)
         (st_profiles s) (st_nodes s) (st_next s) (k1 (st_kernel s)) (st_dsp s)).
  assert (opened act s h (pd_profile d) None c s1) as Hop.
  { apply (pcm_moved act s s h (pd_profile d) c o d None); try done; [|unfold k1; cbn; by destruct (pd_pcm d)..].
    split; [done|]. split; [apply octl_refl|]. by rewrite En. }
  assert (pd_dsp d1 = c) as Ec1 by done.
  set (d2 := set_pd_res_buffer false (set_pd_resampler false d1)).
  change (pd_dsp d2) with (pd_dsp d1). rewrite Ec1.
  set (o1 := set_so_pcm_devs (Some [d1]) o).
  assert (st_outs s1 !! h = Some o1) as Ho1 by apply lookup_insert_eq.
  pose proof Hop as (I1 & C1 & Hd1).
  destruct (i_dsp _ (proj1 (proj2 (proj2 I1)))) as (l & Hl & Hown).
  assert (forall d' l', dsp_ok d' l' ->
    match c with Some c => l' = l ∖ {[c]} | None => l' = l end ->
    opened act s h (pd_profile d) None None (State (st_adev s)
      (<[h := set_so_pcm_devs (Some [set_pd_dsp None d2]) o]> (st_outs s)) (st_ins s)
      (st_profiles s) (st_nodes s) (st_next s) (k1 (st_kernel s)) d')) as Hfin.
  { intros d' l' Hl' El. pose proof (dsp_given act s1 h o1 d1 (set_pd_dsp None d2) d' l l' I1 Hh Ho1 eq_refl Es
      eq_refl eq_refl eq_refl Es Hown Hl') as Hg. rewrite <- Ec1 in El. specialize (Hg El).
    cbn in Hg. rewrite insert_insert_eq in Hg. destruct Hg as (G1 & G2 & G3).
    split; [exact G1|]. split; [by apply (octl_trans s s1) | exact G3]. }
  destruct c as [c|].
  - destruct (dsp_free_ok _ l c Hl (context_held s1 h (pd_profile d) None c l Hd1 Hown)) as (d' & E & Hl').
    apply wp_bind, (wp_dsp_do _ d'); [done|]. repeat wp_step. eapply wp_set_out; [exact Ho|].
    by apply (Hfin d' (l ∖ {[c]})).
  - repeat wp_step. eapply wp_set_out; [exact Ho|].
    assert (set_pd_dsp None d2 = d2) as E by (unfold d2, d1; cbn; by rewrite Ec).
    specialize (Hfin (st_dsp s) l Hl eq_refl). rewrite E in Hfin. exact Hfin.
Qed.
End Out.

(** ** Output streams that start, stop and go to standby *)

Section OutRun.
Context {D : Type} `{AudioLib} `{AudioEnv} `{DspContextsOk D}.
Implicit Types s : state D.

Notation usecases s := (ad_usecases (st_adev s)).

(** ** Opening the PCM of a stream *)

Definition open_post (act : gset nat) (s : state D) (h p : nat) (r : Z) (s' : state D) : Prop :=
  exists n c, opened act s h p n c s' /\ (r <> 0 -> n = None /\ c = None).

Lemma opened_refl act s h p n c : inv act s -> has_device s h p (Resources n None c) -> opened act s h p n c s.
Proof. intros I Hd. split; [done|]. split; [apply octl_refl | done]. Qed.

Lemma opened_trans act s0 s h p n c n' c' s' :
  opened act s0 h p n c s -> opened act s h p n' c' s' -> opened act s0 h p n' c' s'.
Proof. intros (_ & C & _) (I' & C' & Hd'). split; [done|]. split; [by apply (octl_trans s0 s) | done]. Qed.

Lemma set_no_pcm d : pd_pcm d = None -> set_pd_pcm None d = d.
Proof. destruct d; cbn. by intros ->. Qed.

(** pcm_open, and what it gives stored in the device. *)
Lemma wp_open_pcm {A} act s h p c (Q : A -> state D -> Prop) (m : pcm_answer -> M D A) :
  h ∈ act -> opened act s h p None c s ->
  (forall a n s', opened act s h p n c s' -> wp (m a) Q s') ->
  wp ('(a, n) ← pcm_open;
      set_out_device h 0%nat (set_pd_pcm (match a with Ready => Some n | _ => None end));; m a) Q s.
Proof.
  intros Hh Hop Hm. pose proof (calls_inv _ _ _ _ _ _ _ Hop) as Hop1.
  pose proof Hop1 as (_ & _ & (o & d & Ho & Ed & _ & _ & _ & En & _)). cbn in En.
  apply wp_bind, wp_pcm_open.
  - apply wp_bind. eapply (wp_set_device _ h o d); [exact Ho | exact Ed|].
    apply (Hm Ready (Some (k_next_pcm (st_kernel s)))).
    apply (pcm_moved act s (on_kernel (on_calls S) s) h p c o d (Some (k_next_pcm (st_kernel s))));
      try done; rewrite En; done.
  - intros a Ha _. apply wp_bind. eapply (wp_set_device _ h o d); [exact Ho | exact Ed|].
    replace (match a with Ready => _ | _ => None end) with (@None nat) by (by destruct a).
    apply (Hm a None).
    apply (pcm_moved act s (on_kernel (on_calls S) s) h p c o d None); try done; rewrite En; done.
Qed.

Lemma wp_out_open act s h p :
  inv act s -> h ∈ act -> (p < 5)%nat -> has_device s h p no_resources ->
  wp (out_open_pcm_devices h) (open_post act s h p) s.
Proof.
  intros I Hh Hp Hd. pose proof Hd as (o & d & Ho & Ed & Ep & _).
  unfold out_open_pcm_devices. apply wp_bind, (wp_the_out h o); [done|]. rewrite Ed. apply wp_bind, wp_lift.
  cbn [out_open_loop]. apply wp_bind. unfold out_open_device.
  destruct (profile_exists act s p (proj2 (proj2 (proj2 I))) ltac:(lia)) as (q & q' & Hq & Hq' & L).
  apply wp_bind, (wp_the_profile _ q'); [by rewrite Ep|].
  apply wp_bind. eapply wp_mono; [by apply (wp_open_dsp act s h p None)|].
  intros _ s1 [c Hop1]. apply (wp_open_pcm act s1 h p c); [done | by apply opened_refl; apply Hop1|].
  intros a n s2 Hop2. pose proof (opened_trans _ _ _ _ _ _ _ _ _ _ Hop1 Hop2) as Hop.
  pose proof Hop as (I2 & _ & Hd2). pose proof Hd2 as (o2 & d2 & Ho2 & _).
  assert (wp (o ← the_out h;
    if so_sample_rate o =? pc_rate (pp_config q') then mret (Some 0)
    else
      ret ← ask create_resampler_answer;
      set_out_device h 0%nat (fun d => set_pd_res_buffer false
        (set_pd_res_byte_count 0 (set_pd_resampler (ret =? 0) d)));;
      mret (Some ret)) (fun r s' => r = Some 0 /\ s' = s2) s2) as Hrate.
  { apply wp_bind, (wp_the_out h o2); [done|].
    destruct (i_outs _ _ (proj1 (proj2 I2)) h o2 Ho2) as (_ & _ & _ & _ & -> & _).
    destruct L as (_ & _ & _ & _ & -> & _). rewrite (profiles_rate p q Hq Hp). by apply wp_ret. }
  destruct a.
  - eapply wp_mono; [exact Hrate|]. intros r s' [-> ->]. apply wp_ret. by exists n, c.
  - apply wp_ret. apply wp_bind. eapply wp_mono; [by apply (wp_out_close act s2 h p n c)|].
    intros [] s3 Hop3. apply wp_ret. exists None, None. split; [|done]. by apply (opened_trans _ _ s2 _ _ n c).
  - eapply wp_mono; [exact Hrate|]. intros r s' [-> ->]. apply wp_ret. by exists n, c.
Qed.

(** ** Stopping *)

Lemma del_upd loc f l : (forall u, uc_loc (f u) = uc_loc u) -> del loc (upd loc f l) = del loc l.
Proof.
  intros Hf. induction l as [|u l IH]; [done|]. unfold del, upd in *. cbn [fmap list_fmap].
  rewrite !filter_cons. destruct (Nat.eqb_spec (uc_loc u) loc) as [E|Hne].
  - rewrite !decide_False by (rewrite ?Hf; intros Hn; by apply Hn). exact IH.
  - rewrite !decide_True by done. f_equal. exact IH.
Qed.

Lemma find_by_id l u : NoDup (uc_id <$> l) -> u ∈ l -> find (fun v => uc_id v =? uc_id u) l = Some u.
Proof.
  intros Hnd Hu. destruct (find _ l) as [v|] eqn:E.
  - apply List.find_some in E as [Hv E]. apply list_elem_of_In in Hv. apply Z.eqb_eq in E.
    f_equal. by apply (same_id l).
  - apply (List.find_none _ _) with (x := u) in E; [|by apply list_elem_of_In]. by rewrite Z.eqb_refl in E.
Qed.

(** The use case of an active output. *)
Lemma out_usecase act s h o :
  inv act s -> h ∈ act -> st_outs s !! h = Some o ->
  exists u, u ∈ usecases s /\ uc_stream u = OutStream h /\ get_usecase_from_id (st_adev s) (so_usecase o) = Some u /\
    uc_in u = SND_DEVICE_NONE /\ 0 <= uc_out u < 13.
Proof.
  intros (IU & IS & _) Hh Ho. destruct (i_act _ _ IU h Hh) as (u & Hu & E). exists u. split; [done|].
  pose proof (i_uc _ _ IU u Hu) as Ou. unfold uc_ok, uc_handle in *. destruct (uc_stream u) as [h'|h']; subst h'.
  - destruct Ou as (o' & Ho' & Ei & _ & E1 & E2). assert (o' = o) as -> by congruence.
    split; [done|]. split; [|done]. unfold get_usecase_from_id. rewrite <- Ei. apply find_by_id; [apply IU | done].
  - destruct Ou as (i & Hi & _). rewrite (i_disj _ _ IS h) in Hi; [done | by exists o].
Qed.

(** Disabling the devices of a use case that is about to go. *)
Definition disabled (u : audio_usecase) (s s' : state D) : Prop :=
  exists r p l, s' = touched r p l s /\ book (uses (del (uc_loc u) (usecases s))) s' /\ settled s'.

(** The device of a use case, of its output or of its input. *)
Definition only_device (u : audio_usecase) (d : Z) : Prop :=
  d = uc_out u /\ uc_in u = SND_DEVICE_NONE \/ d = uc_in u /\ uc_out u = SND_DEVICE_NONE.

Lemma only_device_uses act s u d x :
  uses_inv act s -> u ∈ usecases s -> only_device u d -> 1 <= x < 33 ->
  uses (del (uc_loc u) (usecases s)) x = uses (usecases s) x - one (d =? x).
Proof.
  intros I Hu Hd Hx. rewrite uses_del by (done || apply I). unfold only_device, one, SND_DEVICE_NONE in *.
  destruct Hd as [[-> ->] | [-> ->]]; destruct (Z.eqb_spec 0 x); lia.
Qed.

Lemma wp_disable act s u d :
  uses_inv act s -> u ∈ usecases s -> only_device u d ->
  wp (disable_snd_device u d true) (fun _ => disabled u s) s.
Proof.
  intros I Hu Hd. destruct (old_disable act s u I Hu) as (Ho & Hi & _). pose proof (i_book _ _ I) as B.
  pose proof (fun x => only_device_uses act s u d x I Hu Hd) as Eu.
  destruct (Z.eq_dec d SND_DEVICE_NONE) as [E|Hne].
  - rewrite E. cbn. exists (ad_ref_cnt (st_adev s)), (k_pending (st_kernel s)), (k_live (st_kernel s)).
    split; [by destruct s as [[] ? ? ? ? ? [] ?]|]. split; [|apply I].
    eapply book_ext; [exact B|]. intros x Hx. rewrite Eu by done. rewrite E. unfold one, SND_DEVICE_NONE.
    destruct (Z.eqb_spec 0 x); lia.
  - assert (1 <= d < 33 /\ 0 < uses (usecases s) d /\ alone d (uses (usecases s))) as (Hr & Hp & Hal)
      by (destruct Hd as [[-> _] | [-> _]]; auto).
    eapply wp_mono; [apply disable_book; try done; by apply I|].
    intros _ s' (r & p & l & -> & B' & S'). exists r, p, l. split; [done|]. split; [|by apply S', I].
    eapply book_ext; [exact B'|]. intros x Hx. rewrite Eu by done. unfold bump, one.
    destruct (Z.eqb_spec x d), (Z.eqb_spec d x); lia.
Qed.

Lemma wp_disable_output act s h o :
  inv act s -> h ∈ act -> st_outs s !! h = Some o -> res s h = no_resources ->
  wp (disable_output_path_l h) (fun _ s' => inv (act ∖ {[h]}) s' /\ octl s s' /\
    exists o', st_outs s' !! h = Some o' /\ so_pcm_devs o' = Some []) s.
Proof.
  intros I Hh Ho Hr. pose proof I as (IU & IS & IR & IA).
  destruct (out_usecase act s h o I Hh Ho) as (u & Hu & Es & Ef & Ei & _).
  unfold disable_output_path_l. apply wp_bind, (wp_the_out h o); [done|]. repeat wp_step. rewrite Ef.
  apply wp_bind. eapply wp_mono; [apply (wp_disable act); [done | done | by left]|]. intros _ s1 (r & p & l & -> & B & S).
  destruct (i_outs _ _ IS h o Ho) as (O1 & _ & O3 & O4 & O5 & O6). destruct (O1 Hh) as [d Ed].
  apply wp_bind. unfold uc_release_pcm_devices. rewrite Es.
  apply wp_bind, (wp_the_out h o); [done|]. rewrite Ed. apply wp_bind, wp_lift.
  apply wp_bind. eapply wp_set_out; [exact Ho|]. unfold set_usecase, remove_usecase. repeat wp_step.
  set (o' := set_so_pcm_devs (Some []) o). set (s' := on_adev _ _).
  assert (usecases s' = del (uc_loc u) (usecases s)) as Eu by (by apply (del_upd (uc_loc u) (set_uc_mixers []))).
  split; [|split; [by apply (octl_set_out s s' h o o') | exists o'; split; [apply lookup_insert_eq | done]]].
  split_and!.
  - assert (uc_handle u = h) as <- by (unfold uc_handle; by rewrite Es).
    apply (uses_inv_del act s s' u); try done.
    + intros v Hv E. by apply (one_usecase act s).
    + intros v. by apply (uc_ok_out s s' (uc_handle u) o o').
    + rewrite Eu. by destruct B.
  - apply (streams_set_out act _ s s' h o o'); try done; [|apply agrees_del].
    split_and!; try done; [set_solver | by right].
  - apply (res_inv_ext s); try done. intros h'. rewrite (res_set_out s s' h o o') by done.
    by destruct (decide _) as [-> | _].
  - destruct IA as [A1 A2 A3 A4 A5 A6]. split; try done.
    + intros h' Ha. destruct (A4 h' Ha) as [Ha1 Ha2]. split; [|done]. apply elem_of_difference. split; [done|].
      rewrite elem_of_singleton. intros ->. rewrite (i_disj _ _ IS h) in Ha2; [by destruct Ha2 | by exists o].
    + intros h' Ha. cbn. rewrite lookup_insert_is_Some'. auto.
Qed.

(** ** Starting and going to standby *)

Lemma add_del h (act : gset nat) : h ∉ act -> ({[h]} ∪ act) ∖ {[h]} = act.
Proof. set_solver. Qed.

(** With an error the stream is as it was: it has no use case and holds nothing. *)
Lemma wp_start_output act s h o :
  inv act s -> st_outs s !! h = Some o -> h ∉ act ->
  wp (start_output_stream h)
    (fun r s' => inv (if r =? 0 then {[h]} ∪ act else act) s' /\ octl s s' /\
       (r <> 0 -> exists o', st_outs s' !! h = Some o' /\ so_pcm_devs o' = Some [])) s.
Proof.
  intros I Ho Hh. unfold start_output_stream, enable_output_path_l.
  apply wp_bind, wp_bind, (wp_the_out h o); [done|].
  apply wp_bind. eapply wp_mono; [by apply (wp_new_playback act)|]. intros _ s1 (I1 & C1 & R1).
  apply wp_bind. eapply wp_mono; [by apply (wp_select ({[h]} ∪ act))|]. intros r s2 [I2 K2].
  apply wp_ret. clear r.
  assert (octl s s2) as C2 by (apply (octl_trans s s1); [done | by apply octl_keep]).
  assert (res s2 h = no_resources) as R2 by (by rewrite (keep_res _ _ _ K2)).
  assert (h ∈ {[h]} ∪ act) as Hh2 by set_solver.
  destruct (ctl_out s s2 h o (octl_ctl _ _ C2) Ho) as (o2 & Ho2 & _).
  destruct (out_device_exists _ s2 h o2 I2 Ho2 Hh2) as (p & Hp & Hd). rewrite R2 in Hd.
  apply wp_bind. eapply wp_mono; [by apply (wp_out_open ({[h]} ∪ act) s2 h p)|].
  intros r s3 (n & c & (I3 & C3 & Hd3) & Hr).
  assert (octl s s3) as C4 by (by apply (octl_trans s s2)).
  destruct (Z.eqb_spec r 0) as [-> | Hne]; cbn [negb]; [by apply wp_ret|].
  destruct (Hr Hne) as [-> ->]. pose proof (has_device_res _ _ _ _ Hd3) as R3. cbn in R3.
  destruct Hd3 as (o3 & d3 & Ho3 & _). apply wp_bind.
  eapply wp_mono; [by apply (wp_disable_output ({[h]} ∪ act) s3 h o3)|].
  intros _ s4 (I4 & C5 & E5). rewrite add_del in I4 by done. apply wp_ret.
  apply Z.eqb_neq in Hne as ->. split; [done|]. split; [by apply (octl_trans s s3) | done].
Qed.

(** The state with the standby flag of a stream set. *)
Definition out_flag (h : nat) (b : bool) (o : stream_out) (s : state D) : state D :=
  on_outs (insert h (set_so_standby b o)) s.

Lemma out_flag_inv act s h b o : inv act s -> st_outs s !! h = Some o -> inv act (out_flag h b o s).
Proof.
  intros I Ho. apply (inv_set_out act s _ h o (set_so_standby b o)); try done.
  - by apply (i_outs _ _ (proj1 (proj2 I)) h o).
  - apply (res_inv_ext s); try done; [apply I|]. intros h'.
    rewrite (res_set_out s _ h o (set_so_standby b o)) by done.
    destruct (decide _) as [-> | _]; [by rewrite (res_out _ _ _ Ho) | done].
Qed.

Lemma wp_do_out_standby act s h o :
  inv act s -> h ∈ act -> st_outs s !! h = Some o ->
  wp (do_out_standby_l h)
    (fun _ s' => inv (act ∖ {[h]}) s' /\ octl (out_flag h true o s) s') s.
Proof.
  intros I Hh Ho. unfold do_out_standby_l. apply wp_bind, (wp_set_out h _ o); [done|].
  pose proof (out_flag_inv act s h true o I Ho) as I1. change (on_outs _ s) with (out_flag h true o s).
  set (s1 := out_flag h true o s) in *.
  assert (st_outs s1 !! h = Some (set_so_standby true o)) as Ho1 by apply lookup_insert_eq.
  destruct (out_device_exists _ s1 h _ I1 Ho1 Hh) as (p & Hp & Hd).
  assert (res s1 h = Resources (r_pcm (res s1 h)) None (r_dsp (res s1 h))) as Er by exact (has_device_res _ _ _ _ Hd).
  rewrite Er in Hd. apply wp_bind. eapply wp_mono; [by apply (wp_out_close act s1 h p (r_pcm (res s1 h)) (r_dsp (res s1 h)))|].
  intros _ s2 (I2 & C2 & Hd2). pose proof (has_device_res _ _ _ _ Hd2) as R2.
  destruct Hd2 as (o2 & d2 & Ho2 & _).
  eapply wp_mono; [by apply (wp_disable_output act s2 h o2)|]. intros _ s3 (I3 & C3 & _).
  split; [done | by apply (octl_trans s1 s2)].
Qed.
End OutRun.
