(* ===== verification/AudioWrite.v ===== *)
(** * AudioWrite: what writing to an output stream keeps *)

From S2P Require Import Prelude CString AudioDefs AudioDevices AudioStreams AudioData AudioBook AudioInv AudioSelect AudioFrame AudioOut.

Open Scope Z_scope.

Section Write.
Context {D : Type} `{AudioLib} `{AudioEnv} `{DspContextsOk D}.
Context (resample_from_input : list Z -> Z -> Z -> list Z * Z).
Implicit Types s : state D.

(** The stream changes, but neither what the client set nor what it holds. *)
Lemma opened_set_out act s0 s h p n c o d o' d' :
  opened act s0 h p n c s -> h ∈ act -> st_outs s !! h = Some o -> so_pcm_devs o = Some [d] ->
  so_ctl o' = so_ctl o -> so_sample_rate o' = so_sample_rate o -> so_pcm_devs o' = Some [d'] ->
  pd_profile d' = pd_profile d -> pd_resampler d' = false -> pd_sound_trigger d' = 0 ->
  pd_pcm d' = pd_pcm d -> pd_dsp d' = pd_dsp d ->
  opened act s0 h p n c (on_outs (insert h o') s).
Proof.
  intros (I & C & (o1 & d1 & Ho1 & Ed1 & Ep & Er & Es & En & Ec)) Hh Ho Ed Ect Esr Ed' E1 E2 E3 E4 E5.
  assert (o1 = o) as -> by congruence. assert (d1 = d) as -> by congruence.
  injection Ect as Ec1 Ec2 Ec3. set (s' := on_outs _ s).
  assert (octl s s') as C' by (apply (octl_set_out s s' h o o'); unfold so_ctl; congruence || done).
  split; [|split; [by apply (octl_trans s0 s)|]].
  - apply (inv_set_out act s s' h o o'); try done.
    + destruct (i_outs _ _ (proj1 (proj2 I)) h o Ho) as (O1 & O2 & O3 & O4 & O5 & O6).
      split_and!; rewrite ?Ec3, ?Ec2, ?Esr; try done; [intros _; by exists d'|].
      intros d2 E. rewrite Ed' in E. injection E as <-. rewrite E1, E2, E3. by destruct (O3 d Ed).
    + apply (res_inv_ext s); try done; [apply I|]. intros h'.
      rewrite (res_set_out s s' h o o') by done. destruct (decide _) as [-> | _]; [|done].
      rewrite (res_out _ _ _ Ho), Ed, Ed'. cbn. unfold streaming_of. by rewrite E3, E4, E5, Es.
  - exists o', d'. split; [apply lookup_insert_eq|]. split_and!; try done; congruence.
Qed.

Lemma opened_written act s0 s h p n c f :
  opened act s0 h p n c s -> opened act s0 h p n c (on_kernel (on_written f) s).
Proof.
  intros ((IU & IS & IR & IA) & C & Hd). split; [|by split]. split_and!.
  - by apply (uses_inv_ext act s).
  - by apply (streams_inv_ext act s).
  - by apply (res_inv_ext s).
  - by destruct IA.
Qed.

Lemma wp_apply_dsp act s0 s h p n c d xs (Q : list Z -> state D -> Prop) :
  opened act s0 h p n c s -> pd_dsp d = c ->
  (forall ys s', opened act s0 h p n c s' -> Q ys s') -> wp (apply_dsp d xs) Q s.
Proof.
  intros Hop Ec HQ. unfold apply_dsp. rewrite Ec. destruct c as [c|]; [|by apply wp_ret, HQ].
  destruct Hop as (I & C & Hd). destruct (i_dsp _ (proj1 (proj2 (proj2 I)))) as (l & Hl & Hown).
  destruct (dsp_apply_ok _ l c xs Hl (context_held s h p n c l Hd Hown)) as (ys & d' & E & Hl').
  eapply wp_with_dsp; [exact E|]. apply HQ.
  destruct (dsp_inv act s d' l I Hl' Hown) as [I' C']. split; [done|].
  split; [by apply (octl_trans s0 s) | done].
Qed.

Lemma wp_pcm_write act s0 s h p n c xs (Q : Z -> state D -> Prop) :
  opened act s0 h p (Some n) c s ->
  (forall rc s', opened act s0 h p (Some n) c s' -> Q rc s') -> wp (pcm_write n xs) Q s.
Proof.
  intros Hop HQ. unfold pcm_write. repeat wp_step. rewrite decide_True.
  2: { destruct Hop as (I & _ & (o & d & Ho & Ed & _ & _ & _ & En & _)). by apply (held_pcm act s h o d n). }
  do 2 wp_step. apply wp_bind. apply calls_inv in Hop.
  apply wp_when; intros _; repeat wp_step; apply HQ; [by apply opened_written | done].
Qed.

Lemma wp_write_device act s0 s h p n c buffer bytes ret o d :
  opened act s0 h p n c s -> h ∈ act -> st_outs s !! h = Some o -> so_pcm_devs o = Some [d] ->
  wp (write_device resample_from_input h 0%nat d buffer bytes ret)
    (fun _ s' => opened act s0 h p n c s') s.
Proof.
  intros Hop Hh Ho Ed. pose proof Hop as (I & _ & (o1 & d1 & Ho1 & Ed1 & Ep & Er & Es & En & Ec)).
  assert (o1 = o) as -> by congruence. assert (d1 = d) as -> by congruence. clear Ho1 Ed1.
  destruct (i_outs _ _ (proj1 (proj2 I)) h o Ho) as (_ & _ & O3 & _). destruct (O3 d Ed) as (Hp & _).
  destruct (profile_exists act s (pd_profile d) (proj2 (proj2 (proj2 I))) ltac:(lia)) as (q & q' & _ & Hq & _).
  unfold write_device. apply wp_bind, (wp_the_out h o); [done|]. apply wp_bind, (wp_the_profile _ q'); [done|].
  rewrite Er. cbn [andb]. apply wp_bind, (wp_set_device _ h o d); [done | done|]. cbn beta.
  set (o1 := set_so_pcm_devs (Some [d]) o).
  assert (opened act s0 h p n c (on_outs (insert h o1) s)) as Hop1
    by (by apply (opened_set_out act s0 s h p n c o d o1 d)).
  cbn in En, Ec. rewrite Er. destruct (pd_pcm d) as [m|] eqn:Em; [|by apply wp_ret]. subst n. cbn [andb].
  apply wp_bind, (wp_apply_dsp act s0 _ h p (Some m) c); [done | done|]. intros ys s2 Hop2.
  apply wp_bind.
  apply wp_mono with (P := fun _ s' => opened act s0 h p (Some m) c s').
  { apply wp_when; intros _; [|done].
    pose proof Hop2 as (I2 & _ & (o2 & d2 & Ho2 & Ed2 & _ & Er2 & Es2 & _)).
    apply (wp_set_out h _ o2); [done|].
    by apply (opened_set_out act s0 s2 h p (Some m) c o2 d2 (set_so_proc_buf_size _ o2) d2). }
  intros _ s3 Hop3. apply wp_bind, (wp_pcm_write act s0 s3 h p m c); [done|]. intros rc s4 Hop4.
  pose proof Hop4 as (I4 & _ & (o4 & d4 & Ho4 & Ed4 & _ & Er4 & Es4 & _)).
  apply wp_bind, (wp_set_device _ h o4 d4); [done | done|]. apply wp_ret.
  by apply (opened_set_out act s0 s4 h p (Some m) c o4 d4 _ (set_pd_status rc d4)).
Qed.

Lemma wp_out_write_data act s h o buffer bytes :
  inv act s -> h ∈ act -> st_outs s !! h = Some o ->
  wp (out_write_data resample_from_input h buffer bytes) (fun _ s' => inv act s' /\ octl s s') s.
Proof.
  intros I Hh Ho. destruct (out_device_exists act s h o I Ho Hh) as (p & Hp & Hd).
  assert (opened act s h p (r_pcm (res s h)) (r_dsp (res s h)) s) as Hop.
  { apply opened_refl; [done | exact Hd]. }
  destruct Hd as (o1 & d & Ho1 & Ed & _). assert (o1 = o) as -> by congruence.
  unfold out_write_data. apply wp_bind, (wp_the_out h o); [done|]. rewrite Ed.
  apply wp_bind, wp_lift. apply wp_bind. cbn [write_loop].
  apply wp_bind. eapply wp_mono; [by eapply (wp_write_device act s s h)|].
  intros [b r] s2 Hop2. apply wp_ret. apply wp_bind.
  apply wp_mono with (P := fun _ s' => inv act s' /\ octl s s'); [|intros; by apply wp_ret].
  apply wp_when; intros _; [|split; apply Hop2].
  pose proof Hop2 as (_ & _ & (o2 & d2 & Ho2 & Ed2 & _ & Er2 & Es2 & _)).
  apply (wp_set_out h _ o2); [done|].
  destruct (opened_set_out act s s2 h p _ _ o2 d2
    (set_so_written (u64 (so_written o2 + bytes / audio_stream_out_frame_size o2)) o2) d2 Hop2) as (? & ? & _); done.
Qed.

(** ** What reaches the PCM *)

(** The samples for a PCM of the profile [p], from those of the stream [o]. *)
Definition remixed (o : stream_out) (p : pcm_device_profile) (xs : list Z) : list Z :=
  let src := audio_channel_count_from_out_mask (so_channel_mask o) in
  let dst := pc_channels (pp_config p) in
  if dst =? src then xs else adjust_channels xs src dst.

(** What the dsp of a device makes of a buffer. *)
Definition filtered (d : pcm_device) (xs : list Z) (x : D) (ys : list Z) (y : D) : Prop :=
  match pd_dsp d with None => ys = xs /\ y = x | Some c => dsp_pipeline_apply c xs x = Done (ys, y) end.

(** The state once a device was written to: [xs] is in its PCM when that took it. *)
Definition after_write (s : state D) (h : nat) (o : stream_out) (n : nat) (xs : list Z) (rc : Z) (y : D) : state D :=
  State (st_adev s) (<[h := o]> (st_outs s)) (st_ins s) (st_profiles s) (st_nodes s) (st_next s)
    (if rc =? 0 then on_written (fun w => w ++ [(n, xs)]) (on_calls S (st_kernel s))
     else on_calls S (st_kernel s)) y.

(** The stream with other counters of its own. *)
Definition same_stream (o o' : stream_out) : Prop :=
  so_written o' = so_written o /\ so_channel_mask o' = so_channel_mask o /\ so_format o' = so_format o.

Lemma wp_filtered s d xs ys y (Q : list Z -> state D -> Prop) :
  filtered d xs (st_dsp s) ys y ->
  Q ys (State (st_adev s) (st_outs s) (st_ins s) (st_profiles s) (st_nodes s) (st_next s) (st_kernel s) y) ->
  wp (apply_dsp d xs) Q s.
Proof.
  unfold filtered, apply_dsp. destruct (pd_dsp d) as [c|].
  - intros E HQ. by eapply wp_with_dsp.
  - intros [-> ->] HQ. apply wp_ret. by destruct s.
Qed.

Lemma wp_write_played s h o d n p buffer bytes ret ys y :
  st_outs s !! h = Some o -> so_pcm_devs o = Some [d] -> pd_resampler d = false ->
  pd_pcm d = Some n -> n ∈ k_pcms (st_kernel s) -> st_profiles s !! pd_profile d = Some p ->
  filtered d buffer (st_dsp s) ys y ->
  let rc := pcm_write_answer (k_calls (st_kernel s)) in
  wp (write_device resample_from_input h 0%nat d buffer bytes ret)
    (fun r s' => exists o', snd r = (if negb (rc =? 0) then rc else ret) /\ same_stream o o' /\
       s' = after_write s h o' n (remixed o p ys) rc y) s.
Proof.
  intros Ho Ed Er En Hn Hp Hy rc. unfold write_device.
  apply wp_bind, (wp_the_out h o); [done|]. apply wp_bind, (wp_the_profile _ p); [done|].
  rewrite Er. cbn [andb]. apply wp_bind, (wp_set_device _ h o d); [done | done|]. cbn beta. rewrite En, Er. cbn [andb].
  apply wp_bind, (wp_filtered _ d buffer ys y); [done|].
  apply wp_bind.
  set (s1 := fun o1 => State (st_adev s) (<[h := o1]> (st_outs s)) (st_ins s) (st_profiles s) (st_nodes s) (st_next s)
    (st_kernel s) y).
  apply wp_mono with (P := fun _ s' => exists o1, s' = s1 o1 /\ same_stream o o1 /\ so_pcm_devs o1 = Some [d]).
  { apply wp_when; intros _; [|by exists (set_so_pcm_devs (Some [d]) o)].
    eapply wp_set_out; [apply lookup_insert_eq|].
    exists (set_so_proc_buf_size (bytes * pc_channels (pp_config p) / audio_channel_count_from_out_mask (so_channel_mask o))
              (set_so_pcm_devs (Some [d]) o)).
    split; [|done]. unfold s1, on_outs. cbn -[set_so_proc_buf_size]. by rewrite insert_insert_eq. }
  intros _ _ (o1 & -> & Hsame & Ed1). apply wp_bind. unfold pcm_write. apply wp_bind, wp_get.
  rewrite decide_True by done. apply wp_bind. unfold ask. apply wp_bind, wp_get, wp_bind, wp_modify, wp_ret.
  change (pcm_write_answer (k_calls (st_kernel (s1 o1)))) with rc. apply wp_bind.
  apply wp_mono with (P := fun _ s' => s' = after_write s h o1 n (remixed o p ys) rc y).
  { unfold after_write. apply wp_when; intros E; rewrite E; [|done]. apply wp_modify.
    unfold remixed. by destruct (_ =? audio_channel_count_from_out_mask _). }
  intros _ _ ->. apply wp_ret. apply wp_bind. eapply wp_set_device; [apply lookup_insert_eq | done|].
  apply wp_ret. exists (set_so_pcm_devs (Some [set_pd_status rc d]) o1). split; [done|]. split; [by destruct Hsame as (? & ? & ?)|].
  unfold after_write, on_outs. cbn -[set_so_pcm_devs]. by rewrite insert_insert_eq.
Qed.

(** C18. A write to a stream that plays without resampler puts exactly one
    buffer into its PCM: the caller's samples, or as many zeros when the stream
    is muted, after the dsp of the device, with the channels of the PCM; and
    the frames are counted.  When the PCM refuses them nothing is played and
    nothing is counted, and its error is the result.  In both cases nothing
    else of the mixers, use cases and PCMs changes. *)
Theorem write_delivers s h o d n p buffer bytes ys y :
  st_outs s !! h = Some o -> so_pcm_devs o = Some [d] -> pd_resampler d = false ->
  pd_pcm d = Some n -> n ∈ k_pcms (st_kernel s) -> st_profiles s !! pd_profile d = Some p ->
  filtered d (if so_muted o then (fun _ => 0) <$> buffer else buffer) (st_dsp s) ys y ->
  let rc := pcm_write_answer (k_calls (st_kernel s)) in
  exists s' o', out_write_data resample_from_input h buffer bytes s = Done (rc, s') /\
    st_outs s' = <[h := o']> (st_outs s) /\ st_dsp s' = y /\ st_adev s' = st_adev s /\
    k_pcms (st_kernel s') = k_pcms (st_kernel s) /\
    (rc = 0 -> k_written (st_kernel s') = k_written (st_kernel s) ++ [(n, remixed o p ys)] /\
       so_written o' = u64 (so_written o + bytes / audio_stream_out_frame_size o)) /\
    (rc <> 0 -> k_written (st_kernel s') = k_written (st_kernel s) /\ so_written o' = so_written o).
Proof.
  intros Ho Ed Er En Hn Hp Hy rc.
  assert (wp (out_write_data resample_from_input h buffer bytes)
    (fun r s' => exists o1 o', r = rc /\ same_stream o o1 /\ s' = after_write s h o' n (remixed o p ys) rc y /\
       so_written o' = if rc =? 0 then u64 (so_written o + bytes / audio_stream_out_frame_size o) else so_written o) s)
    as Hw.
  { unfold out_write_data. apply wp_bind, (wp_the_out h o); [done|]. rewrite Ed. apply wp_bind, wp_lift.
    apply wp_bind. cbn [write_loop]. apply wp_bind.
    eapply wp_mono; [by apply (wp_write_played s h o d n p _ bytes 0 ys y)|]. fold rc.
    intros [b r] s2 (o1 & Er2 & Hsame & ->). cbn [snd] in Er2. subst r. apply wp_ret, wp_bind.
    pose proof Hsame as (Ew & Em & Ef).
    destruct (rc =? 0) eqn:E; cbn [negb when Z.eqb].
    - eapply wp_set_out; [apply lookup_insert_eq|]. apply wp_ret. eexists o1, _. split; [by apply Z.eqb_eq in E|].
      split; [done|]. split; [unfold after_write, on_outs; cbn -[set_so_written]; by rewrite insert_insert_eq|].
      cbn. unfold audio_stream_out_frame_size. by rewrite Ew, Em, Ef.
    - rewrite E. apply wp_ret, wp_ret. by exists o1, o1. }
  unfold wp in Hw. destruct (out_write_data _ _ _ _ _) as [[r s']| |]; [|done..].
  destruct Hw as (o1 & o' & -> & _ & -> & Ew). eexists _, o'. split; [done|]. unfold after_write. cbn.
  destruct (Z.eqb_spec rc 0) as [E0|E0]; split_and!; done.
Qed.
End Write.
