(* ===== verification/AudioIn.v ===== *)
(** * AudioIn: input streams that start and stop keep the invariant *)

From S2P Require Import Prelude CString AudioDefs AudioDevices AudioStreams AudioBook AudioInv AudioSelect AudioFrame AudioOut.

Open Scope Z_scope.

Section In.
Context {D : Type} `{AudioLib} `{AudioEnv} `{DspContextsOk D}.
Implicit Types s : state D.

Notation usecases s := (ad_usecases (st_adev s)).

(** ** The device of an active stream *)

(** A device that an input stream [i] may have. *)
Definition dev_ok (i : stream_in) (d : pcm_device) : Prop :=
  (pd_profile d < 6)%nat /\ pd_dsp d = None /\
  (si_usecase i <> USECASE_AUDIO_CAPTURE_HOTWORD -> pd_sound_trigger d <= 0).

Definition in_device (s : state D) (h p : nat) (r : resources) : Prop :=
  exists i d, st_ins s !! h = Some i /\ si_pcm_devs i = Some [d] /\ pd_profile d = p /\ dev_ok i d /\
    dev_res (Some [d]) = r.

Definition recording (act : gset nat) (s0 : state D) (h p : nat) (r : resources) (s : state D) : Prop :=
  inv act s /\ ictl h s0 s /\ in_device s h p r.

Lemma in_device_res act s h p r : inv act s -> in_device s h p r -> res s h = r.
Proof.
  intros (_ & IS & _) (i & d & Hi & Ed & _ & _ & Er). by rewrite (res_in act s h i IS Hi), Ed.
Qed.

Lemma in_device_exists act s h i :
  inv act s -> st_ins s !! h = Some i -> h ∈ act ->
  exists p, in_device s h p (res s h).
Proof.
  intros (_ & IS & _) Hi Hh. destruct (i_ins _ _ IS h i Hi) as (O1 & _ & O3 & _).
  destruct (O1 Hh) as [d Ed]. exists (pd_profile d), i, d. split_and!; try done.
  - by apply O3.
  - by rewrite (res_in act s h i IS Hi), Ed.
Qed.

Lemma in_period act s h i : inv act s -> st_ins s !! h = Some i -> 0 < pc_period_size (si_config i).
Proof. intros (_ & IS & _) Hi. by apply (i_ins _ _ IS h i). Qed.

(** The stream changes, but not what the client set. *)
Lemma in_changed act s s' h i i' d :
  inv act s -> st_ins s !! h = Some i -> h ∈ act -> si_ctl i' = si_ctl i ->
  si_pcm_devs i' = Some [d] -> dev_ok i d -> 0 < pc_period_size (si_config i') ->
  st_ins s' = <[h := i']> (st_ins s) -> st_outs s' = st_outs s -> st_adev s' = st_adev s ->
  st_nodes s' = st_nodes s -> st_next s' = st_next s -> st_profiles s' = st_profiles s ->
  k_pending (st_kernel s') = k_pending (st_kernel s) -> k_live (st_kernel s') = k_live (st_kernel s) ->
  res_inv s' -> inv act s' /\ ictl h s s'.
Proof.
  intros I Hi Hh Ec Ed (Hd1 & Hd2 & Hd3) Hper Ei Eo Ea En Ex Ep E5 E6 Hr. injection Ec as E1 E2 E3 E4. split.
  - apply (inv_set_in act s s' h i i'); try done.
    destruct (i_ins _ _ (proj1 (proj2 I)) h i Hi) as (O1 & O2 & O3 & O4 & _).
    split_and!; rewrite ?E3, ?E4; try done; [intros _; by exists d|].
    intros d' E. rewrite Ed in E. by injection E as <-.
  - split; [|by rewrite Ea]. apply (itl_set_in s s' h i i'); try done. unfold si_ctl. congruence.
Qed.

(** The buffer of a stream, for a PCM with a number of channels. *)
Definition buf_ok (channels : Z) (i : stream_in) : Prop :=
  let period := pc_period_size (si_config i) in
  0 <= si_read_buf_frames i <= period /\
  (0 < si_read_buf_frames i -> period <= si_read_buf_size i /\ si_read_status i = 0) /\
  (period <= si_read_buf_size i -> period * channels <= Z.of_nat (length (si_read_buf i))).

(** Samples can be read: the PCM is open, and the buffer as it should be. *)
Definition can_read (i : stream_in) : Prop :=
  exists d n q, si_pcm_devs i = Some [d] /\ pd_pcm d = Some n /\ pcm_devices !! pd_profile d = Some q /\
    buf_ok (pc_channels (pp_config q)) i.

(** No effect, and no resampler: as the stream is, and when it is to start. *)
Definition plain_on (p : nat) (i : stream_in) : Prop :=
  si_resampler i = false /\ si_preprocessors i = [] /\
  forall q, pcm_devices !! p = Some q -> pc_channels (si_config i) = pc_channels (pp_config q).
Definition plain (i : stream_in) : Prop :=
  forall d, si_pcm_devs i = Some [d] -> plain_on (pd_profile d) i.

Definition ready (i : stream_in) : Prop :=
  si_resampler i = false /\ si_preprocessors i = [] /\ si_aux_changed i = false /\
  si_requested_rate i = CAPTURE_DEFAULT_SAMPLING_RATE /\ pc_rate (si_config i) = CAPTURE_DEFAULT_SAMPLING_RATE.

(** It keeps its device, too. *)
Lemma recording_set act s0 s h p r i i' :
  recording act s0 h p r s -> h ∈ act -> st_ins s !! h = Some i -> si_ctl i' = si_ctl i ->
  si_pcm_devs i' = si_pcm_devs i -> 0 < pc_period_size (si_config i') -> recording act s0 h p r (on_ins (insert h i') s).
Proof.
  intros (I & C & (i1 & d & Hi1 & Ed & Ep & Hd & Er)) Hh Hi Ec E Hper. assert (i1 = i) as -> by congruence.
  set (s' := on_ins _ s). pose proof (proj1 (proj2 I)) as IS.
  destruct (in_changed act s s' h i i' d) as [I' C']; try done; [congruence| |].
  - apply (res_inv_ext s); try done; [apply I|]. intros h'.
    rewrite (res_set_in act s s' h i i') by done. destruct (decide _) as [-> | _]; [|done].
    by rewrite (res_in act s h i IS Hi), E.
  - split; [done|]. split; [by apply (ictl_trans h s0 s)|]. exists i', d.
    split; [apply lookup_insert_eq|]. split; [congruence|]. injection Ec as _ _ Eu _.
    unfold dev_ok in *. by rewrite Eu.
Qed.

Lemma recording_calls act s0 s h p r :
  recording act s0 h p r s -> recording act s0 h p r (on_kernel (on_calls S) s).
Proof.
  intros ((IU & IS & IR & IA) & C & Hd). split; [|by split]. split_and!.
  - by apply (uses_inv_ext act s).
  - by apply (streams_inv_ext act s).
  - by apply (res_inv_ext s).
  - by destruct IA.
Qed.

(** ** A new use case *)

(** The stream [h] is about to get a use case. *)
Definition starting (act : gset nat) (h : nat) (s : state D) : Prop :=
  uses_inv act s /\ streams_inv act s /\ res_inv s /\ adev_inv ({[h]} ∪ act) s.

Lemma fresh_in_id act s h i v :
  uses_inv act s -> streams_inv act s -> st_ins s !! h = Some i -> h ∉ act -> v ∈ usecases s ->
  uc_id v <> si_usecase i.
Proof.
  intros IU IS Hi Hh Hv E. pose proof (i_uc _ _ IU v Hv) as Ov. pose proof (i_listed _ _ IU v Hv) as Hl.
  destruct (i_ins _ _ IS h i Hi) as (_ & _ & _ & T & _). unfold uc_ok, uc_handle in *.
  destruct (uc_stream v) as [h'|h']; destruct Ov as (x & Hx & Ex & _).
  - destruct (i_outs _ _ IS h' x Hx) as (_ & _ & _ & T' & _).
    unfold USECASE_AUDIO_CAPTURE, USECASE_AUDIO_CAPTURE_HOTWORD, USECASE_AUDIO_PLAYBACK,
      USECASE_AUDIO_PLAYBACK_DEEP_BUFFER in *. lia.
  - assert (h' = h) as -> by (apply (i_one_in _ _ IS h' h x i); congruence). done.
Qed.

Definition captured (h : nat) (i : stream_in) (p : nat) (u : audio_usecase) (s : state D) : state D :=
  on_adev (fun a => set_ad_usecases (ad_usecases a ++ [u]) a)
    (on_nodes (insert (SOUND_CARD, uc_id u) (uc_loc u))
      (State (st_adev s) (st_outs s) (<[h := set_si_pcm_devs (Some [new_pcm_device p]) i]> (st_ins s))
        (st_profiles s) (st_nodes s) (S (st_next s)) (st_kernel s) (st_dsp s))).

Lemma wp_new_capture_eq act s h i p (Q : unit -> state D -> Prop) :
  adev_inv act s -> st_ins s !! h = Some i -> (p < 6)%nat ->
  Q tt (captured h i p (Usecase (st_next s) (si_usecase i) PCM_CAPTURE (si_devices i) SND_DEVICE_NONE
          SND_DEVICE_NONE (InStream h) [SOUND_CARD]) s) ->
  wp (new_capture h p) Q s.
Proof.
  intros IA Hi Hp HQ. unfold new_capture.
  apply wp_bind, (wp_the_in h i); [done|]. apply wp_bind, wp_fresh.
  apply wp_bind, (wp_set_in h _ i); [done|].
  destruct (profile_exists act s p IA Hp) as (q & q' & Hq & Hq' & L1 & _).
  apply wp_bind, (wp_the_profile p q'); [done|]. rewrite L1, (profiles_card p q Hq).
  apply wp_bind, wp_mixer_for_card; [apply IA|]. apply wp_bind. unfold add_mixer.
  apply wp_bind, (wp_access _ SOUND_CARD); [done|]. repeat wp_step. exact HQ.
Qed.

Lemma wp_new_capture act s h i p :
  starting act h s -> st_ins s !! h = Some i -> h ∉ act -> (p < 6)%nat ->
  wp (new_capture h p)
    (fun _ s' => recording ({[h]} ∪ act) s h p no_resources s' /\
       st_ins s' !! h = Some (set_si_pcm_devs (Some [new_pcm_device p]) i)) s.
Proof.
  intros (IU & IS & IR & IA) Hi Hh Hp. apply (wp_new_capture_eq ({[h]} ∪ act) s h i p); [done.. |].
  set (u := Usecase _ _ _ _ _ _ _ _). set (s' := captured h i p u s).
  set (i' := set_si_pcm_devs (Some [new_pcm_device p]) i).
  assert (st_ins s' = <[h := i']> (st_ins s)) as Ei by done.
  destruct (i_ins _ _ IS h i Hi) as (O1 & O2 & O3 & O4 & O5).
  split; [|apply lookup_insert_eq]. split; [|split].
  - split_and!.
    + apply (uses_inv_add act s s' u); try done; cbn; [|lia| |].
      * intros v Hv. by apply (fresh_in_id act s h i).
      * intros v. by apply (uc_ok_in s s' h i i').
      * exists i'. rewrite lookup_insert_eq. split_and!; try done. by left.
    + apply (streams_set_in act _ s s' h i i'); try done; [|apply agrees_add | cbn; lia].
      split_and!; try done; cbn; [intros _; by eexists | set_solver |].
      intros d [= <-]. split_and!; [done | done|]. intros _. cbn. lia.
    + apply (res_inv_ext s); try done. intros h'. rewrite (res_set_in act s s' h i i') by done.
      destruct (decide _) as [-> | _]; [|done]. rewrite (res_in act s h i IS Hi).
      by destruct (O2 Hh) as [-> | ->].
    + destruct IA as [A1 A2 A3 A4 A5 A6]. split; try done; cbn.
      intros h' Ha. rewrite lookup_insert_is_Some'. destruct (A4 h' Ha). auto.
  - split; [|done]. by apply (itl_set_in s s' h i i').
  - exists i', (new_pcm_device p). split; [apply lookup_insert_eq|]. by split_and!.
Qed.

(** ** Opening *)

(** A device that is open gives back what it holds, or takes what is free. *)
Lemma res_released s s' h :
  res_inv s -> (forall h', h' <> h -> res s' h' = res s h') -> res s' h = no_resources ->
  r_dsp (res s h) = None ->
  k_pcms (st_kernel s') = match r_pcm (res s h) with Some n => k_pcms (st_kernel s) ∖ {[n]}
                          | None => k_pcms (st_kernel s) end ->
  k_next_pcm (st_kernel s') = k_next_pcm (st_kernel s) ->
  k_streaming (st_kernel s') = match r_streaming (res s h) with Some z => k_streaming (st_kernel s) ∖ {[z]}
                               | None => k_streaming (st_kernel s) end ->
  st_dsp s' = st_dsp s -> res_inv s'.
Proof.
  intros [R1 R2 R3 (l & Hl & R4)] Ho Er Ed E1 E2 E3 E4. split; rewrite ?E2, ?E4.
  - rewrite E1. destruct (r_pcm (res s h)) as [n|] eqn:En.
    + apply (owned_release _ _ _ _ h n R1); [done | by rewrite Er | | set_solver].
      intros h' Hne. by rewrite Ho.
    + apply (owned_ext _ _ _ _ R1); [|done]. intros h'.
      destruct (decide (h' = h)) as [-> | Hne]; [by rewrite Er | by rewrite Ho].
  - intros m Hm. apply R2. rewrite E1 in Hm. destruct (r_pcm (res s h)); set_solver.
  - rewrite E3. destruct (r_streaming (res s h)) as [z|] eqn:En.
    + apply (owned_release _ _ _ _ h z R3); [done | by rewrite Er | | set_solver].
      intros h' Hne. by rewrite Ho.
    + apply (owned_ext _ _ _ _ R3); [|done]. intros h'.
      destruct (decide (h' = h)) as [-> | Hne]; [by rewrite Er | by rewrite Ho].
  - exists l. split; [done|]. apply (owned_ext _ _ _ _ R4); [|done]. intros h'.
    destruct (decide (h' = h)) as [-> | Hne]; [by rewrite Er, Ed | by rewrite Ho].
Qed.

(** Only the stream for hotwords has a hotword stream. *)
Lemma no_streaming act s h i z :
  inv act s -> st_ins s !! h = Some i -> si_usecase i = USECASE_AUDIO_CAPTURE_HOTWORD ->
  r_streaming (res s h) = None -> z ∉ k_streaming (st_kernel s).
Proof.
  intros (_ & IS & [_ _ [R3 _] _] & _) Hi Eu Er Hz. apply R3 in Hz as (h' & Hz). clear R3.
  assert (h' <> h) as Hne by congruence. unfold res in Hz.
  assert (forall l, r_streaming (dev_res l) = Some z -> exists d, l = Some [d] /\ streaming_of d = Some z) as Hl.
  { intros [[|d [|]]|]; try done. intros E. by exists d. }
  destruct (st_outs s !! h') as [o|] eqn:Ho.
  - apply Hl in Hz as (d & Ed & Es). destruct (i_outs _ _ IS h' o Ho) as (_ & _ & O3 & _).
    destruct (O3 d Ed) as (_ & _ & E). unfold streaming_of in Es. by rewrite E in Es.
  - destruct (st_ins s !! h') as [i'|] eqn:Hi'; [|done]. apply Hl in Hz as (d & Ed & Es). cbn in Ed.
    destruct (i_ins _ _ IS h' i' Hi') as (_ & _ & O3 & T & _). destruct (O3 d Ed) as (_ & _ & E).
    destruct (Z.eq_dec (si_usecase i') USECASE_AUDIO_CAPTURE_HOTWORD) as [E'|E'].
    + apply Hne. apply (i_one_in _ _ IS h' h i' i); congruence.
    + specialize (E E'). unfold streaming_of in Es.
      destruct (Z.ltb_spec 0 (pd_sound_trigger d)); [lia | done].
Qed.

Lemma streaming_taken s s' h z :
  res_inv s -> (forall h', h' <> h -> res s' h' = res s h') ->
  r_streaming (res s h) = None -> res s' h = Resources (r_pcm (res s h)) (Some z) (r_dsp (res s h)) ->
  z ∉ k_streaming (st_kernel s) ->
  k_pcms (st_kernel s') = k_pcms (st_kernel s) -> k_next_pcm (st_kernel s') = k_next_pcm (st_kernel s) ->
  k_streaming (st_kernel s') = {[z]} ∪ k_streaming (st_kernel s) -> st_dsp s' = st_dsp s -> res_inv s'.
Proof.
  intros [R1 R2 R3 (l & Hl & R4)] Ho Ep Er Hz E1 E2 E3 E4. split; rewrite ?E1, ?E2, ?E3, ?E4.
  - apply (owned_ext _ _ _ _ R1); [|done]. intros h'.
    destruct (decide (h' = h)) as [-> | Hne]; [by rewrite Er | by rewrite Ho].
  - done.
  - apply (owned_acquire _ _ _ _ h z R3); [done | by rewrite Er | | done | set_solver].
    intros h' Hne. by rewrite Ho.
  - exists l. split; [done|]. apply (owned_ext _ _ _ _ R4); [|done]. intros h'.
    destruct (decide (h' = h)) as [-> | Hne]; [by rewrite Er | by rewrite Ho].
Qed.

(** The device of a stream that held nothing, changed to hold [r]. *)
Lemma in_opened act s0 s h p i d d' k :
  recording act s0 h p no_resources s -> h ∈ act -> st_ins s !! h = Some i -> si_pcm_devs i = Some [d] ->
  pd_profile d' = pd_profile d -> dev_ok i d' ->
  k_pending k = k_pending (st_kernel s) -> k_live k = k_live (st_kernel s) ->
  let s' := State (st_adev s) (st_outs s) (<[h := set_si_pcm_devs (Some [d']) i]> (st_ins s))
              (st_profiles s) (st_nodes s) (st_next s) k (st_dsp s) in
  ((forall h', h' <> h -> res s' h' = res s h') -> res s' h = dev_res (Some [d']) -> res_inv s') ->
  recording act s0 h p (dev_res (Some [d'])) s'.
Proof.
  intros (I & C & (i1 & d1 & Hi1 & Ed1 & Ep & Hd & Er)) Hh Hi Ed E1 Hd' E5 E6 s' Hr.
  assert (i1 = i) as -> by congruence. assert (d1 = d) as -> by congruence.
  pose proof (proj1 (proj2 I)) as IS. set (i' := set_si_pcm_devs (Some [d']) i).
  assert (forall h', res s' h' = if decide (h' = h) then dev_res (Some [d']) else res s h') as Er2
    by (intros h'; by apply (res_set_in act s s' h i i')).
  destruct (in_changed act s s' h i i' d') as [I' C']; try done; [by apply (in_period act s h i) | |].
  { apply Hr; [intros h' Hne; by rewrite Er2, decide_False | by rewrite Er2, decide_True]. }
  split; [done|]. split; [by apply (ictl_trans h s0 s)|]. exists i', d'.
  split; [apply lookup_insert_eq|]. split; [done|]. split; [congruence|]. done.
Qed.
End In.
