(* ===== verification/AudioInRun.v ===== *)
(** * AudioInRun: input streams that start, stop and go to standby *)

From S2P Require Import Prelude CString AudioDefs AudioDevices AudioStreams AudioBook AudioInv AudioSelect AudioFrame AudioOut AudioIn.

Open Scope Z_scope.

Section InRun.
Context {D : Type} `{AudioLib} `{AudioEnv} `{DspContextsOk D}.
Implicit Types s : state D.

Notation usecases s := (ad_usecases (st_adev s)).

(** ** Starting *)

(** Resamplers can be made. *)
Definition resamplers_ok : Prop := forall n, create_resampler_answer n = 0.

Lemma wp_in_configure act s0 s h p r i :
  recording act s0 h p r s -> h ∈ act -> (p < 6)%nat -> st_ins s !! h = Some i ->
  wp (in_configure h p) (fun ret s' => recording act s0 h p r s' /\ (resamplers_ok -> ret = 0) /\
    exists i', st_ins s' !! h = Some i' /\ (ready i -> (p < 5)%nat -> plain_on p i')) s.
Proof.
  intros Hrec Hh Hp Hi. pose proof Hrec as (I & _ & (i0 & d & Hi0 & Ed & Ep & _)).
  assert (i0 = i) as -> by congruence.
  destruct (profile_exists act s p (proj2 (proj2 (proj2 I))) Hp) as (q & q' & Hq0 & Hq & L).
  unfold in_configure. apply wp_bind, (wp_the_profile p q'); [done|]. apply wp_bind, (wp_the_in h i); [done|].
  apply wp_bind, (wp_set_in h _ i); [done|].
  match goal with |- context [set_si_config ?x i] => set (c := x) end.
  assert (recording act s0 h p r (on_ins (insert h (set_si_config c i)) s)) as Hrec1
    by (apply (recording_set act s0 s h p r i); try done; unfold c; destruct (si_aux_changed i); apply (like_period _ _ L)).
  apply wp_if; intros E.
  - unfold ask. repeat wp_step. apply recording_calls in Hrec1.
    pose proof Hrec1 as (_ & _ & (i1 & d1 & Hi1 & _)). eapply wp_set_in; [exact Hi1|]. apply wp_ret.
    split; [|split; [auto|]].
    + apply (recording_set act s0 _ h p r i1); try done. by apply (in_period act _ h i1 (proj1 Hrec1)).
    + match goal with |- context [insert h ?x] => exists x end. split; [apply lookup_insert_eq|].
      intros (R1 & R2 & R3 & R4 & R5) Hp5. exfalso. revert E. unfold c. rewrite R3, R4, R5.
      destruct L as (_ & _ & _ & _ & -> & _). by rewrite (profiles_rate p q Hq0 Hp5).
  - apply wp_ret. split; [done|]. split; [done|]. exists (set_si_config c i).
    split; [apply lookup_insert_eq|]. intros (R1 & R2 & R3 & _) _. split; [done|]. split; [done|].
    intros q2 Hq2. cbn. unfold c. rewrite R3. rewrite Hq0 in Hq2. injection Hq2 as <-. apply L.
Qed.

Lemma wp_set_in_device s h i d f (Q : unit -> state D -> Prop) :
  st_ins s !! h = Some i -> si_pcm_devs i = Some [d] ->
  Q tt (on_ins (insert h (set_si_pcm_devs (Some [f d]) i)) s) -> wp (set_in_device h f) Q s.
Proof.
  intros Hi Ed HQ. unfold set_in_device. apply (wp_set_in h _ i); [done|]. by rewrite Ed.
Qed.

(** Memory is never short in pcm_open. *)
Definition memory_ok : Prop := forall n, pcm_open_answer n <> NoPcm.

(** The sound trigger library reports no error to a reader. *)
Definition hotwords_ok : Prop := forall n, 0 <= st_read_answer n.

(** What opening leads to: the stream holds nothing when it fails, and a PCM
    when it does not and the stream is not for hotwords. *)
Definition in_open_post (act : gset nat) (s0 s : state D) (h p : nat) (ok : bool) (s' : state D) : Prop :=
  exists r, recording act s0 h p r s' /\ (ok = false -> r = no_resources) /\
    (ok = true -> memory_ok -> forall i, st_ins s' !! h = Some i ->
       si_usecase i <> USECASE_AUDIO_CAPTURE_HOTWORD -> is_Some (r_pcm r)) /\
    (forall i, st_ins s !! h = Some i -> exists d, st_ins s' !! h = Some (set_si_pcm_devs (Some [d]) i)).

(** Nothing but the device of the stream. *)
Lemma only_device_changed s s' h i d :
  st_ins s !! h = Some i -> st_ins s' !! h = Some (set_si_pcm_devs (Some [d]) i) ->
  forall i0, st_ins s !! h = Some i0 -> exists d0, st_ins s' !! h = Some (set_si_pcm_devs (Some [d0]) i0).
Proof. intros Hi Hi' i0 Hi0. exists d. congruence. Qed.

Lemma wp_open_hotword act s0 s h p :
  recording act s0 h p no_resources s -> h ∈ act ->
  (forall i, st_ins s !! h = Some i -> si_usecase i = USECASE_AUDIO_CAPTURE_HOTWORD) ->
  wp (handle ← ask st_open_answer;
      set_in_device h (fun d => set_pd_pcm None (set_pd_sound_trigger handle d));;
      when (0 <? handle) (modify (on_kernel (on_streaming (union {[handle]}))));;
      mret (0 <? handle)) (in_open_post act s0 s h p) s.
Proof.
  intros Hrec Hh Hu. do 2 wp_step. apply recording_calls in Hrec. set (s1 := on_kernel (on_calls S) s) in *.
  pose proof Hrec as (I & _ & Hd). pose proof (in_device_res _ _ _ _ _ I Hd) as Rs.
  destruct Hd as (i & d & Hi & Ed & Ep & (D1 & D2 & D3) & Er).
  pose proof (no_streaming act s1 h i a I Hi (Hu i Hi)) as Hfree. rewrite Rs in Hfree.
  apply wp_bind, (wp_set_in_device _ h i d); [done | done|].
  set (d' := set_pd_pcm None (set_pd_sound_trigger a d)).
  assert (dev_ok i d') as Hd' by (split_and!; [done | done|]; intros Hne; by destruct (Hne (Hu i Hi))).
  apply wp_bind, wp_when; intros Ha; repeat wp_step.
  - exists (dev_res (Some [d'])). split.
    2: { rewrite Ha. split; [done|]. split; [|exact (only_device_changed s _ h i d' Hi (lookup_insert_eq _ _ _))].
         intros _ _ i2 Hi2 Hne. exfalso. cbn in Hi2.
         rewrite lookup_insert_eq in Hi2. injection Hi2 as <-. exact (Hne (Hu i Hi)). }
    apply (in_opened act s0 s1 h p i d d' (on_streaming (union {[a]}) (st_kernel s1))); try done. intros Hoth Eh.
    apply (streaming_taken s1 _ h a); try done; try (by apply I); [by rewrite Rs | | by apply Hfree].
    rewrite Eh, Rs. cbn. unfold streaming_of. cbn. by rewrite Ha, D2.
  - assert (dev_res (Some [d']) = no_resources) as Er'.
    { cbn. unfold streaming_of. cbn. by rewrite Ha, D2. }
    exists (dev_res (Some [d'])).
    split; [|split; [done | split; [by rewrite Ha | exact (only_device_changed s _ h i d' Hi (lookup_insert_eq _ _ _))]]].
    apply (in_opened act s0 s1 h p i d d' (st_kernel s1)); try done. intros Hoth Eh.
    apply (res_inv_ext s1); try done; [by apply I|].
    intros h'. destruct (decide (h' = h)) as [-> | Hne]; [by rewrite Eh, Rs, Er' | by rewrite Hoth].
Qed.

Lemma wp_open_capture act s0 s h p :
  recording act s0 h p no_resources s -> h ∈ act ->
  wp ('(answer, n) ← pcm_open;
      set_in_device h (fun d =>
        set_pd_sound_trigger 0 (set_pd_pcm (match answer with Ready => Some n | _ => None end) d));;
      mret (match answer with NotReady => false | _ => true end)) (in_open_post act s0 s h p) s.
Proof.
  intros Hrec Hh. pose proof (recording_calls _ _ _ _ _ _ Hrec) as Hrec1.
  pose proof Hrec1 as (I & _ & Hd). pose proof (in_device_res _ _ _ _ _ I Hd) as Rs.
  destruct Hd as (i & d & Hi & Ed & Ep & (D1 & D2 & D3) & Er). set (s1 := on_kernel (on_calls S) s) in *.
  apply wp_bind, wp_pcm_open.
  - apply wp_bind, (wp_set_in_device _ h i d); [done | done|]. apply wp_ret.
    set (n := k_next_pcm (st_kernel s)). set (d' := set_pd_sound_trigger 0 (set_pd_pcm (Some n) d)).
    exists (dev_res (Some [d'])).
    split; [|split; [done | split; [done | exact (only_device_changed s _ h i d' Hi (lookup_insert_eq _ _ _))]]].
    set (k := st_kernel s1).
    apply (in_opened act s0 s1 h p i d d' (Kernel ({[n]} ∪ k_pcms k) (S n) (k_streaming k) (k_pending k)
      (k_live k) (k_written k) (k_calls k))); try done. intros Hoth Eh.
    apply (pcm_taken s1 _ h n); try done; [by apply I | by rewrite Rs |].
    rewrite Eh, Rs. cbn. by rewrite D2.
  - intros a Ha Ea. apply wp_bind, (wp_set_in_device _ h i d); [done | done|]. apply wp_ret.
    replace (match a with Ready => _ | _ => None end) with (@None nat) by (by destruct a).
    set (d' := set_pd_sound_trigger 0 (set_pd_pcm None d)).
    assert (dev_res (Some [d']) = no_resources) as Er' by (cbn; by rewrite D2).
    exists (dev_res (Some [d'])). split.
    2: { split; [by destruct a|]. split; [|exact (only_device_changed s _ h i d' Hi (lookup_insert_eq _ _ _))].
         intros Hok Hm. destruct a; try done. exfalso. by apply (Hm _ Ea). }
    apply (in_opened act s0 s1 h p i d d' (st_kernel s1)); try done. intros Hoth Eh.
    apply (res_inv_ext s1); try done; [by apply I|].
    intros h'. destruct (decide (h' = h)) as [-> | Hne]; [by rewrite Eh, Rs, Er' | by rewrite Hoth].
Qed.

Lemma wp_in_open act s0 s h p :
  recording act s0 h p no_resources s -> h ∈ act -> (p < 6)%nat ->
  (forall i q, st_ins s !! h = Some i -> st_profiles s !! p = Some q -> pp_type q = si_usecase_type i) ->
  wp (in_open h p) (in_open_post act s0 s h p) s.
Proof.
  intros Hrec Hh Hp Ht. pose proof Hrec as (I & _ & _).
  destruct (profile_exists act s p (proj2 (proj2 (proj2 I))) Hp) as (q & q' & _ & Hq & _).
  unfold in_open. apply wp_bind, (wp_the_profile p q'); [done|]. apply wp_if; intros Et.
  - wp_step. wp_step. apply wp_if; intros _.
    { apply wp_ret. exists no_resources. split; [done|]. split; [done|]. split; [done|].
      destruct Hrec as (_ & _ & (i & d & Hi & Ed & _)). apply (only_device_changed s s h i d Hi).
      rewrite Hi, <- Ed. by destruct i. }
    apply wp_open_hotword; [done | done|]. intros i Hi. apply Z.eqb_eq in Et. rewrite (Ht i q' Hi Hq) in Et.
    destruct (i_ins _ _ (proj1 (proj2 I)) h i Hi) as (_ & _ & _ & [[_ E] | [E _]] & _); [by rewrite E in Et | done].
  - by apply wp_open_capture.
Qed.

(** ** Stopping *)

(** The use case of an active input. *)
Lemma in_usecase act s h i :
  inv act s -> h ∈ act -> st_ins s !! h = Some i ->
  exists u, u ∈ usecases s /\ uc_stream u = InStream h /\
    get_usecase_from_id (st_adev s) (si_usecase i) = Some u /\ uc_out u = SND_DEVICE_NONE.
Proof.
  intros (IU & IS & _) Hh Hi. destruct (i_act _ _ IU h Hh) as (u & Hu & E). exists u. split; [done|].
  pose proof (i_uc _ _ IU u Hu) as Ou. unfold uc_ok, uc_handle in *. destruct (uc_stream u) as [h'|h']; subst h'.
  - destruct Ou as (o & Ho & _). rewrite (i_disj _ _ IS h) in Hi; [done | by exists o].
  - destruct Ou as (i' & Hi' & Ei & _ & Eo & _). assert (i' = i) as -> by congruence.
    split; [done|]. split; [|done]. unfold get_usecase_from_id. rewrite <- Ei. apply find_by_id; [apply IU | done].
Qed.

(** No input is the active one. *)
Lemma inactive_inv act s : inv act s -> inv act (on_adev (set_ad_active_input None) s).
Proof.
  intros (IU & IS & IR & IA). split_and!.
  - by apply (uses_inv_ext act s).
  - by apply (streams_inv_ext act s).
  - by apply (res_inv_ext s).
  - by destruct IA.
Qed.

Definition stopped (act : gset nat) (h : nat) (s s' : state D) : Prop :=
  inv (act ∖ {[h]}) s' /\ itl h s s' /\ ad_active_input (st_adev s') = None.

Lemma wp_stop_input act s h i :
  inv act s -> h ∈ act -> st_ins s !! h = Some i -> res s h = no_resources ->
  wp (stop_input_stream h) (fun _ s' => stopped act h s s') s.
Proof.
  intros I0 Hh Hi Hr. pose proof (inactive_inv act s I0) as I. unfold stop_input_stream.
  apply wp_bind, wp_set_adev. set (s0 := on_adev _ s) in *. pose proof I as (IU & IS & IR & IA).
  destruct (in_usecase act s0 h i I Hh Hi) as (u & Hu & Es & Ef & Eo).
  apply wp_bind, (wp_the_in h i); [done|]. repeat wp_step. rewrite Ef.
  apply wp_bind. eapply wp_mono; [apply (wp_disable act); [done | done | by right]|].
  intros _ s1 (r & p & l & -> & B & S).
  destruct (i_ins _ _ IS h i Hi) as (O1 & _ & O3 & O4 & O5). destruct (O1 Hh) as [d Ed].
  apply wp_bind. unfold remove_usecase. apply wp_set_adev. rewrite Ed.
  apply wp_bind. unfold in_release_pcm_devices. apply wp_bind, (wp_the_in h i); [done|].
  rewrite Ed. apply wp_bind, wp_lift. apply (wp_set_in h _ i); [done|]. apply wp_ret.
  set (i' := set_si_pcm_devs (Some []) i). match goal with |- stopped _ _ _ ?x => set (s' := x) end.
  split; [|split; [by apply (itl_set_in s s' h i i') | done]]. split_and!.
  - assert (uc_handle u = h) as <- by (unfold uc_handle; by rewrite Es).
    apply (uses_inv_del act s0 s' u); try done.
    + intros v Hv E. by apply (one_usecase act s0).
    + intros v. by apply (uc_ok_in s0 s' (uc_handle u) i i').
    + by destruct B.
  - apply (streams_set_in act _ s0 s' h i i'); try done; [|apply agrees_del].
    split_and!; try done; [set_solver | by right].
  - apply (res_inv_ext s0); try done. intros h'. rewrite (res_set_in act s0 s' h i i') by done.
    destruct (decide _) as [-> | _]; [|done]. by change (res s0 h) with (res s h); rewrite Hr.
  - destruct IA as [A1 A2 A3 A4 A5 A6]. by split.
Qed.

(** Closing what the device holds. *)
Lemma wp_in_close act s h i :
  inv act s -> h ∈ act -> st_ins s !! h = Some i ->
  wp (in_close_pcm_devices h) (fun _ s' => inv act s' /\ ictl h s s' /\ res s' h = no_resources) s.
Proof.
  intros I Hh Hi. pose proof (proj1 (proj2 I)) as IS.
  destruct (i_ins _ _ IS h i Hi) as (O1 & _ & O3 & _). destruct (O1 Hh) as [d Ed].
  destruct (O3 d Ed) as (D1 & D2 & D3). pose proof (res_in act s h i IS Hi) as Rs. rewrite Ed in Rs.
  unfold in_close_pcm_devices. apply wp_bind, (wp_the_in h i); [done|]. rewrite Ed.
  apply wp_bind, wp_lift. apply wp_bind. cbn [map_each]. apply wp_bind.
  set (d1 := set_pd_pcm None d).
  set (k1 := fun k : kernel => match pd_pcm d with Some n => on_pcms (fun p => p ∖ {[n]}) k | None => k end).
  set (k2 := fun k : kernel => match streaming_of d with
                               | Some z => on_streaming (fun l => l ∖ {[z]}) k | None => k end).
  set (d2 := set_pd_sound_trigger 0 d1).
  apply wp_mono with (P := fun d' s1 => d' = d2 /\ s1 = on_kernel k2 (on_kernel k1 s)).
  { apply wp_bind. apply wp_mono with (P := fun d' s1 => d' = d1 /\ s1 = on_kernel k1 s).
    - unfold close_device_pcm, d1, k1. destruct (pd_pcm d) as [m|] eqn:Em.
      + unfold pcm_close. repeat wp_step. rewrite decide_True; [by repeat wp_step|].
        destruct I as (_ & _ & [[R1 _] _ _ _] & _). apply R1. exists h. by rewrite Rs.
      + apply wp_ret. split; [by destruct d; cbn in Em; subst | by destruct s].
    - intros d' s1 [-> ->]. apply wp_bind. unfold close_streaming, k2, streaming_of.
      change (pd_sound_trigger d1) with (pd_sound_trigger d). destruct (0 <? pd_sound_trigger d) eqn:Et.
      + by repeat wp_step.
      + repeat wp_step. split; [done|]. by destruct s. }
  intros d' s1 [-> ->]. repeat wp_step. eapply wp_set_in; [exact Hi|].
  match goal with |- inv _ ?x /\ _ => set (s' := x) end. set (i' := set_si_pcm_devs (Some [d2]) i).
  assert (st_ins s' = <[h := i']> (st_ins s)) as Ei by done.
  assert (forall h', res s' h' = if decide (h' = h) then no_resources else res s h') as Er.
  { intros h'. rewrite (res_set_in act s s' h i i') by done. destruct (decide _); [|done].
    cbn. by rewrite D2. }
  assert (res_inv s') as IR.
  { apply (res_released s s' h); try done; [apply I | intros h' Hne; by rewrite Er, decide_False |
      by rewrite Er, decide_True | by rewrite Rs, <- D2 | ..];
      rewrite ?Rs; unfold s', k2, k1; cbn; by destruct (pd_pcm d), (streaming_of d). }
  pose proof (in_period act s h i I Hi) as Hper.
  destruct (in_changed act s s' h i i' d2) as [I' C']; try done;
    [unfold s', k2, k1; cbn; by destruct (pd_pcm d), (streaming_of d) ..|].
  split; [done|]. split; [done|]. by rewrite Er, decide_True.
Qed.

(** ** Standby *)

(** The state with fields of a stream changed that it can do without. *)
Definition on_stream (h : nat) (f : stream_in -> stream_in) (i : stream_in) (s : state D) : state D :=
  on_ins (insert h (f i)) s.

Definition harmless (f : stream_in -> stream_in) : Prop :=
  forall i, si_pcm_devs (f i) = si_pcm_devs i /\ si_usecase (f i) = si_usecase i /\
    si_usecase_type (f i) = si_usecase_type i /\ si_config (f i) = si_config i.

Lemma on_stream_inv act s h f i :
  inv act s -> st_ins s !! h = Some i -> harmless f -> inv act (on_stream h f i s).
Proof.
  intros I Hi Hf. destruct (Hf i) as (E1 & E2 & E3 & E4). pose proof (proj1 (proj2 I)) as IS.
  apply (inv_set_in act s _ h i (f i)); try done.
  - destruct (i_ins _ _ IS h i Hi) as (O1 & O2 & O3 & O4 & O5). split_and!; by rewrite ?E1, ?E2, ?E3, ?E4.
  - apply (res_inv_ext s); try done; [apply I|]. intros h'.
    rewrite (res_set_in act s _ h i (f i)) by done.
    destruct (decide _) as [-> | _]; [by rewrite E1, (res_in act s h i IS Hi) | done].
Qed.

Definition in_flag (b : bool) (i : stream_in) : stream_in := set_si_standby b i.

Lemma wp_do_in_standby act s h i :
  inv act s -> h ∈ act -> st_ins s !! h = Some i -> si_standby i = false ->
  wp (do_in_standby_l h)
    (fun _ s' => stopped act h (on_stream h (in_flag true) i s) s') s.
Proof.
  intros I Hh Hi Hsb. unfold do_in_standby_l. apply wp_bind, (wp_the_in h i); [done|]. rewrite Hsb.
  cbn [negb when]. apply wp_bind.
  apply wp_bind. eapply wp_mono; [by apply (wp_in_close act s h i)|]. intros _ s1 (I1 & [C1 A1] & R1).
  destruct (ctl_in s s1 h i (proj1 C1) Hi) as (i1 & Hi1 & E1).
  apply wp_bind. eapply wp_mono; [by apply (wp_stop_input act s1 h i1)|]. intros _ s2 (I2 & C2 & A2).
  destruct (ctl_in s1 s2 h i1 (proj1 C2) Hi1) as (i2 & Hi2 & E2).
  apply (wp_set_in h _ i2); [done|]. apply wp_ret.
  set (g := fun i => set_si_standby true (set_si_read_buf [] i)).
  change (on_ins _ s2) with (on_stream h g i2 s2). split; [by apply on_stream_inv|]. split; [|done].
  destruct (itl_trans h _ _ _ C1 C2) as [[Eo Ei] Eh]. split; [split; [done|]|].
  - cbn. rewrite !fmap_insert, Ei. f_equal. unfold si_ctl in *. cbn. congruence.
  - intros h' Hne. cbn. rewrite !lookup_insert_ne by done. by apply Eh.
Qed.

(** ** Starting *)

Lemma alter_profile_like f p (l : list pcm_device_profile) :
  (forall x y, profile_like x y -> profile_like (f x) y) ->
  Forall2 profile_like l pcm_devices -> Forall2 profile_like (alter f p l) pcm_devices.
Proof.
  intros Hf. generalize pcm_devices as l2. intros l2 F. revert p.
  induction F as [|x y l l2 E F IH]; intros [|p]; cbn; constructor; auto.
Qed.

(** The profile of a FAST input. *)
Definition fast_profile (p : pcm_device_profile) : pcm_device_profile :=
  set_pp_config (set_pc_period_size CAPTURE_PERIOD_SIZE_LOW_LATENCY (pp_config p)) p.

Lemma starting_fast act s h p :
  starting act h s -> starting act h (on_profiles (alter fast_profile p) s).
Proof.
  intros (IU & IS & IR & IA). split_and!.
  - by apply (uses_inv_ext act s).
  - by apply (streams_inv_ext act s).
  - by apply (res_inv_ext s).
  - destruct IA as [? ? ? ? ? A6]. split; try done. cbn. apply alter_profile_like; [|done].
    intros x y (? & ? & ? & ? & ? & ? & ?). split_and!; try done. by right.
Qed.

Lemma starting_active act s h :
  inv act s -> is_Some (st_ins s !! h) -> starting act h (on_adev (set_ad_active_input (Some h)) s).
Proof.
  intros (IU & IS & IR & IA) Hi. split_and!.
  - by apply (uses_inv_ext act s).
  - by apply (streams_inv_ext act s).
  - by apply (res_inv_ext s).
  - destruct IA as [A1 A2 A3 A4 A5 A6]. split; try done. intros h' [= <-]. split; [set_solver | done].
Qed.

(** The type of the profile that is found. *)
Lemma get_pcm_device_type l type devices n q :
  get_pcm_device l type devices = Some n -> l !! n = Some q -> pp_type q = type.
Proof.
  unfold get_pcm_device. destruct (_ =? 0); [done|]. intros E Hq.
  apply find_idx_Some in E as [(q' & Hq' & E) _]. assert (q' = q) as -> by congruence.
  apply andb_true_iff in E as [E _]. lia.
Qed.

(** What starting leads to: the stream has started and samples can be read, or
    it is as it was. *)
Definition start_in_post (act : gset nat) (s : state D) (h : nat) (r : Z) (s' : state D) : Prop :=
  exists started : bool, inv (if started then {[h]} ∪ act else act) s' /\ itl h s s' /\
    (r = 0 -> started = true) /\ (resamplers_ok -> started = true -> r = 0) /\
    (started = true -> exists i, st_ins s' !! h = Some i /\
       (si_usecase i <> USECASE_AUDIO_CAPTURE_HOTWORD ->
          (memory_ok -> can_read i) /\
          (forall i0, st_ins s !! h = Some i0 -> ready i0 -> plain i))).

(** The end of start_input_stream. *)
Lemma wp_started act' s s4 h p r (ret : Z) :
  recording act' s h p r s4 -> h ∈ act' ->
  (memory_ok -> forall i, st_ins s4 !! h = Some i -> si_usecase i <> USECASE_AUDIO_CAPTURE_HOTWORD ->
     is_Some (r_pcm r)) ->
  wp (set_in h reset_buffers;; mret ret)
    (fun r s' => r = ret /\ inv act' s' /\ itl h s s' /\
       exists i4, st_ins s4 !! h = Some i4 /\ st_ins s' !! h = Some (reset_buffers i4) /\
         (si_usecase i4 <> USECASE_AUDIO_CAPTURE_HOTWORD -> memory_ok -> can_read (reset_buffers i4))) s4.
Proof.
  intros (I4 & [C4 _] & (i4 & d4 & Hi4 & Ed & Ep & Hd & Er)) Hh Hm.
  apply wp_bind, (wp_set_in h _ i4); [done|]. apply wp_ret. split; [done|].
  split; [by apply (on_stream_inv act' s4 h reset_buffers)|].
  split; [apply (itl_trans h s s4); [done | by apply (itl_set_in s4 _ h i4 (reset_buffers i4))]|].
  exists i4. split; [done|]. split; [apply lookup_insert_eq|]. intros Hne M.
  destruct (Hm M i4 Hi4 Hne) as [n En]. rewrite <- Er in En. destruct Hd as (Hp & _).
  destruct (lookup_lt_is_Some_2 pcm_devices (pd_profile d4) Hp) as [q Hq].
  exists d4, n, q. pose proof (in_period act' s4 h i4 I4 Hi4).
  split_and!; try done. unfold buf_ok. cbn. split_and!; [lia | lia | lia | intros; lia].
Qed.

Lemma wp_not_started act s s4 h p :
  h ∉ act -> recording ({[h]} ∪ act) s h p no_resources s4 ->
  wp (set_in h (set_si_resampler false);;
      stop_input_stream h;;
      set_adev (set_ad_active_input None);;
      mret (- EIO)) (fun r s' => r = - EIO /\ inv act s' /\ itl h s s') s4.
Proof.
  intros Hh (I4 & [C4 _] & Hd4). pose proof (in_device_res _ _ _ _ _ I4 Hd4) as R4.
  destruct Hd4 as (i4 & d4 & Hi4 & _). set (act' := {[h]} ∪ act) in *.
  apply wp_bind, (wp_set_in h _ i4); [done|].
  set (g := set_si_resampler false). change (on_ins _ s4) with (on_stream h g i4 s4).
  assert (itl h s4 (on_stream h g i4 s4)) as C5 by (by apply (itl_set_in s4 _ h i4 (g i4))).
  apply wp_bind. eapply wp_mono; [apply (wp_stop_input act' _ h (g i4))|].
  - by apply on_stream_inv.
  - set_solver.
  - apply lookup_insert_eq.
  - rewrite <- R4. pose proof (proj1 (proj2 I4)) as IS4.
    rewrite (res_set_in act' s4 _ h i4 (g i4)) by done. rewrite decide_True by done.
    by rewrite (res_in act' s4 h i4).
  - intros _ s6 (I6 & C6 & _). unfold act' in I6. rewrite add_del in I6 by done. repeat wp_step.
    split; [done|]. split; [by apply inactive_inv|].
    apply (itl_trans h s s4); [done|]. by apply (itl_trans h s4 (on_stream h g i4 s4)).
Qed.

(** Only the profile for hotwords is of the type of hotwords. *)
Lemma capture_profile p :
  (p < 6)%nat -> (forall q, pcm_devices !! p = Some q -> pp_type q = PCM_CAPTURE) -> (p < 5)%nat.
Proof.
  intros Hp Ht. destruct (decide (p = 5%nat)) as [-> | Hne]; [|lia].
  specialize (Ht pcm_device_hotword_streaming eq_refl). discriminate Ht.
Qed.

Lemma wp_start_body act s0 s h i p :
  starting act h s -> itl h s0 s -> st_ins s0 !! h = Some i -> st_ins s !! h = Some i -> h ∉ act -> (p < 6)%nat ->
  (forall q, pcm_devices !! p = Some q -> pp_type q = si_usecase_type i) ->
  wp (new_capture h p;;
      select (si_usecase i);;
      ret ← in_configure h p;
      ok ← in_open h p;
      if ok : bool then set_in h reset_buffers;; mret ret
      else
        set_in h (set_si_resampler false);;
        stop_input_stream h;;
        set_adev (set_ad_active_input None);;
        mret (- EIO)) (start_in_post act s0 h) s.
Proof.
  intros I C0 Hi00 Hi Hh Hp Ht. set (act' := {[h]} ∪ act). assert (h ∈ act') as Hh' by set_solver.
  apply wp_bind. eapply wp_mono; [by apply (wp_new_capture act s h i p)|]. intros [] s1 [Hrec1 Ei1].
  apply wp_bind. eapply wp_mono; [by apply (wp_select act'), Hrec1|]. intros r2 s2 [I2 K2].
  rewrite <- (kp_ins _ _ K2) in Ei1.
  assert (recording act' s h p no_resources s2) as Hrec2.
  { destruct Hrec1 as (_ & C & (i1 & d & Hi1 & Hd)). split; [done|].
    split; [apply (ictl_trans h s s1); [done | by apply ictl_keep]|]. exists i1, d. by rewrite (kp_ins _ _ K2). }
  apply wp_bind. eapply wp_mono; [by apply (wp_in_configure act' s s2 h p)|].
  intros ret s3 (Hrec3 & Hret & i3 & Hi3 & Hplain).
  destruct (ctl_in s s3 h i (proj1 (proj1 (proj1 (proj2 Hrec3)))) Hi) as (i3' & E3 & Ec).
  assert (i3' = i3) as -> by congruence. injection Ec as _ _ Eu Et.
  apply wp_bind. eapply wp_mono; [apply (wp_in_open act' s s3 h p); try done|].
  { intros i' q Hi' Hq. assert (i' = i3) as -> by congruence. rewrite Et.
    destruct (profile_exists act' s3 p (proj2 (proj2 (proj2 (proj1 Hrec3)))) Hp) as (q1 & q2 & Hq1 & Hq2 & L).
    assert (q2 = q) as -> by congruence. destruct L as (_ & -> & _). by apply Ht. }
  intros ok s4 (r & Hrec4 & Hok1 & Hok2 & Hok3). destruct ok.
  - eapply wp_mono; [apply (wp_started act' s s4 h p r ret Hrec4 Hh'); by apply Hok2|].
    intros r' s' (E & I' & C' & i4 & Hi4 & Hi' & Hc'). subst r'. exists true.
    split; [done|]. split; [by apply (itl_trans h s0 s)|]. split; [done|]. split; [auto|].
    intros _. exists (reset_buffers i4). split; [done|]. intros Hne. split; [by apply Hc'|].
    intros i0 Hi0 Hready. destruct (Hok3 i3 Hi3) as [d4 E4]. assert (i4 = set_si_pcm_devs (Some [d4]) i3) as -> by congruence.
    assert (i0 = i) as -> by congruence. cbn in Hne.
    destruct Hrec4 as (_ & _ & (i5 & d5 & Hi5 & Ed5 & Ep5 & _)).
    intros d Ed. assert (d = d5) as -> by (cbn in Ed; rewrite Hi5 in Hi4; injection Hi4 as ->; cbn in Ed5; congruence).
    rewrite Ep5. apply Hplain; [done|]. apply capture_profile; [done|]. intros q Hq. rewrite (Ht q Hq).
    destruct (i_ins _ _ (proj1 (proj2 I)) h i Hi) as (_ & _ & _ & [[_ E] | [E _]] & _); [done | congruence].
  - rewrite (Hok1 eq_refl) in Hrec4. eapply wp_mono; [by apply (wp_not_started act s s4 h p)|].
    intros r' s' (E & I' & C'). subst r'. exists false.
    split; [done|]. split; [by apply (itl_trans h s0 s) | done].
Qed.

Lemma wp_start_input act s h i :
  inv act s -> st_ins s !! h = Some i -> h ∉ act ->
  wp (start_input_stream h) (start_in_post act s h) s.
Proof.
  intros I Hi Hh. unfold start_input_stream. apply wp_bind, (wp_the_in h i); [done|].
  apply wp_bind, wp_set_adev. set (s1 := on_adev _ s). do 2 wp_step.
  assert (starting act h s1) as I1 by (apply starting_active; [done | by exists i]).
  assert (get_pcm_device (st_profiles s1) (si_usecase_type i) (si_devices i) =
          get_pcm_device pcm_devices (si_usecase_type i) (si_devices i)) as ->
    by apply (get_pcm_device_like act s), I.
  destruct (get_pcm_device _ _ _) as [p|] eqn:Ep.
  - pose proof (get_pcm_device_lt _ _ _ Ep) as Hp. apply wp_bind.
    apply wp_mono with (P := fun _ s2 => starting act h s2 /\ itl h s s2 /\ st_ins s2 = st_ins s).
    { apply wp_when; intros _; [apply wp_modify; split_and!; [by apply starting_fast | done..] | done]. }
    intros _ s2 (I2 & C2 & E2). apply wp_start_body; try done; [by rewrite E2|].
    intros q Hq. by apply (get_pcm_device_type _ _ _ _ _ Ep Hq).
  - repeat wp_step. exists false. split; [by apply (inactive_inv act s)|]. split_and!; try done.
Qed.
End InRun.
