(* ===== verification/AudioSafe.v ===== *)
(** * AudioSafe: the calls of a client keep the invariant of the audio HAL

    [hal act s] is what holds between two calls: [inv act s], the streams in
    [act] are those that are not in standby, and samples can be read from the
    inputs among them. *)

From S2P Require Import Prelude CString Float32 AudioDefs AudioDevices AudioStreams AudioData AudioHw AudioBook AudioInv AudioSelect AudioFrame AudioOut AudioWrite AudioIn AudioInRun.

Open Scope Z_scope.

Section Safe.
Context {D : Type} `{AudioLib} `{AudioEnv} `{DspContextsOk D}.
Implicit Types (s : state D) (act : gset nat).

(** ** The invariant *)

Definition standby_ok (act : gset nat) (s : state D) : Prop :=
  (forall h o, st_outs s !! h = Some o -> so_standby o = false <-> h ∈ act) /\
  (forall h i, st_ins s !! h = Some i -> si_standby i = false <-> h ∈ act).

Definition input_ok (act : gset nat) (s : state D) : Prop :=
  forall h i, st_ins s !! h = Some i -> h ∈ act -> si_usecase i <> USECASE_AUDIO_CAPTURE_HOTWORD -> can_read i.

Definition hal (act : gset nat) (s : state D) : Prop := inv act s /\ standby_ok act s /\ input_ok act s.

Definition safe (s : state D) : Prop := exists act, hal act s.

Definition same_outs (s s' : state D) : Prop := so_ctl <$> st_outs s' = so_ctl <$> st_outs s.

Lemma same_out s s' h o :
  same_outs s s' -> st_outs s !! h = Some o -> exists o', st_outs s' !! h = Some o' /\ so_ctl o' = so_ctl o.
Proof.
  intros E Ho. apply (f_equal (fun m => m !! h)) in E. rewrite !lookup_fmap, Ho in E.
  destruct (st_outs s' !! h) as [o'|]; [|done]. exists o'. split; [done|]. exact (inj Some _ _ E).
Qed.

Lemma standby_outs act s s' :
  same_outs s s' -> (forall h o, st_outs s !! h = Some o -> so_standby o = false <-> h ∈ act) ->
  forall h o, st_outs s' !! h = Some o -> so_standby o = false <-> h ∈ act.
Proof.
  intros E Hs h o Ho. destruct (same_out s' s h o (eq_sym E) Ho) as (o' & Ho' & Ec).
  rewrite <- (Hs h o' Ho'). injection Ec as -> _ _. done.
Qed.

Lemma hal_octl act s s' : hal act s -> inv act s' -> octl s s' -> hal act s'.
Proof.
  intros (_ & [S1 S2] & Hi) I' (C1 & C2 & _). split; [done|]. split; [split|].
  - by apply (standby_outs act s s').
  - by rewrite C2.
  - unfold input_ok. by rewrite C2.
Qed.

Lemma hal_keep act s s' : hal act s -> inv act s' -> keep s s' -> hal act s'.
Proof. intros Hs I' K. apply (hal_octl act s s' Hs I'). by apply octl_keep. Qed.

(** The active streams with one that starts, or that goes to standby. *)
Definition with_flag (b : bool) (h : nat) (act : gset nat) : gset nat :=
  if b then act ∖ {[h]} else {[h]} ∪ act.

Lemma with_flag_other b h h' act : h' <> h -> h' ∈ with_flag b h act <-> h' ∈ act.
Proof. intros Hne. unfold with_flag. destruct b; set_solver. Qed.

Lemma with_flag_self b h act : h ∈ with_flag b h act <-> b = false.
Proof. unfold with_flag. destruct b; set_solver. Qed.

Lemma hal_flag_out act s h o b s' :
  hal act s -> st_outs s !! h = Some o -> octl (out_flag h b o s) s' -> inv (with_flag b h act) s' ->
  hal (with_flag b h act) s'.
Proof.
  intros (I & [S1 S2] & Hi) Ho (C1 & C2 & _) I'. pose proof (i_disj _ _ (proj1 (proj2 I)) h) as Hdis.
  assert (forall h' i, st_ins s !! h' = Some i -> h' <> h) as Hne.
  { intros h' i Hh' ->. rewrite Hdis in Hh'; [done | by exists o]. }
  split; [done|]. split; [split|].
  - apply (standby_outs _ (out_flag h b o s) s' C1). intros h' o'. cbn.
    rewrite lookup_insert_Some. intros [[<- <-] | [Hn Ho']]; [by rewrite with_flag_self|].
    rewrite with_flag_other by congruence. by apply S1.
  - rewrite C2. intros h' i Hi'. rewrite with_flag_other by (by apply (Hne h' i)). by apply S2.
  - intros h' i. rewrite C2. intros Hi' Hh'. apply (Hi h' i Hi').
    by rewrite with_flag_other in Hh' by (by apply (Hne h' i)).
Qed.

(** ** Standby *)

Lemma out_active act s h o : hal act s -> st_outs s !! h = Some o -> so_standby o = false -> h ∈ act.
Proof. intros (_ & [S1 _] & _) Ho E. by apply (S1 h o). Qed.

Lemma out_idle act s h o : hal act s -> st_outs s !! h = Some o -> so_standby o = true -> h ∉ act.
Proof. intros (_ & [S1 _] & _) Ho E Hh. apply (S1 h o Ho) in Hh. congruence. Qed.

Lemma in_active act s h i : hal act s -> st_ins s !! h = Some i -> si_standby i = false -> h ∈ act.
Proof. intros (_ & [_ S2] & _) Hi E. by apply (S2 h i). Qed.

Lemma in_idle act s h i : hal act s -> st_ins s !! h = Some i -> si_standby i = true -> h ∉ act.
Proof. intros (_ & [_ S2] & _) Hi E Hh. apply (S2 h i Hi) in Hh. congruence. Qed.

Lemma del_idle h (act : gset nat) : h ∉ act -> act ∖ {[h]} = act.
Proof. set_solver. Qed.

Lemma hal_do_out_standby act s h o :
  hal act s -> st_outs s !! h = Some o -> so_standby o = false ->
  wp (do_out_standby_l h)
    (fun _ s' => hal (act ∖ {[h]}) s' /\ octl (out_flag h true o s) s') s.
Proof.
  intros Hs Ho E. pose proof (out_active act s h o Hs Ho E) as Hh.
  eapply wp_mono; [apply (wp_do_out_standby act s h o); [apply Hs | done | done]|].
  intros _ s' [I' C']. split; [|done]. by apply (hal_flag_out act s h o true s').
Qed.

(** An output goes to standby: it has no use case, and holds nothing. *)
Lemma hal_out_standby act s h o :
  hal act s -> st_outs s !! h = Some o ->
  wp (out_standby h)
    (fun r s' => r = 0 /\ hal (act ∖ {[h]}) s' /\
       pointers (st_adev s') = pointers (st_adev s) /\
       is_Some (st_outs s' !! h)) s.
Proof.
  intros Hs Ho. unfold out_standby. apply wp_bind, (wp_the_out h o); [done|].
  apply wp_bind. apply wp_when; intros E.
  - apply negb_true_iff in E. apply wp_bind. eapply wp_mono; [by apply (hal_do_out_standby act s h o)|].
    intros _ s' [Hs' C]. repeat apply wp_ret. split; [done|]. split; [done|]. split; [apply C|].
    destruct (same_out (out_flag h true o s) s' h (set_so_standby true o)) as (o' & Ho' & _);
      [apply C | apply lookup_insert_eq | by exists o'].
  - apply negb_false_iff in E. apply wp_ret. split; [done|].
    rewrite del_idle by (by apply (out_idle act s h o)). split; [done|]. split; [done | by exists o].
Qed.

(** ** Inputs *)

(** One input changes: what is the same of the others. *)
Lemma hal_input act act' s s' h :
  hal act s -> inv act' s' -> same_outs s s' -> is_Some (st_ins s !! h) -> agrees_off h act act' ->
  (forall h', h' <> h -> st_ins s' !! h' = st_ins s !! h') ->
  (forall i, st_ins s' !! h = Some i -> (si_standby i = false <-> h ∈ act') /\
     (h ∈ act' -> si_usecase i <> USECASE_AUDIO_CAPTURE_HOTWORD -> can_read i)) -> hal act' s'.
Proof.
  intros (I & [S1 S2] & Hr) I' C Hh Ha Eo Hi. split; [done|]. split; [split|].
  - intros h' o' Ho'. rewrite (standby_outs act s s' C S1 h' o' Ho').
    destruct (same_out s' s h' o' (eq_sym C) Ho') as (o & Ho & _). symmetry. apply Ha. intros ->.
    rewrite (i_disj _ _ (proj1 (proj2 I)) h) in Hh; [by destruct Hh | by exists o].
  - intros h' i' Hi'. destruct (decide (h' = h)) as [-> | Hne]; [by apply Hi|].
    rewrite Eo in Hi' by done. rewrite (S2 h' i' Hi'). symmetry. by apply Ha.
  - intros h' i' Hi' Hh'. destruct (decide (h' = h)) as [-> | Hne]; [by apply Hi|].
    rewrite Eo in Hi' by done. apply (Hr h' i' Hi'). by apply Ha.
Qed.

(** An input goes to standby. *)
Lemma hal_do_in_standby act s h i :
  hal act s -> st_ins s !! h = Some i ->
  wp (do_in_standby_l h)
    (fun r s' => hal (act ∖ {[h]}) s' /\ same_outs s s' /\ is_Some (st_ins s' !! h)) s.
Proof.
  intros Hs Hi. destruct (si_standby i) eqn:E.
  - unfold do_in_standby_l. apply wp_bind, (wp_the_in h i); [done|]. rewrite E.
    cbn [negb when]. repeat wp_step. by rewrite del_idle by (by apply (in_idle act s h i)).
  - pose proof (in_active act s h i Hs Hi E) as Hh.
    eapply wp_mono; [apply (wp_do_in_standby act s h i); [apply Hs | done | done | done]|].
    intros _ s' (I' & [[C1 C2] C3] & _). split; [|split; [exact C1|]].
    2: { apply (f_equal (fun m => m !! h)) in C2. rewrite !lookup_fmap in C2. cbn in C2.
         rewrite lookup_insert_eq in C2. destruct (st_ins s' !! h) as [x|]; [by exists x | done]. }
    apply (hal_input act (act ∖ {[h]}) s s' h); try done; [apply agrees_del | |].
    + intros h' Hne. rewrite C3 by done. by apply lookup_insert_ne.
    + intros i' Hi'. apply (f_equal (fun m => m !! h)) in C2. rewrite !lookup_fmap, Hi' in C2. cbn in C2.
      rewrite lookup_insert_eq in C2. injection C2 as Esb _ _ _. rewrite Esb.
      assert (h ∉ act ∖ {[h]}) as Hn by set_solver. split; [by split | done].
Qed.

Lemma hal_in_standby act s h i :
  hal act s -> st_ins s !! h = Some i ->
  wp (in_standby h) (fun r s' => hal (act ∖ {[h]}) s' /\ same_outs s s' /\ is_Some (st_ins s' !! h)) s.
Proof.
  intros Hs Hi. unfold in_standby, in_standby_l. apply wp_bind, (wp_the_in h i); [done|].
  apply wp_if; intros E; [by apply (hal_do_in_standby act s h i)|].
  apply wp_ret. apply negb_false_iff in E. by rewrite del_idle by (by apply (in_idle act s h i)).
Qed.

(** Changes of a stream that neither its flag nor its buffer is part of. *)
Definition neutral (f : stream_in -> stream_in) : Prop :=
  forall i, si_standby (f i) = si_standby i /\ si_read_buf_frames (f i) = si_read_buf_frames i /\
    si_read_buf_size (f i) = si_read_buf_size i /\ si_read_buf (f i) = si_read_buf i /\
    si_read_status (f i) = si_read_status i.

Lemma hal_on_stream act s h f i :
  hal act s -> st_ins s !! h = Some i -> harmless f -> neutral f -> hal act (on_stream h f i s).
Proof.
  intros Hs Hi Hf Hn. destruct (Hf i) as (E1 & E2 & E3 & E4), (Hn i) as (N1 & N2 & N3 & N4 & N5).
  pose proof Hs as (I & [_ S2] & Hr).
  apply (hal_input act act s _ h); try done; [by apply on_stream_inv | |].
  - intros h' Hne. by apply lookup_insert_ne.
  - intros i' Hi'. cbn in Hi'. rewrite lookup_insert_eq in Hi'. injection Hi' as <-.
    rewrite N1, E2. split; [by apply S2|]. intros Hh Hu.
    destruct (Hr h i Hi Hh Hu) as (d & n & q & Hd & Hp & Hq & B). exists d, n, q.
    unfold buf_ok in *. by rewrite E1, E4, N2, N3, N4, N5.
Qed.

(** *** The input whose microphone depends on the output *)

Lemma wp_input_to_reset act s (Q : option nat -> state D -> Prop) :
  hal act s ->
  (forall r, (forall h, r = Some h -> ad_active_input (st_adev s) = Some h) -> Q r s) ->
  wp input_to_reset Q s.
Proof.
  intros (I & _) HQ. unfold input_to_reset. do 2 wp_step.
  destruct (ad_active_input (st_adev s)) as [h|] eqn:E; [|by apply wp_ret, HQ].
  destruct (i_active _ _ (proj2 (proj2 (proj2 I))) h E) as [_ [i Hi]].
  apply wp_bind, (wp_the_in h i); [done|]. apply wp_ret, HQ.
  intros h' Eh. destruct (_ || _); congruence.
Qed.

Lemma hal_reset_input act s r :
  hal act s -> (forall h, r = Some h -> ad_active_input (st_adev s) = Some h) ->
  wp (reset_input r) (fun _ s' => safe s') s.
Proof.
  intros Hs Hr. unfold reset_input. destruct r as [h|]; [|apply wp_ret; by exists act].
  do 2 wp_step. rewrite decide_True by (by apply Hr).
  destruct (i_active _ _ (proj2 (proj2 (proj2 (proj1 Hs)))) h (Hr h eq_refl)) as [_ [i Hi]].
  apply wp_bind. eapply wp_mono; [by apply (hal_do_in_standby act s h i)|].
  intros _ s' [Hs' _]. apply wp_ret. by exists (act ∖ {[h]}).
Qed.

Context (res_ok : resamplers_ok) (mem_ok : memory_ok).

(** An input leaves standby, or stays there with an error. *)
Lemma hal_leave_in_standby act s h i :
  hal act s -> st_ins s !! h = Some i -> si_standby i = true ->
  wp (ret ← start_input_stream h;
      when (ret =? 0) (set_in h (set_si_standby false));; mret ret)
    (fun r s' => hal (if r =? 0 then {[h]} ∪ act else act) s' /\ is_Some (st_ins s' !! h) /\
       (r = 0 -> forall i', st_ins s' !! h = Some i' -> si_usecase i' = si_usecase i /\
          si_main_channels i' = si_main_channels i /\
          (si_usecase i' <> USECASE_AUDIO_CAPTURE_HOTWORD -> ready i -> plain i'))) s.
Proof.
  intros Hs Hi E. pose proof (in_idle act s h i Hs Hi E) as Hh. pose proof Hs as (I & [_ S2] & _).
  apply wp_bind. eapply wp_mono; [by apply (wp_start_input act s h i)|].
  intros r s1 (started & I1 & [C1 O1] & Hst & Hst2 & Hread).
  destruct (ctl_in s s1 h i C1 Hi) as (i1 & Hi1 & Ec). injection Ec as Esb Em Eu _.
  assert (same_outs s s1) as Co by apply C1.
  apply wp_bind. apply wp_when; intros Er.
  - apply Z.eqb_eq in Er. specialize (Hst Er). subst started r.
    apply (wp_set_in h _ i1); [done|]. apply wp_ret. cbn [Z.eqb].
    destruct (Hread eq_refl) as (i2 & Hi2 & Hc). assert (i2 = i1) as -> by congruence.
    change (on_ins _ s1) with (on_stream h (in_flag false) i1 s1).
    split; [|split; [exists (in_flag false i1); apply lookup_insert_eq|]].
    + apply (hal_input act _ s _ h); try done; [by apply on_stream_inv | apply agrees_add | |].
      * intros h' Hne. cbn. rewrite lookup_insert_ne by done. by apply O1.
      * intros i' Hi'. cbn in Hi'. rewrite lookup_insert_eq in Hi'. injection Hi' as <-.
        cbn. split; [split; [set_solver | done]|]. intros _ Hn. exact (proj1 (Hc Hn) mem_ok).
    + intros _ i'. cbn. rewrite lookup_insert_eq. intros [= <-]. split; [done|].
      split; [done|]. intros Hn Hr. exact (proj2 (Hc Hn) i Hi Hr).
  - assert (started = false) as ->.
    { destruct started; [|done]. rewrite (Hst2 res_ok eq_refl) in Er. done. }
    apply wp_ret. rewrite Er. split; [|split; [by exists i1 | by intros ->]].
    apply (hal_input act _ s s1 h); try done.
    intros i' Hi'. assert (i' = i1) as -> by congruence. rewrite Esb, E. split; [|by intros Hh'].
    split; [done | by intros Hh'].
Qed.
End Safe.

(** ** The entry points of output streams *)

Section Calls.
Context {D : Type} `{AudioLib} `{AudioEnv} `{DspContextsOk D}.
Context (resample_from_input : list Z -> Z -> Z -> list Z * Z).
Implicit Types (s : state D) (act : gset nat).

Notation usecases s := (ad_usecases (st_adev s)).

(** ** Writing *)

(** Leaving standby: with an error the stream has an empty list of devices. *)
Lemma hal_out_leave act s h o :
  hal act s -> st_outs s !! h = Some o ->
  wp (out_leave_standby h)
    (fun r s' => exists act', hal act' s' /\
       (forall hi, snd r = Some hi -> ad_active_input (st_adev s') = Some hi) /\
       exists o', st_outs s' !! h = Some o' /\
         if fst r =? 0 then h ∈ act' else so_pcm_devs o' = Some []) s.
Proof.
  intros Hs Ho. unfold out_leave_standby. apply wp_bind, (wp_the_out h o); [done|].
  destruct (so_standby o) eqn:E.
  - pose proof (out_idle act s h o Hs Ho E) as Hh. apply wp_bind.
    eapply wp_mono; [apply (wp_start_output act s h o); [apply Hs | done | done]|].
    intros r s1 (I1 & C1 & Hd). destruct (Z.eqb_spec r 0) as [-> | Hne]; cbn [negb].
    + destruct (ctl_out s s1 h o (octl_ctl _ _ C1) Ho) as (o1 & Ho1 & _).
      apply wp_bind, (wp_set_out h _ o1); [done|]. change (on_outs _ s1) with (out_flag h false o1 s1).
      set (s2 := out_flag h false o1 s1).
      assert (hal ({[h]} ∪ act) s2) as Hs2.
      { apply (hal_flag_out act s h o false s2); [done | done | | by apply out_flag_inv].
        destruct C1 as (E1 & E2 & E3). split_and!; [|done|done].
        destruct (ctl_out s s1 h o (octl_ctl _ _ (conj E1 (conj E2 E3))) Ho) as (o2 & Ho2 & Ec).
        assert (o2 = o1) as -> by congruence. cbn. rewrite !fmap_insert, E1. f_equal.
        injection Ec as _ Ed Eu. unfold so_ctl. cbn. by rewrite Ed, Eu. }
      apply wp_bind, (wp_input_to_reset ({[h]} ∪ act)); [done|]. intros r Hr. apply wp_ret.
      exists ({[h]} ∪ act). split; [done|]. split; [exact Hr|].
      exists (set_so_standby false o1). split; [apply lookup_insert_eq | set_solver].
    + apply wp_ret. exists act. split; [by apply (hal_octl act s)|]. split; [done|].
      destruct (Hd Hne) as (o' & Ho' & Ed). exists o'. cbn. by apply Z.eqb_neq in Hne as ->.
  - apply wp_ret. exists act. split; [done|]. split; [done|]. exists o. split; [done|].
    by apply (out_active act s h o).
Qed.

Lemma wp_in_frames bytes size (Q : Z -> state D -> Prop) s :
  size <> 0 -> Q (bytes / size) s -> wp (in_frames bytes size) Q s.
Proof. intros Hs HQ. unfold in_frames. rewrite (proj2 (Z.eqb_neq _ _) Hs). by apply wp_ret. Qed.

Lemma hal_out_write act s h o buffer bytes :
  hal act s -> st_outs s !! h = Some o -> audio_stream_out_frame_size o <> 0 ->
  wp (out_write resample_from_input h buffer bytes) (fun r s' => r = bytes /\ safe s') s.
Proof.
  intros Hs Ho Hsize. unfold out_write. apply wp_bind, (wp_the_out h o); [done|].
  apply wp_bind, wp_in_frames; [done|]. apply wp_bind. eapply wp_mono; [by apply (hal_out_leave act s h o)|].
  intros [ret input] s1 (act1 & Hs1 & Hin & o1 & Ho1 & Hd1). cbn in Hd1, Hin. apply wp_bind.
  apply wp_mono with (P := fun r s2 => hal act1 s2 /\ ad_active_input (st_adev s2) = ad_active_input (st_adev s1) /\
    exists o2, st_outs s2 !! h = Some o2 /\ is_Some (so_pcm_devs o2)).
  { apply wp_if; intros E.
    - apply wp_ret. split; [done|]. split; [done|]. exists o1. split; [done|].
      apply negb_true_iff in E. rewrite E in Hd1. by rewrite Hd1.
    - apply negb_false_iff in E. rewrite E in Hd1.
      eapply wp_mono; [apply (wp_out_write_data resample_from_input act1 s1 h o1); [apply Hs1 | done | done]|].
      intros r s2 [I2 C2]. split; [by apply (hal_octl act1 s1)|]. split; [by apply octl_active|].
      destruct (ctl_out s1 s2 h o1 (octl_ctl _ _ C2) Ho1) as (o2 & Ho2 & _). exists o2. split; [done|].
      destruct (i_outs _ _ (proj1 (proj2 I2)) h o2 Ho2) as (O1 & _). destruct (O1 Hd1) as [d ->]. by exists [d]. }
  intros r s2 (Hs2 & Ea & o2 & Ho2 & [l El]). apply wp_bind.
  apply wp_mono with (P := fun _ s3 => safe s3 /\ ad_active_input (st_adev s3) = ad_active_input (st_adev s2)).
  { apply wp_when; intros _; [|split; [by exists act1 | done]].
    apply wp_bind, (wp_the_out h o2); [done|]. rewrite El. apply wp_bind, wp_lift.
    apply wp_bind. eapply wp_mono; [by apply (hal_out_standby act1 s2 h o2)|].
    intros _ s3 (_ & Hs3 & [= Ea3 _] & _). apply wp_ret. split; [by exists (act1 ∖ {[h]}) | done]. }
  intros _ s3 ([act3 Hs3] & Ea3). apply wp_bind.
  eapply wp_mono; [apply (hal_reset_input act3); [done|]; intros hi Hhi; rewrite Ea3, Ea; auto|].
  intros [] s4 Hs4. by apply wp_ret.
Qed.

(** ** Parameters of an output *)

(** The output can be routed to devices. *)
Definition routable (val : Z) : Prop := is_Some (get_pcm_device pcm_devices PCM_PLAYBACK (u32 val)).

Lemma hal_set_devices act s h o devices :
  hal act s -> st_outs s !! h = Some o -> is_Some (get_pcm_device pcm_devices PCM_PLAYBACK devices) ->
  hal act (on_outs (insert h (set_so_devices devices o)) s).
Proof.
  intros (I & [S1 S2] & Hi) Ho Hp. set (o' := set_so_devices devices o). split; [|split; [split|]]; try done.
  - destruct (i_outs _ _ (proj1 (proj2 I)) h o Ho) as (O1 & O2 & O3 & O4 & O5 & O6).
    apply (inv_set_out act s _ h o o'); try done.
    apply (res_inv_ext s); try done; [apply I|]. intros h'. rewrite (res_set_out s _ h o o') by done.
    destruct (decide _) as [-> | _]; [by rewrite (res_out _ _ _ Ho) | done].
  - intros h' x. cbn. rewrite lookup_insert_Some. intros [[<- <-] | [_ Hx]]; [by apply (S1 h o) | by apply S1].
Qed.

Lemma hal_out_route act s h o val :
  hal act s -> st_outs s !! h = Some o -> routable val ->
  wp (out_route h o val) (fun _ s' => safe s' /\ ad_active_input (st_adev s') = ad_active_input (st_adev s)) s.
Proof.
  intros Hs Ho Hv. unfold out_route. apply wp_bind, (wp_set_out h _ o); [done|].
  pose proof (hal_set_devices act s h o (u32 val) Hs Ho Hv) as Hs1. set (s1 := on_outs _ s) in *.
  assert (st_outs s1 !! h = Some (set_so_devices (u32 val) o)) as Ho1 by apply lookup_insert_eq.
  apply wp_bind.
  apply wp_mono with (P := fun _ s2 => safe s2 /\ ad_active_input (st_adev s2) = ad_active_input (st_adev s1)).
  { apply wp_when; intros E; [|split; [by exists act | done]]. apply negb_true_iff in E.
    apply wp_if; intros _; apply wp_bind.
    - eapply wp_mono; [by apply (hal_do_out_standby act s1 h (set_so_devices (u32 val) o))|].
      intros _ s2 [Hs2 C2]. apply wp_ret. split; [by exists (act ∖ {[h]}) | by apply octl_active in C2].
    - eapply wp_mono; [apply (wp_select act), Hs1|]. intros r s2 [I2 K2]. apply wp_ret.
      split; [exists act; by apply (hal_keep act s1) | apply K2]. }
  intros _ s2 [[act2 Hs2] Ea]. do 2 wp_step.
  pose proof (i_mode _ _ (proj2 (proj2 (proj2 (proj1 Hs2))))) as Hm. apply Z.eqb_neq in Hm as ->.
  apply wp_ret. split; [by exists act2 | done].
Qed.

Lemma hal_out_set_parameters act s h o parms :
  hal act s -> st_outs s !! h = Some o ->
  (forall v, snd (str_parms_get_str parms AUDIO_PARAMETER_STREAM_ROUTING) = Some v ->
     atoi v = 0 \/ routable (atoi v)) ->
  wp (out_set_parameters h parms) (fun _ s' => safe s') s.
Proof.
  intros Hs Ho Hv. unfold out_set_parameters.
  destruct (str_parms_get_str _ _) as [ret value]. cbn in Hv.
  destruct value as [v|]; [|apply wp_ret; by exists act]. specialize (Hv v eq_refl).
  apply wp_bind, (wp_the_out h o); [done|]. apply wp_bind.
  apply wp_mono with (P := fun r s' => s' = s /\ forall hi, r = Some hi -> ad_active_input (st_adev s) = Some hi).
  { unfold routing_input. apply wp_if; intros _; [|by apply wp_ret]. by apply (wp_input_to_reset act). }
  intros r s' [-> Hr]. apply wp_bind.
  apply wp_mono with (P := fun _ s2 => safe s2 /\ ad_active_input (st_adev s2) = ad_active_input (st_adev s)).
  { apply wp_when; intros E; [|split; [by exists act | done]].
    apply (hal_out_route act); try done. destruct Hv as [Hv|]; [|done]. by rewrite Hv in E. }
  intros _ s2 [[act2 Hs2] Ea]. do 2 wp_step. apply wp_bind.
  rewrite (i_in_call _ _ (proj2 (proj2 (proj2 (proj1 Hs2))))), andb_false_r. cbn [andb when]. apply wp_ret.
  apply wp_bind. eapply wp_mono; [apply (hal_reset_input act2); [done|]; intros hi Hhi; rewrite Ea; auto|].
  intros [] s4 Hs4. by apply wp_ret.
Qed.
End Calls.
