(* ===== verification/AudioClient.v ===== *)
(** * AudioClient: opening and closing streams, inputs and the device *)

From S2P Require Import Prelude CString Float32 AudioDefs AudioDevices AudioStreams AudioData AudioHw AudioBook AudioInv AudioSelect AudioFrame AudioOut AudioIn AudioInRun AudioSafe.

Open Scope Z_scope.

Section Client.
Context {D : Type} `{AudioLib} `{AudioEnv} `{DspContextsOk D}.
Implicit Types (s : state D) (act : gset nat).

Notation usecases s := (ad_usecases (st_adev s)).

(** ** Streams that are in standby come and go *)

Lemma act_stream act s h : inv act s -> h ∈ act -> is_Some (st_outs s !! h) \/ is_Some (st_ins s !! h).
Proof.
  intros (IU & _) Hh. destruct (i_act _ _ IU h Hh) as (u & Hu & E). pose proof (i_uc _ _ IU u Hu) as Ou.
  unfold uc_ok, uc_handle in *. destruct (uc_stream u); subst h; destruct Ou as (x & ? & _);
    [left | right]; by exists x.
Qed.

Lemma next_idle act s h : inv act s -> (st_next s <= h)%nat ->
  h ∉ act /\ st_outs s !! h = None /\ st_ins s !! h = None.
Proof.
  intros I Hh. pose proof (proj1 (proj2 I)) as IS.
  assert (st_outs s !! h = None) as Eo.
  { destruct (st_outs s !! h) eqn:E; [|done]. pose proof (i_hout _ _ IS h ltac:(by rewrite E)). lia. }
  assert (st_ins s !! h = None) as Ei.
  { destruct (st_ins s !! h) eqn:E; [|done]. pose proof (i_hin _ _ IS h ltac:(by rewrite E)). lia. }
  split; [|done]. intros Ha. destruct (act_stream act s h I Ha) as [[x E]|[x E]]; congruence.
Qed.

(** Use cases are of streams that are the same. *)
Lemma uses_inv_streams act s s' :
  uses_inv act s -> usecases s' = usecases s -> ad_ref_cnt (st_adev s') = ad_ref_cnt (st_adev s) ->
  st_nodes s' = st_nodes s -> (st_next s <= st_next s')%nat -> st_kernel s' = st_kernel s ->
  (forall h, h ∈ act -> st_outs s' !! h = st_outs s !! h /\ st_ins s' !! h = st_ins s !! h) ->
  uses_inv act s'.
Proof.
  intros I E1 E2 E3 E4 E5 Hst.
  assert (forall u, u ∈ usecases s -> uc_ok s' u) as Hok.
  { intros u Hu. pose proof (i_uc _ _ I u Hu) as Ou. destruct (Hst _ (i_listed _ _ I u Hu)) as [Eo Ei].
    unfold uc_ok, uc_handle in *. destruct (uc_stream u); [by rewrite Eo | by rewrite Ei]. }
  split; rewrite ?E1; try apply I; try done.
  - intros u Hu. pose proof (i_next _ _ I u Hu). lia.
  - intros u Hu. unfold wired. rewrite E3. by apply (i_wired _ _ I).
  - destruct (i_book _ _ I) as [B1 B2 B3 B4].
    split; unfold pending; rewrite ?E2, ?E5; done.
  - unfold settled, live, pending. rewrite E5. apply I.
Qed.

(** The resources of a stream in standby. *)
Lemma idle_resources act s h : inv act s -> h ∉ act -> res s h = no_resources.
Proof.
  intros (_ & IS & _) Hh. unfold res. destruct (st_outs s !! h) as [o|] eqn:Ho.
  - destruct (i_outs _ _ IS h o Ho) as (_ & O & _). by destruct (O Hh) as [-> | ->].
  - destruct (st_ins s !! h) as [i|] eqn:Hi; [|done]. cbn.
    destruct (i_ins _ _ IS h i Hi) as (_ & O & _). by destruct (O Hh) as [-> | ->].
Qed.

(** Nothing but a stream that is in standby, before and after. *)
Lemma hal_streams act s s' h :
  hal act s -> h ∉ act -> (st_next s <= st_next s')%nat ->
  (forall p, ad_primary (st_adev s') = Some p -> is_Some (st_outs s' !! p)) ->
  (exists p, st_adev s' = set_ad_primary p (st_adev s)) ->
  st_nodes s' = st_nodes s -> st_kernel s' = st_kernel s -> st_dsp s' = st_dsp s ->
  st_profiles s' = st_profiles s -> streams_inv act s' -> res s' h = no_resources ->
  (forall h', h' <> h -> st_outs s' !! h' = st_outs s !! h' /\ st_ins s' !! h' = st_ins s !! h') ->
  (forall o, st_outs s' !! h = Some o -> so_standby o = true) ->
  (forall i, st_ins s' !! h = Some i -> si_standby i = true) -> hal act s'.
Proof.
  intros (I & [S1 S2] & Hr) Hh Hn Hp [p Ea] E1 E2 E3 E4 IS' Er Ho So Si. pose proof I as (IU & IS & IR & IA).
  assert (forall h', h' ∈ act -> h' <> h) as Hne by (intros h' Hh' ->; done).
  split; [|split; [split|]].
  - split_and!; [|done| |].
    + apply (uses_inv_streams act s s'); try done; rewrite ?Ea; try done. intros h' Hh'. exact (Ho h' (Hne h' Hh')).
    + apply (res_inv_ext s); try done; rewrite ?E2; try done. intros h'.
      destruct (decide (h' = h)) as [-> | Hn']; [by rewrite Er, (idle_resources act s h)|].
      unfold res. destruct (Ho h' Hn') as [-> ->]. done.
    + destruct IA as [A1 A2 A3 A4 A5 A6]. split; rewrite ?Ea, ?E4; try done; cbn.
      * intros h' Hh'. destruct (A4 h' Hh') as [Ha1 Ha2]. split; [done|].
        by destruct (Ho h' (Hne h' Ha1)) as [_ ->].
      * intros h' Hh'. apply Hp. by rewrite Ea.
  - intros h' o Hx. destruct (decide (h' = h)) as [-> | Hn'].
    + rewrite (So o Hx). split; [done | by intros Hh'].
    + destruct (Ho h' Hn') as [Eo _]. rewrite Eo in Hx. by apply S1.
  - intros h' i Hx. destruct (decide (h' = h)) as [-> | Hn'].
    + rewrite (Si i Hx). split; [done | by intros Hh'].
    + destruct (Ho h' Hn') as [_ Ei]. rewrite Ei in Hx. by apply S2.
  - intros h' i Hx Hh'. destruct (Ho h' (Hne h' Hh')) as [_ Ei]. rewrite Ei in Hx. exact (Hr h' i Hx Hh').
Qed.

Lemma streams_add_out act s s' h o :
  streams_inv act s -> st_outs s !! h = None -> st_ins s !! h = None -> (h < st_next s')%nat ->
  (st_next s <= st_next s')%nat -> out_ok act h o ->
  (forall h' o', st_outs s !! h' = Some o' -> so_usecase o' <> so_usecase o) ->
  st_outs s' = <[h := o]> (st_outs s) -> st_ins s' = st_ins s -> streams_inv act s'.
Proof.
  intros I Ho Hi Hn Hx Hok Hu Eo Ei. split; rewrite ?Eo, ?Ei.
  - intros h' o'. rewrite lookup_insert_Some. intros [[<- <-] | [_ E]]; [done | by apply (i_outs _ _ I)].
  - apply I.
  - intros h'. rewrite lookup_insert_is_Some'. intros [<- | Hh']; [done | by apply (i_disj _ _ I)].
  - intros h'. rewrite lookup_insert_is_Some'. intros [<- | Hh']; [done|]. pose proof (i_hout _ _ I h' Hh'). lia.
  - intros h' Hh'. pose proof (i_hin _ _ I h' Hh'). lia.
  - intros h1 h2 o1 o2. rewrite !lookup_insert_Some.
    intros [[<- <-] | [_ E1]] [[<- <-] | [_ E2]] E; try done.
    + by destruct (Hu h2 o2).
    + by destruct (Hu h1 o1).
    + by apply (i_one_out _ _ I h1 h2 o1 o2).
  - apply I.
Qed.

Lemma streams_add_in act s s' h i :
  streams_inv act s -> st_outs s !! h = None -> (h < st_next s')%nat ->
  (st_next s <= st_next s')%nat -> in_ok act h i ->
  (forall h' i', st_ins s !! h' = Some i' -> si_usecase i' <> si_usecase i) ->
  st_ins s' = <[h := i]> (st_ins s) -> st_outs s' = st_outs s -> streams_inv act s'.
Proof.
  intros I Ho Hn Hx Hok Hu Ei Eo. split; rewrite ?Eo, ?Ei.
  - apply I.
  - intros h' i'. rewrite lookup_insert_Some. intros [[<- <-] | [_ E]]; [done | by apply (i_ins _ _ I)].
  - intros h' Hh'. apply lookup_insert_None. split; [by apply (i_disj _ _ I)|].
    intros <-. rewrite Ho in Hh'. by destruct Hh'.
  - intros h' Hh'. pose proof (i_hout _ _ I h' Hh'). lia.
  - intros h'. rewrite lookup_insert_is_Some'. intros [<- | Hh']; [done|]. pose proof (i_hin _ _ I h' Hh'). lia.
  - apply I.
  - intros h1 h2 i1 i2. rewrite !lookup_insert_Some.
    intros [[<- <-] | [_ E1]] [[<- <-] | [_ E2]] E; try done.
    + by destruct (Hu h2 i2).
    + by destruct (Hu h1 i1).
    + by apply (i_one_in _ _ I h1 h2 i1 i2).
Qed.

Lemma streams_sub act s s' :
  streams_inv act s -> (st_next s <= st_next s')%nat ->
  (forall h o, st_outs s' !! h = Some o -> st_outs s !! h = Some o) ->
  (forall h i, st_ins s' !! h = Some i -> st_ins s !! h = Some i) -> streams_inv act s'.
Proof.
  intros I Hx Ho Hi.
  assert (forall h, is_Some (st_outs s' !! h) -> is_Some (st_outs s !! h)) as Ho2
    by (intros h [o E]; exists o; by apply Ho).
  split.
  - intros h o Hh. by apply (i_outs _ _ I), Ho.
  - intros h i Hh. by apply (i_ins _ _ I), Hi.
  - intros h Hh. apply Ho2, (i_disj _ _ I) in Hh. destruct (st_ins s' !! h) eqn:E; [|done].
    apply Hi in E. congruence.
  - intros h Hh. pose proof (i_hout _ _ I h (Ho2 h Hh)). lia.
  - intros h [i Hh]. pose proof (i_hin _ _ I h ltac:(by rewrite (Hi h i Hh))). lia.
  - intros h1 h2 o1 o2 E1 E2. apply (i_one_out _ _ I h1 h2 o1 o2); by apply Ho.
  - intros h1 h2 i1 i2 E1 E2. apply (i_one_in _ _ I h1 h2 i1 i2); by apply Hi.
Qed.

(** ** Opening and closing outputs *)

(** The use case of an output that is opened. *)
Definition output_usecase (flags : Z) : Z :=
  if has flags AUDIO_OUTPUT_FLAG_DEEP_BUFFER then USECASE_AUDIO_PLAYBACK_DEEP_BUFFER else USECASE_AUDIO_PLAYBACK.

Lemma output_usecase_cases flags :
  output_usecase flags = USECASE_AUDIO_PLAYBACK_DEEP_BUFFER \/ output_usecase flags = USECASE_AUDIO_PLAYBACK.
Proof. unfold output_usecase. destruct (has _ _); auto. Qed.

Definition fresh_output (s : state D) (flags : Z) : Prop :=
  forall h o, st_outs s !! h = Some o -> so_usecase o <> output_usecase flags.

Lemma hal_delete_out act s s' h :
  hal act s -> h ∉ act -> st_ins s !! h = None -> ad_primary (st_adev s) <> Some h ->
  st_adev s' = st_adev s -> st_outs s' = delete h (st_outs s) -> st_ins s' = st_ins s ->
  (st_next s <= st_next s')%nat -> st_nodes s' = st_nodes s -> st_kernel s' = st_kernel s ->
  st_dsp s' = st_dsp s -> st_profiles s' = st_profiles s -> hal act s'.
Proof.
  intros Hs Hh Hi Hp Ea Eo Ei Hn E1 E2 E3 E4. pose proof Hs as ((_ & IS & _ & IA) & _).
  apply (hal_streams act s s' h); try done.
  - intros p. rewrite Ea, Eo. intros Ep. rewrite lookup_delete_ne by congruence. by apply IA.
  - exists (ad_primary (st_adev s)). rewrite Ea. by destruct (st_adev s).
  - apply (streams_sub act s s' IS Hn); [|by rewrite Ei].
    intros h' o. rewrite Eo, lookup_delete_Some. naive_solver.
  - unfold res. by rewrite Eo, Ei, lookup_delete_eq, Hi.
  - intros h' Hne. by rewrite Eo, Ei, lookup_delete_ne by congruence.
  - intros o. by rewrite Eo, lookup_delete_eq.
  - intros i. by rewrite Ei, Hi.
Qed.

(** The stream of adev_open_output_stream. *)
Lemma new_stream_ok act h flags devices config q p :
  h ∉ act -> get_pcm_device pcm_devices PCM_PLAYBACK devices = Some p -> pcm_devices !! p = Some q ->
  forall q', profile_like q' q -> out_ok act h (new_stream_out flags devices config (pp_config q')).
Proof.
  intros Hh Hp Hq q' (_ & _ & _ & _ & Er & _). pose proof (get_pcm_device_playback _ _ Hp) as Hlt.
  pose proof (profiles_rate p q Hq Hlt) as E. unfold new_stream_out. split_and!; try done; cbn.
  - by left.
  - destruct (has _ _); [by right | by left].
  - destruct (has _ _); [done | congruence].
Qed.

Lemma hal_open_output act s devices flags config :
  hal act s -> fresh_output s flags ->
  wp (adev_open_output_stream devices flags config) (fun _ s' => hal act s') s.
Proof.
  intros Hs Hf. pose proof Hs as (I & _). pose proof I as (IU & IS & _ & IA).
  destruct (next_idle act s (st_next s) I (le_n _)) as (Hh & Ho & Hi). set (h := st_next s) in *.
  assert (ad_primary (st_adev s) <> Some h) as Hp.
  { intros E. destruct (i_primary _ _ IA h E). congruence. }
  unfold adev_open_output_stream. apply wp_bind, wp_fresh. fold h.
  set (dev := if devices =? AUDIO_DEVICE_NONE then AUDIO_DEVICE_OUT_SPEAKER else devices). cbn zeta beta.
  set (s1 := State _ _ _ _ _ _ _ _). do 2 wp_step.
  assert (get_pcm_device (st_profiles s1) PCM_PLAYBACK dev = get_pcm_device pcm_devices PCM_PLAYBACK dev) as ->
    by (by apply (get_pcm_device_like act s)).
  destruct (get_pcm_device _ _ _) as [p|] eqn:Ep; cbn [mbind option_bind].
  2: { unfold open_error. repeat wp_step. apply (hal_delete_out act s _ h); try done. cbn. lia. }
  destruct (profile_exists act s p IA (get_pcm_device_lt _ _ _ Ep)) as (q & q' & Hq & Hq' & L).
  change (st_profiles s1) with (st_profiles s). rewrite Hq'.
  set (out := new_stream_out flags dev config (pp_config q')). repeat wp_step.
  assert (forall s2, st_adev s2 = st_adev s -> st_outs s2 = delete h (<[h := out]> (st_outs s)) ->
    st_ins s2 = st_ins s -> (st_next s <= st_next s2)%nat -> st_nodes s2 = st_nodes s ->
    st_kernel s2 = st_kernel s -> st_dsp s2 = st_dsp s -> st_profiles s2 = st_profiles s -> hal act s2) as Herr.
  { intros s2 E1 E2 E3 E4 E5 E6 E7 E8. apply (hal_delete_out act s s2 h); try done. by rewrite E2, delete_insert_eq. }
  apply wp_if; intros E; [unfold open_error; repeat wp_step; apply Herr; try done; cbn; lia|].
  apply wp_bind. apply wp_mono with (P := fun _ s2 => exists pr, s2 = on_adev (set_ad_primary pr) (on_outs (insert h out) s1) /\
    (pr = ad_primary (st_adev s) \/ pr = Some h)).
  { apply wp_when; intros _; [wp_step; exists (Some h); auto|]. exists (ad_primary (st_adev s)).
    split; [by destruct s as [[] ? ? ? ? ? ? ?] | by left]. }
  intros _ s2 (pr & -> & Hpr).
  assert (get_usecase_from_id (st_adev s) (so_usecase out) = None) as Enone.
  { destruct (get_usecase_from_id _ _) as [u|] eqn:Eu; [|done]. exfalso.
    apply usecase_of_id in Eu as [Hu Eid]. pose proof (i_uc _ _ IU u Hu) as Ou. unfold uc_ok in Ou.
    assert (so_usecase out = output_usecase flags) as Eout by done.
    destruct (uc_stream u) as [h'|h']; destruct Ou as (x & Hx & Ex & _).
    - apply (Hf h' x Hx). congruence.
    - destruct (i_ins _ _ IS h' x Hx) as (_ & _ & _ & T & _). rewrite Eout in Eid.
      pose proof (output_usecase_cases flags) as T2.
      unfold USECASE_AUDIO_CAPTURE, USECASE_AUDIO_CAPTURE_HOTWORD, USECASE_AUDIO_PLAYBACK,
        USECASE_AUDIO_PLAYBACK_DEEP_BUFFER in *. lia. }
  change (st_adev (on_outs (insert h out) s1)) with (st_adev s). rewrite Enone.
  apply wp_ret. set (s3 := on_adev _ _).
  apply (hal_streams act s s3 h); try done; [cbn; lia | | by exists pr | | | | |].
  - intros p' Ep'. cbn in Ep' |- *. rewrite lookup_insert_is_Some'. destruct Hpr as [-> | ->].
    + right. by apply (i_primary _ _ IA).
    + left. congruence.
  - apply (streams_add_out act s s3 h out); try done; try (cbn; lia).
    by apply (new_stream_ok act h flags dev config q p).
  - unfold res, s3. cbn. by rewrite lookup_insert_eq.
  - intros h' Hne. cbn. by rewrite lookup_insert_ne.
  - intros o. cbn. rewrite lookup_insert_eq. by intros [= <-].
  - intros i. cbn. by rewrite Hi.
Qed.

Lemma hal_close_output act s h o :
  hal act s -> st_outs s !! h = Some o -> ad_primary (st_adev s) <> Some h ->
  wp (adev_close_output_stream h) (fun _ s' => safe s') s.
Proof.
  intros Hs Ho Hp. unfold adev_close_output_stream. apply wp_bind.
  eapply wp_mono; [by apply (hal_out_standby act s h o)|]. intros _ s1 (_ & Hs1 & [= _ Ep] & Ho1).
  apply wp_modify. exists (act ∖ {[h]}).
  apply (hal_delete_out (act ∖ {[h]}) s1 _ h); try done; [set_solver | | congruence].
  by apply (i_disj _ _ (proj1 (proj2 (proj1 Hs1)))).
Qed.

(** ** Inputs *)

Definition input_usecase (source : Z) : Z :=
  if source =? AUDIO_SOURCE_HOTWORD then USECASE_AUDIO_CAPTURE_HOTWORD else USECASE_AUDIO_CAPTURE.

Definition fresh_input (s : state D) (source : Z) : Prop :=
  forall h i, st_ins s !! h = Some i -> si_usecase i <> input_usecase source.

Lemma hal_open_input act s devices config flags source :
  hal act s -> fresh_input s source ->
  wp (adev_open_input_stream devices config flags source) (fun _ s' => hal act s') s.
Proof.
  intros Hs Hf. pose proof Hs as (I & _). pose proof I as (IU & IS & _ & IA).
  unfold adev_open_input_stream. apply wp_if; intros _; [by apply wp_ret|]. do 2 wp_step.
  rewrite (get_pcm_device_like act) by done. destruct (get_pcm_device _ _ _) as [p|] eqn:Ep; [|by apply wp_ret].
  destruct (profile_exists act s p IA (get_pcm_device_lt _ _ _ Ep)) as (q & q' & Hq & Hq' & L).
  cbn [mbind option_bind]. rewrite Hq'. repeat wp_step.
  destruct (next_idle act s (st_next s) I (le_n _)) as (Hh & Ho & Hi). set (h := st_next s) in *.
  set (i := new_stream_in devices source flags config (pp_config q')). set (s2 := on_ins _ _).
  apply (hal_streams act s s2 h); try done; [cbn; lia | | | | | | |].
  - intros p' Ep'. by apply (i_primary _ _ IA).
  - exists (ad_primary (st_adev s)). by destruct s as [[] ? ? ? ? ? ? ?].
  - apply (streams_add_in act s s2 h i); try done; try (cbn; lia).
    unfold i, new_stream_in. split_and!; try done; cbn; [by left | | exact (like_period _ _ L)].
    destruct (_ =? _); [by right | by left].
  - unfold res, s2. cbn. by rewrite Ho, lookup_insert_eq.
  - intros h' Hne. cbn. by rewrite lookup_insert_ne.
  - intros o. cbn. by rewrite Ho.
  - intros i'. cbn. rewrite lookup_insert_eq. by intros [= <-].
Qed.

Lemma hal_close_input act s h i :
  hal act s -> st_ins s !! h = Some i -> wp (adev_close_input_stream h) (fun _ s' => safe s') s.
Proof.
  intros Hs Hi. unfold adev_close_input_stream. apply wp_bind.
  eapply wp_mono; [apply (hal_in_standby act s h i Hs Hi)|]. intros r s1 (Hs1 & Eo & _).
  apply wp_modify. exists (act ∖ {[h]}).
  pose proof Hs as ((_ & IS & _) & _). pose proof Hs1 as ((_ & IS1 & _ & IA1) & _).
  assert (st_outs s1 !! h = None) as Ho.
  { destruct (st_outs s1 !! h) as [o|] eqn:E; [|done]. destruct (same_out s1 s h o (eq_sym Eo) E) as (o' & Ho' & _).
    rewrite (i_disj _ _ IS h) in Hi; [done | by exists o']. }
  set (s2 := on_ins _ s1).
  apply (hal_streams (act ∖ {[h]}) s1 s2 h); try done; [set_solver | | | | | | |].
  - intros p Ep. by apply (i_primary _ _ IA1).
  - exists (ad_primary (st_adev s1)). by destruct s1 as [[] ? ? ? ? ? ? ?].
  - apply (streams_sub (act ∖ {[h]}) s1 s2 IS1); try done.
    intros h' i'. cbn. rewrite lookup_delete_Some. naive_solver.
  - unfold res, s2. cbn. by rewrite Ho, lookup_delete_eq.
  - intros h' Hne. cbn. by rewrite lookup_delete_ne.
  - intros o. cbn. by rewrite Ho.
  - intros i'. cbn. by rewrite lookup_delete_eq.
Qed.

(** A routing of an input that records. *)
Lemma hal_in_route act s h i val :
  hal act s -> st_ins s !! h = Some i -> si_standby i = false ->
  wp (in_route h val) (fun _ s' => safe s') s.
Proof.
  intros Hs Hi E. pose proof (in_active act s h i Hs Hi E) as Hh. pose proof Hs as (I & _).
  destruct (in_usecase act s h i I Hh Hi) as (u & _ & _ & Ef & _).
  destruct (i_ins _ _ (proj1 (proj2 I)) h i Hi) as (O1 & _ & O3 & _). destruct (O1 Hh) as [d Ed].
  destruct (profile_exists act s (pd_profile d) (proj2 (proj2 (proj2 I))) (proj1 (O3 d Ed))) as (q & q' & _ & Hq & _).
  unfold in_route. apply wp_bind, (wp_the_in h i); [done|]. do 2 wp_step. apply wp_bind.
  rewrite Ef, Ed. apply wp_bind, wp_lift. apply wp_bind, (wp_the_profile _ q'); [done|]. apply wp_ret. apply wp_if; intros _.
  - eapply wp_mono; [by apply (hal_do_in_standby act s h i)|]. intros r s' [Hs' _]. by exists (act ∖ {[h]}).
  - eapply wp_mono; [by apply (wp_select act)|]. intros r s' [I' K']. exists act. by apply (hal_keep act s).
Qed.

Lemma hal_in_set_parameters act s h i parms :
  hal act s -> st_ins s !! h = Some i ->
  wp (in_set_parameters h parms) (fun _ s' => safe s') s.
Proof.
  intros Hs Hi. unfold in_set_parameters. apply wp_bind, (wp_the_in h i); [done|]. apply wp_bind.
  apply wp_mono with (P := fun _ s1 => hal act s1 /\ exists i1, st_ins s1 !! h = Some i1 /\ si_standby i1 = si_standby i).
  { assert (hal act s /\ exists i1, st_ins s !! h = Some i1 /\ si_standby i1 = si_standby i) as Hsame
      by (split; [done | by exists i]).
    destruct (snd (str_parms_get_str parms AUDIO_PARAMETER_STREAM_INPUT_SOURCE)) as [v|]; [|by apply wp_ret].
    apply wp_when; intros _; [|done]. apply (wp_set_in h _ i); [done|].
    split; [by apply (hal_on_stream act s h (set_si_source (u32 (atoi v))))|].
    exists (set_si_source (u32 (atoi v)) i). split; [apply lookup_insert_eq | done]. }
  intros _ s1 (Hs1 & i1 & Hi1 & Esb).
  destruct (str_parms_get_str parms AUDIO_PARAMETER_STREAM_ROUTING) as [ret value]. apply wp_bind.
  apply wp_mono with (P := fun _ s' => safe s'); [|intros r s' Hs'; by apply wp_ret].
  assert (safe s1) as Hsafe by (by exists act).
  destruct value as [v|]; [|by apply wp_ret]. apply wp_if; intros _; [|by apply wp_ret].
  apply wp_bind, (wp_set_in h _ i1); [done|]. set (g := set_si_devices (u32 (atoi v))).
  change (on_ins _ s1) with (on_stream h g i1 s1).
  assert (hal act (on_stream h g i1 s1)) as Hs2 by (by apply hal_on_stream).
  apply wp_if; intros E; [|apply wp_ret; by exists act]. apply negb_true_iff in E.
  apply (hal_in_route act _ h (g i1)); [done | apply lookup_insert_eq | cbn; congruence].
Qed.

(** ** Effects *)

(** The streams are the same. *)
Definition quiet (act : gset nat) (s s' : state D) : Prop :=
  hal act s' /\ st_outs s' = st_outs s /\ st_ins s' = st_ins s.

Lemma quiet_refl act s : hal act s -> quiet act s s.
Proof. done. Qed.

Lemma quiet_trans act s1 s2 s3 : quiet act s1 s2 -> quiet act s2 s3 -> quiet act s1 s3.
Proof. intros (_ & E1 & E2) (Hs & E3 & E4). split_and!; [done | congruence | congruence]. Qed.

(** Nothing but what the invariant does not speak of. *)
Lemma hal_ext act s s' :
  hal act s -> st_outs s' = st_outs s -> st_ins s' = st_ins s -> st_next s' = st_next s ->
  st_nodes s' = st_nodes s -> st_dsp s' = st_dsp s -> st_profiles s' = st_profiles s ->
  usecases s' = usecases s -> ad_ref_cnt (st_adev s') = ad_ref_cnt (st_adev s) ->
  ad_mixers (st_adev s') = ad_mixers (st_adev s) -> ad_mode (st_adev s') <> AUDIO_MODE_IN_CALL ->
  ad_in_call (st_adev s') = ad_in_call (st_adev s) -> pointers (st_adev s') = pointers (st_adev s) ->
  k_pcms (st_kernel s') = k_pcms (st_kernel s) -> k_next_pcm (st_kernel s') = k_next_pcm (st_kernel s) ->
  k_streaming (st_kernel s') = k_streaming (st_kernel s) -> book (uses (usecases s)) s' -> settled s' ->
  hal act s'.
Proof.
  intros (I & [S1 S2] & Hr) E1 E2 E3 E4 E5 E6 E7 E8 E9 E10 E11 [= E12 E13] E14 E15 E16 B St.
  pose proof I as (IU & IS & IR & IA).
  assert (forall u, uc_ok s u -> uc_ok s' u) as Hok by (intros u; unfold uc_ok; by rewrite E1, E2).
  split; [|split; [split; by rewrite ?E1, ?E2 | unfold input_ok; by rewrite E2]]. split_and!.
  - destruct IU as [U1 U2 U3 U4 U5 U6 U7 U8 U9]. split; rewrite ?E7, ?E3; try done; [by auto|].
    unfold wired. by rewrite E4.
  - by apply (streams_inv_ext act s).
  - apply (res_inv_ext s); try done. intros h. unfold res. by rewrite E1, E2.
  - destruct IA as [A1 A2 A3 A4 A5 A6]. split; rewrite ?E9, ?E11, ?E12, ?E13, ?E1, ?E2, ?E6; done.
Qed.

Lemma hal_book act s : hal act s -> book (uses (usecases s)) s /\ settled s.
Proof. intros ((IU & _) & _). split; apply IU. Qed.

Lemma hal_calls act s : hal act s -> quiet act s (on_kernel (on_calls S) s).
Proof.
  intros Hs. split_and!; try done. destruct (hal_book act s Hs) as [[B1 B2 B3 B4] St].
  apply (hal_ext act s); try done. apply Hs.
Qed.

Lemma wp_quiet_ask {A B} act s0 s (answer : nat -> A) (m : A -> M D B) :
  quiet act s0 s -> (forall a s', quiet act s0 s' -> wp (m a) (fun _ => quiet act s0) s') ->
  wp (a ← ask answer; m a) (fun _ => quiet act s0) s.
Proof.
  intros Q Hm. do 2 wp_step. apply Hm. apply (quiet_trans act s0 s); [done|]. apply hal_calls, Q.
Qed.

Lemma wp_configure_effect act s0 s effect aux :
  quiet act s0 s -> wp (in_configure_effect_channels effect aux) (fun _ => quiet act s0) s.
Proof.
  intros Q. unfold in_configure_effect_channels. apply (wp_quiet_ask act s0 s); [done|].
  intros [r1 c1] s1 Q1. apply wp_if; intros _; [by apply wp_ret|].
  apply (wp_quiet_ask act s0 s1); [done|]. intros [r2 c2] s2 Q2.
  apply wp_if; intros _; [by apply wp_ret|].
  apply (wp_quiet_ask act s0 s2); [done|]. intros [r3 c3] s3 Q3. by apply wp_ret.
Qed.

Lemma wp_reconfigure_all act s0 effects aux : forall s status,
  quiet act s0 s -> wp (reconfigure_all effects aux status) (fun _ => quiet act s0) s.
Proof.
  induction effects as [|e effects IH]; intros s status Q; cbn [reconfigure_all]; [by apply wp_ret|].
  apply wp_bind. eapply wp_mono; [by apply (wp_configure_effect act s0)|]. intros r s' Q'. by apply IH.
Qed.

Lemma wp_reconfigure act s0 s h i effect aux changed :
  quiet act s0 s -> st_ins s !! h = Some i ->
  wp (in_reconfigure_channels h effect aux changed) (fun _ => quiet act s0) s.
Proof.
  intros Q Hi. unfold in_reconfigure_channels. apply wp_bind, (wp_the_in h i); [done|].
  apply wp_if; intros _; [by apply wp_reconfigure_all|]. destruct effect as [e|]; [|by apply wp_ret].
  apply wp_if; intros _; [by apply wp_configure_effect | by apply wp_ret].
Qed.

(** What is kept of the stream: that it is there. *)
Lemma hal_update_aux act s h i effect :
  hal act s -> st_ins s !! h = Some i ->
  wp (in_update_aux_channels h effect) (fun _ s' => safe s' /\ is_Some (st_ins s' !! h)) s.
Proof.
  intros Hs Hi. unfold in_update_aux_channels. apply wp_bind, (wp_the_in h i); [done|]. cbn zeta.
  set (aux := in_get_aux_channels i). apply wp_bind.
  eapply wp_mono; [apply (wp_reconfigure act s s h i); [by apply quiet_refl | done]|].
  intros status s1 Q1. apply wp_bind.
  apply wp_mono with (P := fun _ s2 => quiet act s s2).
  { apply wp_if; intros _; [|by apply wp_ret]. apply wp_bind.
    eapply wp_mono; [apply (wp_reconfigure act s s1 h i); [done | by destruct Q1 as (_ & _ & ->)]|].
    intros r s2 Q2. by apply wp_ret. }
  intros aux' s2 (Hs2 & _ & E2). rewrite <- E2 in Hi. apply wp_when; intros _.
  - apply wp_bind, (wp_set_in h _ i); [done|].
    set (g := fun i => set_si_aux_changed true (set_si_aux_channels aux' i)).
    change (on_ins _ s2) with (on_stream h g i s2).
    assert (hal act (on_stream h g i s2)) as Hs3 by (by apply hal_on_stream).
    apply wp_bind. eapply wp_mono; [apply (hal_do_in_standby act _ h (g i)); [done | apply lookup_insert_eq]|].
    intros r s4 (Hs4 & _ & Hi4). apply wp_ret. split; [by exists (act ∖ {[h]}) | done].
  - split; [by exists act | by exists i].
Qed.

Lemma hal_effect act s h i effect enable :
  hal act s -> st_ins s !! h = Some i ->
  wp (add_remove_audio_effect h effect enable) (fun _ s' => safe s') s.
Proof.
  intros Hs Hi. unfold add_remove_audio_effect. do 2 wp_step.
  destruct (hal_calls act s Hs) as (Hs1 & _ & E1). set (s1 := on_kernel _ s) in *. rewrite <- E1 in Hi.
  assert (safe s1) as Hsafe by (by exists act).
  apply wp_if; intros _; [by apply wp_ret|]. apply wp_bind, (wp_the_in h i); [done|].
  assert (forall f r, harmless f -> neutral f -> wp (set_in h f;; mret r) (fun _ : Z => safe) s1) as Hset.
  { intros f r Hf Hn. apply wp_bind, (wp_set_in h _ i); [done|]. apply wp_ret. exists act.
    by apply (hal_on_stream act s1 h f i). }
  destruct enable.
  - apply wp_if; intros _; [by apply wp_ret|].
    apply wp_bind, (wp_set_in h _ i); [done|]. set (g := set_si_preprocessors (si_preprocessors i ++ [effect])).
    change (on_ins _ s1) with (on_stream h g i s1).
    assert (hal act (on_stream h g i s1)) as Hs2 by (by apply hal_on_stream).
    apply wp_bind. eapply wp_mono; [apply (hal_update_aux act _ h (g i)); [done | apply lookup_insert_eq]|].
    intros _ s3 [[act3 Hs3] [i3 Hi3]]. apply wp_bind, (wp_set_in h _ i3); [done|]. apply wp_ret.
    exists act3. by apply (hal_on_stream act3 s3 h (set_si_aux_changed true) i3).
  - destruct (si_preprocessors i) as [|e l]; [by apply wp_ret|].
    destruct (remove_effect _ _) as [l'|]; [|by apply wp_ret].
    by apply (Hset (fun i => set_si_aux_changed false (set_si_preprocessors l' i)) 0).
Qed.

(** ** The device *)

(** What of the device the streams depend on. *)
Definition core (a : audio_device) : list audio_usecase * list Z * list Z * bool * (option nat * option nat) :=
  (ad_usecases a, ad_ref_cnt a, ad_mixers a, ad_in_call a, pointers a).

Lemma hal_on_adev act s f :
  hal act s -> core (f (st_adev s)) = core (st_adev s) -> ad_mode (f (st_adev s)) <> AUDIO_MODE_IN_CALL ->
  hal act (on_adev f s).
Proof.
  intros Hs [= E1 E2 E3 E4 E5 E6] Hm. destruct (hal_book act s Hs) as [[B1 B2 B3 B4] St].
  apply (hal_ext act s); try done; [by unfold pointers; cbn; rewrite E5, E6|].
  split; cbn; rewrite ?E2; done.
Qed.

Lemma hal_mode act s : hal act s -> ad_mode (st_adev s) <> AUDIO_MODE_IN_CALL.
Proof. intros ((_ & _ & _ & IA) & _). apply IA. Qed.

Lemma hal_set_mode act s mode :
  hal act s -> mode <> AUDIO_MODE_IN_CALL -> wp (adev_set_mode mode) (fun r s' => r = 0 /\ hal act s') s.
Proof.
  intros Hs Hm. unfold adev_set_mode. do 2 wp_step. apply wp_bind, wp_when; intros _; repeat wp_step.
  - split; [done|]. by apply hal_on_adev.
  - done.
Qed.

Lemma hal_mic_mute act s b : hal act s -> wp (adev_set_mic_mute b) (fun r s' => r = 0 /\ hal act s') s.
Proof.
  intros Hs. unfold adev_set_mic_mute. repeat wp_step. split; [done|].
  apply hal_on_adev; [done | done | by apply (hal_mode act)].
Qed.

(** The paths of the rotation are of no device. *)
Lemma rotation_path (b : bool) d :
  get_snd_device_name d <> Some (if b then "speaker-lr-reverse" else "speaker-lr-normal")%string.
Proof.
  intros E. apply snd_device_name_Some in E as [_ E].
  apply list_elem_of_lookup_2, list_elem_of_In in E. revert E.
  destruct b; cbn; intuition discriminate.
Qed.

Lemma hal_rotation act s val : hal act s -> wp (adev_set_rotation val) (fun _ s' => hal act s') s.
Proof.
  intros Hs. unfold adev_set_rotation. do 2 wp_step. apply wp_when; intros _; [|done].
  apply wp_bind, wp_set_adev. set (b := val =? 180). set (s1 := on_adev _ s).
  assert (hal act s1) as Hs1 by (apply hal_on_adev; [done | done | by apply (hal_mode act)]).
  apply wp_bind. apply wp_mixer_for_card; [apply Hs1|].
  unfold audio_route_apply_path, audio_route_update_mixer. repeat wp_step.
  destruct (hal_book act s1 Hs1) as [[B1 B2 B3 B4] St].
  apply (hal_ext act s1); try done; [exact (hal_mode act s1 Hs1) | |].
  - split; try done. intros d name Ed. unfold pending. cbn. rewrite paths_insert, elem_of_union, elem_of_singleton.
    etransitivity; [|exact (B4 d name Ed)]. unfold pending. split; [|auto]. intros [-> | ?]; [|done].
    by apply rotation_path in Ed.
  - unfold settled, live, pending. cbn. by rewrite !paths_insert.
Qed.

Lemma hal_tty act s mode : hal act s -> wp (adev_set_tty_mode mode) (fun _ s' => hal act s') s.
Proof.
  intros Hs. unfold adev_set_tty_mode. do 2 wp_step. apply wp_when; intros _; [|done].
  apply wp_bind, wp_set_adev. rewrite (i_in_call _ _ (proj2 (proj2 (proj2 (proj1 Hs))))). cbn [when].
  apply wp_ret. apply hal_on_adev; [done | done | by apply (hal_mode act)].
Qed.

Lemma hal_other_parameters act s parms :
  hal act s -> wp (adev_set_other_parameters parms) (fun _ s' => hal act s') s.
Proof.
  intros Hs. unfold adev_set_other_parameters.
  apply wp_bind. apply wp_mono with (P := fun _ s1 => hal act s1).
  { destruct (snd _) as [v|]; [|by apply wp_ret]. apply wp_set_adev.
    apply hal_on_adev; [done | done | by apply (hal_mode act)]. }
  intros _ s1 Hs1. apply wp_bind. apply wp_mono with (P := fun _ s2 => hal act s2).
  { destruct (snd _) as [v|]; [|by apply wp_ret]. apply wp_set_adev.
    apply hal_on_adev; [done | done | by apply (hal_mode act)]. }
  intros _ s2 Hs2. destruct (str_parms_get_int parms "rotation") as [ret val]. apply wp_bind.
  apply wp_mono with (P := fun _ s3 => hal act s3); [|intros; by apply wp_ret].
  apply wp_when; intros _; [by apply hal_rotation | done].
Qed.

Lemma hal_set_parameters act s parms :
  hal act s -> wp (adev_set_parameters parms) (fun _ s' => hal act s') s.
Proof.
  intros Hs. unfold adev_set_parameters. destruct (snd _) as [v|]; [|by apply hal_other_parameters].
  destruct (tty_mode_of v) as [m|]; [|by apply wp_ret]. apply wp_bind.
  eapply wp_mono; [by apply (hal_tty act)|]. intros [] s' Hs'. by apply hal_other_parameters.
Qed.
End Client.
