(* ===== verification/AudioRead.v ===== *)
(** * AudioRead: an input stream without resampler reads what its PCM gives

    A PCM is read whole periods.  What read_frames gives, followed by what stays
    in the buffer, is what was in the buffer followed by the periods read. *)

From S2P Require Import Prelude CString AudioDefs AudioDevices AudioStreams AudioData AudioBook AudioIn.

Open Scope Z_scope.

Section Read.
Context {D : Type} `{AudioLib} `{AudioEnv} `{DspContexts D}.
Context (resample_from_provider : (Z -> M D (option (list Z * Z))) -> (Z -> M D unit) -> Z ->
                                  M D (list Z * Z)).
Implicit Types s : state D.

(** ** States in the course of a read *)

(** The stream with another buffer, and the state after some calls. *)
Definition rebuf (b : list Z) (z f st : Z) (i : stream_in) : stream_in :=
  set_si_read_buf b (set_si_read_buf_size z (set_si_read_buf_frames f (set_si_read_status st i))).
Definition reading (h : nat) (i : stream_in) (j : nat) (s : state D) : state D :=
  on_ins (insert h i) (on_kernel (on_calls (Nat.add j)) s).

Lemma rebuf_rebuf b z f st b' z' f' st' i : rebuf b z f st (rebuf b' z' f' st' i) = rebuf b z f st i.
Proof. by destruct i. Qed.

Lemma rebuf_same i :
  rebuf (si_read_buf i) (si_read_buf_size i) (si_read_buf_frames i) (si_read_status i) i = i.
Proof. by destruct i. Qed.

Lemma reading_same s h i : st_ins s !! h = Some i -> reading h i 0 s = s.
Proof.
  intros Hi. unfold reading, on_ins, on_kernel, on_calls. cbn. rewrite insert_id by done.
  by destruct s as [? ? ? ? ? ? [] ?].
Qed.

Lemma reading_reading s h i i' j j' : reading h i j (reading h i' j' s) = reading h i (j + j') s.
Proof.
  unfold reading, on_ins, on_kernel, on_calls. cbn. by rewrite insert_insert_eq, Nat.add_assoc.
Qed.

Lemma reading_stream s h i j : st_ins (reading h i j s) !! h = Some i.
Proof. apply lookup_insert_eq. Qed.

(** The PCM of the stream is open, with a number of channels. *)
Definition open_on (s : state D) (i : stream_in) (ch : Z) : Prop :=
  exists d l n p, si_pcm_devs i = Some (d :: l) /\ pd_pcm d = Some n /\ n ∈ k_pcms (st_kernel s) /\
    st_profiles s !! pd_profile d = Some p /\ pc_channels (pp_config p) = ch.

Lemma open_on_reading s i ch h i0 j b z f st :
  open_on s i ch -> open_on (reading h i0 j s) (rebuf b z f st i) ch.
Proof. done. Qed.

(** The answers of the PCM: the error, and the samples of a period. *)
Definition rc (k : nat) : Z := fst (pcm_read_answer k).
Definition period_of (size : Z) (k : nat) : list Z := grow size (snd (pcm_read_answer k)).
Definition periods (size : Z) (k j : nat) : list Z := flat_map (period_of size) (seq k j).

Lemma grow_length n l : 0 <= n -> Z.of_nat (length (grow n l)) = n.
Proof. intros Hn. unfold grow. rewrite length_app, length_replicate, length_take. lia. Qed.

(** The samples of the last period that were not asked for yet. *)
Definition pending_samples (ch : Z) (i : stream_in) : list Z :=
  take (Z.to_nat (si_read_buf_frames i * ch))
    (drop (Z.to_nat ((pc_period_size (si_config i) - si_read_buf_frames i) * ch)) (si_read_buf i)).

(** ** The buffer *)

Section Stream.
Context (h : nat) (ch : Z) (Hch : 0 < ch).

(** What makes a stream readable; [period] is the period of its PCM. *)
Record readable (s : state D) (i : stream_in) : Prop := {
  r_stream : st_ins s !! h = Some i;
  r_open : open_on s i ch;
  r_buf : buf_ok ch i;
  r_channels : pc_channels (si_config i) = ch;
  r_period : 0 < pc_period_size (si_config i);
  r_resampler : si_resampler i = false
}.

Lemma readable_rebuf s i j b z f st :
  readable s i -> buf_ok ch (rebuf b z f st i) ->
  readable (reading h (rebuf b z f st i) j s) (rebuf b z f st i).
Proof.
  intros [R1 R2 R3 R4 R5 R6] B. split; try done. apply reading_stream.
Qed.

(** The samples left of a buffer with some. *)
Lemma pending_length s i : readable s i -> Z.of_nat (length (pending_samples ch i)) = si_read_buf_frames i * ch.
Proof.
  intros [_ _ B _ P _]. destruct B as (B1 & B2 & B3). unfold pending_samples.
  rewrite length_take, length_drop. destruct (Z.eq_dec (si_read_buf_frames i) 0) as [E|E]; [rewrite E; lia|].
  assert (pc_period_size (si_config i) * ch <= Z.of_nat (length (si_read_buf i))) by (apply B3, B2; lia). nia.
Qed.

Lemma wp_pcm_channels s i d l (Q : Z -> state D -> Prop) :
  open_on s i ch -> si_pcm_devs i = Some (d :: l) -> Q ch s -> wp (pcm_channels d) Q s.
Proof.
  intros (d' & l' & n & p & Ed & En & Hn & Hp & Ec) Ed' HQ. assert (d' = d) as -> by congruence.
  unfold pcm_channels. rewrite En. apply wp_bind, wp_lift. apply wp_bind, wp_get. rewrite decide_True by done.
  apply wp_bind, (wp_the_profile _ p); [done|]. apply wp_ret. by rewrite Ec.
Qed.

Lemma slice_done from n (l : list Z) :
  0 <= from -> 0 <= n -> from + n <= Z.of_nat (length l) ->
  slice from n l = Done (take (Z.to_nat n) (drop (Z.to_nat from) l)).
Proof. intros. unfold slice. by replace (_ && _) with true by lia. Qed.

Lemma splice_front (xs l : list Z) :
  (length xs <= length l)%nat -> splice 0 xs l = Done (xs ++ drop (length xs) l).
Proof. intros. unfold splice. by replace (_ && _) with true by lia. Qed.

(** The end of get_next_buffer, with samples in the buffer. *)
Lemma take_pending s i n :
  readable s i -> 0 < si_read_buf_frames i -> 0 < n ->
  slice ((pc_period_size (si_config i) - si_read_buf_frames i) * pc_channels (si_config i))
    ((if si_read_buf_frames i <? n then si_read_buf_frames i else n) * ch) (si_read_buf i) =
  Done (take (Z.to_nat (Z.min (si_read_buf_frames i) n * ch)) (pending_samples ch i)).
Proof.
  intros [_ _ (B1 & B2 & B3) -> P _] Hf Hn.
  assert (pc_period_size (si_config i) * ch <= Z.of_nat (length (si_read_buf i))) by (apply B3, B2; lia).
  replace (if si_read_buf_frames i <? n then si_read_buf_frames i else n) with (Z.min (si_read_buf_frames i) n)
    by (destruct (Z.ltb_spec (si_read_buf_frames i) n); lia).
  rewrite slice_done by nia. f_equal. unfold pending_samples. rewrite take_take. f_equal. nia.
Qed.

(** The stream after a period was read. *)
Definition refilled (k : nat) (i : stream_in) : stream_in :=
  let period := pc_period_size (si_config i) in
  let size := period * ch in
  let b := if si_read_buf_size i <? period then grow size (si_read_buf i) else si_read_buf i in
  rebuf (period_of size k ++ drop (length (period_of size k)) b)
    (Z.max period (si_read_buf_size i)) period 0 i.

Definition unread (k : nat) (i : stream_in) : stream_in :=
  let period := pc_period_size (si_config i) in
  rebuf (if si_read_buf_size i <? period then grow (period * ch) (si_read_buf i) else si_read_buf i)
    (Z.max period (si_read_buf_size i)) (si_read_buf_frames i) (rc k) i.

(** The buffer is as large as a period. *)
Definition grown (i : stream_in) : stream_in :=
  let period := pc_period_size (si_config i) in
  set_si_read_buf_size (Z.max period (si_read_buf_size i))
    (set_si_read_buf (if si_read_buf_size i <? period then grow (period * ch) (si_read_buf i) else si_read_buf i) i).

Lemma wp_grown s i (Hi : st_ins s !! h = Some i) :
  let period := pc_period_size (si_config i) in
  wp (when (si_read_buf_size i <? period)
        (set_in h (fun i => set_si_read_buf_size period (set_si_read_buf (grow (period * ch) (si_read_buf i)) i))))
    (fun _ s' => s' = on_ins (insert h (grown i)) s) s.
Proof.
  intros period. unfold grown. fold period. apply wp_when; intros E; rewrite ?E.
  - apply (wp_set_in h _ i); [done|]. by rewrite Z.max_l by lia.
  - rewrite Z.max_r by lia. assert (set_si_read_buf_size (si_read_buf_size i) (set_si_read_buf (si_read_buf i) i) = i) as ->
      by (by destruct i). unfold on_ins. rewrite insert_id by done. by destruct s.
Qed.

Lemma grown_length s i :
  readable s i -> pc_period_size (si_config i) * ch <= Z.of_nat (length (si_read_buf (grown i))) /\
  pc_period_size (si_config i) <= si_read_buf_size (grown i).
Proof.
  intros [_ _ (B1 & B2 & B3) _ P _]. unfold grown. cbn.
  destruct (Z.ltb_spec (si_read_buf_size i) (pc_period_size (si_config i))); [rewrite grow_length by nia|]; lia.
Qed.

Lemma period_length k i :
  0 < pc_period_size (si_config i) ->
  Z.of_nat (length (period_of (pc_period_size (si_config i) * ch) k)) = pc_period_size (si_config i) * ch.
Proof. intros P. apply grow_length. nia. Qed.

Lemma readable_refilled s i k :
  readable s i -> readable (reading h (refilled k i) 1 s) (refilled k i).
Proof.
  intros R. apply readable_rebuf; [done|]. pose proof R as [_ _ _ _ P _].
  destruct (grown_length s i R) as [G1 G2]. pose proof (period_length k i P) as Hl.
  unfold buf_ok. cbn. split_and!; [lia | lia | split; [lia | done] |]. intros _.
  unfold grown in G1. cbn in G1. rewrite length_app, length_drop. lia.
Qed.

Lemma pending_refilled s i k :
  readable s i -> pending_samples ch (refilled k i) = period_of (pc_period_size (si_config i) * ch) k.
Proof.
  intros [_ _ _ _ P _]. unfold pending_samples. cbn. rewrite Z.sub_diag, Z.mul_0_l. change (Z.to_nat 0) with 0%nat. rewrite drop_0.
  rewrite take_app_le by (pose proof (period_length k i P); lia).
  apply take_ge. pose proof (period_length k i P). lia.
Qed.

Lemma wp_next_buffer s i n (Q : option (list Z * Z) -> state D -> Prop) :
  readable s i -> 0 < n ->
  let k := k_calls (st_kernel s) in
  let give i := Some (take (Z.to_nat (Z.min (si_read_buf_frames i) n * ch)) (pending_samples ch i),
                      Z.min (si_read_buf_frames i) n) in
  (0 < si_read_buf_frames i -> Q (give i) s) ->
  (si_read_buf_frames i = 0 -> rc k = 0 -> readable (reading h (refilled k i) 1 s) (refilled k i) ->
     Q (give (refilled k i)) (reading h (refilled k i) 1 s)) ->
  (si_read_buf_frames i = 0 -> rc k <> 0 -> Q None (reading h (unread k i) 1 s)) ->
  wp (get_next_buffer h n) Q s.
Proof.
  intros R Hn k give Hhas Hread Hfail. pose proof R as [R1 R2 (B1 & B2 & B3) R4 R5 R6].
  pose proof R2 as (d & l & _ & _ & Ed & _).
  unfold get_next_buffer. apply wp_bind, (wp_the_in h i); [done|]. rewrite Ed. apply wp_bind, wp_lift.
  assert (forall s i1, readable s i1 -> si_pcm_devs i1 = Some (d :: l) -> si_config i1 = si_config i ->
    0 < si_read_buf_frames i1 ->
    Q (give i1) s -> wp (i' ← the_in h;
      channels ← pcm_channels d;
      xs ← lift (slice ((pc_period_size (si_config i) - si_read_buf_frames i') * pc_channels (si_config i'))
                   ((if si_read_buf_frames i' <? n then si_read_buf_frames i' else n) * channels) (si_read_buf i'));
      mret (Some (xs, if si_read_buf_frames i' <? n then si_read_buf_frames i' else n))) Q s) as Hend.
  { intros s1 i1 Hr1 Ed1 <- Hf1 HQ. pose proof Hr1 as [S1 S2 _ _ _ _].
    apply wp_bind, (wp_the_in h i1); [done|]. apply wp_bind, (wp_pcm_channels s1 i1 d l); [done | done|].
    rewrite (take_pending s1 i1 n) by done. apply wp_bind, wp_lift, wp_ret. unfold give in HQ.
    by replace (if si_read_buf_frames i1 <? n then si_read_buf_frames i1 else n) with (Z.min (si_read_buf_frames i1) n)
      by (destruct (Z.ltb_spec (si_read_buf_frames i1) n); lia). }
  destruct (Z.eqb_spec (si_read_buf_frames i) 0) as [Ef|Hne].
  2: { apply wp_bind, wp_ret. apply (Hend s i); try done; [lia | apply Hhas; lia]. }
  specialize (Hread Ef). specialize (Hfail Ef). clear Hhas.
  apply wp_bind, wp_bind, (wp_pcm_channels s i d l); [done | done|].
  apply wp_bind. eapply wp_mono; [by apply (wp_grown s i)|]. intros [] s1 ->.
  apply wp_bind. unfold pcm_read. apply wp_bind. unfold ask. repeat wp_step.
  change (k_calls (st_kernel (on_ins (insert h (grown i)) s))) with k.
  destruct (pcm_read_answer k) as [r xs] eqn:Eans.
  assert (rc k = r) as Er by (unfold rc; by rewrite Eans).
  assert (period_of (pc_period_size (si_config i) * ch) k = grow (pc_period_size (si_config i) * ch) xs) as Exs
    by (unfold period_of; by rewrite Eans).
  destruct (Z.eqb_spec r 0) as [E0|Hne]; cbn [negb].
  - apply wp_ret. apply wp_bind. eapply wp_set_in; [apply lookup_insert_eq|]. cbn [negb Z.eqb].
    apply wp_bind. eapply wp_the_in; [apply lookup_insert_eq|].
    destruct (grown_length s i R) as [G1 G2].
    assert (length (grow (pc_period_size (si_config i) * ch) xs) <= length (si_read_buf (grown i)))%nat as Hlen.
    { pose proof (grow_length (pc_period_size (si_config i) * ch) xs ltac:(nia)). lia. }
    change (si_read_buf (set_si_read_status r (grown i))) with (si_read_buf (grown i)).
    rewrite splice_front by done. apply wp_bind, wp_lift.
    apply wp_bind. eapply wp_set_in; [apply lookup_insert_eq|]. apply wp_ret.
    match goal with |- wp _ _ ?x => assert (x = reading h (refilled k i) 1 s) as -> end.
    { unfold reading, refilled, on_ins, on_kernel, on_calls. cbn -[refilled].
      rewrite !insert_insert_eq. by rewrite Exs. }
    assert (readable (reading h (refilled k i) 1 s) (refilled k i)) as Hr by (by apply readable_refilled).
    apply (Hend _ (refilled k i)); [done | done | done | done|]. apply Hread; [congruence | done].
  - apply wp_ret. apply wp_bind. eapply wp_set_in; [apply lookup_insert_eq|]. apply Z.eqb_neq in Hne as E. rewrite E.
    cbn [negb]. apply wp_ret.
    match goal with |- wp _ _ ?x => assert (x = reading h (unread k i) 1 s) as -> end.
    { unfold reading, unread, on_ins, on_kernel, on_calls. cbn -[unread].
      rewrite !insert_insert_eq. change (fst (pcm_read_answer (k_calls (st_kernel s)))) with (rc k) in *.
      rewrite <- Er. by destruct i. }
    apply wp_ret. apply Hfail. congruence.
Qed.

(** ** One turn *)

Definition advanced (m : Z) (i : stream_in) : stream_in := set_si_read_buf_frames (si_read_buf_frames i - m) i.

Lemma advanced_rebuf m i :
  advanced m i = rebuf (si_read_buf i) (si_read_buf_size i) (si_read_buf_frames i - m) (si_read_status i) i.
Proof. by destruct i. Qed.

Lemma readable_advanced s i m j :
  readable s i -> 0 <= m <= si_read_buf_frames i -> readable (reading h (advanced m i) j s) (advanced m i).
Proof.
  intros R Hm. rewrite advanced_rebuf. apply readable_rebuf; [done|].
  destruct R as [_ _ (B1 & B2 & B3) _ P _]. unfold buf_ok. cbn.
  split_and!; [lia | lia | intros; apply B2; lia | done].
Qed.

Lemma pending_advanced s i m :
  readable s i -> 0 <= m <= si_read_buf_frames i ->
  pending_samples ch (advanced m i) = drop (Z.to_nat (m * ch)) (pending_samples ch i).
Proof.
  intros [_ _ (B1 & _) _ P _] Hm. unfold pending_samples, advanced. cbn.
  replace (Z.to_nat (si_read_buf_frames i * ch)) with
    (Z.to_nat (m * ch) + Z.to_nat ((si_read_buf_frames i - m) * ch))%nat by nia.
  rewrite <- take_drop_commute, drop_drop. do 2 f_equal. nia.
Qed.

(** The calls from [k] to [k + j] give no error. *)
Definition no_error (k j : nat) : Prop := forall x, (x < j)%nat -> rc (k + x) = 0.

(** The streams differ in their buffers only. *)
Definition rebuffed (i i' : stream_in) : Prop := exists b z f st, i' = rebuf b z f st i.

Lemma rebuffed_trans i1 i2 i3 : rebuffed i1 i2 -> rebuffed i2 i3 -> rebuffed i1 i3.
Proof.
  intros (b & z & f & st & ->) (b' & z' & f' & st' & ->). rewrite rebuf_rebuf. by repeat eexists.
Qed.

Lemma rebuffed_config i i' : rebuffed i i' -> si_config i' = si_config i.
Proof. by intros (b & z & f & st & ->). Qed.

(** [xs] were given, and [j] periods read. *)
Record gave (s : state D) (i : stream_in) (xs : list Z) (n : Z) (j : nat) (i' : stream_in) (s' : state D) : Prop := {
  g_state : s' = reading h i' j s;
  g_readable : readable s' i';
  g_rebuffed : rebuffed i i';
  g_no_error : no_error (k_calls (st_kernel s)) j;
  g_samples : xs ++ pending_samples ch i' =
    pending_samples ch i ++ periods (pc_period_size (si_config i) * ch) (k_calls (st_kernel s)) j;
  g_length : Z.of_nat (length xs) = n * ch
}.

Lemma gave_nothing s i : readable s i -> gave s i [] 0 0 i s.
Proof.
  intros R. split; try done.
  - by rewrite reading_same by apply R.
  - exists (si_read_buf i), (si_read_buf_size i), (si_read_buf_frames i), (si_read_status i). by rewrite rebuf_same.
  - intros x Hx. lia.
  - unfold periods. cbn. by rewrite app_nil_r.
Qed.

Lemma gave_app s1 s2 s3 i1 i2 i3 xs n j ys m j' :
  gave s1 i1 xs n j i2 s2 -> gave s2 i2 ys m j' i3 s3 -> gave s1 i1 (xs ++ ys) (n + m) (j + j') i3 s3.
Proof.
  intros [-> R2 B2 N2 S2 L2] [-> R3 B3 N3 S3 L3]. rewrite reading_reading, (Nat.add_comm j' j) in *.
  cbn in N3, S3. rewrite (rebuffed_config i1 i2 B2), (Nat.add_comm j (k_calls (st_kernel s1))) in *.
  split; try done.
  - by apply (rebuffed_trans i1 i2).
  - intros x Hx. destruct (decide (x < j)%nat) as [Hlt|Hge]; [by apply N2|].
    replace (k_calls (st_kernel s1) + x)%nat with (k_calls (st_kernel s1) + j + (x - j))%nat by lia. apply N3. lia.
  - rewrite <- app_assoc, S3, app_assoc, S2, <- app_assoc. f_equal. unfold periods. rewrite seq_app, flat_map_app.
    done.
  - rewrite length_app. lia.
Qed.

(** No period could be read. *)
Definition failed (s : state D) (i : stream_in) (s' : state D) : Prop :=
  s' = reading h (unread (k_calls (st_kernel s)) i) 1 s /\ si_read_buf_frames i = 0 /\
  rc (k_calls (st_kernel s)) <> 0.

Lemma readable_unread s i k :
  readable s i -> si_read_buf_frames i = 0 -> readable (reading h (unread k i) 1 s) (unread k i).
Proof.
  intros R Hf. unfold unread. apply readable_rebuf; [done|]. destruct (grown_length s i R) as [G1 G2].
  pose proof R as [_ _ _ _ P _]. unfold buf_ok. cbn. rewrite Hf. split_and!; [lia | lia | lia |]. intros _. exact G1.
Qed.

Lemma wp_turn s i n (Q : list Z * Z -> state D -> Prop) :
  readable s i -> 0 < n ->
  (forall xs m j i' s', 0 < m <= n -> gave s i xs m j i' s' -> si_read_status i' = 0 -> Q (xs, m) s') ->
  (forall s', failed s i s' -> Q ([], n) s') ->
  wp (read_turn resample_from_provider h n) Q s.
Proof.
  intros R Hn Hgave Hfail. pose proof R as [R1 _ (B1 & B2 & B3) _ P R6].
  unfold read_turn. apply wp_bind, (wp_the_in h i); [done|]. rewrite R6. apply wp_bind.
  assert (forall s1 i1 j, readable s1 i1 -> 0 < si_read_buf_frames i1 -> gave s i [] 0 j i1 s1 ->
    si_read_status i1 = 0 ->
    let m := Z.min (si_read_buf_frames i1) n in
    wp (release_buffer h m;; mret (take (Z.to_nat (m * ch)) (pending_samples ch i1), m)) Q s1) as Hend.
  { intros s1 i1 j Hr Hf G Hst m. pose proof Hr as [S1 _ _ _ _ _].
    apply wp_bind. unfold release_buffer. apply (wp_set_in h _ i1); [done|]. apply wp_ret.
    assert (on_ins (insert h (advanced m i1)) s1 = reading h (advanced m i1) 0 s1) as E
      by (unfold reading; by destruct s1 as [? ? ? ? ? ? [] ?]).
    change (on_ins _ s1) with (on_ins (insert h (advanced m i1)) s1). rewrite E.
    apply (Hgave _ _ (j + 0)%nat (advanced m i1)); [lia | | done].
    apply (gave_app s s1 _ i i1 (advanced m i1) [] 0 j (take (Z.to_nat (m * ch)) (pending_samples ch i1)) m 0 G).
    split; [done | apply readable_advanced; [done | lia] | | intros x Hx; lia | |].
    - rewrite advanced_rebuf. by repeat eexists.
    - rewrite (pending_advanced s1) by (done || lia). rewrite take_drop. symmetry. apply app_nil_r.
    - rewrite length_take. pose proof (pending_length s1 i1 Hr). nia. }
  apply (wp_next_buffer s i n); [done | done | | |].
  - intros Hf. apply (Hend s i 0%nat); [done | done | by apply gave_nothing | by apply B2].
  - intros Hf Hrc Hr. apply (Hend _ (refilled (k_calls (st_kernel s)) i) 1%nat); [done | cbn; lia | | done].
    split; [done | done | by repeat eexists | | | done].
    + intros x Hx. replace x with 0%nat by lia. by rewrite Nat.add_0_r.
    + rewrite (pending_refilled s) by done. unfold periods. cbn. rewrite app_nil_r.
      unfold pending_samples at 1. rewrite Hf. done.
  - intros Hf Hrc. apply wp_ret, Hfail. done.
Qed.

(** ** All the frames *)

(** What reading [frames] frames leads to: all of them, or the error of the
    PCM, and the samples before it. *)
Definition read_post (s : state D) (i : stream_in) (frames : Z) (acc : list Z) (r : Z * list Z) (s' : state D) : Prop :=
  (exists xs j i', r = (0, acc ++ xs) /\ gave s i xs frames j i' s') \/
  (exists xs n j i1 s1, gave s i xs n j i1 s1 /\ n < frames /\ failed s1 i1 s' /\
     r = (rc (k_calls (st_kernel s1)), acc ++ xs)).

(** The number of frames that were asked for, in place of no error. *)
Definition counted (frames : Z) (r : Z * list Z) : Z * list Z :=
  if fst r =? 0 then (frames, snd r) else r.

Lemma read_post_trans s i n acc ys j i1 s1 frames r s' :
  gave s i ys n j i1 s1 -> read_post s1 i1 frames (acc ++ ys) r s' -> read_post s i (n + frames) acc r s'.
Proof.
  intros G [(xs & j' & i' & -> & G') | (xs & n' & j' & i2 & s2 & G' & Hn & F & ->)]; rewrite <- app_assoc.
  - left. exists (ys ++ xs), (j + j')%nat, i'. split; [done|]. by apply (gave_app s s1 _ i i1).
  - right. exists (ys ++ xs), (n + n'), (j + j')%nat, i2, s2. split; [by apply (gave_app s s1 _ i i1)|].
    split; [lia | done].
Qed.

Lemma wp_read_loop frames fuel : forall s i wr acc,
  readable s i -> wr <= frames -> frames - wr <= Z.of_nat fuel ->
  wp (read_loop resample_from_provider fuel h frames wr acc)
    (fun r s' => exists r', r = counted frames r' /\ read_post s i (frames - wr) acc r' s') s.
Proof.
  induction fuel as [|fuel IH]; intros s i wr acc R Hwr Hfuel; cbn [read_loop];
    (destruct (Z.ltb_spec wr frames) as [Hlt|Hge];
     [|apply wp_ret; exists (0, acc); split;
       [unfold counted; cbn; f_equal; lia|]; left; exists [], 0%nat, i; rewrite app_nil_r;
       split; [done|]; replace (frames - wr) with 0 by lia; by apply gave_nothing]); [lia|].
  apply wp_bind. apply (wp_turn s i); [done | lia | |].
  - intros xs m j i1 s1 Hm G Hst. pose proof (g_readable _ _ _ _ _ _ _ G) as R1.
    apply wp_bind, (wp_the_in h i1); [apply R1|]. rewrite Hst. cbn [negb Z.eqb].
    eapply wp_mono; [apply (IH s1 i1 (wr + m) (acc ++ xs)); [done | lia | lia]|].
    intros r s' (r' & -> & Hp). exists r'. split; [done|].
    replace (frames - wr) with (m + (frames - (wr + m))) by lia. by apply (read_post_trans s i m acc xs j i1 s1).
  - intros s1 (-> & Hf & Hrc). apply wp_bind. eapply wp_the_in; [apply reading_stream|].
    assert (si_read_status (unread (k_calls (st_kernel s)) i) = rc (k_calls (st_kernel s))) as -> by done.
    apply Z.eqb_neq in Hrc as E. rewrite E. cbn [negb]. apply wp_ret.
    exists (rc (k_calls (st_kernel s)), acc). split; [unfold counted; cbn; by rewrite E|].
    right. exists [], 0, 0%nat, i, s. split; [by apply gave_nothing|]. split; [lia|]. rewrite app_nil_r. done.
Qed.

Lemma wp_read_frames s i frames fuel :
  readable s i -> 0 <= frames <= Z.of_nat fuel ->
  wp (read_frames resample_from_provider fuel h frames)
    (fun r s' => exists r', r = counted frames r' /\ read_post s i frames [] r' s') s.
Proof.
  intros R Hf. pose proof R as [R1 (d & l & _ & _ & Ed & _) _ _ _ _].
  unfold read_frames. apply wp_bind, (wp_the_in h i); [done|]. rewrite Ed. apply wp_bind, wp_lift.
  eapply wp_mono; [by apply (wp_read_loop frames fuel s i 0 []); [|lia|lia]|].
  intros r s' (r' & -> & Hp). exists r'. rewrite Z.sub_0_r in Hp. done.
Qed.

(** In any case the stream can be read again. *)
Lemma read_post_readable s i frames acc r s' :
  read_post s i frames acc r s' -> exists i' j, s' = reading h i' j s /\ readable s' i' /\ rebuffed i i'.
Proof.
  intros [(xs & j & i' & _ & [E R B _ _ _]) | (xs & n & j & i1 & s1 & [E R B _ _ _] & _ & (E' & Hf & _) & _)].
  - by exists i', j.
  - exists (unread (k_calls (st_kernel s1)) i1), (1 + j)%nat. split; [by rewrite E', E, reading_reading|].
    split; [rewrite E'; by apply readable_unread|]. apply (rebuffed_trans i i1); [done | by repeat eexists].
Qed.
(** *** The stream as a queue

    [gives i k j] are the samples a stream has when the PCM has given [j]
    periods after [k] answers. *)
Definition gives (i : stream_in) (k j : nat) : list Z :=
  pending_samples ch i ++ periods (pc_period_size (si_config i) * ch) k j.

Lemma failed_nothing_pending s i xs n j i1 s1 s' :
  gave s i xs n j i1 s1 -> failed s1 i1 s' -> xs = gives i (k_calls (st_kernel s)) j.
Proof.
  intros G (_ & Hf & _). pose proof (g_samples _ _ _ _ _ _ _ G) as E. unfold gives. rewrite <- E.
  unfold pending_samples at 1. by rewrite Hf, app_nil_r.
Qed.

Lemma gave_calls s i xs n j i1 s1 :
  gave s i xs n j i1 s1 -> k_calls (st_kernel s1) = (k_calls (st_kernel s) + j)%nat.
Proof. intros G. rewrite (g_state _ _ _ _ _ _ _ G). cbn. apply Nat.add_comm. Qed.

(** C15. read_frames on a stream without resampler refines a queue of samples:
    for some number of periods read without error, the samples given followed
    by those left in the buffer are exactly those that were in the buffer
    followed by the periods, and it gives as many frames as it was asked for;
    or the next period is refused, and the call ends with that error and has
    given everything there was before it.  It always returns. *)
Theorem read_frames_gives s i frames fuel :
  readable s i -> 0 <= frames <= Z.of_nat fuel ->
  exists r s' j i',
    read_frames resample_from_provider fuel h frames s = Done (r, s') /\ readable s' i' /\
    let k := k_calls (st_kernel s) in
    (forall x, (x < j)%nat -> rc (k + x) = 0) /\
    (fst r = frames /\ Z.of_nat (length (snd r)) = frames * ch /\
       snd r ++ pending_samples ch i' = gives i k j
     \/ fst r = rc (k + j) /\ rc (k + j) <> 0 /\ snd r = gives i k j /\ pending_samples ch i' = []).
Proof.
  intros R Hf. pose proof (wp_read_frames s i frames fuel R Hf) as Hw. unfold wp in Hw.
  destruct (read_frames resample_from_provider fuel h frames s) as [[r s']| |]; [|done..].
  destruct Hw as (r' & -> & Hp). exists (counted frames r'), s'.
  destruct Hp as [(xs & j & i' & -> & G) | (xs & n & j & i1 & s1 & G & Hn & F & ->)].
  - exists j, i'. pose proof G as [_ R' _ N E L]. cbn zeta. split_and!; [done | done | exact N | left].
    split_and!; [done | exact L | exact E].
  - pose proof F as (-> & Hf1 & Hrc). rewrite (gave_calls s i xs n j i1 s1 G) in *.
    exists j, (unread (k_calls (st_kernel s) + j) i1). pose proof G as [_ R' _ N E L].
    cbn zeta. split_and!; [done | by apply readable_unread | exact N | right].
    unfold counted. cbn [fst snd]. rewrite (proj2 (Z.eqb_neq _ _) Hrc). cbn [fst snd app].
    split_and!; [done | done | by apply (failed_nothing_pending s i xs n j i1 s1 _ G F) |].
    unfold pending_samples. cbn. by rewrite Hf1.
Qed.
End Stream.
End Read.
