(* ===== verification/AudioReading.v ===== *)
(** * AudioReading: reading from an input stream keeps the invariant *)

From S2P Require Import Prelude CString AudioDefs AudioDevices AudioStreams AudioData AudioHw AudioBook AudioInv AudioSelect AudioFrame AudioOut AudioIn AudioInRun AudioSafe AudioClient AudioRead.

Open Scope Z_scope.

(** ** The microphone's mute

    Only adev_set_mic_mute writes the switch; here for what in_read does before
    it reads. *)

Section Mute.
Context {D : Type} `{AudioLib} `{AudioEnv} `{DspContexts D}.

Definition muted (s : state D) : bool := ad_mic_mute (st_adev s).

(** A computation that leaves the switch as it is. *)
Definition keeps {A} (m : M D A) : Prop := forall s a s', m s = Done (a, s') -> muted s' = muted s.

Lemma keeps_ret {A} (a : A) : keeps (mret a).
Proof. by intros s b s' [= _ <-]. Qed.
Lemma keeps_bind {A B} (m : M D A) (f : A -> M D B) : keeps m -> (forall a, keeps (f a)) -> keeps (m ≫= f).
Proof.
  intros Hm Hf s b s' E. unfold mbind, M_bind in E. destruct (m s) as [[a s1]| |] eqn:Em; [|done..]. cbn in E.
  rewrite (Hf a s1 b s' E). by apply (Hm s a).
Qed.
Lemma keeps_get : keeps get.
Proof. by intros s a s' [= _ <-]. Qed.
Lemma keeps_modify f : (forall s, muted (f s) = muted s) -> keeps (modify f).
Proof. intros Hf s a s' [= _ <-]. apply Hf. Qed.
Lemma keeps_set_adev f : (forall a, ad_mic_mute (f a) = ad_mic_mute a) -> keeps (set_adev f).
Proof. intros Hf. apply keeps_modify. intros s. apply Hf. Qed.
Lemma keeps_lift {A} (o : outcome A) : keeps (lift o).
Proof. intros s a s' E. unfold lift in E. destruct o; [|done..]. by injection E as _ <-. Qed.
Lemma keeps_fresh : keeps fresh_loc.
Proof. by intros s a s' [= _ <-]. Qed.
Lemma keeps_for_each {A} (f : A -> M D unit) l : (forall a, keeps (f a)) -> keeps (for_each f l).
Proof. intros Hf. induction l; cbn; [apply keeps_ret | by apply keeps_bind]. Qed.
Lemma keeps_when b m : keeps m -> keeps (when b m).
Proof. destruct b; [done | intros _; apply keeps_ret]. Qed.

Local Ltac keep :=
  repeat first
    [ assumption | apply keeps_ret | apply keeps_get | apply keeps_lift | apply keeps_fresh
    | apply keeps_bind; [|intros] | apply keeps_for_each; intros | apply keeps_when
    | apply keeps_set_adev; reflexivity | apply keeps_modify; reflexivity
    | progress unfold ask, adev, the_in, the_out, set_in, set_out, the_profile, ref_cnt, set_ref_cnt, set_usecase,
        the_usecase, remove_usecase, add_mixer, adev_get_mixer_for_card, pcm_open, pcm_close,
        audio_route_apply_path, audio_route_reset_path, audio_route_update_mixer
    | match goal with |- keeps (match ?x with _ => _ end) => destruct x end ].

Lemma keeps_mixers u l : keeps (mixers_of u l).
Proof. induction l; cbn [mixers_of]; keep. Qed.
Lemma keeps_view st : keeps (view_stream st).
Proof. unfold view_stream. keep. Qed.
Lemma keeps_active : keeps active_view.
Proof. unfold active_view. keep. apply keeps_view. Qed.
#[local] Opaque mixers_of view_stream active_view.
Lemma keeps_enable u d b : keeps (enable_snd_device u d b).
Proof. unfold enable_snd_device. keep. apply keeps_mixers. Qed.
Lemma keeps_disable u d b : keeps (disable_snd_device u d b).
Proof. unfold disable_snd_device. keep. apply keeps_mixers. Qed.
#[local] Opaque enable_snd_device disable_snd_device.
Lemma keeps_switch loc o i : keeps (switch_devices loc o i).
Proof. unfold switch_devices. keep; (apply keeps_enable || apply keeps_disable || apply keeps_mixers). Qed.
Lemma keeps_input_device out_device : keeps (get_input_snd_device out_device).
Proof. unfold get_input_snd_device. keep. apply keeps_active. Qed.

#[local] Opaque switch_devices get_input_snd_device.
Lemma keeps_select_with inner id : (forall x, keeps (inner x)) -> keeps (select_with inner id).
Proof.
  intros Hi. unfold select_with, call_devices, capture_out_device, out_devices.
  keep; (apply Hi || apply keeps_switch || apply keeps_input_device || apply keeps_active || apply keeps_view).
Qed.
#[local] Opaque select_with.
Lemma keeps_select fuel : forall id, keeps (select_devices fuel id).
Proof.
  induction fuel as [|fuel IH]; intros id; cbn [select_devices]; [apply keeps_lift|].
  apply keeps_select_with. intros x. keep. apply IH.
Qed.

#[local] Opaque select_devices.
Lemma keeps_stop_input h : keeps (stop_input_stream h).
Proof. unfold stop_input_stream, in_release_pcm_devices. keep. apply keeps_disable. Qed.

#[local] Opaque stop_input_stream.
Lemma keeps_start_input h : keeps (start_input_stream h).
Proof.
  unfold start_input_stream, new_capture, in_configure, in_open, set_in_device.
  keep; (apply keeps_select || apply keeps_stop_input).
Qed.
#[local] Opaque start_input_stream.
Lemma keeps_leave h :
  keeps (ret ← start_input_stream h; when (ret =? 0) (set_in h (set_si_standby false));; mret ret).
Proof. keep. apply keeps_start_input. Qed.

Lemma wp_keeps {A} (m : M D A) (P : A -> state D -> Prop) s :
  keeps m -> wp m P s -> wp m (fun a s' => P a s' /\ muted s' = muted s) s.
Proof.
  intros Hk. unfold wp. specialize (Hk s). destruct (m s) as [[a s']| |]; [|done..]. intros HP.
  split; [done | by apply (Hk a)].
Qed.
End Mute.

Section Reading.
Context {D : Type} `{AudioLib} `{AudioEnv} `{DspContextsOk D}.
Context (resample_from_provider : (Z -> M D (option (list Z * Z))) -> (Z -> M D unit) -> Z ->
                                  M D (list Z * Z)).
Context (process : nat -> list Z -> Z -> Z -> Z * (list Z * Z)).
Implicit Types (s : state D) (act : gset nat).

Lemma profiles_channels n q : pcm_devices !! n = Some q -> 0 < pc_channels (pp_config q).
Proof. intros Hq. do 6 (destruct n as [|n]; [by injection Hq as <-|]). done. Qed.

(** An active stream without effects and resampler can be read. *)
Lemma active_readable act s h i :
  hal act s -> st_ins s !! h = Some i -> h ∈ act -> si_usecase i <> USECASE_AUDIO_CAPTURE_HOTWORD -> plain i ->
  exists ch, 0 < ch /\ readable h ch s i /\ can_read i.
Proof.
  intros (I & _ & Hr) Hi Hh Hu Hp. pose proof (Hr h i Hi Hh Hu) as Hc.
  pose proof Hc as (d & n & q & Ed & En & Hq & B). destruct (Hp d Ed) as (P1 & P2 & P3).
  exists (pc_channels (pp_config q)). split; [by apply (profiles_channels (pd_profile d))|]. split; [|done].
  destruct (profile_lookup act s _ _ (proj2 (proj2 (proj2 I))) Hq) as (q' & Hq' & L).
  split; try done.
  - exists d, [], n, q'. split_and!; try done; [|by destruct L as (_ & _ & _ & _ & _ & -> & _)].
    destruct I as (_ & IS & [[R1 _] _ _ _] & _). apply R1. exists h. by rewrite (res_in act s h i IS Hi), Ed.
  - by apply P3.
  - by apply (in_period act s h i).
Qed.

Lemma hal_calls_any act s f : hal act s -> hal act (on_kernel (on_calls f) s).
Proof.
  intros Hs. destruct (hal_book act s Hs) as [[B1 B2 B3 B4] St].
  apply (hal_ext act s); try done. exact (hal_mode act s Hs).
Qed.

(** A read changes the buffer of the stream. *)
Lemma hal_reading act s h ch i i' j :
  hal act s -> st_ins s !! h = Some i -> can_read i -> readable h ch (reading h i' j s) i' -> rebuffed i i' ->
  plain i -> hal act (reading h i' j s).
Proof.
  intros Hs Hi (d & n & q & Ed & En & Hq & _) R (b & z & f & st & Ei) Hp.
  pose proof (hal_calls_any act s (Nat.add j) Hs) as Hs1.
  set (s1 := on_kernel _ s) in *. change (reading h i' j s) with (on_ins (insert h i') s1) in *.
  subst i'. change (on_ins _ s1) with (on_stream h (rebuf b z f st) i s1) in *.
  pose proof Hs1 as (I1 & [_ S2] & Hr).
  apply (hal_input act act s1 _ h); try done; [by apply on_stream_inv | |].
  - intros h' Hne. by apply lookup_insert_ne.
  - intros x Hx. cbn in Hx. rewrite lookup_insert_eq in Hx. injection Hx as <-.
    split; [by apply (S2 h i)|]. intros _ _. exists d, n, q. split_and!; try done.
    destruct R as [_ _ B E _ _]. destruct (Hp d Ed) as (_ & _ & P3). cbn in E. by rewrite <- (P3 q Hq), E.
Qed.

Lemma hal_read_frames act s h i fuel frames :
  hal act s -> st_ins s !! h = Some i -> h ∈ act -> si_usecase i <> USECASE_AUDIO_CAPTURE_HOTWORD -> plain i ->
  0 <= frames <= Z.of_nat fuel ->
  wp (read_frames resample_from_provider fuel h frames)
    (fun _ s' => hal act s' /\ is_Some (st_ins s' !! h)) s.
Proof.
  intros Hs Hi Hh Hu Hp Hf. destruct (active_readable act s h i Hs Hi Hh Hu Hp) as (ch & Hch & R & Hc).
  eapply wp_mono; [by apply (wp_read_frames resample_from_provider h ch Hch s i)|].
  intros r s' (r' & _ & Hpost). destruct (read_post_readable h ch Hch s i frames [] r' s' Hpost) as (i' & j & -> & R' & B).
  split; [by apply (hal_reading act s h ch i i' j)|]. exists i'. apply reading_stream.
Qed.

Lemma hal_process_frames act s h i fuel frames :
  hal act s -> st_ins s !! h = Some i -> h ∈ act -> si_usecase i <> USECASE_AUDIO_CAPTURE_HOTWORD -> plain i ->
  0 <= frames <= Z.of_nat fuel ->
  wp (read_and_process_frames resample_from_provider process fuel h frames)
    (fun _ s' => hal act s' /\ is_Some (st_ins s' !! h)) s.
Proof.
  intros Hs Hi Hh Hu Hp Hf. pose proof Hs as (I & _).
  destruct (i_ins _ _ (proj1 (proj2 I)) h i Hi) as (O1 & _). destruct (O1 Hh) as [d Ed].
  unfold read_and_process_frames. apply wp_bind, (wp_the_in h i); [done|]. cbn zeta.
  destruct (Hp d Ed) as (_ & Epre & _). rewrite Epre. cbn [length Nat.eqb negb orb].
  apply wp_bind.
  apply wp_mono with (P := fun _ s1 => hal act s1 /\ exists i1, st_ins s1 !! h = Some i1 /\ plain i1 /\
    si_usecase i1 <> USECASE_AUDIO_CAPTURE_HOTWORD).
  { apply wp_when; intros _; [|split; [done | by exists i]]. apply (wp_set_in h _ i); [done|].
    match goal with |- hal act (on_ins (insert h (set_si_proc_buf_size ?z (set_si_proc_buf_in ?b i))) s) /\ _ =>
      set (g := fun i => set_si_proc_buf_size z (set_si_proc_buf_in b i)) end.
    change (on_ins _ s) with (on_stream h g i s). split; [by apply hal_on_stream|].
    exists (g i). split; [apply lookup_insert_eq|]. done. }
  intros _ s1 (Hs1 & i1 & Hi1 & Hp1 & Hu1). apply wp_bind.
  eapply wp_mono; [by apply (hal_read_frames act s1 h i1 fuel frames)|].
  intros [w xs] s2 Hs2. apply wp_if; intros _; by apply wp_ret.
Qed.

(** Reading hotwords: the microphone is not muted, or the library has no error. *)
Definition may_clear (s : state D) (i : stream_in) : Prop :=
  si_usecase i = USECASE_AUDIO_CAPTURE_HOTWORD -> muted s = false \/ hotwords_ok.

(** What in_read does with an active stream. *)
Lemma hal_in_read_data act s h i fuel bytes :
  hal act s -> st_ins s !! h = Some i -> h ∈ act -> may_clear s i ->
  (si_usecase i <> USECASE_AUDIO_CAPTURE_HOTWORD -> plain i /\
     0 <= bytes / audio_stream_in_frame_size i <= Z.of_nat fuel) ->
  audio_stream_in_frame_size i <> 0 ->
  wp (in_read_data resample_from_provider process fuel h bytes)
    (fun _ s' => hal act s' /\ is_Some (st_ins s' !! h)) s.
Proof.
  intros Hs Hi Hh Hcl Hp Hsize. pose proof Hs as (I & _).
  destruct (i_ins _ _ (proj1 (proj2 I)) h i Hi) as (O1 & _). destruct (O1 Hh) as [d Ed].
  unfold in_read_data. apply wp_bind, (wp_the_in h i); [done|]. apply wp_bind, wp_in_frames; [done|]. rewrite Ed.
  apply wp_bind, wp_lift. do 2 wp_step. apply wp_if; intros Eu.
  - unfold read_bytes_from_dsp. apply wp_bind, wp_bind, (wp_the_in h i); [done|]. rewrite Ed.
    apply wp_bind, wp_lift. apply wp_bind, wp_lift. apply Z.eqb_eq in Eu. specialize (Hcl Eu). unfold muted in Hcl.
    apply wp_if; intros _; [unfold ask; repeat wp_step | wp_step]; (apply wp_if; intros E; [exfalso | apply wp_ret]).
    + apply andb_true_iff in E as [Em En%Z.ltb_lt]. destruct Hcl as [Hcl|Hcl]; [congruence|].
      specialize (Hcl (k_calls (st_kernel s))). lia.
    + split; [by apply hal_calls_any | by exists i].
    + by rewrite andb_false_r in E.
    + split; [done | by exists i].
  - apply Z.eqb_neq in Eu. destruct (Hp Eu) as [Hplain Hf]. apply wp_bind.
    eapply wp_mono; [by apply (hal_process_frames act s h i fuel)|]. intros [n xs] s' Hs'. by apply wp_ret.
Qed.

(** A stream that can be read: for hotwords, or without effects and resampler. *)
Definition may_read (i : stream_in) : Prop :=
  si_usecase i <> USECASE_AUDIO_CAPTURE_HOTWORD -> if si_standby i then ready i else plain i.

Context (res_ok : resamplers_ok) (mem_ok : memory_ok).

Lemma hal_in_read act s h i fuel bytes :
  hal act s -> st_ins s !! h = Some i -> may_read i -> may_clear s i ->
  0 <= bytes / audio_stream_in_frame_size i <= Z.of_nat fuel -> audio_stream_in_frame_size i <> 0 ->
  wp (in_read resample_from_provider process fuel h bytes) (fun _ s' => safe s') s.
Proof.
  intros Hs Hi Hm Hcl Hf Hsize. unfold in_read, in_read_with. apply wp_bind, (wp_the_in h i); [done|].
  apply wp_bind, wp_in_frames; [done|]. apply wp_bind.
  apply wp_mono with (P := fun r s1 => exists act1 i1, hal act1 s1 /\ st_ins s1 !! h = Some i1 /\
    (r = 0 -> h ∈ act1 /\ audio_stream_in_frame_size i1 = audio_stream_in_frame_size i /\ may_clear s1 i1 /\
       (si_usecase i1 <> USECASE_AUDIO_CAPTURE_HOTWORD -> plain i1))).
  { unfold may_read in Hm. destruct (si_standby i) eqn:E.
    - eapply wp_mono; [apply wp_keeps; [apply keeps_leave | by apply (hal_leave_in_standby res_ok mem_ok act s h i)]|].
      intros r s1 ((Hs1 & [i1 Hi1] & Hr) & Emute). exists (if r =? 0 then {[h]} ∪ act else act), i1. split; [done|].
      split; [done|]. intros ->. split; [set_solver|]. destruct (Hr eq_refl i1 Hi1) as (Eu & Em & Hp).
      split; [unfold audio_stream_in_frame_size; by rewrite Em|].
      split; [unfold may_clear; rewrite Emute, Eu; exact Hcl|]. intros Hn. apply Hp; [done|].
      apply Hm. congruence.
    - apply wp_ret. exists act, i. split; [done|]. split; [done|]. intros _. split; [by apply (in_active act s h i)|].
      done. }
  intros r s1 (act1 & i1 & Hs1 & Hi1 & Hr). apply wp_bind.
  apply wp_mono with (P := fun _ s2 => exists act2 i2, hal act2 s2 /\ st_ins s2 !! h = Some i2).
  { apply wp_if; intros E; [apply wp_ret; by exists act1, i1|].
    apply negb_false_iff, Z.eqb_eq in E. destruct (Hr E) as (Hh & Ef & Hc1 & Hp).
    eapply wp_mono; [apply (hal_in_read_data act1 s1 h i1 fuel bytes); try done; rewrite Ef; auto|].
    intros x s2 [Hs2 [i2 Hi2]]. by exists act1, i2. }
  intros [ok [n xs]] s2 (act2 & i2 & Hs2 & Hi2). apply wp_bind.
  apply wp_mono with (P := fun _ s3 => safe s3); [|intros x s3 Hs3; by apply wp_ret].
  apply wp_when; intros _; [|by exists act2]. apply wp_bind.
  eapply wp_mono; [by apply (hal_in_standby act2 s2 h i2)|]. intros x s3 (Hs3 & _). apply wp_ret.
  by exists (act2 ∖ {[h]}).
Qed.
End Reading.
