(* ===== verification/AudioSafety.v ===== *)
(** * AudioSafety: runs of the audio HAL

    The calls of a client after adev_open, and when they are legal: the handle
    is of an open stream whose frames are not empty, no two open streams have one use case, the primary
    output stays open, the mode is not that of a call, an output is routed to
    devices that can play, an input that is read has neither resampler nor
    effects, and hotwords are not read with a muted microphone while the sound
    trigger library reports errors.  No legal call follows a pointer to nothing or closes what is not
    open, and between two calls the counters, the mixer paths and the PCMs are
    those of the streams that are not in standby. *)

From S2P Require Import Prelude CString Float32 AudioDefs AudioDevices AudioStreams AudioData AudioHw AudioBook AudioInv AudioSelect AudioFrame AudioOut AudioIn AudioInRun AudioSafe AudioClient AudioRead AudioReading.

Open Scope Z_scope.

Section Safety.
Context {D : Type} `{AudioLib} `{AudioEnv} `{DspContextsOk D}.
Context (resample_from_provider : (Z -> M D (option (list Z * Z))) -> (Z -> M D unit) -> Z ->
                                  M D (list Z * Z)).
Context (resample_from_input : list Z -> Z -> Z -> list Z * Z).
Context (process : nat -> list Z -> Z -> Z -> Z * (list Z * Z)).
Implicit Types (s : state D) (act : gset nat).

Notation usecases s := (ad_usecases (st_adev s)).

(** ** Opening the device *)

(** The device while it is opened: the mixers, and the number of calls. *)
Definition booting (m : list Z) (n : nat) (d : D) : state D :=
  State (set_ad_mixers m new_audio_device) ∅ ∅ pcm_devices ∅ 0%nat (Kernel ∅ 0%nat ∅ ∅ ∅ [] n) d.

Lemma wp_mixer_retry m d todo : forall r n,
  RETRY_NUMBER <= r + Z.of_nat todo ->
  wp (mixer_retry todo r) (fun _ s' => exists n', s' = booting m n' d) (booting m n d).
Proof.
  induction todo as [|todo IH]; intros r n Hr; cbn [mixer_retry]; do 2 wp_step;
    (apply wp_if; intros _; [apply wp_ret; by exists (S n)|]).
  - apply wp_if; intros E; [apply wp_ret; by exists (S n)|]. lia.
  - apply wp_if; intros E; [apply wp_ret; by exists (S n)|]. apply (IH (r + 1) (S n)). lia.
Qed.

Lemma wp_mixer_loop d l : forall m n,
  Forall (fun p => pp_card p = SOUND_CARD) l -> m = [] \/ m = [SOUND_CARD] ->
  wp (mixer_init_loop l)
    (fun r s' => exists m' n', s' = booting m' n' d /\ (r = 0 -> m = [SOUND_CARD] \/ l <> [] -> m' = [SOUND_CARD]))
    (booting m n d).
Proof.
  induction l as [|p l IH]; intros m n Hl Hm; cbn [mixer_init_loop].
  { apply wp_ret. exists m, n. split; [done|]. intros _ [? | ?]; done. }
  apply list.Forall_cons in Hl as [Hp Hl]. rewrite Hp. unfold adev_get_mixer_for_card. repeat wp_step.
  destruct Hm as [-> | ->]; cbn [find ad_mixers booting st_adev set_ad_mixers].
  - apply wp_bind. eapply wp_mono; [apply (wp_mixer_retry [] d); cbn; lia|].
    intros [[]|] s1 [n1 ->].
    + do 2 wp_step. apply wp_if; intros _.
      * unfold mixer_error, free_mixer_list. repeat wp_step. exists [], (S n1). done.
      * wp_step. wp_step. eapply wp_mono; [apply (IH [SOUND_CARD] (S n1)); [done | by right]|].
        intros r s2 (m' & n' & -> & Hm'). exists m', n'. split; [done|]. intros Er _. apply Hm'; [done | by left].
    + unfold mixer_error, free_mixer_list. repeat wp_step. exists [], n1. done.
  - rewrite Z.eqb_refl. eapply wp_mono; [apply (IH [SOUND_CARD] n); [done | by right]|].
    intros r s2 (m' & n' & -> & Hm'). exists m', n'. split; [done|]. intros Er _. apply Hm'; [done | by left].
Qed.

Lemma owned_nothing {R} (F : nat -> option R) (S : R -> Prop) :
  (forall h, F h = None) -> (forall r, ~ S r) -> owned F S.
Proof.
  intros HF HS. split.
  - intros r. split; [by intros Hr%HS | intros [h Hh]; by rewrite HF in Hh].
  - intros h1 h2 r E. by rewrite HF in E.
Qed.

(** A device that is open, and no stream: no path is applied, and nothing is
    counted. *)
Lemma book_nothing (s : state D) :
  ad_ref_cnt (st_adev s) = replicate 33 0 -> pending s = ∅ -> book (uses []) s.
Proof.
  intros Er Ep. split.
  - by rewrite Er.
  - intros d Hd. rewrite Er. apply lookup_replicate. split; [done | lia].
  - intros d Hd. apply uses_pos.
  - intros d name Hn. rewrite Ep. split; [set_solver|]. intros (d' & _ & Hd'). unfold uses in Hd'. cbn in Hd'. lia.
Qed.

Definition opened_device (st : bool) (m : list Z) (n : nat) (d : D) : state D :=
  on_adev (fun a => AudioDevice (ad_mixers a) (ad_mode a) (ad_active_input a) (ad_primary a)
    (ad_in_call a) (ad_mic_mute a) (ad_tty_mode a) (ad_bluetooth_nrec a) (ad_screen_off a) (ad_ref_cnt a)
    (ad_usecases a) (ad_lr_swap a) (ad_dualmic a) (ad_ns a) st) (booting m n d).

Lemma profiles_like : Forall2 profile_like pcm_devices pcm_devices.
Proof. repeat constructor; (by left) || by right. Qed.

Lemma hal_opened_device n d st : dsp_ok d ∅ -> hal ∅ (opened_device st [SOUND_CARD] n d).
Proof.
  intros Hd. set (s := opened_device _ _ _ _).
  assert (forall h, res s h = no_resources) as Er by (intros h; unfold res; done).
  split; [split_and!|split; [split|]]; try (by intros h x).
  - split; try (by apply list.NoDup_nil); try (intros ?; set_solver); [|done]. by apply book_nothing.
  - split; intros h; try (by intros h2); cbn; try (by intros [x Hx]); by intros x.
  - split; [apply owned_nothing; [intros h; by rewrite Er | set_solver] | set_solver |
      apply owned_nothing; [intros h; by rewrite Er | set_solver] |].
    exists ∅. split; [done|]. apply owned_nothing; [intros h; by rewrite Er | set_solver].
  - split; try done. apply profiles_like.
Qed.

(** adev_open never fails in an undefined way; when it succeeds nothing is in use. *)
Lemma wp_adev_open d name st :
  dsp_ok d ∅ -> wp (adev_open name st) (fun r s' => r = 0 -> hal ∅ s') (initial_state d).
Proof.
  intros Hd. unfold adev_open. apply wp_if; intros _; [by apply wp_ret|].
  change (initial_state d) with (booting [] 0 d).
  apply wp_bind. unfold mixer_init. do 3 wp_step. wp_step.
  change (on_adev (set_ad_mixers []) (booting [] 0 d)) with (booting [] 0 d).
  eapply wp_mono; [apply (wp_mixer_loop d pcm_devices [] 0%nat); [by repeat constructor | by left]|].
  intros r s1 (m & n & -> & Hm). apply wp_if; intros Er; [by apply wp_ret|].
  apply negb_false_iff, Z.eqb_eq in Er. rewrite (Hm Er) by (by right).
  do 2 wp_step. destruct (dsp_init_ok d ∅ "/system/etc/cras/speakerdsp.ini" Hd) as (d' & Ed & Hd').
  apply wp_bind. eapply wp_dsp_do; [exact Ed|]. apply wp_ret. intros _. by apply (hal_opened_device n d' st).
Qed.

(** ** The calls of a client *)

Inductive call : Type :=
| OpenOutput (devices flags : Z) (config : audio_config)
| CloseOutput (h : nat)
| Write (h : nat) (buffer : list Z) (bytes : Z)
| StandbyOutput (h : nat)
| SetOutput (h : nat) (parms : string -> option string)
| OpenInput (devices : Z) (config : audio_config) (flags source : Z)
| CloseInput (h : nat)
| Read (h : nat) (bytes : Z)
| StandbyInput (h : nat)
| SetInput (h : nat) (parms : string -> option string)
| AddEffect (h effect : nat)
| RemoveEffect (h effect : nat)
| SetParameters (parms : string -> option string)
| SetMode (mode : Z)
| SetMicMute (b : bool).

Definition discard {A} (m : M D A) : M D unit := _ ← m; mret tt.

Definition run_call (c : call) : M D unit :=
  match c with
  | OpenOutput devices flags config => discard (adev_open_output_stream devices flags config)
  | CloseOutput h => adev_close_output_stream h
  | Write h buffer bytes => discard (out_write resample_from_input h buffer bytes)
  | StandbyOutput h => discard (out_standby h)
  | SetOutput h parms => discard (out_set_parameters h parms)
  | OpenInput devices config flags source => discard (adev_open_input_stream devices config flags source)
  | CloseInput h => adev_close_input_stream h
  | Read h bytes => discard (in_read resample_from_provider process (Z.to_nat bytes) h bytes)
  | StandbyInput h => discard (in_standby h)
  | SetInput h parms => discard (in_set_parameters h parms)
  | AddEffect h effect => discard (in_add_audio_effect h effect)
  | RemoveEffect h effect => discard (in_remove_audio_effect h effect)
  | SetParameters parms => discard (adev_set_parameters parms)
  | SetMode mode => discard (adev_set_mode mode)
  | SetMicMute b => discard (adev_set_mic_mute b)
  end.

Definition an_output (s : state D) (h : nat) : Prop := is_Some (st_outs s !! h).
Definition an_input (s : state D) (h : nat) : Prop := is_Some (st_ins s !! h).

(** The routing that is asked for, when there is one. *)
Definition routing (parms : string -> option string) : option Z :=
  atoi <$> snd (str_parms_get_str parms AUDIO_PARAMETER_STREAM_ROUTING).

Definition legal (c : call) (s : state D) : Prop :=
  match c with
  | OpenOutput _ flags _ => fresh_output s flags
  | CloseOutput h => an_output s h /\ ad_primary (st_adev s) <> Some h
  | Write h _ _ => exists o, st_outs s !! h = Some o /\ audio_stream_out_frame_size o <> 0
  | StandbyOutput h => an_output s h
  | SetOutput h parms => an_output s h /\ forall v, routing parms = Some v -> v = 0 \/ routable v
  | OpenInput _ _ _ source => fresh_input s source
  | CloseInput h | StandbyInput h | SetInput h _ | AddEffect h _ | RemoveEffect h _ => an_input s h
  | Read h bytes => 0 <= bytes /\ exists i, st_ins s !! h = Some i /\ may_read i /\ may_clear s i /\
      0 < audio_stream_in_frame_size i
  | SetParameters _ | SetMicMute _ => True
  | SetMode mode => mode <> AUDIO_MODE_IN_CALL
  end.

(** The states after adev_open, and after legal calls. *)
Inductive reach : state D -> Prop :=
| reach_open d name st s :
    dsp_ok d ∅ -> adev_open name st (initial_state d) = Done (0, s) -> reach s
| reach_call c s s' : reach s -> legal c s -> run_call c s = Done (tt, s') -> reach s'.

Lemma wp_discard {A} (m : M D A) (P : state D -> Prop) s :
  wp m (fun _ => P) s -> wp (discard m) (fun _ => P) s.
Proof. intros Hm. unfold discard. apply wp_bind. eapply wp_mono; [exact Hm|]. intros a s' Hs. by apply wp_ret. Qed.

Lemma safe_of {A} (m : M D A) (P : A -> state D -> Prop) s :
  wp m P s -> (forall a s', P a s' -> safe s') -> wp (discard m) (fun _ s' => safe s') s.
Proof. intros Hm HP. apply wp_discard. by eapply wp_mono. Qed.

Lemma legal_call_safe c s : resamplers_ok -> memory_ok -> safe s -> legal c s -> wp (run_call c) (fun _ s' => safe s') s.
Proof.
  intros res_ok mem_ok [act Hs] Hl. destruct c; cbn [run_call legal] in *.
  - eapply safe_of; [by apply (hal_open_output act)|]. intros a s' Hs'. by exists act.
  - destruct Hl as [[o Ho] Hp]. by apply (hal_close_output act s h o).
  - destruct Hl as (o & Ho & Hsize). eapply safe_of; [by apply (hal_out_write _ act s h o)|]. by intros a s' [_ ?].
  - destruct Hl as [o Ho]. eapply safe_of; [by apply (hal_out_standby act s h o)|].
    intros a s' (_ & Hs' & _). by exists (act ∖ {[h]}).
  - destruct Hl as [[o Ho] Hr]. apply wp_discard. apply (hal_out_set_parameters act s h o); [done | done|].
    intros v Ev. apply Hr. unfold routing. by rewrite Ev.
  - eapply safe_of; [by apply (hal_open_input act)|]. intros a s' Hs'. by exists act.
  - destruct Hl as [i Hi]. by apply (hal_close_input act s h i).
  - destruct Hl as (Hb & i & Hi & Hm & Hc & Hf). apply wp_discard.
    apply (hal_in_read _ _ res_ok mem_ok act s h i); [done | done | done | done | |].
    2: by apply Z.neq_sym, Z.lt_neq.
    rewrite Z2Nat.id by done. split; [by apply Z.div_pos|]. apply Z.div_le_upper_bound; [done | nia].
  - destruct Hl as [i Hi]. eapply safe_of; [by apply (hal_in_standby act s h i)|].
    intros a s' (Hs' & _). by exists (act ∖ {[h]}).
  - destruct Hl as [i Hi]. apply wp_discard. by apply (hal_in_set_parameters act s h i).
  - destruct Hl as [i Hi]. apply wp_discard. by apply (hal_effect act s h i).
  - destruct Hl as [i Hi]. apply wp_discard. by apply (hal_effect act s h i).
  - eapply safe_of; [by apply (hal_set_parameters act)|]. intros a s' Hs'. by exists act.
  - eapply safe_of; [by apply (hal_set_mode act)|]. intros a s' [_ Hs']. by exists act.
  - eapply safe_of; [by apply (hal_mic_mute act)|]. intros a s' [_ Hs']. by exists act.
Qed.


Lemma reach_safe s : resamplers_ok -> memory_ok -> reach s -> safe s.
Proof.
  intros res_ok mem_ok. induction 1 as [d name st s Hd E|c s s' _ IH Hl E].
  - pose proof (wp_adev_open d name st Hd) as Hw. unfold wp in Hw. rewrite E in Hw. exists ∅. exact (Hw eq_refl).
  - pose proof (legal_call_safe c s res_ok mem_ok IH Hl) as Hw. unfold wp in Hw. by rewrite E in Hw.
Qed.


(** How many use cases have the sound device [d]. *)
Definition users (s : state D) (d : Z) : Z := uses (usecases s) d.

(** C17. Between two calls the counter of every sound device is the number of
    use cases that have it, and the paths that are in effect in the mixer are
    those of the devices some use case has.  The states are those after legal calls
    ([legal]), when resamplers can be created and pcm_open has memory. *)
Theorem devices_counted s d name :
  resamplers_ok -> memory_ok -> reach s -> get_snd_device_name d = Some name ->
  ad_ref_cnt (st_adev s) !! Z.to_nat d = Some (users s d) /\
  (name ∈ live s <-> exists d', get_snd_device_name d' = Some name /\ 0 < users s d').
Proof.
  intros res_ok mem_ok Hr Hd. destruct (reach_safe s res_ok mem_ok Hr) as [act Hs]. destruct (hal_book act s Hs) as [[B1 B2 B3 B4] St].
  pose proof (snd_device_name_Some _ _ Hd) as [Hlt _]. split; [by apply B2|]. rewrite St. exact (B4 d name Hd).
Qed.

(** Every stream is in standby. *)
Definition all_standby (s : state D) : Prop :=
  (forall h o, st_outs s !! h = Some o -> so_standby o = true) /\
  (forall h i, st_ins s !! h = Some i -> si_standby i = true).

Lemma standby_no_active act s : hal act s -> all_standby s -> act = ∅.
Proof.
  intros (I & [S1 S2] & _) [A1 A2]. apply set_eq. intros h. split; [|set_solver]. intros Hh. exfalso.
  destruct (act_stream act s h I Hh) as [[x Hx]|[x Hx]].
  - apply (S1 h x Hx) in Hh. rewrite (A1 h x Hx) in Hh. done.
  - apply (S2 h x Hx) in Hh. rewrite (A2 h x Hx) in Hh. done.
Qed.

Lemma owned_none {R} (F : nat -> option R) (S : R -> Prop) r : owned F S -> (forall h, F h = None) -> ~ S r.
Proof. intros [Ho _] HF Hr. apply Ho in Hr as [h Hh]. by rewrite HF in Hh. Qed.

(** C8. When every stream is in standby nothing is left: no use case, no count,
    no mixer path of a sound device, no open PCM, no hotword stream.  This holds
    after legal calls only ([legal]: a voice call loses an open PCM) and as long as
    create_resampler succeeds and pcm_open has memory: when a resampler cannot be
    created a stream in standby keeps its PCM and use case
    ([resampler_failure_leaks]). *)
Theorem standby_leaves_nothing s :
  resamplers_ok -> memory_ok -> reach s -> all_standby s ->
  usecases s = [] /\ (forall d, 1 <= d < 33 -> ad_ref_cnt (st_adev s) !! Z.to_nat d = Some 0) /\
  (forall d name, get_snd_device_name d = Some name -> name ∉ live s) /\
  k_pcms (st_kernel s) = ∅ /\ k_streaming (st_kernel s) = ∅.
Proof.
  intros res_ok mem_ok Hr Ha. destruct (reach_safe s res_ok mem_ok Hr) as [act Hs]. pose proof (standby_no_active act s Hs Ha) as ->.
  pose proof Hs as ((IU & _ & [R1 _ R3 _] & _) & _).
  assert (usecases s = []) as Eu.
  { destruct (usecases s) as [|u l] eqn:E; [done|]. pose proof (i_listed _ _ IU u). rewrite E in *. set_solver. }
  assert (forall d, users s d = 0) as Hz by (intros d; unfold users; by rewrite Eu).
  assert (forall h, res s h = no_resources) as Er by (intros h; apply (idle_resources ∅); [apply Hs | set_solver]).
  destruct (hal_book ∅ s Hs) as [[B1 B2 B3 B4] St]. split_and!; [done | | | |].
  - intros d Hd. rewrite (B2 d Hd). f_equal. apply Hz.
  - intros d name Hd Hn. rewrite St in Hn. apply (B4 d name Hd) in Hn as (d' & _ & Hd'). fold (users s d') in Hd'.
    rewrite Hz in Hd'. lia.
  - apply set_eq. intros n. split; [|set_solver]. intros Hn. exfalso.
    by apply (owned_none _ _ n R1); [intros h; rewrite Er|].
  - apply set_eq. intros z. split; [|set_solver]. intros Hz'. exfalso.
    by apply (owned_none _ _ z R3); [intros h; rewrite Er|].
Qed.
(** The stream [h] has the PCM [n]. *)
Definition has_pcm (s : state D) (h n : nat) : Prop :=
  (exists o d, st_outs s !! h = Some o /\ so_pcm_devs o = Some [d] /\ pd_pcm d = Some n /\ so_standby o = false) \/
  (exists i d, st_ins s !! h = Some i /\ si_pcm_devs i = Some [d] /\ pd_pcm d = Some n /\ si_standby i = false).

Lemma dev_res_pcm l n : r_pcm (dev_res l) = Some n <-> exists d, l = Some [d] /\ pd_pcm d = Some n.
Proof.
  split; [|by intros (d & -> & Hd)]. destruct l as [[|d [|]]|]; try done. intros Hd. by exists d.
Qed.

Lemma res_pcm act s h n : hal act s -> r_pcm (res s h) = Some n <-> has_pcm s h n.
Proof.
  intros Hs. pose proof Hs as (I & [S1 S2] & _). pose proof I as (_ & IS & _ & _).
  assert (r_pcm (res s h) = Some n -> h ∈ act) as Hact.
  { intros E. destruct (decide (h ∈ act)) as [|Hh]; [done|].
    by rewrite (idle_resources act s h I Hh) in E. }
  split.
  - intros E. pose proof (Hact E) as Hh. destruct (act_stream act s h I Hh) as [[o Ho]|[i Hi]].
    + rewrite (res_out _ _ _ Ho) in E. apply dev_res_pcm in E as (d & Ed & En). left. exists o, d.
      split_and!; try done. destruct (so_standby o) eqn:Es; [|done]. by apply (S1 h o Ho) in Hh; rewrite Es in Hh.
    + rewrite (res_in act s h i IS Hi) in E. apply dev_res_pcm in E as (d & Ed & En). right. exists i, d.
      split_and!; try done. destruct (si_standby i) eqn:Es; [|done]. by apply (S2 h i Hi) in Hh; rewrite Es in Hh.
  - intros [(o & d & Ho & Ed & En & _)|(i & d & Hi & Ed & En & _)].
    + rewrite (res_out _ _ _ Ho), Ed. done.
    + rewrite (res_in act s h i IS Hi), Ed. done.
Qed.

(** C27. Between two calls every PCM that is open is held by exactly one stream,
    and that stream is not in standby.  Between legal calls ([legal], none of them
    for a voice call, which loses an open PCM) and while create_resampler succeeds and
    pcm_open has memory: so long no PCM leaks and none is shared; a resampler that
    cannot be created leaves an open PCM to a stream in standby
    ([resampler_failure_leaks]). *)
Theorem open_pcms_owned s n :
  resamplers_ok -> memory_ok -> reach s -> n ∈ k_pcms (st_kernel s) <-> exists h, has_pcm s h n /\ forall h', has_pcm s h' n -> h' = h.
Proof.
  intros res_ok mem_ok Hr. destruct (reach_safe s res_ok mem_ok Hr) as [act Hs]. pose proof Hs as ((_ & _ & [[R1 R2] _ _ _] & _) & _).
  rewrite R1. split.
  - intros [h Hh]. exists h. split; [by apply (res_pcm act)|]. intros h' Hh'. apply (res_pcm act s h' n Hs) in Hh'.
    by apply (R2 h' h n).
  - intros (h & Hh & _). exists h. by apply (res_pcm act).
Qed.
End Safety.
