(* ===== verification/AudioSizes.v ===== *)
(** * AudioSizes: the sizes an input is read in, and the tables of devices

    What does not depend on the streams that are open: the size of the buffers
    a client is told to read, and which sound devices can be chosen at all. *)

From S2P Require Import Prelude CString AudioDefs AudioDevices AudioStreams AudioData AudioHw AudioBook AudioInv AudioOut AudioIn AudioInRun AudioSafe AudioSafety.

Open Scope Z_scope.

(** ** The sizes of buffers *)

Definition input_rates : list Z := [8000; 11025; 12000; 16000; 22050; 24000; 32000; 44100; 48000].

Lemma check_input_ok rate format channels :
  check_input_parameters rate format channels = 0 ->
  format = AUDIO_FORMAT_PCM_16_BIT /\ 1 <= channels <= 4 /\ rate ∈ input_rates.
Proof.
  unfold check_input_parameters. destruct (Z.eqb_spec format AUDIO_FORMAT_PCM_16_BIT) as [-> | _]; [|done].
  cbn [negb]. destruct (_ || _) eqn:Ec; [done|]. destruct (existsb _ _) eqn:Er; [|done]. intros _.
  apply orb_false_iff in Ec as [E1%Z.ltb_ge E2%Z.ltb_ge]. split; [done|]. split; [lia|].
  apply existsb_exists in Er as (x & Hx & <-%Z.eqb_eq). by apply list_elem_of_In.
Qed.

(** A multiple of 16 frames that falls short of a period by less than a frame;
    the smallest that lasts as long as a period. *)
Definition rounded (period rate pcm_rate frames : Z) : Prop :=
  frames mod 16 = 0 /\ period * rate - pcm_rate < frames * pcm_rate < period * rate + 16 * pcm_rate.
Definition majoring (period rate pcm_rate frames : Z) : Prop :=
  frames mod 16 = 0 /\ period * rate <= frames * pcm_rate < period * rate + 16 * pcm_rate.

Definition size_frames (period rate pcm_rate : Z) : Z := (u32 (period * rate) / pcm_rate + 15) / 16 * 16.

Lemma rounded_frames period rate pcm_rate :
  rate ∈ input_rates -> period = CAPTURE_PERIOD_SIZE \/ period = CAPTURE_PERIOD_SIZE_LOW_LATENCY ->
  pcm_rate = 48000 \/ pcm_rate = 16000 ->
  rounded period rate pcm_rate (size_frames period rate pcm_rate) /\
  (pcm_rate = 48000 -> majoring period rate pcm_rate (size_frames period rate pcm_rate)) /\
  0 < size_frames period rate pcm_rate <= 3072.
Proof.
  intros Hr Hp Hq.
  assert (forallb (fun r => forallb (fun p => forallb (fun q =>
    let f := size_frames p r q in
    (f mod 16 =? 0) && (p * r - q <? f * q) && (f * q <? p * r + 16 * q) && (0 <? f) && (f <=? 3072) &&
    ((p * r <=? f * q) || (q =? 16000)))
    [48000; 16000]) [1024; 512]) input_rates = true) as Hall by (vm_compute; reflexivity).
  rewrite forallb_forall in Hall. apply list_elem_of_In in Hr. specialize (Hall rate Hr).
  rewrite forallb_forall in Hall.
  assert (In period [1024; 512]) as Hin by (destruct Hp as [-> | ->]; [by left | by right; left]).
  specialize (Hall period Hin). rewrite forallb_forall in Hall.
  assert (In pcm_rate [48000; 16000]) as Hin' by (destruct Hq as [-> | ->]; [by left | by right; left]).
  specialize (Hall pcm_rate Hin'). cbn zeta in Hall. unfold rounded, majoring. lia.
Qed.

Lemma profile_rates n q : pcm_devices !! n = Some q -> pc_rate (pp_config q) = 48000 \/ pc_rate (pp_config q) = 16000.
Proof. intros Hq. do 6 (destruct n as [|n]; [injection Hq as <-; by (left + right)|]). done. Qed.

Section Sizes.
Context {D : Type} `{AudioLib} `{AudioEnv} `{DspContextsOk D}.
Context (resample_from_provider : (Z -> M D (option (list Z * Z))) -> (Z -> M D unit) -> Z ->
                                  M D (list Z * Z)).
Context (resample_from_input : list Z -> Z -> Z -> list Z * Z).
Context (process : nat -> list Z -> Z -> Z -> Z * (list Z * Z)).
Implicit Types s : state D.

(** The size of the buffers of an input. *)
Notation size s rate format channels type devices :=
  (get_input_buffer_size (st_profiles s) rate format channels type devices).

(** C28. In a running HAL the size a client is told for an input is 0 exactly
    when the parameters are refused or no PCM records from the devices, and
    otherwise it is that of a multiple of 16 frames.  For the PCMs that run at
    48000 Hz that is the smallest one that lasts no less than a period, although
    the source rounds down before it rounds up; in any case less than one frame
    is missing.  It never wraps: at most 3072 frames of at most 4 channels.  The
    states are those after legal calls, when resamplers can be created and pcm_open
    has memory. *)
Theorem input_buffer_sizes s rate format channels type devices :
  resamplers_ok -> memory_ok ->
  reach resample_from_provider resample_from_input process s ->
  audio_bytes_per_sample AUDIO_FORMAT_PCM_16_BIT = 2 ->
  (size s rate format channels type devices = 0 <->
     check_input_parameters rate format channels <> 0 \/ get_pcm_device (st_profiles s) type devices = None) /\
  (forall p, check_input_parameters rate format channels = 0 ->
     get_pcm_device (st_profiles s) type devices ≫= (st_profiles s !!.) = Some p ->
     exists frames, size s rate format channels type devices = frames * channels * 2 /\
       rounded (pc_period_size (pp_config p)) rate (pc_rate (pp_config p)) frames /\
       (pc_rate (pp_config p) = 48000 -> majoring (pc_period_size (pp_config p)) rate (pc_rate (pp_config p)) frames) /\
       0 < frames <= 3072).
Proof.
  intros res_ok mem_ok Hr Hb. destruct (reach_safe _ _ _ s res_ok mem_ok Hr) as [act Hs]. pose proof Hs as ((_ & _ & _ & IA) & _).
  assert (forall p, check_input_parameters rate format channels = 0 ->
     get_pcm_device (st_profiles s) type devices ≫= (st_profiles s !!.) = Some p ->
     size s rate format channels type devices = size_frames (pc_period_size (pp_config p)) rate (pc_rate (pp_config p)) * channels * 2 /\
     rounded (pc_period_size (pp_config p)) rate (pc_rate (pp_config p))
       (size_frames (pc_period_size (pp_config p)) rate (pc_rate (pp_config p))) /\
     (pc_rate (pp_config p) = 48000 -> majoring (pc_period_size (pp_config p)) rate (pc_rate (pp_config p))
       (size_frames (pc_period_size (pp_config p)) rate (pc_rate (pp_config p)))) /\
     0 < size_frames (pc_period_size (pp_config p)) rate (pc_rate (pp_config p)) <= 3072) as Hsize.
  { intros p Hc Hp. destruct (check_input_ok _ _ _ Hc) as (-> & Hch & Hrate).
    unfold get_input_buffer_size. rewrite Hc, Hp, Hb. cbn [negb Z.eqb]. split; [done|].
    destruct (get_pcm_device (st_profiles s) type devices) as [n|]; [|done]. cbn in Hp.
    destruct (Forall2_lookup_l _ _ _ _ _ (i_profiles _ _ IA) Hp) as (q & Hq & (_ & _ & _ & _ & Er & _ & Hper)).
    apply rounded_frames; [done | done|]. rewrite Er. by apply (profile_rates n). }
  split; [|intros p Hc Hp; eexists; by apply Hsize].
  destruct (decide (check_input_parameters rate format channels = 0)) as [Hc|Hc].
  2: { split; [by left|]. intros _. unfold get_input_buffer_size. by rewrite (proj2 (Z.eqb_neq _ _) Hc). }
  destruct (get_pcm_device (st_profiles s) type devices) as [n|] eqn:En.
  2: { split; [by right|]. intros _. unfold get_input_buffer_size. by rewrite Hc, En. }
  split; [|by intros [?|?]]. intros E. exfalso.
  rewrite (get_pcm_device_like act) in En by done.
  destruct (profile_exists act s n IA (get_pcm_device_lt _ _ _ En)) as (q & p & _ & Hp & _).
  destruct (Hsize p Hc Hp) as (Es & _ & _ & Hf). destruct (check_input_ok _ _ _ Hc) as (_ & Hch & _). nia.
Qed.
End Sizes.

(** A hotword stream that was started with a low latency at 48000 Hz leaves the
    PCM of hotwords a period of 512 frames; a period at 11025 Hz then lasts
    352.8 frames, and the size is that of 352. *)
Example not_majoring : size_frames 512 11025 16000 = 352 /\ ~ majoring 512 11025 16000 352.
Proof. split; [reflexivity | unfold majoring; lia]. Qed.

(** ** The sound devices that can be chosen *)

(** A device that is chosen has a mixer path. *)
Definition chosen (first last d : Z) : Prop :=
  d = SND_DEVICE_NONE \/ first <= d < last /\ is_Some (get_snd_device_name d).

Lemma chosen_named first last d :
  SND_DEVICE_MIN <= first -> last <= SND_DEVICE_MAX -> d = SND_DEVICE_NONE \/ first <= d < last -> chosen first last d.
Proof.
  unfold SND_DEVICE_MIN, SND_DEVICE_MAX. intros Hf Hl [-> | Hd]; [by left | right]. split; [done|].
  destruct (snd_device_name_ok d) as [name Hn]; [lia|]. by exists name.
Qed.

Lemma call_output_range tty_mode devices : 0 <= call_output_snd_device tty_mode devices < 13.
Proof.
  unfold call_output_snd_device.
  repeat match goal with |- context [if ?b then _ else _] => destruct b end; by vm_compute.
Qed.

(** In every mode and for every routing get_output_snd_device chooses no
    device or an output device, get_input_snd_device none or an input device,
    and what is chosen has a counter and a mixer path: the two directions never
    meet in the table. *)
Theorem snd_devices_typed a active devices out_device :
  chosen SND_DEVICE_OUT_BEGIN SND_DEVICE_OUT_END (get_output_snd_device a devices) /\
  chosen SND_DEVICE_IN_BEGIN SND_DEVICE_IN_END (input_snd_device a active out_device).
Proof.
  split; apply chosen_named; try done; [|exact (input_snd_device_range a active out_device)].
  assert (0 <= get_output_snd_device a devices < 13) as Hr.
  { destruct (decide (ad_mode a = AUDIO_MODE_IN_CALL)) as [Hm|Hm]; [|by apply output_snd_device_range].
    unfold get_output_snd_device. rewrite Hm, Z.eqb_refl.
    destruct (_ || _) eqn:E; [done|]. destruct (negb _); [apply call_output_range|].
    pose proof (output_snd_device_range (set_ad_mode 0 a) devices ltac:(done)) as Hx.
    unfold get_output_snd_device in Hx. by rewrite E in Hx. }
  unfold SND_DEVICE_NONE, SND_DEVICE_OUT_BEGIN, SND_DEVICE_OUT_END. lia.
Qed.
