(* ===== verification/AudioDsp.v ===== *)
(** * AudioDsp: the dsp contexts behind the audio HAL

    The functions of cras_dsp.c as the dsp of the HAL, and that they keep to
    the laws the HAL relies on where there is no ini file to be opened. *)

From S2P Require Import Prelude CString Float32 Dictionary Expr ExprEval DspIni Pipeline PipelineRun PipelineCreate CrasDsp AudioDefs AudioInv.

Section AudioDsp.
Context `{ModuleLib} (alloc : Z -> bool) (long_width : Z) (ofuel : nat).
Context (files : string -> option string).

(** apply_dsp: the pipeline of a context, where it has one, in place. *)
Definition pipeline_apply (id : nat) (xs : list Z) (st : dsp_state) : outcome (list Z * dsp_state) :=
  '(i, ctx) ← find_context id st;
  match c_pipeline ctx with
  | None => Done (xs, st)
  | Some p =>
      '(p, xs) ← cras_dsp_pipeline_apply p xs (length xs / 2);
      Done (xs, store_context i (set_pipeline (Some p) ctx) st)
  end.

#[export] Instance cras_contexts : DspContexts dsp_state := {
  dsp_init := cras_dsp_init alloc long_width ofuel files;
  dsp_context_new := fun rate purpose st =>
    '(id, st) ← cras_dsp_context_new rate purpose st; Done (Some id, st);
  dsp_set_variable := cras_dsp_set_variable;
  dsp_load_pipeline := cras_dsp_load_pipeline alloc ofuel;
  dsp_context_free := cras_dsp_context_free;
  dsp_pipeline_apply := pipeline_apply
}.

(** ** Without an ini file *)

Context (no_files : forall name, files name = None).

(** The contexts in [l], none of which has a pipeline. *)
Record plain_contexts (st : dsp_state) (l : gset nat) : Prop := {
  pc_inv : dsp_inv st;
  pc_ini : the_ini st = None;
  pc_none : all_contexts (fun ctx => c_pipeline ctx = None) st;
  pc_ids : forall id, id ∈ l <-> id ∈ (context_list st).*1
}.

Lemma find_context_in st id :
  id ∈ (context_list st).*1 -> exists i ctx, find_context id st = Done (i, ctx).
Proof.
  intros Hid. unfold find_context. destruct (find_idx _ (context_list st)) as [i|] eqn:E.
  - pose proof (find_idx_lt _ _ _ E) as Hlt. destruct (lookup_lt_is_Some_2 (context_list st) i Hlt) as [c Hc].
    exists i, (snd c). cbn. by rewrite Hc.
  - exfalso. apply list_elem_of_fmap in Hid as (c & -> & Hc). apply list_elem_of_lookup in Hc as [j Hj].
    assert (forall l : list (nat * cras_dsp_context), find_idx (fun c0 => fst c0 =? fst c)%nat l = None ->
      forall j, l !! j <> Some c) as Hn; [|by apply (Hn _ E j)].
    clear. induction l as [|x l IH]; intros E [|j] Hj; try done; cbn in *.
    + injection Hj as ->. by rewrite Nat.eqb_refl in E.
    + destruct (_ =? _)%nat; [done|]. destruct (find_idx _ l) eqn:El; [done|]. by apply (IH eq_refl j).
Qed.

Lemma plain_load n l :
  n = None -> Forall (fun c => c_pipeline (snd c) = None) l ->
  exists l', load_contexts alloc ofuel n l = Done l' /\ l'.*1 = l.*1 /\
    Forall (fun c => c_pipeline (snd c) = None) l'.
Proof.
  intros ->. induction l as [|[id ctx] l IH]; intros Hl; cbn; [by exists []|].
  apply list.Forall_cons in Hl as [Hc Hl]. destruct (IH Hl) as (l' & E & E1 & Hl').
  unfold load_context, prepare_pipeline. cbn in Hc |- *. rewrite Hc. cbn. rewrite E. cbn.
  exists ((id, set_pipeline None ctx) :: l'). split; [done|]. split; [cbn; by rewrite E1 | by constructor].
Qed.

Lemma plain_init st l name :
  plain_contexts st l -> exists st', cras_dsp_init alloc long_width ofuel files name st = Done st' /\ plain_contexts st' l.
Proof.
  intros [I Ei Hn Hid].
  destruct (plain_load None (context_list st) eq_refl Hn) as (l' & El & E1 & Hl').
  assert (cras_dsp_init alloc long_width ofuel files name st =
    Done (DspState (Some name) None l' (next_context st))) as E.
  { unfold cras_dsp_init, cras_dsp_reload_ini. cbn. rewrite no_files. cbn. by rewrite El, Ei. }
  eexists. split; [exact E|]. split; [|done|done|].
  - by apply (dsp_exec_inv alloc long_width ofuel files (OpInit name) st).
  - intros id. cbn. by rewrite E1.
Qed.

Lemma plain_new st l rate purpose :
  plain_contexts st l -> exists id st', cras_dsp_context_new rate purpose st = Done (id, st') /\
    id ∉ l /\ plain_contexts st' ({[id]} ∪ l).
Proof.
  intros [I Ei Hn Hid].
  assert (cras_dsp_context_new rate purpose st = Done (next_context st, DspState (ini_filename st) (the_ini st)
    (context_list st ++ [(next_context st, Context None new_env rate purpose)]) (S (next_context st)))) as E
    by (unfold cras_dsp_context_new; by rewrite new_env_eq).
  eexists _, _. split; [exact E|]. split.
  - rewrite Hid. intros Hin. apply list_elem_of_fmap in Hin as (c & Ec & Hc).
    pose proof (di_next _ I) as Hx. rewrite list.Forall_forall in Hx. specialize (Hx c Hc). lia.
  - split; [|done| |].
    + apply (dsp_exec_inv alloc long_width ofuel files (OpNew rate purpose) st); [done|].
      unfold dsp_exec. by rewrite E.
    + apply Forall_app. split; [done|]. by constructor.
    + intros id. cbn. rewrite fmap_app, elem_of_app, elem_of_union, elem_of_singleton. cbn.
      rewrite list_elem_of_singleton, Hid. tauto.
Qed.

Lemma plain_store st st' l i id ctx ctx' :
  plain_contexts st l -> context_list st !! i = Some (id, ctx) -> c_pipeline ctx' = None ->
  st' = store_context i ctx' st -> dsp_inv st' -> plain_contexts st' l.
Proof.
  intros [I Ei Hn Hid] Hi Hp -> I'. split; [done | done | by apply store_context_all|].
  intros x. cbn. rewrite Hid. change (map fst ?x) with (x.*1). by rewrite alter_fst.
Qed.

Lemma plain_found st l id :
  plain_contexts st l -> id ∈ l -> exists i ctx, find_context id st = Done (i, ctx) /\
    context_list st !! i = Some (id, ctx) /\ c_pipeline ctx = None /\ env_ok (c_env ctx).
Proof.
  intros [I Ei Hn Hid] Hl. apply Hid in Hl. destruct (find_context_in st id Hl) as (i & ctx & E).
  pose proof (find_context_spec _ _ _ _ E) as Hi. exists i, ctx. split; [done|]. split; [done|].
  pose proof (di_env _ I) as He. unfold all_contexts in *. rewrite Forall_lookup in Hn, He.
  split; [exact (Hn i _ Hi) | exact (He i _ Hi)].
Qed.

Lemma plain_set st l id key value :
  plain_contexts st l -> id ∈ l ->
  exists st', cras_dsp_set_variable id key value st = Done st' /\ plain_contexts st' l.
Proof.
  intros P Hl. destruct (plain_found st l id P Hl) as (i & ctx & E & Hi & Hp & He).
  destruct (set_at_map (c_env ctx) key (value_set_string value) He) as (env' & Eenv & _).
  assert (cras_dsp_set_variable id key value st = Done (store_context i (set_env env' ctx) st)) as Es.
  { unfold cras_dsp_set_variable. rewrite E. cbn. unfold cras_expr_env_set_variable_string.
    unfold set_at in Eenv. rewrite Eenv. done. }
  eexists. split; [exact Es|]. eapply (plain_store st _ l i id ctx (set_env env' ctx)); try done.
  apply (dsp_exec_inv alloc long_width ofuel files (OpSet id key value) st); [apply P | exact Es].
Qed.

Lemma plain_load_pipeline st l id :
  plain_contexts st l -> id ∈ l ->
  exists st', cras_dsp_load_pipeline alloc ofuel id st = Done st' /\ plain_contexts st' l.
Proof.
  intros P Hl. destruct (plain_found st l id P Hl) as (i & ctx & E & Hi & Hp & He).
  assert (cras_dsp_load_pipeline alloc ofuel id st = Done (store_context i (set_pipeline None ctx) st)) as Es.
  { unfold cras_dsp_load_pipeline, load_context. rewrite E, (pc_ini _ _ P). cbn. by rewrite Hp. }
  eexists. split; [exact Es|]. eapply (plain_store st _ l i id ctx (set_pipeline None ctx)); try done.
  apply (dsp_exec_inv alloc long_width ofuel files (OpLoad id) st); [apply P | exact Es].
Qed.

Lemma plain_free st l id :
  plain_contexts st l -> id ∈ l ->
  exists st', cras_dsp_context_free id st = Done st' /\ plain_contexts st' (l ∖ {[id]}).
Proof.
  intros P Hl. destruct (plain_found st l id P Hl) as (i & ctx & E & Hi & Hp & He).
  assert (cras_dsp_context_free id st = Done (set_contexts (delete i (context_list st)) st)) as Es.
  { unfold cras_dsp_context_free. rewrite E. cbn. by rewrite Hp. }
  eexists. split; [exact Es|]. pose proof P as [I Ei Hn Hid]. split; [|done| |].
  - by apply (dsp_exec_inv alloc long_width ofuel files (OpFree id) st).
  - unfold all_contexts in *. cbn. rewrite list.Forall_forall in Hn |- *. intros c Hc. apply Hn.
    apply list_elem_of_lookup in Hc as [j Hj]. rewrite list_lookup_delete in Hj.
    destruct (decide _) in Hj; by eapply list_elem_of_lookup_2.
  - intros x. rewrite elem_of_difference, elem_of_singleton, Hid. cbn.
    pose proof (di_ids _ I) as Hnd. rewrite delete_take_drop, fmap_app, elem_of_app.
    rewrite <- (take_drop_middle _ _ _ Hi) in Hnd. rewrite <- (take_drop_middle _ _ _ Hi) at 1.
    rewrite fmap_app, fmap_cons in *. rewrite elem_of_app, elem_of_cons. cbn in *.
    apply list.NoDup_app in Hnd as (_ & N2 & N3). apply list.NoDup_cons in N3 as [N3 _].
    split; [intros [[? | [? | ?]] ?]; auto; done|].
    intros [Hx | Hx]; split; auto; intros ->; [by apply (N2 id Hx); left | done].
Qed.

Lemma plain_apply st l id xs :
  plain_contexts st l -> id ∈ l -> pipeline_apply id xs st = Done (xs, st).
Proof.
  intros P Hl. destruct (plain_found st l id P Hl) as (i & ctx & E & _ & Hp & _).
  unfold pipeline_apply. rewrite E. cbn. by rewrite Hp.
Qed.

Lemma plain_new_ok st l rate purpose :
  plain_contexts st l -> exists c st', dsp_context_new rate purpose st = Done (c, st') /\
    match c with Some c => c ∉ l /\ plain_contexts st' ({[c]} ∪ l) | None => plain_contexts st' l end.
Proof.
  intros P. destruct (plain_new st l rate purpose P) as (id & st' & E & Hid & P').
  exists (Some id), st'. split; [|done].
  change (('(id, st) ← cras_dsp_context_new rate purpose st; Done (Some id, st)) = Done (Some id, st')). by rewrite E.
Qed.

Lemma plain_apply_ok st l id xs :
  plain_contexts st l -> id ∈ l ->
  exists ys st', dsp_pipeline_apply id xs st = Done (ys, st') /\ plain_contexts st' l.
Proof. intros P Hl. exists xs, st. split; [by apply (plain_apply st l) | done]. Qed.

#[export] Instance cras_contexts_ok : DspContextsOk dsp_state := {
  dsp_ok := plain_contexts;
  dsp_init_ok := plain_init;
  dsp_new_ok := plain_new_ok;
  dsp_set_ok := plain_set;
  dsp_load_ok := plain_load_pipeline;
  dsp_free_ok := plain_free;
  dsp_apply_ok := plain_apply_ok
}.

Lemma plain_start : plain_contexts dsp_start ∅.
Proof.
  split; [by repeat constructor | done | by constructor |]. intros id. cbn. split; set_solver.
Qed.
End AudioDsp.
