(* ===== verification/AudioSamples.v ===== *)
(** * AudioSamples: small runs of the audio HAL

    The theorems of the audio HAL at concrete states, over the dsp of cras_dsp.c
    without an ini file, and what calls do that are not legal. *)

From S2P Require Import Prelude CString Float32 Dictionary Expr ExprEval DspIni DspGraph DspConnect DspUtil Biquad Eq Pipeline PipelineRun PipelineCreate ModBuiltin PipelineSamples CrasDsp AudioDefs AudioDevices AudioStreams AudioData AudioHw AudioBook AudioInv AudioFrame AudioOut AudioWrite AudioIn AudioInRun AudioSafe AudioClient AudioRead AudioReading AudioDsp AudioSafety AudioSizes.

Open Scope Z_scope.

(** ** A system where everything works

    But for the resamplers, whose creation has the result [resampler], and the
    sound trigger library, which gives [hotword] bytes. *)

#[local] Instance sample_lib : AudioLib := {|
  audio_channel_count_from_in_mask := popcount;
  audio_channel_count_from_out_mask := popcount;
  audio_bytes_per_sample := fun _ => 2;
  in_frame_size := fun mask _ => 2 * popcount mask;
  out_frame_size := fun mask _ => 2 * popcount mask;
  adjust_channels := fun xs _ _ => xs;
  misread := fun o => InView 0 (so_devices o) 0 false (so_usecase o)
|}.

Definition system_with (resampler hotword : Z) : AudioEnv := {|
  mixer_open_answer := fun n => negb (Nat.eqb n 0);
  audio_route_init_answer := fun _ => true;
  pcm_open_answer := fun _ => Ready;
  create_resampler_answer := fun _ => resampler;
  pcm_read_answer := fun n => (0, [Z.of_nat n; 1; 2; 3]);
  pcm_write_answer := fun _ => 0;
  pcm_htimestamp_answer := fun _ => (0, 0);
  st_open_answer := fun _ => 1;
  st_read_answer := fun _ => hotword;
  effect_descriptor_answer := fun _ => 0;
  effect_command_answer := fun _ => (0, 0)
|}.
#[local] Instance sample_system : AudioEnv := system_with 0 4.

Definition no_file (name : string) : option string := None.

#[local] Instance sample_contexts : DspContexts dsp_state := cras_contexts (fun _ => true) 64 4 no_file.
#[local] Instance sample_contexts_ok : DspContextsOk dsp_state :=
  cras_contexts_ok (fun _ => true) 64 4 no_file (fun _ => eq_refl).

Definition no_provider (next : Z -> M dsp_state (option (list Z * Z))) (release : Z -> M dsp_state unit)
    (n : Z) : M dsp_state (list Z * Z) := mret ([], n).
Definition no_resample (xs : list Z) (n m : Z) : list Z * Z := (xs, n).
Definition no_effect (effect : nat) (xs : list Z) (n m : Z) : Z * (list Z * Z) := (n, (xs, n)).

Abbreviation sample_call := (run_call no_provider no_resample no_effect).
Abbreviation sample_reach := (reach no_provider no_resample no_effect).

Definition value (o : outcome (unit * state dsp_state)) : state dsp_state :=
  match o with Done (_, s) => s | _ => initial_state dsp_start end.

Definition booted : state dsp_state :=
  match adev_open "audio_hw_if" true (initial_state dsp_start) with Done (_, s) => s | _ => initial_state dsp_start end.

Definition stereo : audio_config := AudioConfig 48000 3 AUDIO_FORMAT_PCM_16_BIT.

(** An output and an input are opened. *)
Definition with_output : state dsp_state :=
  value (sample_call (OpenOutput AUDIO_DEVICE_OUT_SPEAKER AUDIO_OUTPUT_FLAG_PRIMARY stereo) booted).
Definition with_streams : state dsp_state :=
  value (sample_call (OpenInput AUDIO_DEVICE_IN_BUILTIN_MIC stereo 0 AUDIO_SOURCE_MIC) with_output).

Lemma sample_resamplers : resamplers_ok.
Proof. by intros n. Qed.
Lemma sample_memory : memory_ok.
Proof. by intros n. Qed.

Example sample_handles :
  (map_to_list (st_outs with_streams)).*1 = [0%nat] /\ (map_to_list (st_ins with_streams)).*1 = [1%nat].
Proof. vm_compute. done. Qed.

(** The input was read, and the output written to, which resets the input. *)
Definition reading_stream : state dsp_state := value (sample_call (Read 1 16) with_streams).
Definition both : state dsp_state := value (sample_call (Write 0 [5; 6; 7; 8] 8) reading_stream).

Definition finished {A} (o : outcome A) : bool := match o with Done _ => true | _ => false end.

Lemma sample_step c s :
  finished (sample_call c s) = true -> sample_call c s = Done (tt, value (sample_call c s)).
Proof. by destruct (sample_call c s) as [[[] s']| |]. Qed.

Lemma reach_booted : sample_reach booted.
Proof.
  assert (fst <$> (match adev_open "audio_hw_if" true (initial_state dsp_start) with Done a => Some a | _ => None end) =
    Some 0) as E by (vm_compute; reflexivity).
  apply (reach_open _ _ _ dsp_start "audio_hw_if" true); [exact (plain_start no_file (fun _ => eq_refl))|].
  unfold booted. destruct (adev_open _ _ _) as [[r s]| |]; [|done..]. cbn in E. congruence.
Qed.

Lemma reach_next c s : sample_reach s -> legal c s -> finished (sample_call c s) = true ->
  sample_reach (value (sample_call c s)).
Proof. intros Hr Hl Hf. apply (reach_call _ _ _ c s); [done | done | by apply sample_step]. Qed.

Lemma fresh_outputs (m : gmap nat stream_out) (P : stream_out -> Prop) : m = ∅ -> forall h o, m !! h = Some o -> P o.
Proof. by intros -> h o. Qed.
Lemma fresh_inputs (m : gmap nat stream_in) (P : stream_in -> Prop) : m = ∅ -> forall h i, m !! h = Some i -> P i.
Proof. by intros -> h i. Qed.

Lemma reach_output : sample_reach with_output.
Proof.
  apply reach_next; [exact reach_booted | | vm_compute; reflexivity].
  refine (fresh_outputs _ _ _). vm_compute. reflexivity.
Qed.

Lemma reach_streams : sample_reach with_streams.
Proof.
  apply reach_next; [exact reach_output | | vm_compute; reflexivity].
  refine (fresh_inputs _ _ _). vm_compute. reflexivity.
Qed.

Lemma read_legal : legal (Read 1 16) with_streams.
Proof.
  split; [done|]. destruct (st_ins with_streams !! 1%nat) as [i|] eqn:E; [|by vm_compute in E].
  exists i. split; [done|]. vm_compute in E. injection E as <-. split; [|done]. by intros _.
Qed.

Lemma reach_reading : sample_reach reading_stream.
Proof. apply reach_next; [exact reach_streams | exact read_legal | vm_compute; reflexivity]. Qed.

Lemma write_legal : legal (Write 0 [5; 6; 7; 8] 8) reading_stream.
Proof.
  destruct (st_outs reading_stream !! 0%nat) as [o|] eqn:E; [|by vm_compute in E].
  exists o. split; [done|]. vm_compute in E. injection E as <-. done.
Qed.

Lemma reach_both : sample_reach both.
Proof.
  apply reach_next; [exact reach_reading | | vm_compute; reflexivity]. exact write_legal.
Qed.

(** ** The theorems there *)


Lemma devices_counted_witness :
  ad_ref_cnt (st_adev both) !! 2%nat = Some 1 /\ "speaker"%string ∈ live both.
Proof.
  destruct (devices_counted no_provider no_resample no_effect both
    SND_DEVICE_OUT_SPEAKER "speaker" sample_resamplers sample_memory reach_both eq_refl) as [Hc Hl].
  assert (users both SND_DEVICE_OUT_SPEAKER = 1) as E by (vm_compute; reflexivity). rewrite E in Hc.
  split; [exact Hc|]. apply Hl. exists SND_DEVICE_OUT_SPEAKER. rewrite E. split; reflexivity.
Defined.

(** The output goes to standby, too. *)
Definition silent : state dsp_state := value (sample_call (StandbyOutput 0) both).

Lemma reach_silent : sample_reach silent.
Proof.
  apply reach_next; [exact reach_both | | vm_compute; reflexivity].
  cbn. unfold an_output. vm_compute. by eexists.
Qed.

Lemma singleton_all {A} (m : gmap nat A) (f : A -> bool) h x :
  map_to_list m = [(h, x)] -> f x = true -> forall k y, m !! k = Some y -> f y = true.
Proof.
  intros Hm Hf k y Hy. apply elem_of_map_to_list in Hy. rewrite Hm in Hy.
  apply list_elem_of_singleton in Hy. by injection Hy as -> ->.
Qed.

Lemma silent_standby : all_standby silent.
Proof. split; intros h x; eapply singleton_all; by vm_compute. Qed.

Lemma standby_leaves_nothing_witness :
  ad_usecases (st_adev silent) = [] /\ k_pcms (st_kernel silent) = ∅ /\ "speaker"%string ∉ live silent.
Proof.
  destruct (standby_leaves_nothing no_provider no_resample no_effect silent
    sample_resamplers sample_memory reach_silent silent_standby) as (Hu & _ & Hl & Hp & _).
  split; [exact Hu|]. split; [exact Hp|]. exact (Hl SND_DEVICE_OUT_SPEAKER "speaker"%string eq_refl).
Defined.

Lemma open_pcms_owned_witness : exists h, has_pcm both h 1 /\ forall h', has_pcm both h' 1 -> h' = h.
Proof.
  apply (open_pcms_owned no_provider no_resample no_effect both 1 sample_resamplers sample_memory reach_both).
  vm_compute. done.
Defined.

Lemma input_buffer_sizes_witness :
  get_input_buffer_size (st_profiles booted) 44100 AUDIO_FORMAT_PCM_16_BIT 2 PCM_CAPTURE AUDIO_DEVICE_IN_BUILTIN_MIC <> 0.
Proof.
  intros E. apply (input_buffer_sizes no_provider no_resample no_effect booted
    44100 AUDIO_FORMAT_PCM_16_BIT 2 PCM_CAPTURE AUDIO_DEVICE_IN_BUILTIN_MIC sample_resamplers sample_memory reach_booted eq_refl) in E as [Hc|Hn].
  - apply Hc. reflexivity.
  - by vm_compute in Hn.
Defined.

Lemma sample_readable i : st_ins reading_stream !! 1%nat = Some i -> readable 1 4 reading_stream i.
Proof.
  intros Hi. pose proof Hi as E. vm_compute in E. injection E as <-. split.
  - exact Hi.
  - vm_compute. do 4 eexists. split_and!; reflexivity.
  - vm_compute. intuition congruence.
  - reflexivity.
  - reflexivity.
  - reflexivity.
Qed.

Lemma read_frames_gives_witness :
  exists r s', read_frames no_provider 4 1 4 reading_stream = Done (r, s') /\ fst r = 4.
Proof.
  destruct (st_ins reading_stream !! 1%nat) as [i|] eqn:Hi; [|by vm_compute in Hi].
  destruct (read_frames_gives no_provider 1 4 eq_refl reading_stream i 4 4 (sample_readable i Hi)
    ltac:(split; intros E; discriminate E)) as (r & s' & j & i' & E & _ & _ & [(Hr & _)|(_ & Hrc & _)]).
  - exists r, s'. split; [exact E | exact Hr].
  - exfalso. apply Hrc. reflexivity.
Defined.

Definition result_of {A S} (o : outcome (A * S)) : option A := match o with Done (a, _) => Some a | _ => None end.

Lemma write_delivers_witness :
  exists s', out_write_data no_resample 0 [7; 8; 9; 10] 8 both = Done (0, s') /\
    k_written (st_kernel s') = k_written (st_kernel both) ++ [(1%nat, [7; 8; 9; 10])].
Proof.
  destruct (st_outs both !! 0%nat) as [o|] eqn:Ho; [|by vm_compute in Ho].
  pose proof Ho as E. vm_compute in E.
  assert (exists d p c, so_pcm_devs o = Some [d] /\ pd_resampler d = false /\ pd_pcm d = Some 1%nat /\
    st_profiles both !! pd_profile d = Some p /\ pd_dsp d = Some c /\ c = 0%nat /\ so_muted o = false)
    as (d & p & c & Ed & Er & En & Hp & Ec & -> & Em).
  { injection E as <-. do 3 eexists. split_and!; vm_compute; reflexivity. }
  assert (result_of (dsp_pipeline_apply 0 [7; 8; 9; 10] (st_dsp both)) = Some [7; 8; 9; 10]) as Ey
    by (vm_compute; reflexivity).
  destruct (dsp_pipeline_apply 0 [7; 8; 9; 10] (st_dsp both)) as [[ys y]| |] eqn:Ea; [|done..].
  injection Ey as ->.
  destruct (write_delivers no_resample both 0 o d 1 p [7; 8; 9; 10] 8 [7; 8; 9; 10] y Ho Ed Er En)
    as (s' & o' & Es & _ & _ & _ & _ & Hok & _); [vm_compute; done | exact Hp | by rewrite Em; unfold filtered; rewrite Ec|].
  exists s'. split; [exact Es|]. destruct (Hok eq_refl) as [-> _]. do 3 f_equal.
  unfold remixed. by destruct (_ =? _).
Defined.

(** ** Calls that are not legal *)

Fixpoint run_calls (env : AudioEnv) (l : list call) (s : state dsp_state) : outcome (state dsp_state) :=
  match l with
  | [] => Done s
  | c :: l => '(_, s) ← run_call (H0 := env) no_provider no_resample no_effect c s; run_calls env l s
  end.

Definition faults {A} (o : outcome A) : bool := match o with Fault => true | _ => false end.

(** Whether a run ends in a state with a property. *)
Definition satisfies (p : state dsp_state -> bool) (o : outcome (state dsp_state)) : bool :=
  match o with Done s => p s | _ => false end.

Definition in_use (standby : bool) (usecases pcms : nat) (s : state dsp_state) : bool :=
  forallb (fun x => Bool.eqb standby (si_standby (snd x))) (map_to_list (st_ins s)) &&
  Nat.eqb (length (ad_usecases (st_adev s))) usecases && Nat.eqb (size (k_pcms (st_kernel s))) pcms.

Definition speaker : call := OpenOutput AUDIO_DEVICE_OUT_SPEAKER 0 stereo.
Definition primary : call := OpenOutput AUDIO_DEVICE_OUT_SPEAKER AUDIO_OUTPUT_FLAG_PRIMARY stereo.
Definition microphone (rate source : Z) : call :=
  OpenInput AUDIO_DEVICE_IN_BUILTIN_MIC (AudioConfig rate 3 AUDIO_FORMAT_PCM_16_BIT) 0 source.
Definition hotwords : call := OpenInput AUDIO_DEVICE_IN_BUILTIN_MIC stereo 0 AUDIO_SOURCE_HOTWORD.

(** What makes a call legal cannot be dropped.  Two outputs of one kind,
    which adev_open_output_stream allows while neither plays, share the node of
    a mixer list, and the one that stops first leaves the other with a pointer
    to a freed head; so do two inputs.  Closing the primary output leaves the
    device with a pointer to it, which the next recording for a communication
    follows.  An error of the sound trigger library is taken for a number of
    bytes, and a read of hotwords with a muted microphone clears that many.
    Asking an output for its presentation position before it was written to
    follows a null pointer. *)
Theorem illegal_calls_fault :
  faults (run_calls sample_system [speaker; speaker; Write 0 [1; 2] 4; Write 1 [1; 2] 4; StandbyOutput 0] booted) = true /\
  faults (run_calls sample_system
    [microphone 48000 AUDIO_SOURCE_MIC; microphone 48000 AUDIO_SOURCE_MIC; Read 0 16; Read 1 16; StandbyInput 0] booted) = true /\
  faults (run_calls sample_system
    [primary; microphone 48000 AUDIO_SOURCE_VOICE_COMMUNICATION; CloseOutput 0; Read 1 16] booted) = true /\
  faults (run_calls (system_with 0 (- EINVAL)) [hotwords; SetMicMute true; Read 0 16] booted) = true /\
  faults (out_get_presentation_position 0 with_output) = true.
Proof. split_and!; vm_compute; reflexivity. Qed.

(** The resampler cannot be made. *)
Definition low_rate : list call := [microphone 16000 AUDIO_SOURCE_MIC; Read 0 16].

(** When the resampler of an input cannot be created, start_input_stream
    returns the error with the PCM open and the use case in the list, and the
    stream stays in standby, so that nothing gives them back: reading again
    opens a second PCM and a second use case, and after the stream is closed
    another input that starts follows the pointer of its use case to it. *)
Theorem resampler_failure_leaks :
  let failing := system_with (-12) 4 in
  satisfies (in_use true 1 1) (run_calls failing low_rate booted) = true /\
  satisfies (in_use true 2 2) (run_calls failing (low_rate ++ [Read 0 16]) booted) = true /\
  faults (run_calls failing (low_rate ++ [CloseInput 0; microphone 48000 AUDIO_SOURCE_MIC; Read 1 16]) booted) = true.
Proof. cbn zeta. split_and!; vm_compute; reflexivity. Qed.
