(* ===== verification/SeparateRects.v ===== *)
(** * SeparateRects: rectangles that do not overlap, drm_hwcomposer/separate_rects

    The line sweep of separate_rects.cpp for rectangles of integers and sets of
    64 identifiers, as separate_rects_64 has it.  A std::set and a std::map are
    lists in the order of their comparison; erasing what was not found (an
    assertion) is undefined.  Of numbers the code makes copies and comparisons
    only.

    The theorem is [separate_rects_partition]: the rectangles put out do not
    overlap, cover what the input covers, and name the rectangles of the input
    that cover them.  Its lemmas are about the containers, about the edges of
    intervals that a sweep meets in order (used for the sweep itself and for
    the sweep line at a stop), and about one stop of the sweep line. *)

From S2P Require Import Prelude.
From stdpp Require Import sorting.

Open Scope Z_scope.

(** ** The containers *)

Section Sets.
Context {A : Type} (lt : A -> A -> bool).

(** std::set::insert: an element that compares equal is kept. *)
Fixpoint set_insert (x : A) (l : list A) : list A :=
  match l with
  | [] => [x]
  | y :: l => if lt x y then x :: y :: l else if lt y x then y :: set_insert x l else y :: l
  end.

(** find followed by erase; [None] when find gives end(). *)
Fixpoint set_erase (x : A) (l : list A) : option (list A) :=
  match l with
  | [] => None
  | y :: l => if lt x y then None else if lt y x then cons y <$> set_erase x l else Some l
  end.

(** A map to booleans: the value of a key is set to true. *)
Fixpoint map_set_true (x : A) (m : list (A * bool)) : list (A * bool) :=
  match m with
  | [] => [(x, true)]
  | (y, b) :: m =>
      if lt x y then (x, true) :: (y, b) :: m
      else if lt y x then (y, b) :: map_set_true x m else (y, true) :: m
  end.
End Sets.

(** ** The data *)

Record Rect : Type := MkRect { left : Z; top : Z; right : Z; bottom : Z }.

(** IdSet<uint64_t>. *)
Definition IdSet : Type := Z.
Definition id_bit (id : nat) : Z := u64 (Z.shiftl 1 (Z.of_nat id)).
Definition id_add (s : IdSet) (id : nat) : IdSet := Z.lor s (id_bit id).
Definition id_subtract (s : IdSet) (id : nat) : IdSet := Z.land s (u64 (Z.lnot (id_bit id))).
Definition isEmpty (s : IdSet) : bool := s =? 0.
Definition max_elements : Z := 64.

Record RectSet : Type := MkRectSet { id_set : IdSet; rect : Rect }.

Variant EventType : Type := START | END.

#[export] Instance EventType_eq_dec : EqDecision EventType.
Proof. solve_decision. Defined.

(** [ev_at] is the field x, or y. *)
Record SweepEvent : Type := MkEvent { ev_type : EventType; ev_at : Z; rect_id : nat }.

Definition event_lt (a b : SweepEvent) : bool :=
  (ev_at a <? ev_at b) || ((ev_at a =? ev_at b) && (rect_id a <? rect_id b)%nat).

Record StartedRect : Type := MkStarted { st_ids : IdSet; st_left : Z; st_top : Z; st_bottom : Z }.

Definition started_lt (a b : StartedRect) : bool :=
  ((st_top a <? st_top b) || ((st_top a =? st_top b) && (st_bottom a <? st_bottom b))) ||
  ((st_top a =? st_top b) && (st_bottom a =? st_bottom b) && (st_ids a <? st_ids b)).

(** ** The sweep *)

(** The first pass: the left and right edges of the rectangles that are not empty. *)
Fixpoint h_events_loop (i : nat) (l : list Rect) (sweep_h_events : list SweepEvent) : list SweepEvent :=
  match l with
  | [] => sweep_h_events
  | r :: l =>
      h_events_loop (S i) l
        (if (right r <=? left r) || (bottom r <=? top r) then sweep_h_events
         else set_insert event_lt (MkEvent END (right r) i)
                (set_insert event_lt (MkEvent START (left r) i) sweep_h_events))
  end.

(** Marking up the sweep line with a vertical edge. *)
Definition mark (rects : list Rect) (h_evt : SweepEvent) (sweep_v_events : list SweepEvent) : outcome (list SweepEvent) :=
  r ← access (rects !! rect_id h_evt);
  let start := MkEvent START (top r) (rect_id h_evt) in
  let end_ := MkEvent END (bottom r) (rect_id h_evt) in
  match ev_type h_evt with
  | START => Done (set_insert event_lt end_ (set_insert event_lt start sweep_v_events))
  | END => v ← access (set_erase event_lt start sweep_v_events); access (set_erase event_lt end_ v)
  end.

(** The end of the list of regions: the region that starts at y has the set. *)
Definition push_region (y : Z) (s : IdSet) (regions : list (Z * IdSet)) : list (Z * IdSet) :=
  match last regions with
  | Some (y', _) => if y' =? y then take (length regions - 1) regions ++ [(y', s)] else regions ++ [(y, s)]
  | None => regions ++ [(y, s)]
  end.

Fixpoint active_loop (sweep_v_events : list SweepEvent) (active_set : IdSet) (regions : list (Z * IdSet))
    : list (Z * IdSet) :=
  match sweep_v_events with
  | [] => regions
  | e :: v =>
      let active_set := match ev_type e with
                        | START => id_add active_set (rect_id e)
                        | END => id_subtract active_set (rect_id e)
                        end in
      active_loop v active_set (push_region (ev_at e) active_set regions)
  end.

(** Every region with rectangles continues a started rectangle or starts one. *)
Fixpoint visit_regions (x : Z) (regions : list (Z * IdSet)) (started : list (StartedRect * bool))
    : outcome (list (StartedRect * bool)) :=
  match regions with
  | [] => Done started
  | (region_top, region_set) :: regions =>
      if isEmpty region_set then visit_regions x regions started
      else
        match regions with
        | [] => Fault
        | (region_bottom, _) :: _ =>
            visit_regions x regions
              (map_set_true started_lt (MkStarted region_set x region_top region_bottom) started)
        end
  end.

(** The started rectangles that were not seen end here. *)
Fixpoint end_unseen (x : Z) (started : list (StartedRect * bool)) (out : list RectSet)
    : list (StartedRect * bool) * list RectSet :=
  match started with
  | [] => ([], out)
  | (k, true) :: started =>
      let '(m, out) := end_unseen x started out in ((k, true) :: m, out)
  | (k, false) :: started =>
      end_unseen x started (out ++ [MkRectSet (st_ids k) (MkRect (st_left k) (st_top k) x (st_bottom k))])
  end.

(** What is done at the last vertical edge of a coordinate. *)
Definition sweep_stop (x : Z) (sweep_v_events : list SweepEvent) (started : list (StartedRect * bool))
    (out : list RectSet) : outcome (list (StartedRect * bool) * list RectSet) :=
  let active_regions := active_loop sweep_v_events 0 [] in
  started ← visit_regions x active_regions ((fun p => (fst p, false)) <$> started);
  Done (end_unseen x started out).

Definition next_at (h : list SweepEvent) : option Z := ev_at <$> head h.

Fixpoint sweep (rects : list Rect) (sweep_h_events sweep_v_events : list SweepEvent)
    (started : list (StartedRect * bool)) (out : list RectSet) : outcome (list RectSet) :=
  match sweep_h_events with
  | [] => Done out
  | h_evt :: h =>
      v ← mark rects h_evt sweep_v_events;
      if bool_decide (next_at h = Some (ev_at h_evt)) then sweep rects h v started out
      else
        '(started, out) ← sweep_stop (ev_at h_evt) v started out;
        sweep rects h v started out
  end.

Definition separate_rects (rects : list Rect) (out : list RectSet) : outcome (list RectSet) :=
  if max_elements <? Z.of_nat (length rects) then Done out
  else sweep rects (h_events_loop 0 rects []) [] [] out.

Definition separate_rects_64 := separate_rects.

(** The rectangles of the test in the source. *)
Definition test_rects : list Rect :=
  [MkRect 0 0 4 5; MkRect 2 0 6 6; MkRect 4 0 8 5; MkRect 0 7 8 9;
   MkRect 10 0 18 5; MkRect 12 0 16 5; MkRect 20 11 24 17; MkRect 22 13 26 21;
   MkRect 32 33 36 37; MkRect 30 31 38 39; MkRect 40 43 48 45; MkRect 44 41 46 47;
   MkRect 50 51 52 53; MkRect 50 51 52 53; MkRect 50 51 52 53;
   MkRect 0 0 0 10; MkRect 0 0 10 0; MkRect 10 0 0 10; MkRect 0 10 10 0].

Definition expected : list RectSet :=
  (fun '(ids, r) => MkRectSet (foldl id_add 0 ids) r) <$>
  [([0]%nat, MkRect 0 0 2 5); ([1]%nat, MkRect 2 5 6 6);
   ([1; 0]%nat, MkRect 2 0 4 5); ([1; 2]%nat, MkRect 4 0 6 5);
   ([2]%nat, MkRect 6 0 8 5); ([3]%nat, MkRect 0 7 8 9);
   ([4]%nat, MkRect 10 0 12 5); ([5; 4]%nat, MkRect 12 0 16 5);
   ([4]%nat, MkRect 16 0 18 5); ([6]%nat, MkRect 20 11 22 17);
   ([6; 7]%nat, MkRect 22 13 24 17); ([6]%nat, MkRect 22 11 24 13);
   ([7]%nat, MkRect 22 17 24 21); ([7]%nat, MkRect 24 13 26 21);
   ([9]%nat, MkRect 30 31 32 39); ([8; 9]%nat, MkRect 32 33 36 37);
   ([9]%nat, MkRect 32 37 36 39); ([9]%nat, MkRect 32 31 36 33);
   ([9]%nat, MkRect 36 31 38 39); ([10]%nat, MkRect 40 43 44 45);
   ([10; 11]%nat, MkRect 44 43 46 45); ([11]%nat, MkRect 44 41 46 43);
   ([11]%nat, MkRect 44 45 46 47); ([10]%nat, MkRect 46 43 48 45);
   ([12; 13; 14]%nat, MkRect 50 51 52 53)].

#[export] Instance Rect_eq_dec : EqDecision Rect.
Proof. solve_decision. Defined.

#[export] Instance RectSet_eq_dec : EqDecision RectSet.
Proof. solve_decision. Defined.

(** The test: no rectangle is missing and none is extra. *)
Definition separate_rects_test : bool :=
  match separate_rects test_rects [] with
  | Done out => forallb (fun r => bool_decide (r ∈ out)) expected && forallb (fun r => bool_decide (r ∈ expected)) out
  | _ => false
  end.

Example separate_rects_test_passes : separate_rects_test = true.
Proof. vm_compute. reflexivity. Qed.

(** ** Containers in order *)

Notation in_order lt := (StronglySorted (fun a b => lt a b = true)).

Section SetsInOrder.
Context {A : Type} (lt : A -> A -> bool).
Context (lt_irrefl : forall a, lt a a = false).
Context (lt_trans : forall a b c, lt a b = true -> lt b c = true -> lt a c = true).

Lemma lt_asym a b : lt a b = true -> lt b a = false.
Proof.
  intros H. destruct (lt b a) eqn:E; [|done].
  pose proof (lt_trans _ _ _ H E). by rewrite lt_irrefl in *.
Qed.

Lemma in_order_cons x l : in_order lt (x :: l) <-> in_order lt l /\ (forall y, y ∈ l -> lt x y = true).
Proof.
  split.
  - intros [? H]%StronglySorted_inv. split; [done|]. by apply Forall_forall.
  - intros [? H]. constructor; [done|]. by apply Forall_forall.
Qed.

Lemma in_order_notin x l : in_order lt (x :: l) -> x ∉ l.
Proof. intros [_ H]%in_order_cons Hx. specialize (H x Hx). by rewrite lt_irrefl in H. Qed.

Lemma elem_of_set_insert x l y :
  (forall z, z ∈ l -> lt x z = true \/ lt z x = true) ->
  y ∈ set_insert lt x l <-> y = x \/ y ∈ l.
Proof.
  induction l as [|z l IH]; cbn; intros Hne; [by rewrite list_elem_of_singleton, elem_of_nil; tauto|].
  destruct (lt x z) eqn:E1; [by rewrite !elem_of_cons|]. destruct (lt z x) eqn:E2.
  - rewrite !elem_of_cons, IH by (intros; apply Hne; by right). tauto.
  - destruct (Hne z); [left|congruence..].
Qed.

Lemma set_insert_in_order x l : in_order lt l -> in_order lt (set_insert lt x l).
Proof.
  assert (Hsub : forall y l, y ∈ set_insert lt x l -> y = x \/ y ∈ l).
  { intros y l'. induction l' as [|z l' IH]; cbn; [set_solver|]. repeat case_match; set_solver. }
  induction l as [|y l IH]; [repeat constructor|]. intros [Hl Hy]%in_order_cons. cbn.
  destruct (lt x y) eqn:E1; [|destruct (lt y x) eqn:E2]; rewrite !in_order_cons; [set_solver| |done].
  split; [auto|]. intros z [-> | Hz]%Hsub; auto.
Qed.

Lemma set_erase_Some x l : in_order lt l -> x ∈ l ->
  exists l', set_erase lt x l = Some l' /\ in_order lt l' /\ (forall y, y ∈ l' <-> y ∈ l /\ y <> x).
Proof.
  induction l as [|y l IH]; intros Hl Hx; [set_solver|]. cbn.
  pose proof (in_order_notin _ _ Hl) as Hn. apply in_order_cons in Hl as [Hl Hy].
  apply elem_of_cons in Hx as [-> | Hx].
  - rewrite lt_irrefl. exists l. set_solver.
  - rewrite (lt_asym y x), Hy by auto. destruct (IH Hl Hx) as (l' & -> & Hl' & Hel). exists (y :: l').
    rewrite in_order_cons. repeat split; set_solver.
Qed.

(** The entries of a map after the values of some keys were set: the keys are
    those that were there and, of the new ones, those that no other is the same as. *)
Definition same (a b : A) : Prop := lt a b = false /\ lt b a = false.
Context (same_l : forall a b c, same a b -> lt a c = lt b c).

Definition ordered_map (m : list (A * bool)) : Prop := in_order lt m.*1.

Record set_true_spec (m : list (A * bool)) (K : list A) (m' : list (A * bool)) : Prop := {
  sts_order : ordered_map m';
  sts_true : forall k, (k, true) ∈ m' -> ((k, true) ∈ m \/ exists q, q ∈ K /\ same k q) /\ (k ∈ m.*1 \/ k ∈ K);
  sts_false : forall k, (k, false) ∈ m' -> (k, false) ∈ m /\ (forall q, q ∈ K -> ~ same k q);
  sts_kept : forall k, k ∈ m.*1 -> k ∈ m'.*1;
  sts_still : forall k, (k, true) ∈ m -> (k, true) ∈ m';
  sts_set : forall q, q ∈ K -> exists k, (k, true) ∈ m' /\ same k q
}.

Lemma same_refl a : same a a.
Proof. by split; apply lt_irrefl. Qed.

Lemma map_set_true_keys x m k : k ∈ (map_set_true lt x m).*1 -> k = x \/ k ∈ m.*1.
Proof.
  induction m as [|[y b] m IH]; cbn; [by rewrite elem_of_cons|].
  destruct (lt x y), (lt y x); cbn; rewrite !elem_of_cons in *; tauto.
Qed.

Lemma map_set_true_ordered x m : ordered_map m -> ordered_map (map_set_true lt x m).
Proof.
  unfold ordered_map. induction m as [|[y b] m IH]; [repeat constructor|]. cbn.
  intros [Hl Hy]%in_order_cons.
  destruct (lt x y) eqn:E1; [|destruct (lt y x) eqn:E2]; cbn; rewrite !in_order_cons; [|split; [by apply IH|]|done].
  - split; [done|]. cbn. intros z [-> | Hz]%elem_of_cons; eauto.
  - intros z [-> | Hz]%map_set_true_keys; auto.
Qed.

(** The key is found in its place, or is put there. *)
Lemma map_set_true_cases x m : ordered_map m ->
  exists m1 m2 : list (A * bool), (forall k, k ∈ m1.*1 ++ m2.*1 -> ~ same k x) /\
    ((exists y b, same y x /\ m = m1 ++ (y, b) :: m2 /\ map_set_true lt x m = m1 ++ (y, true) :: m2) \/
     (m = m1 ++ m2 /\ map_set_true lt x m = m1 ++ (x, true) :: m2)).
Proof.
  unfold same. induction m as [|[y b] m IH]; [exists [], []; split; [set_solver|by right]|].
  intros [Hl Hy]%in_order_cons. cbn.
  destruct (lt x y) eqn:E1; [|destruct (lt y x) eqn:E2].
  - exists [], ((y, b) :: m). split; [|by right]. cbn. intros k [-> | Hk]%elem_of_cons; [intuition congruence|].
    intros [_ H]. by rewrite (lt_trans x y k) in H by auto.
  - destruct (IH Hl) as (m1 & m2 & Hno & Hcase). exists ((y, b) :: m1), m2. split.
    { cbn. intros k [-> | Hk]%elem_of_cons; [intuition congruence|by apply Hno]. }
    destruct Hcase as [(z & c & ? & -> & ->)|[-> ->]]; [left; by exists z, c|by right].
  - exists [], m. split; [|left; by exists y, b]. cbn. intros k Hk [_ H].
    rewrite (same_l x y k), Hy in H by done. done.
Qed.

Lemma elem_of_keys (k : A) (b : bool) m : (k, b) ∈ m -> k ∈ m.*1.
Proof. intros H. by apply (list_elem_of_fmap_2 fst) in H. Qed.

Lemma map_set_true_step x m : ordered_map m -> set_true_spec m [x] (map_set_true lt x m).
Proof.
  intros Hm. pose proof (map_set_true_ordered x m Hm) as Ho. pose proof (same_refl x) as Hx.
  destruct (map_set_true_cases x m Hm) as (m1 & m2 & Hno & [(y & b & Hy & -> & E)|[-> E]]);
    rewrite E in *; clear E; split; try done; intros k;
    rewrite ?fmap_app, ?fmap_cons; cbn in *; setoid_rewrite elem_of_app in Hno;
    rewrite ?elem_of_app, ?elem_of_cons.
  1, 6: intros [H|[[= ->]|H]]; split; eauto 9 using elem_of_keys, list_elem_of_here.
  1, 5: intros [H|[[=]|H]]; (split; [by eauto|]); intros q ->%list_elem_of_singleton; eauto using elem_of_keys.
  all: try tauto; try (intros [-> | []%elem_of_nil]; eexists; rewrite !elem_of_app, !elem_of_cons; by eauto).
  intros [H|[[=]|H]]; subst; eauto.
Qed.

Definition set_all (K : list A) (m : list (A * bool)) : list (A * bool) := foldl (fun m q => map_set_true lt q m) m K.

(** All the keys of a list, one after the other. *)
Lemma set_all_spec K m : ordered_map m -> set_true_spec m K (set_all K m).
Proof.
  revert m. induction K as [|q K IH]; intros m Hm; cbn.
  { split; eauto using elem_of_keys; try (by intros q []%elem_of_nil).
    intros k Hk. split; [done|]. by intros q []%elem_of_nil. }
  destruct (map_set_true_step q m Hm) as [Ho Ht Hf Hk Hs Hq].
  destruct (IH _ Ho) as [Ho' Ht' Hf' Hk' Hs' Hq']. clear IH. split; [done|intros k Hin..].
  - destruct (Ht' k Hin) as [H1 H2]. split.
    + destruct H1 as [([H1|(q' & ->%list_elem_of_singleton & ?)] & _)%Ht|(q' & ? & ?)]; [by left|right..].
      * exists q. split; [by left|done].
      * exists q'. split; [by right|done].
    + destruct H2 as [[-> | H2]%map_set_true_keys|]; [right; by left|by left|right; by right].
  - destruct (Hf' k Hin) as [[H1 H2]%Hf H3]. split; [done|].
    intros q' [-> | Hq2]%elem_of_cons; [|by apply H3]. apply H2. by left.
  - auto.
  - auto.
  - apply elem_of_cons in Hin as [-> | Hin]; [|by apply Hq'].
    destruct (Hq q) as (k' & Hk1 & Hk2); [by left|]. eauto.
Qed.

End SetsInOrder.

(** ** Sets of identifiers *)

Definition bits (s : IdSet) (P : nat -> Prop) : Prop :=
  0 <= s /\ forall i, Z.testbit s (Z.of_nat i) = true <-> P i.

Lemma bits_ext s P Q : (forall i, P i <-> Q i) -> bits s P -> bits s Q.
Proof. intros H [? Hb]. split; [done|]. intros i. by rewrite Hb. Qed.

Lemma bits_empty P : bits 0 P <-> forall i, ~ P i.
Proof.
  split; [intros [_ H] i Hi%H|intros H; split; [done|intros i]].
  - by rewrite Z.testbit_0_l in Hi.
  - rewrite Z.testbit_0_l. split; [done|]. by intros ?%H.
Qed.

Lemma bits_isEmpty s P : bits s P -> isEmpty s = true <-> forall i, ~ P i.
Proof.
  intros H. unfold isEmpty. rewrite Z.eqb_eq. split; [intros ->; by apply bits_empty|].
  intros Hn. apply Z.bits_inj_0. intros n. destruct (Z_lt_le_dec n 0) as [?|?].
  - by apply Z.testbit_neg_r.
  - rewrite <- (Z2Nat.id n) by done. destruct (Z.testbit s _) eqn:E; [|done].
    destruct H as [_ H]. by apply H, Hn in E.
Qed.

Lemma id_bit_testbit i n : (i < 64)%nat -> 0 <= n -> Z.testbit (id_bit i) n = bool_decide (n = Z.of_nat i).
Proof.
  intros Hi Hn. unfold id_bit. rewrite wrap_small.
  - rewrite Z.shiftl_spec by done. case_bool_decide as E.
    + by rewrite E, Z.sub_diag.
    + destruct (Z_lt_le_dec n (Z.of_nat i)); [by rewrite Z.testbit_neg_r by lia|].
      rewrite Z.bits_above_log2; cbn; lia.
  - rewrite Z.shiftl_1_l. split; [lia|]. apply Z.pow_lt_mono_r; lia.
Qed.

Lemma id_add_bits s P i : (i < 64)%nat -> bits s P -> bits (id_add s i) (fun j => P j \/ j = i).
Proof.
  intros Hi [Hs Hb]. unfold id_add. split.
  - apply Z.lor_nonneg. split; [done|]. apply wrap_range. lia.
  - intros j. rewrite Z.lor_spec, orb_true_iff, Hb, id_bit_testbit, bool_decide_eq_true by lia.
    by rewrite Nat2Z.inj_iff.
Qed.

Lemma id_subtract_bits s P i : (i < 64)%nat -> (forall j, P j -> (j < 64)%nat) -> bits s P ->
  bits (id_subtract s i) (fun j => P j /\ j <> i).
Proof.
  intros Hi Hlt [Hs Hb]. unfold id_subtract. split; [apply Z.land_nonneg; by left|].
  intros j. rewrite Z.land_spec, andb_true_iff, Hb.
  assert (P j -> Z.testbit (u64 (Z.lnot (id_bit i))) (Z.of_nat j) = negb (bool_decide (Z.of_nat j = Z.of_nat i))) as E.
  { intros Hj%Hlt. unfold wrap. rewrite Z.mod_pow2_bits_low, Z.lnot_spec, id_bit_testbit by lia. done. }
  split; intros [HP H]; (split; [done|]); specialize (E HP).
  - rewrite E, negb_true_iff, bool_decide_eq_false in H. congruence.
  - rewrite E, negb_true_iff, bool_decide_eq_false. lia.
Qed.

(** ** Edges of intervals, met in order *)

Lemma event_lt_irrefl a : event_lt a a = false.
Proof. unfold event_lt. rewrite Z.ltb_irrefl, Nat.ltb_irrefl, andb_false_r. done. Qed.

Lemma event_lt_spec a b : event_lt a b = true <->
  ev_at a < ev_at b \/ (ev_at a = ev_at b /\ (rect_id a < rect_id b)%nat).
Proof. unfold event_lt. rewrite orb_true_iff, andb_true_iff, Z.ltb_lt, Z.eqb_eq, Nat.ltb_lt. done. Qed.

Lemma event_lt_trans a b c : event_lt a b = true -> event_lt b c = true -> event_lt a c = true.
Proof. rewrite !event_lt_spec. lia. Qed.

#[export] Instance SweepEvent_eq_dec : EqDecision SweepEvent.
Proof. solve_decision. Defined.

Section Intervals.
Context (iv : nat -> Z -> Z -> Prop).
Context (iv_lt : forall i lo hi, iv i lo hi -> lo < hi).
Context (iv_fun : forall i lo hi lo' hi', iv i lo hi -> iv i lo' hi' -> lo' = lo /\ hi' = hi).

Definition edge (e : SweepEvent) : Prop :=
  exists lo hi, iv (rect_id e) lo hi /\ (e = MkEvent START lo (rect_id e) \/ e = MkEvent END hi (rect_id e)).

Definition inside (i : nat) (x : Z) : Prop := exists lo hi, iv i lo hi /\ lo <= x < hi.

(** The intervals whose end, but not whose start, is still to come. *)
Definition opened (h : list SweepEvent) (i : nat) : Prop :=
  exists lo hi, iv i lo hi /\ MkEvent END hi i ∈ h /\ MkEvent START lo i ∉ h.

(** At X, the edges still to come are h. *)
Record coming (X : Z) (h : list SweepEvent) : Prop := {
  coming_order : in_order event_lt h;
  coming_edge : forall e, e ∈ h -> edge e;
  coming_past : forall e, edge e -> e ∉ h -> ev_at e <= X;
  coming_next : forall e, e ∈ h -> X <= ev_at e
}.

Lemma edge_start i lo hi : iv i lo hi -> edge (MkEvent START lo i).
Proof. exists lo, hi. auto. Qed.

Lemma edge_end i lo hi : iv i lo hi -> edge (MkEvent END hi i).
Proof. exists lo, hi. auto. Qed.

Lemma edge_differ a b : edge a -> edge b -> a <> b -> event_lt a b = true \/ event_lt b a = true.
Proof.
  intros (lo & hi & Ha & Hea) (lo' & hi' & Hb & Heb) Hne. rewrite !event_lt_spec.
  destruct (decide (rect_id a = rect_id b)) as [E|]; [|lia].
  rewrite <- E in Hb. destruct (iv_fun _ _ _ _ _ Ha Hb) as [-> ->].
  apply iv_lt in Ha. rewrite <- E in Heb. destruct Hea as [Hea|Hea], Heb as [Heb|Heb]; rewrite Hea, Heb in *; cbn in *; try lia; done.
Qed.

Lemma coming_tail X e h : coming X (e :: h) -> coming (ev_at e) h.
Proof.
  intros [Ho He Hp Hn]. pose proof (in_order_notin _ event_lt_irrefl _ _ Ho) as Hnin.
  apply in_order_cons in Ho as [Ho Hlt]. split; [done|..].
  - intros e' ?. apply He. by right.
  - intros e' He' Hnot. destruct (decide (e' = e)) as [-> | Hne]; [lia|].
    transitivity X; [apply Hp; [done|]; by rewrite elem_of_cons; intros [|]|apply Hn; by left].
  - intros e' Hin%Hlt. apply event_lt_spec in Hin. lia.
Qed.

Lemma opened_inside X h X' x i : coming X h -> (forall e, e ∈ h -> X' <= ev_at e) -> X <= x < X' ->
  opened h i <-> inside i x.
Proof.
  intros [Ho He Hp Hn] Hnext Hx. split; intros (lo & hi & Hi & H); exists lo, hi; (split; [done|]).
  - destruct H as [Hend%Hnext Hstart]. apply Hp in Hstart; [|by eapply edge_start]. cbn in *. lia.
  - split.
    + destruct (decide (MkEvent END hi i ∈ h)) as [|Hout]; [done|].
      apply Hp in Hout; [|by eapply edge_end]. cbn in *. lia.
    + intros Hin%Hnext. cbn in *. lia.
Qed.

Lemma end_after_start X h i lo hi : coming X h -> iv i lo hi -> MkEvent START lo i ∈ h -> MkEvent END hi i ∈ h.
Proof.
  intros [Ho He Hp Hn] Hi Hin%Hn. destruct (decide (MkEvent END hi i ∈ h)) as [|Hout]; [done|].
  apply Hp in Hout; [|by eapply edge_end]. apply iv_lt in Hi. cbn in *. lia.
Qed.

Lemma opened_start X e h i : coming X (e :: h) -> ev_type e = START ->
  ~ opened (e :: h) (rect_id e) /\ (opened h i <-> opened (e :: h) i \/ i = rect_id e).
Proof.
  intros Hc Ht. pose proof (in_order_notin _ event_lt_irrefl _ _ (coming_order _ _ Hc)) as Hnin.
  destruct (coming_edge _ _ Hc e) as (lo & hi & Hi & [He|He]); [by left| |by rewrite He in Ht].
  assert (MkEvent END hi (rect_id e) ∈ h) as Hend.
  { pose proof (end_after_start _ _ _ _ _ Hc Hi) as H. rewrite <- He in H at 1.
    apply elem_of_cons in H as [H|H]; [by rewrite He in H|done|by left]. }
  split.
  - intros (lo' & hi' & Hi' & _ & Hout). destruct (iv_fun _ _ _ _ _ Hi Hi') as [-> ->].
    apply Hout. rewrite <- He. by left.
  - split.
    + destruct (decide (i = rect_id e)) as [-> | Hne]; [by right|]. intros (lo' & hi' & Hi' & H1 & H2).
      left. exists lo', hi'. rewrite !elem_of_cons. split_and!; [done|by right|]. intros [E|?]; [|done]. by rewrite <- E in Hne.
    + intros [(lo' & hi' & Hi' & H1 & H2)| ->]; [|exists lo, hi; by rewrite <- He].
      exists lo', hi'. rewrite !elem_of_cons in *. split_and!; [done| |tauto].
      destruct H1 as [E|]; [|done]. by rewrite <- E in Ht.
Qed.

Lemma opened_end X e h i : coming X (e :: h) -> ev_type e = END ->
  opened (e :: h) (rect_id e) /\ (opened h i <-> opened (e :: h) i /\ i <> rect_id e).
Proof.
  intros Hc Ht. pose proof (in_order_notin _ event_lt_irrefl _ _ (coming_order _ _ Hc)) as Hnin.
  destruct (coming_edge _ _ Hc e) as (lo & hi & Hi & [He|He]); [by left|by rewrite He in Ht|].
  split.
  - exists lo, hi. rewrite <- He. split_and!; [done|by left|]. intros Hin.
    apply elem_of_cons in Hin as [E|Hin]; [by rewrite <- E in Ht|].
    apply (coming_next _ _ (coming_tail _ _ _ Hc)) in Hin. rewrite He in Hin.
    apply iv_lt in Hi. cbn in *. lia.
  - split.
    + intros (lo' & hi' & Hi' & H1 & H2). assert (i <> rect_id e) as Hne.
      { intros ->. destruct (iv_fun _ _ _ _ _ Hi Hi') as [-> ->]. by rewrite <- He in H1. }
      split; [|done]. exists lo', hi'. rewrite !elem_of_cons. split_and!; [done|by right|].
      intros [E|?]; [|done]. by rewrite <- E in Ht.
    + intros [(lo' & hi' & Hi' & H1 & H2) Hne]. exists lo', hi'. rewrite elem_of_cons in *.
      split_and!; [done| |tauto]. destruct H1 as [E|]; [|done]. by rewrite <- E in Hne.
Qed.

(** ** The regions along the sweep line *)

Definition crosses (k : StartedRect) (y : Z) : Prop := st_top k <= y < st_bottom k.

(** The keys of the sweep line at x: from y0 on, a partition of what is inside an interval. *)
Record sliced (x y0 : Z) (K : list StartedRect) : Prop := {
  sliced_shape : forall k, k ∈ K -> st_left k = x /\ y0 <= st_top k < st_bottom k /\ st_ids k <> 0;
  sliced_ids : forall k y, k ∈ K -> crosses k y -> bits (st_ids k) (fun i => inside i y);
  sliced_all : forall i y, y0 <= y -> inside i y -> exists k, k ∈ K /\ crosses k y;
  sliced_once : forall k1 k2 y, k1 ∈ K -> k2 ∈ K -> crosses k1 y -> crosses k2 y -> k1 = k2
}.

Definition step_set (e : SweepEvent) (a : IdSet) : IdSet :=
  match ev_type e with START => id_add a (rect_id e) | END => id_subtract a (rect_id e) end.

Lemma active_loop_cons e v a regions :
  active_loop (e :: v) a regions = active_loop v (step_set e a) (push_region (ev_at e) (step_set e a) regions).
Proof. done. Qed.

Lemma push_region_last pre y s y' s' :
  push_region y' s' (pre ++ [(y, s)]) = pre ++ (if y =? y' then [(y', s')] else [(y, s); (y', s')]).
Proof.
  unfold push_region. rewrite list.last_snoc, length_app. cbn.
  case_match eqn:E; [|by rewrite <- app_assoc].
  apply Z.eqb_eq in E as ->. rewrite take_app_length'; [done|lia].
Qed.

Lemma push_region_one y s y' s' :
  push_region y' s' [(y, s)] = if y =? y' then [(y', s')] else [(y, s); (y', s')].
Proof. exact (push_region_last [] y s y' s'). Qed.

Lemma active_loop_last v : forall a pre y s,
  active_loop v a (pre ++ [(y, s)]) = pre ++ active_loop v a [(y, s)].
Proof.
  induction v as [|e v IH]; intros a pre y s; [done|]. rewrite !active_loop_cons.
  generalize (step_set e a) as a'. intros a'. rewrite push_region_last, push_region_one. destruct (y =? ev_at e).
  - apply IH.
  - change [(y, s); (ev_at e, a')] with ([(y, s)] ++ [(ev_at e, a')]). by rewrite app_assoc, !IH, app_assoc.
Qed.

Context (iv_id : forall i lo hi, iv i lo hi -> (i < 64)%nat).

Lemma step_set_bits X e v a : coming X (e :: v) -> bits a (opened (e :: v)) -> bits (step_set e a) (opened v).
Proof.
  intros Hc Ha. assert (rect_id e < 64)%nat as Hid.
  { destruct (coming_edge _ _ Hc e) as (lo & hi & Hi & _); [by left|]. by eapply iv_id. }
  unfold step_set. destruct (ev_type e) eqn:Ht.
  - eapply bits_ext; [|by apply id_add_bits]. intros i. cbn. symmetry. eapply opened_start; done.
  - eapply bits_ext; [|apply id_subtract_bits; [done| |done]].
    + intros i. cbn. symmetry. eapply opened_end; done.
    + intros j (lo & hi & Hj & _). by eapply iv_id.
Qed.

Lemma sliced_nil x y : coming y [] -> sliced x y [].
Proof.
  intros Hc. split; try (by intros ? ?%elem_of_nil); try (by intros ? ? ?%elem_of_nil); [|by intros ? ? ? ?%elem_of_nil].
  intros i z Hz Hi. exfalso. apply (opened_inside y [] (z + 1) z i Hc) in Hi; [|by intros ? ?%elem_of_nil|lia].
  destruct Hi as (? & ? & _ & Hin%elem_of_nil & _). done.
Qed.

(** A region before the regions from y on. *)
Lemma sliced_cons x y0 y a e v K : coming y0 (e :: v) -> bits a (opened (e :: v)) -> y = ev_at e -> y0 < y ->
  sliced x y K -> sliced x y0 (if isEmpty a then K else MkStarted a x y0 y :: K).
Proof.
  intros Hc Ha Hy Hlt [Hs Hi Hall Hone].
  assert (forall z, y0 <= z < y -> bits a (fun i => inside i z)) as Hz.
  { intros z Hz. eapply bits_ext; [|exact Ha]. intros i. eapply opened_inside; [exact Hc| |exact Hz].
    intros e' [-> | Hin]%elem_of_cons; [lia|]. apply (coming_next _ _ (coming_tail _ _ _ Hc)) in Hin. lia. }
  assert (isEmpty a = true -> forall i z, y0 <= z < y -> ~ inside i z) as Hno.
  { intros E i z Hin. by apply (bits_isEmpty _ _ (Hz z Hin)). }
  destruct (isEmpty a) eqn:E.
  - split; [|done| |done].
    + intros k Hk. specialize (Hs k Hk). intuition lia.
    + intros i z Hle Hin. apply Hall with i; [|done]. destruct (Z_lt_le_dec z y); [|done]. by edestruct Hno.
  - split; unfold crosses in *.
    + intros k [-> | Hk]%elem_of_cons; [|specialize (Hs k Hk); intuition lia]. cbn.
      split_and!; [done|lia|lia|]. intros ->. done.
    + intros k z [-> | Hk]%elem_of_cons; [apply Hz|by apply Hi].
    + intros i z Hle Hin. destruct (Z_lt_le_dec z y).
      * exists (MkStarted a x y0 y). split; [by left|cbn; lia].
      * destruct (Hall i z) as (k & ? & ?); [done..|]. exists k. split; [by right|done].
    + intros k1 k2 z [-> | H1]%elem_of_cons [-> | H2]%elem_of_cons; cbn; intros Hc1 Hc2;
        [done|specialize (Hs _ H2); lia|specialize (Hs _ H1); lia|by eapply Hone].
Qed.

Lemma visit_regions_cons x y a y' s R m :
  visit_regions x ((y, a) :: (y', s) :: R) m =
  visit_regions x ((y', s) :: R) (if isEmpty a then m else map_set_true started_lt (MkStarted a x y y') m).
Proof. cbn [visit_regions]. by destruct (isEmpty a). Qed.

Lemma active_loop_sliced x v : forall y0 a, coming y0 v -> bits a (opened v) ->
  exists s R K, active_loop v a [(y0, a)] = (y0, s) :: R /\ sliced x y0 K /\
    (forall m, visit_regions x ((y0, s) :: R) m = Done (set_all started_lt K m)).
Proof.
  induction v as [|e v IH]; intros y0 a Hc Ha.
  - exists a, [], []. split; [done|]. split; [by apply sliced_nil|]. intros m. cbn.
    rewrite (proj2 (bits_isEmpty _ _ Ha)); [done|]. intros i (? & ? & _ & Hin%elem_of_nil & _). done.
  - pose proof (step_set_bits _ _ _ _ Hc Ha) as Ha'. pose proof (coming_tail _ _ _ Hc) as Hv.
    destruct (IH _ _ Hv Ha') as (s & R & K & E & HK & Hvisit). rewrite active_loop_cons.
    rewrite push_region_one. destruct (Z.eqb_spec y0 (ev_at e)) as [-> | Hne]; [by exists s, R, K|].
    assert (y0 < ev_at e) as Hlt.
    { pose proof (coming_next _ _ Hc e ltac:(by left)). lia. }
    exists a, ((ev_at e, s) :: R), (if isEmpty a then K else MkStarted a x y0 (ev_at e) :: K). split_and!.
    + pose proof (active_loop_last v (step_set e a) [(y0, a)]) as Hl. cbn [app] in Hl. by rewrite Hl, E.
    + by eapply sliced_cons.
    + intros m. rewrite visit_regions_cons. destruct (isEmpty a); apply Hvisit.
Qed.

(** All the edges, from the first one on. *)
Lemma active_loop_regions x v y0 : coming y0 v -> (forall e, edge e -> e ∈ v) ->
  exists K y, (forall m, visit_regions x (active_loop v 0 []) m = Done (set_all started_lt K m)) /\
    sliced x y K /\ (forall i z, inside i z -> y <= z).
Proof.
  intros Hc Hall. assert (bits 0 (opened v)) as H0.
  { apply bits_empty. intros i (lo & hi & Hi & _ & Hout). apply Hout, Hall. by eapply edge_start. }
  destruct v as [|e v].
  - exists [], y0. split_and!; [done|by apply sliced_nil|]. intros i z (lo & hi & Hi & _).
    by apply edge_start, Hall, elem_of_nil in Hi.
  - destruct (active_loop_sliced x v (ev_at e) (step_set e 0)) as (s & R & K & E & HK & Hvisit).
    { by eapply coming_tail. }
    { by eapply step_set_bits. }
    exists K, (ev_at e). rewrite active_loop_cons. unfold push_region. cbn [last app]. rewrite E.
    split_and!; [done..|]. intros i z (lo & hi & Hi & Hz). pose proof (Hall _ (edge_start _ _ _ Hi)) as Hin.
    apply elem_of_cons in Hin as [<- | Hin]; [cbn; lia|]. 
    apply (coming_next _ _ (coming_tail _ _ _ Hc)) in Hin. cbn in *. lia.
Qed.
End Intervals.

(** ** Started rectangles *)

Lemma started_lt_spec a b : started_lt a b = true <->
  st_top a < st_top b \/ (st_top a = st_top b /\ (st_bottom a < st_bottom b \/
    (st_bottom a = st_bottom b /\ st_ids a < st_ids b))).
Proof. unfold started_lt. rewrite !orb_true_iff, !andb_true_iff, !Z.ltb_lt, !Z.eqb_eq. lia. Qed.

Lemma started_lt_irrefl a : started_lt a a = false.
Proof. apply not_true_iff_false. rewrite started_lt_spec. lia. Qed.

Lemma started_lt_trans a b c : started_lt a b = true -> started_lt b c = true -> started_lt a c = true.
Proof. rewrite !started_lt_spec. lia. Qed.

Lemma same_started a b : same started_lt a b <->
  st_top a = st_top b /\ st_bottom a = st_bottom b /\ st_ids a = st_ids b.
Proof.
  unfold same. rewrite <- !not_true_iff_false, !started_lt_spec. lia.
Qed.

Lemma started_lt_same a b c : same started_lt a b -> started_lt a c = started_lt b c.
Proof. rewrite same_started. intros (E1 & E2 & E3). unfold started_lt. by rewrite E1, E2, E3. Qed.

Lemma in_order_same l a b : in_order started_lt l -> a ∈ l -> b ∈ l -> same started_lt a b -> a = b.
Proof.
  induction l as [|c l IH]; [by intros ? ?%elem_of_nil|]. intros [Hl Hc]%in_order_cons Ha Hb [H1 H2].
  apply elem_of_cons in Ha as [-> | Ha], Hb as [-> | Hb]; [done| | |by apply IH].
  - by rewrite Hc in H1.
  - by rewrite Hc in H2.
Qed.

Lemma in_order_NoDup l : in_order started_lt l -> NoDup l.
Proof.
  induction l as [|a l IH]; [constructor|]. intros H. constructor.
  - by apply in_order_notin in H; [|apply started_lt_irrefl].
  - apply in_order_cons in H as [? _]. auto.
Qed.

Lemma in_order_filter (P : StartedRect * bool -> Prop) `{!forall e, Decision (P e)} m :
  ordered_map started_lt m -> ordered_map started_lt (filter P m).
Proof.
  unfold ordered_map. induction m as [|e m IH]; [done|]. rewrite filter_cons, fmap_cons.
  intros [Hm He]%in_order_cons. case_decide; [|auto]. rewrite fmap_cons, in_order_cons. split; [auto|].
  intros y Hy. apply He. apply list_elem_of_fmap in Hy as (p & -> & [_ Hp]%list_elem_of_filter).
  by apply list_elem_of_fmap_2.
Qed.

Definition ext (x : Z) (k : StartedRect) : RectSet :=
  MkRectSet (st_ids k) (MkRect (st_left k) (st_top k) x (st_bottom k)).

#[export] Instance ext_inj x : Inj (=) (=) (ext x).
Proof. intros [] []. unfold ext. cbn. by intros [= -> -> -> ->]. Qed.

Definition unseen (m : list (StartedRect * bool)) : list StartedRect := (filter (fun e => e.2 = false) m).*1.
Definition seen (m : list (StartedRect * bool)) : list (StartedRect * bool) := filter (fun e => e.2 = true) m.

Lemma end_unseen_eq x m out : end_unseen x m out = (seen m, out ++ (ext x <$> unseen m)).
Proof.
  unfold seen, unseen. revert out. induction m as [|[k []] m IH]; intros out; rewrite ?filter_cons; cbn.
  - by rewrite app_nil_r.
  - by rewrite IH.
  - rewrite IH, <- app_assoc. done.
Qed.

Lemma elem_of_seen k m : k ∈ (seen m).*1 <-> (k, true) ∈ m.
Proof.
  unfold seen. rewrite list_elem_of_fmap. setoid_rewrite list_elem_of_filter. split.
  - by intros ([k' b] & -> & E & H); cbn in E; subst b.
  - intros H. by exists (k, true).
Qed.

Lemma elem_of_unseen k m : k ∈ unseen m <-> (k, false) ∈ m.
Proof.
  unfold unseen. rewrite list_elem_of_fmap. setoid_rewrite list_elem_of_filter. split.
  - by intros ([k' b] & -> & E & H); cbn in E; subst b.
  - intros H. by exists (k, false).
Qed.

Definition reset (m : list (StartedRect * bool)) : list (StartedRect * bool) := (fun p => (fst p, false)) <$> m.

Lemma reset_keys m : (reset m).*1 = m.*1.
Proof. unfold reset. rewrite <- list_fmap_compose. done. Qed.

Lemma reset_true k m : (k, true) ∉ reset m.
Proof. unfold reset. by intros (? & ? & _)%list_elem_of_fmap. Qed.

(** ** The sweep *)

Definition valid (r : Rect) : Prop := left r < right r /\ top r < bottom r.
Definition within (r : Rect) (x y : Z) : Prop := left r <= x < right r /\ top r <= y < bottom r.

Section Sweep.
Context (rects : list Rect) (few : (length rects <= 64)%nat).

Definition covers (i : nat) (x y : Z) : Prop := exists r, rects !! i = Some r /\ within r x y.

Definition wide (i : nat) (lo hi : Z) : Prop :=
  exists r, rects !! i = Some r /\ valid r /\ lo = left r /\ hi = right r.

(** The intervals on the sweep line, when the edges h are to come. *)
Definition tall (h : list SweepEvent) (i : nat) (lo hi : Z) : Prop :=
  opened wide h i /\ exists r, rects !! i = Some r /\ lo = top r /\ hi = bottom r.

Lemma wide_lt i lo hi : wide i lo hi -> lo < hi.
Proof. by intros (r & _ & [? ?] & -> & ->). Qed.

Lemma wide_fun i lo hi lo' hi' : wide i lo hi -> wide i lo' hi' -> lo' = lo /\ hi' = hi.
Proof. intros (r & Hr & _ & -> & ->) (r' & Hr' & _ & -> & ->). by simplify_eq. Qed.

Lemma opened_valid h i r : opened wide h i -> rects !! i = Some r -> valid r.
Proof. intros (? & ? & (r' & ? & ? & _) & _) ?. by simplify_eq. Qed.

Lemma tall_lt h i lo hi : tall h i lo hi -> lo < hi.
Proof. intros (Ho & r & Hr & -> & ->). by destruct (opened_valid _ _ _ Ho Hr). Qed.

Lemma tall_fun h i lo hi lo' hi' : tall h i lo hi -> tall h i lo' hi' -> lo' = lo /\ hi' = hi.
Proof. intros (_ & r & Hr & -> & ->) (_ & r' & Hr' & -> & ->). by simplify_eq. Qed.

Lemma tall_id h i lo hi : tall h i lo hi -> (i < 64)%nat.
Proof. intros (_ & r & Hr%lookup_lt_Some & _). lia. Qed.

Lemma inside_tall X h X' x i y : coming wide X h -> (forall e, e ∈ h -> X' <= ev_at e) -> X <= x < X' ->
  inside (tall h) i y <-> covers i x y.
Proof.
  intros Hc Hn Hx. unfold inside, tall, covers, within.
  setoid_rewrite (opened_inside wide X h X' x i Hc Hn Hx). unfold inside, wide. split.
  - intros (lo & hi & ((? & ? & (r & Hr & _ & -> & ->) & ?) & r' & Hr' & -> & ->) & ?).
    simplify_eq. eauto.
  - intros (r & Hr & Hx' & Hy). exists (top r), (bottom r). split; [|done]. split; [|by eauto].
    exists (left r), (right r). split; [|done]. exists r. unfold valid. split_and!; [done|lia..|done|done].
Qed.

(** The edges on the sweep line. *)
Definition marked (h v : list SweepEvent) : Prop :=
  in_order event_lt v /\ (forall e, e ∈ v <-> edge (tall h) e).

Lemma marked_coming h v : marked h v -> exists y0, coming (tall h) y0 v.
Proof.
  intros [Ho He]. exists (default 0 (next_at v)). split; [done|by intros e ?%He|by intros e ?%He|].
  destruct v as [|e v]; [by intros ? ?%elem_of_nil|]. cbn. intros e' [-> | Hin]%elem_of_cons; [done|].
  apply in_order_cons in Ho as [_ Hlt]. apply Hlt, event_lt_spec in Hin. lia.
Qed.

Lemma edge_tall h e : edge (tall h) e <->
  opened wide h (rect_id e) /\ exists r, rects !! rect_id e = Some r /\
    (e = MkEvent START (top r) (rect_id e) \/ e = MkEvent END (bottom r) (rect_id e)).
Proof.
  unfold edge, tall. split.
  - intros (lo & hi & (Ho & r & Hr & -> & ->) & He). split; [done|]. by exists r.
  - intros (Ho & r & Hr & He). exists (top r), (bottom r). split; [|done]. split; [done|]. by exists r.
Qed.


Lemma other_id a b : rect_id a <> rect_id b -> event_lt a b = true \/ event_lt b a = true.
Proof. rewrite !event_lt_spec. lia. Qed.

Lemma mark_start X e h v : coming wide X (e :: h) -> ev_type e = START -> marked (e :: h) v ->
  exists v', mark rects e v = Done v' /\ marked h v'.
Proof.
  intros Hc Ht [Ho Hv]. destruct (coming_edge _ _ _ Hc e) as (lo & hi & (r & Hr & Hvalid & _) & _); [by left|].
  destruct (opened_start wide wide_lt wide_fun X e h (rect_id e) Hc Ht) as [Hnot _].
  set (i := rect_id e) in *. set (s := MkEvent START (top r) i). set (t := MkEvent END (bottom r) i).
  assert (forall z, z ∈ v -> rect_id z <> i) as Hne.
  { intros z [Hz _]%Hv%edge_tall E. by rewrite E in Hz. }
  assert (forall z, z ∈ set_insert event_lt s v <-> z = s \/ z ∈ v) as Hs.
  { intros z. apply elem_of_set_insert. intros z' Hz'. apply other_id. intros E. by destruct (Hne z'). }
  exists (set_insert event_lt t (set_insert event_lt s v)). split; [unfold mark; fold i; by rewrite Hr; cbn; rewrite Ht|].
  split; [by do 2 apply (set_insert_in_order event_lt event_lt_irrefl event_lt_trans)|]. intros z. rewrite elem_of_set_insert, Hs.
  - rewrite Hv, !edge_tall, (proj2 (opened_start wide wide_lt wide_fun X e h (rect_id z) Hc Ht)).
    fold i. split.
    + intros [-> | [-> | (H & Hz)]]; cbn; eauto 6.
    + intros [[H|E] (r' & Hr' & Hz)]; [by right; right; eauto|]. rewrite E in *. simplify_eq.
      unfold s, t. by destruct Hz; auto.
  - intros z' [-> | Hz']%Hs; [|apply other_id; intros E; by destruct (Hne z')].
    right. apply event_lt_spec. left. apply Hvalid.
Qed.

Lemma mark_end X e h v : coming wide X (e :: h) -> ev_type e = END -> marked (e :: h) v ->
  exists v', mark rects e v = Done v' /\ marked h v'.
Proof.
  intros Hc Ht [Ho Hv]. destruct (coming_edge _ _ _ Hc e) as (lo & hi & (r & Hr & Hvalid & _) & _); [by left|].
  destruct (opened_end wide wide_lt wide_fun X e h (rect_id e) Hc Ht) as [Hop _].
  set (i := rect_id e) in *. set (s := MkEvent START (top r) i). set (t := MkEvent END (bottom r) i).
  assert (s ∈ v /\ t ∈ v) as [Hs Hend].
  { rewrite !Hv, !edge_tall. split; (split; [done|]); exists r; auto. }
  destruct (set_erase_Some event_lt event_lt_irrefl event_lt_trans s v Ho Hs) as (v1 & E1 & Ho1 & Hv1).
  destruct (set_erase_Some event_lt event_lt_irrefl event_lt_trans t v1 Ho1) as (v2 & E2 & Ho2 & Hv2).
  { by apply Hv1. }
  exists v2. split; [unfold mark; fold i; rewrite Hr; cbn; rewrite Ht; fold s t; rewrite E1; cbn; by rewrite E2|].
  split; [done|]. intros z. rewrite Hv2, Hv1, Hv, !edge_tall.
  rewrite (proj2 (opened_end wide wide_lt wide_fun X e h (rect_id z) Hc Ht)). fold i. split.
  - intros [[[Hz (r' & Hr' & Hz')] Hns] Hnt]. split; [|by eauto]. split; [done|]. intros E. rewrite E in *. simplify_eq.
    by destruct Hz'.
  - intros [[Hz Hne] (r' & Hr' & Hz')]. split_and!; [done|by eauto|..]; intros ->; by apply Hne.
Qed.

(** ** The tiles: what was put out, and what is started extended to B *)

Record tiled (B : Z) (l : list RectSet) : Prop := {
  tiled_shape : forall p, p ∈ l -> valid (rect p) /\ id_set p <> 0;
  tiled_ids : forall p x y, p ∈ l -> within (rect p) x y -> bits (id_set p) (fun i => covers i x y);
  tiled_all : forall i x y, x < B -> covers i x y -> exists p, p ∈ l /\ within (rect p) x y;
  tiled_once : forall p q x y, p ∈ l -> q ∈ l -> within (rect p) x y -> within (rect q) x y -> p = q;
  tiled_nodup : NoDup l;
  tiled_right : forall p, p ∈ l -> right (rect p) <= B
}.

Definition tiles (B : Z) (m : list (StartedRect * bool)) (res : list RectSet) : list RectSet :=
  res ++ (ext B <$> m.*1).

Lemma elem_of_tiles B m res p : p ∈ tiles B m res <-> p ∈ res \/ exists k, k ∈ m.*1 /\ p = ext B k.
Proof. unfold tiles. rewrite elem_of_app, list_elem_of_fmap. naive_solver. Qed.

(** One stop: the keys K of the line at X, until X'. *)
Section Stop.
Context (X X' : Z) (started m : list (StartedRect * bool)) (res : list RectSet) (K : list StartedRect).
Context (later : X < X').
Context (started_ordered : ordered_map started_lt started) (old : tiled X (tiles X started res)).
Context (K_shape : forall k, k ∈ K -> st_left k = X /\ st_top k < st_bottom k /\ st_ids k <> 0).
Context (K_ids : forall k x y, k ∈ K -> X <= x < X' -> crosses k y -> bits (st_ids k) (fun i => covers i x y)).
Context (K_all : forall i x y, X <= x < X' -> covers i x y -> exists k, k ∈ K /\ crosses k y).
Context (K_once : forall k1 k2 y, k1 ∈ K -> k2 ∈ K -> crosses k1 y -> crosses k2 y -> k1 = k2).
Context (m_spec : set_true_spec started_lt (reset started) K m).

Notation res' := (res ++ (ext X <$> unseen m)).
Notation same := (same started_lt).

Lemma ended_old p : p ∈ res' -> p ∈ tiles X started res.
Proof.
  rewrite elem_of_tiles, elem_of_app, list_elem_of_fmap. intros [?|(k & -> & Hk%elem_of_unseen)]; [by left|right].
  exists k. split; [|done]. apply (sts_false _ _ _ _ m_spec) in Hk as [Hk _].
  rewrite <- reset_keys. by eapply elem_of_keys.
Qed.

Lemma live_key k : (k, true) ∈ m ->
  (exists q, q ∈ K /\ same k q) /\ (k ∈ started.*1 \/ k ∈ K) /\ st_left k <= X.
Proof.
  intros Hk. destruct (sts_true _ _ _ _ m_spec _ Hk) as [[H|H] Hfrom]; [by apply reset_true in H|].
  rewrite reset_keys in Hfrom. split_and!; [done..|]. destruct Hfrom as [Hin|Hin%K_shape]; [|lia].
  destruct (tiled_shape _ _ old (ext X k)) as [[? _] _]; [|cbn in *; lia].
  apply elem_of_tiles. right. eauto.
Qed.

Lemma live_within k x y : (k, true) ∈ m -> within (rect (ext X' k)) x y ->
  (x < X /\ k ∈ started.*1 /\ within (rect (ext X k)) x y) \/
  (X <= x < X' /\ exists q, q ∈ K /\ same k q /\ crosses q y).
Proof.
  intros Hk Hw. destruct (live_key k Hk) as ((q & Hq & Hsame) & Hfrom & Hleft). unfold within in Hw. cbn in Hw.
  destruct (Z_lt_le_dec x X); [left|right].
  - split; [done|]. unfold within. cbn. destruct Hfrom as [?|?%K_shape]; [|lia]. split; [done|lia].
  - split; [lia|]. exists q. split_and!; [done..|]. apply same_started in Hsame. unfold crosses. lia.
Qed.

Lemma kept_key k : k ∈ started.*1 -> (k, true) ∈ m \/ (k, false) ∈ m.
Proof.
  rewrite <- reset_keys. intros Hk%(sts_kept _ _ _ _ m_spec).
  apply list_elem_of_fmap in Hk as ([k' []] & -> & ?); auto.
Qed.

Lemma ended_live p k x y : p ∈ res' -> (k, true) ∈ m -> within (rect p) x y -> within (rect (ext X' k)) x y -> False.
Proof.
  intros Hp Hk Hwp Hwk. pose proof (ended_old _ Hp) as Hold.
  destruct (live_within _ _ _ Hk Hwk) as [(Hx & Hstarted & Hw)|(Hx & _)].
  - assert (ext X k ∈ tiles X started res) as Hke by (apply elem_of_tiles; eauto).
    pose proof (tiled_once _ _ old _ _ _ _ Hold Hke Hwp Hw) as ->.
    apply elem_of_app in Hp as [Hp|Hp].
    + pose proof (tiled_nodup _ _ old) as (_ & Hno & _)%NoDup_app. apply (Hno _ Hp). by apply list_elem_of_fmap_2.
    + apply list_elem_of_fmap in Hp as (k' & E & Hk'%elem_of_unseen). apply ext_inj in E as <-.
      destruct (live_key _ Hk) as ((q & Hq & Hsame) & _). apply (sts_false _ _ _ _ m_spec) in Hk' as [_ Hn].
      by destruct (Hn q).
  - pose proof (tiled_right _ _ old _ Hold). unfold within in Hwp. lia.
Qed.

Lemma live_live k1 k2 x y : (k1, true) ∈ m -> (k2, true) ∈ m ->
  within (rect (ext X' k1)) x y -> within (rect (ext X' k2)) x y -> k1 = k2.
Proof.
  intros H1 H2 Hw1 Hw2. destruct (live_within _ _ _ H1 Hw1) as [(Hx & Hs1 & Hw1')|(Hx & q1 & Hq1 & Hsame1 & Hc1)],
    (live_within _ _ _ H2 Hw2) as [(Hx2 & Hs2 & Hw2')|(Hx2 & q2 & Hq2 & Hsame2 & Hc2)]; try lia.
  - apply (ext_inj X). apply (tiled_once _ _ old _ _ x y); [apply elem_of_tiles; eauto..|done|done].
  - rewrite (K_once _ _ _ Hq1 Hq2 Hc1 Hc2) in Hsame1. apply (in_order_same m.*1); [apply m_spec|by eapply elem_of_keys..|].
    rewrite same_started in *. lia.
Qed.

Lemma elem_of_new p : p ∈ tiles X' (seen m) res' <-> p ∈ res' \/ exists k, (k, true) ∈ m /\ p = ext X' k.
Proof. rewrite elem_of_tiles. by setoid_rewrite elem_of_seen. Qed.

Lemma stop_nodup : NoDup (tiles X' (seen m) res').
Proof.
  assert (ordered_map started_lt m) as Ho by apply m_spec.
  pose proof (tiled_nodup _ _ old) as (Hr & Hno & _)%NoDup_app.
  unfold tiles. apply NoDup_app. split_and!.
  - apply NoDup_app. split_and!; [done| |].
    + intros p Hp (k & -> & Hk)%list_elem_of_fmap. apply (Hno _ Hp). apply list_elem_of_fmap_2.
      apply elem_of_unseen, (sts_false _ _ _ _ m_spec) in Hk as [Hk _]. rewrite <- reset_keys. by eapply elem_of_keys.
    + apply NoDup_fmap_2; [apply _|]. by apply in_order_NoDup, in_order_filter.
  - intros p Hp%ended_old%(tiled_right _ _ old) (k & -> & _)%list_elem_of_fmap. cbn in Hp. lia.
  - apply NoDup_fmap_2; [apply _|]. by apply in_order_NoDup, in_order_filter.
Qed.

Lemma stop_tiled : tiled X' (tiles X' (seen m) res').
Proof.
  split.
  - intros p [Hp%ended_old|(k & Hk & ->)]%elem_of_new; [by apply old|]. cbn.
    destruct (live_key _ Hk) as ((q & Hq%K_shape & Hsame) & _ & Hleft). apply same_started in Hsame as (E1 & E2 & E3).
    unfold valid. cbn. rewrite E1, E2, E3. split; [lia|tauto].
  - intros p x y [Hp%ended_old|(k & Hk & ->)]%elem_of_new Hw; [by apply old|].
    destruct (live_within _ _ _ Hk Hw) as [(_ & Hs & Hw')|(Hx & q & Hq & Hsame & Hc)].
    + apply (tiled_ids _ _ old (ext X k)); [apply elem_of_tiles; eauto|done].
    + apply same_started in Hsame as (_ & _ & E3). cbn. rewrite E3. by apply K_ids.
  - intros i x y Hx Hc. setoid_rewrite elem_of_new. destruct (Z_lt_le_dec x X).
    + destruct (tiled_all _ _ old i x y) as (p & [Hp|(k & Hk & ->)]%elem_of_tiles & Hw); [done..| |].
      * exists p. split; [left|done]. apply elem_of_app. by left.
      * destruct (kept_key k Hk); [exists (ext X' k)|exists (ext X k)]; (split; [|unfold within in *; cbn in *; lia]).
        -- right. eauto.
        -- left. apply elem_of_app. right. by apply list_elem_of_fmap_2, elem_of_unseen.
    + destruct (K_all i x y) as (q & Hq & Hcross); [lia|done|].
      destruct (sts_set _ _ _ _ m_spec q Hq) as (k & Hk & Hsame). exists (ext X' k). split; [right; eauto|].
      destruct (live_key k Hk) as (_ & _ & ?). apply same_started in Hsame. unfold within, crosses in *. cbn. lia.
  - intros p q x y [Hp|(k & Hk & ->)]%elem_of_new [Hq|(k' & Hk' & ->)]%elem_of_new Hw Hw'.
    + apply (tiled_once _ _ old _ _ x y); auto using ended_old.
    + by destruct (ended_live p k' x y).
    + by destruct (ended_live q k x y).
    + by rewrite (live_live k k' x y).
  - apply stop_nodup.
  - intros p [Hp%ended_old%(tiled_right _ _ old)|(k & Hk & ->)]%elem_of_new; cbn; lia.
Qed.
End Stop.

(** What is started, and what was put out, before the edge at B. *)
Definition sweeping (B : Z) (started : list (StartedRect * bool)) (res : list RectSet) : Prop :=
  ordered_map started_lt started /\ tiled B (tiles B started res).

Lemma sweep_stop_tiled X h v started res out : coming wide X h -> marked h v -> sweeping X started res ->
  exists started' res', sweep_stop X v started (out ++ res) = Done (started', out ++ res') /\
    (forall X', X < X' -> (forall e, e ∈ h -> X' <= ev_at e) -> sweeping X' started' res').
Proof.
  intros Hc Hm [Ho Hold]. destruct (marked_coming _ _ Hm) as [y0 Hv].
  destruct (active_loop_regions (tall h) (tall_lt h) (tall_fun h) (tall_id h) X v y0 Hv) as (K & y & Hvisit & [Hs Hi Ha Hone] & Hy).
  { intros e. apply Hm. }
  pose proof (set_all_spec started_lt started_lt_irrefl started_lt_trans started_lt_same K (reset started)) as Hspec.
  unfold sweep_stop. fold (reset started). rewrite Hvisit. cbn [mbind outcome_bind]. rewrite end_unseen_eq.
  set (m := set_all started_lt K (reset started)) in *.
  exists (seen m), (res ++ (ext X <$> unseen m)). rewrite app_assoc. split; [done|].
  assert (set_true_spec started_lt (reset started) K m) as Hm'.
  { apply Hspec. unfold ordered_map. by rewrite reset_keys. }
  intros X' Hlater Hnext. pose proof (fun x i y Hx => inside_tall X h X' x i y Hc Hnext Hx) as Hin.
  split; [apply in_order_filter, Hm'|]. eapply stop_tiled; [done..| | | | |exact Hm'].
  - intros k Hk%Hs. intuition lia.
  - intros k x z Hk Hx Hz. eapply bits_ext; [|by apply Hi]. intros i. by apply Hin.
  - intros i x z Hx Hcov%(Hin x i z Hx). apply (Ha i z); [by eapply Hy|done].
  - done.
Qed.

Lemma mark_Done X e h v : coming wide X (e :: h) -> marked (e :: h) v ->
  exists v', mark rects e v = Done v' /\ marked h v'.
Proof. intros. destruct (ev_type e) eqn:Ht; [by eapply mark_start|by eapply mark_end]. Qed.

(** After the last edge nothing is started. *)
Lemma sweeping_end X started res : coming wide X [] -> (forall B, X < B -> sweeping B started res) ->
  started = [] /\ forall B, X < B -> tiled B res.
Proof.
  intros Hc Hs. assert (started = []) as ->.
  { destruct started as [|[k b] started]; [done|exfalso]. destruct (Hs (X + 1)) as [_ Ht]; [lia|].
    assert (ext (X + 1) k ∈ tiles (X + 1) ((k, b) :: started) res) as Hk.
    { apply elem_of_tiles. right. exists k. split; [by left|done]. }
    destruct (tiled_shape _ _ Ht _ Hk) as [Hv Hne].
    assert (within (rect (ext (X + 1) k)) X (st_top k)) as Hw by (unfold within, valid in *; cbn in *; lia).
    pose proof (tiled_ids _ _ Ht _ _ _ Hk Hw) as Hb.
    apply Hne, Z.eqb_eq, (bits_isEmpty _ _ Hb). intros i Hi.
    apply (inside_tall X [] (X + 1) X i (st_top k) Hc) in Hi; [|by intros ? ?%elem_of_nil|lia].
    by destruct Hi as (? & ? & ((? & ? & _ & Hin%elem_of_nil & _) & _) & _). }
  split; [done|]. intros B HB. destruct (Hs B HB) as [_ Ht]. unfold tiles in Ht. by rewrite app_nil_r in Ht.
Qed.

Definition bound (X : Z) (h : list SweepEvent) (B : Z) : Prop := next_at h = Some B \/ (h = [] /\ X < B).

Lemma bound_next X e h B : coming wide X (e :: h) -> next_at h <> Some (ev_at e) -> bound (ev_at e) h B ->
  ev_at e < B /\ forall e', e' ∈ h -> B <= ev_at e'.
Proof.
  intros Hc Hne [Hb|[-> HB]]; [|split; [done|by intros ? ?%elem_of_nil]].
  apply coming_tail in Hc. destruct h as [|e' h]; [done|]. cbn in *. simplify_eq.
  pose proof (coming_next _ _ _ Hc e' ltac:(by left)). split; [by assert (ev_at e' <> ev_at e) by congruence; lia|].
  apply coming_tail in Hc. intros e2 [-> | H2]%elem_of_cons; [done|]. by apply (coming_next _ _ _ Hc).
Qed.

Lemma sweep_tiled h : forall X v started res out, coming wide X h -> marked h v ->
  (forall B, bound X h B -> sweeping B started res) ->
  exists res' X', sweep rects h v started (out ++ res) = Done (out ++ res') /\ forall B, X' < B -> tiled B res'.
Proof.
  induction h as [|e h IH]; intros X v started res out Hc Hm Hs; cbn [sweep].
  - exists res, X. split; [done|]. apply (sweeping_end X started); [done|]. intros B HB. apply Hs. by right.
  - destruct (mark_Done _ _ _ _ Hc Hm) as (v' & -> & Hm'). rewrite bind_Done_eq.
    pose proof (coming_tail _ _ _ _ Hc) as Hc'. case_bool_decide as Hnext.
    + apply (IH (ev_at e)); [done..|]. intros B [HB|[-> _]]; [|done]. apply Hs. left. by rewrite <- HB, Hnext.
    + destruct (sweep_stop_tiled (ev_at e) h v' started res out Hc' Hm') as (started' & res' & -> & Hs').
      { apply Hs. by left. }
      rewrite bind_Done_eq. apply (IH (ev_at e)); [done..|]. intros B HB. by apply Hs'; eapply bound_next.
Qed.

(** The first pass collects the edges. *)
Lemma h_events_spec l : forall i h, (forall j r, l !! j = Some r -> rects !! (i + j)%nat = Some r) ->
  (length rects = i + length l)%nat -> in_order event_lt h ->
  (forall e, e ∈ h <-> edge wide e /\ (rect_id e < i)%nat) ->
  in_order event_lt (h_events_loop i l h) /\ (forall e, e ∈ h_events_loop i l h <-> edge wide e).
Proof.
  induction l as [|r l IH]; intros i h Hl Hlen Ho Hh; cbn [h_events_loop].
  - split; [done|]. intros e. rewrite Hh. split; [tauto|]. intros He. split; [done|].
    destruct He as (? & ? & (r & Hr%lookup_lt_Some & _) & _). cbn in Hlen. lia.
  - assert (rects !! i = Some r) as Hr by (rewrite <- (Nat.add_0_r i); by apply Hl).
    apply IH; [intros j r' Hj; rewrite <- (Hl (S j) r' Hj); f_equal; lia|cbn in Hlen; lia| |].
    { case_match; [done|]. by do 2 apply (set_insert_in_order event_lt event_lt_irrefl event_lt_trans). }
    intros e. assert (edge wide e /\ (rect_id e < S i)%nat <->
      (edge wide e /\ (rect_id e < i)%nat) \/ (edge wide e /\ rect_id e = i)) as -> by (rewrite Nat.lt_succ_r, Nat.lt_eq_cases; tauto).
    rewrite <- Hh. destruct (_ || _) eqn:E.
    + split; [tauto|]. intros [?|[(? & ? & (r' & Hr' & [? ?] & _) & _) Hi]]; [done|].
      rewrite Hi in Hr'. simplify_eq. apply orb_true_iff in E. rewrite !Z.leb_le in E. lia.
    + apply orb_false_iff in E. rewrite !Z.leb_gt in E. assert (wide i (left r) (right r)) as Hw.
      { exists r. split_and!; [done|split; lia|done..]. }
      assert (forall z, z ∈ set_insert event_lt (MkEvent START (left r) i) h <-> z = MkEvent START (left r) i \/ z ∈ h) as Hs.
      { intros z. apply elem_of_set_insert. intros z' [_ Hz']%Hh. apply other_id. cbn. lia. }
      rewrite elem_of_set_insert, Hs.
      * split.
        -- intros [-> | [-> | ?]]; [right|right|by left]; (split; [|done]); [by eapply edge_end|by eapply edge_start].
        -- intros [?|[(lo & hi & Hw' & He) Hi]]; [tauto|]. rewrite Hi in *.
           destruct (wide_fun _ _ _ _ _ Hw Hw') as [-> ->]. tauto.
      * intros z [-> | [_ Hz]%Hh]%Hs; [right; apply event_lt_spec; cbn; lia|apply other_id; cbn; lia].
Qed.

Lemma sweep_all out : exists res X,
  sweep rects (h_events_loop 0 rects []) [] [] out = Done (out ++ res) /\ forall B, X < B -> tiled B res.
Proof.
  destruct (h_events_spec rects 0 []) as [Ho He]; [done|done|constructor|by intros e; split; [intros ?%elem_of_nil|intros [_ ?]; lia]|].
  set (h := h_events_loop 0 rects []) in *.
  assert (coming wide (default 0 (next_at h)) h) as Hc.
  { split; [done|by intros e ?%He|by intros e ?%He|]. destruct h as [|e h]; [by intros ? ?%elem_of_nil|].
    cbn. intros e' [-> | Hin]%elem_of_cons; [done|]. apply in_order_cons in Ho as [_ Hlt].
    apply Hlt, event_lt_spec in Hin. lia. }
  assert (forall i, ~ opened wide h i) as Hnone.
  { intros i (lo & hi & Hi & _ & Hout). apply Hout, He. by eapply edge_start. }
  destruct (sweep_tiled h (default 0 (next_at h)) [] [] [] out) as (res & X & E & Ht);
    [done|split; [constructor|]| |rewrite app_nil_r in E; by exists res, X].
  - intros e. split; [by intros ?%elem_of_nil|]. intros [Hop _]%edge_tall. by apply Hnone in Hop.
  - intros B HB. split; [constructor|]. split; try (by intros ? ?%elem_of_nil); try (by intros ? ? ? ?%elem_of_nil); [|by intros ? ? ? ? ?%elem_of_nil|constructor].
    intros i x y Hx (r & Hr & Hw). exfalso. assert (MkEvent START (left r) i ∈ h) as Hin.
    { apply He. eapply edge_start. exists r. unfold valid, within in *. split_and!; [done|lia..|done|done]. }
    unfold within in Hw. destruct HB as [HB|[-> _]]; [|by apply elem_of_nil in Hin].
    rewrite HB in Hc. apply (coming_next _ _ _ Hc) in Hin. cbn in Hin. lia.
Qed.
End Sweep.

Lemma separate_rects_tiled (rects : list Rect) (out : list RectSet) : (length rects <= 64)%nat ->
  exists res X, separate_rects rects out = Done (out ++ res) /\ forall B, X < B -> tiled rects B res.
Proof.
  intros Hlen. destruct (sweep_all rects Hlen out) as (res & X & E & Ht). exists res, X. split; [|done].
  unfold separate_rects, max_elements. rewrite (proj2 (Z.ltb_ge _ _)) by lia. exact E.
Qed.

(** More are given up. *)
Lemma separate_rects_many (rects : list Rect) (out : list RectSet) : (64 < length rects)%nat -> separate_rects rects out = Done out.
Proof. intros Hlen. unfold separate_rects, max_elements. by rewrite (proj2 (Z.ltb_lt _ _)) by lia. Qed.

(** C7. For at most 64 rectangles separate_rects appends rectangles that are not
    empty and do not overlap: a point that the input covers is in exactly one of
    them, and the bits of that one's set are the indices of the rectangles of
    the input that the point is in. *)
Theorem separate_rects_partition (rects : list Rect) (out : list RectSet) :
  (length rects <= 64)%nat ->
  exists res, separate_rects rects out = Done (out ++ res) /\ NoDup res /\
    (forall p, p ∈ res -> valid (rect p) /\ id_set p <> 0) /\
    (forall p x y i, p ∈ res -> within (rect p) x y ->
      Z.testbit (id_set p) (Z.of_nat i) = true <-> exists r, rects !! i = Some r /\ within r x y) /\
    (forall i r x y, rects !! i = Some r -> within r x y -> exists! p, p ∈ res /\ within (rect p) x y).
Proof.
  intros Hlen. destruct (separate_rects_tiled rects out Hlen) as (res & X & E & Ht). exists res. split_and!; [done|..].
  - apply (tiled_nodup rects (X + 1)), Ht. lia.
  - intros p. apply (tiled_shape rects (X + 1)), Ht. lia.
  - assert (tiled rects (X + 1) res) as HX by (apply Ht; lia). intros p x y i Hp Hw.
    by apply (tiled_ids _ _ _ HX p x y Hp Hw).
  - intros i r x y Hr Hw. assert (X < Z.max X x + 1) as HB by lia.
    destruct (tiled_all _ _ _ (Ht _ HB) i x y) as (p & Hp & Hwp); [lia|by exists r|].
    exists p. split; [done|]. intros q [Hq Hwq]. by apply (tiled_once _ _ _ (Ht _ HB) p q x y).
Qed.

(** The rectangles of the test in the source. *)
Lemma separate_rects_partition_witness : exists res, separate_rects test_rects [] = Done res /\ NoDup res /\
  (forall p x y i, p ∈ res -> within (rect p) x y ->
      Z.testbit (id_set p) (Z.of_nat i) = true <-> exists r, test_rects !! i = Some r /\ within r x y).
Proof.
  assert (length test_rects <= 64)%nat as Hlen by (vm_compute; lia).
  destruct (separate_rects_partition test_rects [] Hlen) as (res & E & Hnd & _ & Hids & _). by exists res.
Defined.
