(* ===== verification/Planner.v ===== *)
(** * Planner: hardware planes for layers, drm_hwcomposer/platform.cpp and platformnv.cpp

    Planner::ProvisionPlanes and the five stages the planner of this device is
    made of.  A std::map from z-orders to layers is a list in the order of the
    z-orders; erasing an entry while iterating leaves it out of what is kept.
    Planes are compared as the pointers they are, so that different planes are
    different records.  Numbers are those of the code: a frame's width is an
    int, whose overflow is undefined; a crop's is a float.

    The theorems: no plane is used twice, the planes of layers lie below the
    plane of the composition, which lies below the squash plane; layers on
    planes of their own are in z-order, and nothing below them is composed
    above them unless they are protected; no layer that is not protected is
    lost as long as a plane is left for it. *)

From S2P Require Import Prelude Float32.
From stdpp Require Import sorting.
From S2P Require Import SeparateRects.

Open Scope Z_scope.

(** ** Layers, planes, compositions *)

Definition ENOENT : Z := 2.
Definition ENODEV : Z := 19.

Variant PlaneType : Type := DRM_PLANE_TYPE_OVERLAY | DRM_PLANE_TYPE_PRIMARY | DRM_PLANE_TYPE_CURSOR.

Record DrmCrtc : Type := MkCrtc { crtc_pipe : Z; crtc_display : Z }.

Record DrmPlane : Type := MkPlane { plane_id : Z; plane_type : PlaneType; possible_crtc_mask_ : Z }.

#[export] Instance PlaneType_eq_dec : EqDecision PlaneType.
Proof. solve_decision. Defined.

#[export] Instance DrmPlane_eq_dec : EqDecision DrmPlane.
Proof. solve_decision. Defined.

#[export] Instance DrmCrtc_eq_dec : EqDecision DrmCrtc.
Proof. solve_decision. Defined.

Definition GetCrtcSupported (plane : DrmPlane) (crtc : DrmCrtc) : bool :=
  negb (Z.land (u32 (Z.shiftl 1 (crtc_pipe crtc))) (possible_crtc_mask_ plane) =? 0).

(** The formats CheckLayer names. *)
Variant DrmFormat : Type :=
| DRM_FORMAT_ARGB8888 | DRM_FORMAT_ABGR8888 | DRM_FORMAT_XBGR8888 | DRM_FORMAT_XRGB8888
| DRM_FORMAT_YVU420 | DRM_FORMAT_YUV420 | DRM_FORMAT_YUV422 | DRM_FORMAT_UYVY | DRM_FORMAT_YUYV
| DRM_FORMAT_NV12 | DRM_FORMAT_NV21 | DRM_FORMAT_RGB565 | DRM_FORMAT_BGR565
| DRM_FORMAT_OTHER.

Variant DrmHwcBlending : Type := kNone | kPreMult | kCoverage.

#[export] Instance DrmHwcBlending_eq_dec : EqDecision DrmHwcBlending.
Proof. solve_decision. Defined.

Definition kFlipH : Z := 1.
Definition kFlipV : Z := 2.
Definition kRotate90 : Z := 4.
Definition kRotate180 : Z := 8.
Definition kRotate270 : Z := 16.

(** [protected_usage] is what the function of that name computes from the
    usage; [release_fence] that there is one; [imported] is the framebuffer of
    a buffer that was imported. *)
Record DrmHwcLayer : Type := MkLayer {
  sf_handle : Z;
  protected_usage : bool;
  buffer_format : DrmFormat;
  transform : Z;
  blending : DrmHwcBlending;
  crop_left : float; crop_top : float; crop_right : float; crop_bottom : float;
  display_frame : Rect;
  release_fence : bool;
  alpha : Z;
  acquire_fence : Z;
  imported : option Z
}.

Variant CompositionType : Type := kDisable | kLayer | kPrecomp | kSquash.

#[export] Instance CompositionType_eq_dec : EqDecision CompositionType.
Proof. solve_decision. Defined.

Record DrmCompositionPlane : Type := MkComposition {
  comp_type : CompositionType;
  comp_plane : option DrmPlane;
  comp_crtc : DrmCrtc;
  source_layers : list nat
}.

Definition add_source (i : nat) (p : DrmCompositionPlane) : DrmCompositionPlane :=
  MkComposition (comp_type p) (comp_plane p) (comp_crtc p) (source_layers p ++ [i]).

(** Rect<int>::width, height and area. *)
Definition int_checked (z : Z) : outcome Z := if (-2147483648 <=? z) && (z <=? 2147483647) then Done z else Fault.
Definition width (r : Rect) : outcome Z := int_checked (right r - left r).
Definition height (r : Rect) : outcome Z := int_checked (bottom r - top r).
Definition area (r : Rect) : outcome Z := w ← width r; h ← height r; int_checked (w * h).

(** ** Stages *)

Notation zlayer := (nat * DrmHwcLayer)%type (only parsing).

(** What a stage changes: the composition, and the planes that are left. *)
Record plan_state : Type := MkPlan { composition : list DrmCompositionPlane; planes : list DrmPlane }.

(** for (i = begin; i != end;) with ++i for what is kept, and erase. *)
Fixpoint erase_loop (keep : zlayer -> outcome bool) (body : zlayer -> plan_state -> plan_state)
    (layers : list zlayer) (s : plan_state) : outcome (list zlayer * plan_state) :=
  match layers with
  | [] => Done ([], s)
  | i :: layers =>
      k ← keep i;
      if (k : bool) then '(layers, s) ← erase_loop keep body layers s; Done (i :: layers, s)
      else erase_loop keep body layers (body i s)
  end.

Definition is_precomp (p : DrmCompositionPlane) : bool := bool_decide (comp_type p = kPrecomp).

Definition GetPrecomp (c : list DrmCompositionPlane) : option nat := find_idx is_precomp c.

(** Emplace: before the precomp plane, or at the end; [None] is -ENOENT. *)
Definition Emplace (type : CompositionType) (crtc : DrmCrtc) (source_layer : nat) (s : plan_state) : option plan_state :=
  match planes s with
  | [] => None
  | plane :: planes =>
      let i := default (length (composition s)) (GetPrecomp (composition s)) in
      Some (MkPlan (take i (composition s) ++ MkComposition type (Some plane) crtc [source_layer] :: drop i (composition s)) planes)
  end.

(** A layer for the precomp plane, which is queued if it is not there yet. *)
Definition to_precomp (crtc : DrmCrtc) (i : zlayer) (s : plan_state) : plan_state :=
  match GetPrecomp (composition s) with
  | Some k => MkPlan (alter (add_source (fst i)) k (composition s)) (planes s)
  | None =>
      match last (planes s) with
      | Some plane =>
          MkPlan (composition s ++ [MkComposition kPrecomp (Some plane) crtc [fst i]])
            (take (length (planes s) - 1) (planes s))
      | None => s
      end
  end.

Definition PlanStage : Type := DrmCrtc -> list zlayer -> plan_state -> outcome (Z * list zlayer * plan_state).

(** The second loop of the stages for protected layers. *)
Definition below_protected (crtc : DrmCrtc) (protected_zorder : Z) (layers : list zlayer) (s : plan_state)
    : outcome (Z * list zlayer * plan_state) :=
  if protected_zorder =? -1 then Done (0, layers, s)
  else
    '(layers, s) ← erase_loop (fun i => Done (protected_zorder <? Z.of_nat (fst i))) (to_precomp crtc) layers s;
    Done (0, layers, s).

(** The last of the layers that the first loop erases has the z-order that is kept. *)
Definition last_zorder (layers : list zlayer) : Z := default (-1) ((fun i => Z.of_nat (fst i)) <$> last layers).

Definition dedicate (crtc : DrmCrtc) (i : zlayer) (s : plan_state) : plan_state :=
  default s (Emplace kLayer crtc (fst i) s).

Definition is_protected (x : zlayer) : Prop := protected_usage (snd x) = true.

Definition PlanStageProtected : PlanStage := fun crtc layers s =>
  '(rest, s) ← erase_loop (fun i => Done (negb (protected_usage (snd i)))) (dedicate crtc) layers s;
  below_protected crtc (last_zorder (filter is_protected layers)) rest s.

Definition is_primary (p : DrmPlane) : bool := bool_decide (plane_type p = DRM_PLANE_TYPE_PRIMARY).

(** The rotated layer in the primary plane; [protected_zorder] is changed when there is one. *)
Fixpoint rotated_loop (crtc : DrmCrtc) (layers : list zlayer) (protected_zorder : Z) (s : plan_state)
    : list zlayer * Z * plan_state :=
  match layers with
  | [] => ([], protected_zorder, s)
  | i :: layers =>
      if negb (protected_usage (snd i)) || (transform (snd i) =? 0) then
        let '(layers, z, s) := rotated_loop crtc layers protected_zorder s in (i :: layers, z, s)
      else
        match find_idx is_primary (planes s) with
        | Some k =>
            rotated_loop crtc layers (Z.of_nat (fst i))
              (MkPlan (MkComposition kLayer (planes s !! k) crtc [fst i] :: composition s)
                 (delete k (planes s)))
        | None => rotated_loop crtc layers protected_zorder s
        end
  end.

Definition PlanStageProtectedRotated : PlanStage := fun crtc layers s =>
  let '(layers, protected_zorder, s) := rotated_loop crtc layers (-1) s in
  below_protected crtc protected_zorder layers s.

(** PlanStageNvLimits::CheckLayer *)
Definition v_limit (format : DrmFormat) : Z :=
  match format with
  | DRM_FORMAT_ARGB8888 | DRM_FORMAT_ABGR8888 | DRM_FORMAT_XBGR8888 | DRM_FORMAT_XRGB8888 => 2
  | DRM_FORMAT_OTHER => 2
  | _ => 4
  end.

Definition has_alpha_check (format : DrmFormat) : bool :=
  match format with
  | DRM_FORMAT_ARGB8888 | DRM_FORMAT_ABGR8888 | DRM_FORMAT_XBGR8888 | DRM_FORMAT_XRGB8888 => true
  | _ => false
  end.

Definition CheckLayer (zorder : nat) (layer : DrmHwcLayer) : outcome bool :=
  let src_w := fsub (crop_right layer) (crop_left layer) in
  let src_h := fsub (crop_bottom layer) (crop_top layer) in
  dst_w ← width (display_frame layer);
  dst_h ← height (display_frame layer);
  if has_alpha_check (buffer_format layer) && (0 <? zorder)%nat && negb (bool_decide (blending layer = kPreMult))
  then Done false
  else
    let '(dst_w, dst_h) := if negb (Z.land (transform layer) (Z.lor kRotate90 kRotate270) =? 0)
                           then (dst_h, dst_w) else (dst_w, dst_h) in
    Done (negb (fgt (fdiv src_w (f_of_Z dst_w)) (f_of_Z 4) ||
                fgt (fdiv src_h (f_of_Z dst_h)) (f_of_Z (v_limit (buffer_format layer))))).

Definition nv_limit_body (crtc : DrmCrtc) (i : zlayer) (s : plan_state) : plan_state :=
  if protected_usage (snd i) then s else to_precomp crtc i s.

Definition PlanStageNvLimits : PlanStage := fun crtc layers s =>
  '(layers, s) ← erase_loop (fun i => CheckLayer (fst i) (snd i)) (nv_limit_body crtc) layers s;
  Done (0, layers, s).

(** std::min_element *)
Definition min_element (x : nat) (l : list nat) : nat := foldl (fun a b => if (b <? a)%nat then b else a) x l.

Definition PlanStagePrecomp : PlanStage := fun crtc layers s =>
  match GetPrecomp (composition s) with
  | None => Done (0, layers, s)
  | Some k =>
      precomp ← access (composition s !! k);
      match source_layers precomp with
      | [] => Done (0, layers, s)
      | x :: l =>
          '(layers, s) ← erase_loop (fun i => Done (fst i <? min_element x l)%nat)
            (fun i s => MkPlan (alter (add_source (fst i)) k (composition s)) (planes s)) layers s;
          Done (0, layers, s)
      end
  end.

(** Until there are no planes left. *)
Fixpoint greedy_fill (crtc : DrmCrtc) (layers : list zlayer) (s : plan_state) : list zlayer * plan_state :=
  match layers with
  | [] => ([], s)
  | i :: rest =>
      match Emplace kLayer crtc (fst i) s with
      | Some s => greedy_fill crtc rest s
      | None => (layers, s)
      end
  end.

Definition PlanStageGreedy : PlanStage := fun crtc layers s =>
  let '(layers, s) := greedy_fill crtc layers s in
  match GetPrecomp (composition s) with
  | Some k =>
      '(layers, s) ← erase_loop (fun _ => Done false)
        (fun i s => MkPlan (alter (add_source (fst i)) k (composition s)) (planes s)) layers s;
      Done (0, layers, s)
  | None => Done (0, layers, s)
  end.

(** ** The planner *)

Fixpoint run_stages (stages : list PlanStage) (crtc : DrmCrtc) (layers : list zlayer) (s : plan_state)
    : outcome (Z * list zlayer * plan_state) :=
  match stages with
  | [] => Done (0, layers, s)
  | stage :: stages =>
      '(ret, layers, s) ← stage crtc layers s;
      if ret =? 0 then run_stages stages crtc layers s else Done (ret, layers, s)
  end.

(** Planner::CreateInstance of platformnv.cpp, and of platformdrmgeneric.cpp. *)
Definition nv_stages : list PlanStage :=
  [PlanStageNvLimits; PlanStageProtectedRotated; PlanStageProtected; PlanStagePrecomp; PlanStageGreedy].
Definition generic_stages : list PlanStage := [PlanStageGreedy].

Definition GetUsablePlanes (crtc : DrmCrtc) (primary_planes overlay_planes : list DrmPlane) : list DrmPlane :=
  filter (fun p => GetCrtcSupported p crtc = true) primary_planes ++
  filter (fun p => GetCrtcSupported p crtc = true) overlay_planes.

(** planes.back() and pop_back(). *)
Definition reserve (l : list DrmPlane) : option DrmPlane * list DrmPlane := (last l, take (length l - 1) l).

(** The result with the layers that no stage has erased. *)
Definition ProvisionPlanes (stages : list PlanStage) (layers : list zlayer) (use_squash_fb : bool) (crtc : DrmCrtc)
    (primary_planes overlay_planes : list DrmPlane) : outcome (Z * list DrmCompositionPlane * list zlayer) :=
  match GetUsablePlanes crtc primary_planes overlay_planes with
  | [] => Done (- ENODEV, [], layers)
  | usable =>
      let '(squash_plane, planes) := if use_squash_fb then reserve usable else (None, usable) in
      let '(precomp_plane, planes) :=
        if (length planes <? length layers)%nat then reserve planes else (None, planes) in
      let reserved := match precomp_plane with
                         | Some p => [MkComposition kPrecomp (Some p) crtc []]
                         | None => []
                         end in
      '(ret, layers, s) ← run_stages stages crtc layers (MkPlan reserved planes);
      if negb (ret =? 0) then Done (ret, [], layers)
      else
        Done (0, composition s ++ match squash_plane with
                                         | Some p => [MkComposition kSquash (Some p) crtc []]
                                         | None => []
                                         end, layers)
  end.

(** ** Loops that erase *)

Lemma erase_loop_inv keep body (I : list zlayer -> plan_state -> Prop) :
  (forall pre i post s, (forall x, x ∈ pre -> keep x = Done true) -> keep i = Done false ->
     I (pre ++ i :: post) s -> I (pre ++ post) (body i s)) ->
  forall layers pre s layers' s', (forall x, x ∈ pre -> keep x = Done true) ->
    erase_loop keep body layers s = Done (layers', s') -> I (pre ++ layers) s -> I (pre ++ layers') s'.
Proof.
  intros Hbody. induction layers as [|i layers IH]; intros pre s layers' s' Hpre E HI; cbn in E.
  - by injection E as <- <-.
  - apply bind_Done in E as ([] & Hk & E).
    + apply bind_Done in E as ([l s1] & E1 & E2). injection E2 as <- <-.
      change (i :: l) with ([i] ++ l). rewrite app_assoc. apply (IH _ s); [|done|by rewrite <- app_assoc].
      intros x [?| ->%list_elem_of_singleton]%elem_of_app; auto.
    + eapply IH; [done|exact E|]. by apply Hbody.
Qed.

Lemma erase_loop_kept keep body layers : forall s layers' s',
  erase_loop keep body layers s = Done (layers', s') ->
  layers' `sublist_of` layers /\ (forall i, i ∈ layers' -> keep i = Done true).
Proof.
  induction layers as [|i layers IH]; intros s layers' s' E; cbn in E.
  - injection E as <- <-. split; [done|]. by intros ? ?%elem_of_nil.
  - apply bind_Done in E as ([] & Hk & E).
    + apply bind_Done in E as ([l s1] & E1 & E2). injection E2 as <- <-. destruct (IH _ _ _ E1) as [Hs Hl].
      split; [by constructor|]. by intros j [-> | ?%Hl]%elem_of_cons.
    + destruct (IH _ _ _ E) as [Hs Hl]. split; [by constructor|done].
Qed.

Lemma erase_loop_total keep body layers : (forall i, i ∈ layers -> is_Some (outcome_value (keep i))) ->
  forall s, exists layers' s', erase_loop keep body layers s = Done (layers', s').
Proof.
  induction layers as [|i layers IH]; intros Hk s; cbn; [by eauto|].
  destruct (Hk i) as [b Hb]; [by left|]. destruct (keep i) as [b'| |]; [|done..]. cbn.
  assert (forall j, j ∈ layers -> is_Some (outcome_value (keep j))) as Hk' by (intros j Hj; apply Hk; by right).
  destruct b'; [|by apply IH]. destruct (IH Hk' s) as (l & s' & ->). cbn. by eauto.
Qed.

(** ** Plans: layers on planes of their own, and then the precomp plane *)

Record layout : Type := MkLayout {
  own : list (nat * DrmPlane);
  precomp : option (list nat * DrmPlane);
  free : list DrmPlane
}.

Definition own_plane (crtc : DrmCrtc) (x : nat * DrmPlane) : DrmCompositionPlane :=
  MkComposition kLayer (Some (snd x)) crtc [fst x].

Definition precomp_plane (crtc : DrmCrtc) (x : list nat * DrmPlane) : DrmCompositionPlane :=
  MkComposition kPrecomp (Some (snd x)) crtc (fst x).

Definition compose (crtc : DrmCrtc) (a : layout) : list DrmCompositionPlane :=
  (own_plane crtc <$> own a) ++ (precomp_plane crtc <$> option_list (precomp a)).

Definition plan_of (crtc : DrmCrtc) (a : layout) : plan_state := MkPlan (compose crtc a) (free a).

Definition composed (a : layout) : list nat := from_option fst [] (precomp a).

Lemma find_idx_app {A} (p : A -> bool) l1 l2 : (forall x, x ∈ l1 -> p x = false) ->
  find_idx p (l1 ++ l2) = Nat.add (length l1) <$> find_idx p l2.
Proof.
  induction l1 as [|x l1 IH]; intros H; cbn; [by destruct (find_idx p l2)|].
  rewrite H by (by left). rewrite IH; [by destruct (find_idx p l2)|]. intros y ?. apply H. by right.
Qed.

Lemma GetPrecomp_compose crtc a : GetPrecomp (compose crtc a) = (fun _ => length (own a)) <$> precomp a.
Proof.
  unfold GetPrecomp, compose. rewrite find_idx_app.
  - rewrite length_fmap. destruct (precomp a) as [q|]; [|done]. change (find_idx is_precomp _) with (Some 0%nat).
    cbn. by rewrite Nat.add_0_r.
  - by intros x (y & -> & _)%list_elem_of_fmap.
Qed.

Lemma Emplace_compose crtc i a : Emplace kLayer crtc i (plan_of crtc a) =
  match free a with
  | [] => None
  | p :: ps => Some (plan_of crtc (MkLayout (own a ++ [(i, p)]) (precomp a) ps))
  end.
Proof.
  unfold Emplace, plan_of. cbn [planes composition]. rewrite GetPrecomp_compose. destruct (free a) as [|p ps]; [done|].
  unfold compose. cbn [own precomp free]. rewrite fmap_app, <- app_assoc. repeat f_equal; destruct (precomp a); cbn.
  - by rewrite take_app_length' by (by rewrite length_fmap).
  - by rewrite !app_nil_r, firstn_all.
  - by rewrite drop_app_length' by (by rewrite length_fmap).
  - by rewrite !app_nil_r, drop_all.
Qed.

Lemma add_precomp_compose crtc i a q : precomp a = Some q ->
  alter (add_source i) (length (own a)) (compose crtc a) =
  compose crtc (MkLayout (own a) (Some (fst q ++ [i], snd q)) (free a)).
Proof.
  intros E. unfold compose. rewrite E. cbn [own precomp].
  rewrite <- (length_fmap (own_plane crtc)), alter_app_r_alt by done. by rewrite Nat.sub_diag.
Qed.

Lemma last_take {A} (l : list A) x : last l = Some x -> l = take (length l - 1) l ++ [x].
Proof.
  destruct l as [|y l' _] using rev_ind; [done|]. rewrite list.last_snoc. intros [= ->].
  rewrite length_app. cbn. rewrite take_app_length'; [done|lia].
Qed.

(** What the operations of the stages do to the layout. *)
Definition put_precomp (i : nat) (a : layout) : layout :=
  match precomp a with
  | Some (q, p) => MkLayout (own a) (Some (q ++ [i], p)) (free a)
  | None => match last (free a) with
            | Some p => MkLayout (own a) (Some ([i], p)) (take (length (free a) - 1) (free a))
            | None => a
            end
  end.

Definition put_own (i : nat) (a : layout) : layout :=
  match free a with
  | [] => a
  | p :: ps => MkLayout (own a ++ [(i, p)]) (precomp a) ps
  end.

Lemma to_precomp_layout crtc i a : to_precomp crtc i (plan_of crtc a) = plan_of crtc (put_precomp (fst i) a).
Proof.
  unfold to_precomp, put_precomp, plan_of. cbn [composition planes]. rewrite GetPrecomp_compose.
  destruct (precomp a) as [[q p]|] eqn:E; cbn [fmap option_fmap option_map].
  - by rewrite (add_precomp_compose _ _ _ _ E).
  - destruct (last (free a)); [|done]. unfold compose. cbn [own precomp free]. rewrite E. cbn. by rewrite app_nil_r.
Qed.

Lemma dedicate_layout crtc i a : dedicate crtc i (plan_of crtc a) = plan_of crtc (put_own (fst i) a).
Proof. unfold dedicate, put_own. rewrite Emplace_compose. by destruct (free a). Qed.

Lemma count_Permutation {A} (p : A -> bool) (l1 l2 : list A) : l1 ≡ₚ l2 -> count p l1 = count p l2.
Proof. induction 1; cbn; repeat case_match; lia. Qed.

(** ** What every stage keeps *)

Section Stages.
Context (crtc : DrmCrtc) (planes0 : list DrmPlane) (layers0 : list zlayer).
Context (keys_ordered : StronglySorted lt layers0.*1).

Definition protected (i : nat) : Prop := exists l, (i, l) ∈ layers0 /\ protected_usage l = true.

Record planned (a : layout) (layers : list zlayer) : Prop := {
  planned_planes : (own a).*2 ++ option_list (snd <$> precomp a) ++ free a ≡ₚ planes0;
  planned_layers : layers `sublist_of` layers0;
  planned_sources : (own a).*1 ++ composed a ++ layers.*1 ⊆+ layers0.*1;
  planned_room : planes0 <> [] -> precomp a <> None \/ (length layers <= length (free a))%nat;
  planned_kept : planes0 <> [] -> forall i l, (i, l) ∈ layers0 -> protected_usage l = false ->
    i ∈ (own a).*1 ++ composed a ++ layers.*1
}.

Lemma same_layer i l l' : (i, l) ∈ layers0 -> (i, l') ∈ layers0 -> l = l'.
Proof.
  clear - keys_ordered. induction layers0 as [|[j m] ls IH]; [by intros ?%elem_of_nil|].
  apply StronglySorted_inv in keys_ordered as [Hs Hj]. rewrite Forall_forall in Hj.
  assert (forall k, (j, k) ∉ ls) as Hno.
  { intros k Hk%(list_elem_of_fmap_2 fst)%Hj. cbn in Hk. lia. }
  rewrite !elem_of_cons. intros [[= -> ->]|H1] [[= ->]|H2]; try done.
  - by destruct (Hno _ H2).
  - subst. by destruct (Hno _ H1).
  - by apply IH.
Qed.

Lemma planned_removed (pre post : list zlayer) i : pre ++ i :: post `sublist_of` layers0 -> pre ++ post `sublist_of` layers0.
Proof. intros H. etransitivity; [|exact H]. apply sublist_app; [done|by constructor]. Qed.

Lemma planned_move (pre post : list zlayer) (i : zlayer) (l : list nat) :
  l ++ (pre ++ i :: post).*1 ≡ₚ l ++ [fst i] ++ (pre ++ post).*1.
Proof. rewrite !fmap_app, fmap_cons. cbn. by rewrite Permutation_middle. Qed.

Lemma planned_drop a pre i post : planned a (pre ++ i :: post) -> protected_usage (snd i) = true \/ planes0 = [] ->
  planned a (pre ++ post).
Proof.
  intros [Hp Hl Hs Hr Hk] Hprot. split; [done|by eapply planned_removed|..].
  - etransitivity; [|exact Hs]. rewrite (app_assoc _ _ (pre ++ post).*1), (app_assoc _ _ (pre ++ i :: post).*1).
    rewrite (planned_move _ _ _ (_ ++ _)). apply submseteq_app; [done|]. by apply submseteq_cons.
  - intros Hne. destruct (Hr Hne) as [|Hlen]; [by left|right]. rewrite length_app in *. cbn in Hlen. lia.
  - intros Hne j l Hj Hu. specialize (Hk Hne j l Hj Hu). rewrite !fmap_app, !elem_of_app.
    rewrite !fmap_app, fmap_cons, !elem_of_app, elem_of_cons in Hk. destruct Hk as [?|[?|[?|[->|?]]]]; auto.
    destruct Hprot as [Hprot|]; [|done]. destruct i as [i l']. cbn in *.
    assert ((i, l') ∈ layers0) as Hi by (eapply elem_of_submseteq; [|by apply sublist_submseteq]; apply elem_of_app; right; by left).
    rewrite (same_layer _ _ _ Hj Hi) in Hu. congruence.
Qed.

Lemma planned_precomp a pre i post : planned a (pre ++ i :: post) -> planned (put_precomp (fst i) a) (pre ++ post).
Proof.
  intros Ha. pose proof Ha as [Hp Hl Hs Hr Hk]. unfold put_precomp.
  pose proof (planned_removed _ _ _ Hl) as Hl'.
  destruct (precomp a) as [[q p]|] eqn:E; [|destruct (last (free a)) as [p|] eqn:El].
  - unfold composed in *. rewrite E in *. cbn in *. split; cbn; rewrite <- ?app_assoc; [done..| | |].
    + etransitivity; [|exact Hs]. apply submseteq_app; [done|]. by rewrite (planned_move pre post i q).
    + by left.
    + intros Hne j l Hj Hu. specialize (Hk Hne j l Hj Hu). by rewrite (planned_move pre post i q) in Hk.
  - apply last_take in El. set (f := take _ _) in *. unfold composed in *. rewrite E in *. cbn in *. split; cbn; [|done|..].
    + rewrite <- Hp, El. f_equiv. by rewrite <- Permutation_cons_append.
    + etransitivity; [|exact Hs]. apply submseteq_app; [done|]. by rewrite (planned_move pre post i []).
    + by left.
    + intros Hne j l Hj Hu. specialize (Hk Hne j l Hj Hu). by rewrite (planned_move pre post i []) in Hk.
  - apply (planned_drop a pre i post Ha). right. apply last_None in El. destruct planes0 as [|p0 ps0]; [done|].
    destruct Hr as [?|Hlen]; [done..|]. rewrite El, length_app in Hlen. cbn in Hlen. lia.
Qed.

Lemma planned_place a pre i post p ps l : planned a (pre ++ i :: post) -> free a ≡ₚ p :: ps ->
  l ≡ₚ own a ++ [(fst i, p)] -> planned (MkLayout l (precomp a) ps) (pre ++ post).
Proof.
  intros Ha E El. destruct Ha as [Hp Hl Hs Hr Hk]. pose proof (planned_removed _ _ _ Hl) as Hl'.
  unfold composed in *. split; cbn; [..|done| | |].
  - rewrite <- Hp, El, E, fmap_app, <- app_assoc. f_equiv. cbn. apply Permutation_middle.
  - etransitivity; [|exact Hs]. rewrite El, fmap_app, <- app_assoc. apply submseteq_app; [done|].
    rewrite (planned_move pre post i). cbn. by rewrite Permutation_middle.
  - intros Hne. destruct (Hr Hne) as [|Hlen]; [by left|right]. rewrite E, length_app in Hlen. rewrite length_app. cbn in *. lia.
  - intros Hne j k Hj Hu. specialize (Hk Hne j k Hj Hu). rewrite (planned_move pre post i) in Hk.
    rewrite El, (fmap_app _ (own a)), !elem_of_app. rewrite !elem_of_app in Hk. cbn. tauto.
Qed.

Lemma planned_own a pre i post : planned a (pre ++ i :: post) -> protected_usage (snd i) = true \/ free a <> [] ->
  planned (put_own (fst i) a) (pre ++ post).
Proof.
  intros Ha Hfree. unfold put_own. destruct (free a) as [|p ps] eqn:E.
  - apply (planned_drop a pre i post Ha). left. by destruct Hfree.
  - eapply planned_place; [exact Ha|by rewrite E|done].
Qed.

(** A loop whose turns keep what is planned and a property of the layout. *)
Lemma erase_loop_planned keep body (Q : list zlayer -> layout -> Prop) :
  (forall pre i post a, (forall x, x ∈ pre -> keep x = Done true) -> keep i = Done false ->
     planned a (pre ++ i :: post) -> Q (pre ++ i :: post) a ->
     exists a', body i (plan_of crtc a) = plan_of crtc a' /\ planned a' (pre ++ post) /\ Q (pre ++ post) a') ->
  forall layers a layers' s', erase_loop keep body layers (plan_of crtc a) = Done (layers', s') ->
    planned a layers -> Q layers a -> exists a', s' = plan_of crtc a' /\ planned a' layers' /\ Q layers' a'.
Proof.
  intros Hbody layers a layers' s' E Ha HQ.
  apply (erase_loop_inv keep body (fun l s => exists a, s = plan_of crtc a /\ planned a l /\ Q l a)) with (pre := []) in E.
  - done.
  - intros pre i post s Hpre Hk (a1 & -> & Ha1 & HQ1). destruct (Hbody pre i post a1 Hpre Hk Ha1 HQ1) as (a2 & -> & ?). by exists a2.
  - by intros ? ?%elem_of_nil.
  - by exists a.
Qed.

Lemma put_precomp_own i a : own (put_precomp i a) = own a.
Proof. unfold put_precomp. destruct (precomp a) as [[]|]; [done|]. by destruct (last (free a)). Qed.

Lemma nv_limits_planned a layers r : PlanStageNvLimits crtc layers (plan_of crtc a) = Done r -> planned a layers ->
  exists layers' a', r = (0, layers', plan_of crtc a') /\ planned a' layers' /\ own a' = own a.
Proof.
  intros ([layers' s'] & E & E')%bind_Done Ha. injection E' as <-.
  apply erase_loop_planned with (Q := fun _ a' => own a' = own a) in E as (a' & -> & Ha' & HQ); [by exists layers', a'| |done|done].
  - intros pre i post a1 _ _ Ha1 HQ. unfold nv_limit_body. destruct (protected_usage (snd i)) eqn:Hp.
    + exists a1. split_and!; [done|apply (planned_drop a1 pre i post Ha1); by left|done].
    + exists (put_precomp (fst i) a1). rewrite to_precomp_layout, put_precomp_own. split_and!; [done|by apply planned_precomp|done].
Qed.

Lemma below_protected_planned a layers z r : below_protected crtc z layers (plan_of crtc a) = Done r -> planned a layers ->
  exists layers' a', r = (0, layers', plan_of crtc a') /\ planned a' layers' /\ own a' = own a /\
    (z <> -1 -> forall i, i ∈ layers'.*1 -> z < Z.of_nat i) /\ layers' `sublist_of` layers.
Proof.
  unfold below_protected. destruct (Z.eqb_spec z (-1)) as [->|Hz]; intros E Ha.
  - injection E as <-. exists layers, a. split_and!; done.
  - apply bind_Done in E as ([layers' s'] & E & E'). injection E' as <-.
    pose proof (erase_loop_kept _ _ _ _ _ _ E) as [Hs Hk].
    apply erase_loop_planned with (Q := fun _ a' => own a' = own a) in E as (a' & -> & Ha' & HQ); [| |done|done]; cycle 1.
    + intros pre i post a1 _ _ Ha1 HQ. exists (put_precomp (fst i) a1).
      rewrite to_precomp_layout, put_precomp_own. split_and!; [done|by apply planned_precomp|done].
    + exists layers', a'. split_and!; try done.
      intros _ i (x & -> & Hx)%list_elem_of_fmap. apply Hk in Hx. injection Hx as Hx%Z.ltb_lt. done.
Qed.

(** Own planes of protected layers, in z-order and below what is left. *)
Record grounded (a : layout) (layers : list zlayer) : Prop := {
  grounded_order : StronglySorted lt (own a).*1;
  grounded_protected : forall d, d ∈ (own a).*1 -> protected d;
  grounded_below : forall d i, d ∈ (own a).*1 -> i ∈ layers.*1 -> (d < i)%nat
}.

Lemma planned_member a layers x : planned a layers -> x ∈ layers -> x ∈ layers0.
Proof. intros Ha Hx. by eapply elem_of_sublist, Ha. Qed.

Lemma planned_protected a layers x : planned a layers -> x ∈ layers -> protected_usage (snd x) = true -> protected (fst x).
Proof. intros Ha Hx Hp. exists (snd x). split; [|done]. destruct x. by eapply planned_member. Qed.

Lemma sorted_sublist l1 l2 : l1 `sublist_of` l2 -> StronglySorted lt l2 -> StronglySorted lt l1.
Proof.
  induction 1 as [|x l1 l2 Hl IH|x l1 l2 Hl IH]; [done|..]; intros [Hs Hx]%StronglySorted_inv; [|auto].
  constructor; [auto|]. rewrite Forall_forall in *. intros y Hy. apply Hx. by eapply elem_of_sublist.
Qed.

Lemma planned_sorted a layers : planned a layers -> StronglySorted lt layers.*1.
Proof. intros Ha. eapply sorted_sublist, keys_ordered. apply fmap_sublist, Ha. Qed.

Lemma sorted_app (l1 l2 : list nat) : StronglySorted lt (l1 ++ l2) <->
  StronglySorted lt l1 /\ StronglySorted lt l2 /\ (forall x y, x ∈ l1 -> y ∈ l2 -> (x < y)%nat).
Proof.
  induction l1 as [|z l1 IH]; cbn.
  - split; [intros H; split_and!; [constructor|done|by intros ? ? ?%elem_of_nil]|tauto].
  - split.
    + intros [(H1 & H2 & H3)%IH Hz]%StronglySorted_inv. rewrite Forall_forall in Hz. split_and!; [constructor; [done|]|done|].
      * apply Forall_forall. intros y Hy. apply Hz, elem_of_app. by left.
      * intros x y [-> | Hx]%elem_of_cons Hy; [apply Hz, elem_of_app; by right|auto].
    + intros ([H1 Hz]%StronglySorted_inv & H2 & H3). rewrite Forall_forall in Hz.
      constructor; [apply IH; split_and!; [done..|]; intros; apply H3; [by right|done]|].
      apply Forall_forall. intros y [Hy|Hy]%elem_of_app; [auto|]. apply H3; [by left|done].
Qed.

(** The stage for rotated layers, when there is one primary plane. *)
Context (one_primary : (count is_primary planes0 <= 1)%nat).

Definition rotated_layout (a : layout) (z : Z) : Prop :=
  (own a = [] /\ z = -1) \/
  (exists r p, own a = [(r, p)] /\ z = Z.of_nat r /\ protected r /\ find_idx is_primary (free a) = None).

Lemma primary_taken a k : (own a).*2 ++ option_list (snd <$> precomp a) ++ free a ≡ₚ planes0 ->
  find_idx is_primary (free a) = Some k -> exists p, free a !! k = Some p /\ find_idx is_primary (delete k (free a)) = None.
Proof.
  intros Hp ((p & Hk & Hprim) & _)%find_idx_Some. exists p. split; [done|].
  apply find_idx_None. intros q Hq. destruct (is_primary q) eqn:E; [exfalso|done].
  apply count_Permutation with (p := is_primary) in Hp. rewrite !count_app in Hp.
  pose proof (delete_Permutation _ _ _ Hk) as Hd. apply count_Permutation with (p := is_primary) in Hd.
  assert (1 <= count is_primary (delete k (free a)))%nat as H1.
  { apply elem_of_Permutation in Hq as [l' Hq].
    apply count_Permutation with (p := is_primary) in Hq. cbn in Hq. rewrite E in Hq. lia. }
  cbn in Hd. rewrite Hprim in Hd. lia.
Qed.

Lemma rotated_loop_planned layers : forall pre z a, planned a (pre ++ layers) -> rotated_layout a z ->
  exists layers' z' a', rotated_loop crtc layers z (plan_of crtc a) = (layers', z', plan_of crtc a') /\
    planned a' (pre ++ layers') /\ rotated_layout a' z'.
Proof.
  induction layers as [|i layers IH]; intros pre z a Ha Hr; cbn [rotated_loop].
  - by exists [], z, a.
  - destruct (negb (protected_usage (snd i)) || (transform (snd i) =? 0)) eqn:Hk.
    + destruct (IH (pre ++ [i]) z a) as (l & z' & a' & -> & Ha' & Hr'); [by rewrite <- app_assoc|done|].
      exists (i :: l), z', a'. by rewrite <- app_assoc in Ha'.
    + apply orb_false_iff in Hk as [Hprot%negb_false_iff _].
      assert (protected (fst i)) as Hp by (eapply (planned_protected _ _ i Ha); [apply elem_of_app; right; by left|done]).
      cbn [planes plan_of]. destruct (find_idx is_primary (free a)) as [k|] eqn:E.
      * destruct Hr as [[Ho ->]|(r & p & _ & _ & _ & ?)]; [|congruence].
        destruct (primary_taken a k) as (p & Hk & Hnone); [apply Ha|done|]. rewrite Hk.
        set (b := MkLayout [(fst i, p)] (precomp a) (delete k (free a))).
        replace (MkPlan _ _) with (plan_of crtc b) by (unfold plan_of, compose; by rewrite Ho).
        apply (IH pre (Z.of_nat (fst i)) b).
        -- eapply planned_place; [exact Ha|by apply delete_Permutation|by rewrite Ho].
        -- right. by exists (fst i), p.
      * apply IH; [|done]. apply (planned_drop a pre i layers Ha). by left.
Qed.

Lemma rotated_planned a layers r : PlanStageProtectedRotated crtc layers (plan_of crtc a) = Done r ->
  planned a layers -> own a = [] ->
  exists layers' a', r = (0, layers', plan_of crtc a') /\ planned a' layers' /\ grounded a' layers'.
Proof.
  unfold PlanStageProtectedRotated. intros E Ha Ho.
  destruct (rotated_loop_planned layers [] (-1) a Ha) as (l & z & a1 & E1 & Ha1 & Hr); [by left|].
  rewrite E1 in E. destruct (below_protected_planned _ _ _ _ E Ha1) as (l' & a' & -> & Ha' & Ho' & Hz & _).
  exists l', a'. split_and!; [done..|]. destruct Hr as [[Ho1 _]|(r' & p & Ho1 & -> & Hp & _)]; rewrite Ho1 in Ho'.
  - split; rewrite Ho'; [constructor|by intros ? ?%elem_of_nil|by intros ? ? ?%elem_of_nil].
  - split; rewrite Ho'; [repeat constructor|by intros ? ->%list_elem_of_singleton|].
    intros ? j ->%list_elem_of_singleton Hj. cbn. specialize (Hz ltac:(lia) j Hj). lia.
Qed.

Lemma sorted_last (l : list zlayer) i : StronglySorted lt l.*1 -> i ∈ l.*1 -> Z.of_nat i <= last_zorder l /\ last_zorder l <> -1.
Proof.
  intros Hs Hi. unfold last_zorder. destruct l as [|x l _] using rev_ind; [by apply elem_of_nil in Hi|].
  rewrite list.last_snoc. cbn. rewrite fmap_app in *. apply sorted_app in Hs as (_ & _ & Hlt).
  apply elem_of_app in Hi as [Hi| ->%list_elem_of_singleton]; [|lia].
  specialize (Hlt i (fst x) Hi). cbn in Hlt. rewrite list_elem_of_singleton in Hlt. lia.
Qed.

Lemma filter_none {A} (P : A -> Prop) `{!forall x, Decision (P x)} (l : list A) : (forall x, x ∈ l -> ~ P x) -> filter P l = [].
Proof.
  induction l as [|x l IH]; intros Hno; [done|]. rewrite filter_cons_False by (apply Hno; by left).
  apply IH. intros y Hy. apply Hno. by right.
Qed.

(** The first loop of the stage for protected layers. *)
Definition dedicated_so_far (a0 : layout) (layers0 layers : list zlayer) (a : layout) : Prop :=
  exists taken, own a = own a0 ++ taken /\
    taken.*1 ++ (filter is_protected layers).*1 `sublist_of` (filter is_protected layers0).*1.

Lemma dedicate_planned a0 l0 pre i post a :
  (forall x, x ∈ pre -> protected_usage (snd x) = false) -> protected_usage (snd i) = true ->
  planned a (pre ++ i :: post) -> dedicated_so_far a0 l0 (pre ++ i :: post) a ->
  planned (put_own (fst i) a) (pre ++ post) /\ dedicated_so_far a0 l0 (pre ++ post) (put_own (fst i) a).
Proof.
  intros Hpre Hi Ha (taken & Ho & Ht). split; [apply planned_own; [done|by left]|].
  assert (filter is_protected pre = []) as Hnone.
  { apply filter_none. intros x Hx. unfold is_protected. by rewrite (Hpre x Hx). }
  unfold dedicated_so_far in *. rewrite filter_app, Hnone, filter_cons_True in Ht by done. rewrite filter_app, Hnone. cbn in *.
  unfold put_own. destruct (free a) as [|p ps]; cbn.
  - exists taken. split; [done|]. etransitivity; [|exact Ht]. apply sublist_app; [done|by constructor].
  - exists (taken ++ [(fst i, p)]). split; [by rewrite Ho, app_assoc|]. by rewrite fmap_app, <- app_assoc.
Qed.

Lemma protected_planned a layers r : PlanStageProtected crtc layers (plan_of crtc a) = Done r ->
  planned a layers -> grounded a layers ->
  exists layers' a', r = (0, layers', plan_of crtc a') /\ planned a' layers' /\ grounded a' layers'.
Proof.
  intros ([rest s] & E & E')%bind_Done Ha [Ho Hp Hb]. pose proof (erase_loop_kept _ _ _ _ _ _ E) as [Hrest _].
  apply erase_loop_planned with (Q := dedicated_so_far a layers) in E as (a1 & -> & Ha1 & taken & Ho1 & Ht); [|..].
  - destruct (below_protected_planned _ _ _ _ E' Ha1) as (l' & a' & -> & Ha' & Ho' & Hz & Hsub).
    pose proof (planned_sorted _ _ Ha) as Hsorted. set (prot := filter is_protected layers) in *.
    assert (StronglySorted lt prot.*1) as Hs.
    { eapply sorted_sublist, Hsorted. apply fmap_sublist, sublist_filter. }
    assert (forall t, t ∈ taken.*1 -> t ∈ prot.*1) as Hin.
    { intros t Hin. eapply elem_of_sublist; [|exact Ht]. apply elem_of_app. by left. }
    assert (forall t, t ∈ taken.*1 -> exists x, t = fst x /\ x ∈ layers /\ protected_usage (snd x) = true) as Hfrom.
    { intros t (x & -> & [Hx1 Hx2]%list_elem_of_filter)%Hin%list_elem_of_fmap. by exists x. }
    exists l', a'. split_and!; [done..|]. split; rewrite Ho', Ho1, fmap_app.
    + apply sorted_app. split_and!; [done|eapply sorted_sublist; [|exact Hs]; etransitivity; [|exact Ht]; by apply sublist_inserts_r|].
      intros x y Hx (z & -> & Hz1 & _)%Hfrom. apply (Hb x); [done|by apply list_elem_of_fmap_2].
    + intros d [Hd|(z & -> & Hz1 & Hz2)%Hfrom]%elem_of_app; [auto|eapply (planned_protected a layers z); done].
    + intros d i [Hd|Hd%Hin]%elem_of_app Hi.
      * apply (Hb d); [done|]. eapply elem_of_sublist; [exact Hi|]. apply fmap_sublist. by etransitivity.
      * destruct (sorted_last prot d Hs Hd) as [Hle Hne]. specialize (Hz Hne i Hi). lia.
  - intros pre i post a1 Hpre Hk Ha1 HQ. injection Hk as Hk%negb_false_iff.
    exists (put_own (fst i) a1). rewrite dedicate_layout. split; [done|]. apply dedicate_planned; [|done..].
    intros x Hx. specialize (Hpre x Hx). injection Hpre as Hpre%negb_true_iff. done.
  - done.
  - exists []. by rewrite app_nil_r.
Qed.
Lemma min_element_le x l : forall y, y ∈ x :: l -> (min_element x l <= y)%nat.
Proof.
  unfold min_element. revert x. induction l as [|z l IH]; intros x y; cbn [foldl].
  - by intros ->%list_elem_of_singleton.
  - intros Hy. assert (forall w, w ∈ (if (z <? x)%nat then z else x) :: l ->
      (foldl (fun a b => if (b <? a)%nat then b else a) (if (z <? x)%nat then z else x) l <= w)%nat) as H by apply IH.
    set (m := if (z <? x)%nat then z else x) in *. assert (m <= x /\ m <= z)%nat as [Hx Hz].
    { unfold m. destruct (Nat.ltb_spec z x); lia. }
    pose proof (H m ltac:(by left)). rewrite !elem_of_cons in Hy. destruct Hy as [-> | [-> | Hy]]; [lia..|]. apply H. by right.
Qed.

(** The loops that only add to the precomp plane. *)
Lemma add_source_layout a i : precomp a <> None ->
  MkPlan (alter (add_source i) (length (own a)) (compose crtc a)) (free a) = plan_of crtc (put_precomp i a) /\
  precomp (put_precomp i a) <> None /\ composed (put_precomp i a) = composed a ++ [i].
Proof.
  unfold put_precomp, composed. destruct (precomp a) as [[q p]|] eqn:E; [|done]. intros _.
  by rewrite (add_precomp_compose _ _ _ _ E).
Qed.

Lemma add_loop_planned keep (m : nat) a layers layers' s' : precomp a <> None -> planned a layers ->
  (forall i, i ∈ layers -> keep i = Done false -> (m <= fst i)%nat) -> (forall s, s ∈ composed a -> (m <= s)%nat) ->
  erase_loop keep (fun i s => MkPlan (alter (add_source (fst i)) (length (own a)) (composition s)) (planes s))
    layers (plan_of crtc a) = Done (layers', s') ->
  exists a', s' = plan_of crtc a' /\ planned a' layers' /\ own a' = own a /\ (forall s, s ∈ composed a' -> (m <= s)%nat).
Proof.
  intros Hpre Ha Hm Hc E.
  apply erase_loop_planned with (Q := fun l a' => own a' = own a /\ precomp a' <> None /\
    (forall i, i ∈ l -> keep i = Done false -> (m <= fst i)%nat) /\ (forall s, s ∈ composed a' -> (m <= s)%nat)) in E
    as (a' & -> & Ha' & Ho & _ & _ & Hs); [by exists a'| |done|done].
  intros pre i post a1 _ Hk Ha1 (Ho & Hp & Hl & Hs). exists (put_precomp (fst i) a1).
  destruct (add_source_layout a1 (fst i) Hp) as (E1 & Hp' & Hc'). rewrite <- Ho. split_and!.
  - exact E1.
  - by apply planned_precomp.
  - apply put_precomp_own.
  - done.
  - intros j Hj. apply Hl. rewrite elem_of_app in *. destruct Hj; [by left|right; by right].
  - intros s. rewrite Hc'. intros [?| ->%list_elem_of_singleton]%elem_of_app; [auto|].
    apply (Hl i); [apply elem_of_app; right; by left|done].
Qed.

Lemma lookup_precomp a q : precomp a = Some q -> compose crtc a !! length (own a) = Some (precomp_plane crtc q).
Proof.
  intros E. unfold compose. rewrite E, lookup_app_r; rewrite length_fmap; [|done]. by rewrite Nat.sub_diag.
Qed.

Lemma precomp_stage_planned a layers r : PlanStagePrecomp crtc layers (plan_of crtc a) = Done r ->
  planned a layers ->
  exists layers' a', r = (0, layers', plan_of crtc a') /\ planned a' layers' /\ own a' = own a /\
    layers' `sublist_of` layers /\ (forall s i, s ∈ composed a' -> i ∈ layers'.*1 -> (i < s)%nat).
Proof.
  unfold PlanStagePrecomp, plan_of at 1. cbn [composition]. rewrite GetPrecomp_compose. intros E Ha.
  destruct (precomp a) as [q|] eqn:Eq; cbn [fmap option_fmap option_map] in E.
  - cbn [plan_of composition] in E. rewrite (lookup_precomp _ _ Eq) in E. cbn in E. destruct q as [[|x l] p]; cbn in E.
    + injection E as <-. exists layers, a. split_and!; [done..|]. unfold composed. rewrite Eq. by intros ? ? ?%elem_of_nil.
    + apply bind_Done in E as ([layers' s'] & E & E'). injection E' as <-.
      pose proof (erase_loop_kept _ _ _ _ _ _ E) as [Hsub Hk].
      apply (add_loop_planned _ (min_element x l)) in E as (a' & -> & Ha' & Ho & Hs); [|by rewrite Eq|done|..].
      * exists layers', a'. split_and!; [done..|]. intros s i Hin (y & -> & Hy)%list_elem_of_fmap.
        apply Hk in Hy. injection Hy as Hy%Nat.ltb_lt. specialize (Hs s Hin). cbn in *. lia.
      * intros i _ Hi. injection Hi as Hi%Nat.ltb_ge. done.
      * unfold composed. rewrite Eq. apply min_element_le.
  - injection E as <-. exists layers, a. split_and!; [done..|]. unfold composed. rewrite Eq. by intros ? ? ?%elem_of_nil.
Qed.

Lemma greedy_fill_planned layers : forall a, planned a layers ->
  exists taken rest a', greedy_fill crtc layers (plan_of crtc a) = (rest, plan_of crtc a') /\ planned a' rest /\
    layers.*1 = taken.*1 ++ rest.*1 /\ own a' = own a ++ taken /\ precomp a' = precomp a /\ (rest = [] \/ free a' = []).
Proof.
  induction layers as [|i layers IH]; intros a Ha; cbn [greedy_fill].
  - exists [], [], a. split_and!; rewrite ?app_nil_r; auto.
  - rewrite Emplace_compose. destruct (free a) as [|p ps] eqn:E.
    + exists [], (i :: layers), a. split_and!; rewrite ?app_nil_r; auto.
    + destruct (IH (MkLayout (own a ++ [(fst i, p)]) (precomp a) ps)) as (taken & rest & a' & -> & Ha' & Hk & Ho & Hp & Hr).
      { by eapply (planned_place a [] i layers); [|rewrite E|]. }
      exists ((fst i, p) :: taken), rest, a'. split_and!; [done..|cbn; by rewrite Hk| |done|done].
      rewrite Ho. cbn. by rewrite <- app_assoc.
Qed.

Lemma erase_all keep body layers s layers' s' : (forall i, keep i = Done false) ->
  erase_loop keep body layers s = Done (layers', s') -> layers' = [].
Proof.
  intros Hk. revert s. induction layers as [|i layers IH]; intros s; cbn; [by intros [= <- <-]|]. rewrite Hk. apply IH.
Qed.

(** What the last stage leaves: own planes in z-order, and nothing composed
    that is below one of them that is not protected. *)
Record finished (a : layout) (layers : list zlayer) : Prop := {
  finished_order : StronglySorted lt (own a).*1;
  finished_holes : forall d s, d ∈ (own a).*1 -> s ∈ composed a -> (s < d)%nat -> protected d;
  finished_all : planes0 <> [] -> layers = []
}.

Lemma greedy_planned a layers r : PlanStageGreedy crtc layers (plan_of crtc a) = Done r ->
  planned a layers -> grounded a layers -> (forall s i, s ∈ composed a -> i ∈ layers.*1 -> (i < s)%nat) ->
  exists layers' a', r = (0, layers', plan_of crtc a') /\ planned a' layers' /\ finished a' layers'.
Proof.
  unfold PlanStageGreedy. intros E Ha [Hord Hprot Hbelow] Hs.
  destruct (greedy_fill_planned layers a Ha) as (taken & rest & a1 & E1 & Ha1 & Hk & Ho & Hp & Hrest).
  rewrite E1 in E. cbn [plan_of composition] in E. rewrite GetPrecomp_compose in E.
  pose proof (planned_sorted _ _ Ha) as Hsorted. rewrite Hk in Hsorted. apply sorted_app in Hsorted as (Hst & _ & Hlt).
  assert (forall d, d ∈ taken.*1 -> d ∈ layers.*1) as Hin by (intros d Hd; rewrite Hk; apply elem_of_app; by left).
  assert (StronglySorted lt (own a1).*1) as Hord1.
  { rewrite Ho, fmap_app. apply sorted_app. split_and!; [done..|]. intros x y Hx Hy%Hin. by apply Hbelow. }
  assert (forall d s, d ∈ (own a1).*1 -> s ∈ composed a -> (s < d)%nat -> protected d) as Hholes.
  { intros d s Hd Hc Hlt'. rewrite Ho, fmap_app in Hd. apply elem_of_app in Hd as [Hd|Hd%Hin]; [auto|].
    specialize (Hs s d Hc Hd). lia. }
  assert (composed a1 = composed a) as Hcomp by (unfold composed; by rewrite Hp).
  destruct (precomp a1) as [q|] eqn:Eq; cbn [fmap option_fmap option_map] in E.
  - apply bind_Done in E as ([layers' s'] & E & E'). injection E' as <-. pose proof (erase_all _ _ _ _ _ _ (fun _ => eq_refl) E) as ->.
    apply erase_loop_planned with (Q := fun l a' => own a' = own a1 /\ precomp a' <> None /\ (forall i, i ∈ l.*1 -> i ∈ rest.*1) /\
      (forall s, s ∈ composed a' -> s ∈ composed a \/ s ∈ rest.*1)) in E as (a' & -> & Ha' & Ho' & _ & _ & Hc'); [|..].
    + exists [], a'. split_and!; [done..|]. split; [by rewrite Ho'| |done]. rewrite Ho'. intros d s Hd [Hc|Hc]%Hc' Hlt'; [by eapply Hholes|].
      rewrite Ho, fmap_app in Hd. apply elem_of_app in Hd as [Hd|Hd]; [by apply Hprot|]. specialize (Hlt d s Hd Hc). lia.
    + intros pre i post a2 _ _ Ha2 (Ho2 & Hp2 & Hl2 & Hc2). exists (put_precomp (fst i) a2).
      destruct (add_source_layout a2 (fst i) Hp2) as (E2 & Hp' & Hc'). rewrite <- Ho2. split_and!.
      * exact E2.
      * by apply planned_precomp.
      * apply put_precomp_own.
      * done.
      * intros j Hj. apply Hl2. rewrite fmap_app, elem_of_app in *. destruct Hj; [by left|right; by right].
      * intros s. rewrite Hc'. intros [?| ->%list_elem_of_singleton]%elem_of_app; [auto|right].
        apply Hl2. rewrite fmap_app, elem_of_app. right. by left.
    + done.
    + split_and!; [done|by rewrite Eq|done|]. rewrite Hcomp. auto.
  - injection E as <-. exists rest, a1. split_and!; [done..|]. split; [done|by rewrite Hcomp|]. intros Hne.
    destruct Hrest as [?|Hfree]; [done|]. destruct (planned_room _ _ Ha1 Hne) as [?|Hlen]; [done|].
    rewrite Hfree in Hlen. destruct rest; [done|cbn in Hlen; lia].
Qed.

(** All the stages of this device's planner. *)
Lemma nv_stages_planned a layers ret layers' s' : run_stages nv_stages crtc layers (plan_of crtc a) = Done (ret, layers', s') ->
  planned a layers -> own a = [] ->
  exists a', ret = 0 /\ s' = plan_of crtc a' /\ planned a' layers' /\ finished a' layers'.
Proof.
  intros E Ha Ho. unfold nv_stages in E. cbn [run_stages] in E.
  apply bind_Done in E as (r1 & E1 & E). destruct (nv_limits_planned _ _ _ E1 Ha) as (l1 & a1 & -> & Ha1 & Ho1).
  cbn [Z.eqb] in E. apply bind_Done in E as (r2 & E2 & E).
  destruct (rotated_planned _ _ _ E2 Ha1) as (l2 & a2 & -> & Ha2 & Hb2); [by rewrite Ho1|].
  cbn [Z.eqb] in E. apply bind_Done in E as (r3 & E3 & E).
  destruct (protected_planned _ _ _ E3 Ha2 Hb2) as (l3 & a3 & -> & Ha3 & Hb3).
  cbn [Z.eqb] in E. apply bind_Done in E as (r4 & E4 & E).
  destruct (precomp_stage_planned _ _ _ E4 Ha3) as (l4 & a4 & -> & Ha4 & Ho4 & Hs4 & Hz4).
  cbn [Z.eqb] in E. apply bind_Done in E as (r5 & E5 & E).
  destruct (greedy_planned _ _ _ E5 Ha4) as (l5 & a5 & -> & Ha5 & Hf5).
  - destruct Hb3 as [Hb1' Hb2' Hb3']. split; rewrite Ho4; [done..|]. intros d i Hd Hi. apply Hb3'; [done|].
    eapply elem_of_sublist; [exact Hi|]. by apply fmap_sublist.
  - done.
  - cbn [Z.eqb] in E. injection E as <- <- <-. by exists a5.
Qed.
End Stages.

(** ** The stages return *)

Definition checkable (layers : list zlayer) : Prop :=
  forall i, i ∈ layers -> is_Some (outcome_value (CheckLayer (fst i) (snd i))).

Lemma below_protected_returns crtc z layers s : exists layers' s', below_protected crtc z layers s = Done (0, layers', s').
Proof.
  unfold below_protected. destruct (z =? -1); [by eauto|].
  edestruct (erase_loop_total (fun i => Done (z <? Z.of_nat (fst i))) (to_precomp crtc) layers) as (l & s' & ->); [by eauto|].
  cbn. by eauto.
Qed.

Lemma nv_stages_return crtc layers s : checkable layers ->
  exists layers' s', run_stages nv_stages crtc layers s = Done (0, layers', s').
Proof.
  intros Hc. unfold nv_stages. cbn [run_stages].
  unfold PlanStageNvLimits at 1. edestruct (erase_loop_total (fun i => CheckLayer (fst i) (snd i)) (nv_limit_body crtc) layers)
    as (l1 & s1 & ->); [done|]. rewrite !bind_Done_eq. cbn [Z.eqb].
  unfold PlanStageProtectedRotated at 1. destruct (rotated_loop crtc l1 (-1) s1) as [[l2 z] s2].
  destruct (below_protected_returns crtc z l2 s2) as (l3 & s3 & ->). rewrite bind_Done_eq. cbn [Z.eqb].
  unfold PlanStageProtected at 1.
  edestruct (erase_loop_total (fun i => Done (negb (protected_usage (snd i)))) (dedicate crtc) l3) as (l4 & s4 & ->); [by eauto|].
  rewrite bind_Done_eq. destruct (below_protected_returns crtc (last_zorder (filter is_protected l3)) l4 s4) as (l5 & s5 & ->).
  rewrite bind_Done_eq. cbn [Z.eqb]. assert (exists l6 s6, PlanStagePrecomp crtc l5 s5 = Done (0, l6, s6)) as (l6 & s6 & ->).
  { unfold PlanStagePrecomp. destruct (GetPrecomp (composition s5)) as [k|] eqn:E; [|by eauto].
    apply find_idx_Some in E as [(p & -> & _) _]. cbn [access mbind outcome_bind]. destruct (source_layers p) as [|x l]; [by eauto|].
    edestruct (erase_loop_total (fun i => Done (fst i <? min_element x l)%nat)) as (l6 & s6 & ->); [by eauto|]. cbn. by eauto. }
  rewrite bind_Done_eq. cbn [Z.eqb]. assert (exists l7 s7, PlanStageGreedy crtc l6 s6 = Done (0, l7, s7)) as (l7 & s7 & ->).
  { unfold PlanStageGreedy. destruct (greedy_fill crtc l6 s6) as [l s7]. destruct (GetPrecomp _) as [k|]; [|by eauto].
    edestruct (erase_loop_total (fun _ => Done false)) as (l7 & s8 & ->); [by eauto|]. cbn. by eauto. }
  rewrite bind_Done_eq. cbn. by eauto.
Qed.

(** ** The plan *)

Lemma reserve_Permutation (l : list DrmPlane) : option_list (fst (reserve l)) ++ snd (reserve l) ≡ₚ l.
Proof.
  unfold reserve. cbn. destruct (last l) as [x|] eqn:E.
  - apply last_take in E. cbn. rewrite Permutation_cons_append. by rewrite <- E.
  - apply last_None in E as ->. done.
Qed.

Lemma initial_planned crtc layers planes0 : StronglySorted lt layers.*1 ->
  let '(p, free) := if (length planes0 <? length layers)%nat then reserve planes0 else (None, planes0) in
  planned planes0 layers (MkLayout [] ((fun q => ([], q)) <$> p) free) layers /\
  match p with Some q => [MkComposition kPrecomp (Some q) crtc []] | None => [] end =
    compose crtc (MkLayout [] ((fun q => ([], q)) <$> p) free).
Proof.
  intros Hs. assert (forall p, composed (MkLayout [] ((fun q : DrmPlane => ([], q)) <$> p) planes0) = []) as Hc by (by intros []).
  destruct (Nat.ltb_spec (length planes0) (length layers)) as [Hlt|Hge].
  - pose proof (reserve_Permutation planes0) as Hr. unfold reserve in *. cbn in Hr. split; [|by destruct (last planes0)].
    split; cbn.
    + etransitivity; [|exact Hr]. by destruct (last planes0).
    + done.
    + by destruct (last planes0).
    + intros Hne. left. destruct (last planes0) eqn:E; [done|]. by apply last_None in E.
    + intros _ i l Hi _. apply elem_of_app. right. by apply (list_elem_of_fmap_2 fst) in Hi.
  - split; [|done]. split; cbn; [done..| |].
    + intros _. by right.
    + intros _ i l Hi _. by apply (list_elem_of_fmap_2 fst) in Hi.
Qed.

Lemma provision_planes_layout (layers : list zlayer) (use_squash_fb : bool) (crtc : DrmCrtc) (primary overlay : list DrmPlane) :
  let usable := GetUsablePlanes crtc primary overlay in
  StronglySorted lt layers.*1 -> checkable layers -> usable <> [] -> (count is_primary usable <= 1)%nat ->
  exists a squash rest,
    ProvisionPlanes nv_stages layers use_squash_fb crtc primary overlay =
      Done (0, compose crtc a ++ ((fun p => MkComposition kSquash (Some p) crtc []) <$> option_list squash), rest) /\
    (own a).*2 ++ option_list (snd <$> precomp a) ++ option_list squash ⊆+ usable /\
    (own a).*1 ++ composed a ⊆+ layers.*1 /\
    StronglySorted lt (own a).*1 /\
    (forall d s, d ∈ (own a).*1 -> s ∈ composed a -> (s < d)%nat -> exists l, (d, l) ∈ layers /\ protected_usage l = true) /\
    (use_squash_fb = false \/ (2 <= length usable)%nat ->
       forall i l, (i, l) ∈ layers -> protected_usage l = false -> i ∈ (own a).*1 ++ composed a).
Proof.
  intros usable Hs Hc Hne Hprim. unfold ProvisionPlanes. fold usable.
  assert (exists squash planes0, (if use_squash_fb then reserve usable else (None, usable)) = (squash, planes0) /\
    option_list squash ++ planes0 ≡ₚ usable /\ (use_squash_fb = false \/ (2 <= length usable)%nat -> planes0 <> []))
    as (squash & planes0 & Esq & Hp0 & Hleft).
  { destruct use_squash_fb; [|by exists None, usable]. exists (fst (reserve usable)), (snd (reserve usable)).
    split_and!; [done|apply reserve_Permutation|]. intros [|Hlen]; [done|]. unfold reserve. cbn.
    intros E. apply (f_equal length) in E. rewrite length_take in E. cbn in E. lia. }
  destruct usable as [|p0 ps] eqn:Eu; [done|]. rewrite Esq.
  pose proof (initial_planned crtc layers planes0 Hs) as Hinit.
  destruct (if (length planes0 <? length layers)%nat then _ else _) as [pp free0]. destruct Hinit as [Ha Ecomp].
  rewrite Ecomp. destruct (nv_stages_return crtc layers (plan_of crtc (MkLayout [] ((fun q => ([], q)) <$> pp) free0)) Hc)
    as (rest & s & Erun). unfold plan_of in Erun at 1. cbn [free] in Erun. rewrite Erun, bind_Done_eq. cbn [Z.eqb negb].
  assert (count is_primary planes0 <= 1)%nat as Hprim0.
  { apply count_Permutation with (p := is_primary) in Hp0. rewrite count_app in Hp0. lia. }
  destruct (nv_stages_planned crtc planes0 layers Hs Hprim0 _ _ _ _ _ Erun Ha) as (a & _ & -> & Hplan & Hfin); [done|].
  exists a, squash, rest. split_and!.
  - by destruct squash.
  - rewrite <- Hp0, <- (planned_planes _ _ _ _ Hplan), (app_assoc _ _ (free a)), (Permutation_app_comm (option_list squash)), (app_assoc _ _ (option_list squash)).
    apply submseteq_app; [|done]. by apply submseteq_inserts_r.
  - etransitivity; [|apply (planned_sources _ _ _ _ Hplan)]. rewrite app_assoc. by apply submseteq_inserts_r.
  - apply Hfin.
  - intros d s' Hd Hs' Hlt. by eapply (finished_holes _ _ _ _ Hfin).
  - intros Hroom i l Hi Hu. specialize (Hleft Hroom). pose proof (planned_kept _ _ _ _ Hplan Hleft i l Hi Hu) as Hin.
    rewrite (finished_all _ _ _ _ Hfin Hleft) in Hin. cbn in Hin. by rewrite app_nil_r in Hin.
Qed.

(** C12. ProvisionPlanes with the stages of this device: no plane and no layer is
    used twice; from the bottom to the top there are planes with one layer each, in
    z-order, then at most one plane for the composition, then the squash plane;
    a layer is composed above one with a plane of its own that it should be
    below only if that one is protected; and if a plane is left beside the squash
    plane, every layer that is not protected is on a plane or composed. *)
Theorem provision_planes_plan (layers : list zlayer) (use_squash_fb : bool) (crtc : DrmCrtc) (primary overlay : list DrmPlane) :
  let usable := GetUsablePlanes crtc primary overlay in
  StronglySorted lt layers.*1 -> checkable layers -> usable <> [] -> (count is_primary usable <= 1)%nat ->
  exists a squash rest,
    ProvisionPlanes nv_stages layers use_squash_fb crtc primary overlay =
      Done (0, compose crtc a ++ ((fun p => MkComposition kSquash (Some p) crtc []) <$> option_list squash), rest) /\
    (own a).*2 ++ option_list (snd <$> precomp a) ++ option_list squash ⊆+ usable /\
    (own a).*1 ++ composed a ⊆+ layers.*1 /\
    StronglySorted lt (own a).*1 /\
    (forall d s, d ∈ (own a).*1 -> s ∈ composed a -> (s < d)%nat -> exists l, (d, l) ∈ layers /\ protected_usage l = true) /\
    (use_squash_fb = false \/ (2 <= length usable)%nat ->
       forall i l, (i, l) ∈ layers -> protected_usage l = false -> i ∈ (own a).*1 ++ composed a).
Proof. exact (provision_planes_layout layers use_squash_fb crtc primary overlay). Qed.

(** ** Examples: three planes, as a head of the Tegra has *)

Definition crtc0 : DrmCrtc := MkCrtc 0 0.
Definition primary0 : list DrmPlane := [MkPlane 1 DRM_PLANE_TYPE_PRIMARY 1].
Definition overlays0 : list DrmPlane := [MkPlane 2 DRM_PLANE_TYPE_OVERLAY 1; MkPlane 3 DRM_PLANE_TYPE_OVERLAY 3].

Definition layer_of (protected : bool) (transform : Z) (frame : Rect) : DrmHwcLayer :=
  MkLayer 0 protected DRM_FORMAT_ABGR8888 transform kPreMult (f_of_Z 0) (f_of_Z 0) (f_of_Z 100) (f_of_Z 100) frame true 255 (-1) (Some 1).

Definition frame0 : Rect := MkRect 0 0 100 100.

(** The types, planes and sources of a plan. *)
Definition plan_view (r : outcome (Z * list DrmCompositionPlane * list zlayer)) : option (list (CompositionType * option Z * list nat)) :=
  match r with
  | Done (0, c, _) => Some ((fun p => (comp_type p, plane_id <$> comp_plane p, source_layers p)) <$> c)
  | _ => None
  end.

Definition provision (layers : list DrmHwcLayer) (use_squash_fb : bool) : outcome (Z * list DrmCompositionPlane * list zlayer) :=
  ProvisionPlanes nv_stages (imap pair layers) use_squash_fb crtc0 primary0 overlays0.

Definition four_layers : list DrmHwcLayer :=
  [layer_of false 0 frame0; layer_of true 0 frame0; layer_of false 0 frame0; layer_of false 0 (MkRect 0 0 20 100)].

(** The protected layer is on a plane, what is below and above it is composed. *)
Example provision_four : plan_view (provision four_layers false) =
  Some [(kLayer, Some 1, [1%nat]); (kPrecomp, Some 3, [3%nat; 0%nat; 2%nat])].
Proof. vm_compute. reflexivity. Qed.

(** A protected layer below a rotated one is composed. *)
Example provision_composes_protected :
  plan_view (provision [layer_of true 0 frame0; layer_of true kRotate90 frame0] false) =
  Some [(kLayer, Some 1, [1%nat]); (kPrecomp, Some 3, [0%nat])].
Proof. vm_compute. reflexivity. Qed.

(** The plane that was reserved for the composition is left without a layer. *)
Example provision_empty_precomp :
  plan_view (provision (replicate 4 (layer_of true 0 frame0)) false) =
  Some [(kLayer, Some 1, [0%nat]); (kLayer, Some 2, [1%nat]); (kPrecomp, Some 3, [])].
Proof. vm_compute. reflexivity. Qed.

(** The squash plane is the only one: no layer is shown. *)
Example provision_only_squash :
  plan_view (ProvisionPlanes nv_stages (imap pair four_layers) true crtc0 primary0 []) = Some [(kSquash, Some 1, [])].
Proof. vm_compute. reflexivity. Qed.

Lemma provision_planes_plan_witness : exists a squash rest,
  provision four_layers true = Done (0, compose crtc0 a ++ ((fun p => MkComposition kSquash (Some p) crtc0 []) <$> option_list squash), rest) /\
  StronglySorted lt (own a).*1 /\ 0%nat ∈ (own a).*1 ++ composed a.
Proof.
  destruct (provision_planes_plan (imap pair four_layers) true crtc0 primary0 overlays0) as (a & sq & rest & E & _ & _ & Ho & _ & Hk).
  - cbn. repeat constructor.
  - intros [i l] Hi. repeat (apply elem_of_cons in Hi as [[= -> ->] | Hi]; [vm_compute; by eexists|]). by apply elem_of_nil in Hi.
  - vm_compute. discriminate.
  - vm_compute. lia.
  - exists a, sq, rest. split_and!; [exact E|exact Ho|].
    apply (Hk ltac:(right; vm_compute; lia) 0%nat (layer_of false 0 frame0)); [by left|done].
Defined.
