(* ===== verification/Composition.v ===== *)
(** * Composition: what a frame is made of, drm_hwcomposer/drmdisplaycomposition.cpp

    SquashState (drmdisplaycompositor.cpp), which finds the regions of a frame
    that do not change, and DrmDisplayComposition, which plans a frame, separates
    the layers that are composed into regions, and hands out release fences.
    The sets of pointers to layers are sets of indices, whose order of iteration
    is unspecified and so a parameter; so is the library of software fences.  Of
    a fence that is set the model keeps the point of the timeline it waits for.
    An index out of bounds, an int that overflows and a shift by the width of
    its operand or more are undefined; std::bitset::set throws out of bounds. *)

From S2P Require Import Prelude.
From stdpp Require Import sorting.
From S2P Require Import SeparateRects Planner.

Open Scope Z_scope.

(** ** SquashState *)

Definition kHistoryLength : Z := 6.
Definition kMaxLayers : nat := 64.

Record Region : Type := MkRegion {
  region_rect : Rect;
  layer_refs : Z;
  change_history : Z;
  squashed : bool
}.

Record SquashState : Type := MkSquash {
  generation_number_ : Z;
  valid_history_ : Z;
  last_handles_ : list Z;
  regions_ : list Region
}.

Definition is_stable (s : SquashState) (region : Region) : bool :=
  (kHistoryLength <=? valid_history_ s) && (change_history region =? 0).

Definition squash_Init (s : SquashState) (layers : list DrmHwcLayer) : outcome SquashState :=
  out_regions ← separate_rects_64 (display_frame <$> layers) [];
  Done (MkSquash (u64 (generation_number_ s + 1)) 0 (sf_handle <$> layers)
          ((fun r => MkRegion (rect r) (id_set r) 0 false) <$> out_regions)).

(** Protected layers count as changing. *)
Definition layer_changed (layer : DrmHwcLayer) (last_handle : Z) : bool :=
  protected_usage layer || negb (last_handle =? sf_handle layer).

Fixpoint changed_loop (i : nat) (layers : list DrmHwcLayer) (last_handles : list Z) (changed_layers : Z) : outcome Z :=
  match last_handles, layers with
  | h :: last_handles, layer :: layers =>
      if layer_changed layer h then
        if (i <? kMaxLayers)%nat then changed_loop (S i) layers last_handles (Z.setbit changed_layers (Z.of_nat i))
        else Fault
      else changed_loop (S i) layers last_handles changed_layers
  | _, _ => Done changed_layers
  end.

Definition GenerateHistory (s : SquashState) (layers : list DrmHwcLayer) : outcome (list bool) :=
  if negb (length layers =? length (last_handles_ s))%nat then Done (replicate (length (regions_ s)) false)
  else
    changed_layers ← changed_loop 0 layers (last_handles_ s) 0;
    Done ((fun r => negb (Z.land (layer_refs r) changed_layers =? 0)) <$> regions_ s).

Definition StableRegionsWithMarginalHistory (s : SquashState) (changed_regions : list bool) : list bool :=
  zip_with (fun r changed => negb changed && is_stable s r) (regions_ s) changed_regions.

(** change_history <<= 1 and set(0, changed), of six bits. *)
Definition record_change (history : Z) (changed : bool) : Z :=
  let shifted := Z.land (Z.shiftl history 1) (Z.ones kHistoryLength) in
  if changed then Z.setbit shifted 0 else Z.clearbit shifted 0.

Definition RecordHistory (s : SquashState) (layers : list DrmHwcLayer) (changed_regions : list bool) : SquashState :=
  if negb (length layers =? length (last_handles_ s))%nat then s
  else if negb (length changed_regions =? length (regions_ s))%nat then s
  else
    MkSquash (generation_number_ s) (u32 (valid_history_ s + 1)) (sf_handle <$> layers)
      (zip_with (fun r changed => MkRegion (region_rect r) (layer_refs r) (record_change (change_history r) changed) (squashed r))
         (regions_ s) changed_regions).

Definition RecordAndCompareSquashed (s : SquashState) (squashed_regions : list bool) : SquashState * bool :=
  if negb (length squashed_regions =? length (regions_ s))%nat then (s, false)
  else
    (MkSquash (generation_number_ s) (valid_history_ s) (last_handles_ s)
       (zip_with (fun r sq => MkRegion (region_rect r) (layer_refs r) (change_history r) sq) (regions_ s) squashed_regions),
     existsb id (zip_with (fun r sq => xorb (squashed r) sq) (regions_ s) squashed_regions)).

(** What Plan does with the state for every frame: the regions that are stable,
    and whether they are others than before. *)
Definition squash_step (s : SquashState) (layers : list DrmHwcLayer) : outcome (SquashState * list bool * bool) :=
  changed_regions ← GenerateHistory s layers;
  let stable_regions := StableRegionsWithMarginalHistory s changed_regions in
  let '(s, render_squash) := RecordAndCompareSquashed (RecordHistory s layers changed_regions) stable_regions in
  Done (s, stable_regions, render_squash).

(** ** DrmDisplayComposition *)

Variant DrmCompositionType : Type :=
| DRM_COMPOSITION_TYPE_EMPTY | DRM_COMPOSITION_TYPE_FRAME | DRM_COMPOSITION_TYPE_DPMS | DRM_COMPOSITION_TYPE_MODESET.

#[export] Instance DrmCompositionType_eq_dec : EqDecision DrmCompositionType.
Proof. solve_decision. Defined.

Record DrmCompositionRegion : Type := MkCompRegion { frame : Rect; region_layers : list nat }.

(** [fences]: for a layer, the descriptor of the release fence that was set and its point. *)
Record DrmDisplayComposition : Type := MkComp {
  type_ : DrmCompositionType;
  crtc_ : DrmCrtc;
  timeline_fd_ : Z;
  dpms_mode_ : Z;
  display_mode_ : Z;
  timeline_ : Z;
  timeline_current_ : Z;
  timeline_squash_done_ : Z;
  timeline_pre_comp_done_ : Z;
  geometry_changed_ : bool;
  layers_ : list DrmHwcLayer;
  squash_regions_ : list DrmCompositionRegion;
  pre_comp_regions_ : list DrmCompositionRegion;
  composition_planes_ : list DrmCompositionPlane;
  fences : gmap nat (Z * Z)
}.

Definition set_timelines (timeline current squash_done pre_comp_done : Z) (c : DrmDisplayComposition) : DrmDisplayComposition :=
  MkComp (type_ c) (crtc_ c) (timeline_fd_ c) (dpms_mode_ c) (display_mode_ c) timeline current squash_done pre_comp_done
    (geometry_changed_ c) (layers_ c) (squash_regions_ c) (pre_comp_regions_ c) (composition_planes_ c) (fences c).

Definition set_timeline (t : Z) (c : DrmDisplayComposition) : DrmDisplayComposition :=
  set_timelines t (timeline_current_ c) (timeline_squash_done_ c) (timeline_pre_comp_done_ c) c.

Definition set_fence (i : nat) (fd point : Z) (c : DrmDisplayComposition) : DrmDisplayComposition :=
  MkComp (type_ c) (crtc_ c) (timeline_fd_ c) (dpms_mode_ c) (display_mode_ c) (timeline_ c) (timeline_current_ c)
    (timeline_squash_done_ c) (timeline_pre_comp_done_ c) (geometry_changed_ c) (layers_ c) (squash_regions_ c)
    (pre_comp_regions_ c) (composition_planes_ c) (<[i := (fd, point)]> (fences c)).

Definition set_plan (squash_regions pre_comp_regions : list DrmCompositionRegion) (planes : list DrmCompositionPlane)
    (c : DrmDisplayComposition) : DrmDisplayComposition :=
  MkComp (type_ c) (crtc_ c) (timeline_fd_ c) (dpms_mode_ c) (display_mode_ c) (timeline_ c) (timeline_current_ c)
    (timeline_squash_done_ c) (timeline_pre_comp_done_ c) (geometry_changed_ c) (layers_ c) squash_regions pre_comp_regions planes
    (fences c).

Definition set_kind (type : DrmCompositionType) (dpms_mode display_mode : Z) (geometry_changed : bool) (layers : list DrmHwcLayer)
    (c : DrmDisplayComposition) : DrmDisplayComposition :=
  MkComp type (crtc_ c) (timeline_fd_ c) dpms_mode display_mode (timeline_ c) (timeline_current_ c)
    (timeline_squash_done_ c) (timeline_pre_comp_done_ c) geometry_changed layers (squash_regions_ c) (pre_comp_regions_ c)
    (composition_planes_ c) (fences c).

Definition EINVAL : Z := 22.
Definition DRM_MODE_DPMS_ON : Z := 0.

(** The library of software fences, and the order in which the elements of an
    unordered_set are visited. *)
Class SyncLib : Type := {
  sw_sync_timeline_create : Z;
  sw_sync_fence_create : Z -> Z;
  sw_sync_timeline_inc : Z -> Z;
  unordered : list nat -> list nat
}.

Section Compositions.
Context `{SyncLib}.

Definition new_composition (crtc : DrmCrtc) : DrmDisplayComposition :=
  MkComp DRM_COMPOSITION_TYPE_EMPTY crtc (-1) DRM_MODE_DPMS_ON 0 0 0 0 0 false [] [] [] [] ∅.

Definition set_init (crtc : DrmCrtc) (fd : Z) (c : DrmDisplayComposition) : DrmDisplayComposition :=
  MkComp (type_ c) crtc fd (dpms_mode_ c) (display_mode_ c) (timeline_ c) (timeline_current_ c)
    (timeline_squash_done_ c) (timeline_pre_comp_done_ c) (geometry_changed_ c) (layers_ c) (squash_regions_ c)
    (pre_comp_regions_ c) (composition_planes_ c) (fences c).

Definition Init (crtc : DrmCrtc) (c : DrmDisplayComposition) : Z * DrmDisplayComposition :=
  let ret := sw_sync_timeline_create in
  if ret <? 0 then (ret, set_init crtc (timeline_fd_ c) c) else (0, set_init crtc ret c).

Definition validate_composition_type (des : DrmCompositionType) (c : DrmDisplayComposition) : bool :=
  bool_decide (type_ c = DRM_COMPOSITION_TYPE_EMPTY) || bool_decide (type_ c = des).

Definition CreateNextTimelineFence (c : DrmDisplayComposition) : outcome (Z * DrmDisplayComposition) :=
  t ← int_checked (timeline_ c + 1);
  Done (sw_sync_fence_create t, set_timeline t c).

Definition IncreaseTimelineToPoint (point : Z) (c : DrmDisplayComposition) : outcome (Z * DrmDisplayComposition) :=
  timeline_increase ← int_checked (point - timeline_current_ c);
  if timeline_increase <=? 0 then Done (0, c)
  else
    let ret := sw_sync_timeline_inc timeline_increase in
    Done (ret, if ret =? 0
               then set_timelines (timeline_ c) point (timeline_squash_done_ c) (timeline_pre_comp_done_ c) c
               else c).

Definition SignalSquashDone (c : DrmDisplayComposition) := IncreaseTimelineToPoint (timeline_squash_done_ c) c.
Definition SignalPreCompDone (c : DrmDisplayComposition) := IncreaseTimelineToPoint (timeline_pre_comp_done_ c) c.
Definition SignalCompositionDone (c : DrmDisplayComposition) := IncreaseTimelineToPoint (timeline_ c) c.

(** The destructor: what still waits is released. *)
Definition destroy (c : DrmDisplayComposition) : outcome DrmDisplayComposition :=
  if 0 <=? timeline_fd_ c then snd <$> SignalCompositionDone c else Done c.

Definition SetLayers (layers : list DrmHwcLayer) (geometry_changed : bool) (c : DrmDisplayComposition) : Z * DrmDisplayComposition :=
  if negb (validate_composition_type DRM_COMPOSITION_TYPE_FRAME c) then (- EINVAL, c)
  else (0, set_kind DRM_COMPOSITION_TYPE_FRAME (dpms_mode_ c) (display_mode_ c) geometry_changed (layers_ c ++ layers) c).

Definition SetDpmsMode (dpms_mode : Z) (c : DrmDisplayComposition) : Z * DrmDisplayComposition :=
  if negb (validate_composition_type DRM_COMPOSITION_TYPE_DPMS c) then (- EINVAL, c)
  else (0, set_kind DRM_COMPOSITION_TYPE_DPMS dpms_mode (display_mode_ c) (geometry_changed_ c) (layers_ c) c).

Definition SetDisplayMode (display_mode : Z) (c : DrmDisplayComposition) : Z * DrmDisplayComposition :=
  if negb (validate_composition_type DRM_COMPOSITION_TYPE_MODESET c) then (- EINVAL, c)
  else (0, set_kind DRM_COMPOSITION_TYPE_MODESET DRM_MODE_DPMS_ON display_mode (geometry_changed_ c) (layers_ c) c).

Definition AddPlaneComposition (plane : DrmCompositionPlane) (c : DrmDisplayComposition) : Z * DrmDisplayComposition :=
  (0, set_plan (squash_regions_ c) (pre_comp_regions_ c) (composition_planes_ c ++ [plane]) c).

Definition AddPlaneDisable (plane : DrmPlane) (c : DrmDisplayComposition) : Z * DrmDisplayComposition :=
  AddPlaneComposition (MkComposition kDisable (Some plane) (crtc_ c) []) c.

(** ** SeparateLayers *)

Fixpoint set_bits_loop (i : nat) (bits : Z) (index_map : list nat) : outcome (list nat) :=
  match i with
  | O => Done []
  | S i =>
      if Z.testbit bits (Z.of_nat i) then
        x ← access (index_map !! i);
        rest ← set_bits_loop i bits index_map;
        Done (x :: rest)
      else set_bits_loop i bits index_map
  end.

(** From the most significant bit down. *)
Definition SetBitsToVector (bits : Z) (index_map : list nat) : outcome (list nat) := set_bits_loop 64 bits index_map.

(** The planes up to the precomp plane. *)
Fixpoint find_comp (l : list DrmCompositionPlane) (dedicated_layers : list nat) : option DrmCompositionPlane * list nat :=
  match l with
  | [] => (None, dedicated_layers)
  | i :: l =>
      match comp_type i with
      | kLayer => find_comp l (dedicated_layers ++ source_layers i)
      | kPrecomp => (Some i, dedicated_layers)
      | _ => find_comp l dedicated_layers
      end
  end.

(** A shift to the left of a 64-bit word, and of the int 1. *)
Definition shl64 (x : Z) (n : nat) : outcome Z := if (n <? 64)%nat then Done (u64 (Z.shiftl x (Z.of_nat n))) else Fault.
Definition int_bit (n : nat) : outcome Z :=
  if (n <? 31)%nat then Done (Z.shiftl 1 (Z.of_nat n)) else if (n =? 31)%nat then Done (u64 (-2147483648)) else Fault.
Definition shr64 (x : Z) (n : nat) : outcome Z := if (n <? 64)%nat then Done (Z.shiftr x (Z.of_nat n)) else Fault.

Definition display_frames (layers : list DrmHwcLayer) (l : list nat) : outcome (list Rect) :=
  mapM (fun i => display_frame <$> access (layers !! i)) l.

(** Taking out the layers that are below a dedicated layer. *)
Definition subtract_below (comp_layers : list nat) (layer_offset : nat) (dedicated : nat) (s : IdSet) : IdSet :=
  foldl (fun s '(j, c) => if (c <? dedicated)%nat then id_subtract s (j + layer_offset) else s) s (imap pair comp_layers).

Fixpoint dedicated_loop (i : nat) (dedicated_layers comp_layers : list nat) (num_exclude_rects layer_offset : nat)
    (dedicated_intersect : Z) (s : IdSet) : outcome IdSet :=
  match dedicated_layers with
  | [] => Done s
  | d :: dedicated_layers =>
      if dedicated_intersect =? 0 then Done s
      else
        bit ← int_bit (i + num_exclude_rects);
        dedicated_loop (S i) dedicated_layers comp_layers num_exclude_rects layer_offset dedicated_intersect
          (if Z.land dedicated_intersect bit =? 0 then s else subtract_below comp_layers layer_offset d s)
  end.

Definition separate_region (dedicated_layers comp_layers : list nat) (num_exclude_rects layer_offset : nat)
    (exclude_mask dedicated_mask : Z) (region : RectSet) : outcome (option DrmCompositionRegion) :=
  if negb (Z.land (id_set region) exclude_mask =? 0) then Done None
  else
    s ← dedicated_loop 0 dedicated_layers comp_layers num_exclude_rects layer_offset
          (Z.land (id_set region) dedicated_mask) (id_set region);
    bits ← shr64 s layer_offset;
    if bits =? 0 then Done None
    else
      sources ← SetBitsToVector bits comp_layers;
      Done (Some (MkCompRegion (rect region) sources)).

Fixpoint separate_loop (f : RectSet -> outcome (option DrmCompositionRegion)) (l : list RectSet) (pre_comp_regions : list DrmCompositionRegion)
    : outcome (list DrmCompositionRegion) :=
  match l with
  | [] => Done pre_comp_regions
  | region :: l =>
      r ← f region;
      separate_loop f l (pre_comp_regions ++ option_list r)
  end.

(** What a vector of rectangles holds where nothing was copied. *)
Definition no_rect : Rect := MkRect 0 0 0 0.

Definition SeparateLayers (exclude_rects : list Rect) (c : DrmDisplayComposition) : outcome DrmDisplayComposition :=
  let '(comp, dedicated_layers) := find_comp (composition_planes_ c) [] in
  match comp with
  | None => Done c
  | Some comp =>
      let comp_layers := source_layers comp in
      if (64 <? length comp_layers)%nat then Done c
      else
        let layer_offset := (length exclude_rects + length dedicated_layers)%nat in
        num_exclude_rects ←
          (if (64 <? length comp_layers + layer_offset)%nat then
             if (64 <? length comp_layers + length dedicated_layers)%nat then Fault
             else Done (64 - length comp_layers - length dedicated_layers)%nat
           else Done (length exclude_rects));
        dedicated_frames ← display_frames (layers_ c) dedicated_layers;
        comp_frames ← display_frames (layers_ c) comp_layers;
        let layer_rects := take num_exclude_rects exclude_rects ++ dedicated_frames ++
                           replicate (layer_offset - num_exclude_rects - length dedicated_layers) no_rect ++ comp_frames in
        separate_regions ← separate_rects_64 layer_rects [];
        exclude_mask ← shl64 1 num_exclude_rects;
        dedicated_bits ← shl64 1 (length dedicated_layers);
        dedicated_mask ← shl64 (dedicated_bits - 1) num_exclude_rects;
        pre_comp_regions ← separate_loop
          (separate_region dedicated_layers comp_layers num_exclude_rects layer_offset (exclude_mask - 1) dedicated_mask)
          separate_regions (pre_comp_regions_ c);
        Done (set_plan (squash_regions_ c) pre_comp_regions (composition_planes_ c) c)
  end.

(** ** Release fences *)

Definition region_sources (l : list DrmCompositionRegion) : list nat := l ≫= region_layers.

Definition plane_sources (l : list DrmCompositionPlane) : list nat :=
  l ≫= fun p => if bool_decide (comp_type p = kLayer) then source_layers p else [].

(** A fence for every layer of a set that has one to be released. *)
Fixpoint assign_loop (l : list nat) (c : DrmDisplayComposition) : outcome (Z * DrmDisplayComposition) :=
  match l with
  | [] => Done (0, c)
  | i :: l =>
      layer ← access (layers_ c !! i);
      if negb (release_fence layer) then assign_loop l c
      else
        '(fd, c) ← CreateNextTimelineFence c;
        let c := set_fence i fd (timeline_ c) c in
        if fd <? 0 then Done (fd, c) else assign_loop l c
  end.

Definition set_order (X : gset nat) : list nat := unordered (elements X).

Definition CreateAndAssignReleaseFences (c : DrmDisplayComposition) : outcome (Z * DrmDisplayComposition) :=
  let squash_sources := region_sources (squash_regions_ c) in
  let pre_comp_sources := region_sources (pre_comp_regions_ c) in
  let comp_sources := plane_sources (composition_planes_ c) in
  if negb (forallb (fun i => (i <? length (layers_ c))%nat) (squash_sources ++ pre_comp_sources ++ comp_sources)) then Fault
  else
    let squash_layers : gset nat := list_to_set squash_sources ∖ list_to_set pre_comp_sources in
    let pre_comp_layers : gset nat := list_to_set pre_comp_sources ∖ list_to_set comp_sources in
    let comp_layers : gset nat := list_to_set comp_sources in
    '(ret, c) ← assign_loop (set_order squash_layers) c;
    if ret <? 0 then Done (ret, c)
    else
      let c := set_timelines (timeline_ c) (timeline_current_ c) (timeline_ c) (timeline_pre_comp_done_ c) c in
      '(ret, c) ← assign_loop (set_order pre_comp_layers) c;
      if ret <? 0 then Done (ret, c)
      else
        let c := set_timelines (timeline_ c) (timeline_current_ c) (timeline_squash_done_ c) (timeline_ c) c in
        '(ret, c) ← assign_loop (set_order comp_layers) c;
        if ret <? 0 then Done (ret, c) else Done (0, c).

Definition FinalizeComposition (exclude_rects : list Rect) (c : DrmDisplayComposition) : outcome (Z * DrmDisplayComposition) :=
  c ← SeparateLayers exclude_rects c;
  CreateAndAssignReleaseFences c.

(** ** Plan *)

(** What the loop over the regions gathers: the area of each layer that was
    squashed, the rectangles to exclude, the regions to be squashed again. *)
Record squash_plan : Type := MkSquashPlan {
  layer_squash_area : list Z;
  exclude_rects : list Rect;
  squash_regions : list DrmCompositionRegion
}.

(** The layers of a region, from the top down; [region.layer_refs[i]] is a bit of 64. *)
Fixpoint squash_layers_loop (layer_index : nat) (region : Region) (frame_area : Z) (areas : list Z) (sources : list nat)
    : outcome (list Z * list nat) :=
  match layer_index with
  | O => Done (areas, sources)
  | S i =>
      if (64 <=? i)%nat then Fault
      else if Z.testbit (layer_refs region) (Z.of_nat i) then
        old ← access (areas !! i);
        a ← int_checked (old + frame_area);
        squash_layers_loop i region frame_area (<[i := a]> areas) (sources ++ [i])
      else squash_layers_loop i region frame_area areas sources
  end.

Fixpoint squash_regions_loop (num_layers : nat) (render_squash : bool) (l : list (Region * bool)) (p : squash_plan)
    : outcome squash_plan :=
  match l with
  | [] => Done p
  | (region, stable) :: l =>
      if negb stable then squash_regions_loop num_layers render_squash l p
      else
        frame_area ← area (region_rect region);
        '(areas, sources) ← squash_layers_loop num_layers region frame_area (layer_squash_area p) [];
        squash_regions_loop num_layers render_squash l
          (MkSquashPlan areas (exclude_rects p ++ [region_rect region])
             (if render_squash then squash_regions p ++ [MkCompRegion (region_rect region) sources] else squash_regions p))
  end.

(** The layers that are not entirely squashed. *)
Fixpoint to_composite_loop (i : nat) (layers : list DrmHwcLayer) (areas : list Z) : outcome (list (nat * DrmHwcLayer)) :=
  match layers with
  | [] => Done []
  | layer :: layers =>
      squashed_area ← access (head areas);
      a ← area (display_frame layer);
      rest ← to_composite_loop (S i) layers (tail areas);
      Done (if squashed_area <? a then (i, layer) :: rest else rest)
  end.

Definition plan_squash (squash : SquashState) (c : DrmDisplayComposition) : outcome (SquashState * bool * squash_plan) :=
  let p0 := MkSquashPlan (replicate (length (layers_ c)) 0) [] (squash_regions_ c) in
  if geometry_changed_ c then squash ← squash_Init squash (layers_ c); Done (squash, false, p0)
  else
    '(squash, stable_regions, render_squash) ← squash_step squash (layers_ c);
    p ← squash_regions_loop (length (layers_ c)) render_squash (zip (regions_ squash) stable_regions) p0;
    Done (squash, existsb id stable_regions, p).

(** Removing the first plane that is the one of the plan. *)
Fixpoint erase_plane (p : DrmPlane) (l : list DrmPlane) : list DrmPlane :=
  match l with
  | [] => []
  | q :: l => if bool_decide (q = p) then l else q :: erase_plane p l
  end.

Fixpoint take_planes (planes : list DrmCompositionPlane) (primary overlay : list DrmPlane)
    : list DrmCompositionPlane * list DrmPlane * list DrmPlane :=
  match planes with
  | [] => ([], primary, overlay)
  | i :: planes =>
      match comp_plane i with
      | None => let '(planes, primary, overlay) := take_planes planes primary overlay in (i :: planes, primary, overlay)
      | Some p =>
          let sorted := MkComposition (comp_type i) (comp_plane i) (comp_crtc i) (merge_sort le (source_layers i)) in
          let '(primary, overlay) := if is_primary p then (erase_plane p primary, overlay) else (primary, erase_plane p overlay) in
          let '(planes, primary, overlay) := take_planes planes primary overlay in (sorted :: planes, primary, overlay)
      end
  end.

(** The result of Plan: the return value, the state of the squashing, the planes that are left. *)
Definition Plan (stages : list PlanStage) (squash : option SquashState) (primary_planes overlay_planes : list DrmPlane)
    (c : DrmDisplayComposition)
    : outcome (Z * DrmDisplayComposition * option SquashState * list DrmPlane * list DrmPlane) :=
  if negb (bool_decide (type_ c = DRM_COMPOSITION_TYPE_FRAME)) then Done (0, c, squash, primary_planes, overlay_planes)
  else
    '(squash, use_squash_framebuffer, p, to_composite) ←
      match squash with
      | Some squash =>
          '(squash, use, p) ← plan_squash squash c;
          to_composite ← to_composite_loop 0 (layers_ c) (layer_squash_area p);
          Done (Some squash, use, p, to_composite)
      | None => Done (None, false, MkSquashPlan [] [] (squash_regions_ c), imap pair (layers_ c))
      end;
    let c := set_plan (squash_regions p) (pre_comp_regions_ c) (composition_planes_ c) c in
    '(ret, planes, _) ← ProvisionPlanes stages to_composite use_squash_framebuffer (crtc_ c) primary_planes overlay_planes;
    if negb (ret =? 0) then
      Done (ret, set_plan (squash_regions_ c) (pre_comp_regions_ c) planes c, squash, primary_planes, overlay_planes)
    else
      let '(planes, primary_planes, overlay_planes) := take_planes planes primary_planes overlay_planes in
      '(ret, c) ← FinalizeComposition (exclude_rects p) (set_plan (squash_regions_ c) (pre_comp_regions_ c) planes c);
      Done (ret, c, squash, primary_planes, overlay_planes).
End Compositions.
