(* ===== verification/CompositionPlan.v ===== *)
(** * CompositionPlan: what a planned frame shows

    The theorems about Composition: the regions of the composition hold, for
    every pixel, the layers that are to be composed there and no others; a
    layer that is left out was squashed at every one of its pixels; a region is
    stable exactly when the last frames did not change it; release fences are
    signalled when the last stage that reads their layer is done. *)

From S2P Require Import Prelude.
From stdpp Require Import sorting.
From S2P Require Import SeparateRects Planner Composition.

Open Scope Z_scope.

(** ** Bits of a region *)

Definition selected (P : nat -> bool) (l : list nat) : list nat :=
  omap (fun '(j, x) => if P j then Some x else None) (imap pair l).

Lemma selected_snoc P l x : selected P (l ++ [x]) = selected P l ++ (if P (length l) then [x] else []).
Proof.
  unfold selected. rewrite imap_app, omap_app. f_equal. cbn. rewrite Nat.add_0_r. by destruct (P (length l)).
Qed.


Lemma selected_filter P Q l : (forall j x, l !! j = Some x -> P j = true <-> Q x) -> forall `{!forall x, Decision (Q x)},
  selected P l = filter Q l.
Proof.
  intros H HQ. induction l as [|x l IH] using rev_ind; [done|]. rewrite selected_snoc, filter_app, IH.
  - f_equal. destruct (H (length l) x) as [H1 H2]; [by rewrite lookup_app_r, Nat.sub_diag by done|].
    rewrite filter_cons. case_decide; destruct (P (length l)); try done; naive_solver.
  - intros j y Hj. apply H. by apply lookup_app_l_Some.
Qed.

Lemma set_bits_loop_eq n bits l : (forall j, (j < n)%nat -> Z.testbit bits (Z.of_nat j) = true -> (j < length l)%nat) ->
  set_bits_loop n bits l = Done (reverse (selected (fun j => Z.testbit bits (Z.of_nat j)) (take n l))).
Proof.
  induction n as [|n IH]; intros H; cbn [set_bits_loop]; [done|].
  rewrite IH by (intros; apply H; [lia|done]). destruct (l !! n) as [x|] eqn:Hx.
  - rewrite (take_S_r _ _ _ Hx), selected_snoc, length_take_le by (apply lookup_lt_Some in Hx; lia).
    destruct (Z.testbit bits (Z.of_nat n)); cbn; [by rewrite reverse_snoc|by rewrite app_nil_r].
  - destruct (Z.testbit bits (Z.of_nat n)) eqn:E.
    + apply H in E; [|lia]. apply lookup_ge_None in Hx. lia.
    + apply lookup_ge_None in Hx. by rewrite !take_ge by lia.
Qed.

Lemma separate_loop_eq f g l acc : (forall p, p ∈ l -> f p = Done (g p)) -> separate_loop f l acc = Done (acc ++ omap g l).
Proof.
  revert acc. induction l as [|p l IH]; intros acc H; cbn; [by rewrite app_nil_r|].
  rewrite (H p) by (by left). rewrite bind_Done_eq, IH by (intros; apply H; by right).
  destruct (g p); cbn; [by rewrite <- app_assoc|by rewrite app_nil_r].
Qed.

(** A word with a mask for some of its bits. *)
Lemma zero_bits z : 0 <= z -> (forall n : nat, Z.testbit z (Z.of_nat n) = false) <-> z = 0.
Proof.
  intros Hz. split; [|intros -> n; apply Z.testbit_0_l].
  intros H. apply Z.bits_inj_0. intros n. destruct (Z_lt_le_dec n 0); [by apply Z.testbit_neg_r|].
  rewrite <- (Z2Nat.id n) by done. apply H.
Qed.

Lemma eqb_zero_bits z : 0 <= z -> (z =? 0) = false <-> exists n : nat, Z.testbit z (Z.of_nat n) = true.
Proof.
  intros Hz. rewrite Z.eqb_neq. split.
  - intros Hne. destruct (Z.bit_log2 z) as []; [lia|]. exists (Z.to_nat (Z.log2 z)).
    rewrite Z2Nat.id by apply Z.log2_nonneg. done.
  - intros [n Hn] ->. by rewrite Z.testbit_0_l in Hn.
Qed.

Lemma land_bit_zero s k : 0 <= s -> (Z.land s (Z.shiftl 1 (Z.of_nat k)) =? 0) = negb (Z.testbit s (Z.of_nat k)).
Proof.
  intros Hs. assert (0 <= Z.land s (Z.shiftl 1 (Z.of_nat k))) as Hl by (apply Z.land_nonneg; by left).
  assert (forall n : nat, Z.testbit (Z.land s (Z.shiftl 1 (Z.of_nat k))) (Z.of_nat n) = Z.testbit s (Z.of_nat n) && bool_decide (n = k)) as Hb.
  { intros n. rewrite Z.land_spec, Z.shiftl_spec by lia. f_equal. case_bool_decide as E.
    - by rewrite E, Z.sub_diag.
    - destruct (Z_lt_le_dec (Z.of_nat n) (Z.of_nat k)); [by rewrite Z.testbit_neg_r by lia|].
      rewrite Z.bits_above_log2; cbn; lia. }
  destruct (Z.testbit s (Z.of_nat k)) eqn:E; cbn.
  - apply eqb_zero_bits; [done|]. exists k. by rewrite Hb, E, bool_decide_eq_true_2.
  - apply Z.eqb_eq, zero_bits; [done|]. intros n. rewrite Hb. case_bool_decide as En; [by rewrite En, E|by rewrite andb_false_r].
Qed.

Lemma ones_testbit (k n : nat) : Z.testbit (Z.ones (Z.of_nat k)) (Z.of_nat n) = bool_decide (n < k)%nat.
Proof.
  case_bool_decide; [rewrite Z.ones_spec_low by lia; done|rewrite Z.ones_spec_high by lia; done].
Qed.

Lemma shl64_one k : (k < 64)%nat -> shl64 1 k = Done (Z.ones (Z.of_nat k) + 1).
Proof.
  intros Hk. unfold shl64. rewrite (proj2 (Nat.ltb_lt _ _) Hk), Z.shiftl_1_l, wrap_small.
  - rewrite Z.ones_equiv. f_equal. lia.
  - split; [lia|]. apply Z.pow_lt_mono_r; lia.
Qed.

Lemma shl64_ones k n : (k + n < 64)%nat -> shl64 (Z.ones (Z.of_nat k)) n = Done (Z.shiftl (Z.ones (Z.of_nat k)) (Z.of_nat n)).
Proof.
  intros Hk. unfold shl64. rewrite (proj2 (Nat.ltb_lt n 64)) by lia. rewrite wrap_small; [done|].
  rewrite Z.shiftl_mul_pow2, Z.ones_equiv by lia. pose proof (Z.pow_pos_nonneg 2 (Z.of_nat k)). pose proof (Z.pow_pos_nonneg 2 (Z.of_nat n)).
  split; [apply Z.mul_nonneg_nonneg; lia|].
  apply Z.lt_le_trans with (2 ^ Z.of_nat k * 2 ^ Z.of_nat n); [apply Z.mul_lt_mono_pos_r; lia|].
  rewrite <- Z.pow_add_r by lia. apply Z.pow_le_mono_r; lia.
Qed.

(** ** The layers of a region *)

Section OneRegion.
Context (ne : nat) (ded comp : list nat).
Notation off := (ne + length ded)%nat.
Context (few : (ne + length ded <= 31)%nat) (fit : (ne + length ded + length comp <= 64)%nat).

Definition below_at (d : nat) (l : list nat) (offset n : nat) : Prop :=
  exists j c, l !! j = Some c /\ (c < d)%nat /\ n = (j + offset)%nat.

Lemma subtract_below_bits d l s P : (length l + off <= 64)%nat -> bits s P -> (forall n, P n -> (n < 64)%nat) ->
  bits (subtract_below l off d s) (fun n => P n /\ ~ below_at d l off n).
Proof.
  intros Hlen Hs HP. unfold subtract_below. induction l as [|c l IH] using rev_ind.
  - eapply bits_ext; [|exact Hs]. intros n. split; [|tauto]. intros Hn. split; [done|]. by intros (j & c & Hj & _).
  - rewrite length_app in Hlen. cbn in Hlen. rewrite imap_app, foldl_app. cbn -[Nat.ltb]. rewrite Nat.add_0_r.
    specialize (IH ltac:(lia)). set (s' := foldl _ s _) in *.
    assert (forall n, below_at d (l ++ [c]) off n <-> below_at d l off n \/ ((c < d)%nat /\ n = (length l + off)%nat)) as Hat.
    { intros n. unfold below_at. split.
      - intros (j & c' & Hj & Hc & ->). apply lookup_app_Some in Hj as [Hj|[Hge Hj]]; [left; eauto|right].
        apply list_lookup_singleton_Some in Hj as [Hj <-]. split; [done|lia].
      - intros [(j & c' & Hj & Hc & ->)|[Hc ->]]; [exists j, c'|exists (length l), c]; (split_and!; [|done..]).
        + by apply lookup_app_l_Some.
        + by rewrite lookup_app_r, Nat.sub_diag. }
    destruct (Nat.ltb_spec c d).
    + eapply bits_ext; [|apply id_subtract_bits; [| |exact IH]]; [|lia|by intros n [? _]; apply HP].
      intros n. cbn. rewrite Hat. tauto.
    + eapply bits_ext; [|exact IH]. intros n. cbn. rewrite Hat. intuition lia.
Qed.

Definition hidden_at (intersect : nat -> bool) (i : nat) (l : list nat) (n : nat) : Prop :=
  exists k d, l !! k = Some d /\ intersect (i + k)%nat = true /\ below_at d comp off n.

Lemma dedicated_loop_bits dset l : forall i s P, 0 <= dset -> (i + length l + ne <= 31)%nat -> bits s P -> (forall n, P n -> (n < 64)%nat) ->
  exists s', dedicated_loop i l comp ne off dset s = Done s' /\
    bits s' (fun n => P n /\ ~ hidden_at (fun k => Z.testbit dset (Z.of_nat (k + ne))) i l n).
Proof.
  induction l as [|d l IH]; intros i s P Hd Hi Hs HP; cbn [dedicated_loop].
  - exists s. split; [done|]. eapply bits_ext; [|exact Hs]. intros n. split; [|tauto]. intros Hn. split; [done|].
    by intros (k & d & Hk & _).
  - cbn in Hi. destruct (dset =? 0) eqn:E0.
    + exists s. split; [done|]. eapply bits_ext; [|exact Hs]. intros n. split; [|tauto]. intros Hn. split; [done|].
      intros (k & d' & _ & Hb & _). apply Z.eqb_eq in E0. rewrite E0 in Hb. by rewrite Z.testbit_0_l in Hb.
    + unfold int_bit. rewrite (proj2 (Nat.ltb_lt (i + ne) 31)) by lia. rewrite bind_Done_eq, land_bit_zero by done.
      set (s1 := if negb (Z.testbit dset _) then s else _).
      assert (bits s1 (fun n => P n /\ ~ (Z.testbit dset (Z.of_nat (i + ne)) = true /\ below_at d comp off n))) as Hs1.
      { unfold s1. destruct (Z.testbit dset (Z.of_nat (i + ne))); cbn.
        - eapply bits_ext; [|apply subtract_below_bits; [lia|exact Hs|done]]. intros n. cbn. tauto.
        - eapply bits_ext; [|exact Hs]. intros n. cbn. intuition congruence. }
      destruct (IH (S i) s1 _ Hd ltac:(lia) Hs1) as (s' & -> & Hs'); [by intros n [? _]; apply HP|].
      exists s'. split; [done|]. eapply bits_ext; [|exact Hs']. intros n. cbn. unfold hidden_at. split.
      * intros [[Hn H1] H2]. split; [done|]. intros ([|k] & d' & Hk & Hb & Hat); cbn in Hk.
        -- injection Hk as ->. rewrite Nat.add_0_r in Hb. tauto.
        -- apply H2. exists k, d'. by rewrite <- Nat.add_succ_comm in Hb.
      * intros [Hn H1]. split_and!; [done|..].
        -- intros [Hb Hat]. apply H1. exists 0%nat, d. by rewrite Nat.add_0_r.
        -- intros (k & d' & Hk & Hb & Hat). apply H1. exists (S k), d'. by rewrite <- Nat.add_succ_comm.
Qed.

Context (sources : Z) (sources_nonneg : 0 <= sources).
Context (sources_bits : forall n : nat, Z.testbit sources (Z.of_nat n) = true -> (n < off + length comp)%nat).
Notation bit n := (Z.testbit sources (Z.of_nat n)).

(** The layer of index j in the composition is to be seen in the region. *)
Definition to_show (j c : nat) : Prop :=
  bit (off + j) = true /\ ~ exists k d, ded !! k = Some d /\ bit (ne + k) = true /\ (c < d)%nat.

Lemma excluded_bits : (Z.land sources (Z.ones (Z.of_nat ne)) =? 0) = false <-> exists n, (n < ne)%nat /\ bit n = true.
Proof.
  rewrite eqb_zero_bits by (apply Z.land_nonneg; by left). f_equiv. intros n.
  rewrite Z.land_spec, andb_true_iff, ones_testbit, bool_decide_eq_true. tauto.
Qed.

Lemma dedicated_bit k : (k < length ded)%nat ->
  Z.testbit (Z.land sources (Z.shiftl (Z.ones (Z.of_nat (length ded))) (Z.of_nat ne))) (Z.of_nat (k + ne)) = bit (ne + k).
Proof.
  intros Hk. rewrite Z.land_spec, Z.shiftl_spec by lia. replace (Z.of_nat (k + ne) - Z.of_nat ne) with (Z.of_nat k) by lia.
  rewrite ones_testbit, bool_decide_eq_true_2, andb_true_r by done. f_equal. lia.
Qed.

(** What is left of the set once the layers below dedicated ones are taken out. *)
Lemma shown_bits : exists s',
  dedicated_loop 0 ded comp ne off (Z.land sources (Z.shiftl (Z.ones (Z.of_nat (length ded))) (Z.of_nat ne))) sources = Done s' /\
  0 <= s' /\ (forall n, Z.testbit (Z.shiftr s' (Z.of_nat off)) (Z.of_nat n) = true -> (n < length comp)%nat) /\
  (forall j c, comp !! j = Some c -> Z.testbit (Z.shiftr s' (Z.of_nat off)) (Z.of_nat j) = true <-> to_show j c).
Proof.
  set (dset := Z.land _ _). assert (0 <= dset) as Hdset by (apply Z.land_nonneg; by left).
  destruct (dedicated_loop_bits dset ded 0 sources (fun n => bit n = true)) as (s' & E & Hs0 & Hs'); [done|lia|done| |].
  { intros n Hn%sources_bits. lia. }
  assert (forall n, Z.testbit (Z.shiftr s' (Z.of_nat off)) (Z.of_nat n) = Z.testbit s' (Z.of_nat (off + n))) as Hshift.
  { intros n. rewrite Z.shiftr_spec by lia. f_equal. lia. }
  exists s'. split_and!; [done..|intros n; rewrite Hshift, Hs'|intros j c Hj; rewrite Hshift, Hs'].
  - intros [Hn%sources_bits _]. lia.
  - unfold to_show. f_equiv. unfold hidden_at, below_at. f_equiv. f_equiv. intros k. f_equiv. intros d. split.
    + intros (Hk & Hb & j' & c' & Hj' & Hc & E'). pose proof (lookup_lt_Some _ _ _ Hk) as Hlt. cbn in Hb.
      unfold dset in Hb. rewrite dedicated_bit in Hb by done. assert (j' = j) as -> by lia. by simplify_eq.
    + intros (Hk & Hb & Hc). pose proof (lookup_lt_Some _ _ _ Hk) as Hlt. split_and!; [done| |].
      * cbn. unfold dset. by rewrite dedicated_bit.
      * exists j, c. split_and!; [done..|lia].
Qed.

Lemma separate_region_eq r (Q : nat -> Prop) `{!forall c, Decision (Q c)} :
  (forall j c, comp !! j = Some c -> Q c <-> to_show j c) ->
  exists o, separate_region ded comp ne off (Z.ones (Z.of_nat ne)) (Z.shiftl (Z.ones (Z.of_nat (length ded))) (Z.of_nat ne))
    (MkRectSet sources r) = Done o /\
  ((exists n, (n < ne)%nat /\ bit n = true) -> o = None) /\
  (~ (exists n, (n < ne)%nat /\ bit n = true) ->
     o = if decide (filter Q comp = []) then None else Some (MkCompRegion r (reverse (filter Q comp)))).
Proof.
  intros HQ. unfold separate_region. cbn [id_set rect].
  destruct (Z.land sources _ =? 0) eqn:Ex; cbn [negb]; [|exists None; split_and!; [done..|by intros []; apply excluded_bits]].
  destruct shown_bits as (s' & E & Hs0 & Hlt & Hshow). rewrite E, bind_Done_eq. unfold shr64.
  rewrite (proj2 (Nat.ltb_lt off 64)) by lia. rewrite bind_Done_eq. set (b := Z.shiftr s' _) in *.
  assert (0 <= b) as Hb0 by (by apply Z.shiftr_nonneg).
  assert (filter Q comp = selected (fun j => Z.testbit b (Z.of_nat j)) comp) as Esel.
  { symmetry. apply selected_filter. intros j x Hj. by rewrite HQ, Hshow. }
  assert (~ (exists n, (n < ne)%nat /\ bit n = true)) as Hno by (intros Hex%excluded_bits; congruence).
  destruct (b =? 0) eqn:Eb.
  - exists None. split_and!; [done..|]. intros _. rewrite decide_True; [done|]. apply filter_none.
    intros x (j & Hj)%list_elem_of_lookup Hx. apply (HQ j x Hj), (Hshow j x Hj) in Hx.
    apply Z.eqb_eq in Eb. rewrite Eb in Hx. by rewrite Z.testbit_0_l in Hx.
  - unfold SetBitsToVector. rewrite set_bits_loop_eq by (intros j _; apply Hlt). rewrite take_ge, <- Esel, bind_Done_eq by lia.
    eexists. split_and!; [done|done|]. intros _. rewrite decide_False; [done|]. intros Hnil.
    apply eqb_zero_bits in Eb as [n Hn]; [|done]. destruct (lookup_lt_is_Some_2 comp n) as [c Hc]; [by apply Hlt|].
    assert (c ∈ filter Q comp) as Hin.
    { apply list_elem_of_filter. split; [apply (HQ n c Hc), (Hshow n c Hc), Hn|by eapply list_elem_of_lookup_2]. }
    rewrite Hnil in Hin. by apply elem_of_nil in Hin.
Qed.
End OneRegion.

(** ** The regions of a frame *)

Definition within_b (r : Rect) (x y : Z) : bool :=
  (left r <=? x) && (x <? right r) && ((top r <=? y) && (y <? bottom r)).

Lemma within_b_spec r x y : within_b r x y = true <-> within r x y.
Proof. unfold within_b, within. rewrite !andb_true_iff, !Z.leb_le, !Z.ltb_lt. tauto. Qed.

(** The layer of an index has the pixel. *)
Definition layer_at (layers : list DrmHwcLayer) (i : nat) (x y : Z) : bool :=
  match layers !! i with Some layer => within_b (display_frame layer) x y | None => false end.

Definition hides (layers : list DrmHwcLayer) (x y : Z) (l d : nat) : bool := layer_at layers d x y && (l <? d)%nat.

(** The layers of the composition to be seen at a pixel: those that have it and
    that no dedicated layer that has it lies above. *)
Definition shown (layers : list DrmHwcLayer) (ded comp : list nat) (x y : Z) : list nat :=
  filter (fun l => layer_at layers l x y = true /\ existsb (hides layers x y l) ded = false) comp.

(** What the regions hold at a pixel: one region with the layers to be seen,
    from the top down; none where a rectangle is excluded or there are none. *)
Definition region_at (regions : list DrmCompositionRegion) (sources : list nat) (x y : Z) : Prop :=
  exists r, r ∈ regions /\ within (frame r) x y /\ region_layers r = reverse sources /\
    forall r', r' ∈ regions -> within (frame r') x y -> r' = r.

Definition no_region_at (regions : list DrmCompositionRegion) (x y : Z) : Prop :=
  forall r, r ∈ regions -> ~ within (frame r) x y.

Definition excluded (exclude : list Rect) (x y : Z) : Prop := exists e, e ∈ exclude /\ within e x y.

Lemma excluded_dec exclude x y : excluded exclude x y \/ ~ excluded exclude x y.
Proof.
  destruct (existsb (fun e => within_b e x y) exclude) eqn:E.
  - left. apply existsb_exists in E as (e & He%list_elem_of_In & Hw%within_b_spec). by exists e.
  - right. intros (e & He%list_elem_of_In & Hw%within_b_spec). apply not_true_iff_false in E. apply E, existsb_exists. by exists e.
Qed.

Lemma display_frames_Done layers l : (forall i, i ∈ l -> (i < length layers)%nat) ->
  exists fs, display_frames layers l = Done fs /\ length fs = length l /\
    forall k i x y, l !! k = Some i -> (exists r, fs !! k = Some r /\ within r x y) <-> layer_at layers i x y = true.
Proof.
  unfold display_frames. induction l as [|i l IH]; intros Hl.
  - exists []. split_and!; [done..|]. by intros k i x y.
  - destruct IH as (fs & E & Hlen & Hfs); [intros j Hj; apply Hl; by right|].
    destruct (lookup_lt_is_Some_2 layers i) as [ly Hly]; [apply Hl; by left|].
    exists (display_frame ly :: fs). cbn. rewrite Hly. cbn. rewrite E. cbn. split_and!; [done|by rewrite Hlen|].
    intros [|k] j x y Hj; cbn in Hj.
    + injection Hj as ->. unfold layer_at. rewrite Hly, within_b_spec. cbn. split; [by intros (r & [= <-] & ?)|by eauto].
    + by apply Hfs.
Qed.

Section Separation.
Context (exclude : list Rect) (layers : list DrmHwcLayer) (ded comp : list nat) (dedf compf : list Rect).
Notation ne := (length exclude).
Notation off := (ne + length ded)%nat.
Context (few : (ne + length ded <= 31)%nat) (fit : (ne + length ded + length comp <= 64)%nat).
Context (dedf_length : length dedf = length ded) (compf_length : length compf = length comp).
Context (dedf_at : forall k i x y, ded !! k = Some i -> (exists r, dedf !! k = Some r /\ within r x y) <-> layer_at layers i x y = true).
Context (compf_at : forall k i x y, comp !! k = Some i -> (exists r, compf !! k = Some r /\ within r x y) <-> layer_at layers i x y = true).
Notation rects := (exclude ++ dedf ++ compf).
Context (X : Z) (res : list RectSet) (Hres : forall B, X < B -> tiled rects B res).

Notation f := (separate_region ded comp ne off (Z.ones (Z.of_nat ne)) (Z.shiftl (Z.ones (Z.of_nat (length ded))) (Z.of_nat ne))).

Lemma covers_exclude x y : (exists n, (n < ne)%nat /\ covers rects n x y) <-> excluded exclude x y.
Proof.
  unfold excluded, covers. split.
  - intros (n & Hn & r & Hr & Hw). rewrite lookup_app_l in Hr by done. exists r. split; [by eapply list_elem_of_lookup_2|done].
  - intros (e & [n Hn]%list_elem_of_lookup & Hw). pose proof (lookup_lt_Some _ _ _ Hn). exists n. split; [done|].
    exists e. by rewrite lookup_app_l.
Qed.

Lemma covers_ded k i x y : ded !! k = Some i -> covers rects (ne + k) x y <-> layer_at layers i x y = true.
Proof.
  intros Hk. rewrite <- (dedf_at k i x y Hk). unfold covers. rewrite lookup_app_r by lia.
  replace (ne + k - ne)%nat with k by lia. rewrite lookup_app_l by (rewrite dedf_length; by eapply lookup_lt_Some). done.
Qed.

Lemma covers_comp j i x y : comp !! j = Some i -> covers rects (off + j) x y <-> layer_at layers i x y = true.
Proof.
  intros Hj. rewrite <- (compf_at j i x y Hj). unfold covers. rewrite lookup_app_r by lia.
  rewrite lookup_app_r by lia. replace (off + j - ne - length dedf)%nat with j by lia. done.
Qed.

Lemma existsb_hides x y l : existsb (hides layers x y l) ded = true <->
  exists k d, ded !! k = Some d /\ covers rects (ne + k) x y /\ (l < d)%nat.
Proof.
  rewrite existsb_exists. unfold hides. setoid_rewrite andb_true_iff. setoid_rewrite Nat.ltb_lt. split.
  - intros (d & Hd & Hat & Hlt). apply list_elem_of_In, list_elem_of_lookup in Hd as [k Hk]. exists k, d.
    by rewrite (covers_ded k d).
  - intros (k & d & Hk & Hc & Hlt). exists d. rewrite (covers_ded k d) in Hc by done.
    split; [|done]. apply list_elem_of_In. by eapply list_elem_of_lookup_2.
Qed.

(** A rectangle of the separation gives a region as one of its pixels says. *)
Lemma region_of_pixel p x y : p ∈ res -> within (rect p) x y ->
  exists o, f p = Done o /\ (excluded exclude x y -> o = None) /\
    (~ excluded exclude x y ->
       o = if decide (shown layers ded comp x y = []) then None
           else Some (MkCompRegion (rect p) (reverse (shown layers ded comp x y)))).
Proof.
  intros Hp Hw. destruct (tiled_ids _ _ _ (Hres (X + 1) ltac:(lia)) p x y Hp Hw) as [H0 Hb].
  destruct p as [s r]. cbn [id_set rect] in *.
  assert (forall n : nat, Z.testbit s (Z.of_nat n) = true -> (n < off + length comp)%nat) as Hbound.
  { intros n (r' & Hr' & _)%Hb. apply lookup_lt_Some in Hr'. rewrite !length_app, dedf_length, compf_length in Hr'. lia. }
  edestruct (separate_region_eq ne ded comp few fit s H0 Hbound r
    (fun l => layer_at layers l x y = true /\ existsb (hides layers x y l) ded = false)) as (o & E & H1 & H2).
  - intros j c Hj. unfold to_show. rewrite Hb, (covers_comp j c), <- not_true_iff_false, existsb_hides by done.
    f_equiv. f_equiv. f_equiv. intros k. f_equiv. intros d. by rewrite Hb.
  - exists o. split; [exact E|]. rewrite <- covers_exclude. split.
    + intros (n & Hn & Hc%Hb). apply H1. by exists n.
    + intros Hno. apply H2. intros (n & Hn & Hc%Hb). apply Hno. by exists n.
Qed.

Lemma region_pixel p : p ∈ res -> within (rect p) (left (rect p)) (top (rect p)).
Proof. intros Hp. destruct (tiled_shape _ _ _ (Hres (X + 1) ltac:(lia)) p Hp) as [[? ?] _]. unfold within. lia. Qed.

Definition region_of (p : RectSet) : option DrmCompositionRegion := match f p with Done o => o | _ => None end.

Lemma region_of_Done p : p ∈ res -> f p = Done (region_of p).
Proof.
  intros Hp. destruct (region_of_pixel p _ _ Hp (region_pixel p Hp)) as (o & E & _). unfold region_of. by rewrite E.
Qed.

Lemma region_of_frame p r : p ∈ res -> region_of p = Some r -> frame r = rect p.
Proof.
  intros Hp Hr. destruct (region_of_pixel p _ _ Hp (region_pixel p Hp)) as (o & E & H1 & H2).
  rewrite region_of_Done in E by done. injection E as E. rewrite Hr in E. subst o.
  destruct (excluded_dec exclude (left (rect p)) (top (rect p))) as [Hex|Hex]; [by specialize (H1 Hex)|].
  specialize (H2 Hex). case_decide; [done|]. by injection H2 as ->.
Qed.

Lemma elem_of_regions r : r ∈ omap region_of res <-> exists p, p ∈ res /\ region_of p = Some r.
Proof. apply list_elem_of_omap. Qed.

Lemma regions_sources r i : r ∈ omap region_of res -> i ∈ region_layers r -> i ∈ comp.
Proof.
  intros (p & Hp & Hr)%elem_of_regions Hi. destruct (region_of_pixel p _ _ Hp (region_pixel p Hp)) as (o & E & H1 & H2).
  rewrite region_of_Done in E by done. injection E as E. rewrite Hr in E. subst o.
  destruct (excluded_dec exclude (left (rect p)) (top (rect p))) as [Hex|Hex]; [by specialize (H1 Hex)|].
  specialize (H2 Hex). case_decide; [done|]. injection H2 as ->. cbn in Hi. rewrite elem_of_reverse in Hi.
  unfold shown in Hi. by apply list_elem_of_filter in Hi as [_ ?].
Qed.

Lemma regions_at x y :
  let regions := omap region_of res in
  let sources := shown layers ded comp x y in
  (excluded exclude x y -> no_region_at regions x y) /\
  (~ excluded exclude x y -> if decide (sources = []) then no_region_at regions x y else region_at regions sources x y).
Proof.
  intros regions sources. assert (forall p r, p ∈ res -> region_of p = Some r -> within (frame r) x y ->
    within (rect p) x y /\ (excluded exclude x y -> False) /\ (sources = [] -> excluded exclude x y)) as Hnone.
  { intros p r Hp Hr Hw. rewrite (region_of_frame p r Hp Hr) in Hw. split; [done|].
    destruct (region_of_pixel p x y Hp Hw) as (o & E & H1 & H2). rewrite region_of_Done in E by done.
    injection E as E. rewrite Hr in E. split.
    - intros Hex%H1. congruence.
    - intros Hs. destruct (excluded_dec exclude x y) as [|Hex]; [done|]. specialize (H2 Hex). rewrite decide_True in H2 by done. congruence. }
  split.
  - intros Hex r (p & Hp & Hr)%elem_of_regions Hw. by destruct (Hnone p r Hp Hr Hw) as (_ & ? & _).
  - intros Hex. case_decide as Hs.
    + intros r (p & Hp & Hr)%elem_of_regions Hw. destruct (Hnone p r Hp Hr Hw) as (_ & _ & ?). auto.
    + assert (exists n, covers rects n x y) as [n Hn].
      { destruct sources as [|l ls] eqn:El; [done|]. assert (l ∈ sources) as Hl by (rewrite El; by left).
        apply list_elem_of_filter in Hl as [[Hat _] [j Hj]%list_elem_of_lookup].
        exists (off + j)%nat. by apply (covers_comp j l). }
      assert (X < Z.max X x + 1) as HB by lia. pose proof (Hres _ HB) as Ht.
      destruct (tiled_all _ _ _ Ht n x y) as (p & Hp & Hw); [lia|done|].
      destruct (region_of_pixel p x y Hp Hw) as (o & E & _ & H2). rewrite region_of_Done in E by done. injection E as E.
      specialize (H2 Hex). fold sources in H2. rewrite decide_False in H2 by done. rewrite H2 in E.
      exists (MkCompRegion (rect p) (reverse sources)). split_and!; [apply elem_of_regions; by exists p|done..|].
      intros r' (p' & Hp' & Hr')%elem_of_regions Hw'. destruct (Hnone p' r' Hp' Hr' Hw') as (Hwp' & _).
      pose proof (tiled_once _ _ _ Ht p p' x y Hp Hp' Hw Hwp') as <-. congruence.
Qed.
End Separation.

Lemma separate_layers_regions exclude c pre ded :
  find_comp (composition_planes_ c) [] = (Some pre, ded) ->
  (length exclude + length ded <= 31)%nat ->
  (length exclude + length ded + length (source_layers pre) <= 64)%nat ->
  (forall i, i ∈ ded ++ source_layers pre -> (i < length (layers_ c))%nat) ->
  exists regions, SeparateLayers exclude c = Done (set_plan (squash_regions_ c) (pre_comp_regions_ c ++ regions) (composition_planes_ c) c) /\
    (forall x y, let sources := shown (layers_ c) ded (source_layers pre) x y in
      (excluded exclude x y -> no_region_at regions x y) /\
      (~ excluded exclude x y -> if decide (sources = []) then no_region_at regions x y else region_at regions sources x y)) /\
    (forall r i, r ∈ regions -> i ∈ region_layers r -> i ∈ source_layers pre).
Proof.
  intros Hfind Hfew Hfit Hin. unfold SeparateLayers. rewrite Hfind. set (comp := source_layers pre) in *.
  rewrite (proj2 (Nat.ltb_ge _ _)) by lia. rewrite (proj2 (Nat.ltb_ge 64 (length comp + _))), bind_Done_eq by lia.
  destruct (display_frames_Done (layers_ c) ded) as (dedf & Ed & Hdl & Hd); [intros i Hi; apply Hin, elem_of_app; by left|].
  destruct (display_frames_Done (layers_ c) comp) as (compf & Ec & Hcl & Hc); [intros i Hi; apply Hin, elem_of_app; by right|].
  rewrite Ed, bind_Done_eq, Ec, bind_Done_eq. rewrite take_ge by done.
  replace (length exclude + length ded - length exclude - length ded)%nat with 0%nat by lia. cbn [replicate app].
  destruct (separate_rects_tiled (exclude ++ dedf ++ compf) []) as (res & X & E & Hres); [rewrite !length_app; lia|].
  unfold separate_rects_64. rewrite E, bind_Done_eq. cbn [app]. rewrite !shl64_one, !bind_Done_eq by lia.
  replace (Z.ones (Z.of_nat (length ded)) + 1 - 1) with (Z.ones (Z.of_nat (length ded))) by lia.
  rewrite shl64_ones, bind_Done_eq by lia.
  replace (Z.ones (Z.of_nat (length exclude)) + 1 - 1) with (Z.ones (Z.of_nat (length exclude))) by lia.
  erewrite separate_loop_eq by (intros p Hp; eapply region_of_Done; done).
  rewrite bind_Done_eq. eexists. split_and!; [done|intros x y; by eapply regions_at|].
  intros r i Hr. by eapply regions_sources.
Qed.

(** ** Release fences *)

Section Fences.
Context `{SyncLib}.
Context (any_order : forall l, unordered l ≡ₚ l).

Definition has_fence (c : DrmDisplayComposition) (i : nat) : Prop :=
  exists layer, layers_ c !! i = Some layer /\ release_fence layer = true.

(** A fence of the layer at a point between two. *)
Definition fence_in (c : DrmDisplayComposition) (i : nat) (low high : Z) : Prop :=
  exists fd p, fences c !! i = Some (fd, p) /\ low < p <= high.

(** What assigning fences leaves as it was. *)
Definition same_frame (c c' : DrmDisplayComposition) : Prop :=
  layers_ c' = layers_ c /\ squash_regions_ c' = squash_regions_ c /\ pre_comp_regions_ c' = pre_comp_regions_ c /\
  composition_planes_ c' = composition_planes_ c /\ timeline_current_ c' = timeline_current_ c /\
  timeline_squash_done_ c' = timeline_squash_done_ c /\ timeline_pre_comp_done_ c' = timeline_pre_comp_done_ c.

Lemma same_frame_trans c1 c2 c3 : same_frame c1 c2 -> same_frame c2 c3 -> same_frame c1 c3.
Proof. unfold same_frame. intuition congruence. Qed.

Lemma fence_in_weaken c i l1 h1 l2 h2 : l2 <= l1 -> h1 <= h2 -> fence_in c i l1 h1 -> fence_in c i l2 h2.
Proof. intros ? ? (fd & p & ? & ?). exists fd, p. split; [done|lia]. Qed.

Lemma assign_loop_fences l : forall c, NoDup l -> (forall i, i ∈ l -> (i < length (layers_ c))%nat) ->
  -2147483648 <= timeline_ c -> timeline_ c + Z.of_nat (length l) <= 2147483647 ->
  exists ret c', assign_loop l c = Done (ret, c') /\ same_frame c c' /\
    timeline_ c <= timeline_ c' <= timeline_ c + Z.of_nat (length l) /\
    (forall i, i ∉ l -> fences c' !! i = fences c !! i) /\
    (ret < 0 \/ ret = 0 /\ forall i, i ∈ l -> has_fence c i -> fence_in c' i (timeline_ c) (timeline_ c')).
Proof.
  induction l as [|i l IH]; intros c Hnd Hin Hmin Hmax; cbn [assign_loop].
  - exists 0, c. cbn. split_and!; [done..|lia|lia|done|]. right. split; [done|]. by intros j ?%elem_of_nil.
  - apply NoDup_cons in Hnd as [Hi Hnd]. cbn in Hmax.
    destruct (lookup_lt_is_Some_2 (layers_ c) i) as [layer Hl]; [apply Hin; by left|].
    rewrite Hl. cbn [access mbind outcome_bind]. destruct (release_fence layer) eqn:Ef; cbn [negb].
    + unfold CreateNextTimelineFence, int_checked. replace ((_ <=? _) && (_ <=? _)) with true by lia.
      rewrite !bind_Done_eq. set (fd := sw_sync_fence_create _). set (c1 := set_fence i fd _ _).
      destruct (Z.ltb_spec fd 0).
      * exists fd, c1. split_and!; [done..|cbn; lia|cbn; lia| |by left].
        intros j Hj. cbn. apply lookup_insert_ne. intros ->. apply Hj. by left.
      * destruct (IH c1) as (ret & c' & E & Hsame & Ht & Hkeep & Hret); [done|by intros j Hj; apply Hin; right|cbn; lia..|].
        exists ret, c'. split_and!; [done|by eapply same_frame_trans; [|exact Hsame]|cbn in *; lia..| |].
        -- intros j Hj. rewrite not_elem_of_cons in Hj. rewrite Hkeep by tauto. cbn. apply lookup_insert_ne. intros ->. tauto.
        -- destruct Hret as [|[-> Hret]]; [by left|right]. split; [done|]. intros j [-> | Hj]%elem_of_cons Hf.
           ++ exists fd, (timeline_ c + 1). rewrite Hkeep by done. cbn. rewrite lookup_insert_eq. cbn in Ht. split; [done|lia].
           ++ eapply fence_in_weaken; [| |by apply Hret]; cbn; lia.
    + destruct (IH c) as (ret & c' & E & Hsame & Ht & Hkeep & Hret); [done|by intros j Hj; apply Hin; right|lia..|].
      exists ret, c'. split_and!; [done..|lia|cbn; lia| |].
      * intros j Hj. rewrite not_elem_of_cons in Hj. apply Hkeep. tauto.
      * destruct Hret as [|[-> Hret]]; [by left|right]. split; [done|]. intros j [-> | Hj]%elem_of_cons Hf; [|by apply Hret].
        destruct Hf as (layer' & ? & ?). congruence.
Qed.

Lemma elem_of_set_order X i : i ∈ set_order X <-> i ∈ X.
Proof. unfold set_order. by rewrite any_order, elem_of_elements. Qed.

Lemma set_order_NoDup X : NoDup (set_order X).
Proof. unfold set_order. rewrite any_order. apply NoDup_elements. Qed.

Lemma set_order_length X (l : list nat) : (forall i, i ∈ X -> i ∈ l) -> (length (set_order X) <= length l)%nat.
Proof.
  intros Hsub. apply submseteq_length, NoDup_submseteq; [apply set_order_NoDup|]. intros i Hi. by apply Hsub, elem_of_set_order.
Qed.

Definition last_used_squash (c : DrmDisplayComposition) (i : nat) : Prop :=
  i ∈ region_sources (squash_regions_ c) /\ i ∉ region_sources (pre_comp_regions_ c) /\ i ∉ plane_sources (composition_planes_ c).
Definition last_used_pre_comp (c : DrmDisplayComposition) (i : nat) : Prop :=
  i ∈ region_sources (pre_comp_regions_ c) /\ i ∉ plane_sources (composition_planes_ c).
Definition last_used_comp (c : DrmDisplayComposition) (i : nat) : Prop := i ∈ plane_sources (composition_planes_ c).

Definition sources_ok (c : DrmDisplayComposition) : Prop :=
  let l := region_sources (squash_regions_ c) ++ region_sources (pre_comp_regions_ c) ++ plane_sources (composition_planes_ c) in
  (forall i, i ∈ l -> (i < length (layers_ c))%nat) /\ -2147483648 <= timeline_ c /\ timeline_ c + Z.of_nat (length l) <= 2147483647.

Lemma release_fences_assigned c : sources_ok c ->
  exists ret c', CreateAndAssignReleaseFences c = Done (ret, c') /\
    (ret < 0 \/ ret = 0 /\
      timeline_current_ c' = timeline_current_ c /\
      timeline_ c <= timeline_squash_done_ c' <= timeline_pre_comp_done_ c' /\ timeline_pre_comp_done_ c' <= timeline_ c' <= 2147483647 /\
      forall i, has_fence c i ->
        (last_used_squash c i -> fence_in c' i (timeline_ c) (timeline_squash_done_ c')) /\
        (last_used_pre_comp c i -> fence_in c' i (timeline_squash_done_ c') (timeline_pre_comp_done_ c')) /\
        (last_used_comp c i -> fence_in c' i (timeline_pre_comp_done_ c') (timeline_ c'))).
Proof.
  unfold sources_ok, last_used_squash, last_used_pre_comp, last_used_comp, CreateAndAssignReleaseFences.
  set (S := region_sources (squash_regions_ c)). set (P := region_sources (pre_comp_regions_ c)). set (C := plane_sources (composition_planes_ c)).
  intros (Hin & Hmin & Hmax). rewrite !length_app in Hmax.
  assert (forallb (fun i => (i <? length (layers_ c))%nat) (S ++ P ++ C) = true) as ->.
  { apply forallb_forall. intros i Hi%list_elem_of_In. apply Nat.ltb_lt. auto. }
  cbn [negb]. assert (forall i, i ∈ S \/ i ∈ P \/ i ∈ C -> (i < length (layers_ c))%nat) as Hin'.
  { intros i Hi. apply Hin. rewrite !elem_of_app. done. }
  set (XS := list_to_set S ∖ list_to_set P : gset nat). set (XP := list_to_set P ∖ list_to_set C : gset nat). set (XC := list_to_set C : gset nat).
  assert (length (set_order XS) <= length S)%nat as HlS by (apply set_order_length; set_solver).
  assert (length (set_order XP) <= length P)%nat as HlP by (apply set_order_length; set_solver).
  assert (length (set_order XC) <= length C)%nat as HlC by (apply set_order_length; set_solver).
  assert (forall i, i ∈ set_order XS <-> i ∈ S /\ i ∉ P) as HinS by (intros i; rewrite elem_of_set_order; set_solver).
  assert (forall i, i ∈ set_order XP <-> i ∈ P /\ i ∉ C) as HinP by (intros i; rewrite elem_of_set_order; set_solver).
  assert (forall i, i ∈ set_order XC <-> i ∈ C) as HinC by (intros i; rewrite elem_of_set_order; set_solver).
  destruct (assign_loop_fences (set_order XS) c) as (r1 & c1 & -> & Hs1 & Ht1 & Hk1 & Hr1);
    [apply set_order_NoDup|intros i [Hi _]%HinS; auto|lia..|]. rewrite bind_Done_eq.
  destruct (Z.ltb_spec r1 0) as [Hneg|Hpos]; [by exists r1, c1; split; [|left]|]. destruct Hr1 as [|[-> Hr1]]; [lia|].
  set (d1 := set_timelines _ _ _ _ c1). assert (layers_ d1 = layers_ c) as Hl1 by apply Hs1.
  destruct (assign_loop_fences (set_order XP) d1) as (r2 & c2 & -> & Hs2 & Ht2 & Hk2 & Hr2);
    [apply set_order_NoDup|intros i [Hi _]%HinP; rewrite Hl1; auto|cbn; lia..|]. rewrite bind_Done_eq.
  destruct (Z.ltb_spec r2 0) as [Hneg|Hpos2]; [by exists r2, c2; split; [|left]|]. destruct Hr2 as [|[-> Hr2]]; [lia|].
  set (d2 := set_timelines _ _ _ _ c2). assert (layers_ d2 = layers_ c) as Hl2 by (etransitivity; [apply Hs2|exact Hl1]).
  cbn in Ht2. destruct (assign_loop_fences (set_order XC) d2) as (r3 & c3 & -> & Hs3 & Ht3 & Hk3 & Hr3);
    [apply set_order_NoDup|intros i Hi%HinC; rewrite Hl2; auto|cbn; lia..|]. rewrite bind_Done_eq.
  destruct (Z.ltb_spec r3 0) as [Hneg|Hpos3]; [by exists r3, c3; split; [|left]|]. destruct Hr3 as [|[-> Hr3]]; [lia|].
  cbn in Ht3. exists 0, c3. split; [done|right]. unfold same_frame in *. cbn in Hs2, Hs3, Hr2, Hr3, Hk2, Hk3.
  destruct Hs1 as (_ & _ & _ & _ & E1 & _ & _), Hs2 as (_ & _ & _ & _ & E2 & Es2 & _), Hs3 as (_ & _ & _ & _ & E3 & Es3 & Ep3).
  rewrite Es3, Es2, Ep3, E3, E2, E1. split_and!; [done..|lia|lia|lia|lia|]. intros i Hf. split_and!.
  - intros (HS & HP & HC). destruct (Hr1 i) as (fd & p & Hfd & Hp); [by apply HinS|done|]. exists fd, p. split; [|lia].
    rewrite Hk3, Hk2; [done|by intros [? _]%HinP|by intros ?%HinC].
  - intros (HP & HC). destruct (Hr2 i) as (fd & p & Hfd & Hp); [by apply HinP|unfold has_fence; by rewrite Hl1|]. exists fd, p. split; [|lia].
    rewrite Hk3; [done|by intros ?%HinC].
  - intros HC. destruct (Hr3 i) as (fd & p & Hfd & Hp); [by apply HinC|unfold has_fence; by rewrite Hl2|]. exists fd, p. split; [done|lia].
Qed.

(** A fence is signalled when the timeline has reached its point. *)
Definition signalled (c : DrmDisplayComposition) (i : nat) : Prop :=
  exists fd p, fences c !! i = Some (fd, p) /\ p <= timeline_current_ c.

Lemma IncreaseTimelineToPoint_Done point c c' : IncreaseTimelineToPoint point c = Done (0, c') ->
  c' = set_timelines (timeline_ c) (Z.max (timeline_current_ c) point) (timeline_squash_done_ c) (timeline_pre_comp_done_ c) c.
Proof.
  unfold IncreaseTimelineToPoint, int_checked. case_match; [|done]. rewrite bind_Done_eq. destruct (Z.leb_spec (point - timeline_current_ c) 0).
  - intros [= <-]. rewrite Z.max_l by lia. by destruct c.
  - intros [= E <-]. rewrite E. cbn. by rewrite Z.max_r by lia.
Qed.

Lemma signalled_in c i low high : fence_in c i low high ->
  (high <= timeline_current_ c -> signalled c i) /\ (timeline_current_ c <= low -> ~ signalled c i).
Proof.
  intros (fd & p & Hf & Hp). split; [intros Hle; exists fd, p; split; [done|lia]|].
  intros Hle (fd' & p' & Hf' & Hp'). rewrite Hf in Hf'. injection Hf' as <- <-. lia.
Qed.

(** C14. A release fence is signalled once the last stage that reads its layer is
    done, and not before: the fence of a layer that is only squashed with the
    squash, that of a layer that is composed with the composition, and that of
    a layer on a plane of its own with the frame. *)
Theorem fences_released_in_order c c0 c1 c2 c3 i :
  sources_ok c -> timeline_current_ c <= timeline_ c -> has_fence c i ->
  CreateAndAssignReleaseFences c = Done (0, c0) ->
  SignalSquashDone c0 = Done (0, c1) -> SignalPreCompDone c1 = Done (0, c2) -> SignalCompositionDone c2 = Done (0, c3) ->
  (last_used_squash c i -> ~ signalled c0 i /\ signalled c1 i) /\
  (last_used_pre_comp c i -> ~ signalled c1 i /\ signalled c2 i) /\
  (last_used_comp c i -> ~ signalled c2 i /\ signalled c3 i).
Proof.
  intros Hok Hcur Hf E0 E1 E2 E3.
  destruct (release_fences_assigned c Hok) as (ret & c' & E & Hret). rewrite E0 in E. injection E as <- <-.
  destruct Hret as [|(_ & Hcurrent & Ht & Ht' & Hret)]; [lia|]. destruct (Hret i Hf) as (HS & HP & HC).
  apply IncreaseTimelineToPoint_Done in E1 as ->, E2 as ->, E3 as ->. cbn in *.
  split_and!; intros Hu; split.
  - eapply (signalled_in _ _ _ _ (HS Hu)). lia.
  - destruct (HS Hu) as (fd & p & ? & ?). exists fd, p. cbn. split; [done|lia].
  - intros (fd & p & Hfd & Hp). destruct (HP Hu) as (fd' & p' & Hfd' & ?). cbn in *. rewrite Hfd in Hfd'. injection Hfd' as <- <-. lia.
  - destruct (HP Hu) as (fd & p & ? & ?). exists fd, p. cbn. split; [done|lia].
  - intros (fd & p & Hfd & Hp). destruct (HC Hu) as (fd' & p' & Hfd' & ?). cbn in *. rewrite Hfd in Hfd'. injection Hfd' as <- <-. lia.
  - destruct (HC Hu) as (fd & p & ? & ?). exists fd, p. cbn. split; [done|lia].
Qed.
End Fences.

(** ** Stable regions *)

Definition same_in (layer prev : DrmHwcLayer) : bool := negb (protected_usage layer) && (sf_handle prev =? sf_handle layer).

(** None of the layers of the set is protected or has another buffer than in the frame before. *)
Definition unchanged (refs : Z) (prev cur : list DrmHwcLayer) : Prop :=
  forall i : nat, Z.testbit refs (Z.of_nat i) = true ->
    exists layer before, cur !! i = Some layer /\ prev !! i = Some before /\ same_in layer before = true.

Lemma changed_loop_bits layers : forall i handles acc, length layers = length handles -> (i + length layers <= 64)%nat -> 0 <= acc ->
  exists z, changed_loop i layers handles acc = Done z /\ 0 <= z /\
    forall n : nat, Z.testbit z (Z.of_nat n) = Z.testbit acc (Z.of_nat n) ||
      match (if (i <=? n)%nat then layers !! (n - i)%nat else None), handles !! (n - i)%nat with
      | Some layer, Some h => layer_changed layer h
      | _, _ => false
      end.
Proof.
  induction layers as [|layer layers IH]; intros i handles acc Hlen Hi Hacc; destruct handles as [|h handles]; try done; cbn [changed_loop].
  - exists acc. split_and!; [done..|]. intros n. destruct (i <=? n)%nat; cbn; by rewrite orb_false_r.
  - cbn in Hlen, Hi. injection Hlen as Hlen.
    assert (exists z, (if layer_changed layer h then changed_loop (S i) layers handles (Z.setbit acc (Z.of_nat i))
                       else changed_loop (S i) layers handles acc) = Done z /\ 0 <= z /\
      forall n : nat, Z.testbit z (Z.of_nat n) = (Z.testbit acc (Z.of_nat n) || bool_decide (n = i) && layer_changed layer h) ||
        match (if (S i <=? n)%nat then layers !! (n - S i)%nat else None), handles !! (n - S i)%nat with
        | Some layer, Some h => layer_changed layer h | _, _ => false end) as (z & E & Hz & Hb).
    { destruct (layer_changed layer h).
      - destruct (IH (S i) handles (Z.setbit acc (Z.of_nat i))) as (z & -> & Hz & Hb); [done|lia|by unfold Z.setbit; apply Z.lor_nonneg; split; [done|apply Z.shiftl_nonneg; lia]|].
        exists z. split_and!; [done..|]. intros n. rewrite Hb. f_equal.
        destruct (decide (n = i)) as [-> | Hne].
        + rewrite Z.setbit_eq, bool_decide_eq_true_2 by lia. by rewrite orb_true_r.
        + rewrite Z.setbit_neq, bool_decide_eq_false_2 by lia. by rewrite orb_false_r.
      - destruct (IH (S i) handles acc) as (z & -> & Hz & Hb); [done|lia|done|].
        exists z. split_and!; [done..|]. intros n. rewrite Hb. by rewrite andb_false_r, orb_false_r. }
    exists z. split_and!; [|done|].
    + rewrite <- E. destruct (layer_changed layer h); [|done]. unfold kMaxLayers. by rewrite (proj2 (Nat.ltb_lt i 64)) by lia.
    + intros n. rewrite Hb. destruct (Nat.leb_spec i n) as [Hle|Hlt].
      * destruct (decide (n = i)) as [-> | Hne].
        -- rewrite Nat.sub_diag, bool_decide_eq_true_2 by done. rewrite (proj2 (Nat.leb_gt _ _)) by lia. cbn. by rewrite orb_false_r.
        -- rewrite bool_decide_eq_false_2, (proj2 (Nat.leb_le _ _)) by lia. replace (n - i)%nat with (S (n - S i)) by lia. cbn. by rewrite orb_false_r.
      * rewrite bool_decide_eq_false_2, (proj2 (Nat.leb_gt _ _)) by lia. by rewrite !orb_false_r.
Qed.

(** The state at a frame of a sequence. *)
Definition squash_at (s : SquashState) (prev : list DrmHwcLayer) : Prop :=
  last_handles_ s = sf_handle <$> prev /\ (length prev <= 64)%nat /\
  forall r, r ∈ regions_ s -> 0 <= layer_refs r /\ forall i : nat, Z.testbit (layer_refs r) (Z.of_nat i) = true -> (i < length prev)%nat.

Lemma GenerateHistory_unchanged s prev layers : squash_at s prev -> length layers = length prev ->
  exists changed, GenerateHistory s layers = Done changed /\ length changed = length (regions_ s) /\
    forall k r, regions_ s !! k = Some r -> exists b, changed !! k = Some b /\ (b = false <-> unchanged (layer_refs r) prev layers).
Proof.
  intros (Hh & Hlen & Hrefs) Hl. unfold GenerateHistory. rewrite Hh, length_fmap, Hl, Nat.eqb_refl. cbn [negb].
  destruct (changed_loop_bits layers 0 (sf_handle <$> prev) 0) as (z & -> & Hz & Hb); [by rewrite length_fmap|lia|done|].
  rewrite bind_Done_eq. eexists. split; [done|]. split; [by rewrite length_fmap|]. intros k r Hk.
  rewrite list_lookup_fmap, Hk. cbn. eexists. split; [done|].
  destruct (Hrefs r) as [H0 Hbound]; [by eapply list_elem_of_lookup_2|]. rewrite negb_false_iff, Z.eqb_eq.
  rewrite <- zero_bits by (apply Z.land_nonneg; by left). unfold unchanged.
  assert (forall n layer before, layers !! n = Some layer -> prev !! n = Some before ->
    Z.testbit z (Z.of_nat n) = negb (same_in layer before)) as Hbit.
  { intros n layer before Hn Hp. rewrite Hb, Z.testbit_0_l. cbn. rewrite Nat.sub_0_r, Hn, list_lookup_fmap, Hp. cbn.
    unfold layer_changed, same_in. by rewrite negb_andb, negb_involutive. }
  split.
  - intros H i Hi. destruct (lookup_lt_is_Some_2 prev i) as [before Hp]; [by apply Hbound|].
    destruct (lookup_lt_is_Some_2 layers i) as [layer Hn]; [rewrite Hl; by apply Hbound|].
    exists layer, before. split_and!; [done..|]. specialize (H i). rewrite Z.land_spec, Hi, (Hbit i layer before) in H by done.
    cbn in H. by apply negb_false_iff in H.
  - intros H n. rewrite Z.land_spec. destruct (Z.testbit (layer_refs r) (Z.of_nat n)) eqn:E; [|done].
    destruct (H n E) as (layer & before & Hn & Hp & Hs). by rewrite (Hbit n layer before), Hs by done.
Qed.

Lemma record_change_bits h b : 0 <= h -> 0 <= record_change h b /\
  forall j : nat, Z.testbit (record_change h b) (Z.of_nat j) =
    match j with O => b | S j => (S j <? 6)%nat && Z.testbit h (Z.of_nat j) end.
Proof.
  intros Hh. unfold record_change, kHistoryLength. set (m := Z.land (Z.shiftl h 1) (Z.ones 6)).
  assert (0 <= m) as Hm by (apply Z.land_nonneg; right; done).
  assert (forall j : nat, Z.testbit m (Z.of_nat (S j)) = (S j <? 6)%nat && Z.testbit h (Z.of_nat j)) as Hmb.
  { intros j. unfold m. rewrite Z.land_spec, Z.shiftl_spec by lia. change 6 with (Z.of_nat 6). rewrite ones_testbit.
    replace (Z.of_nat (S j) - 1) with (Z.of_nat j) by lia. rewrite andb_comm. f_equal.
    case_bool_decide; symmetry; [by apply Nat.ltb_lt|apply Nat.ltb_ge; lia]. }
  destruct b; (split; [unfold Z.setbit, Z.clearbit; first [apply Z.lor_nonneg; split; done|by apply Z.ldiff_nonneg; left]|]).
  - intros [|j]; [by rewrite Z.setbit_eq|]. by rewrite Z.setbit_neq, Hmb by lia.
  - intros [|j]; [by rewrite Z.clearbit_eq|]. by rewrite Z.clearbit_neq, Hmb by lia.
Qed.

Lemma squash_step_spec s prev layers : squash_at s prev -> length layers = length prev ->
  exists s' stable render, squash_step s layers = Done (s', stable, render) /\ squash_at s' layers /\
    valid_history_ s' = u32 (valid_history_ s + 1) /\ length (regions_ s') = length (regions_ s) /\ length stable = length (regions_ s) /\
    forall k r, regions_ s !! k = Some r -> exists b, (b = false <-> unchanged (layer_refs r) prev layers) /\
      stable !! k = Some (negb b && is_stable s r) /\
      regions_ s' !! k = Some (MkRegion (region_rect r) (layer_refs r) (record_change (change_history r) b) (negb b && is_stable s r)).
Proof.
  intros Hat Hl. pose proof Hat as (Hh & Hlen & Hrefs). unfold squash_step.
  destruct (GenerateHistory_unchanged s prev layers Hat Hl) as (changed & -> & Hclen & Hchanged). rewrite bind_Done_eq.
  set (stable := StableRegionsWithMarginalHistory s changed).
  assert (length stable = length (regions_ s)) as Hslen by (unfold stable, StableRegionsWithMarginalHistory; rewrite length_zip_with; lia).
  unfold RecordHistory. rewrite Hh, length_fmap, Hl, Nat.eqb_refl, Hclen, Nat.eqb_refl. cbn [negb].
  unfold RecordAndCompareSquashed. cbn [regions_ generation_number_ valid_history_ last_handles_].
  rewrite length_zip_with, Hclen, Nat.min_id, Hslen, Nat.eqb_refl. cbn [negb].
  do 3 eexists. split; [done|]. cbn [regions_ valid_history_ last_handles_].
  assert (forall k r, regions_ s !! k = Some r -> exists b, changed !! k = Some b /\ (b = false <-> unchanged (layer_refs r) prev layers) /\
    stable !! k = Some (negb b && is_stable s r)) as Hk.
  { intros k r Hr. destruct (Hchanged k r Hr) as (b & Hb & Hiff). exists b. split_and!; [done..|].
    unfold stable, StableRegionsWithMarginalHistory. by rewrite lookup_zip_with, Hr, Hb. }
  split_and!; [|done|rewrite !length_zip_with; lia|done|].
  - split_and!; [done|by cbn; lia|]. cbn. intros r' (k & Hr')%list_elem_of_lookup.
    rewrite !lookup_zip_with in Hr'. destruct (regions_ s !! k) as [r|] eqn:Hr; [|done].
    destruct (Hk k r Hr) as (b & Hb & _ & Hst). cbn in Hr'. rewrite Hb, Hst in Hr'. cbn in Hr'. injection Hr' as <-. cbn.
    rewrite Hl. apply Hrefs. by eapply list_elem_of_lookup_2.
  - intros k r Hr. destruct (Hk k r Hr) as (b & Hb & Hiff & Hst). exists b. split_and!; [done..|].
    rewrite !lookup_zip_with, Hr. cbn. by rewrite Hb, Hst.
Qed.

(** A sequence of frames, and the regions that are stable in each. *)
Fixpoint squash_run (s : SquashState) (frames : list (list DrmHwcLayer)) : outcome (SquashState * list (list bool)) :=
  match frames with
  | [] => Done (s, [])
  | layers :: frames =>
      '(s, stable, _) ← squash_step s layers;
      '(s, rest) ← squash_run s frames;
      Done (s, stable :: rest)
  end.

(** From the frame of index m to the next, no layer of the set changed. *)
Definition unchanged_at (refs : Z) (frames : list (list DrmHwcLayer)) (m : nat) : Prop :=
  exists prev cur, frames !! m = Some prev /\ frames !! S m = Some cur /\ unchanged refs prev cur.

Definition history_of (refs h : Z) (past : list (list DrmHwcLayer)) : Prop :=
  0 <= h /\ forall j : nat, Z.testbit h (Z.of_nat j) = false <->
    ((j < 6)%nat -> (j + 2 <= length past)%nat -> unchanged_at refs past (length past - 2 - j)).

Definition squash_inv (s : SquashState) (past : list (list DrmHwcLayer)) : Prop :=
  exists prev, last past = Some prev /\ squash_at s prev /\ valid_history_ s + 1 = Z.of_nat (length past) /\
    forall r, r ∈ regions_ s -> history_of (layer_refs r) (change_history r) past.

Lemma unchanged_at_app refs past more m : (S m < length past)%nat -> unchanged_at refs (past ++ more) m <-> unchanged_at refs past m.
Proof. intros Hm. unfold unchanged_at. by rewrite !lookup_app_l by lia. Qed.

Lemma unchanged_at_last refs past prev cur : last past = Some prev ->
  unchanged_at refs (past ++ [cur]) (length past - 1) <-> unchanged refs prev cur.
Proof.
  intros Hl. destruct past as [|p past _] using rev_ind; [done|]. rewrite list.last_snoc in Hl. injection Hl as ->.
  rewrite length_app. cbn. replace (length past + 1 - 1)%nat with (length past) by lia. unfold unchanged_at.
  rewrite (lookup_app_l _ [cur]) by (rewrite length_app; cbn; lia). rewrite lookup_app_r, Nat.sub_diag by lia.
  rewrite lookup_app_r by (rewrite length_app; cbn; lia). rewrite length_app. cbn.
  replace (S (length past) - (length past + 1))%nat with 0%nat by lia. cbn. split.
  - by intros (? & ? & [= <-] & [= <-] & ?).
  - intros ?. by exists prev, cur.
Qed.

Lemma history_step refs h past prev cur b : history_of refs h past -> last past = Some prev ->
  (b = false <-> unchanged refs prev cur) -> history_of refs (record_change h b) (past ++ [cur]).
Proof.
  intros [H0 Hbits] Hl Hb. destruct (record_change_bits h b H0) as [H0' Hbits']. split; [done|].
  assert (1 <= length past)%nat as Hpast by (destruct past; [done|cbn; lia]).
  intros [|j]; rewrite Hbits', length_app; cbn -[Nat.ltb].
  - rewrite Hb, <- (unchanged_at_last refs past prev cur Hl). replace (length past + 1 - 2 - 0)%nat with (length past - 1)%nat by lia.
    split; [done|]. intros H. apply H; lia.
  - rewrite andb_false_iff, Hbits, Nat.ltb_ge. replace (length past + 1 - 2 - S j)%nat with (length past - 2 - j)%nat by lia. split.
    + intros [?|H] ? ?; [lia|]. apply unchanged_at_app; [lia|]. apply H; lia.
    + intros H. destruct (decide (6 <= S j)%nat); [by left|right]. intros ? ?. apply (unchanged_at_app _ _ [cur]); [lia|]. apply H; lia.
Qed.

Lemma is_stable_spec s r past : valid_history_ s + 1 = Z.of_nat (length past) -> history_of (layer_refs r) (change_history r) past ->
  is_stable s r = true <-> (7 <= length past)%nat /\
    forall m, (length past - 7 <= m)%nat -> (m + 2 <= length past)%nat -> unchanged_at (layer_refs r) past m.
Proof.
  intros Hv [H0 Hbits]. unfold is_stable, kHistoryLength. rewrite andb_true_iff, Z.leb_le, Z.eqb_eq, <- zero_bits by done. split.
  - intros [Hle H]. split; [lia|]. intros m Hm1 Hm2. replace m with (length past - 2 - (length past - 2 - m))%nat by lia.
    apply Hbits; [apply H|lia..].
  - intros [Hle H]. split; [lia|]. intros j. apply Hbits. intros Hj1 Hj2. apply H; lia.
Qed.

Definition stable_since (refs : Z) (frames : list (list DrmHwcLayer)) (n : nat) : Prop :=
  (6 <= n)%nat /\ forall m, (n - 6 <= m <= n)%nat -> unchanged_at refs frames m.

Lemma stable_since_app refs past more n : (S n < length past)%nat -> stable_since refs (past ++ more) n <-> stable_since refs past n.
Proof.
  intros Hn. unfold stable_since. f_equiv. split; intros H m Hm; [eapply unchanged_at_app|apply unchanged_at_app]; try (by apply H); lia.
Qed.

Lemma squash_step_inv s past cur : squash_inv s past -> Z.of_nat (length past) < 2 ^ 32 ->
  (forall prev, last past = Some prev -> length cur = length prev) ->
  exists s' stable render, squash_step s cur = Done (s', stable, render) /\ squash_inv s' (past ++ [cur]) /\
    forall k r, regions_ s !! k = Some r ->
      (exists r', regions_ s' !! k = Some r' /\ layer_refs r' = layer_refs r) /\
      exists b, stable !! k = Some b /\ (b = true <-> stable_since (layer_refs r) (past ++ [cur]) (length past - 1)).
Proof.
  intros (prev & Hl & Hat & Hv & Hhist) Hsmall Hcur. assert (1 <= length past)%nat as Hpast by (destruct past; [done|cbn; lia]).
  destruct (squash_step_spec s prev cur Hat (Hcur prev Hl)) as (s' & stable & render & E & Hat' & Hv' & Hlen & Hslen & Hk).
  exists s', stable, render. split; [done|]. split.
  - exists cur. split_and!; [by rewrite list.last_snoc|done| |].
    + rewrite Hv', wrap_small, length_app by lia. cbn. lia.
    + intros r' (k & Hr')%list_elem_of_lookup. destruct (lookup_lt_is_Some_2 (regions_ s) k) as [r Hr].
      { rewrite <- Hlen. by eapply lookup_lt_Some. }
      destruct (Hk k r Hr) as (b & Hb & _ & Er'). rewrite Er' in Hr'. injection Hr' as <-. cbn.
      eapply history_step; [|done..]. apply Hhist. by eapply list_elem_of_lookup_2.
  - intros k r Hr. destruct (Hk k r Hr) as (b & Hb & Hst & Er'). split; [by eexists|]. eexists. split; [done|].
    rewrite andb_true_iff, negb_true_iff, Hb, (is_stable_spec s r past Hv) by (apply Hhist; by eapply list_elem_of_lookup_2).
    rewrite <- (unchanged_at_last _ past prev cur Hl). unfold stable_since. split.
    + intros (Hu & Hlen7 & H). split; [lia|]. intros m Hm. destruct (decide (m = length past - 1)%nat) as [-> |]; [done|].
      apply unchanged_at_app; [lia|]. apply H; lia.
    + intros [Hn H]. split; [apply H; lia|]. split; [lia|]. intros m Hm1 Hm2.
      apply (unchanged_at_app _ _ [cur]); [lia|]. apply H. lia.
Qed.

Lemma squash_run_stable frames : forall s past, squash_inv s past -> Z.of_nat (length past + length frames) < 2 ^ 32 ->
  (forall f prev, f ∈ frames -> last past = Some prev -> length f = length prev) ->
  exists s' flags, squash_run s frames = Done (s', flags) /\ length flags = length frames /\
    forall n k r row, flags !! n = Some row -> regions_ s !! k = Some r ->
      exists b, row !! k = Some b /\ (b = true <-> stable_since (layer_refs r) (past ++ frames) (length past - 1 + n)).
Proof.
  induction frames as [|cur frames IH]; intros s past Hinv Hsmall Hf; cbn [squash_run].
  - exists s, []. split_and!; [done..|]. by intros n k r row.
  - cbn in Hsmall. destruct (squash_step_inv s past cur Hinv) as (s1 & stable & render & -> & Hinv1 & Hk); [lia|intros; apply Hf; [by left|done]|].
    rewrite bind_Done_eq. destruct Hinv as (prev & Hl & _). assert (1 <= length past)%nat as Hpast by (destruct past; [done|cbn; lia]).
    destruct (IH s1 (past ++ [cur])) as (s' & flags & -> & Hlen & Hflags); [done|rewrite length_app; cbn; lia| |].
    { intros f prev' Hin. rewrite list.last_snoc. intros [= <-]. transitivity (length prev); [apply Hf; [by right|done]|].
      symmetry. apply Hf; [by left|done]. }
    rewrite bind_Done_eq. exists s', (stable :: flags). split_and!; [done|by cbn; rewrite Hlen|].
    intros [|n] k r row Hrow Hr; cbn in Hrow; destruct (Hk k r Hr) as ((r' & Hr' & Hrefs) & b & Hb & Hiff).
    + injection Hrow as <-. exists b. split; [done|]. rewrite Hiff, Nat.add_0_r, (cons_middle cur past frames), app_assoc.
      symmetry. apply stable_since_app. rewrite length_app. cbn. lia.
    + destruct (Hflags n k r' row Hrow Hr') as (b' & Hb' & Hiff'). exists b'. split; [done|]. rewrite Hiff', Hrefs, length_app, <- app_assoc.
      cbn. by replace (length past + 1 - 1 + n)%nat with (length past - 1 + S n)%nat by lia.
Qed.

Lemma squash_Init_inv s layers s0 : (length layers <= 64)%nat -> squash_Init s layers = Done s0 -> squash_inv s0 [layers].
Proof.
  intros Hlen E. unfold squash_Init, separate_rects_64 in E.
  destruct (separate_rects_tiled (display_frame <$> layers) []) as (res & X & Er & Ht); [by rewrite length_fmap|].
  rewrite Er, bind_Done_eq in E. injection E as <-. cbn. exists layers. split_and!; [done| |done|]; cbn.
  - split_and!; [done..|]. intros r (p & -> & Hp)%list_elem_of_fmap. cbn. specialize (Ht (X + 1) ltac:(lia)).
    destruct (tiled_shape _ _ _ Ht p Hp) as [[Hw Hh] _].
    destruct (tiled_ids _ _ _ Ht p (left (rect p)) (top (rect p)) Hp) as [H0 Hb]; [unfold within; lia|].
    split; [done|]. intros i (r' & Hr' & _)%Hb. apply lookup_lt_Some in Hr'. by rewrite length_fmap in Hr'.
  - intros r (p & -> & Hp)%list_elem_of_fmap. cbn. split; [done|]. intros j. rewrite Z.testbit_0_l. split; [|done]. intros _ ? Hj. cbn in Hj. lia.
Qed.

(** C13. A region of the screen is stable in a frame exactly when in this frame
    and in the six before it no layer of the region was protected or had another
    buffer than in the frame before; for up to 64 layers. *)
Theorem squash_stable_regions s first frames s0 :
  squash_Init s first = Done s0 -> (length first <= 64)%nat -> Z.of_nat (length frames) < 2 ^ 32 - 1 ->
  (forall f, f ∈ frames -> length f = length first) ->
  exists s' flags, squash_run s0 frames = Done (s', flags) /\ length flags = length frames /\
    forall n k region row, flags !! n = Some row -> regions_ s0 !! k = Some region ->
      exists b, row !! k = Some b /\ (b = true <-> stable_since (layer_refs region) (first :: frames) n).
Proof.
  intros E Hlen Hsmall Hf. apply squash_Init_inv in E; [|done].
  destruct (squash_run_stable frames s0 [first] E) as (s' & flags & Er & Hl & Hflags).
  - cbn. lia.
  - intros f prev Hin [= <-]. by apply Hf.
  - exists s', flags. split_and!; [done..|]. intros n k r row Hrow Hr. by apply (Hflags n k r row).
Qed.

(** ** Areas: a rectangle that smaller ones fill *)

Definition zarea (r : Rect) : Z := (right r - left r) * (bottom r - top r).

Definition points (r : Rect) : list (Z * Z) :=
  x ← seqZ (left r) (right r - left r); (fun y => (x, y)) <$> seqZ (top r) (bottom r - top r).

Lemma elem_of_points r x y : (x, y) ∈ points r <-> within r x y.
Proof.
  unfold points, within. rewrite list_elem_of_bind. split.
  - intros (x' & (y' & [= -> ->] & Hy%elem_of_seqZ)%list_elem_of_fmap & Hx%elem_of_seqZ). lia.
  - intros [? ?]. exists x. split; [|apply elem_of_seqZ; lia].
    apply (list_elem_of_fmap_2' _ _ y); [|done]. apply elem_of_seqZ. lia.
Qed.

Lemma length_points r : valid r -> Z.of_nat (length (points r)) = zarea r.
Proof.
  intros [? ?]. unfold points, zarea. assert (forall l : list Z,
    Z.of_nat (length (x ← l; (fun y => (x, y)) <$> seqZ (top r) (bottom r - top r))) = Z.of_nat (length l) * (bottom r - top r)) as ->.
  { induction l as [|x l IH]; [done|]. rewrite bind_cons, length_app, Nat2Z.inj_add, IH, length_fmap, length_seqZ. cbn [length]. lia. }
  rewrite length_seqZ. lia.
Qed.

Lemma points_NoDup r : NoDup (points r).
Proof.
  unfold points. apply NoDup_bind; [|intros x _; apply NoDup_fmap_2; [by intros ? ? [= ->]|apply NoDup_seqZ]|apply NoDup_seqZ].
  intros x1 x2 [x y] _ _ (? & [= -> ->] & _)%list_elem_of_fmap (? & [= -> ->] & _)%list_elem_of_fmap. done.
Qed.

Definition total (l : list Z) : Z := foldr Z.add 0 l.

Lemma areas_cover frame (l : list RectSet) : valid frame -> NoDup l ->
  (forall p, p ∈ l -> valid (rect p) /\ forall x y, within (rect p) x y -> within frame x y) ->
  (forall p q x y, p ∈ l -> q ∈ l -> within (rect p) x y -> within (rect q) x y -> p = q) ->
  zarea frame <= total (zarea ∘ rect <$> l) ->
  forall x y, within frame x y -> exists p, p ∈ l /\ within (rect p) x y.
Proof.
  intros Hframe Hnd Hin Honce Harea x y Hw. set (pts := l ≫= points ∘ rect).
  assert (forall x y, (x, y) ∈ pts <-> exists p, p ∈ l /\ within (rect p) x y) as Hpts.
  { intros x' y'. unfold pts. rewrite list_elem_of_bind. cbn. setoid_rewrite elem_of_points. naive_solver. }
  assert (NoDup pts /\ Z.of_nat (length pts) = total (zarea ∘ rect <$> l)) as [Hpnd Hlen].
  { unfold pts. clear Hpts Harea. induction l as [|p l IH]; [split; [constructor|done]|]. cbn.
    apply NoDup_cons in Hnd as [Hp Hnd]. destruct IH as [IH1 IH2]; [done|by intros q Hq; apply Hin; right|by intros ? ? ? ? ? ?; apply Honce; right|]. split.
    - apply NoDup_app. split_and!; [apply points_NoDup| |done]. intros [x' y'] Hxy%elem_of_points Hq.
      apply list_elem_of_bind in Hq as (q & Hxy2 & Hq). apply elem_of_points in Hxy2.
      assert (p = q) as <- by (eapply Honce; [by left|by right|done..]). done.
    - rewrite length_app, Nat2Z.inj_add, IH2, length_points; [done|]. apply Hin. by left. }
  assert (pts ⊆+ points frame) as Hsub.
  { apply NoDup_submseteq; [done|]. intros [x' y'] (p & Hp & Hw')%Hpts. apply elem_of_points. by eapply Hin. }
  assert (pts ≡ₚ points frame) as Hperm.
  { apply submseteq_length_Permutation; [done|]. rewrite <- length_points in Harea by done. lia. }
  apply Hpts. rewrite Hperm. by apply elem_of_points.
Qed.

(** ** What was squashed *)

Definition pieces (s : SquashState) : list RectSet := (fun g => MkRectSet (layer_refs g) (region_rect g)) <$> regions_ s.

Lemma int_checked_Done z z' : int_checked z = Done z' -> z' = z.
Proof. unfold int_checked. case_match; [|done]. by intros [= <-]. Qed.

Lemma area_Done r a : area r = Done a -> a = zarea r.
Proof.
  unfold area, width, height. intros (w & Hw%int_checked_Done & E)%bind_Done.
  apply bind_Done in E as (h & Hh%int_checked_Done & E%int_checked_Done). subst. done.
Qed.

Lemma squash_layers_loop_areas n region fa : forall areas sources areas' sources',
  squash_layers_loop n region fa areas sources = Done (areas', sources') ->
  forall i : nat, areas' !! i =
    (fun a => if bool_decide (i < n)%nat && Z.testbit (layer_refs region) (Z.of_nat i) then a + fa else a) <$> areas !! i.
Proof.
  induction n as [|n IH]; intros areas sources areas' sources' E i; cbn [squash_layers_loop] in E.
  - injection E as <- <-. cbn. by destruct (areas !! i).
  - destruct (64 <=? n)%nat; [done|]. destruct (Z.testbit (layer_refs region) (Z.of_nat n)) eqn:Hb.
    + apply bind_Done in E as (old & Hold%access_Done & E). apply bind_Done in E as (a & ->%int_checked_Done & E).
      rewrite (IH _ _ _ _ E). destruct (decide (i = n)) as [-> | Hne].
      * rewrite list_lookup_insert_eq, Hold by (by eapply lookup_lt_Some). cbn.
        rewrite bool_decide_eq_false_2, bool_decide_eq_true_2, Hb by lia. done.
      * rewrite list_lookup_insert_ne by done. destruct (areas !! i); [|done]. cbn. do 2 f_equal.
        assert (bool_decide (i < n)%nat = bool_decide (i < S n)%nat) as -> by (apply bool_decide_ext; lia). done.
    + rewrite (IH _ _ _ _ E). destruct (areas !! i); [|done]. cbn. destruct (decide (i = n)) as [-> | Hne].
      * by rewrite Hb, !andb_false_r.
      * assert (bool_decide (i < n)%nat = bool_decide (i < S n)%nat) as -> by (apply bool_decide_ext; lia). done.
Qed.

(** The stable regions that have the layer. *)
Definition squashed_for (i : nat) (l : list (Region * bool)) : list RectSet :=
  omap (fun '(g, st) => if st && Z.testbit (layer_refs g) (Z.of_nat i) then Some (MkRectSet (layer_refs g) (region_rect g)) else None) l.

Lemma squash_regions_loop_areas n render l : forall p p', squash_regions_loop n render l p = Done p' ->
  (forall i a, (i < n)%nat -> layer_squash_area p !! i = Some a ->
     layer_squash_area p' !! i = Some (a + total (zarea ∘ rect <$> squashed_for i l))) /\
  (forall e, e ∈ exclude_rects p \/ (exists g, (g, true) ∈ l /\ e = region_rect g) -> e ∈ exclude_rects p').
Proof.
  induction l as [|[g st] l IH]; intros p p' E; cbn [squash_regions_loop] in E.
  - injection E as <-. split; [intros i a _ Ha; cbn; by rewrite Z.add_0_r|]. intros e [?|(g & ?%elem_of_nil & _)]; done.
  - destruct st; cbn [negb] in E.
    + apply bind_Done in E as (fa & ->%area_Done & E). apply bind_Done in E as ([areas sources] & Ea & E).
      destruct (IH _ _ E) as [H1 H2]. split.
      * intros i a Hi Ha. pose proof (squash_layers_loop_areas _ _ _ _ _ _ _ Ea i) as Hai.
        rewrite Ha in Hai. cbn in Hai. rewrite bool_decide_eq_true_2 in Hai by done. cbn [andb] in Hai.
        rewrite (H1 i _ Hi Hai). cbn. destruct (Z.testbit (layer_refs g) (Z.of_nat i)); cbn; by rewrite ?Z.add_assoc.
      * intros e He. apply H2. cbn. rewrite elem_of_app. destruct He as [He|(g' & [[= ->]|Hg]%elem_of_cons & ->)].
        -- left. by left.
        -- left. right. by left.
        -- right. by exists g'.
    + destruct (IH _ _ E) as [H1 H2]. split; [exact H1|]. intros e He. apply H2.
      destruct He as [He|(g' & [?|Hg]%elem_of_cons & ->)]; [by left|done|right; by exists g'].
Qed.

Lemma to_composite_loop_spec layers : forall i0 areas tc, to_composite_loop i0 layers areas = Done tc ->
  (forall i layer, layers !! i = Some layer -> exists a, areas !! i = Some a /\
     ((i0 + i)%nat ∈ tc.*1 <-> a < zarea (display_frame layer))) /\
  StronglySorted lt tc.*1 /\ (forall j l, (j, l) ∈ tc -> (i0 <= j)%nat /\ layers !! (j - i0)%nat = Some l).
Proof.
  induction layers as [|layer layers IH]; intros i0 areas tc E; cbn [to_composite_loop] in E.
  - injection E as <-. split_and!; [done|constructor|by intros ? ? ?%elem_of_nil].
  - apply bind_Done in E as (a & Ha%access_Done & E). apply bind_Done in E as (fa & ->%area_Done & E).
    apply bind_Done in E as (rest & Er & E). destruct areas as [|a' areas]; [done|]. cbn in Ha. injection Ha as ->. cbn in Er.
    destruct (IH _ _ _ Er) as (H1 & H2 & H3). injection E as <-.
    assert (i0 ∉ rest.*1) as Hnot by (intros ([j l] & -> & [? _]%H3)%list_elem_of_fmap; cbn in *; lia).
    split_and!.
    + intros [|i] l Hl; cbn in Hl.
      * injection Hl as ->. exists a. split; [done|]. rewrite Nat.add_0_r. destruct (Z.ltb_spec a (zarea (display_frame l))); cbn.
        -- rewrite elem_of_cons. naive_solver.
        -- split; [done|lia].
      * destruct (H1 i l Hl) as (a2 & Ha2 & Hiff). exists a2. split; [done|]. rewrite <- Hiff, Nat.add_succ_comm.
        case_match; [|done]. cbn. rewrite elem_of_cons. split; [intros [?|?]; [lia|done]|by right].
    + case_match; [|done]. cbn. constructor; [done|]. apply Forall_forall.
      intros j ([j' l] & -> & [? _]%H3)%list_elem_of_fmap. cbn. lia.
    + intros j l Hj. assert ((j = i0 /\ l = layer) \/ (j, l) ∈ rest) as [[-> ->]|Hj'].
      { case_match; [|by right]. apply elem_of_cons in Hj as [[= -> ->]|?]; auto. }
      * rewrite Nat.sub_diag. split; [lia|done].
      * destruct (H3 j l Hj') as [Hle Hl]. split; [lia|]. by replace (j - i0)%nat with (S (j - S i0)) by lia.
Qed.

Lemma squash_step_pieces s layers s' stable render : squash_step s layers = Done (s', stable, render) ->
  pieces s' = pieces s /\ length stable = length (regions_ s).
Proof.
  unfold squash_step. intros (changed & Ec & E)%bind_Done.
  assert (length changed = length (regions_ s)) as Hc.
  { unfold GenerateHistory in Ec. destruct (negb _); [injection Ec as <-; by rewrite length_replicate|].
    apply bind_Done in Ec as (z & _ & [= <-]). by rewrite length_fmap. }
  set (st := StableRegionsWithMarginalHistory s changed) in *.
  assert (length st = length (regions_ s)) as Hst by (unfold st, StableRegionsWithMarginalHistory; rewrite length_zip_with; lia).
  assert (forall f : Region -> bool -> Region, (forall r b, layer_refs (f r b) = layer_refs r /\ region_rect (f r b) = region_rect r) ->
    forall (l : list Region) (bs : list bool), length bs = length l ->
      ((fun g => MkRectSet (layer_refs g) (region_rect g)) <$> zip_with f l bs) = ((fun g => MkRectSet (layer_refs g) (region_rect g)) <$> l)) as Hzip.
  { intros f Hf l. induction l as [|r l IH]; intros [|b bs] Hl; try done. cbn. destruct (Hf r b) as [-> ->]. f_equal. apply IH. by injection Hl. }
  assert (exists s1, RecordHistory s layers changed = s1 /\ pieces s1 = pieces s /\ length (regions_ s1) = length (regions_ s)) as (s1 & E1 & Hp1 & Hl1).
  { eexists. split; [done|]. unfold RecordHistory. do 2 (destruct (negb _); [done|]). unfold pieces. cbn.
    split; [by apply Hzip|rewrite length_zip_with; lia]. }
  rewrite E1 in E. unfold RecordAndCompareSquashed in E. rewrite Hl1, Hst, Nat.eqb_refl in E. cbn [negb] in E. injection E as <- <- <-.
  split; [|done]. rewrite <- Hp1. unfold pieces. cbn. apply Hzip; [done|lia].
Qed.

(** The regions of the state are those of the frames of the layers, as Init computes them. *)
Definition regions_of (s : SquashState) (layers : list DrmHwcLayer) : Prop :=
  separate_rects_64 (display_frame <$> layers) [] = Done (pieces s).

Lemma squash_Init_regions s layers s0 : squash_Init s layers = Done s0 -> regions_of s0 layers.
Proof.
  unfold squash_Init, regions_of. intros (out & -> & [= <-])%bind_Done. unfold pieces. cbn. f_equal.
  rewrite <- list_fmap_compose. symmetry. transitivity (id <$> out); [|by rewrite list_fmap_id]. apply list_fmap_ext. by intros ? [].
Qed.

Lemma omap_sublist {A B C} (f : A -> option B) (g : A -> C) (h : B -> C) (l : list A) :
  (forall x y, f x = Some y -> h y = g x) -> h <$> omap f l `sublist_of` g <$> l.
Proof.
  intros Hf. induction l as [|x l IH]; cbn; [done|]. destruct (f x) as [y|] eqn:E; cbn; [rewrite (Hf x y E); by constructor|by constructor].
Qed.

Lemma squashed_for_sublist i l : squashed_for i l `sublist_of` (fun g => MkRectSet (layer_refs g) (region_rect g)) <$> l.*1.
Proof.
  rewrite <- list_fmap_compose, <- (list_fmap_id (squashed_for i l)). apply omap_sublist. intros [g st] p. case_match; [|done]. by intros [= <-].
Qed.

Lemma elem_of_squashed_for i l p : p ∈ squashed_for i l ->
  exists g, (g, true) ∈ l /\ Z.testbit (layer_refs g) (Z.of_nat i) = true /\ p = MkRectSet (layer_refs g) (region_rect g).
Proof.
  intros ([g []] & Hg & Hp)%list_elem_of_omap; cbn in Hp; [|done]. destruct (Z.testbit _ _) eqn:Hb; [|done].
  injection Hp as <-. by exists g.
Qed.

Lemma plan_squash_covers s c s' use p tc : (length (layers_ c) <= 64)%nat ->
  (geometry_changed_ c = false -> regions_of s (layers_ c)) ->
  plan_squash s c = Done (s', use, p) -> to_composite_loop 0 (layers_ c) (layer_squash_area p) = Done tc ->
  forall i layer x y, layers_ c !! i = Some layer -> i ∉ tc.*1 -> within (display_frame layer) x y -> excluded (exclude_rects p) x y.
Proof.
  intros Hlen Hregions E Etc i layer x y Hi Hnot Hw.
  assert (valid (display_frame layer)) as Hvalid by (unfold valid, within in *; lia).
  destruct (to_composite_loop_spec _ _ _ _ Etc) as [Hspec _]. destruct (Hspec i layer Hi) as (a & Ha & Hiff). rewrite Nat.add_0_l in Hiff.
  assert (zarea (display_frame layer) <= a) as Hge by (apply Z.nlt_ge; tauto).
  pose proof (lookup_lt_Some _ _ _ Hi) as Hlt. unfold plan_squash in E. destruct (geometry_changed_ c).
  - apply bind_Done in E as (s1 & _ & [= <- <- <-]). cbn in Ha. apply lookup_replicate in Ha as [-> _].
    unfold zarea, valid in *. nia.
  - apply bind_Done in E as ([[s1 stable] render] & Est & E). apply bind_Done in E as (p1 & Ep & [= <- <- <-]).
    destruct (squash_step_pieces _ _ _ _ _ Est) as [Hpieces Hsl]. specialize (Hregions eq_refl). unfold regions_of, separate_rects_64 in Hregions.
    rewrite <- Hpieces in Hregions. assert (length stable = length (regions_ s1)) as Hsl1.
    { rewrite Hsl. apply (f_equal length) in Hpieces. unfold pieces in Hpieces. by rewrite !length_fmap in Hpieces. }
    destruct (separate_rects_tiled (display_frame <$> layers_ c) []) as (res & X & Er & Ht); [by rewrite length_fmap|].
    rewrite Hregions in Er. injection Er as Er. cbn in Er. rewrite <- Er in Ht. specialize (Ht (Z.max X x + 1) ltac:(lia)).
    destruct (squash_regions_loop_areas _ _ _ _ _ Ep) as [Hareas Hex].
    specialize (Hareas i 0 Hlt). cbn [layer_squash_area] in Hareas. rewrite lookup_replicate_2, Ha in Hareas by done.
    specialize (Hareas eq_refl). injection Hareas as ->.
    set (l := squashed_for i (zip (regions_ s1) stable)) in *. assert (l `sublist_of` pieces s1) as Hsub.
    { unfold l. etransitivity; [apply squashed_for_sublist|]. unfold pieces. by rewrite fst_zip by lia. }
    destruct (areas_cover (display_frame layer) l) with (x := x) (y := y) as (q & Hq & Hwq); [done|..|done|].
    + eapply sublist_NoDup; [apply Ht|exact Hsub].
    + intros q Hq. pose proof (elem_of_sublist _ _ _ Hq Hsub) as Hq'. split; [by eapply tiled_shape|]. intros x' y' Hw'.
      destruct (elem_of_squashed_for _ _ _ Hq) as (g & _ & Hb & ->). destruct (tiled_ids _ _ _ Ht _ x' y' Hq' Hw') as [_ Hbits].
      cbn in Hbits. apply Hbits in Hb as (r & Hr & Hwr). rewrite list_lookup_fmap, Hi in Hr. by injection Hr as <-.
    + intros q1 q2 x' y' Hq1 Hq2. apply (tiled_once _ _ _ Ht); by eapply elem_of_sublist.
    + lia.
    + destruct (elem_of_squashed_for _ _ _ Hq) as (g & Hg & _ & ->). exists (region_rect g). split; [|done].
      apply Hex. right. by exists g.
Qed.

(** ** A planned frame *)

Definition sort_plane (i : DrmCompositionPlane) : DrmCompositionPlane :=
  match comp_plane i with
  | Some _ => MkComposition (comp_type i) (comp_plane i) (comp_crtc i) (merge_sort le (source_layers i))
  | None => i
  end.

Lemma take_planes_fst l : forall primary overlay, fst (fst (take_planes l primary overlay)) = sort_plane <$> l.
Proof.
  induction l as [|i l IH]; intros primary overlay; [done|]. cbn [take_planes fmap list_fmap]. unfold sort_plane at 1.
  destruct (comp_plane i) as [p|] eqn:E.
  - set (po := if is_primary p then _ else _). destruct po as [pr ov]. specialize (IH pr ov).
    destruct (take_planes l pr ov) as [[l' pr'] ov']. cbn in *. by rewrite IH.
  - specialize (IH primary overlay). destruct (take_planes l primary overlay) as [[l' pr'] ov']. cbn in *. by rewrite IH.
Qed.

Lemma find_comp_own crtc l rest acc : find_comp ((sort_plane <$> (own_plane crtc <$> l)) ++ rest) acc = find_comp rest (acc ++ l.*1).
Proof.
  revert acc. induction l as [|[d p] l IH]; intros acc; cbn; [by rewrite app_nil_r|]. rewrite IH, <- app_assoc. done.
Qed.

Lemma find_comp_squash crtc (sq : option DrmPlane) acc :
  find_comp (sort_plane <$> ((fun p => MkComposition kSquash (Some p) crtc []) <$> option_list sq)) acc = (None, acc).
Proof. by destruct sq. Qed.

Definition planned_planes (crtc : DrmCrtc) (a : layout) (sq : option DrmPlane) : list DrmCompositionPlane :=
  sort_plane <$> (compose crtc a ++ ((fun p => MkComposition kSquash (Some p) crtc []) <$> option_list sq)).

Lemma find_comp_planned crtc a sq : find_comp (planned_planes crtc a sq) [] =
  ((fun q => sort_plane (precomp_plane crtc q)) <$> precomp a, (own a).*1).
Proof.
  unfold planned_planes, compose. rewrite !fmap_app, <- app_assoc, find_comp_own. cbn [app].
  destruct (precomp a) as [q|]; cbn; [done|]. apply find_comp_squash.
Qed.

Lemma sort_sources crtc q i : i ∈ source_layers (sort_plane (precomp_plane crtc q)) <-> i ∈ fst q.
Proof. cbn. by rewrite merge_sort_Permutation. Qed.

Section Planned.
Context `{SyncLib}.

Lemma assign_loop_same l : forall c ret c', assign_loop l c = Done (ret, c') -> same_frame c c'.
Proof.
  induction l as [|i l IH]; intros c ret c' E; cbn [assign_loop] in E; [by injection E as <- <-|].
  apply bind_Done in E as (layer & _ & E). destruct (negb _); [by eapply IH|].
  apply bind_Done in E as ([fd c1] & E1 & E). unfold CreateNextTimelineFence in E1. apply bind_Done in E1 as (t & _ & [= <- <-]).
  destruct (_ <? 0); [by injection E as <- <-|]. apply IH in E. by eapply same_frame_trans; [|exact E].
Qed.

Lemma CreateAndAssignReleaseFences_same c ret c' : CreateAndAssignReleaseFences c = Done (ret, c') ->
  layers_ c' = layers_ c /\ pre_comp_regions_ c' = pre_comp_regions_ c /\ composition_planes_ c' = composition_planes_ c.
Proof.
  unfold CreateAndAssignReleaseFences. destruct (negb _); [done|]. intros E.
  apply bind_Done in E as ([r1 c1] & E1 & E). apply assign_loop_same in E1 as (? & ? & ? & ? & _).
  destruct (r1 <? 0); [injection E as _ <-; by split_and!|].
  apply bind_Done in E as ([r2 c2] & E2 & E). apply assign_loop_same in E2 as (? & ? & ? & ? & _). cbn in *.
  destruct (r2 <? 0); [injection E as _ <-; split_and!; congruence|].
  apply bind_Done in E as ([r3 c3] & E3 & E). apply assign_loop_same in E3 as (? & ? & ? & ? & _). cbn in *.
  destruct (r3 <? 0); injection E as _ <-; split_and!; congruence.
Qed.

(** How a layer shows at a pixel. *)
Definition on_own_plane (c : DrmDisplayComposition) (i : nat) : Prop :=
  exists p, p ∈ composition_planes_ c /\ comp_type p = kLayer /\ source_layers p = [i].

Definition in_region (c : DrmDisplayComposition) (i : nat) (x y : Z) : Prop :=
  exists r, r ∈ pre_comp_regions_ c /\ within (frame r) x y /\ i ∈ region_layers r /\
    forall r', r' ∈ pre_comp_regions_ c -> within (frame r') x y -> r' = r.

Definition hidden_by_protected (c : DrmDisplayComposition) (i : nat) (x y : Z) : Prop :=
  exists d layer, on_own_plane c d /\ (i < d)%nat /\ layers_ c !! d = Some layer /\ protected_usage layer = true /\
    within (display_frame layer) x y.

Definition squashed_at (s : option SquashState) (x y : Z) : Prop :=
  exists sq g, s = Some sq /\ g ∈ regions_ sq /\ squashed g = true /\ within (region_rect g) x y.

Lemma finalized_shows exclude c crtc a sq c' ret i x y :
  composition_planes_ c = planned_planes crtc a sq -> pre_comp_regions_ c = [] ->
  (length exclude + length (own a) <= 31)%nat -> (length exclude + length (own a) + length (layers_ c) <= 64)%nat ->
  (own a).*1 ++ composed a ⊆+ seq 0 (length (layers_ c)) ->
  (forall d s, d ∈ (own a).*1 -> s ∈ composed a -> (s < d)%nat -> exists l, layers_ c !! d = Some l /\ protected_usage l = true) ->
  FinalizeComposition exclude c = Done (ret, c') ->
  i ∈ (own a).*1 ++ composed a -> layer_at (layers_ c) i x y = true -> ~ excluded exclude x y ->
  on_own_plane c' i \/ in_region c' i x y \/ hidden_by_protected c' i x y.
Proof.
  intros Hplanes Hregs Hfew Hfit Hsub Hprot E Hi Hat Hex. unfold FinalizeComposition in E.
  apply bind_Done in E as (c1 & E1 & E). apply CreateAndAssignReleaseFences_same in E as (El & Er & Ep).
  assert (forall d, d ∈ (own a).*1 -> exists p, p ∈ planned_planes crtc a sq /\ comp_type p = kLayer /\ source_layers p = [d]) as Hown.
  { intros d ([d' p] & -> & Hd)%list_elem_of_fmap. exists (sort_plane (own_plane crtc (d', p))). split; [|done].
    unfold planned_planes, compose. apply list_elem_of_fmap_2, elem_of_app. left. apply elem_of_app. left. by apply list_elem_of_fmap_2. }
  assert (forall j, j ∈ (own a).*1 ++ composed a -> (j < length (layers_ c))%nat) as Hbound.
  { intros j Hj. eapply elem_of_submseteq in Hj; [|exact Hsub]. apply elem_of_seq in Hj. lia. }
  pose proof (find_comp_planned crtc a sq) as Hfind. rewrite <- Hplanes in Hfind. destruct (precomp a) as [q|] eqn:Eq; cbn in Hfind.
  - set (pre := sort_plane (precomp_plane crtc q)) in *.
    assert (composed a = fst q) as Hcomp by (unfold composed; by rewrite Eq).
    assert (length (source_layers pre) <= length (layers_ c))%nat as Hlen.
    { unfold pre. cbn. rewrite merge_sort_Permutation, <- Hcomp. apply submseteq_length in Hsub.
      rewrite length_app, length_seq in Hsub. lia. }
    destruct (separate_layers_regions exclude c pre (own a).*1 Hfind) as (regions & E1' & Hr & _).
    + by rewrite length_fmap.
    + rewrite length_fmap. lia.
    + intros j Hj. apply Hbound. rewrite elem_of_app in *. unfold pre in Hj. rewrite sort_sources, <- Hcomp in Hj. done.
    + rewrite E1 in E1'. injection E1' as ->. cbn in El, Er, Ep. rewrite Hregs in Er. cbn in Er.
      destruct (Hr x y) as [_ Hshow]. specialize (Hshow Hex). unfold hidden_by_protected, in_region, on_own_plane. rewrite El, Er, Ep, Hplanes.
      apply elem_of_app in Hi as [Hi|Hi]; [left; by apply Hown|right].
      destruct (existsb (hides (layers_ c) x y i) (own a).*1) eqn:Eh.
      * right. apply existsb_exists in Eh as (d & Hd%list_elem_of_In & [Hdat Hlt%Nat.ltb_lt]%andb_true_iff).
        destruct (Hprot d i Hd Hi Hlt) as (l & Hl & Hpl). exists d, l. split_and!; [by apply Hown|done..|].
        unfold layer_at in Hdat. rewrite Hl in Hdat. by apply within_b_spec.
      * left. assert (i ∈ shown (layers_ c) (own a).*1 (source_layers pre) x y) as Hin.
        { apply list_elem_of_filter. split; [done|]. unfold pre. by rewrite sort_sources, <- Hcomp. }
        rewrite decide_False in Hshow by (intros Hnil; rewrite Hnil in Hin; by apply elem_of_nil in Hin).
        destruct Hshow as (r & Hrin & Hw & Hrl & Huniq). exists r. split_and!; [done..| |done].
        rewrite Hrl. by apply elem_of_reverse.
  - assert (composed a = []) as Hcomp by (unfold composed; by rewrite Eq). rewrite Hcomp, app_nil_r in Hi.
    left. unfold SeparateLayers in E1. rewrite Hfind in E1. injection E1 as <-. unfold on_own_plane. rewrite Ep, Hplanes. by apply Hown.
Qed.
Lemma squash_regions_loop_rects n render l : forall p p', squash_regions_loop n render l p = Done p' ->
  (forall e, e ∈ exclude_rects p' -> e ∈ exclude_rects p \/ exists g, (g, true) ∈ l /\ e = region_rect g) /\
  (length (exclude_rects p') <= length (exclude_rects p) + length l)%nat.
Proof.
  induction l as [|[g st] l IH]; intros p p' E; cbn [squash_regions_loop] in E.
  - injection E as <-. split; [by left|cbn; lia].
  - destruct st; cbn [negb] in E.
    + apply bind_Done in E as (fa & _ & E). apply bind_Done in E as ([areas sources] & _ & E).
      destruct (IH _ _ E) as [H1 H2]. cbn in H1, H2. rewrite length_app in H2. cbn in *. split; [|lia].
      intros e He. apply H1 in He as [[He| ->%list_elem_of_singleton]%elem_of_app|(g' & Hg & ->)].
      * by left.
      * right. exists g. split; [by left|done].
      * right. exists g'. split; [by right|done].
    + destruct (IH _ _ E) as [H1 H2]. cbn. split; [|lia]. intros e He. apply H1 in He as [He|(g' & Hg & ->)]; [by left|right].
      exists g'. split; [by right|done].
Qed.

Lemma squash_step_flags s layers s' stable render : squash_step s layers = Done (s', stable, render) ->
  length (regions_ s') = length (regions_ s) /\ forall k g, regions_ s' !! k = Some g -> stable !! k = Some (squashed g).
Proof.
  intros E. destruct (squash_step_pieces _ _ _ _ _ E) as [Hp Hl]. assert (length (regions_ s') = length (regions_ s)) as Hlen.
  { apply (f_equal length) in Hp. unfold pieces in Hp. by rewrite !length_fmap in Hp. }
  split; [done|]. unfold squash_step in E. apply bind_Done in E as (changed & _ & E).
  set (s1 := RecordHistory s layers changed) in *. set (st := StableRegionsWithMarginalHistory s changed) in *.
  unfold RecordAndCompareSquashed in E. destruct (Nat.eqb_spec (length st) (length (regions_ s1))) as [Heq|Hne]; cbn [negb] in E; injection E as <- <- <-.
  - cbn. intros k g Hg. rewrite lookup_zip_with in Hg. destruct (regions_ s1 !! k); [|done]. cbn in Hg.
    destruct (st !! k) as [b|]; [|done]. cbn in Hg. by injection Hg as <-.
  - destruct Hne. lia.
Qed.

Lemma elem_of_imap_pair {A} (l : list A) i x : (i, x) ∈ imap pair l <-> l !! i = Some x.
Proof.
  rewrite list_elem_of_lookup. setoid_rewrite list_lookup_imap_Some. split.
  - intros (j & y & Hy & [= -> ->]). done.
  - intros Hx. by exists i, x.
Qed.

Lemma imap_pair_keys {A} (l : list A) : (imap pair l).*1 = seq 0 (length l).
Proof.
  apply list_eq. intros i. rewrite list_lookup_fmap, list_lookup_imap.
  destruct (l !! i) as [x|] eqn:E; cbn.
  - symmetry. apply lookup_seq. apply lookup_lt_Some in E. split; [done|lia].
  - symmetry. apply lookup_ge_None in E. apply lookup_ge_None. by rewrite length_seq.
Qed.

Lemma seq_sorted n : forall k, StronglySorted lt (seq k n).
Proof.
  induction n as [|n IH]; intros k; cbn; constructor; [done|]. apply Forall_forall. intros x Hx%elem_of_seq. lia.
Qed.

(** What the planner is given. *)
Definition given (c : DrmDisplayComposition) (squash : option SquashState) (exclude : list Rect) (tc : list (nat * DrmHwcLayer)) : Prop :=
  StronglySorted lt tc.*1 /\ (forall j l, (j, l) ∈ tc -> layers_ c !! j = Some l) /\
  (forall i layer x y, layers_ c !! i = Some layer -> within (display_frame layer) x y -> ~ excluded exclude x y -> (i, layer) ∈ tc) /\
  (forall x y, excluded exclude x y -> squashed_at squash x y) /\
  (length exclude <= from_option (fun s => length (regions_ s)) 0 squash)%nat.

Lemma given_all c sq : given c sq [] (imap pair (layers_ c)).
Proof.
  split_and!; cbn; [rewrite imap_pair_keys; apply seq_sorted|by intros j l ?%elem_of_imap_pair| | |lia].
  - intros i layer x y Hi _ _. by apply elem_of_imap_pair.
  - by intros x y (e & ?%elem_of_nil & _).
Qed.

Lemma given_squash s c s' use p tc : (length (layers_ c) <= 64)%nat ->
  (geometry_changed_ c = false -> regions_of s (layers_ c)) ->
  plan_squash s c = Done (s', use, p) -> to_composite_loop 0 (layers_ c) (layer_squash_area p) = Done tc ->
  given c (Some s') (exclude_rects p) tc.
Proof.
  intros Hlen Hreg E Etc. pose proof (plan_squash_covers _ _ _ _ _ _ Hlen Hreg E Etc) as Hcov.
  destruct (to_composite_loop_spec _ _ _ _ Etc) as (_ & Hsorted & Hin).
  assert (forall j l, (j, l) ∈ tc -> layers_ c !! j = Some l) as Hin' by (intros j l [_ Hl]%Hin; by rewrite Nat.sub_0_r in Hl).
  split_and!; [done..| | |].
  - intros i layer x y Hi Hw Hex. destruct (decide (i ∈ tc.*1)) as [([i' l] & -> & Ht)%list_elem_of_fmap|Hnot].
    + cbn in *. pose proof (Hin' _ _ Ht). by simplify_eq.
    + destruct Hex. by eapply Hcov.
  - unfold plan_squash in E. destruct (geometry_changed_ c).
    + apply bind_Done in E as (s1 & _ & [= <- <- <-]). by intros x y (e & ?%elem_of_nil & _).
    + apply bind_Done in E as ([[s1 stable] render] & Est & E). apply bind_Done in E as (p1 & Ep & [= <- <- <-]).
      destruct (squash_regions_loop_rects _ _ _ _ _ Ep) as [Hrects _]. destruct (squash_step_flags _ _ _ _ _ Est) as [_ Hflags].
      intros x y (e & He & Hw). apply Hrects in He as [?%elem_of_nil|(g & Hg & ->)]; [done|].
      apply list_elem_of_lookup in Hg as [k Hk]. apply lookup_zip_with_Some in Hk as (g' & st & [= <- <-] & Hg & Hst).
      exists s1, g. split_and!; [done|by eapply list_elem_of_lookup_2| |done]. apply Hflags in Hg. congruence.
  - unfold plan_squash in E. destruct (geometry_changed_ c).
    + apply bind_Done in E as (s1 & _ & [= <- <- <-]). cbn. lia.
    + apply bind_Done in E as ([[s1 stable] render] & Est & E). apply bind_Done in E as (p1 & Ep & [= <- <- <-]).
      destruct (squash_regions_loop_rects _ _ _ _ _ Ep) as [_ Hl]. cbn in *. rewrite length_zip_with in Hl. lia.
Qed.

(** C2. A frame that was planned shows every layer that is not protected, at
    every pixel the layer has: squashed, on a plane of its own, in the one
    region of the composition at the pixel, or hidden by a protected layer above
    it that has a plane of its own.  When the controller has at least two usable
    planes and at most one primary plane among them (with a single plane, and the
    squash on it, a frame is planned that shows no layer, [provision_only_squash]).
    For frames whose regions, planes and layers fit into the sets of 64 rectangles,
    and an int where they are shifted, whose layers have sizes that CheckLayer can
    compute, that have no regions yet, and that have the layers the squash was made
    for unless the geometry has changed. *)
Theorem plan_shows_every_layer c squash primary overlay c' squash' primary' overlay' :
  let usable := GetUsablePlanes (crtc_ c) primary overlay in
  let regions := from_option (fun s => length (regions_ s)) 0%nat squash' in
  type_ c = DRM_COMPOSITION_TYPE_FRAME -> pre_comp_regions_ c = [] -> checkable (imap pair (layers_ c)) ->
  (forall s, squash = Some s -> geometry_changed_ c = false -> regions_of s (layers_ c)) ->
  (2 <= length usable)%nat -> (count is_primary usable <= 1)%nat ->
  (regions + length usable <= 31)%nat -> (regions + length usable + length (layers_ c) <= 64)%nat ->
  Plan nv_stages squash primary overlay c = Done (0, c', squash', primary', overlay') ->
  forall i layer x y, layers_ c !! i = Some layer -> protected_usage layer = false -> within (display_frame layer) x y ->
    squashed_at squash' x y \/ on_own_plane c' i \/ in_region c' i x y \/ hidden_by_protected c' i x y.
Proof.
  intros usable regions Htype Hregs Hcheck Hgeom Husable Hprim Hfew Hfit E i layer x y Hi Hprot Hw.
  unfold Plan in E. rewrite bool_decide_eq_true_2 in E by done. cbn [negb] in E.
  apply bind_Done in E as ([[[squash1 use] p] tc] & Ein & E).
  assert (exists exclude, exclude_rects p = exclude /\ given c squash1 exclude tc) as (exclude & Hexc & Hgiven).
  { eexists. split; [done|]. destruct squash as [s|].
    - apply bind_Done in Ein as ([[s1 use1] p1] & Es & Ein). apply bind_Done in Ein as (tc1 & Etc & [= <- <- <- <-]).
      eapply given_squash; [lia| |exact Es|exact Etc]. by apply Hgeom.
    - injection Ein as <- <- <- <-. apply given_all. }
  clear Ein Hgeom. destruct Hgiven as (Hsorted & Hlayers & Hall & Hsq & Hlen).
  set (c1 := set_plan _ _ _ c) in E. apply bind_Done in E as ([[ret planes] rest] & Epl & E).
  assert (checkable tc) as Hcheck' by (intros [j l] Hj; apply Hcheck, elem_of_imap_pair, Hlayers, Hj).
  destruct (provision_planes_layout tc use (crtc_ c) primary overlay Hsorted Hcheck') as (a & sq & rest' & Ep & Hpl & Hsrc & Hord & Hholes & Hkept);
    [unfold usable in *; intros Hnil; rewrite Hnil in Husable; cbn in Husable; lia|done|].
  cbn in Epl. rewrite Ep in Epl. injection Epl as <- <- <-. cbn [Z.eqb negb] in E.
  pose proof (take_planes_fst (compose (crtc_ c) a ++ ((fun p => MkComposition kSquash (Some p) (crtc_ c) []) <$> option_list sq)) primary overlay) as Hfst.
  destruct (take_planes _ primary overlay) as [[planes pr] ov]. cbn [fst] in Hfst. subst planes.
  apply bind_Done in E as ([ret c2] & Ef & E). injection E as -> <- <- <- <-. rewrite Hexc in Ef.
  destruct (excluded_dec exclude x y) as [Hex|Hex]; [left; by apply Hsq|right].
  apply submseteq_length in Hpl as Hl. rewrite !length_app, length_fmap in Hl. fold usable in Hl. fold regions in Hlen.
  eapply (finalized_shows exclude (set_plan (squash_regions_ c1) (pre_comp_regions_ c1) (planned_planes (crtc_ c) a sq) c1) (crtc_ c) a sq);
    [|exact Hregs| | | | |exact Ef| | |exact Hex]; cbn [set_plan c1 composition_planes_ layers_].
  - done.
  - lia.
  - lia.
  - etransitivity; [exact Hsrc|]. apply NoDup_submseteq.
    + clear - Hsorted. induction tc as [|t tc IH]; [constructor|]. cbn in *. apply StronglySorted_inv in Hsorted as [Hs Ht].
      constructor; [|auto]. intros Hin. rewrite Forall_forall in Ht. specialize (Ht _ Hin). cbn in Ht. lia.
    + intros j ([j' l] & -> & Hj)%list_elem_of_fmap. apply Hlayers, lookup_lt_Some in Hj. apply elem_of_seq. cbn. lia.
  - intros d s Hd Hs Hlt. destruct (Hholes d s Hd Hs Hlt) as (l & Hl' & Hp). exists l. split; [by apply Hlayers|done].
  - eapply Hkept; [by right|by eapply Hall|done].
  - unfold layer_at. rewrite Hi. by apply within_b_spec.
Qed.
End Planned.

(** C11. SeparateLayers, where the rectangles fit: a pixel that is not excluded is
    in exactly one region when there are layers of the composition to be seen at
    it, with these layers from the top down, and in no region otherwise; a pixel
    that is excluded is in no region.  A layer is to be seen when it has the
    pixel and no dedicated layer that has it lies above it. *)
Theorem separate_layers_pixels exclude c pre ded :
  find_comp (composition_planes_ c) [] = (Some pre, ded) ->
  (length exclude + length ded <= 31)%nat ->
  (length exclude + length ded + length (source_layers pre) <= 64)%nat ->
  (forall i, i ∈ ded ++ source_layers pre -> (i < length (layers_ c))%nat) ->
  exists regions, SeparateLayers exclude c = Done (set_plan (squash_regions_ c) (pre_comp_regions_ c ++ regions) (composition_planes_ c) c) /\
    forall x y, let sources := shown (layers_ c) ded (source_layers pre) x y in
      (excluded exclude x y -> no_region_at regions x y) /\
      (~ excluded exclude x y -> if decide (sources = []) then no_region_at regions x y else region_at regions sources x y).
Proof.
  intros Hfind Hfew Hfit Hin. destruct (separate_layers_regions exclude c pre ded Hfind Hfew Hfit Hin) as (regions & E & Hat & _).
  by exists regions.
Qed.

(** C37. When the excluded rectangles are truncated for the sum to be 64, nothing
    is composed: the vector keeps the size it would have had, and separate_rects
    gives up more than 64 rectangles. *)
Theorem truncated_rects_lose_composition exclude c pre ded :
  find_comp (composition_planes_ c) [] = (Some pre, ded) -> (1 <= length (source_layers pre))%nat ->
  (length (source_layers pre) + length ded <= 64)%nat ->
  (64 < length (source_layers pre) + (length exclude + length ded))%nat ->
  (forall i, i ∈ ded ++ source_layers pre -> (i < length (layers_ c))%nat) ->
  SeparateLayers exclude c = Done (set_plan (squash_regions_ c) (pre_comp_regions_ c) (composition_planes_ c) c).
Proof.
  intros Hfind Hone Hfit Hmany Hin. unfold SeparateLayers. rewrite Hfind. set (comp := source_layers pre) in *.
  rewrite (proj2 (Nat.ltb_ge _ _)) by lia. rewrite (proj2 (Nat.ltb_lt 64 (length comp + _))) by lia.
  rewrite (proj2 (Nat.ltb_ge 64 _)), bind_Done_eq by lia. set (ne := (64 - length comp - length ded)%nat).
  destruct (display_frames_Done (layers_ c) ded) as (dedf & Ed & Hdl & _); [intros i Hi; apply Hin, elem_of_app; by left|].
  destruct (display_frames_Done (layers_ c) comp) as (compf & Ec & Hcl & _); [intros i Hi; apply Hin, elem_of_app; by right|].
  rewrite Ed, bind_Done_eq, Ec, bind_Done_eq. unfold separate_rects_64. rewrite separate_rects_many, bind_Done_eq.
  - rewrite !shl64_one, !bind_Done_eq by lia.
    replace (Z.ones (Z.of_nat (length ded)) + 1 - 1) with (Z.ones (Z.of_nat (length ded))) by lia.
    by rewrite shl64_ones, bind_Done_eq by lia.
  - rewrite !length_app, length_replicate, length_take. lia.
Qed.

(** ** Examples *)

#[local] Instance sample_sync : SyncLib := {
  sw_sync_timeline_create := 3;
  sw_sync_fence_create point := 100 + point;
  sw_sync_timeline_inc _ := 0;
  unordered := reverse
}.

Definition sample_frame : DrmDisplayComposition :=
  snd (SetLayers four_layers true (new_composition crtc0)).

(** The result of a plan: the return value, whether there is a state of squashing, the regions. *)
Definition plan_result (r : outcome (Z * DrmDisplayComposition * option SquashState * list DrmPlane * list DrmPlane))
    : option (Z * bool * list DrmCompositionRegion) :=
  match r with
  | Done (ret, c, s, _, _) => Some (ret, match s with Some _ => true | None => false end, pre_comp_regions_ c)
  | _ => None
  end.

(** Layer 1, protected and on a plane of its own, leaves a hole in layer 0. *)
Example sample_plan : plan_result (Plan nv_stages None primary0 overlays0 sample_frame) =
  Some (0, false, [MkCompRegion (MkRect 0 0 20 100) [3; 2]%nat; MkCompRegion (MkRect 20 0 100 100) [2]%nat]).
Proof. vm_compute. reflexivity. Qed.

Lemma plan_shows_every_layer_witness : exists c' s' p' o',
  Plan nv_stages None primary0 overlays0 sample_frame = Done (0, c', s', p', o') /\
  (in_region c' 2 50 50 \/ on_own_plane c' 2 \/ squashed_at s' 50 50 \/ hidden_by_protected c' 2 50 50).
Proof.
  pose proof sample_plan as Hr. unfold plan_result in Hr.
  destruct (Plan nv_stages None primary0 overlays0 sample_frame) as [[[[[ret c'] s'] p'] o']| |] eqn:E; [|discriminate Hr..].
  destruct s' as [s'|]; [discriminate Hr|]. assert (ret = 0) as -> by congruence. clear Hr.
  exists c', None, p', o'. split; [done|].
  destruct (plan_shows_every_layer sample_frame None primary0 overlays0 c' None p' o') with (i := 2%nat) (x := 50) (y := 50)
    (layer := layer_of false 0 frame0) as [?|[?|[?|?]]]; auto.
  - intros [i l] Hi. repeat (apply elem_of_cons in Hi as [[= -> ->] | Hi]; [vm_compute; by eexists|]). by apply elem_of_nil in Hi.
  - discriminate.
  - vm_compute. lia.
  - vm_compute. lia.
  - vm_compute. lia.
  - vm_compute. intuition congruence.
Defined.

Definition sample_precomp : DrmCompositionPlane :=
  MkComposition kPrecomp (Some (MkPlane 3 DRM_PLANE_TYPE_OVERLAY 3)) crtc0 [0; 2; 3]%nat.

Definition sample_planes : list DrmCompositionPlane :=
  [MkComposition kLayer (Some (MkPlane 1 DRM_PLANE_TYPE_PRIMARY 1)) crtc0 [1%nat]; sample_precomp].

Lemma separate_layers_pixels_witness : exists regions,
  SeparateLayers [MkRect 0 0 10 10] (set_plan [] [] sample_planes sample_frame) =
    Done (set_plan [] regions sample_planes sample_frame) /\
  no_region_at regions 5 5 /\ region_at regions [2%nat] 50 50.
Proof.
  set (c := set_plan [] [] sample_planes sample_frame).
  destruct (separate_layers_pixels [MkRect 0 0 10 10] c sample_precomp [1%nat])
    as (regions & E & Hr); [reflexivity|cbn; lia|cbn; lia| |].
  - intros i Hi. cbn in Hi. repeat (apply elem_of_cons in Hi as [-> | Hi]; [vm_compute; lia|]). by apply elem_of_nil in Hi.
  - exists regions. split_and!; [exact E| |].
    + apply (Hr 5 5). exists (MkRect 0 0 10 10). split; [by left|]. unfold within. cbn. lia.
    + destruct (Hr 50 50) as [_ H2].
      assert (shown (layers_ c) [1%nat] [0; 2; 3]%nat 50 50 = [2%nat]) as Es by (vm_compute; reflexivity).
      cbn -[shown layers_] in H2. rewrite Es in H2. apply H2. intros (e & ->%list_elem_of_singleton & Hw). unfold within in Hw. cbn in Hw. lia.
Defined.

Lemma truncated_rects_lose_composition_witness :
  SeparateLayers (replicate 61 frame0) (set_plan [] [] sample_planes sample_frame) =
  Done (set_plan [] [] sample_planes sample_frame).
Proof.
  apply (truncated_rects_lose_composition (replicate 61 frame0) (set_plan [] [] sample_planes sample_frame)
    sample_precomp [1%nat]); [reflexivity|cbn; lia..|].
  intros i Hi. cbn in Hi. repeat (apply elem_of_cons in Hi as [-> | Hi]; [vm_compute; lia|]). by apply elem_of_nil in Hi.
Defined.

Definition sample_squash : SquashState := MkSquash 0 0 [] [].
Definition plain_layers : list DrmHwcLayer := [layer_of false 0 frame0; layer_of false 0 (MkRect 50 50 150 150)].

Lemma squash_stable_regions_witness : exists s0 s' flags,
  squash_Init sample_squash plain_layers = Done s0 /\ squash_run s0 (replicate 8 plain_layers) = Done (s', flags) /\ length flags = 8%nat.
Proof.
  destruct (squash_Init sample_squash plain_layers) as [s0| |] eqn:E; [|vm_compute in E; discriminate E..].
  destruct (squash_stable_regions sample_squash plain_layers (replicate 8 plain_layers) s0 E) as (s' & flags & Er & Hl & _).
  - cbn. lia.
  - vm_compute. reflexivity.
  - intros f Hf. apply elem_of_replicate in Hf as [-> _]. reflexivity.
  - exists s0, s', flags. split_and!; [reflexivity|exact Er|exact Hl].
Defined.

(** They are stable in the seventh frame after the first. *)
Example sample_stable :
  match squash_Init sample_squash plain_layers with
  | Done s0 => match squash_run s0 (replicate 8 plain_layers) with Done (_, flags) => existsb id <$> flags | _ => [] end
  | _ => []
  end = [false; false; false; false; false; false; true; true].
Proof. vm_compute. reflexivity. Qed.

Definition sample_fences : DrmDisplayComposition :=
  set_plan [MkCompRegion frame0 [0; 1]%nat] [MkCompRegion frame0 [1%nat]] sample_planes sample_frame.

Lemma sample_order (l : list nat) : unordered l ≡ₚ l.
Proof. cbn. apply reverse_Permutation. Qed.

(** The composition after a step that succeeds. *)
Definition after (r : outcome (Z * DrmDisplayComposition)) : DrmDisplayComposition :=
  match r with Done (_, c) => c | _ => sample_frame end.

Lemma fences_released_in_order_witness :
  let c0 := after (CreateAndAssignReleaseFences sample_fences) in
  let c1 := after (SignalSquashDone c0) in
  ~ signalled c0 0 /\ signalled c1 0.
Proof.
  intros c0 c1. set (c2 := after (SignalPreCompDone c1)). set (c3 := after (SignalCompositionDone c2)).
  destruct (fences_released_in_order sample_order sample_fences c0 c1 c2 c3 0) as [H _]; try (vm_compute; reflexivity).
  - split_and!; [|vm_compute; discriminate|vm_compute; discriminate].
    intros i Hi. cbn in Hi. repeat (apply elem_of_cons in Hi as [-> | Hi]; [vm_compute; lia|]). by apply elem_of_nil in Hi.
  - vm_compute. discriminate.
  - exists (layer_of false 0 frame0). split; reflexivity.
  - apply H. split_and!.
    + by left.
    + intros Hi. apply list_elem_of_singleton in Hi. discriminate.
    + intros Hi. apply list_elem_of_singleton in Hi. discriminate.
Defined.
