(* ===== verification/Compositor.v ===== *)
(** * Compositor: frames on their way to the screen, drm_hwcomposer/drmdisplaycompositor.cpp

    DrmDisplayCompositor: a client queues compositions; a worker thread renders
    what has to be composed and hands the frame on; a second thread commits it
    to the display and releases the frame that was shown before.  When nothing
    comes for half a second the worker squashes the frame that is shown into
    one layer.  Compositions are in a heap, and a unique_ptr is the index of
    one; running the destructor releases its fences.  A framebuffer's release
    fence is a point of the timeline of a composition, and waiting for one that
    is not signalled yet is a [Timeout]: the step can be taken later.  The
    locks are taken to succeed, and what is done under one is one step.

    Libdrm, the import of buffers, OpenGL and the fences of the producers are a
    class over a state of their own, the world. *)

From S2P Require Import Prelude Float32.
From S2P Require Import SeparateRects Planner Composition.

Open Scope Z_scope.

(** ** What is outside *)

Variant drm_property : Type :=
| CRTC_ID | FB_ID | CRTC_X | CRTC_Y | CRTC_W | CRTC_H | SRC_X | SRC_Y | SRC_W | SRC_H | PROP_ROTATION | PROP_ALPHA
| ACTIVE | MODE_ID | DPMS.

(** [wait_error]: sync_wait on a framebuffer's fence fails with this error, or,
    when it is 0, waits.  [import_buffer] gives fb_id, width and height;
    [mode_size] is the resolution of a mode. *)
Class DrmLib : Type := {
  world : Type;
  sync_wait : Z -> Z -> world -> Z * world;
  wait_error : world -> Z * world;
  import_buffer : Z -> world -> Z * (Z * Z * Z) * world;
  gl_init : world -> Z * world;
  gl_composite : list DrmHwcLayer -> list DrmCompositionRegion -> Z -> world -> Z * world;
  drmModeAtomicAlloc : world -> bool * world;
  drmModeAtomicAddProperty : Z -> Z -> Z -> world -> Z * world;
  drmModeAtomicCommit : list (Z * Z * Z) -> Z -> world -> Z * world;
  drmModeConnectorSetProperty : Z -> Z -> Z -> world -> Z * world;
  create_blob : Z -> world -> Z * Z * world;
  destroy_blob : Z -> world -> Z * world;
  property_id : Z -> drm_property -> Z;
  crtc_object : DrmCrtc -> Z;
  mode_size : Z -> Z * Z
}.

Definition ENOMEM : Z := 12.
Definition EALREADY : Z := 114.
Definition ENOTSUP : Z := 95.
Definition DRM_MODE_ROTATE_0 : Z := 1.
Definition DRM_MODE_ROTATE_90 : Z := 2.
Definition DRM_MODE_ROTATE_180 : Z := 4.
Definition DRM_MODE_ROTATE_270 : Z := 8.
Definition DRM_MODE_REFLECT_X : Z := 16.
Definition DRM_MODE_REFLECT_Y : Z := 32.
Definition DRM_MODE_ATOMIC_TEST_ONLY : Z := 256.
Definition DRM_MODE_ATOMIC_ALLOW_MODESET : Z := 1024.

(** ** The state *)

Record DrmConnector : Type := MkConnector { connector_id : Z; active_mode : Z }.

(** A release fence: its descriptor, and what it waits for. *)
Record fb_fence : Type := MkFbFence { fence_fd : Z; fence_comp : nat; fence_point : Z }.

(** [buffer]: handle, width and height.  [fb_user] is the composition the
    framebuffer was last rendered for, which the code does not keep. *)
Record DrmFramebuffer : Type := MkFramebuffer {
  buffer : option (Z * Z * Z);
  release_fence_fd : option fb_fence;
  fb_user : option nat
}.

Record ModeState : Type := MkModeState { needs_modeset : bool; mode : Z; blob_id : Z; old_blob_id : Z }.

Definition DRM_DISPLAY_BUFFERS : nat := 3.
Definition DRM_DISPLAY_COMPOSITOR_MAX_QUEUE_DEPTH : nat := 2.
Definition kAcquireWaitTries : nat := 5.
Definition kAcquireWaitTimeoutMs : Z := 100.

Section Compositor.
Context `{SyncLib} `{DrmLib}.

(** [comps]: the heap, whose next address is [next_comp]; [next_buffer]: the
    handle of the next buffer that is allocated.  [renders]: for every time that
    a precomposition framebuffer was rendered into, whether the frame it had
    been rendered for before was still waiting or shown. *)
Record compositor : Type := MkCompositor {
  comps : gmap nat DrmDisplayComposition;
  next_comp : nat;
  composite_queue_ : list nat;
  frame_queue_ : list (option nat * Z);
  active_composition_ : option nat;
  active_ : bool;
  use_hw_overlays_ : bool;
  mode_ : ModeState;
  framebuffer_index_ : nat;
  framebuffers_ : list DrmFramebuffer;
  squash_framebuffer_index_ : nat;
  squash_framebuffers_ : list DrmFramebuffer;
  pre_compositor_ : bool;
  connector_ : option DrmConnector;
  display_crtc_ : option DrmCrtc;
  next_buffer : Z;
  renders : list bool;
  the_world : world
}.

Definition C (A : Type) : Type := compositor -> outcome (A * compositor).

#[export] Instance C_ret : MRet C := fun A a s => Done (a, s).
#[export] Instance C_bind : MBind C := fun A B f m s => '(a, s) ← m s; f a s.

Definition get : C compositor := fun s => Done (s, s).
Definition modify (f : compositor -> compositor) : C unit := fun s => Done (tt, f s).
Definition lift {A} (m : outcome A) : C A := fun s => a ← m; Done (a, s).

Definition on_comps (f : gmap nat DrmDisplayComposition -> gmap nat DrmDisplayComposition) (s : compositor) : compositor :=
  MkCompositor (f (comps s)) (next_comp s) (composite_queue_ s) (frame_queue_ s) (active_composition_ s) (active_ s)
    (use_hw_overlays_ s) (mode_ s) (framebuffer_index_ s) (framebuffers_ s) (squash_framebuffer_index_ s)
    (squash_framebuffers_ s) (pre_compositor_ s) (connector_ s) (display_crtc_ s) (next_buffer s) (renders s) (the_world s).

Definition set_queues (q : list nat) (fq : list (option nat * Z)) (active : option nat) (s : compositor) : compositor :=
  MkCompositor (comps s) (next_comp s) q fq active (active_ s)
    (use_hw_overlays_ s) (mode_ s) (framebuffer_index_ s) (framebuffers_ s) (squash_framebuffer_index_ s)
    (squash_framebuffers_ s) (pre_compositor_ s) (connector_ s) (display_crtc_ s) (next_buffer s) (renders s) (the_world s).

Definition set_active (active overlays : bool) (s : compositor) : compositor :=
  MkCompositor (comps s) (next_comp s) (composite_queue_ s) (frame_queue_ s) (active_composition_ s) active
    overlays (mode_ s) (framebuffer_index_ s) (framebuffers_ s) (squash_framebuffer_index_ s)
    (squash_framebuffers_ s) (pre_compositor_ s) (connector_ s) (display_crtc_ s) (next_buffer s) (renders s) (the_world s).

Definition set_mode (m : ModeState) (conn : option DrmConnector) (s : compositor) : compositor :=
  MkCompositor (comps s) (next_comp s) (composite_queue_ s) (frame_queue_ s) (active_composition_ s) (active_ s)
    (use_hw_overlays_ s) m (framebuffer_index_ s) (framebuffers_ s) (squash_framebuffer_index_ s)
    (squash_framebuffers_ s) (pre_compositor_ s) conn (display_crtc_ s) (next_buffer s) (renders s) (the_world s).

Definition set_framebuffers (i : nat) (l : list DrmFramebuffer) (j : nat) (sl : list DrmFramebuffer) (s : compositor) : compositor :=
  MkCompositor (comps s) (next_comp s) (composite_queue_ s) (frame_queue_ s) (active_composition_ s) (active_ s)
    (use_hw_overlays_ s) (mode_ s) i l j
    sl (pre_compositor_ s) (connector_ s) (display_crtc_ s) (next_buffer s) (renders s) (the_world s).

Definition set_rest (c : nat) (b : Z) (r : list bool) (pre : bool) (w : world) (s : compositor) : compositor :=
  MkCompositor (comps s) c (composite_queue_ s) (frame_queue_ s) (active_composition_ s) (active_ s)
    (use_hw_overlays_ s) (mode_ s) (framebuffer_index_ s) (framebuffers_ s) (squash_framebuffer_index_ s)
    (squash_framebuffers_ s) pre (connector_ s) (display_crtc_ s) b r w.

(** An answer of the world. *)
Definition ask {A} (f : world -> A * world) : C A :=
  s ← get;
  let '(a, w) := f (the_world s) in
  modify (set_rest (next_comp s) (next_buffer s) (renders s) (pre_compositor_ s) w);; mret a.

(** ** The heap *)

Definition the_comp (id : nat) : C DrmDisplayComposition := s ← get; lift (access (comps s !! id)).

Definition set_comp (id : nat) (c : DrmDisplayComposition) : C unit := modify (on_comps (insert id c)).

(** A method of a composition. *)
Definition on_comp {A} (id : nat) (f : DrmDisplayComposition -> outcome (A * DrmDisplayComposition)) : C A :=
  c ← the_comp id;
  '(a, c) ← lift (f c);
  set_comp id c;; mret a.

(** [std::unique_ptr<DrmDisplayComposition>(new DrmDisplayComposition())], for the display's controller later. *)
Definition CreateComposition (crtc : DrmCrtc) : C nat :=
  s ← get;
  let id := next_comp s in
  modify (set_rest (S id) (next_buffer s) (renders s) (pre_compositor_ s) (the_world s));;
  set_comp id (new_composition crtc);; mret id.

Definition reset (id : nat) : C unit := on_comp id (fun c => c ← destroy c; Done (tt, c)).

Definition set_layers (layers : list DrmHwcLayer) (c : DrmDisplayComposition) : DrmDisplayComposition :=
  set_kind (type_ c) (dpms_mode_ c) (display_mode_ c) (geometry_changed_ c) layers c.

Definition set_planes (planes : list DrmCompositionPlane) (c : DrmDisplayComposition) : DrmDisplayComposition :=
  set_plan (squash_regions_ c) (pre_comp_regions_ c) planes c.

(** ** Framebuffers *)

(** framebuffers_[i] or squash_framebuffers_[i] *)
Variant fb_ref : Type := PreFb (i : nat) | SquashFb (i : nat).

Definition the_fb (r : fb_ref) : C DrmFramebuffer :=
  s ← get;
  lift (access (match r with PreFb i => framebuffers_ s !! i | SquashFb i => squash_framebuffers_ s !! i end)).

Definition set_fb (r : fb_ref) (fb : DrmFramebuffer) : C unit :=
  modify (fun s => match r with
    | PreFb i => set_framebuffers (framebuffer_index_ s) (<[i := fb]> (framebuffers_ s)) (squash_framebuffer_index_ s) (squash_framebuffers_ s) s
    | SquashFb i => set_framebuffers (framebuffer_index_ s) (framebuffers_ s) (squash_framebuffer_index_ s) (<[i := fb]> (squash_framebuffers_ s)) s
    end).

Definition set_release_fence_fd (r : fb_ref) (f : option fb_fence) : C unit :=
  fb ← the_fb r; set_fb r (MkFramebuffer (buffer fb) f (fb_user fb)).

Definition is_valid (fb : DrmFramebuffer) : bool := bool_decide (is_Some (buffer fb)).

Definition fence_signalled (s : compositor) (f : fb_fence) : bool :=
  match comps s !! fence_comp f with
  | Some c => fence_point f <=? timeline_current_ c
  | None => true
  end.

(** With the timeout -1. *)
Definition WaitReleased (r : fb_ref) : C Z :=
  fb ← the_fb r;
  if negb (is_valid fb) then mret 0
  else
    match release_fence_fd fb with
    | None => mret 0
    | Some f =>
        err ← ask wait_error;
        if negb (err =? 0) then mret err
        else s ← get; if fence_signalled s f then mret 0 else lift Timeout
    end.

Definition Clear (r : fb_ref) : C unit :=
  fb ← the_fb r;
  if is_valid fb then set_fb r (MkFramebuffer None None (fb_user fb)) else mret tt.

Definition new_buffer (r : fb_ref) (w h : Z) : C bool :=
  fb ← the_fb r;
  s ← get;
  modify (set_rest (next_comp s) (next_buffer s - 1) (renders s) (pre_compositor_ s) (the_world s));;
  set_fb r (MkFramebuffer (Some (next_buffer s, w, h)) None (fb_user fb));; mret true.

Definition Allocate (r : fb_ref) (w h : Z) : C bool :=
  fb ← the_fb r;
  match buffer fb with
  | None => new_buffer r w h
  | Some (_, w0, h0) =>
      if (w0 =? w) && (h0 =? h) then mret true
      else
        match release_fence_fd fb with
        | None => Clear r;; new_buffer r w h
        | Some f =>
            err ← ask wait_error;
            s ← get;
            if negb (err =? 0) || negb (fence_signalled s f) then mret false
            else Clear r;; new_buffer r w h
        end
  end.

(** The composition is waiting for its commit, or shown. *)
Definition in_use (s : compositor) (id : nat) : bool :=
  bool_decide (active_composition_ s = Some id) || existsb (fun f => bool_decide (fst f = Some id)) (frame_queue_ s).

(** What is noted when a framebuffer gets a new user. *)
Definition note_user (r : fb_ref) (id : nat) : C unit :=
  fb ← the_fb r;
  s ← get;
  let used := match fb_user fb with Some u => in_use s u | None => false end in
  let log := match r with PreFb _ => renders s ++ [used] | SquashFb _ => renders s end in
  modify (set_rest (next_comp s) (next_buffer s) log (pre_compositor_ s) (the_world s));;
  set_fb r (MkFramebuffer (buffer fb) (release_fence_fd fb) (Some id)).

Definition GetActiveModeResolution : C (Z * Z * Z) :=
  s ← get;
  mret (match connector_ s with
        | None => (0, 0, - ENODEV)
        | Some c => (mode_size (active_mode c), 0)
        end).

(** A layer for a framebuffer. *)
Definition framebuffer_layer (handle w h : Z) (fb : option Z) : DrmHwcLayer :=
  MkLayer handle false DRM_FORMAT_OTHER 0 kPreMult float_zero float_zero (f_of_Z w) (f_of_Z h) (MkRect 0 0 w h) false 255 (-1) fb.

Definition the_buffer (r : fb_ref) : C (Z * Z * Z) := fb ← the_fb r; lift (access (buffer fb)).

Definition PrepareFramebuffer (r : fb_ref) (id : nat) : C Z :=
  ret ← WaitReleased r;
  if negb (ret =? 0) then mret ret
  else
    '(width, height, ret) ← GetActiveModeResolution;
    if negb (ret =? 0) then mret ret
    else
      set_release_fence_fd r None;;
      ok ← Allocate r width height;
      if negb (ok : bool) then mret (- ENOMEM)
      else
        note_user r id;;
        '(handle, _, _) ← the_buffer r;
        '(ret, (fb_id, _, _)) ← ask (import_buffer handle);
        c ← the_comp id;
        set_comp id (set_layers (layers_ c ++ [framebuffer_layer handle width height (if ret =? 0 then Some fb_id else None)]) c);;
        mret ret.

(** The release fence of a framebuffer: the next point of a composition's
    timeline, when the fence can be made. *)
Definition next_release_fence (r : fb_ref) (id : nat) : C Z :=
  fd ← on_comp id CreateNextTimelineFence;
  if fd <=? 0 then mret fd
  else
    c ← the_comp id;
    set_release_fence_fd r (Some (MkFbFence fd id (timeline_ c)));; mret fd.

(** ApplySquash and ApplyPreComposite differ in the framebuffer, the regions
    and the fences that are signalled. *)
Definition apply_regions (r : fb_ref) (regions : DrmDisplayComposition -> list DrmCompositionRegion)
    (signal : DrmDisplayComposition -> outcome (Z * DrmDisplayComposition)) (id : nat) : C Z :=
  ret ← PrepareFramebuffer r id;
  if negb (ret =? 0) then mret ret
  else
    c ← the_comp id;
    '(handle, _, _) ← the_buffer r;
    ret ← ask (gl_composite (layers_ c) (regions c) handle);
    if negb (ret =? 0) then mret ret
    else
      ret ← next_release_fence r id;
      if ret <=? 0 then mret ret
      else on_comp id signal;; mret 0.

Definition ApplySquash (id : nat) : C Z :=
  s ← get; apply_regions (SquashFb (squash_framebuffer_index_ s)) squash_regions_ SignalSquashDone id.

Definition ApplyPreComposite (id : nat) : C Z :=
  s ← get; apply_regions (PreFb (framebuffer_index_ s)) pre_comp_regions_ SignalPreCompDone id.

(** ** PrepareFrame *)

Definition UsesSquash (planes : list DrmCompositionPlane) : bool :=
  existsb (fun p => bool_decide (comp_type p = kSquash)) planes.

Definition next_framebuffer : C unit :=
  modify (fun s => set_framebuffers ((framebuffer_index_ s + 1) mod DRM_DISPLAY_BUFFERS) (framebuffers_ s)
                     (squash_framebuffer_index_ s) (squash_framebuffers_ s) s).

Definition next_squash_framebuffer : C unit :=
  modify (fun s => set_framebuffers (framebuffer_index_ s) (framebuffers_ s)
                     ((squash_framebuffer_index_ s + 1) mod 2) (squash_framebuffers_ s) s).

(** The squashed framebuffer of an earlier frame, for one more frame. *)
Definition reuse_squash (id : nat) : C Z :=
  s ← get;
  let r := SquashFb (squash_framebuffer_index_ s) in
  '(handle, _, _) ← the_buffer r;
  '(ret, (fb_id, w, h)) ← ask (import_buffer handle);
  c ← the_comp id;
  if negb (ret =? 0) then
    set_comp id (set_layers (layers_ c ++ [MkLayer 0 false DRM_FORMAT_OTHER 0 kNone float_zero float_zero float_zero float_zero
                                             no_rect false 255 (-1) None]) c);; mret ret
  else
    set_comp id (set_layers (layers_ c ++ [framebuffer_layer handle w h (Some fb_id)]) c);;
    ret ← next_release_fence r id;
    mret (if ret <=? 0 then ret else 0).

(** What the planes of the squash and of the composition show.  [squash] is there
    when a plane is for the squash, [pre_comp] when there are regions. *)
Fixpoint prepare_planes (squash pre_comp : option nat) (planes : list DrmCompositionPlane) : outcome (Z * list DrmCompositionPlane) :=
  match planes with
  | [] => Done (0, [])
  | p :: planes =>
      match comp_type p with
      | kSquash =>
          i ← access squash;
          '(ret, rest) ← prepare_planes squash pre_comp planes;
          Done (ret, add_source i p :: rest)
      | kPrecomp =>
          match pre_comp with
          | None => Done (- EINVAL, p :: planes)
          | Some i =>
              '(ret, rest) ← prepare_planes squash pre_comp planes;
              Done (ret, MkComposition (comp_type p) (comp_plane p) (comp_crtc p) [i] :: rest)
          end
      | _ => '(ret, rest) ← prepare_planes squash pre_comp planes; Done (ret, p :: rest)
      end
  end.

Definition last_layer (id : nat) : C nat := c ← the_comp id; mret (length (layers_ c) - 1)%nat.

Definition prepare_squash (id : nat) : C (Z * option nat) :=
  c ← the_comp id;
  match squash_regions_ c with
  | _ :: _ =>
      next_squash_framebuffer;;
      ret ← ApplySquash id;
      i ← last_layer id;
      mret (ret, Some i)
  | [] =>
      if UsesSquash (composition_planes_ c) then
        ret ← reuse_squash id;
        i ← last_layer id;
        mret (ret, Some i)
      else mret (0, None)
  end.

Definition prepare_pre_comp (id : nat) : C (Z * option nat) :=
  c ← the_comp id;
  match pre_comp_regions_ c with
  | [] => mret (0, None)
  | _ :: _ =>
      ret ← ApplyPreComposite id;
      if negb (ret =? 0) then mret (ret, None)
      else
        i ← last_layer id;
        next_framebuffer;;
        mret (0, Some i)
  end.

Definition PrepareFrame (id : nat) : C Z :=
  '(ret, squash_layer_index) ← prepare_squash id;
  if negb (ret =? 0) then mret ret
  else
    '(ret, pre_comp_layer_index) ← prepare_pre_comp id;
    if negb (ret =? 0) then mret ret
    else
      c ← the_comp id;
      '(ret, planes) ← lift (prepare_planes squash_layer_index pre_comp_layer_index (composition_planes_ c));
      set_comp id (set_planes planes c);; mret ret.

(** ** CommitFrame *)

(** drmModeAtomicAddProperty for all of a list, and whether one failed. *)
Fixpoint add_all (l : list (Z * Z * Z)) (pset : list (Z * Z * Z)) : C (bool * list (Z * Z * Z)) :=
  match l with
  | [] => mret (false, pset)
  | (object, property, value) :: l =>
      ret ← ask (drmModeAtomicAddProperty object property value);
      '(failed, pset) ← add_all l (if ret <? 0 then pset else pset ++ [(object, property, value)]);
      mret ((ret <? 0) || failed, pset)
  end.

(** The same up to the first that fails. *)
Fixpoint add_until (l : list (Z * Z * Z)) (pset : list (Z * Z * Z)) : C (bool * list (Z * Z * Z)) :=
  match l with
  | [] => mret (false, pset)
  | (object, property, value) :: l =>
      ret ← ask (drmModeAtomicAddProperty object property value);
      if ret <? 0 then mret (true, pset) else add_until l (pset ++ [(object, property, value)])
  end.

Definition plane_prop (p : DrmPlane) (prop : drm_property) (value : Z) : Z * Z * Z :=
  (plane_id p, property_id (plane_id p) prop, value).

Definition disable_plane (p : DrmPlane) : list (Z * Z * Z) := [plane_prop p CRTC_ID 0; plane_prop p FB_ID 0].

(** Waiting for the producer of a layer: five times, twice as long each time. *)
Fixpoint acquire_wait (tries : nat) (timeout : Z) (fence : Z) : C Z :=
  match tries with
  | O => mret 0
  | S tries =>
      ret ← ask (sync_wait fence timeout);
      match tries with
      | O => mret ret
      | _ => if ret =? 0 then mret 0 else acquire_wait tries (2 * timeout) fence
      end
  end.

Definition close_acquire_fence (i : nat) (c : DrmDisplayComposition) : DrmDisplayComposition :=
  set_layers (alter (fun l =>
    MkLayer (sf_handle l) (protected_usage l) (buffer_format l) (transform l) (blending l) (crop_left l) (crop_top l)
      (crop_right l) (crop_bottom l) (display_frame l) (release_fence l) (alpha l) (-1) (imported l)) i (layers_ c)) c.

Definition rotation_of (layer : DrmHwcLayer) : Z :=
  let t := transform layer in
  let has m := negb (Z.land t m =? 0) in
  let flips := Z.lor (if has kFlipH then DRM_MODE_REFLECT_X else 0) (if has kFlipV then DRM_MODE_REFLECT_Y else 0) in
  Z.lor flips (if has kRotate90 then DRM_MODE_ROTATE_90
               else if has kRotate180 then DRM_MODE_ROTATE_180
               else if has kRotate270 then DRM_MODE_ROTATE_270
               else DRM_MODE_ROTATE_0).

(** (int)x << 16 as a 64-bit value; a negative int is not shifted. *)
Definition fixed_16_16 (x : float) : outcome Z :=
  z ← access (f_to_int x);
  if (0 <=? z) && (z <? 65536) then Done (u64 (s32 (Z.shiftl z 16))) else Fault.

(** The properties of a plane that shows a layer. *)
Definition layer_props (p : DrmPlane) (crtc : DrmCrtc) (fb_id : Z) (layer : DrmHwcLayer) : outcome (list (Z * Z * Z)) :=
  let frame := display_frame layer in
  w ← width frame;
  h ← height frame;
  x ← fixed_16_16 (crop_left layer);
  y ← fixed_16_16 (crop_top layer);
  sw ← fixed_16_16 (fsub (crop_right layer) (crop_left layer));
  sh ← fixed_16_16 (fsub (crop_bottom layer) (crop_top layer));
  Done [plane_prop p CRTC_ID (crtc_object crtc); plane_prop p FB_ID fb_id;
        plane_prop p CRTC_X (u64 (left frame)); plane_prop p CRTC_Y (u64 (top frame));
        plane_prop p CRTC_W (u64 w); plane_prop p CRTC_H (u64 h);
        plane_prop p SRC_X x; plane_prop p SRC_Y y; plane_prop p SRC_W sw; plane_prop p SRC_H sh].

(** What a plane adds to the request: [None] goes on with the next one, [Some]
    leaves the loop with the return value. *)
Notation verdict := (option Z * list (Z * Z * Z))%type.

Definition commit_disable (p : DrmPlane) (pset : list (Z * Z * Z)) : C verdict :=
  '(failed, pset) ← add_until (disable_plane p) pset;
  mret (if failed : bool then Some 1 else None, pset).

(** One of the properties that a plane may be without. *)
Definition commit_optional (p : DrmPlane) (prop : drm_property) (value : Z) (pset : list (Z * Z * Z)) : C verdict :=
  if property_id (plane_id p) prop =? 0 then mret (None, pset)
  else
    '(failed, pset) ← add_until [plane_prop p prop value] pset;
    mret (if failed : bool then Some 1 else None, pset).

Definition commit_layer (p : DrmPlane) (crtc : DrmCrtc) (fb_id : Z) (layer : DrmHwcLayer) (pset : list (Z * Z * Z)) : C verdict :=
  let rotation := rotation_of layer in
  let alpha := if bool_decide (blending layer = kPreMult) then alpha layer else 255 in
  if fb_id <? 0 then commit_disable p pset
  else if negb (rotation =? DRM_MODE_ROTATE_0) && (property_id (plane_id p) PROP_ROTATION =? 0) then mret (Some (- EINVAL), pset)
  else if negb (alpha =? 255) && (property_id (plane_id p) PROP_ALPHA =? 0) then mret (Some (- EINVAL), pset)
  else
    props ← lift (layer_props p crtc fb_id layer);
    '(failed, pset) ← add_all props pset;
    if failed : bool then mret (Some 1, pset)
    else
      '(v, pset) ← commit_optional p PROP_ROTATION rotation pset;
      match v with
      | Some _ => mret (v, pset)
      | None => commit_optional p PROP_ALPHA alpha pset
      end.

Definition commit_plane (id : nat) (test_only : bool) (p : DrmCompositionPlane) (pset : list (Z * Z * Z)) : C verdict :=
  plane ← lift (access (comp_plane p));
  if bool_decide (comp_type p = kDisable) then commit_disable plane pset
  else
    match source_layers p with
    | [] => lift Fault
    | _ :: _ :: _ => mret (None, pset)
    | [i] =>
        c ← the_comp id;
        match layers_ c !! i with
        | None => mret (Some 0, pset)
        | Some layer =>
            ret ← (if negb test_only && (0 <=? acquire_fence layer)
                   then acquire_wait kAcquireWaitTries kAcquireWaitTimeoutMs (acquire_fence layer) else mret 0);
            if negb (ret =? 0) then mret (Some ret, pset)
            else
              (if negb test_only && (0 <=? acquire_fence layer) then set_comp id (close_acquire_fence i c) else mret tt);;
              match imported layer with
              | None => mret (Some 0, pset)
              | Some fb_id => commit_layer plane (comp_crtc p) (s32 fb_id) layer pset
              end
        end
    end.

Fixpoint commit_planes (id : nat) (test_only : bool) (planes : list DrmCompositionPlane) (pset : list (Z * Z * Z))
    : C (Z * list (Z * Z * Z)) :=
  match planes with
  | [] => mret (0, pset)
  | p :: planes =>
      '(v, pset) ← commit_plane id test_only p pset;
      match v with
      | Some ret => mret (ret, pset)
      | None => commit_planes id test_only planes pset
      end
  end.

(** A modeset that is pending is part of the request.  [Some] is an early return. *)
Definition commit_mode (connector : DrmConnector) (crtc : DrmCrtc) (pset : list (Z * Z * Z)) : C (option Z * list (Z * Z * Z)) :=
  s ← get;
  if negb (needs_modeset (mode_ s)) then mret (None, pset)
  else
    let crtc := crtc_object crtc in
    ret ← ask (drmModeAtomicAddProperty crtc (property_id crtc ACTIVE) 1);
    if ret <? 0 then mret (Some ret, pset)
    else
      '(failed, pset) ← add_until [(crtc, property_id crtc MODE_ID, blob_id (mode_ s));
                                   (connector_id connector, property_id (connector_id connector) CRTC_ID, crtc)]
                          (pset ++ [(crtc, property_id crtc ACTIVE, 1)]);
      mret (if failed : bool then Some 1 else None, pset).

Definition ApplyDpms (id : nat) : C Z :=
  s ← get;
  c ← the_comp id;
  match connector_ s with
  | None => mret (- ENODEV)
  | Some conn => ask (drmModeConnectorSetProperty (connector_id conn) (property_id (connector_id conn) DPMS) (dpms_mode_ c))
  end.

Definition DestroyPropertyBlob (blob : Z) : C Z := if blob =? 0 then mret 0 else ask (destroy_blob blob).

(** What follows the commit of a frame while a modeset is pending. *)
Definition finish_modeset (id : nat) (ret : Z) : C Z :=
  s ← get;
  if negb (needs_modeset (mode_ s)) then mret ret
  else
    ret ← DestroyPropertyBlob (old_blob_id (mode_ s));
    if negb (ret =? 0) then mret ret
    else
      ret ← ApplyDpms id;
      if negb (ret =? 0) then mret ret
      else
        s ← get;
        modify (set_mode (MkModeState false (mode (mode_ s)) 0 (blob_id (mode_ s)))
                  ((fun c => MkConnector (connector_id c) (mode (mode_ s))) <$> connector_ s));;
        mret ret.

Definition CommitFrame (id : nat) (test_only : bool) : C Z :=
  s ← get;
  match connector_ s, display_crtc_ s with
  | None, _ | Some _, None => mret (- ENODEV)
  | Some connector, Some crtc =>
      ok ← ask drmModeAtomicAlloc;
      if negb (ok : bool) then mret (- ENOMEM)
      else
        '(early, pset) ← commit_mode connector crtc [];
        match early with
        | Some ret => mret ret
        | None =>
            c ← the_comp id;
            '(ret, pset) ← commit_planes id test_only (composition_planes_ c) pset;
            committed ← (if ret =? 0 then
                           ask (drmModeAtomicCommit pset (Z.lor DRM_MODE_ATOMIC_ALLOW_MODESET
                                                            (if test_only then DRM_MODE_ATOMIC_TEST_ONLY else 0)))
                         else mret 0);
            if negb (committed =? 0) then mret committed
            else if test_only then mret ret else finish_modeset id ret
        end
  end.

(** ** The frame that is shown *)

Fixpoint disable_all (planes : list DrmCompositionPlane) (pset : list (Z * Z * Z)) : C (bool * list (Z * Z * Z)) :=
  match planes with
  | [] => mret (false, pset)
  | p :: planes =>
      plane ← lift (access (comp_plane p));
      '(failed, pset) ← add_until (disable_plane plane) pset;
      if failed : bool then mret (true, pset) else disable_all planes pset
  end.

Definition DisablePlanes (id : nat) : C Z :=
  ok ← ask drmModeAtomicAlloc;
  if negb (ok : bool) then mret (- ENOMEM)
  else
    c ← the_comp id;
    '(failed, pset) ← disable_all (composition_planes_ c) [];
    if failed : bool then mret 1 else ask (drmModeAtomicCommit pset 0).

Definition set_active_composition (a : option nat) : C unit :=
  modify (fun s => set_queues (composite_queue_ s) (frame_queue_ s) a s).

Definition ClearDisplay : C unit :=
  s ← get;
  match active_composition_ s with
  | None => mret tt
  | Some id =>
      ret ← DisablePlanes id;
      if negb (ret =? 0) then mret tt
      else on_comp id SignalCompositionDone;; reset id;; set_active_composition None
  end.

(** The composition that is not shown (any more) is destroyed when it ends. *)
Definition ApplyFrame (composition : option nat) (status : Z) : C unit :=
  ret ← (if status =? 0 then id ← lift (access composition); CommitFrame id false else mret status);
  if negb (ret =? 0) then
    ClearDisplay;;
    match composition with Some id => reset id | None => mret tt end
  else
    s ← get;
    match active_composition_ s with
    | Some old => on_comp old SignalCompositionDone;; set_active_composition composition;; reset old
    | None => set_active_composition composition
    end.

(** ** SquashFrame *)

Definition moved_from (l : DrmHwcLayer) : DrmHwcLayer :=
  MkLayer (sf_handle l) (protected_usage l) (buffer_format l) (transform l) (blending l) (crop_left l) (crop_top l)
    (crop_right l) (crop_bottom l) (display_frame l) false (alpha l) (-1) None.

Definition no_release_fence (l : DrmHwcLayer) : DrmHwcLayer :=
  MkLayer (sf_handle l) (protected_usage l) (buffer_format l) (transform l) (blending l) (crop_left l) (crop_top l)
    (crop_right l) (crop_bottom l) (display_frame l) false (alpha l) (acquire_fence l) (imported l).

(** The layers of a plane move to [dst_layers], until one is protected. *)
Fixpoint move_layers (l : list nat) (src_layers dst_layers : list DrmHwcLayer)
    : outcome (bool * list DrmHwcLayer * list DrmHwcLayer) :=
  match l with
  | [] => Done (true, src_layers, dst_layers)
  | i :: l =>
      layer ← access (src_layers !! i);
      if protected_usage layer then Done (false, src_layers, dst_layers)
      else move_layers l (<[i := moved_from layer]> src_layers) (dst_layers ++ [no_release_fence layer])
  end.

(** What the loop over the planes of the source makes: the return value, the
    planes to be disabled, the primary plane, the layers. *)
Record squash_parts : Type := MkParts {
  sq_ret : Z; sq_disabled : list DrmPlane; sq_plane : option DrmPlane; sq_src : list DrmHwcLayer; sq_dst : list DrmHwcLayer
}.

Fixpoint squash_planes (planes : list DrmCompositionPlane) (x : squash_parts) : outcome squash_parts :=
  match planes with
  | [] => Done x
  | p :: planes =>
      match comp_plane p with
      | None => Done (MkParts (- EINVAL) (sq_disabled x) (sq_plane x) (sq_src x) (sq_dst x))
      | Some plane =>
          let x := if is_primary plane then MkParts (sq_ret x) (sq_disabled x) (Some plane) (sq_src x) (sq_dst x)
                   else MkParts (sq_ret x) (sq_disabled x ++ [plane]) (sq_plane x) (sq_src x) (sq_dst x) in
          if bool_decide (comp_type p = kDisable) then squash_planes planes x
          else
            '(ok, src, dst) ← move_layers (source_layers p) (sq_src x) (sq_dst x);
            let x := MkParts (sq_ret x) (sq_disabled x) (sq_plane x) src dst in
            if ok : bool then squash_planes planes x
            else Done (MkParts (- ENOTSUP) (sq_disabled x) (sq_plane x) src dst)
      end
  end.

(** move_layers_back: from the layer that [plane_index] is, to the layers of a plane. *)
Fixpoint move_back (l : list nat) (plane_index : nat) (src_layers dst_layers : list DrmHwcLayer)
    : outcome (nat * list DrmHwcLayer * list DrmHwcLayer) :=
  match l with
  | [] => Done (plane_index, src_layers, dst_layers)
  | i :: l =>
      layer ← access (dst_layers !! plane_index);
      _ ← access (src_layers !! i);
      move_back l (S plane_index) (<[i := layer]> src_layers) (<[plane_index := moved_from layer]> dst_layers)
  end.

(** The loop takes a turn for every plane at the most; [fuel] is their number. *)
Fixpoint move_layers_back (fuel plane_index : nat) (planes : list DrmCompositionPlane) (src_layers dst_layers : list DrmHwcLayer)
    : outcome (list DrmHwcLayer) :=
  match fuel with
  | O => Done src_layers
  | S fuel =>
      if (plane_index <? length planes)%nat && (plane_index <? length dst_layers)%nat then
        p ← access (planes !! plane_index);
        match source_layers p with
        | [] => move_layers_back fuel (S plane_index) planes src_layers dst_layers
        | l =>
            '(plane_index, src_layers, dst_layers) ← move_back l plane_index src_layers dst_layers;
            move_layers_back fuel plane_index planes src_layers dst_layers
        end
      else Done src_layers
  end.

Definition give_back (src : nat) (ret : Z) (src_layers dst_layers : list DrmHwcLayer) : C Z :=
  c ← the_comp src;
  layers ← lift (move_layers_back (length (composition_planes_ c)) 0 (composition_planes_ c) src_layers dst_layers);
  set_comp src (set_layers layers c);; mret ret.

(** The precomp plane shows the last layer. *)
Fixpoint squash_target (i : nat) (planes : list DrmCompositionPlane) : list DrmCompositionPlane :=
  match planes with
  | [] => []
  | p :: planes =>
      if bool_decide (comp_type p = kPrecomp) then MkComposition (comp_type p) (comp_plane p) (comp_crtc p) [i] :: planes
      else p :: squash_target i planes
  end.

Definition disable_planes (l : list DrmPlane) (c : DrmDisplayComposition) : DrmDisplayComposition :=
  foldl (fun c p => snd (AddPlaneDisable p c)) c l.

(** After the layers have moved: [dst] is made a composition of one plane. *)
Definition build_squashed (dst : nat) (plane : DrmPlane) (crtc : DrmCrtc) (num_layers : nat) : C Z :=
  ret ← on_comp dst (fun d => Done (AddPlaneComposition (MkComposition kPrecomp (Some plane) crtc (seq 0 num_layers)) d));
  if negb (ret =? 0) then mret ret
  else
    ret ← on_comp dst (FinalizeComposition []);
    if negb (ret =? 0) then mret ret else ApplyPreComposite dst.

Definition SquashFrame (src dst : nat) : C Z :=
  c ← the_comp src;
  if negb (bool_decide (type_ c = DRM_COMPOSITION_TYPE_FRAME)) then mret (- ENOTSUP)
  else
    if (length (filter (fun p => comp_type p <> kDisable) (composition_planes_ c)) <=? 1)%nat then mret (- EALREADY)
    else
      ret ← on_comp dst (fun d => Done (Init (crtc_ c) d));
      if negb (ret =? 0) then mret ret
      else
        x ← lift (squash_planes (composition_planes_ c) (MkParts 0 [] None (layers_ c) []));
        on_comp dst (fun d => Done (tt, disable_planes (sq_disabled x) d));;
        set_comp src (set_layers (sq_src x) c);;
        if negb (sq_ret x =? 0) then give_back src (sq_ret x) (sq_src x) (sq_dst x)
        else
          match sq_plane x with
          | None => give_back src (- ENOTSUP) (sq_src x) (sq_dst x)
          | Some plane =>
              ret ← on_comp dst (fun d => Done (SetLayers (sq_dst x) false d));
              if negb (ret =? 0) then give_back src ret (sq_src x) (sq_dst x)
              else
                ret ← build_squashed dst plane (crtc_ c) (length (sq_dst x));
                if negb (ret =? 0) then give_back src ret (sq_src x) (moved_from <$> sq_dst x)
                else
                  i ← last_layer dst;
                  next_framebuffer;;
                  on_comp dst (fun d => Done (0, set_planes (squash_target i (composition_planes_ d)) d))
          end.

(** ** The three threads *)

(** The client's.  A queue that is full is waited for. *)
Definition QueueComposition (id : nat) : C Z :=
  c ← the_comp id;
  s ← get;
  let push :=
    s ← get;
    if (DRM_DISPLAY_COMPOSITOR_MAX_QUEUE_DEPTH <=? length (composite_queue_ s))%nat then lift Timeout
    else modify (set_queues (composite_queue_ s ++ [id]) (frame_queue_ s) (active_composition_ s));; mret 0 in
  match type_ c with
  | DRM_COMPOSITION_TYPE_FRAME => if active_ s then push else reset id;; mret (- ENODEV)
  | DRM_COMPOSITION_TYPE_DPMS => modify (set_active (dpms_mode_ c =? DRM_MODE_DPMS_ON) (use_hw_overlays_ s));; push
  | DRM_COMPOSITION_TYPE_MODESET => push
  | DRM_COMPOSITION_TYPE_EMPTY => reset id;; mret 0
  end.

Definition HaveQueuedComposites : C bool :=
  s ← get; mret (match composite_queue_ s with [] => false | _ => true end).

Definition QueueFrame (composition : nat) (status : Z) : C unit :=
  modify (fun s => set_queues (composite_queue_ s) (frame_queue_ s ++ [(Some composition, status)]) (active_composition_ s) s).

Definition CreateModeBlob (m : Z) : C (Z * Z) :=
  '(ret, id) ← ask (create_blob m);
  mret (if negb (ret =? 0) then (ret, 0) else (ret, id)).

Definition composite_modeset (id : nat) : C Z :=
  c ← the_comp id;
  s ← get;
  let m := mode_ s in
  (if blob_id m =? 0 then mret 0 else DestroyPropertyBlob (blob_id m));;
  '(ret, blob) ← CreateModeBlob (display_mode_ c);
  modify (fun s => set_mode (MkModeState (if ret =? 0 then true else needs_modeset m) (display_mode_ c) blob (old_blob_id m)) (connector_ s) s);;
  mret ret.

(** Whether the display takes the frame as it is, which is tried when the
    geometry has changed. *)
Definition test_overlays (id : nat) : C unit :=
  c ← the_comp id;
  if geometry_changed_ c then
    ret ← CommitFrame id true;
    modify (fun s => set_active (active_ s) (ret =? 0) s)
  else mret tt.

Definition composite_frame (id : nat) : C Z :=
  ret ← PrepareFrame id;
  if negb (ret =? 0) then reset id;; mret ret
  else
    test_overlays id;;
    s ← get;
    if use_hw_overlays_ s then QueueFrame id 0;; mret 0
    else
      c ← the_comp id;
      squashed ← CreateComposition (crtc_ c);
      ret ← SquashFrame id squashed;
      if negb (ret =? 0) then ClearDisplay;; reset squashed;; reset id;; mret ret
      else reset id;; QueueFrame squashed 0;; mret 0.

Definition init_pre_compositor : C Z :=
  s ← get;
  modify (set_rest (next_comp s) (next_buffer s) (renders s) true (the_world s));;
  if pre_compositor_ s then mret 0 else ask gl_init.

(** The composition at the front of the queue. *)
Definition composite_next : C Z :=
  s ← get;
  match composite_queue_ s with
  | [] => mret 0
  | id :: queue =>
      modify (set_queues queue (frame_queue_ s) (active_composition_ s));;
      c ← the_comp id;
      match type_ c with
      | DRM_COMPOSITION_TYPE_FRAME => composite_frame id
      | DRM_COMPOSITION_TYPE_DPMS => ret ← ApplyDpms id; reset id;; mret ret
      | DRM_COMPOSITION_TYPE_MODESET => ret ← composite_modeset id; reset id;; mret ret
      | DRM_COMPOSITION_TYPE_EMPTY => reset id;; mret (- EINVAL)
      end
  end.

(** The worker's. *)
Definition Composite : C Z :=
  ret ← init_pre_compositor;
  if negb (ret =? 0) then mret ret else composite_next.

(** SquashAll up to the end of what it does under the lock: the return value,
    and the composition that is left to be applied. *)
Definition squash_active : C (Z * option nat) :=
  s ← get;
  match active_composition_ s with
  | None => mret (0, None)
  | Some src =>
      c ← the_comp src;
      comp ← CreateComposition (crtc_ c);
      ret ← SquashFrame src comp;
      if negb (ret =? 0) then reset comp;; mret (ret, None) else mret (0, Some comp)
  end.

Definition SquashAll : C Z :=
  '(ret, comp) ← squash_active;
  match comp with
  | Some id => ApplyFrame (Some id) 0;; mret ret
  | None => mret ret
  end.

(** The frame worker's, after it was woken; with nothing in the queue the frame is
    an empty pointer. *)
Definition FrameRoutine : C unit :=
  s ← get;
  match frame_queue_ s with
  | [] => ApplyFrame None 0
  | (composition, status) :: queue =>
      modify (set_queues (composite_queue_ s) queue (active_composition_ s));;
      ApplyFrame composition status
  end.

(** DrmCompositorWorker::Routine, for what its wait returned; the result is did_squash_all_. *)
Definition EINTR : Z := 4.
Definition ETIMEDOUT : Z := 110.

Definition worker_routine (wait_ret : Z) (did_squash_all : bool) : C bool :=
  queued ← HaveQueuedComposites;
  if (queued : bool) || (wait_ret =? 0) then Composite;; mret false
  else if wait_ret =? - ETIMEDOUT then SquashAll;; mret true
  else mret did_squash_all.

(** ** Their steps *)

Definition no_framebuffer : DrmFramebuffer := MkFramebuffer None None None.

(** DrmDisplayCompositor() and Init. *)
Definition new_compositor (connector : option DrmConnector) (crtc : option DrmCrtc) (w : world) : compositor :=
  MkCompositor ∅ 0 [] [] None false true (MkModeState false 0 0 0) 0 (replicate DRM_DISPLAY_BUFFERS no_framebuffer)
    0 (replicate 2 no_framebuffer) false connector crtc (-1) [] w.

(** [squashed]: the worker is in SquashAll, between the lock and ApplyFrame. *)
Record machine : Type := MkMachine { sys : compositor; squashed_comp : option nat }.

Variant action : Type :=
| AQueue (c : DrmDisplayComposition)  (** the client queues a composition *)
| AComposite                          (** the worker composites *)
| ASquash                             (** the worker's wait has timed out *)
| AApplySquashed                      (** the rest of SquashAll *)
| AFrame                              (** the frame worker takes a frame *)
| AWake.                              (** the frame worker wakes up and there is none *)

Definition client_queue (c : DrmDisplayComposition) : C Z :=
  id ← CreateComposition (crtc_ c);
  set_comp id c;;
  QueueComposition id.

(** A step that cannot be taken yet is a [Timeout]. *)
Definition run_action (a : action) (m : machine) : outcome machine :=
  match a with
  | AQueue c => '(_, s) ← client_queue c (sys m); Done (MkMachine s (squashed_comp m))
  | AComposite =>
      match squashed_comp m with
      | None => '(_, s) ← Composite (sys m); Done (MkMachine s None)
      | Some _ => Timeout
      end
  | ASquash =>
      match squashed_comp m with
      | None => '((_, comp), s) ← squash_active (sys m); Done (MkMachine s comp)
      | Some _ => Timeout
      end
  | AApplySquashed =>
      match squashed_comp m with
      | Some id => '(_, s) ← ApplyFrame (Some id) 0 (sys m); Done (MkMachine s None)
      | None => Timeout
      end
  | AFrame =>
      match frame_queue_ (sys m) with
      | [] => Timeout
      | _ => '(_, s) ← FrameRoutine (sys m); Done (MkMachine s (squashed_comp m))
      end
  | AWake =>
      match frame_queue_ (sys m) with
      | [] => '(_, s) ← FrameRoutine (sys m); Done (MkMachine s (squashed_comp m))
      | _ => Timeout
      end
  end.

Fixpoint run_actions (l : list action) (m : machine) : outcome machine :=
  match l with
  | [] => Done m
  | a :: l => m ← run_action a m; run_actions l m
  end.

End Compositor.
#[global] Arguments C {_} A.
