(* ===== verification/CompositorSafety.v ===== *)
(** * CompositorSafety: no fence is lost and no framebuffer in use is rendered into

    The invariant of DrmDisplayCompositor, and that rendering, committing and
    showing a frame keep it; CompositorRuns has the steps of the threads. *)

From S2P Require Import Prelude Float32.
From S2P Require Import SeparateRects Planner Composition CompositionPlan Compositor.

Open Scope Z_scope.

(** ** Weakest preconditions: no fault, and a result when the step can be taken *)

Section Wp.
Context `{SyncLib} `{DrmLib}.

Definition wp {A} (m : C A) (Q : A -> compositor -> Prop) (s : compositor) : Prop :=
  match m s with Done (a, s') => Q a s' | Fault => False | Timeout => True end.

Lemma wpc_mono {A} (m : C A) (P Q : A -> compositor -> Prop) s :
  wp m P s -> (forall a s', P a s' -> Q a s') -> wp m Q s.
Proof. unfold wp. destruct (m s) as [[a s']| |]; auto. Qed.

(** The precondition together with the result. *)
Lemma wpc_result {A} (m : C A) (P Q : A -> compositor -> Prop) s :
  wp m P s -> (forall a s', m s = Done (a, s') -> P a s' -> Q a s') -> wp m Q s.
Proof. unfold wp. destruct (m s) as [[a s']| |]; auto. Qed.

Lemma wpc_ret {A} (a : A) (Q : A -> compositor -> Prop) s : Q a s -> wp (mret a) Q s.
Proof. done. Qed.

Lemma wpc_bind {A B} (m : C A) (f : A -> C B) (Q : B -> compositor -> Prop) s :
  wp m (fun a => wp (f a) Q) s -> wp (m ≫= f) Q s.
Proof. unfold wp, mbind, C_bind, outcome_bind. destruct (m s) as [[a s']| |]; done. Qed.

Lemma wpc_get (Q : compositor -> compositor -> Prop) s : Q s s -> wp get Q s.
Proof. done. Qed.

Lemma wpc_modify f (Q : unit -> compositor -> Prop) s : Q tt (f s) -> wp (modify f) Q s.
Proof. done. Qed.

Lemma wpc_lift {A} (m : outcome A) a (Q : A -> compositor -> Prop) s : m = Done a -> Q a s -> wp (lift m) Q s.
Proof. by intros ->. Qed.

Lemma wpc_ask {A} (f : world -> A * world) (Q : A -> compositor -> Prop) s :
  (forall a w, f (the_world s) = (a, w) -> Q a (set_rest (next_comp s) (next_buffer s) (renders s) (pre_compositor_ s) w s)) ->
  wp (ask f) Q s.
Proof.
  intros HQ. unfold ask. apply wpc_bind, wpc_get. destruct (f (the_world s)) as [a w] eqn:E.
  by apply wpc_bind, wpc_modify, wpc_ret, HQ.
Qed.

Lemma wp_the_comp id c (Q : DrmDisplayComposition -> compositor -> Prop) s :
  comps s !! id = Some c -> Q c s -> wp (the_comp id) Q s.
Proof. intros E HQ. unfold the_comp. apply wpc_bind, wpc_get. eapply wpc_lift; [by rewrite E|done]. Qed.

Lemma wp_set_comp id c (Q : unit -> compositor -> Prop) s : Q tt (on_comps (insert id c) s) -> wp (set_comp id c) Q s.
Proof. done. Qed.

Lemma wp_on_comp {A} id c (f : DrmDisplayComposition -> outcome (A * DrmDisplayComposition)) a c' (Q : A -> compositor -> Prop) s :
  comps s !! id = Some c -> f c = Done (a, c') -> Q a (on_comps (insert id c') s) -> wp (on_comp id f) Q s.
Proof.
  intros E Ef HQ. unfold on_comp. apply wpc_bind, (wp_the_comp _ c); [done|]. apply wpc_bind. eapply wpc_lift; [done|].
  by apply wpc_bind, wp_set_comp, wpc_ret.
Qed.

End Wp.

(** ** Compositions *)

(** How far the timeline is, and how far it will be signalled on the way. *)
Record timed (c : DrmDisplayComposition) : Prop := {
  timed_current : 0 <= timeline_current_ c <= timeline_ c;
  timed_done : 0 <= timeline_squash_done_ c <= timeline_pre_comp_done_ c;
  timed_pre : timeline_pre_comp_done_ c <= timeline_ c;
  timed_fd : 0 <= timeline_fd_ c \/ timeline_current_ c = timeline_ c
}.

(** Every fence of the composition is signalled. *)
Definition released (c : DrmDisplayComposition) : Prop := timeline_current_ c = timeline_ c.

(** The numbers of a layer that are sent to the display are defined. *)
Definition layer_ok (l : DrmHwcLayer) : Prop :=
  (exists w, width (display_frame l) = Done w) /\ (exists h, height (display_frame l) = Done h) /\
  (exists x, fixed_16_16 (crop_left l) = Done x) /\ (exists y, fixed_16_16 (crop_top l) = Done y) /\
  (exists w, fixed_16_16 (fsub (crop_right l) (crop_left l)) = Done w) /\
  (exists h, fixed_16_16 (fsub (crop_bottom l) (crop_top l)) = Done h).

(** A plane before and after PrepareFrame, for n layers. *)
Definition queued_plane (n : nat) (p : DrmCompositionPlane) : Prop :=
  is_Some (comp_plane p) /\
  match comp_type p with
  | kLayer => exists i, source_layers p = [i] /\ (i < n)%nat
  | kPrecomp => True
  | _ => source_layers p = []
  end.

Definition shown_plane (n : nat) (p : DrmCompositionPlane) : Prop :=
  is_Some (comp_plane p) /\
  (comp_type p = kDisable /\ source_layers p = [] \/ exists i, source_layers p = [i] /\ (i < n)%nat).

Definition max_timeline : Z := 1073741824.

Record queued_ok (c : DrmDisplayComposition) : Prop := {
  queued_planes : Forall (queued_plane (length (layers_ c))) (composition_planes_ c);
  queued_layers : Forall layer_ok (layers_ c);
  queued_time : timeline_ c <= max_timeline;
  queued_fd : 0 <= timeline_fd_ c
}.

Record live_ok (c : DrmDisplayComposition) : Prop := {
  live_planes : Forall (shown_plane (length (layers_ c))) (composition_planes_ c);
  live_layers : Forall layer_ok (layers_ c);
  live_time : timeline_ c <= max_timeline + 2
}.

Lemma int_checked_small z : -2147483648 <= z <= 2147483647 -> int_checked z = Done z.
Proof. intros Hz. unfold int_checked. by replace ((_ <=? _) && (_ <=? _)) with true by lia. Qed.

(** What the timelines can be relied on for: an increment never fails, and the
    descriptor of a new fence is not 0. *)
Definition increments_work `{SyncLib} : Prop := forall n, sw_sync_timeline_inc n = 0.

Definition fences_made `{SyncLib} : Prop := forall p, sw_sync_fence_create p <> 0.

Section Release.
Context `{SyncLib}.

(** The composition with its timeline at a time. *)
Definition at_time (t : Z) (c : DrmDisplayComposition) : DrmDisplayComposition :=
  set_timelines (timeline_ c) t (timeline_squash_done_ c) (timeline_pre_comp_done_ c) c.

Lemma increase_Done point c : timed c -> timeline_ c <= max_timeline + 2 -> 0 <= point <= timeline_ c ->
  exists ret t, IncreaseTimelineToPoint point c = Done (ret, at_time t c) /\
    timeline_current_ c <= t <= Z.max (timeline_current_ c) point /\ (increments_work -> t = Z.max (timeline_current_ c) point).
Proof.
  intros [? ? ? ?] Hmax Hp. unfold IncreaseTimelineToPoint, max_timeline, at_time, increments_work in *. rewrite int_checked_small, bind_Done_eq by lia.
  destruct (Z.leb_spec (point - timeline_current_ c) 0).
  - exists 0, (timeline_current_ c). split_and!; [by destruct c|lia|lia|lia].
  - destruct (Z.eqb_spec (sw_sync_timeline_inc (point - timeline_current_ c)) 0) as [E|E].
    + eexists _, point. split_and!; [done|lia|lia|lia].
    + eexists _, (timeline_current_ c). split_and!; [by destruct c|lia|lia|]. intros Hw. by destruct E.
Qed.

Lemma timed_at_time t c : timed c -> timeline_current_ c <= t <= timeline_ c -> timed (at_time t c).
Proof. intros [? ? ? [?|?]] ?; constructor; cbn; [lia..|by left|lia|lia|lia|right; lia]. Qed.

(** The destructor signals what is left, when the increment works. *)
Lemma destroy_Done c : timed c -> timeline_ c <= max_timeline + 2 ->
  exists t, destroy c = Done (at_time t c) /\ timeline_current_ c <= t <= timeline_ c /\ (increments_work -> t = timeline_ c).
Proof.
  intros Ht Hmax. pose proof Ht as [? ? ? Hfd]. unfold destroy, SignalCompositionDone. destruct (Z.leb_spec 0 (timeline_fd_ c)).
  - destruct (increase_Done (timeline_ c) c Ht Hmax) as (ret & t & -> & Hb & Hw); [lia|]. exists t. split_and!; [done|lia|lia|].
    intros Hi. rewrite (Hw Hi). lia.
  - destruct Hfd as [|Hfd]; [lia|]. exists (timeline_current_ c). split_and!; [by destruct c|lia|lia|lia].
Qed.

Lemma next_fence_Done c : timed c -> timeline_ c <= max_timeline + 2 ->
  CreateNextTimelineFence c = Done (sw_sync_fence_create (timeline_ c + 1), set_timeline (timeline_ c + 1) c).
Proof. intros [] Hmax. unfold CreateNextTimelineFence, max_timeline in *. by rewrite int_checked_small by lia. Qed.

End Release.

(** ** The invariant *)

Section Invariant.
Context `{SyncLib} `{DrmLib}.

Definition frame_ids (s : compositor) : list nat := omap fst (frame_queue_ s).

(** Compositions that wait for their commit or are shown; [ready] is the one the
    worker is about to apply in SquashAll. *)
Definition live (ready : list nat) (s : compositor) : list nat :=
  frame_ids s ++ option_list (active_composition_ s) ++ ready.

(** Where compositions can be; [held] are those that a function has in hand. *)
Definition places (ready held : list nat) (s : compositor) : list nat :=
  composite_queue_ s ++ live ready s ++ held.

(** The framebuffers that were rendered for a composition are released by a
    point of its timeline that is not reached. *)
Definition fenced (s : compositor) (id : nat) : Prop :=
  forall k fb, framebuffers_ s !! k = Some fb -> fb_user fb = Some id ->
    is_Some (buffer fb) /\
    exists f c, release_fence_fd fb = Some f /\ fence_comp f = id /\ comps s !! id = Some c /\ timeline_current_ c < fence_point f.

(** The composition as it is where it is. *)
Definition comp_ok (ready : list nat) (s : compositor) (id : nat) (c : DrmDisplayComposition) : Prop :=
  (id ∈ composite_queue_ s -> queued_ok c) /\ (id ∈ live ready s -> live_ok c).

Record inv (ready held : list nat) (s : compositor) : Prop := {
  inv_dom : forall id, is_Some (comps s !! id) <-> (id < next_comp s)%nat;
  inv_nodup : NoDup (places ready held s);
  inv_in : forall id, id ∈ places ready held s -> (id < next_comp s)%nat;
  inv_timed : forall id c, comps s !! id = Some c -> timed c /\ timeline_ c <= max_timeline + 2;
  inv_released : increments_work -> forall id c, comps s !! id = Some c -> id ∉ places ready held s -> released c;
  inv_comps : forall id c, comps s !! id = Some c -> comp_ok ready s id c;
  inv_frames : forall f, f ∈ frame_queue_ s -> exists id, f = (Some id, 0);
  inv_fbs : length (framebuffers_ s) = 3%nat /\ (framebuffer_index_ s < 3)%nat /\
            length (squash_framebuffers_ s) = 2%nat /\ (squash_framebuffer_index_ s < 2)%nat;
  inv_users : forall k fb id, framebuffers_ s !! k = Some fb -> fb_user fb = Some id ->
                (id < next_comp s)%nat /\ id ∉ composite_queue_ s;
  inv_fenced : fences_made -> forall id, id ∈ live ready s -> fenced s id;
  inv_renders : fences_made -> forall b, b ∈ renders s -> b = false
}.

Lemma elem_of_places ready held s id :
  id ∈ places ready held s <-> id ∈ composite_queue_ s \/ id ∈ live ready s \/ id ∈ held.
Proof. unfold places. by rewrite !elem_of_app. Qed.

Lemma elem_of_live ready s id :
  id ∈ live ready s <-> id ∈ frame_ids s \/ active_composition_ s = Some id \/ id ∈ ready.
Proof.
  unfold live. rewrite !elem_of_app. destruct (active_composition_ s) as [a|]; cbn.
  - rewrite list_elem_of_singleton. naive_solver.
  - rewrite elem_of_nil. naive_solver.
Qed.

Lemma elem_of_frame_ids s id : id ∈ frame_ids s <-> exists x, (Some id, x) ∈ frame_queue_ s.
Proof.
  unfold frame_ids. rewrite list_elem_of_omap. split.
  - intros ([o x] & Hin & ?). cbn in *. subst o. by exists x.
  - intros [x Hx]. by exists (Some id, x).
Qed.

(** The parts of the state that the invariant does not read. *)
Lemma inv_mode ready held m conn s : inv ready held s -> inv ready held (set_mode m conn s).
Proof. intros []. by constructor. Qed.

Lemma inv_active ready held a o s : inv ready held s -> inv ready held (set_active a o s).
Proof. intros []. by constructor. Qed.

Lemma inv_world ready held pre w s : inv ready held s ->
  inv ready held (set_rest (next_comp s) (next_buffer s) (renders s) pre w s).
Proof. intros []. by constructor. Qed.

Lemma inv_buffer ready held b s : inv ready held s ->
  inv ready held (set_rest (next_comp s) b (renders s) (pre_compositor_ s) (the_world s) s).
Proof. intros []. by constructor. Qed.

(** A composition that changes. *)
Lemma inv_set_comp ready held s id c c' : inv ready held s -> comps s !! id = Some c ->
  timed c' -> timeline_ c' <= max_timeline + 2 ->
  (increments_work -> id ∉ places ready held s -> released c') -> comp_ok ready s id c' ->
  (id ∈ live ready s -> timeline_current_ c' = timeline_current_ c) ->
  inv ready held (on_comps (insert id c') s).
Proof.
  intros I Hid Ht Hmax Hrel Hok Hcur. destruct I as [Id In Ii It Ir Ic If Ib Iu Ie Ig]. constructor; cbn; try done.
  - intros j. rewrite lookup_insert_is_Some'. rewrite <- Id. split; [intros [<- | ?]; [by eexists|done]|by right].
  - intros j d [[<- <-]|[? ?]]%lookup_insert_Some; [done|by eapply It].
  - intros Hw j d [[<- <-]|[? ?]]%lookup_insert_Some; [by apply Hrel|by eapply Ir].
  - intros j d [[<- <-]|[? ?]]%lookup_insert_Some; [done|by eapply Ic].
  - intros Hm j Hj k fb Hk Hu. destruct (Ie Hm j Hj k fb Hk Hu) as (Hb & f & d & Hf & Hfc & Hd & Hlt). split; [done|].
    destruct (decide (j = id)) as [-> |Hne].
    + exists f, c'. rewrite Hid in Hd. injection Hd as <-. cbn. rewrite lookup_insert_eq, (Hcur Hj). done.
    + exists f, d. cbn. by rewrite lookup_insert_ne.
Qed.

(** One that is in hand can change freely. *)
Lemma held_apart ready held s id : inv ready held s -> id ∈ held ->
  id ∉ composite_queue_ s /\ id ∉ live ready s /\ id ∈ places ready held s.
Proof.
  intros I Hid. pose proof (inv_nodup _ _ _ I) as Hnd. unfold places in Hnd.
  apply list.NoDup_app in Hnd as (_ & Hq & Hnd). apply list.NoDup_app in Hnd as (_ & Hl & _).
  split_and!; [|intros Hin; by eapply Hl|apply elem_of_places; tauto].
  intros Hin. apply (Hq id Hin), elem_of_app. by right.
Qed.

Lemma inv_set_held ready held s id c' : inv ready held s -> id ∈ held ->
  timed c' -> timeline_ c' <= max_timeline + 2 -> inv ready held (on_comps (insert id c') s).
Proof.
  intros I Hid Ht Hmax. destruct (held_apart _ _ _ _ I Hid) as (Hq & Hl & Hp).
  destruct (proj2 (inv_dom _ _ _ I id) (inv_in _ _ _ I id Hp)) as [c Hc].
  by eapply inv_set_comp; [| |exact Ht| | |split| ].
Qed.

Lemma held_lookup ready held s id : inv ready held s -> id ∈ held -> exists c, comps s !! id = Some c.
Proof.
  intros I Hid. destruct (held_apart _ _ _ _ I Hid) as (_ & _ & Hp). exact (proj2 (inv_dom _ _ _ I id) (inv_in _ _ _ I id Hp)).
Qed.

(** Framebuffers. *)
Definition with_fb (r : fb_ref) (fb : DrmFramebuffer) (s : compositor) : compositor :=
  match r with
  | PreFb i => set_framebuffers (framebuffer_index_ s) (<[i := fb]> (framebuffers_ s)) (squash_framebuffer_index_ s) (squash_framebuffers_ s) s
  | SquashFb i => set_framebuffers (framebuffer_index_ s) (framebuffers_ s) (squash_framebuffer_index_ s) (<[i := fb]> (squash_framebuffers_ s)) s
  end.

Definition lookup_fb (r : fb_ref) (s : compositor) : option DrmFramebuffer :=
  match r with PreFb i => framebuffers_ s !! i | SquashFb i => squash_framebuffers_ s !! i end.

Lemma lookup_with_fb r fb fb0 s : lookup_fb r s = Some fb0 -> lookup_fb r (with_fb r fb s) = Some fb.
Proof. destruct r; cbn; intros E; apply list_lookup_insert_eq; by eapply lookup_lt_Some. Qed.

(** A framebuffer whose user is not live can change. *)
Lemma inv_with_fb ready held s r fb : inv ready held s ->
  (forall i, r = PreFb i -> forall id, fb_user fb = Some id -> (id < next_comp s)%nat /\ id ∉ composite_queue_ s /\ (fences_made -> id ∉ live ready s)) ->
  inv ready held (with_fb r fb s).
Proof.
  intros I Hfb. destruct I as [Id In Ii It Ir Ic If Ib Iu Ie Ig]. destruct r as [i|i]; constructor; try done; cbn.
  - by rewrite length_insert.
  - intros k fb' id [(-> & -> & _)|[_ ?]]%lookup_insert_cases Hu; [|by eapply Iu]. by destruct (Hfb k eq_refl id Hu) as (? & ? & _).
  - intros Hm id Hid k fb' Hk Hu. apply lookup_insert_cases in Hk as [(-> & -> & _)|[_ Hk]]; [|by eapply Ie].
    destruct (Hfb k eq_refl id Hu) as (_ & _ & Hnl). by destruct Hnl.
  - by rewrite length_insert.
Qed.

End Invariant.

(** ** Framebuffers *)

Section Framebuffers.
Context `{SyncLib} `{DrmLib}.

(** What rendering into a framebuffer for a composition leaves alone. *)
Record evolves (r : fb_ref) (id : nat) (s s' : compositor) : Prop := {
  ev_next : next_comp s' = next_comp s;
  ev_queue : composite_queue_ s' = composite_queue_ s;
  ev_frames : frame_queue_ s' = frame_queue_ s;
  ev_active : active_composition_ s' = active_composition_ s;
  ev_index : framebuffer_index_ s' = framebuffer_index_ s;
  ev_squash : squash_framebuffer_index_ s' = squash_framebuffer_index_ s;
  ev_comps : forall j, j <> id -> comps s' !! j = comps s !! j;
  ev_fbs : forall r', r' <> r -> lookup_fb r' s' = lookup_fb r' s
}.

Lemma evolves_refl r id s : evolves r id s s.
Proof. by constructor. Qed.

Lemma evolves_trans r id s1 s2 s3 : evolves r id s1 s2 -> evolves r id s2 s3 -> evolves r id s1 s3.
Proof.
  intros [? ? ? ? ? ? Hc1 Hf1] [? ? ? ? ? ? Hc2 Hf2]. constructor; try congruence.
  - intros j Hj. by rewrite Hc2, Hc1.
  - intros r' Hr'. by rewrite Hf2, Hf1.
Qed.

Lemma evolves_world r id n b l pre w s : n = next_comp s -> evolves r id s (set_rest n b l pre w s).
Proof. intros ->. by constructor. Qed.

Lemma evolves_with_fb r id fb s : evolves r id s (with_fb r fb s).
Proof.
  destruct r as [i|i]; (constructor; [done..|]); intros [j|j] Hne; cbn; try done; apply list_lookup_insert_ne; congruence.
Qed.

Lemma evolves_set_comp r id c s : evolves r id s (on_comps (insert id c) s).
Proof. constructor; [done..| |by intros []]. intros j Hj. by apply lookup_insert_ne. Qed.

Lemma wp_the_fb r fb (Q : DrmFramebuffer -> compositor -> Prop) s : lookup_fb r s = Some fb -> Q fb s -> wp (the_fb r) Q s.
Proof. intros E HQ. unfold the_fb. apply wpc_bind, wpc_get. eapply (wpc_lift _ fb); [unfold lookup_fb in E; by rewrite E|done]. Qed.

Lemma wp_set_fb r fb (Q : unit -> compositor -> Prop) s : Q tt (with_fb r fb s) -> wp (set_fb r fb) Q s.
Proof. intros HQ. unfold set_fb. by apply wpc_modify. Qed.

(** The fence of the framebuffer does not keep it. *)
Definition free_fb (s : compositor) (fb : DrmFramebuffer) : Prop :=
  match release_fence_fd fb with Some f => is_Some (buffer fb) -> fence_signalled s f = true | None => True end.

Lemma WaitReleased_wp r fb s (Q : Z -> compositor -> Prop) : lookup_fb r s = Some fb ->
  (forall ret w, (ret = 0 -> free_fb s fb) -> Q ret (set_rest (next_comp s) (next_buffer s) (renders s) (pre_compositor_ s) w s)) ->
  wp (WaitReleased r) Q s.
Proof.
  intros E HQ. unfold WaitReleased, free_fb in *. apply wpc_bind, (wp_the_fb _ fb); [done|].
  assert (set_rest (next_comp s) (next_buffer s) (renders s) (pre_compositor_ s) (the_world s) s = s) as Hs by (by destruct s).
  unfold is_valid. case_bool_decide as Hb; cbn [negb].
  2:{ apply wpc_ret. rewrite <- Hs. apply HQ. intros _. by destruct (release_fence_fd fb). }
  destruct (release_fence_fd fb) as [f|].
  2:{ apply wpc_ret. rewrite <- Hs. by apply HQ. }
  apply wpc_bind, wpc_ask. intros err w _. destruct (Z.eqb_spec err 0) as [-> |Hne]; cbn [negb].
  - apply wpc_bind, wpc_get. destruct (fence_signalled _ f) eqn:Ef; [|done]. apply wpc_ret, HQ. intros _ _. done.
  - apply wpc_ret, HQ. done.
Qed.

(** A framebuffer that is free has no live user. *)
Lemma free_user ready held s k fb id : fences_made -> inv ready held s -> framebuffers_ s !! k = Some fb -> free_fb s fb ->
  fb_user fb = Some id -> id ∉ live ready s.
Proof.
  intros Hm I Hk Hfree Hu Hl. destruct (inv_fenced _ _ _ I Hm id Hl k fb Hk Hu) as (Hb & f & c & Hf & Hfc & Hc & Hlt).
  unfold free_fb in Hfree. rewrite Hf in Hfree. specialize (Hfree Hb). unfold fence_signalled in Hfree.
  rewrite Hfc, Hc in Hfree. lia.
Qed.

(** The framebuffer can be given to another composition. *)
Definition unused (ready : list nat) (r : fb_ref) (fb : DrmFramebuffer) (s : compositor) : Prop :=
  forall i, r = PreFb i -> forall id, fb_user fb = Some id -> (id < next_comp s)%nat /\ id ∉ composite_queue_ s /\ (fences_made -> id ∉ live ready s).

Lemma free_unused ready held s r fb : inv ready held s -> lookup_fb r s = Some fb -> free_fb s fb -> unused ready r fb s.
Proof.
  intros I Hr Hfree i -> id Hu. destruct (inv_users _ _ _ I i fb id Hr Hu). split_and!; [done..|].
  intros Hm. by eapply free_user.
Qed.

Lemma new_buffer_wp r fb w h ready held s (Q : bool -> compositor -> Prop) : inv ready held s ->
  lookup_fb r s = Some fb -> unused ready r fb s ->
  (forall s' b, inv ready held s' -> evolves r 0 s s' -> comps s' = comps s ->
     lookup_fb r s' = Some (MkFramebuffer (Some b) None (fb_user fb)) -> Q true s') ->
  wp (new_buffer r w h) Q s.
Proof.
  intros I Hr Hu HQ. unfold new_buffer. apply wpc_bind, (wp_the_fb _ fb); [done|]. apply wpc_bind, wpc_get, wpc_bind, wpc_modify.
  apply wpc_bind, wp_set_fb, wpc_ret. eapply HQ.
  - apply inv_with_fb; [by apply inv_buffer|exact Hu].
  - eapply evolves_trans; [by apply evolves_world|apply evolves_with_fb].
  - by destruct r.
  - eapply lookup_with_fb. by destruct r.
Qed.

Lemma Clear_wp r fb ready held s (Q : unit -> compositor -> Prop) : inv ready held s ->
  lookup_fb r s = Some fb -> unused ready r fb s ->
  (forall s' b f, inv ready held s' -> evolves r 0 s s' -> comps s' = comps s ->
     lookup_fb r s' = Some (MkFramebuffer b f (fb_user fb)) -> Q tt s') ->
  wp (Clear r) Q s.
Proof.
  intros I Hr Hu HQ. unfold Clear. apply wpc_bind, (wp_the_fb _ fb); [done|]. destruct (is_valid fb).
  - apply wp_set_fb. eapply (HQ _ None None); [by apply inv_with_fb|apply evolves_with_fb|by destruct r|by eapply lookup_with_fb].
  - apply wpc_ret, (HQ s (buffer fb) (release_fence_fd fb)); [done|apply evolves_refl|done|]. rewrite Hr. by destruct fb.
Qed.

Lemma Allocate_wp r fb w h ready held s (Q : bool -> compositor -> Prop) : inv ready held s ->
  lookup_fb r s = Some fb -> unused ready r fb s -> release_fence_fd fb = None ->
  (forall s' b, inv ready held s' -> evolves r 0 s s' -> comps s' = comps s ->
     lookup_fb r s' = Some (MkFramebuffer (Some b) None (fb_user fb)) -> Q true s') ->
  wp (Allocate r w h) Q s.
Proof.
  intros I Hr Hu Hnone HQ. unfold Allocate. apply wpc_bind, (wp_the_fb _ fb); [done|].
  destruct (buffer fb) as [[[hd w0] h0]|] eqn:Eb; [|by eapply new_buffer_wp]. rewrite Hnone. destruct ((w0 =? w) && (h0 =? h)).
  - apply wpc_ret. eapply HQ; [done|apply evolves_refl|done|]. rewrite Hr. destruct fb; cbn in *. by subst.
  - apply wpc_bind. eapply Clear_wp; [done..|]. intros s1 b f I1 E1 Ec1 Hr1.
    eapply new_buffer_wp; [exact I1|exact Hr1| |].
    + intros i Hi id Hid. destruct (Hu i Hi id Hid) as (? & ? & ?). destruct E1 as [En Eq Ef Ea _ _ _ _].
      unfold live, frame_ids. by rewrite En, Eq, Ef, Ea.
    + intros s2 b2 I2 E2 Ec2 Hr2. eapply HQ; [done|by eapply evolves_trans|congruence|exact Hr2].
Qed.

Lemma in_use_live ready s id : in_use s id = true -> id ∈ live ready s.
Proof.
  unfold in_use. rewrite elem_of_live, elem_of_frame_ids. intros [Ha%bool_decide_eq_true|Hf]%orb_true_iff; [tauto|].
  apply existsb_exists in Hf as ([o x] & Hin%list_elem_of_In & Ho%bool_decide_eq_true). cbn in Ho. subst o. left. by exists x.
Qed.

Lemma note_user_wp r fb id ready held s (Q : unit -> compositor -> Prop) : inv ready held s -> id ∈ held ->
  lookup_fb r s = Some fb -> unused ready r fb s ->
  (forall s', inv ready held s' -> evolves r id s s' -> comps s' = comps s ->
     lookup_fb r s' = Some (MkFramebuffer (buffer fb) (release_fence_fd fb) (Some id)) -> Q tt s') ->
  wp (note_user r id) Q s.
Proof.
  intros I Hid Hr Hu HQ. unfold note_user. apply wpc_bind, (wp_the_fb _ fb); [done|]. apply wpc_bind, wpc_get.
  apply wpc_bind, wpc_modify, wp_set_fb. destruct (held_apart _ _ _ _ I Hid) as (Hq & Hl & Hp). apply HQ.
  - apply inv_with_fb.
    + destruct I as [Id In Ii It Ir Ic If Ib Iu Ie Ig]. constructor; try done. cbn. intros Hm b Hb. destruct r as [i|i]; [|by apply Ig].
      apply elem_of_app in Hb as [Hb|Hb%list_elem_of_singleton]; [by apply Ig|]. subst b.
      destruct (fb_user fb) as [u|] eqn:Eu; [|done]. apply not_true_iff_false. intros Huse%(in_use_live ready).
      destruct (Hu i eq_refl u Eu) as (_ & _ & Hnl). by apply Hnl.
    + intros i _ j. cbn. intros [= <-]. split_and!; [by eapply inv_in|done..].
  - eapply evolves_trans; [by apply evolves_world|apply evolves_with_fb].
  - by destruct r.
  - eapply lookup_with_fb. by destruct r.
Qed.

Lemma evolves_comps r id s s' : evolves r 0 s s' -> comps s' = comps s -> evolves r id s s'.
Proof. intros [] Hc. constructor; try done. by rewrite Hc. Qed.

Lemma evolves_live r id s s' ready : evolves r id s s' -> live ready s' = live ready s.
Proof. intros []. unfold live, frame_ids. congruence. Qed.

Lemma evolves_unused r id s s' ready fb : evolves r id s s' -> unused ready r fb s -> unused ready r fb s'.
Proof.
  intros E Hu i Hi j Hj. rewrite (evolves_live _ _ _ _ _ E). destruct E as [En Eq _ _ _ _ _ _]. rewrite En, Eq. by eapply Hu.
Qed.

(** A display and a buffer that is imported are less than 65536 pixels wide and
    high: the sizes of a mode are 16-bit numbers. *)
Definition small (z : Z) : Prop := 0 <= z < 65536.

Definition sizes_ok : Prop :=
  (forall m, small (fst (mode_size m)) /\ small (snd (mode_size m))) /\
  (forall handle w fb_id wd ht w', import_buffer handle w = (0, (fb_id, wd, ht), w') -> small wd /\ small ht).

Lemma framebuffer_layer_ok handle w h fb : small w -> small h -> layer_ok (framebuffer_layer handle w h fb).
Proof.
  intros Hw Hh. unfold small in *. unfold layer_ok, fixed_16_16, width, height. cbn. rewrite !f_of_small by lia. cbn.
  rewrite !int_checked_small by lia. split_and!; try (by eexists).
  - rewrite (proj2 (Z.leb_le _ _)), (proj2 (Z.ltb_lt _ _)) by lia. by eexists.
  - rewrite (proj2 (Z.leb_le _ _)), (proj2 (Z.ltb_lt _ _)) by lia. by eexists.
Qed.

Context (sizes : sizes_ok).

Lemma timed_layers c l : timed c -> timed (set_layers l c).
Proof. intros []. by constructor. Qed.

Lemma the_buffer_wp r fb b s (Q : Z * Z * Z -> compositor -> Prop) :
  lookup_fb r s = Some fb -> buffer fb = Some b -> Q b s -> wp (the_buffer r) Q s.
Proof. intros Hr Hb HQ. unfold the_buffer. apply wpc_bind, (wp_the_fb _ fb); [done|]. eapply (wpc_lift _ b); [by rewrite Hb|done]. Qed.

Lemma PrepareFramebuffer_wp r fb id c ready held s (Q : Z -> compositor -> Prop) : inv ready held s -> id ∈ held ->
  comps s !! id = Some c -> lookup_fb r s = Some fb ->
  (forall ret s' l, inv ready held s' -> evolves r id s s' -> Forall layer_ok l ->
     comps s' !! id = Some (set_layers (layers_ c ++ l) c) ->
     (ret = 0 -> length l = 1%nat /\ exists b, lookup_fb r s' = Some (MkFramebuffer (Some b) None (Some id))) -> Q ret s') ->
  wp (PrepareFramebuffer r id) Q s.
Proof.
  intros I Hid Hc Hr HQ. unfold PrepareFramebuffer.
  assert (set_layers (layers_ c ++ []) c = c) as Hsame by (rewrite app_nil_r; by destruct c).
  assert (forall ret s', ret <> 0 -> inv ready held s' -> evolves r id s s' -> comps s' !! id = Some c -> Q ret s') as Hearly.
  { intros ret s' Hret I' E' Hc'. apply (HQ ret s' []); [done|done|by constructor|by rewrite Hsame|done]. }
  apply wpc_bind, (WaitReleased_wp _ fb); [done|]. intros ret w Hfree.
  destruct (Z.eqb_spec ret 0) as [-> |Hne]; cbn [negb].
  2:{ apply wpc_ret, Hearly; [done|by apply inv_world|by apply evolves_world|done]. }
  specialize (Hfree eq_refl). pose proof (free_unused _ _ _ _ _ I Hr Hfree) as Hu.
  set (s1 := set_rest _ _ _ _ w s). assert (inv ready held s1) as I1 by (by apply inv_world).
  assert (evolves r id s s1) as E1 by (by apply evolves_world).
  apply wpc_bind. unfold GetActiveModeResolution. apply wpc_bind, wpc_get, wpc_ret. change (connector_ s1) with (connector_ s).
  destruct (connector_ s) as [conn|].
  2:{ cbn [negb]. apply wpc_ret. by apply Hearly. }
  destruct (proj1 sizes (active_mode conn)) as [Hwd Hht]. destruct (mode_size (active_mode conn)) as [wd ht]. cbn [fst snd] in Hwd, Hht.
  cbn [negb Z.eqb]. apply wpc_bind. unfold set_release_fence_fd. apply wpc_bind, (wp_the_fb _ fb); [by destruct r|]. apply wp_set_fb.
  set (fb1 := MkFramebuffer (buffer fb) None (fb_user fb)). set (s2 := with_fb r fb1 s1).
  assert (inv ready held s2) as I2 by (by apply inv_with_fb).
  assert (evolves r id s s2) as E2 by (eapply evolves_trans; [exact E1|apply evolves_with_fb]).
  apply wpc_bind, (Allocate_wp _ fb1 _ _ ready held); [done|eapply lookup_with_fb; by destruct r|by eapply evolves_unused|done|].
  intros s3 b I3 E3 Hc3 Hr3. cbn [negb]. apply wpc_bind. eapply note_user_wp; [exact I3|exact Hid|exact Hr3| |].
  { eapply evolves_unused; [eapply evolves_trans; [exact E2|by apply evolves_comps]|exact Hu]. }
  intros s4 I4 E4 Hc4 Hr4. cbn [buffer release_fence_fd] in Hr4. apply wpc_bind, (the_buffer_wp _ _ b _ _ Hr4 eq_refl). destruct b as [[hd bw] bh].
  apply wpc_bind, wpc_ask. intros [ret [[fbid iw] ih]] w' _. set (s5 := set_rest _ _ _ _ w' s4).
  assert (comps s5 !! id = Some c) as Hc5 by (change (comps s5) with (comps s4); rewrite Hc4, Hc3; by destruct r).
  apply wpc_bind, (wp_the_comp _ c); [done|]. apply wpc_bind, wp_set_comp, wpc_ret.
  destruct (inv_timed _ _ _ I _ _ Hc) as [Ht Hmax]. eapply (HQ _ _ [framebuffer_layer hd wd ht (if ret =? 0 then Some fbid else None)]).
  - apply inv_set_held; [by apply inv_world|done|by apply timed_layers|exact Hmax].
  - eapply evolves_trans; [exact E2|]. eapply evolves_trans; [by apply evolves_comps|]. eapply evolves_trans; [exact E4|].
    eapply evolves_trans; [by apply (evolves_world r id (next_comp s4) (next_buffer s4) (renders s4) (pre_compositor_ s4) w' s4)|apply evolves_set_comp].
  - constructor; [by apply framebuffer_layer_ok|done].
  - cbn. by rewrite lookup_insert_eq.
  - intros _. split; [done|]. exists (hd, bw, bh). destruct r; exact Hr4.
Qed.

End Framebuffers.

(** ** PrepareFrame *)

(** A composition that has got layers and fences on the way. *)
Record grown (n : Z) (l : list DrmHwcLayer) (c c' : DrmDisplayComposition) : Prop := {
  gr_planes : composition_planes_ c' = composition_planes_ c;
  gr_squash : squash_regions_ c' = squash_regions_ c;
  gr_pre_comp : pre_comp_regions_ c' = pre_comp_regions_ c;
  gr_type : type_ c' = type_ c;
  gr_crtc : crtc_ c' = crtc_ c;
  gr_fd : timeline_fd_ c' = timeline_fd_ c;
  gr_geometry : geometry_changed_ c' = geometry_changed_ c;
  gr_layers : layers_ c' = layers_ c ++ l;
  gr_time : timeline_ c <= timeline_ c' <= timeline_ c + n
}.

Lemma grown_refl c : grown 0 [] c c.
Proof. constructor; [done..|by rewrite app_nil_r|lia]. Qed.

Lemma grown_trans n1 n2 l1 l2 c1 c2 c3 : grown n1 l1 c1 c2 -> grown n2 l2 c2 c3 -> grown (n1 + n2) (l1 ++ l2) c1 c3.
Proof.
  intros [? ? ? ? ? ? ? Hl1 ?] [? ? ? ? ? ? ? Hl2 ?]. constructor; try congruence; [|lia]. by rewrite Hl2, Hl1, app_assoc.
Qed.

Lemma grown_weaken n1 n2 l c c' : n1 <= n2 -> grown n1 l c c' -> grown n2 l c c'.
Proof. intros ? []. constructor; try done. lia. Qed.

(** No framebuffer was rendered for the composition yet. *)
Definition users_fresh `{SyncLib} `{DrmLib} (id : nat) (s : compositor) : Prop :=
  forall k fb, framebuffers_ s !! k = Some fb -> fb_user fb <> Some id.

Section Prepare.
Context `{SyncLib} `{DrmLib}.
Context (sizes : sizes_ok).

(** The framebuffer is released by the composition, later. *)
Definition waits (r : fb_ref) (id : nat) (s : compositor) : Prop :=
  exists b u f c, lookup_fb r s = Some (MkFramebuffer (Some b) (Some f) u) /\ fence_comp f = id /\
    comps s !! id = Some c /\ timeline_current_ c < fence_point f.

Lemma timed_next c : timed c -> 0 <= timeline_fd_ c -> timed (set_timeline (timeline_ c + 1) c).
Proof. intros [] ?. constructor; cbn; lia. Qed.

Lemma next_release_fence_wp r id c b f u ready held s (Q : Z -> compositor -> Prop) : inv ready held s -> id ∈ held ->
  comps s !! id = Some c -> 0 <= timeline_fd_ c -> timeline_ c <= max_timeline + 1 ->
  lookup_fb r s = Some (MkFramebuffer (Some b) f u) -> (forall i, r = PreFb i -> u = Some id) ->
  (forall ret s', inv ready held s' -> evolves r id s s' -> comps s' !! id = Some (set_timeline (timeline_ c + 1) c) -> (fences_made -> ret <> 0) ->
     (0 < ret -> lookup_fb r s' = Some (MkFramebuffer (Some b) (Some (MkFbFence ret id (timeline_ c + 1))) u)) -> Q ret s') ->
  wp (next_release_fence r id) Q s.
Proof.
  intros I Hid Hc Hfd Hmax Hr Hu HQ. destruct (inv_timed _ _ _ I _ _ Hc) as [Ht _]. unfold next_release_fence.
  apply wpc_bind. eapply wp_on_comp; [exact Hc|apply next_fence_Done; [done|lia]|]. set (ret := sw_sync_fence_create _).
  set (c' := set_timeline (timeline_ c + 1) c). set (s1 := on_comps (insert id c') s).
  assert (inv ready held s1) as I1 by (apply inv_set_held; [done|done|by apply timed_next|cbn; lia]).
  assert (comps s1 !! id = Some c') as Hc1 by (cbn; by rewrite lookup_insert_eq).
  destruct (Z.leb_spec ret 0).
  - apply wpc_ret, HQ; [done|apply evolves_set_comp|done|intros Hm; apply Hm|lia].
  - apply wpc_bind, (wp_the_comp _ c'); [done|]. apply wpc_bind. unfold set_release_fence_fd.
    apply wpc_bind, (wp_the_fb _ (MkFramebuffer (Some b) f u)); [by destruct r|]. apply wp_set_fb, wpc_ret, HQ.
    + apply inv_with_fb; [done|]. intros i Hi j. cbn. rewrite (Hu i Hi). intros [= <-].
      destruct (held_apart _ _ _ _ I1 Hid) as (? & ? & ?). split_and!; [by eapply inv_in|done..].
    + eapply evolves_trans; [apply evolves_set_comp|apply evolves_with_fb].
    + by destruct r.
    + intros Hm. apply Hm.
    + intros _. eapply lookup_with_fb. destruct r; exact Hr.
Qed.

Lemma apply_regions_wp r regions signal id c fb ready held s (Q : Z -> compositor -> Prop) : inv ready held s -> id ∈ held ->
  comps s !! id = Some c -> 0 <= timeline_fd_ c -> timeline_ c <= max_timeline + 1 -> lookup_fb r s = Some fb ->
  (forall d, timed d -> timeline_ d <= max_timeline + 2 ->
     exists ret t, signal d = Done (ret, at_time t d) /\ timeline_current_ d <= t <= Z.max (timeline_current_ d) (timeline_pre_comp_done_ d)) ->
  (forall ret s' l c', inv ready held s' -> evolves r id s s' -> Forall layer_ok l -> comps s' !! id = Some c' -> grown 1 l c c' ->
     (ret = 0 -> length l = 1%nat /\ (fences_made -> waits r id s')) -> Q ret s') ->
  wp (apply_regions r regions signal id) Q s.
Proof.
  intros I Hid Hc Hfd Hmax Hr Hsig HQ. unfold apply_regions. apply wpc_bind. eapply PrepareFramebuffer_wp; [done..|].
  intros ret s1 l I1 E1 Hl Hc1 Hret. set (c1 := set_layers _ c) in Hc1.
  assert (grown 1 l c c1) as G1 by (constructor; cbn; done || lia).
  destruct (Z.eqb_spec ret 0) as [-> |Hne]; cbn [negb]; [|by apply wpc_ret, (HQ ret s1 l c1)].
  destruct (Hret eq_refl) as (Hlen & b & Hr1). apply wpc_bind, (wp_the_comp _ c1); [done|].
  apply wpc_bind, (the_buffer_wp _ _ b _ _ Hr1 eq_refl). destruct b as [[hd bw] bh]. apply wpc_bind, wpc_ask. intros ret w _.
  set (s2 := set_rest _ _ _ _ w s1). assert (inv ready held s2) as I2 by (by apply inv_world).
  assert (evolves r id s s2) as E2 by (eapply evolves_trans; [exact E1|by apply evolves_world]).
  destruct (Z.eqb_spec ret 0) as [-> |Hne]; cbn [negb]; [|by apply wpc_ret, (HQ ret s2 l c1)].
  apply wpc_bind. eapply (next_release_fence_wp r id c1); [exact I2|done|done|done|done|destruct r; exact Hr1|done|].
  intros ret s3 I3 E3 Hc3 Hne Hr3. set (c3 := set_timeline _ c1) in Hc3.
  assert (grown 1 l c c3) as G3 by (constructor; cbn; done || lia).
  assert (evolves r id s s3) as E4 by (by eapply evolves_trans).
  destruct (Z.leb_spec ret 0).
  { apply wpc_ret, (HQ ret s3 l c3); [done..|]. intros Hz. split; [done|]. intros Hm. by destruct (Hne Hm). }
  specialize (Hr3 ltac:(lia)). destruct (inv_timed _ _ _ I3 _ _ Hc3) as [Ht3 Hm3]. destruct (Hsig c3 Ht3 Hm3) as (rs & t & Et & Ht).
  pose proof (timed_pre _ Ht3). pose proof (timed_current _ Ht3).
  apply wpc_bind. eapply wp_on_comp; [exact Hc3|exact Et|]. apply wpc_ret, (HQ 0 _ l (at_time t c3)); [| |done| | |].
  - apply inv_set_held; [done|done|apply timed_at_time; [done|lia]|exact Hm3].
  - eapply evolves_trans; [exact E4|apply evolves_set_comp].
  - cbn. by rewrite lookup_insert_eq.
  - destruct G3. by constructor.
  - intros _. split; [done|]. intros _. eexists _, _, _, (at_time t c3). split_and!; [destruct r; exact Hr3|done|cbn; by rewrite lookup_insert_eq|].
    cbn in *. destruct (inv_timed _ _ _ I _ _ Hc) as [[? ? ?] _]. lia.
Qed.

Lemma ApplyPreComposite_wp id c ready held s (Q : Z -> compositor -> Prop) : inv ready held s -> id ∈ held ->
  comps s !! id = Some c -> 0 <= timeline_fd_ c -> timeline_ c <= max_timeline + 1 ->
  (forall ret s' l c', inv ready held s' -> evolves (PreFb (framebuffer_index_ s)) id s s' -> Forall layer_ok l ->
     comps s' !! id = Some c' -> grown 1 l c c' -> (ret = 0 -> length l = 1%nat /\ (fences_made -> waits (PreFb (framebuffer_index_ s)) id s')) -> Q ret s') ->
  wp (ApplyPreComposite id) Q s.
Proof.
  intros I Hid Hc Hfd Hmax HQ. unfold ApplyPreComposite. apply wpc_bind, wpc_get.
  destruct (lookup_lt_is_Some_2 (framebuffers_ s) (framebuffer_index_ s)) as [fb Hfb].
  { destruct (inv_fbs _ _ _ I) as (-> & ? & _). done. }
  eapply (apply_regions_wp (PreFb _)); [done..|exact Hfb| |done].
  intros d Ht Hd. pose proof Ht as [? ? ? ?]. destruct (increase_Done (timeline_pre_comp_done_ d) d Ht Hd) as (ret & t & E & Hb & _); [lia|].
  exists ret, t. split; [exact E|lia].
Qed.

Lemma ApplySquash_wp id c ready held s (Q : Z -> compositor -> Prop) : inv ready held s -> id ∈ held ->
  comps s !! id = Some c -> 0 <= timeline_fd_ c -> timeline_ c <= max_timeline + 1 ->
  (forall ret s' l c', inv ready held s' -> evolves (SquashFb (squash_framebuffer_index_ s)) id s s' -> Forall layer_ok l ->
     comps s' !! id = Some c' -> grown 1 l c c' -> (ret = 0 -> length l = 1%nat) -> Q ret s') ->
  wp (ApplySquash id) Q s.
Proof.
  intros I Hid Hc Hfd Hmax HQ. unfold ApplySquash. apply wpc_bind, wpc_get.
  destruct (lookup_lt_is_Some_2 (squash_framebuffers_ s) (squash_framebuffer_index_ s)) as [fb Hfb].
  { destruct (inv_fbs _ _ _ I) as (_ & _ & -> & ?). done. }
  eapply (apply_regions_wp (SquashFb _)); [done..|exact Hfb| |].
  - intros d Ht Hd. pose proof Ht as [? ? ? ?]. destruct (increase_Done (timeline_squash_done_ d) d Ht Hd) as (ret & t & E & Hb & _); [lia|].
    exists ret, t. split; [exact E|lia].
  - intros ret s' l c' ? ? ? ? ? Hret. apply (HQ ret s' l c'); [done..|]. intros ?. by apply Hret.
Qed.

(** What preparing a frame leaves alone. *)
Record prepared (id : nat) (s s' : compositor) : Prop := {
  pr_next : next_comp s' = next_comp s;
  pr_queue : composite_queue_ s' = composite_queue_ s;
  pr_frames : frame_queue_ s' = frame_queue_ s;
  pr_active : active_composition_ s' = active_composition_ s;
  pr_comps : forall j, j <> id -> comps s' !! j = comps s !! j
}.

Lemma prepared_trans id s1 s2 s3 : prepared id s1 s2 -> prepared id s2 s3 -> prepared id s1 s3.
Proof. intros [? ? ? ? Hc1] [? ? ? ? Hc2]. constructor; try congruence. intros j Hj. by rewrite Hc2, Hc1. Qed.

Lemma prepared_refl id s : prepared id s s.
Proof. by constructor. Qed.

Lemma evolves_prepared r id s s' : evolves r id s s' -> prepared id s s'.
Proof. intros []. by constructor. Qed.

Lemma inv_index ready held s i j : inv ready held s -> (i < 3)%nat -> (j < 2)%nat ->
  inv ready held (set_framebuffers i (framebuffers_ s) j (squash_framebuffers_ s) s).
Proof. intros [Id In Ii It Ir Ic If Ib Iu Ie Ig] ? ?. constructor; try done. by destruct Ib as (? & ? & ? & ?). Qed.

(** The framebuffer of the squash, when a plane shows it and it is not rendered into. *)
Definition reuse_ok (s : compositor) (c : DrmDisplayComposition) : Prop :=
  squash_regions_ c = [] -> UsesSquash (composition_planes_ c) = true ->
  exists b f u, lookup_fb (SquashFb (squash_framebuffer_index_ s)) s = Some (MkFramebuffer (Some b) f u).

(** It has no buffer, and a plane shows it again. *)
Definition squash_missing (s : compositor) (c : DrmDisplayComposition) : bool :=
  match squash_regions_ c with
  | [] => UsesSquash (composition_planes_ c) &&
          match squash_framebuffers_ s !! squash_framebuffer_index_ s with Some fb => negb (is_valid fb) | None => true end
  | _ => false
  end.

Lemma squash_there s c : squash_missing s c = false -> reuse_ok s c.
Proof.
  unfold squash_missing, reuse_ok, is_valid. intros Hm Hs Hu. rewrite Hs, Hu in Hm. cbn in *.
  destruct (squash_framebuffers_ s !! _) as [[[b|] f u]|]; [by exists b, f, u|done|done].
Qed.

Lemma squash_missing_faults s id c : comps s !! id = Some c -> squash_missing s c = true -> PrepareFrame id s = Fault.
Proof.
  unfold squash_missing, PrepareFrame, prepare_squash, reuse_squash, the_comp, the_buffer, the_fb, mbind, C_bind, get, lift.
  intros Hc Hm. cbn. rewrite Hc. cbn. destruct (squash_regions_ c); [|done]. apply andb_true_iff in Hm as [-> Hm]. cbn.
  destruct (squash_framebuffers_ s !! _) as [[[b|] f u]|]; done.
Qed.

Lemma blank_layer_ok handle : layer_ok (MkLayer handle false DRM_FORMAT_OTHER 0 kNone float_zero float_zero float_zero float_zero no_rect false 255 (-1) None).
Proof. unfold layer_ok. cbn. split_and!; by eexists. Qed.

Lemma reuse_squash_wp id c ready held s (Q : Z -> compositor -> Prop) : inv ready held s -> id ∈ held ->
  comps s !! id = Some c -> 0 <= timeline_fd_ c -> timeline_ c <= max_timeline + 1 ->
  squash_regions_ c = [] -> UsesSquash (composition_planes_ c) = true -> reuse_ok s c ->
  (forall ret s' l c', inv ready held s' -> evolves (SquashFb (squash_framebuffer_index_ s)) id s s' -> Forall layer_ok l ->
     comps s' !! id = Some c' -> grown 1 l c c' -> length l = 1%nat -> Q ret s') ->
  wp (reuse_squash id) Q s.
Proof.
  intros I Hid Hc Hfd Hmax Hreg Huse Hre HQ. destruct (Hre Hreg Huse) as (b & f & u & Hfb). unfold reuse_squash.
  destruct (inv_timed _ _ _ I _ _ Hc) as [Ht _]. apply wpc_bind, wpc_get. set (r := SquashFb _) in *.
  apply wpc_bind, (the_buffer_wp _ _ b _ _ Hfb eq_refl). destruct b as [[hd bw] bh]. apply wpc_bind, wpc_ask. intros [ret [[fbid w] h]] wd Himp.
  set (s1 := set_rest _ _ _ _ wd s). apply wpc_bind, (wp_the_comp _ c); [done|].
  assert (forall l, inv ready held (on_comps (insert id (set_layers l c)) s1)) as I2.
  { intros l. apply inv_set_held; [by apply inv_world|done|by apply timed_layers|cbn; lia]. }
  assert (forall l, evolves r id s (on_comps (insert id (set_layers l c)) s1)) as E2.
  { intros l. eapply evolves_trans; [by apply evolves_world|apply evolves_set_comp]. }
  destruct (Z.eqb_spec ret 0) as [-> |Hne]; cbn [negb].
  - destruct (proj2 sizes _ _ _ _ _ _ Himp) as [Hw Hh]. apply wpc_bind, wp_set_comp, wpc_bind. set (l := framebuffer_layer hd w h (Some fbid)). set (c2 := set_layers _ c).
    assert (comps (on_comps (insert id c2) s1) !! id = Some c2) as Hc2 by (cbn; by rewrite lookup_insert_eq).
    eapply (next_release_fence_wp r id c2); [apply I2|done|exact Hc2|done|done|exact Hfb|done|].
    intros ret s3 I3 E3 Hc3 Hne _. apply wpc_ret, (HQ _ s3 [l] (set_timeline (timeline_ c2 + 1) c2)); [done| |by constructor; [apply framebuffer_layer_ok|]|done| |done].
    + eapply evolves_trans; [apply E2|exact E3].
    + constructor; cbn; done || lia.
  - apply wpc_bind, wp_set_comp, wpc_ret. eapply (HQ _ _ [_]); [apply I2|apply E2| |cbn; by rewrite lookup_insert_eq| |done].
    + constructor; [apply blank_layer_ok|done].
    + constructor; cbn; done || lia.
Qed.

Lemma wp_last_layer id c s (Q : nat -> compositor -> Prop) : comps s !! id = Some c -> Q (length (layers_ c) - 1)%nat s -> wp (last_layer id) Q s.
Proof. intros Hc HQ. unfold last_layer. by apply wpc_bind, (wp_the_comp _ c), wpc_ret. Qed.

Lemma prepare_squash_wp id c ready held s (Q : Z * option nat -> compositor -> Prop) : inv ready held s -> id ∈ held ->
  comps s !! id = Some c -> 0 <= timeline_fd_ c -> timeline_ c <= max_timeline -> reuse_ok s c ->
  (forall ret o s' l c', inv ready held s' -> prepared id s s' -> (forall k, framebuffers_ s' !! k = framebuffers_ s !! k) ->
     Forall layer_ok l -> comps s' !! id = Some c' -> grown 1 l c c' ->
     (ret = 0 -> (UsesSquash (composition_planes_ c) = true -> is_Some o) /\ forall i, o = Some i -> (i < length (layers_ c'))%nat) ->
     Q (ret, o) s') ->
  wp (prepare_squash id) Q s.
Proof.
  intros I Hid Hc Hfd Hmax Hre HQ. unfold prepare_squash. apply wpc_bind, (wp_the_comp _ c); [done|].
  assert (forall ret s' l c', grown 1 l c c' -> (ret = 0 -> length l = 1%nat) -> comps s' !! id = Some c' ->
    (forall o, (ret = 0 -> is_Some o /\ forall i, o = Some i -> (i < length (layers_ c'))%nat) -> Q (ret, o) s') ->
    wp (i ← last_layer id; mret (ret, Some i)) Q s') as Hlast.
  { intros ret s' l c' G Hlen Hc' HQ'. apply wpc_bind, (wp_last_layer _ c'); [done|]. apply wpc_ret, HQ'. intros Hret.
    split; [done|]. intros i [= <-]. rewrite (gr_layers _ _ _ _ G), length_app, (Hlen Hret). lia. }
  destruct (squash_regions_ c) as [|g regions] eqn:Ereg.
  - destruct (UsesSquash (composition_planes_ c)) eqn:Euse.
    + apply wpc_bind. eapply reuse_squash_wp; [done..|lia|exact Ereg|done|done|]. intros ret s' l c' I' E' Hl Hc' G Hlen.
      eapply Hlast; [exact G|by intros _|exact Hc'|]. intros o Ho. eapply HQ; [exact I'|by eapply evolves_prepared| |exact Hl|exact Hc'|exact G|].
      * intros k. by apply (ev_fbs _ _ _ _ E' (PreFb k)).
      * intros Hret. destruct (Ho Hret). done.
    + apply wpc_ret. eapply (HQ 0 None s [] c); [done|apply prepared_refl|done|by constructor|done|eapply grown_weaken; [|apply grown_refl]; lia|done].
  - apply wpc_bind. unfold next_squash_framebuffer. apply wpc_modify. set (s1 := set_framebuffers _ _ _ _ s).
    assert (inv ready held s1) as I1.
    { apply inv_index; [done|by destruct (inv_fbs _ _ _ I) as (_ & ? & _)|]. apply Nat.mod_upper_bound. lia. }
    apply wpc_bind. eapply ApplySquash_wp; [exact I1|done|exact Hc|done|lia|]. intros ret s' l c' I' E' Hl Hc' G Hlen.
    eapply Hlast; [exact G|exact Hlen|exact Hc'|]. intros o Ho. eapply HQ; [exact I'| | |exact Hl|exact Hc'|exact G|].
    + apply evolves_prepared in E'. by destruct E'; constructor.
    + intros k. by apply (ev_fbs _ _ _ _ E' (PreFb k)).
    + intros Hret. destruct (Ho Hret). done.
Qed.

Lemma fenced_after id s s' : users_fresh id s -> waits (PreFb (framebuffer_index_ s)) id s' ->
  evolves (PreFb (framebuffer_index_ s)) id s s' -> fenced s' id.
Proof.
  intros Hfresh (b & u & f & c & Hfb & Hfc & Hc & Hlt) E k fb Hk Hu. destruct (decide (k = framebuffer_index_ s)) as [-> |Hne].
  - cbn in Hfb. rewrite Hfb in Hk. injection Hk as <-. split; [done|]. by exists f, c.
  - destruct (Hfresh k fb); [|done]. rewrite <- Hk. symmetry. apply (ev_fbs _ _ _ _ E (PreFb k)). congruence.
Qed.

Lemma prepare_pre_comp_wp id c ready held s (Q : Z * option nat -> compositor -> Prop) : inv ready held s -> id ∈ held ->
  comps s !! id = Some c -> 0 <= timeline_fd_ c -> timeline_ c <= max_timeline + 1 -> users_fresh id s ->
  (forall ret o s' l c', inv ready held s' -> prepared id s s' -> Forall layer_ok l -> comps s' !! id = Some c' -> grown 1 l c c' ->
     (ret = 0 -> (fences_made -> fenced s' id) /\ forall i, o = Some i -> (i < length (layers_ c'))%nat) -> Q (ret, o) s') ->
  wp (prepare_pre_comp id) Q s.
Proof.
  intros I Hid Hc Hfd Hmax Hfresh HQ. unfold prepare_pre_comp. apply wpc_bind, (wp_the_comp _ c); [done|].
  destruct (pre_comp_regions_ c) as [|g regions].
  - apply wpc_ret. eapply (HQ 0 None s [] c); [done|apply prepared_refl|by constructor|done|eapply grown_weaken; [|apply grown_refl]; lia|].
    intros _. split; [|done]. intros _ k fb Hk Hu. by destruct (Hfresh k fb).
  - apply wpc_bind. eapply ApplyPreComposite_wp; [done..|]. intros ret s' l c' I' E' Hl Hc' G Hret.
    pose proof (evolves_prepared _ _ _ _ E') as P.
    destruct (Z.eqb_spec ret 0) as [-> |Hne]; cbn [negb]; [|by apply wpc_ret, (HQ ret None s' l c')].
    destruct (Hret eq_refl) as [Hlen Hw]. apply wpc_bind, (wp_last_layer _ c'); [done|].
    apply wpc_bind. unfold next_framebuffer. apply wpc_modify, wpc_ret. eapply HQ; [|by destruct P; constructor|exact Hl|exact Hc'|exact G|].
    + apply inv_index; [done|apply Nat.mod_upper_bound; done|by destruct (inv_fbs _ _ _ I') as (_ & _ & _ & ?)].
    + intros _. split; [intros Hm; exact (fenced_after id s s' Hfresh (Hw Hm) E')|]. intros i [= <-].
      rewrite (gr_layers _ _ _ _ G), length_app, Hlen. lia.
Qed.

Lemma prepare_planes_Done n m sq pre planes : (n <= m)%nat -> Forall (queued_plane n) planes ->
  (UsesSquash planes = true -> is_Some sq) -> (forall i, sq = Some i -> (i < m)%nat) -> (forall i, pre = Some i -> (i < m)%nat) ->
  exists ret planes', prepare_planes sq pre planes = Done (ret, planes') /\ (ret = 0 -> Forall (shown_plane m) planes').
Proof.
  intros Hnm Hall Huse Hsq Hpre. induction Hall as [|p planes [Hp Hsh] Hall IH]; [by exists 0, []|].
  cbn in Huse. assert (UsesSquash planes = true -> is_Some sq) as Huse'.
  { intros Hu. apply Huse, orb_true_iff. by right. }
  destruct (IH Huse') as (ret & planes' & E & Hok). cbn [prepare_planes]. rewrite E. unfold shown_plane in *.
  destruct (comp_type p) eqn:Ep.
  - exists ret, (p :: planes'). split; [done|]. intros Hret. constructor; [|by apply Hok]. split; [done|left]. by rewrite Ep.
  - exists ret, (p :: planes'). split; [done|]. intros Hret. constructor; [|by apply Hok]. split; [done|right].
    destruct Hsh as (i & ? & ?). exists i. split; [done|lia].
  - destruct pre as [i|]; [|by exists (- EINVAL), (p :: planes)]. eexists ret, _. split; [done|]. intros Hret.
    constructor; [|by apply Hok]. cbn. split; [done|right]. exists i. split; [done|by apply Hpre].
  - destruct Huse as [i ->]; [by rewrite bool_decide_true by done|]. cbn. eexists ret, _. split; [done|]. intros Hret.
    constructor; [|by apply Hok]. cbn. rewrite Hsh. split; [done|right]. exists i. split; [done|by apply Hsq].
Qed.

Lemma timed_planes c l : timed c -> timed (set_planes l c).
Proof. intros []. by constructor. Qed.

Lemma PrepareFrame_wp id c ready held s (Q : Z -> compositor -> Prop) : inv ready held s -> id ∈ held ->
  comps s !! id = Some c -> queued_ok c -> reuse_ok s c -> users_fresh id s ->
  (forall ret s' c', inv ready held s' -> prepared id s s' -> comps s' !! id = Some c' ->
     type_ c' = type_ c -> crtc_ c' = crtc_ c -> geometry_changed_ c' = geometry_changed_ c -> timeline_fd_ c' = timeline_fd_ c ->
     (ret = 0 -> live_ok c' /\ (fences_made -> fenced s' id)) -> Q ret s') ->
  wp (PrepareFrame id) Q s.
Proof.
  intros I Hid Hc [Hpl Hly Hmax Hfd] Hre Hfresh HQ. unfold PrepareFrame. apply wpc_bind. eapply prepare_squash_wp; [done..|].
  intros ret o s1 l1 c1 I1 P1 Hfb1 Hl1 Hc1 G1 Ho. pose proof (gr_fd _ _ _ _ G1) as Hfd1.
  destruct (Z.eqb_spec ret 0) as [-> |Hne]; cbn [negb]; [|by apply wpc_ret, (HQ ret s1 c1); [done..|apply G1|apply G1|apply G1|done|]].
  destruct (Ho eq_refl) as [Huse Hsq]. apply wpc_bind. eapply prepare_pre_comp_wp; [exact I1|done|exact Hc1|lia| | |].
  { pose proof (gr_time _ _ _ _ G1). lia. }
  { intros k fb. rewrite Hfb1. apply Hfresh. }
  intros ret o2 s2 l2 c2 I2 P2 Hl2 Hc2 G2 Ho2. pose proof (grown_trans _ _ _ _ _ _ _ G1 G2) as G.
  pose proof (prepared_trans _ _ _ _ P1 P2) as P. pose proof (gr_fd _ _ _ _ G) as Hfd2.
  destruct (Z.eqb_spec ret 0) as [-> |Hne]; cbn [negb]; [|by apply wpc_ret, (HQ ret s2 c2); [done..|apply G|apply G|apply G|done|]].
  destruct (Ho2 eq_refl) as [Hf Hpre]. apply wpc_bind, (wp_the_comp _ c2); [done|]. rewrite (gr_planes _ _ _ _ G).
  destruct (prepare_planes_Done (length (layers_ c)) (length (layers_ c2)) o o2 (composition_planes_ c)) as (ret & planes & E & Hsh); [|done..| |done|].
  { rewrite (gr_layers _ _ _ _ G), length_app. lia. }
  { intros i Hi%Hsq. rewrite (gr_layers _ _ _ _ G2), length_app. lia. }
  apply wpc_bind, (wpc_lift _ (ret, planes)); [done|]. apply wpc_bind, wp_set_comp, wpc_ret.
  destruct (inv_timed _ _ _ I2 _ _ Hc2) as [Ht2 Hm2]. eapply (HQ ret _ (set_planes planes c2)); [| | |apply G|apply G|apply G|apply G|].
  - apply inv_set_held; [done|done|by apply timed_planes|exact Hm2].
  - eapply prepared_trans; [exact P|]. eapply (evolves_prepared (PreFb 0)), evolves_set_comp.
  - cbn. by rewrite lookup_insert_eq.
  - intros Hret. split.
    + constructor; cbn; [by apply Hsh| |exact Hm2]. rewrite (gr_layers _ _ _ _ G), !Forall_app. done.
    + intros Hm k fb Hk Hu. destruct (Hf Hm k fb Hk Hu) as (Hb & f & d & Hff & Hfc & Hd & Hlt). split; [done|].
      exists f, (set_planes planes c2). rewrite Hc2 in Hd. injection Hd as <-. split_and!; [done..|cbn; by rewrite lookup_insert_eq|done].
Qed.

End Prepare.

(** ** CommitFrame *)

Section Commit.
Context `{SyncLib} `{DrmLib}.

(** Nothing but the world. *)
Definition only_world (s s' : compositor) : Prop :=
  exists w, s' = set_rest (next_comp s) (next_buffer s) (renders s) (pre_compositor_ s) w s.

Lemma only_world_refl s : only_world s s.
Proof. exists (the_world s). by destruct s. Qed.

Lemma only_world_trans s1 s2 s3 : only_world s1 s2 -> only_world s2 s3 -> only_world s1 s3.
Proof. intros [w1 ->] [w2 ->]. by exists w2. Qed.

Lemma only_world_ask s w : only_world s (set_rest (next_comp s) (next_buffer s) (renders s) (pre_compositor_ s) w s).
Proof. by exists w. Qed.

Lemma inv_only_world ready held s s' : only_world s s' -> inv ready held s -> inv ready held s'.
Proof. intros [w ->]. apply inv_world. Qed.

Lemma add_all_wp l : forall pset s (Q : bool * list (Z * Z * Z) -> compositor -> Prop),
  (forall r s', only_world s s' -> Q r s') -> wp (add_all l pset) Q s.
Proof.
  induction l as [|[[o p] v] l IH]; intros pset s Q HQ; [by apply wpc_ret, HQ, only_world_refl|].
  cbn [add_all]. apply wpc_bind, wpc_ask. intros ret w _. apply wpc_bind, IH. intros [f ps] s' Hs'. apply wpc_ret, HQ.
  eapply only_world_trans; [apply only_world_ask|exact Hs'].
Qed.

Lemma add_until_wp l : forall pset s (Q : bool * list (Z * Z * Z) -> compositor -> Prop),
  (forall r s', only_world s s' -> Q r s') -> wp (add_until l pset) Q s.
Proof.
  induction l as [|[[o p] v] l IH]; intros pset s Q HQ; [by apply wpc_ret, HQ, only_world_refl|].
  cbn [add_until]. apply wpc_bind, wpc_ask. intros ret w _. destruct (ret <? 0); [apply wpc_ret, HQ, only_world_ask|].
  apply IH. intros r s' Hs'. apply HQ. eapply only_world_trans; [apply only_world_ask|exact Hs'].
Qed.

Lemma commit_disable_wp p pset s (Q : option Z * list (Z * Z * Z) -> compositor -> Prop) :
  (forall r s', only_world s s' -> Q r s') -> wp (commit_disable p pset) Q s.
Proof. intros HQ. unfold commit_disable. apply wpc_bind, add_until_wp. intros [f ps] s' Hs'. by apply wpc_ret, HQ. Qed.

Lemma commit_optional_wp p prop v pset s (Q : option Z * list (Z * Z * Z) -> compositor -> Prop) :
  (forall r s', only_world s s' -> Q r s') -> wp (commit_optional p prop v pset) Q s.
Proof.
  intros HQ. unfold commit_optional. case_match; [by apply wpc_ret, HQ, only_world_refl|].
  apply wpc_bind, add_until_wp. intros [f ps] s' Hs'. by apply wpc_ret, HQ.
Qed.

Lemma layer_props_Done p crtc fb l : layer_ok l -> exists props, layer_props p crtc fb l = Done props.
Proof.
  intros ((w & Hw) & (h & Hh) & (x & Hx) & (y & Hy) & (sw & Hsw) & (sh & Hsh)). unfold layer_props.
  rewrite Hw, Hh, Hx, Hy, Hsw, Hsh. by eexists.
Qed.

Lemma commit_layer_wp p crtc fb l pset s (Q : option Z * list (Z * Z * Z) -> compositor -> Prop) : layer_ok l ->
  (forall r s', only_world s s' -> Q r s') -> wp (commit_layer p crtc fb l pset) Q s.
Proof.
  intros Hl HQ. unfold commit_layer. case_match; [by apply commit_disable_wp|].
  case_match; [apply wpc_ret, HQ, only_world_refl|]. case_match; [apply wpc_ret, HQ, only_world_refl|].
  destruct (layer_props_Done p crtc fb l Hl) as [props E]. apply wpc_bind, (wpc_lift _ props); [done|].
  apply wpc_bind, add_all_wp. intros [[] ps] s1 W1; [by apply wpc_ret, HQ|].
  apply wpc_bind, commit_optional_wp. intros [[v|] ps2] s2 W2; [apply wpc_ret, HQ; by eapply only_world_trans|].
  apply commit_optional_wp. intros r s3 W3. apply HQ. eapply only_world_trans; [|exact W3]. by eapply only_world_trans.
Qed.

Lemma acquire_wait_wp tries : forall timeout fence s (Q : Z -> compositor -> Prop),
  (forall r s', only_world s s' -> Q r s') -> wp (acquire_wait tries timeout fence) Q s.
Proof.
  induction tries as [|[|tries] IH]; intros timeout fence s Q HQ; [apply wpc_ret, HQ, only_world_refl| |].
  - cbn. apply wpc_bind, wpc_ask. intros ret w _. apply wpc_ret, HQ, only_world_ask.
  - cbn [acquire_wait]. apply wpc_bind, wpc_ask. intros ret w _. destruct (ret =? 0); [apply wpc_ret, HQ, only_world_ask|].
    apply IH. intros r s' Hs'. apply HQ. eapply only_world_trans; [apply only_world_ask|exact Hs'].
Qed.

(** The layers are the same buffers. *)
Definition same_buffers (l l' : list DrmHwcLayer) : Prop := sf_handle <$> l = sf_handle <$> l'.

Lemma same_buffers_length l l' : same_buffers l l' -> length l = length l'.
Proof. intros E. by rewrite <- (length_fmap sf_handle l), E, length_fmap. Qed.

(** A frame that is being committed: its acquire fences are closed. *)
Record committing (id : nat) (c : DrmDisplayComposition) (s s' : compositor) : Prop := {
  cm_prepared : prepared id s s';
  cm_fbs : framebuffers_ s' = framebuffers_ s;
  cm_comp : exists l, comps s' !! id = Some (set_layers l c) /\ same_buffers l (layers_ c) /\ Forall layer_ok l
}.

Lemma set_layers_same c : set_layers (layers_ c) c = c.
Proof. by destruct c. Qed.

Lemma committing_refl id c s : comps s !! id = Some c -> Forall layer_ok (layers_ c) -> committing id c s s.
Proof. intros Hc Hl. constructor; [apply prepared_refl|done|]. exists (layers_ c). by rewrite set_layers_same. Qed.

Lemma committing_world id c s1 s2 s3 : committing id c s1 s2 -> only_world s2 s3 -> committing id c s1 s3.
Proof. intros [P F L] [w ->]. constructor; [|done|done]. destruct P. by constructor. Qed.

Lemma committing_mode id c s1 s2 m conn : committing id c s1 s2 -> committing id c s1 (set_mode m conn s2).
Proof. intros [P F L]. constructor; [|done|done]. destruct P. by constructor. Qed.

Lemma close_layers_ok i c : Forall layer_ok (layers_ c) ->
  exists l, close_acquire_fence i c = set_layers l c /\ same_buffers l (layers_ c) /\ Forall layer_ok l.
Proof.
  intros Hl. eexists. split; [done|]. unfold same_buffers. split; [|apply Forall_alter; [done|by intros]].
  revert i. clear Hl. induction (layers_ c) as [|x l IH]; intros [|i]; cbn; [done..|]. f_equal. apply IH.
Qed.

Lemma commit_plane_wp id test p c pset ready held s0 s (Q : option Z * list (Z * Z * Z) -> compositor -> Prop) : inv ready held s -> id ∈ held ->
  shown_plane (length (layers_ c)) p -> committing id c s0 s ->
  (forall r s', inv ready held s' -> committing id c s0 s' -> Q r s') -> wp (commit_plane id test p pset) Q s.
Proof.
  intros I Hid [[plane Hp] Hsh] CM HQ. unfold commit_plane. apply wpc_bind, (wpc_lift _ plane); [by rewrite Hp|].
  assert (forall s1, only_world s s1 -> inv ready held s1 /\ committing id c s0 s1) as Hw.
  { intros s1 W. split; [by eapply inv_only_world|by eapply committing_world]. }
  assert (forall r s1, only_world s s1 -> Q r s1) as HQw by (intros r s1 [? ?]%Hw; by apply HQ).
  case_bool_decide as Hd; [by apply commit_disable_wp|]. destruct Hsh as [[? _]|(i & -> & Hi)]; [done|].
  destruct (cm_comp _ _ _ _ CM) as (l & Hc & Hsame & Hl). pose proof (same_buffers_length _ _ Hsame) as Hlen.
  apply wpc_bind, (wp_the_comp _ (set_layers l c)); [done|].
  cbn [layers_ set_layers set_kind]. destruct (lookup_lt_is_Some_2 l i) as [layer Hly]; [by rewrite Hlen|]. rewrite Hly.
  assert (layer_ok layer) as Hlok by (by eapply Forall_lookup_1).
  set (b := negb test && _). apply wpc_bind. assert (forall Q', (forall r s1, only_world s s1 -> Q' r s1) ->
    wp (if b then acquire_wait kAcquireWaitTries kAcquireWaitTimeoutMs (acquire_fence layer) else mret 0) Q' s) as Hwait.
  { intros Q' HQ'. destruct b; [by apply acquire_wait_wp|]. apply wpc_ret, HQ', only_world_refl. }
  apply Hwait. intros ret s1 W1. destruct (Hw s1 W1) as [I1 CM1]. destruct (ret =? 0); cbn [negb]; [|by apply wpc_ret, HQ]. apply wpc_bind.
  assert (forall s2, inv ready held s2 -> committing id c s0 s2 -> wp (match imported layer with
    | Some fb_id => commit_layer plane (comp_crtc p) (s32 fb_id) layer pset | None => mret (Some 0, pset) end) Q s2) as Hrest.
  { intros s2 I2 CM2. destruct (imported layer) as [fb|]; [|by apply wpc_ret, HQ]. apply commit_layer_wp; [done|].
    intros r s3 W3. apply HQ; [by eapply inv_only_world|by eapply committing_world]. }
  destruct b; [|by apply wpc_ret, Hrest]. apply wp_set_comp.
  assert (comps s1 !! id = Some (set_layers l c)) as Hc1 by (by destruct W1 as [w ->]).
  destruct (close_layers_ok i (set_layers l c) Hl) as (l' & -> & Hlen' & Hl'). destruct (inv_timed _ _ _ I1 _ _ Hc1) as [Ht Hm]. apply Hrest.
  - apply inv_set_held; [done|done|by apply timed_layers|exact Hm].
  - destruct CM1 as [[N1 Q1 R1 A1 C1] F1 _]. constructor; [constructor; [done..|]|done|].
    + intros j Hj. cbn. rewrite lookup_insert_ne by congruence. by apply C1.
    + exists l'. split_and!; [cbn; by rewrite lookup_insert_eq|by etransitivity|done].
Qed.

Lemma commit_planes_wp id test c planes ready held s0 : forall pset s (Q : Z * list (Z * Z * Z) -> compositor -> Prop), inv ready held s -> id ∈ held ->
  Forall (shown_plane (length (layers_ c))) planes -> committing id c s0 s ->
  (forall r s', inv ready held s' -> committing id c s0 s' -> Q r s') -> wp (commit_planes id test planes pset) Q s.
Proof.
  induction planes as [|p planes IH]; intros pset s Q I Hid Hall CM HQ; [by apply wpc_ret, HQ|].
  apply Forall_cons_1 in Hall as [Hp Hall]. cbn [commit_planes]. apply wpc_bind. eapply commit_plane_wp; [done..|].
  intros [[v|] ps] s1 I1 CM1; [by apply wpc_ret, HQ|]. by apply IH.
Qed.

Lemma commit_mode_wp conn crtc pset s (Q : option Z * list (Z * Z * Z) -> compositor -> Prop) :
  (forall r s', only_world s s' -> Q r s') -> wp (commit_mode conn crtc pset) Q s.
Proof.
  intros HQ. unfold commit_mode. apply wpc_bind, wpc_get. case_match; [apply wpc_ret, HQ, only_world_refl|].
  apply wpc_bind, wpc_ask. intros ret w _. case_match; [apply wpc_ret, HQ, only_world_ask|].
  apply wpc_bind, add_until_wp. intros [f ps] s' W. apply wpc_ret, HQ. eapply only_world_trans; [apply only_world_ask|exact W].
Qed.

Lemma ApplyDpms_wp id c s (Q : Z -> compositor -> Prop) : comps s !! id = Some c ->
  (forall r s', only_world s s' -> Q r s') -> wp (ApplyDpms id) Q s.
Proof.
  intros Hc HQ. unfold ApplyDpms. apply wpc_bind, wpc_get, wpc_bind, (wp_the_comp _ c); [done|].
  destruct (connector_ s); [apply wpc_ask; intros r w _; apply HQ, only_world_ask|apply wpc_ret, HQ, only_world_refl].
Qed.

Lemma DestroyPropertyBlob_wp b s (Q : Z -> compositor -> Prop) :
  (forall r s', only_world s s' -> Q r s') -> wp (DestroyPropertyBlob b) Q s.
Proof.
  intros HQ. unfold DestroyPropertyBlob. case_match; [apply wpc_ret, HQ, only_world_refl|apply wpc_ask; intros r w _; apply HQ, only_world_ask].
Qed.

Lemma finish_modeset_wp id c ret ready held s0 s (Q : Z -> compositor -> Prop) : inv ready held s -> committing id c s0 s ->
  (forall r s', inv ready held s' -> committing id c s0 s' -> Q r s') -> wp (finish_modeset id ret) Q s.
Proof.
  intros I CM HQ. unfold finish_modeset. apply wpc_bind, wpc_get. case_match; [by apply wpc_ret, HQ|].
  apply wpc_bind, DestroyPropertyBlob_wp. intros r s1 W1. pose proof (inv_only_world _ _ _ _ W1 I) as I1.
  pose proof (committing_world _ _ _ _ _ CM W1) as CM1. case_match; [by apply wpc_ret, HQ|].
  destruct (cm_comp _ _ _ _ CM1) as (l & Hc1 & _). apply wpc_bind, (ApplyDpms_wp _ (set_layers l c)); [done|].
  intros r2 s2 W2. pose proof (inv_only_world _ _ _ _ W2 I1) as I2. pose proof (committing_world _ _ _ _ _ CM1 W2) as CM2.
  case_match; [by apply wpc_ret, HQ|]. apply wpc_bind, wpc_get, wpc_bind, wpc_modify, wpc_ret, HQ; [by apply inv_mode|by apply committing_mode].
Qed.

Lemma CommitFrame_wp id test c ready held s (Q : Z -> compositor -> Prop) : inv ready held s -> id ∈ held ->
  comps s !! id = Some c -> live_ok c ->
  (forall r s', inv ready held s' -> committing id c s s' -> Q r s') -> wp (CommitFrame id test) Q s.
Proof.
  intros I Hid Hc [Hpl Hly _] HQ. pose proof (committing_refl id c s Hc Hly) as CM. unfold CommitFrame. apply wpc_bind, wpc_get.
  destruct (connector_ s) as [conn|]; [|by apply wpc_ret, HQ]. destruct (display_crtc_ s) as [crtc|]; [|by apply wpc_ret, HQ].
  apply wpc_bind, wpc_ask. intros ok w _. set (s1 := set_rest _ _ _ _ w s). assert (only_world s s1) as W1 by apply only_world_ask.
  pose proof (inv_only_world _ _ _ _ W1 I) as I1. pose proof (committing_world _ _ _ _ _ CM W1) as CM1.
  case_match; [by apply wpc_ret, HQ|]. apply wpc_bind, commit_mode_wp. intros [early ps] s2 W2.
  pose proof (inv_only_world _ _ _ _ W2 I1) as I2. pose proof (committing_world _ _ _ _ _ CM1 W2) as CM2.
  destruct early as [r|]; [by apply wpc_ret, HQ|]. apply wpc_bind, (wp_the_comp _ c); [by destruct W2 as [w2 ->]|].
  apply wpc_bind. eapply commit_planes_wp; [exact I2|done|done|exact CM2|]. intros [ret ps3] s3 I3 CM3. apply wpc_bind.
  assert (forall r s4, only_world s3 s4 -> wp (if negb (r =? 0) then mret r else if test then mret ret else finish_modeset id ret) Q s4) as Hend.
  { intros r s4 W4. pose proof (inv_only_world _ _ _ _ W4 I3) as I4. pose proof (committing_world _ _ _ _ _ CM3 W4) as CM4.
    destruct (r =? 0); cbn [negb]; [|by apply wpc_ret, HQ]. destruct test; [by apply wpc_ret, HQ|]. by eapply finish_modeset_wp. }
  destruct (ret =? 0); [apply wpc_ask; intros r w4 _; apply Hend, only_world_ask|apply wpc_ret, Hend, only_world_refl].
Qed.

Lemma committing_live id c s s' c' : committing id c s s' -> comps s' !! id = Some c' -> live_ok c ->
  live_ok c' /\ type_ c' = type_ c /\ crtc_ c' = crtc_ c /\ timeline_fd_ c' = timeline_fd_ c /\
  timeline_current_ c' = timeline_current_ c /\ geometry_changed_ c' = geometry_changed_ c.
Proof.
  intros [_ _ (l & Hc & Hlen%same_buffers_length & Hl)] Hc' [Hp _ Hm]. rewrite Hc in Hc'. injection Hc' as <-. split_and!; try done.
  constructor; cbn; [by rewrite Hlen|done|done].
Qed.

End Commit.

(** ** Compositions that move *)

Section Moves.
Context `{SyncLib} `{DrmLib}.

(** A composition may be where frames are. *)
Definition showable (s : compositor) (id : nat) : Prop :=
  (fences_made -> fenced s id) /\ forall c, comps s !! id = Some c -> live_ok c.

Definition queueable (s : compositor) (id : nat) : Prop :=
  users_fresh id s /\ forall c, comps s !! id = Some c -> queued_ok c.

Lemma inv_moved ready held ready' held' q f a s : inv ready held s ->
  let s' := set_queues q f a s in
  places ready' held' s' ≡ₚ places ready held s ->
  (forall id, id ∈ q -> id ∈ composite_queue_ s \/ queueable s id) ->
  (forall id, id ∈ live ready' s' -> id ∈ live ready s \/ showable s id) ->
  (forall x, x ∈ f -> x ∈ frame_queue_ s \/ exists id, x = (Some id, 0)) ->
  inv ready' held' s'.
Proof.
  intros [Id In Ii It Ir Ic If Ib Iu Ie Ig] s' Hperm Hq Hl Hf. constructor; try done.
  - by rewrite Hperm.
  - intros id. rewrite Hperm. apply Ii.
  - intros Hw id c Hc. rewrite Hperm. by apply Ir.
  - intros id c Hc. destruct (Ic id c Hc) as [Icq Icl]. split; intros Hin.
    + destruct (Hq id Hin) as [|[_ ?]]; auto.
    + destruct (Hl id Hin) as [|[_ ?]]; auto.
  - intros x Hx. destruct (Hf x Hx); auto.
  - intros k fb id Hk Hu. destruct (Iu k fb id Hk Hu) as [? Hnq]. split; [done|]. intros Hin.
    destruct (Hq id Hin) as [|[Hfresh _]]; [done|]. by destruct (Hfresh k fb).
  - intros Hm id Hin. destruct (Hl id Hin) as [?|[? _]]; [by apply (Ie Hm id)|auto].
Qed.

Ltac places_perm :=
  unfold places, live, frame_ids; cbn; rewrite ?omap_app; cbn; solve_Permutation.

Lemma inv_drop ready held s id : inv ready (id :: held) s -> (increments_work -> forall c, comps s !! id = Some c -> released c) -> inv ready held s.
Proof.
  intros [Id In Ii It Ir Ic If Ib Iu Ie Ig] Hrel. assert (places ready (id :: held) s ≡ₚ id :: places ready held s) as Hperm.
  { unfold places. solve_Permutation. }
  constructor; try done.
  - rewrite Hperm in In. by apply NoDup_cons_1_2 in In.
  - intros j Hj. apply Ii. rewrite Hperm. by right.
  - intros Hw j c Hc Hj. destruct (decide (j = id)) as [-> |Hne]; [by apply Hrel|]. apply (Ir Hw j c Hc). rewrite Hperm.
    by intros [?|?]%elem_of_cons.
Qed.

Lemma inv_held_perm ready held held' s : held ≡ₚ held' -> inv ready held s -> inv ready held' s.
Proof.
  intros Hp I. replace s with (set_queues (composite_queue_ s) (frame_queue_ s) (active_composition_ s) s) by (by destruct s).
  eapply inv_moved; [exact I|unfold places, live, frame_ids; cbn; by rewrite Hp|auto|auto|auto].
Qed.

(** The destructor. *)
Lemma reset_wp id ready held s (Q : unit -> compositor -> Prop) : inv ready (id :: held) s ->
  (forall c t, comps s !! id = Some c -> inv ready held (on_comps (insert id (at_time t c)) s) ->
     Q tt (on_comps (insert id (at_time t c)) s)) -> wp (reset id) Q s.
Proof.
  intros I HQ. assert (id ∈ id :: held) as Hid by (by left). destruct (held_lookup _ _ _ _ I Hid) as [c Hc].
  destruct (inv_timed _ _ _ I _ _ Hc) as [Ht Hm]. destruct (destroy_Done c Ht Hm) as (t & Ed & Hb & Hrel).
  unfold reset. eapply (wp_on_comp _ c); [done|by rewrite Ed|]. apply (HQ c t Hc).
  apply inv_drop with id; [|intros Hw d; cbn; rewrite lookup_insert_eq; intros [= <-]; by apply Hrel].
  apply inv_set_held; [done|done|by apply timed_at_time|exact Hm].
Qed.

(** The frame on the screen is let go. *)
Lemma inv_take_active ready held s a : inv ready held s -> active_composition_ s = Some a ->
  inv ready (a :: held) (set_queues (composite_queue_ s) (frame_queue_ s) None s).
Proof.
  intros I Ha. eapply inv_moved; [exact I| |auto| |auto].
  - unfold places, live, frame_ids. rewrite Ha. cbn. solve_Permutation.
  - intros id. rewrite !elem_of_live. intros [?|[?|?]]; [tauto|done|tauto].
Qed.

(** Its fences are signalled, and it is destroyed. *)
Lemma signalled_and_gone a c ready held s : inv ready held s -> active_composition_ s = Some a -> comps s !! a = Some c ->
  exists ret c1 t, SignalCompositionDone c = Done (ret, c1) /\ destroy c1 = Done (at_time t c) /\ (increments_work -> released (at_time t c)) /\
    inv ready held (set_queues (composite_queue_ s) (frame_queue_ s) None (on_comps (insert a (at_time t c)) s)).
Proof.
  intros I Ha Hc. destruct (inv_timed _ _ _ I _ _ Hc) as [Ht Hm]. pose proof (timed_current _ Ht).
  pose proof (inv_take_active _ _ _ _ I Ha) as I0. set (s0 := set_queues _ _ None s) in *.
  destruct (increase_Done (timeline_ c) c Ht Hm) as (ret & t1 & E1 & Hb1 & _); [lia|].
  assert (timed (at_time t1 c)) as Ht1 by (apply timed_at_time; [done|lia]).
  destruct (destroy_Done _ Ht1 Hm) as (t & Ed & Hb & Hrel). cbn in Hb. exists ret, (at_time t1 c), t.
  split_and!; [exact E1|exact Ed|exact Hrel|]. apply inv_drop with a; [|intros Hw d; cbn; rewrite lookup_insert_eq; intros [= <-]; by apply Hrel].
  apply (inv_set_held ready (a :: held) s0 a (at_time t c)); [done|by left|apply timed_at_time; [done|lia]|exact Hm].
Qed.

Lemma insert_twice a c1 c2 s : on_comps (insert a c2) (on_comps (insert a c1) s) = on_comps (insert a c2) s.
Proof. unfold on_comps. cbn. f_equal. by rewrite insert_insert_eq. Qed.

Lemma wp_on_comp_again {A} a c1 (f : DrmDisplayComposition -> outcome (A * DrmDisplayComposition)) r c2 (Q : A -> compositor -> Prop) s :
  f c1 = Done (r, c2) -> Q r (on_comps (insert a c2) s) -> wp (on_comp a f) Q (on_comps (insert a c1) s).
Proof. intros Ef HQ. eapply wp_on_comp; [cbn; by rewrite lookup_insert_eq|exact Ef|]. by rewrite insert_twice. Qed.

Lemma disable_all_wp n planes : forall pset s (Q : bool * list (Z * Z * Z) -> compositor -> Prop), Forall (shown_plane n) planes ->
  (forall r s', only_world s s' -> Q r s') -> wp (disable_all planes pset) Q s.
Proof.
  induction planes as [|p planes IH]; intros pset s Q Hall HQ; [apply wpc_ret, HQ, only_world_refl|].
  apply Forall_cons_1 in Hall as [[[plane Hp] _] Hall]. cbn [disable_all]. apply wpc_bind, (wpc_lift _ plane); [by rewrite Hp|].
  apply wpc_bind, add_until_wp. intros [[] ps] s1 W1; [by apply wpc_ret, HQ|]. apply IH; [done|].
  intros r s2 W2. apply HQ. by eapply only_world_trans.
Qed.

Lemma DisablePlanes_wp id c s (Q : Z -> compositor -> Prop) : comps s !! id = Some c -> live_ok c ->
  (forall r s', only_world s s' -> Q r s') -> wp (DisablePlanes id) Q s.
Proof.
  intros Hc [Hp _ _] HQ. unfold DisablePlanes. apply wpc_bind, wpc_ask. intros ok w _.
  destruct ok; cbn [negb]; [|apply wpc_ret, HQ, only_world_ask]. apply wpc_bind, (wp_the_comp _ c); [done|].
  apply wpc_bind. eapply disable_all_wp; [exact Hp|]. intros [[] ps] s1 W1.
  - apply wpc_ret, HQ. eapply only_world_trans; [apply only_world_ask|exact W1].
  - apply wpc_ask. intros r w2 _. apply HQ. eapply only_world_trans; [eapply only_world_trans; [apply only_world_ask|exact W1]|apply only_world_ask].
Qed.

(** What clearing and applying change: the screen, and the heap but for some. *)
Record kept (P : nat -> Prop) (s s' : compositor) : Prop := {
  kp_next : next_comp s' = next_comp s;
  kp_queue : composite_queue_ s' = composite_queue_ s;
  kp_frames : frame_queue_ s' = frame_queue_ s;
  kp_fbs : framebuffers_ s' = framebuffers_ s;
  kp_comps : forall j, P j -> comps s' !! j = comps s !! j
}.

Lemma only_world_kept P s s' : only_world s s' -> kept P s s'.
Proof. intros [w ->]. by constructor. Qed.

Lemma ClearDisplay_wp ready held s (Q : unit -> compositor -> Prop) : inv ready held s ->
  (forall s', inv ready held s' -> kept (fun j => active_composition_ s <> Some j) s s' -> Q tt s') -> wp ClearDisplay Q s.
Proof.
  intros I HQ. unfold ClearDisplay. apply wpc_bind, wpc_get. destruct (active_composition_ s) as [a|] eqn:Ha.
  2:{ apply wpc_ret, HQ; [done|by constructor]. }
  assert (a ∈ live ready s) as Hl by (apply elem_of_live; auto).
  assert (a ∈ places ready held s) as Hp by (apply elem_of_places; auto).
  destruct (proj2 (inv_dom _ _ _ I a) (inv_in _ _ _ I a Hp)) as [c Hc].
  apply wpc_bind, (DisablePlanes_wp _ c); [done|by apply (inv_comps _ _ _ I a c Hc)|]. intros r s1 W1.
  pose proof (inv_only_world _ _ _ _ W1 I) as I1. destruct (r =? 0); cbn [negb].
  2:{ apply wpc_ret, HQ; [done|by apply only_world_kept]. }
  destruct W1 as [w ->]. destruct (signalled_and_gone a c _ _ _ I1 Ha Hc) as (rs & c1 & t & E1 & E2 & Hrel & I2).
  apply wpc_bind. eapply wp_on_comp; [exact Hc|exact E1|]. apply wpc_bind. eapply wp_on_comp_again; [by rewrite E2|].
  apply wpc_modify, HQ; [exact I2|]. constructor; [done..|].
  intros j Hj. cbn. rewrite lookup_insert_ne; [done|]. congruence.
Qed.

Lemma inv_activate ready held s id : inv ready (id :: held) s -> active_composition_ s = None -> showable s id ->
  inv ready held (set_queues (composite_queue_ s) (frame_queue_ s) (Some id) s).
Proof.
  intros I Ha Hs. eapply inv_moved; [exact I| |auto| |auto].
  - unfold places, live, frame_ids. rewrite Ha. cbn. solve_Permutation.
  - intros j. rewrite !elem_of_live. intros [?|[[= <-]|?]]; [tauto|by right|tauto].
Qed.

Lemma fenced_same s s' id : framebuffers_ s' = framebuffers_ s ->
  (forall c, comps s !! id = Some c -> exists c', comps s' !! id = Some c' /\ timeline_current_ c' = timeline_current_ c) ->
  fenced s id -> fenced s' id.
Proof.
  intros Hfb Hc Hf k fb Hk Hu. rewrite Hfb in Hk. destruct (Hf k fb Hk Hu) as (Hb & f & c & Hff & Hfc & Hcc & Hlt).
  split; [done|]. destruct (Hc c Hcc) as (c' & Hc' & Ht). exists f, c'. split_and!; [done..|lia].
Qed.

Lemma committing_showable id c s s' : committing id c s s' -> comps s !! id = Some c -> showable s id -> showable s' id.
Proof.
  intros CM Hc [Hf Hl]. pose proof (cm_comp _ _ _ _ CM) as (l & Hc' & _). split.
  - intros Hm. eapply fenced_same; [apply CM| |by apply Hf]. intros d Hd. rewrite Hc in Hd. injection Hd as <-. eexists. by split.
  - intros c' Hc2. by eapply committing_live; [exact CM|exact Hc2|apply Hl].
Qed.

(** A frame that is shown: the one before it is gone. *)
Record shown (id : nat) (s s' : compositor) : Prop := {
  sh_active : active_composition_ s' = Some id;
  sh_comp : comps s' !! id = comps s !! id;
  sh_mode : mode_ s' = mode_ s /\ connector_ s' = connector_ s;
  sh_old : increments_work -> forall a c, active_composition_ s = Some a -> comps s' !! a = Some c -> released c
}.

Lemma replace_active_wp id s ready held (Q : unit -> compositor -> Prop) : inv ready (id :: held) s -> showable s id ->
  (forall s', inv ready held s' -> kept (fun j => active_composition_ s <> Some j) s s' -> shown id s s' -> Q tt s') ->
  wp (s ← get;
      match active_composition_ s with
      | Some old => on_comp old SignalCompositionDone;; set_active_composition (Some id);; reset old
      | None => set_active_composition (Some id)
      end) Q s.
Proof.
  intros I [Hf Hl] HQ. assert (id ∈ id :: held) as Hid by (by left). apply wpc_bind, wpc_get. destruct (active_composition_ s) as [a|] eqn:Ha.
  2:{ apply wpc_modify, HQ; [by apply inv_activate|by constructor|]. constructor; try done. congruence. }
  assert (a ∈ live ready s) as Hla by (apply elem_of_live; auto).
  assert (id <> a) as Hne by (intros ->; by destruct (held_apart _ _ _ _ I Hid) as (_ & ? & _)).
  destruct (proj2 (inv_dom _ _ _ I a) (inv_in _ _ _ I a ltac:(apply elem_of_places; auto))) as [ca Hca].
  destruct (signalled_and_gone a ca _ _ _ I Ha Hca) as (rs & c1 & t & E1 & E2 & Hrel & I2). set (c2 := at_time t ca) in *.
  apply wpc_bind. eapply wp_on_comp; [exact Hca|exact E1|]. apply wpc_bind, wpc_modify.
  eapply wp_on_comp; [cbn; by rewrite lookup_insert_eq|by rewrite E2|]. set (s' := on_comps _ _).
  assert (s' = set_queues (composite_queue_ s) (frame_queue_ s) (Some id) (on_comps (insert a c2) s)) as ->.
  { unfold s', set_queues, on_comps. cbn. f_equal. by rewrite insert_insert_eq. }
  assert (forall j, j <> a -> comps (on_comps (insert a c2) s) !! j = comps s !! j) as Hsame.
  { intros j Hj. cbn. by apply lookup_insert_ne, not_eq_sym. }
  apply HQ.
  - apply (inv_activate ready held _ id I2); [done|]. split.
    + intros Hm. eapply fenced_same; [| |by apply Hf]; [done|]. intros d Hd. exists d. split; [|done]. by rewrite <- Hd, <- (Hsame id Hne).
    + intros d Hd. apply Hl. by rewrite <- (Hsame id Hne).
  - constructor; [done..|]. intros j Hj. apply Hsame. congruence.
  - constructor; [done|by apply Hsame|done|]. intros Hw b d Hb. rewrite Ha in Hb. injection Hb as <-. cbn. rewrite lookup_insert_eq. intros [= <-]. by apply Hrel.
Qed.

(** What applying a frame leaves: it is shown when its commit works. *)
Record applied (id : nat) (s s' : compositor) : Prop := {
  ap_kept : kept (fun j => j <> id /\ active_composition_ s <> Some j) s s';
  ap_shown : forall s1, CommitFrame id false s = Done (0, s1) -> shown id s1 s'
}.

Lemma kept_trans P s1 s2 s3 : kept P s1 s2 -> kept P s2 s3 -> kept P s1 s3.
Proof. intros [? ? ? ? Hc1] [? ? ? ? Hc2]. constructor; try congruence. intros j Hj. by rewrite Hc2, Hc1. Qed.

Lemma kept_less (P P' : nat -> Prop) s s' : (forall j, P' j -> P j) -> kept P s s' -> kept P' s s'.
Proof. intros Hin []. constructor; auto. Qed.

Lemma kept_insert j c s : kept (fun i => i <> j) s (on_comps (insert j c) s).
Proof. constructor; [done..|]. intros i Hi. cbn. by apply lookup_insert_ne, not_eq_sym. Qed.

Lemma committing_kept id c s s' : committing id c s s' -> kept (fun j => j <> id) s s'.
Proof. intros [[? ? ? ? Hc] ? _]. by constructor. Qed.

Lemma held_once ready held s id : inv ready (id :: held) s -> id ∉ held.
Proof.
  intros I. pose proof (inv_nodup _ _ _ I) as Hnd. unfold places in Hnd. apply list.NoDup_app in Hnd as (_ & _ & Hnd).
  apply list.NoDup_app in Hnd as (_ & _ & Hnd). by apply NoDup_cons_1_1 in Hnd.
Qed.

(** What is in hand is not touched when another frame is applied. *)
Lemma held_kept ready held s s' id j : inv ready (id :: held) s -> applied id s s' -> j ∈ held -> comps s' !! j = comps s !! j.
Proof.
  intros I A Hj. apply (kp_comps _ _ _ (ap_kept _ _ _ A)). split.
  - intros ->. by destruct (held_once _ _ _ _ I).
  - intros Ha. destruct (held_apart _ _ _ j I) as (_ & Hl & _); [by right|]. apply Hl, elem_of_live. auto.
Qed.

Lemma ApplyFrame_wp id ready held s (Q : unit -> compositor -> Prop) : inv ready (id :: held) s -> showable s id ->
  (forall s', inv ready held s' -> applied id s s' -> Q tt s') -> wp (ApplyFrame (Some id) 0) Q s.
Proof.
  intros I Hs HQ. assert (id ∈ id :: held) as Hid by (by left). destruct (held_lookup _ _ _ _ I Hid) as [c Hc].
  unfold ApplyFrame. apply wpc_bind. cbn [Z.eqb]. apply wpc_bind, (wpc_lift _ id); [done|].
  eapply wpc_result; [apply (CommitFrame_wp id false c ready (id :: held) s (fun _ s' => inv ready (id :: held) s' /\ committing id c s s')); [done..|by apply Hs|done]|].
  intros ret s1 E [I1 CM]. pose proof (committing_showable _ _ _ _ CM Hc Hs) as Hs1. pose proof (committing_kept _ _ _ _ CM) as K1.
  pose proof (pr_active _ _ _ (cm_prepared _ _ _ _ CM)) as Hact.
  destruct (Z.eqb_spec ret 0) as [-> |Hne]; cbn [negb].
  - eapply replace_active_wp; [exact I1|exact Hs1|]. rewrite Hact. intros s2 I2 K2 Sh. apply HQ; [done|]. constructor.
    + eapply kept_trans; (eapply kept_less; [|first [exact K1|exact K2]]); by intros j [? ?].
    + intros s1' E'. rewrite E in E'. by injection E' as <-.
  - apply wpc_bind. eapply ClearDisplay_wp; [exact I1|]. rewrite Hact. intros s2 I2 K2. eapply reset_wp; [exact I2|]. intros c3 t _ I3.
    apply HQ; [done|]. constructor; [|intros s1' E'; rewrite E in E'; by injection E' as ? _].
    eapply kept_trans; [eapply kept_less; [|exact K1]; by intros j [? ?]|].
    eapply kept_trans; (eapply kept_less; [|first [exact K2|apply kept_insert]]); by intros j [? ?].
Qed.

End Moves.

(** ** SquashFrame *)

Lemma moved_from_ok l : layer_ok l -> layer_ok (moved_from l).
Proof. done. Qed.

(** The buffers of the layers of a list. *)
Definition buffers_at (layers : list DrmHwcLayer) (l : list nat) : list Z :=
  l ≫= fun i => option_list (sf_handle <$> layers !! i).

Lemma buffers_at_same l l' ids : same_buffers l l' -> buffers_at l ids = buffers_at l' ids.
Proof.
  intros E. unfold buffers_at. induction ids as [|i ids IH]; [done|]. cbn. rewrite IH. f_equal. f_equal.
  by rewrite <- !list_lookup_fmap, E.
Qed.

Lemma same_buffers_insert l i x y : l !! i = Some x -> sf_handle y = sf_handle x -> same_buffers (<[i := y]> l) l.
Proof.
  intros Hx Hy. unfold same_buffers. rewrite list_fmap_insert, Hy. apply list_insert_id. by rewrite list_lookup_fmap, Hx.
Qed.

(** [move_layers] has moved the layers of a list, or stopped at a protected one. *)
Record moved (n : nat) (l : list nat) (ok : bool) (src dst src' dst' : list DrmHwcLayer) : Prop := {
  mv_src : same_buffers src' src;
  mv_src_ok : Forall layer_ok src';
  mv_dst_ok : Forall layer_ok dst';
  mv_fences : Forall (fun x => release_fence x = false) dst';
  mv_buffers : ok = true -> sf_handle <$> dst' = (sf_handle <$> dst) ++ buffers_at src l
}.

Lemma move_layers_Done n l : forall src dst, length src = n -> (forall i, i ∈ l -> (i < n)%nat) ->
  Forall layer_ok src -> Forall layer_ok dst -> Forall (fun x => release_fence x = false) dst ->
  exists ok src' dst', move_layers l src dst = Done (ok, src', dst') /\ moved n l ok src dst src' dst'.
Proof.
  induction l as [|i l IH]; intros src dst Hlen Hin Hsrc Hdst Hrel.
  { exists true, src, dst. split; [done|]. constructor; try done. intros _. by rewrite app_nil_r. }
  destruct (lookup_lt_is_Some_2 src i) as [x Hx]; [rewrite Hlen; apply Hin; by left|].
  cbn [move_layers]. rewrite Hx. cbn [access]. rewrite bind_Done_eq.
  destruct (protected_usage x); [by exists false, src, dst|]. pose proof (Forall_lookup_1 _ _ _ _ Hsrc Hx) as Hok.
  assert (same_buffers (<[i := moved_from x]> src) src) as Hsame by (by eapply same_buffers_insert).
  destruct (IH (<[i := moved_from x]> src) (dst ++ [no_release_fence x])) as (ok & src' & dst' & E & [Hs Hso Hdo Hf Hb]).
  { by rewrite length_insert. } { intros j Hj. apply Hin. by right. } { by apply Forall_insert. }
  { apply Forall_app. by split; [|constructor]. } { apply Forall_app. by split; [|constructor]. }
  exists ok, src', dst'. split; [done|]. constructor; [by etransitivity|done..|]. intros Hk.
  rewrite (Hb Hk), fmap_app, <- app_assoc, (buffers_at_same _ _ _ Hsame). unfold buffers_at. cbn. by rewrite Hx.
Qed.

(** The layers that the planes show, in their order. *)
Definition shown_sources (planes : list DrmCompositionPlane) : list nat :=
  planes ≫= fun p => if bool_decide (comp_type p = kDisable) then [] else source_layers p.

Lemma shown_sources_cons p planes :
  shown_sources (p :: planes) = (if bool_decide (comp_type p = kDisable) then [] else source_layers p) ++ shown_sources planes.
Proof. done. Qed.

Record parts_ok (src dst : list DrmHwcLayer) (planes : list DrmCompositionPlane) (x : squash_parts) : Prop := {
  po_same : same_buffers (sq_src x) src;
  po_src : Forall layer_ok (sq_src x);
  po_dst : Forall layer_ok (sq_dst x);
  po_fences : Forall (fun l => release_fence l = false) (sq_dst x);
  po_buffers : sq_ret x = 0 -> sf_handle <$> sq_dst x = (sf_handle <$> dst) ++ buffers_at src (shown_sources planes)
}.

Lemma buffers_at_app layers l l' : buffers_at layers (l ++ l') = buffers_at layers l ++ buffers_at layers l'.
Proof. unfold buffers_at. by rewrite bind_app. Qed.

Lemma squash_planes_Done planes : forall x, sq_ret x = 0 -> Forall (shown_plane (length (sq_src x))) planes ->
  Forall layer_ok (sq_src x) -> Forall layer_ok (sq_dst x) -> Forall (fun l => release_fence l = false) (sq_dst x) ->
  exists x', squash_planes planes x = Done x' /\ parts_ok (sq_src x) (sq_dst x) planes x'.
Proof.
  induction planes as [|p planes IH]; intros x Hr Hall Hs Hd Hf.
  { exists x. split; [done|]. constructor; try done. intros _. by rewrite app_nil_r. }
  apply Forall_cons_1 in Hall as [[[plane Hp] Hsh] Hall]. cbn [squash_planes]. rewrite Hp. set (x1 := if is_primary plane then _ else _).
  assert (sq_ret x1 = 0 /\ sq_src x1 = sq_src x /\ sq_dst x1 = sq_dst x) as (Hr1 & Es & Ed) by (by destruct (is_primary plane)).
  clearbody x1. rewrite <- Es, <- Ed in *. pose proof (shown_sources_cons p planes) as Hcons.
  case_bool_decide as Hdis.
  { destruct (IH x1) as (x' & E & [? ? ? ? Pb]); [done..|]. exists x'. split; [exact E|]. constructor; [done..|]. by rewrite Hcons. }
  destruct Hsh as [[? _]|(i & Ei & Hi)]; [done|]. rewrite Ei in *.
  destruct (move_layers_Done (length (sq_src x1)) [i] (sq_src x1) (sq_dst x1)) as (ok & src & dst & E & [Ms Mo Md Mf Mb]); [done| |done..|].
  { by intros j ->%list_elem_of_singleton. }
  rewrite E, bind_Done_eq. destruct ok; [|eexists; split; [done|]; by constructor].
  destruct (IH (MkParts (sq_ret x1) (sq_disabled x1) (sq_plane x1) src dst)) as (x' & E' & [Ps Po Pd Pf Pb]); cbn; [done| |done..|].
  { by rewrite (same_buffers_length _ _ Ms). }
  exists x'. split; [exact E'|]. constructor; [by etransitivity|done..|]. intros Hr'. rewrite (Pb Hr'), Hcons. cbn [sq_src sq_dst].
  rewrite (Mb eq_refl), <- app_assoc, (buffers_at_same _ _ _ Ms). f_equal. symmetry. apply (buffers_at_app _ [i]).
Qed.

Lemma move_layers_back_Done n planes : Forall (shown_plane n) planes -> forall fuel k src dst,
  length src = n -> Forall layer_ok src -> Forall layer_ok dst ->
  exists layers, move_layers_back fuel k planes src dst = Done layers /\ length layers = n /\ Forall layer_ok layers.
Proof.
  intros Hall. induction fuel as [|fuel IH]; intros k src dst Hlen Hsrc Hdst; [by exists src|]. cbn [move_layers_back].
  destruct ((k <? length planes)%nat && (k <? length dst)%nat) eqn:Ek; [|by exists src].
  apply andb_true_iff in Ek as [Hk1%Nat.ltb_lt Hk2%Nat.ltb_lt].
  destruct (lookup_lt_is_Some_2 planes k Hk1) as [p Hp]. rewrite Hp. cbn [access]. rewrite bind_Done_eq.
  destruct (Forall_lookup_1 _ _ _ _ Hall Hp) as [_ [[_ ->]|(i & -> & Hi)]]; [by apply IH|]. cbn [move_back].
  destruct (lookup_lt_is_Some_2 dst k Hk2) as [l Hl]. rewrite Hl. cbn [access]. rewrite bind_Done_eq.
  destruct (lookup_lt_is_Some_2 src i) as [l0 Hl0]; [by rewrite Hlen|]. rewrite Hl0. cbn [access]. rewrite !bind_Done_eq.
  pose proof (Forall_lookup_1 _ _ _ _ Hdst Hl) as Hok.
  apply IH; [by rewrite length_insert|by apply Forall_insert..].
Qed.

Definition disabled_plane (crtc : DrmCrtc) (p : DrmPlane) : DrmCompositionPlane := MkComposition kDisable (Some p) crtc [].

Lemma disable_planes_eq l : forall c, disable_planes l c =
  set_planes (composition_planes_ c ++ (disabled_plane (crtc_ c) <$> l)) c.
Proof.
  unfold disable_planes. induction l as [|p l IH]; intros c; cbn [foldl fmap list_fmap].
  - rewrite app_nil_r. by destruct c.
  - rewrite IH. unfold set_planes, AddPlaneDisable, AddPlaneComposition, set_plan. cbn. by rewrite <- app_assoc.
Qed.

Lemma find_comp_disabled crtc l p : comp_type p = kPrecomp -> forall acc,
  find_comp ((disabled_plane crtc <$> l) ++ [p]) acc = (Some p, acc).
Proof. intros Hp. induction l as [|q l IH]; intros acc; cbn; [by rewrite Hp|apply IH]. Qed.

Lemma squash_target_disabled i crtc l p : comp_type p = kPrecomp ->
  squash_target i ((disabled_plane crtc <$> l) ++ [p]) = (disabled_plane crtc <$> l) ++ [MkComposition kPrecomp (comp_plane p) (comp_crtc p) [i]].
Proof. intros Hp. induction l as [|q l IH]; cbn; [by rewrite Hp|by rewrite IH]. Qed.

Section Finalize.
Context `{SyncLib}.

Lemma assign_loop_none l c : (forall i, i ∈ l -> (i < length (layers_ c))%nat) -> Forall (fun x => release_fence x = false) (layers_ c) ->
  assign_loop l c = Done (0, c).
Proof.
  intros Hin Hf. induction l as [|i l IH]; [done|]. cbn [assign_loop].
  destruct (lookup_lt_is_Some_2 (layers_ c) i) as [x Hx]; [apply Hin; by left|]. rewrite Hx. cbn [access]. rewrite bind_Done_eq.
  rewrite (Forall_lookup_1 _ _ _ _ Hf Hx). cbn [negb]. apply IH. intros j Hj. apply Hin. by right.
Qed.

Context (any_order : forall l, unordered l ≡ₚ l).

Lemma release_fences_none c : squash_regions_ c = [] ->
  (forall i, i ∈ region_sources (pre_comp_regions_ c) ++ plane_sources (composition_planes_ c) -> (i < length (layers_ c))%nat) ->
  Forall (fun x => release_fence x = false) (layers_ c) ->
  CreateAndAssignReleaseFences c = Done (0, set_timelines (timeline_ c) (timeline_current_ c) (timeline_ c) (timeline_ c) c).
Proof.
  intros Hs Hin Hf. unfold CreateAndAssignReleaseFences. rewrite Hs. cbn [region_sources mbind list_bind app].
  replace (forallb _ _) with true.
  2:{ symmetry. apply forallb_forall. intros i Hi%list_elem_of_In. by apply Nat.ltb_lt, Hin. }
  cbn [negb]. assert (forall X d, (forall i, i ∈ X -> i ∈ region_sources (pre_comp_regions_ c) ++ plane_sources (composition_planes_ c)) ->
    layers_ d = layers_ c -> assign_loop (set_order X) d = Done (0, d)) as Hloop.
  { intros X d HX Hd. apply assign_loop_none; rewrite Hd; [|done]. intros i Hi. apply Hin, HX. by apply elem_of_set_order in Hi. }
  rewrite Hloop, bind_Done_eq; [|set_solver|done]. cbn [Z.ltb Z.compare].
  rewrite Hloop, bind_Done_eq; [|set_solver|done]. cbn [Z.ltb Z.compare].
  rewrite Hloop, bind_Done_eq; [done|set_solver|done].
Qed.

(** A composition of one plane with all layers. *)
Lemma finalize_squashed c crtc l p : composition_planes_ c = (disabled_plane crtc <$> l) ++ [p] -> comp_type p = kPrecomp ->
  squash_regions_ c = [] -> pre_comp_regions_ c = [] -> (forall i, i ∈ source_layers p -> (i < length (layers_ c))%nat) ->
  Forall (fun x => release_fence x = false) (layers_ c) ->
  exists regions, FinalizeComposition [] c = Done (0, set_timelines (timeline_ c) (timeline_current_ c) (timeline_ c) (timeline_ c)
    (set_plan [] regions (composition_planes_ c) c)).
Proof.
  intros Hpl Hp Hs Hpre Hin Hf. unfold FinalizeComposition.
  assert (plane_sources (composition_planes_ c) = []) as Hnone.
  { rewrite Hpl. clear -Hp. unfold plane_sources. induction l as [|q l IH]; cbn; [by rewrite Hp|exact IH]. }
  assert (exists regions, SeparateLayers [] c = Done (set_plan [] regions (composition_planes_ c) c) /\
    forall i, i ∈ region_sources regions -> (i < length (layers_ c))%nat) as (regions & -> & Hreg).
  { assert (find_comp (composition_planes_ c) [] = (Some p, [])) as Hfind by (rewrite Hpl; by apply find_comp_disabled).
    destruct (decide (length (source_layers p) <= 64)%nat) as [Hle|Hgt].
    - destruct (separate_layers_regions [] c p [] Hfind) as (regions & E & _ & Hr); [cbn; lia..|done|].
      exists regions. rewrite E, Hs, Hpre. split; [done|]. intros i (r & Hi & Hrr)%list_elem_of_bind. eapply Hin, Hr; done.
    - exists []. unfold SeparateLayers. rewrite Hfind. rewrite (proj2 (Nat.ltb_lt _ _)) by lia. split; [|by intros i ?%elem_of_nil].
      f_equal. rewrite <- Hs at 1. rewrite <- Hpre at 1. by destruct c. }
  rewrite bind_Done_eq. exists regions. apply (release_fences_none (set_plan [] regions (composition_planes_ c) c)); [done| |done].
  cbn [pre_comp_regions_ composition_planes_ layers_ set_plan]. rewrite Hnone, app_nil_r. exact Hreg.
Qed.

End Finalize.
