(* ===== verification/CompositorRuns.v ===== *)
(** * CompositorRuns: the steps of the compositor's threads

    Every step keeps the invariant of CompositorSafety; what that gives for all
    interleavings, and the states in which things go wrong. *)

From S2P Require Import Prelude Float32.
From S2P Require Import SeparateRects Planner Composition CompositionPlan Compositor CompositorSafety.

Open Scope Z_scope.

Section Squash.
Context `{SyncLib} `{DrmLib}.
Context (any_order : forall l, unordered l ≡ₚ l) (sizes : sizes_ok).

(** The source with other layers, and nothing changed but the two compositions. *)
Record squashing (src dst : nat) (c : DrmDisplayComposition) (s s' : compositor) : Prop := {
  sq_next : next_comp s' = next_comp s;
  sq_queue : composite_queue_ s' = composite_queue_ s;
  sq_frames : frame_queue_ s' = frame_queue_ s;
  sq_active : active_composition_ s' = active_composition_ s;
  sq_others : forall j, j <> src -> j <> dst -> comps s' !! j = comps s !! j;
  sq_source : exists l, comps s' !! src = Some (set_layers l c) /\ length l = length (layers_ c) /\ Forall layer_ok l
}.

Lemma squashing_refl src dst c s : comps s !! src = Some c -> Forall layer_ok (layers_ c) -> squashing src dst c s s.
Proof. intros Hc Hl. constructor; try done. exists (layers_ c). by rewrite set_layers_same. Qed.

Lemma squashing_prepared src dst c s1 s2 s3 : src <> dst -> squashing src dst c s1 s2 -> prepared dst s2 s3 -> squashing src dst c s1 s3.
Proof.
  intros Hne [? ? ? ? Ho (l & Hl & ? & ?)] [? ? ? ? Hc]. constructor; try congruence.
  - intros j ? ?. by rewrite Hc, Ho.
  - exists l. by rewrite Hc.
Qed.

Lemma prepared_set_comp id c s : prepared id s (on_comps (insert id c) s).
Proof. exact (evolves_prepared (PreFb 0) _ _ _ (evolves_set_comp (PreFb 0) id c s)). Qed.

Lemma inv_relayer ready held s src c l : inv ready held s -> comps s !! src = Some c -> src ∉ composite_queue_ s -> live_ok c ->
  length l = length (layers_ c) -> Forall layer_ok l -> src ∈ places ready held s -> inv ready held (on_comps (insert src (set_layers l c)) s).
Proof.
  intros I Hc Hq [Hp Hl Hm] Hlen Hok Hin. destruct (inv_timed _ _ _ I _ _ Hc) as [Ht Hm'].
  eapply inv_set_comp; [exact I|exact Hc|by apply timed_layers|exact Hm'|done| |done]. split; [done|]. intros _.
  constructor; cbn; [by rewrite Hlen|done|done].
Qed.

Lemma squashing_relayer src dst c s s' l : src <> dst -> squashing src dst c s s' -> length l = length (layers_ c) -> Forall layer_ok l ->
  squashing src dst c s (on_comps (insert src (set_layers l c)) s').
Proof.
  intros Hne [? ? ? ? Ho _] Hlen Hok. constructor; try done.
  - intros j ? ?. cbn. rewrite lookup_insert_ne by congruence. by apply Ho.
  - exists l. split_and!; [cbn; by rewrite lookup_insert_eq|done..].
Qed.

Context (ready held : list nat) (src dst : nat) (c : DrmDisplayComposition) (s0 : compositor).
Context (src_dst : src <> dst) (dst_held : dst ∈ held) (src_ok : live_ok c).
Context (src_in : src ∈ places ready held s0) (src_queue : src ∉ composite_queue_ s0).

(** What holds all along. *)
Definition midway (s : compositor) : Prop := inv ready held s /\ squashing src dst c s0 s.

Lemma midway_places s : midway s -> src ∈ places ready held s /\ src ∉ composite_queue_ s.
Proof.
  intros [_ [? Hq Hf Ha _ _]]. revert src_in src_queue. rewrite !elem_of_places, !elem_of_live. unfold frame_ids.
  rewrite Hq, Hf, Ha. tauto.
Qed.

Lemma midway_prepared s s' : midway s -> inv ready held s' -> prepared dst s s' -> midway s'.
Proof. intros [I S] I' P. split; [done|]. by eapply squashing_prepared. Qed.

Lemma midway_dst s d : midway s -> timed d -> timeline_ d <= max_timeline + 2 -> midway (on_comps (insert dst d) s).
Proof. intros M Ht Hm. eapply midway_prepared; [exact M|by apply inv_set_held; [apply M|..]|apply prepared_set_comp]. Qed.

Lemma midway_relayer s l : midway s -> length l = length (layers_ c) -> Forall layer_ok l -> midway (on_comps (insert src (set_layers l c)) s).
Proof.
  intros [I S] Hlen Hok. destruct (midway_places s) as [Hp Hq]; [by split|]. split; [|by apply squashing_relayer].
  destruct (sq_source _ _ _ _ _ S) as (l0 & Hc & Hl0 & Hok0).
  replace (set_layers l c) with (set_layers l (set_layers l0 c)) by done. apply inv_relayer; [done|done|done| |by rewrite Hlen, <- Hl0|done|done].
  destruct src_ok. constructor; cbn; [by rewrite Hl0|done|done].
Qed.

Lemma give_back_wp s ret l dl (Q : Z -> compositor -> Prop) : midway s -> length l = length (layers_ c) -> Forall layer_ok l ->
  Forall layer_ok dl -> (forall s', midway s' -> Q ret s') -> wp (give_back src ret l dl) Q s.
Proof.
  intros M Hlen Hl Hdl HQ. destruct (sq_source _ _ _ _ _ (proj2 M)) as (l0 & Hc & Hl0 & _).
  unfold give_back. apply wpc_bind, (wp_the_comp _ (set_layers l0 c)); [done|]. cbn [composition_planes_ set_layers set_kind].
  destruct (move_layers_back_Done _ _ (live_planes _ src_ok) (length (composition_planes_ c)) 0 l dl Hlen Hl Hdl) as (layers & E & Hlen' & Hok').
  apply wpc_bind, (wpc_lift _ layers); [exact E|]. apply wpc_bind, wp_set_comp, wpc_ret, HQ. by apply (midway_relayer s layers).
Qed.

(** The composition that is made for the squashed frame, before it is rendered. *)
Definition squashed_start (crtc : DrmCrtc) (fd : Z) (l : list DrmPlane) (layers : list DrmHwcLayer) : DrmDisplayComposition :=
  MkComp DRM_COMPOSITION_TYPE_FRAME crtc fd DRM_MODE_DPMS_ON 0 0 0 0 0 false layers [] [] (disabled_plane crtc <$> l) ∅.

Lemma build_squashed_wp s crtc fd l layers plane (Q : Z -> compositor -> Prop) : midway s -> 0 <= fd ->
  comps s !! dst = Some (squashed_start crtc fd l layers) -> Forall layer_ok layers -> Forall (fun x => release_fence x = false) layers ->
  users_fresh dst s ->
  (forall ret s' d, midway s' -> comps s' !! dst = Some d ->
     (ret = 0 -> (fences_made -> fenced s' dst) /\ Forall layer_ok (layers_ d) /\ (exists fb, sf_handle <$> layers_ d = (sf_handle <$> layers) ++ [fb]) /\
       composition_planes_ d = (disabled_plane crtc <$> l) ++ [MkComposition kPrecomp (Some plane) crtc (seq 0 (length layers))]) -> Q ret s') ->
  wp (build_squashed dst plane crtc (length layers)) Q s.
Proof.
  intros M Hfd Hd Hok Hfence Hfresh HQ. unfold build_squashed. set (p := MkComposition _ _ _ _). set (d := squashed_start _ _ _ _) in Hd.
  set (d1 := snd (AddPlaneComposition p d)). assert (timed d1) as Ht1 by (constructor; cbn; lia).
  apply wpc_bind. eapply (wp_on_comp _ d _ 0 d1); [done|done|]. pose proof (midway_dst s d1 M Ht1) as M1. specialize (M1 ltac:(done)).
  cbn [negb Z.eqb]. destruct (finalize_squashed any_order d1 crtc l p) as (regions & E); [done..| |done|].
  { intros i Hi%elem_of_seq. cbn. lia. }
  set (d2 := set_timelines _ _ _ _ _) in E. assert (timed d2) as Ht2 by (constructor; cbn; lia).
  apply wpc_bind. eapply wp_on_comp_again; [exact E|]. cbn [negb Z.eqb].
  pose proof (midway_dst s d2 M Ht2 ltac:(done)) as M2. set (s2 := on_comps (insert dst d2) s) in *.
  assert (comps s2 !! dst = Some d2) as Hd2 by (cbn; by rewrite lookup_insert_eq).
  eapply ApplyPreComposite_wp; [exact sizes|apply M2|exact dst_held|exact Hd2|done|done|].
  intros ret s' ls d' I' E' Hls Hd' G Hret. apply (HQ ret s' d'); [|done|].
  - eapply midway_prepared; [exact M2|exact I'|by eapply evolves_prepared].
  - intros Hr. destruct (Hret Hr) as [Hlen Hw]. split_and!.
    + intros Hm. eapply (fenced_after dst s2); [done|by apply Hw|done].
    + rewrite (gr_layers _ _ _ _ G), Forall_app. done.
    + rewrite (gr_layers _ _ _ _ G). destruct ls as [|x [|]]; [done| |done]. exists (sf_handle x). by rewrite fmap_app.
    + by rewrite (gr_planes _ _ _ _ G).
Qed.

Lemma disabled_shown crtc l n : Forall (shown_plane n) (disabled_plane crtc <$> l).
Proof. induction l as [|q l IH]; cbn; constructor; [|done]. split; [by eexists|by left]. Qed.

(** The composition has the buffers of another that its planes show, and one plane
    with the framebuffer they were composed into. *)
Definition squashed_from (c0 : DrmDisplayComposition) (id : nat) (s : compositor) : Prop :=
  exists d fb l plane, comps s !! id = Some d /\
    sf_handle <$> layers_ d = buffers_at (layers_ c0) (shown_sources (composition_planes_ c0)) ++ [fb] /\
    composition_planes_ d = (disabled_plane (crtc_ c0) <$> l) ++ [MkComposition kPrecomp (Some plane) (crtc_ c0) [length (layers_ d) - 1]%nat].

(** SquashFrame: the frame for the destination can be shown, or the source has its layers back. *)
Lemma SquashFrame_wp s crtc (Q : Z -> compositor -> Prop) : midway s -> comps s !! src = Some c ->
  comps s !! dst = Some (new_composition crtc) -> users_fresh dst s ->
  (forall ret s', midway s' -> (ret = 0 -> showable s' dst /\ squashed_from c dst s') -> Q ret s') -> wp (SquashFrame src dst) Q s.
Proof.
  intros M Hc Hd Hfresh HQ. unfold SquashFrame. apply wpc_bind, (wp_the_comp _ c); [done|].
  case_bool_decide; cbn [negb]; [|by apply wpc_ret, HQ]. destruct (_ <=? 1)%nat; [by apply wpc_ret, HQ|].
  set (d0 := snd (Init (crtc_ c) (new_composition crtc))). set (r0 := fst (Init (crtc_ c) (new_composition crtc))).
  apply wpc_bind. eapply (wp_on_comp _ (new_composition crtc) _ r0 d0); [done|subst r0 d0; by destruct (Init _ _)|].
  assert (timed d0 /\ timeline_ d0 <= max_timeline + 2) as (Ht0 & Hm0).
  { subst d0 r0. unfold Init. destruct (Z.ltb_spec sw_sync_timeline_create 0); cbn; (split; [constructor; cbn; lia|done]). }
  pose proof (midway_dst s d0 M Ht0 Hm0) as M0. destruct (Z.eqb_spec r0 0) as [Hr0|Hr0]; cbn [negb]; [|by apply wpc_ret, HQ].
  assert (exists fd, 0 <= fd /\ d0 = MkComp DRM_COMPOSITION_TYPE_EMPTY (crtc_ c) fd DRM_MODE_DPMS_ON 0 0 0 0 0 false [] [] [] [] ∅) as (fd & Hfd & Ed0).
  { subst d0 r0. unfold Init in *. destruct (Z.ltb_spec sw_sync_timeline_create 0); cbn in *; [lia|]. by exists sw_sync_timeline_create. }
  destruct (squash_planes_Done (composition_planes_ c) (MkParts 0 [] None (layers_ c) [])) as (x & Ex & [Hxb%same_buffers_length Hxs Hxd Hxf Hxh]);
    [done|apply src_ok|apply src_ok|constructor..|]. cbn [sq_src sq_dst] in Hxb, Hxh.
  apply wpc_bind, (wpc_lift _ x); [done|]. set (d1 := disable_planes (sq_disabled x) d0).
  assert (d1 = MkComp DRM_COMPOSITION_TYPE_EMPTY (crtc_ c) fd DRM_MODE_DPMS_ON 0 0 0 0 0 false [] [] [] (disabled_plane (crtc_ c) <$> sq_disabled x) ∅) as Ed1.
  { subst d1. rewrite disable_planes_eq, Ed0. done. }
  assert (timed d1) as Ht1 by (rewrite Ed1; constructor; cbn; lia).
  apply wpc_bind. eapply (wp_on_comp_again _ _ _ tt d1); [done|]. pose proof (midway_dst s d1 M Ht1) as M1. rewrite Ed1 in M1 at 1. specialize (M1 ltac:(done)).
  apply wpc_bind, wp_set_comp. set (s1 := on_comps (insert dst d1) s) in *. pose proof (midway_relayer s1 (sq_src x) M1 Hxb Hxs) as M2.
  set (s2 := on_comps (insert src _) s1) in *. assert (Forall layer_ok (moved_from <$> sq_dst x)) as Hxm by (by apply Forall_fmap).
  assert (comps s2 !! dst = Some d1) as Hd1 by (cbn; rewrite lookup_insert_ne by done; by rewrite lookup_insert_eq).
  destruct (Z.eqb_spec (sq_ret x) 0) as [Hx0|]; cbn [negb]; [|eapply give_back_wp; [done..|]; intros; by apply HQ].
  destruct (sq_plane x) as [plane|]; [|eapply give_back_wp; [done..|]; intros; by apply HQ].
  set (d2 := squashed_start (crtc_ c) fd (sq_disabled x) (sq_dst x)). apply wpc_bind. eapply (wp_on_comp _ d1 _ 0 d2); [done|by rewrite Ed1|].
  cbn [negb Z.eqb]. assert (timed d2) as Ht2 by (constructor; cbn; lia). pose proof (midway_dst s2 d2 M2 Ht2 ltac:(done)) as M3.
  apply wpc_bind. eapply (build_squashed_wp _ (crtc_ c) fd); [exact M3|done|cbn; by rewrite lookup_insert_eq|done|done|done|].
  intros ret s4 d4 M4 Hd4 Hret. destruct (Z.eqb_spec ret 0) as [-> |Hne]; cbn [negb]; [|eapply give_back_wp; [done..|]; intros; by apply HQ].
  destruct (Hret eq_refl) as (Hf4 & Hok4 & (fb & Hb4) & Hpl4). pose proof (f_equal length Hb4) as Hlen4.
  rewrite length_app, !length_fmap in Hlen4. cbn in Hlen4. rewrite Nat.add_1_r in Hlen4. destruct (inv_timed _ _ _ (proj1 M4) _ _ Hd4) as [Ht4 Hm4].
  apply wpc_bind, (wp_last_layer _ d4); [done|]. apply wpc_bind. unfold next_framebuffer. apply wpc_modify. set (s5 := set_framebuffers _ _ _ _ s4).
  assert (midway s5) as M5.
  { eapply midway_prepared; [exact M4| |by constructor]. apply inv_index; [apply M4|by apply Nat.mod_upper_bound|].
    by destruct (inv_fbs _ _ _ (proj1 M4)) as (_ & _ & _ & ?). }
  rewrite Hlen4. set (d6 := set_planes (squash_target (S (length (sq_dst x)) - 1) (composition_planes_ d4)) d4).
  eapply (wp_on_comp _ d4 _ 0 d6); [done|done|]. apply HQ; [by apply midway_dst; [|apply timed_planes|]|]. intros _. split; [split|].
  - intros Hm. eapply fenced_same; [| |by apply Hf4]; [done|]. intros d Hdd. rewrite Hd4 in Hdd. injection Hdd as <-. exists d6. cbn. by rewrite lookup_insert_eq.
  - intros d'. cbn. rewrite lookup_insert_eq. intros [= <-]. constructor; cbn; [|done|exact Hm4].
    rewrite Hpl4, squash_target_disabled, Forall_app by done. split; [apply disabled_shown|]. constructor; [|done].
    split; [by eexists|right]. eexists. split; [done|]. rewrite Hlen4. lia.
  - exists d6, fb, (sq_disabled x), plane. split_and!; [cbn; by rewrite lookup_insert_eq| |].
    + cbn. by rewrite Hb4, (Hxh Hx0).
    + cbn [composition_planes_ set_planes set_plan d6]. unfold d6. cbn. by rewrite Hpl4, squash_target_disabled, Hlen4.
Qed.

End Squash.

(** ** The steps *)

Section Steps.
Context `{SyncLib} `{DrmLib}.
Context (any_order : forall l, unordered l ≡ₚ l) (sizes : sizes_ok).

Lemma CreateComposition_wp crtc ready held s (Q : nat -> compositor -> Prop) : inv ready held s ->
  (forall s', let id := next_comp s in inv ready (id :: held) s' -> comps s' !! id = Some (new_composition crtc) ->
     (forall j, j <> id -> comps s' !! j = comps s !! j) -> users_fresh id s' ->
     composite_queue_ s' = composite_queue_ s -> active_composition_ s' = active_composition_ s -> frame_queue_ s' = frame_queue_ s ->
     framebuffers_ s' = framebuffers_ s -> active_ s' = active_ s -> Q id s') ->
  wp (CreateComposition crtc) Q s.
Proof.
  intros I HQ. unfold CreateComposition. apply wpc_bind, wpc_get, wpc_bind, wpc_modify, wpc_bind, wp_set_comp, wpc_ret.
  destruct I as [Id In Ii It Ir Ic If Ib Iu Ie Ig]. set (id := next_comp s) in *.
  assert (id ∉ places ready held s) as Hnew by (intros Hin%Ii; subst id; lia).
  assert (forall j, j ∈ live ready s -> j <> id) as Hlive by (intros j Hj ->; apply Hnew, elem_of_places; tauto).
  assert (forall s', composite_queue_ s' = composite_queue_ s -> live ready s' = live ready s -> places ready (id :: held) s' ≡ₚ id :: places ready held s) as Hperm.
  { intros s' Hq Hl. unfold places. rewrite Hq, Hl, !app_assoc. by rewrite <- Permutation_middle. }
  apply HQ; try done.
  - constructor; try done.
    + intros j. cbn. rewrite lookup_insert_is_Some'. rewrite Id. subst id. cbn in *. lia.
    + rewrite Hperm by done. apply NoDup_cons_2; [exact Hnew|exact In].
    + intros j. rewrite Hperm by done. intros [-> |Hj]%elem_of_cons; [cbn; lia|]. specialize (Ii j Hj). cbn. lia.
    + intros j d. cbn [comps on_comps set_rest]. intros [[<- <-]|[_ ?]]%lookup_insert_Some; [|by eapply It]. split; [|done]. constructor; cbn; lia.
    + intros Hw j d. cbn [comps on_comps set_rest]. intros [[<- <-]|[? Hd]]%lookup_insert_Some; [done|]. intros Hj. apply (Ir Hw j d Hd). intros Hin. apply Hj.
      revert Hin. rewrite !elem_of_places, elem_of_cons. tauto.
    + intros j d. cbn [comps on_comps set_rest]. intros [[<- <-]|[? Hd]]%lookup_insert_Some; [|by eapply Ic]. split; intros Hin; destruct Hnew; apply elem_of_places; tauto.
    + intros k fb j Hk Hu. destruct (Iu k fb j Hk Hu). cbn. split; [lia|done].
    + intros Hm j Hj. eapply fenced_same; [| |by apply Ie]; [done|]. intros d Hd. exists d. cbn.
      rewrite lookup_insert_ne; [done|]. intros <-. by eapply Hlive.
  - cbn. by rewrite lookup_insert_eq.
  - intros j Hj. cbn. by apply lookup_insert_ne.
  - intros k fb Hk Hu. destruct (Iu k fb id Hk Hu). subst id. cbn in *. lia.
Qed.

(** A composition in hand is queued, handed to the frame worker, or kept by the worker. *)
Lemma inv_enqueue ready held s id : inv ready (id :: held) s -> queueable s id ->
  inv ready held (set_queues (composite_queue_ s ++ [id]) (frame_queue_ s) (active_composition_ s) s).
Proof.
  intros I Hs. eapply inv_moved; [exact I| | |auto|auto].
  - unfold places, live, frame_ids. cbn. solve_Permutation.
  - intros j [?| ->%list_elem_of_singleton]%elem_of_app; [by left|by right].
Qed.

Lemma inv_hand_on ready held s id : inv ready (id :: held) s -> showable s id ->
  inv ready held (set_queues (composite_queue_ s) (frame_queue_ s ++ [(Some id, 0)]) (active_composition_ s) s).
Proof.
  intros I Hs. eapply inv_moved; [exact I| |auto| |].
  - unfold places, live, frame_ids. cbn. rewrite omap_app. cbn. solve_Permutation.
  - intros j. rewrite !elem_of_live. unfold frame_ids. cbn. rewrite omap_app. cbn.
    rewrite elem_of_app, list_elem_of_singleton. intros [[?| ->]|?]; [tauto|by right|tauto].
  - intros x [?| ->%list_elem_of_singleton]%elem_of_app; [by left|right; by exists id].
Qed.

Lemma inv_kept held s id : inv [] (id :: held) s -> showable s id -> inv [id] held s.
Proof.
  intros I Hs. replace s with (set_queues (composite_queue_ s) (frame_queue_ s) (active_composition_ s) s) by (by destruct s).
  eapply inv_moved; [exact I| |auto| |auto].
  - unfold places, live, frame_ids. cbn. solve_Permutation.
  - intros j. rewrite !elem_of_live. cbn. rewrite list_elem_of_singleton, elem_of_nil. intros [?|[?| ->]]; [tauto|tauto|by right].
Qed.

Lemma inv_unkeep held s id : inv [id] held s -> inv [] (id :: held) s /\ showable s id.
Proof.
  intros I. assert (id ∈ live [id] s) as Hl by (apply elem_of_live; right; right; by left). split.
  - replace s with (set_queues (composite_queue_ s) (frame_queue_ s) (active_composition_ s) s) by (by destruct s).
    eapply inv_moved; [exact I| |auto| |auto].
    + unfold places, live, frame_ids. cbn. solve_Permutation.
    + intros j. rewrite !elem_of_live. cbn. rewrite elem_of_nil. tauto.
  - split; [intros Hm; by eapply inv_fenced|]. intros c Hc. by apply (inv_comps _ _ _ I id c Hc).
Qed.

Lemma inv_dequeue ready held s id q : inv ready held s -> composite_queue_ s = id :: q ->
  inv ready (id :: held) (set_queues q (frame_queue_ s) (active_composition_ s) s) /\ queueable s id.
Proof.
  intros I Hq. assert (id ∈ composite_queue_ s) as Hin by (rewrite Hq; by left). split.
  - eapply inv_moved; [exact I| | |auto|auto].
    + unfold places, live, frame_ids. rewrite Hq. cbn. solve_Permutation.
    + intros j Hj. left. rewrite Hq. by right.
  - split; [|intros c Hc; by apply (inv_comps _ _ _ I id c Hc)]. intros k fb Hk Hu. by destruct (inv_users _ _ _ I k fb id Hk Hu).
Qed.

Lemma inv_take_frame ready held s id q : inv ready held s -> frame_queue_ s = (Some id, 0) :: q ->
  inv ready (id :: held) (set_queues (composite_queue_ s) q (active_composition_ s) s) /\ showable s id.
Proof.
  intros I Hq. assert (id ∈ live ready s) as Hl.
  { apply elem_of_live. left. apply elem_of_frame_ids. exists 0. rewrite Hq. by left. }
  split; [|split; [intros Hm; by eapply inv_fenced|intros c Hc; by apply (inv_comps _ _ _ I id c Hc)]].
  eapply inv_moved; [exact I| |auto| |].
  - unfold places, live, frame_ids. rewrite Hq. cbn. solve_Permutation.
  - intros j. rewrite !elem_of_live. unfold frame_ids. cbn. rewrite Hq. cbn. rewrite elem_of_cons. tauto.
  - intros x Hx. left. rewrite Hq. by right.
Qed.

Lemma QueueComposition_wp id c ready held s (Q : Z -> compositor -> Prop) : inv ready (id :: held) s -> comps s !! id = Some c ->
  queueable s id -> (forall ret s', inv ready held s' -> (forall j, j ∈ held -> comps s' !! j = comps s !! j) -> Q ret s') ->
  wp (QueueComposition id) Q s.
Proof.
  intros I Hc Hq HQ. unfold QueueComposition. apply wpc_bind, (wp_the_comp _ c); [done|]. apply wpc_bind, wpc_get.
  assert (forall s1, inv ready (id :: held) s1 -> queueable s1 id -> comps s1 = comps s -> wp (s ← get;
    if (DRM_DISPLAY_COMPOSITOR_MAX_QUEUE_DEPTH <=? length (composite_queue_ s))%nat then lift Timeout
    else modify (set_queues (composite_queue_ s ++ [id]) (frame_queue_ s) (active_composition_ s));; mret 0) Q s1) as Hpush.
  { intros s1 I1 Hq1 Hs1. apply wpc_bind, wpc_get. destruct (_ <=? _)%nat; [done|]. apply wpc_bind, wpc_modify, wpc_ret, HQ; [by apply inv_enqueue|].
    intros j _. cbn. by rewrite Hs1. }
  assert (forall r, wp (reset id;; mret r) Q s) as Hreset.
  { intros r. apply wpc_bind. eapply reset_wp; [exact I|]. intros c0 t _ I'. apply wpc_ret, HQ; [done|].
    intros j Hj. cbn. apply lookup_insert_ne. intros ->. by destruct (held_once _ _ _ _ I). }
  destruct (type_ c); [apply Hreset|destruct (active_ s); [by apply Hpush|apply Hreset]| |by apply Hpush].
  apply wpc_bind, wpc_modify, Hpush; [by apply inv_active|done|done].
Qed.

Lemma test_overlays_wp id ready held s (Q : unit -> compositor -> Prop) : inv ready held s -> id ∈ held -> showable s id ->
  (forall s', inv ready held s' -> showable s' id -> Q tt s') -> wp (test_overlays id) Q s.
Proof.
  intros I Hid Hs HQ. destruct (held_lookup _ _ _ _ I Hid) as [c Hc]. unfold test_overlays. apply wpc_bind, (wp_the_comp _ c); [done|].
  destruct (geometry_changed_ c); [|by apply wpc_ret, HQ]. apply wpc_bind. eapply CommitFrame_wp; [exact I|done|exact Hc|by apply Hs|].
  intros ret s1 I1 CM. apply wpc_modify, HQ; [by apply inv_active|]. exact (committing_showable _ _ _ _ CM Hc Hs).
Qed.

Lemma showable_insert s id n c' : showable s n -> n <> id -> showable (on_comps (insert id c') s) n.
Proof.
  intros [Hf Hl] Hne. split.
  - intros Hm. eapply fenced_same; [| |by apply Hf]; [done|]. intros d Hd. exists d. cbn. by rewrite lookup_insert_ne by done.
  - intros d. cbn. rewrite lookup_insert_ne by done. apply Hl.
Qed.

Lemma reset_more_wp {A} id (r : A) ready held s (Q : A -> compositor -> Prop) : inv ready (id :: held) s ->
  (forall s', inv ready held s' -> Q r s') -> wp (reset id;; mret r) Q s.
Proof. intros I HQ. apply wpc_bind. eapply reset_wp; [exact I|]. intros. by apply wpc_ret, HQ. Qed.

(** The frame is squashed before it is handed on, because the display does not take its planes. *)
Lemma squash_first_wp id ready held s (Q : Z -> compositor -> Prop) : inv ready (id :: held) s -> showable s id ->
  (forall ret s', inv ready held s' -> Q ret s') ->
  wp (c ← the_comp id; squashed ← CreateComposition (crtc_ c); ret ← SquashFrame id squashed;
      if negb (ret =? 0) then ClearDisplay;; reset squashed;; reset id;; mret ret
      else reset id;; QueueFrame squashed 0;; mret 0) Q s.
Proof.
  intros I Hs HQ. destruct (held_lookup _ _ _ id I) as [c Hc]; [by left|]. apply wpc_bind, (wp_the_comp _ c); [done|].
  apply wpc_bind. eapply CreateComposition_wp; [exact I|]. intros s1 n I1 Hn Hsame Hfresh Hq1 Ha1 Hf1 Hfb1 Hac1. clearbody n.
  assert (n <> id) as Hne.
  { intros ->. pose proof (inv_nodup _ _ _ I1) as Hnd. unfold places in Hnd. apply list.NoDup_app in Hnd as (_ & _ & Hnd).
    apply list.NoDup_app in Hnd as (_ & _ & Hnd%NoDup_cons_1_1). apply Hnd. by left. }
  destruct (held_apart _ _ _ id I1) as (Hq & _ & Hp); [right; by left|].
  apply wpc_bind. eapply (SquashFrame_wp any_order sizes ready (n :: id :: held) id n c s1 (not_eq_sym Hne) ltac:(by left) (proj2 Hs c Hc) Hp Hq s1 (crtc_ c)).
  - split; [done|]. apply squashing_refl; [by rewrite Hsame|by apply Hs].
  - by rewrite Hsame.
  - done.
  - done.
  - intros ret s2 [I2 _] Hret. destruct (Z.eqb_spec ret 0) as [-> |Hr]; cbn [negb].
    + apply wpc_bind. eapply reset_wp; [eapply inv_held_perm; [|exact I2]; apply perm_swap|].
      intros c2 t _ I3. apply wpc_bind, wpc_modify, wpc_ret, HQ. apply inv_hand_on; [exact I3|]. by apply showable_insert; [apply Hret|].
    + apply wpc_bind. eapply ClearDisplay_wp; [exact I2|]. intros s3 I3 _.
      apply wpc_bind. eapply reset_wp; [exact I3|]. intros c3 t _ I4. eapply reset_more_wp; [exact I4|]. intros. by apply HQ.
Qed.

Lemma composite_frame_wp id c ready held s (Q : Z -> compositor -> Prop) : inv ready (id :: held) s -> comps s !! id = Some c ->
  queueable s id -> reuse_ok s c -> (forall ret s', inv ready held s' -> Q ret s') -> wp (composite_frame id) Q s.
Proof.
  intros I Hc [Hfresh Hq] Hre HQ. assert (id ∈ id :: held) as Hid by (by left). unfold composite_frame. apply wpc_bind.
  eapply PrepareFrame_wp; [exact sizes|exact I|done|exact Hc|by apply Hq|done|done|].
  intros ret s1 c1 I1 _ Hc1 _ _ _ _ Hret. destruct (Z.eqb_spec ret 0) as [-> |Hne]; cbn [negb]; [|eapply reset_more_wp; [done|]; by intros; apply HQ].
  destruct (Hret eq_refl) as [Hl Hf]. assert (showable s1 id) as Hs1 by (split; [done|]; intros d; rewrite Hc1; by intros [= <-]).
  apply wpc_bind. eapply test_overlays_wp; [exact I1|done|done|]. intros s2 I2 Hs2. apply wpc_bind, wpc_get.
  destruct (use_hw_overlays_ s2).
  - apply wpc_bind, wpc_modify, wpc_ret, HQ. by apply inv_hand_on.
  - by eapply squash_first_wp.
Qed.

Lemma composite_modeset_wp id ready held s (Q : Z -> compositor -> Prop) : inv ready held s -> is_Some (comps s !! id) ->
  (forall ret s', inv ready held s' -> Q ret s') -> wp (composite_modeset id) Q s.
Proof.
  intros I [c Hc] HQ. unfold composite_modeset. apply wpc_bind, (wp_the_comp _ c); [done|]. apply wpc_bind, wpc_get, wpc_bind.
  assert (forall s1, only_world s s1 -> wp ('(ret, blob) ← CreateModeBlob (display_mode_ c);
    modify (fun s' => set_mode (MkModeState (if ret =? 0 then true else needs_modeset (mode_ s)) (display_mode_ c) blob (old_blob_id (mode_ s))) (connector_ s') s');;
    mret ret) Q s1) as Hblob.
  { intros s1 W. pose proof (inv_only_world _ _ _ _ W I) as I1. apply wpc_bind. unfold CreateModeBlob. apply wpc_bind, wpc_ask.
    intros [ret blob] w _. apply wpc_ret. destruct (negb (ret =? 0)); apply wpc_bind, wpc_modify, wpc_ret, HQ; by apply inv_mode, inv_world. }
  destruct (blob_id (mode_ s) =? 0); [by apply wpc_ret, Hblob, only_world_refl|]. by apply DestroyPropertyBlob_wp; intros; apply Hblob.
Qed.

(** The next frame shows the framebuffer of the squash again, and there is none. *)
Definition next_faults (s : compositor) : bool :=
  match composite_queue_ s with
  | [] => false
  | id :: _ =>
      match comps s !! id with
      | Some c => bool_decide (type_ c = DRM_COMPOSITION_TYPE_FRAME) && squash_missing s c
      | None => false
      end
  end.

(** The worker gets to it when OpenGL is there. *)
Definition composite_faults (s : compositor) : bool :=
  (pre_compositor_ s || (fst (gl_init (the_world s)) =? 0)) && next_faults s.

Lemma Composite_faults s : composite_faults s = true -> Composite s = Fault.
Proof.
  unfold composite_faults, next_faults. intros [Hgl Hn]%andb_true_iff. destruct (composite_queue_ s) as [|id q] eqn:Eq; [done|].
  destruct (comps s !! id) as [c|] eqn:Ec; [|done]. apply andb_true_iff in Hn as [Ht%bool_decide_eq_true Hm].
  assert (forall s1, comps s1 = comps s -> composite_queue_ s1 = id :: q -> squash_missing s1 c = true -> composite_next s1 = Fault) as Hnext.
  { intros s1 E1 E2 Hm1. unfold composite_next, mbind, C_bind, get, modify, the_comp, lift. cbn. rewrite E2. cbn.
    unfold mbind, C_bind, get. cbn. rewrite E1, Ec. cbn. rewrite Ht. unfold composite_frame, mbind, C_bind.
    rewrite (squash_missing_faults _ id c); [done|cbn; by rewrite E1|exact Hm1]. }
  unfold Composite, init_pre_compositor, ask, mbind, C_bind, get, modify. cbn. destruct (pre_compositor_ s); cbn; [by apply Hnext|].
  destruct (gl_init (the_world s)) as [ret w]. cbn in *. apply Z.eqb_eq in Hgl as ->. by apply Hnext.
Qed.

Lemma composite_next_wp ready held s (Q : Z -> compositor -> Prop) : inv ready held s -> next_faults s = false ->
  (forall ret s', inv ready held s' -> Q ret s') -> wp composite_next Q s.
Proof.
  intros I Hre HQ. unfold composite_next. apply wpc_bind, wpc_get. destruct (composite_queue_ s) as [|id q] eqn:Eq; [by apply wpc_ret, HQ|].
  destruct (inv_dequeue _ _ _ _ _ I Eq) as [I1 Hq]. destruct (held_lookup _ _ _ id I1) as [c Hc]; [by left|].
  change (comps s !! id = Some c) in Hc. unfold next_faults in Hre. rewrite Eq, Hc in Hre. apply wpc_bind, wpc_modify, wpc_bind, (wp_the_comp _ c); [done|].
  assert (forall ret s', inv ready (id :: held) s' -> wp (reset id;; mret ret) Q s') as Hreset.
  { intros ret s' I'. eapply reset_more_wp; [exact I'|]. intros. by apply HQ. }
  destruct (type_ c) eqn:Et; [by apply Hreset|eapply composite_frame_wp; [done..| |exact HQ]; by apply squash_there| |].
  - apply wpc_bind, (ApplyDpms_wp _ c); [done|]. intros ret s3 W. by eapply Hreset, inv_only_world.
  - apply wpc_bind. eapply composite_modeset_wp; [exact I1|by exists c|]. intros ret s3 I3. by apply Hreset.
Qed.

Lemma Composite_wp ready held s (Q : Z -> compositor -> Prop) : inv ready held s -> composite_faults s = false ->
  (forall ret s', inv ready held s' -> Q ret s') -> wp Composite Q s.
Proof.
  intros I Hre HQ. unfold composite_faults in Hre. unfold Composite, init_pre_compositor. apply wpc_bind, wpc_bind, wpc_get, wpc_bind, wpc_modify.
  set (s1 := set_rest _ _ _ true _ s). assert (inv ready held s1) as I1 by (by apply inv_world).
  destruct (pre_compositor_ s); [apply wpc_ret; by eapply composite_next_wp|]. apply wpc_ask. intros ret w Eg. cbn [the_world set_rest s1] in Eg.
  rewrite Eg in Hre. cbn [orb fst] in Hre. destruct (ret =? 0); cbn [negb]; [|by apply wpc_ret, HQ, inv_world]. eapply composite_next_wp; [by apply inv_world|exact Hre|exact HQ].
Qed.

Lemma squash_active_wp s (Q : Z * option nat -> compositor -> Prop) : inv [] [] s ->
  (forall ret o s', inv (option_list o) [] s' ->
     (forall n, o = Some n -> exists a c, active_composition_ s = Some a /\ comps s !! a = Some c /\ squashed_from c n s') -> Q (ret, o) s') ->
  wp squash_active Q s.
Proof.
  intros I HQ. unfold squash_active. apply wpc_bind, wpc_get. destruct (active_composition_ s) as [a|] eqn:Ha; [|by apply wpc_ret, HQ].
  assert (a ∈ live [] s) as Hl by (apply elem_of_live; auto). assert (a ∈ places [] [] s) as Hp by (apply elem_of_places; auto).
  destruct (proj2 (inv_dom _ _ _ I a) (inv_in _ _ _ I a Hp)) as [c Hc]. apply wpc_bind, (wp_the_comp _ c); [done|].
  apply wpc_bind. eapply CreateComposition_wp; [exact I|]. intros s1 n I1 Hn Hsame Hfresh Hq1 Ha1 Hf1 Hfb1 Hac1. clearbody n.
  assert (a ∈ live [] s1) as Hl1 by (apply elem_of_live; right; left; congruence).
  assert (n <> a) as Hne by (intros ->; by destruct (held_apart _ _ _ a I1) as (_ & ? & _); [left|]).
  assert (comps s1 !! a = Some c) as Hc1 by (by rewrite Hsame).
  assert (live_ok c) as Hlive by (by apply (inv_comps _ _ _ I1 a c Hc1)).
  assert (a ∈ places [] [n] s1) as Hp1 by (apply elem_of_places; auto).
  assert (a ∉ composite_queue_ s1) as Hq.
  { intros Hin. pose proof (inv_nodup _ _ _ I1) as Hnd. unfold places in Hnd. apply list.NoDup_app in Hnd as (_ & Hnd & _).
    apply (Hnd a Hin), elem_of_app. by left. }
  apply wpc_bind. eapply (SquashFrame_wp any_order sizes [] [n] a n c s1 (not_eq_sym Hne) ltac:(by left) Hlive Hp1 Hq s1 (crtc_ c)).
  - split; [done|]. by apply squashing_refl; [|apply Hlive].
  - done.
  - done.
  - done.
  - intros ret s2 [I2 _] Hret. destruct (Z.eqb_spec ret 0) as [-> |Hr]; cbn [negb].
    + destruct (Hret eq_refl) as [Hs Hf]. apply wpc_ret, HQ; [by apply inv_kept|]. intros n' [= <-]. by exists a, c.
    + eapply reset_more_wp; [exact I2|]. intros s3 I3. by apply HQ.
Qed.

Lemma FrameRoutine_wp ready held s (Q : unit -> compositor -> Prop) : inv ready held s -> frame_queue_ s <> [] ->
  (forall s', inv ready held s' -> (forall j, j ∈ held -> comps s' !! j = comps s !! j) -> Q tt s') -> wp FrameRoutine Q s.
Proof.
  intros I Hne HQ. unfold FrameRoutine. apply wpc_bind, wpc_get. destruct (frame_queue_ s) as [|f q] eqn:Eq; [done|].
  destruct (inv_frames _ _ _ I f) as [id ->]; [rewrite Eq; by left|]. destruct (inv_take_frame _ _ _ _ _ I Eq) as [I1 Hs].
  apply wpc_bind, wpc_modify. eapply ApplyFrame_wp; [done..|]. intros s' I' A. apply HQ; [done|].
  intros j Hj. exact (held_kept _ _ _ _ _ _ I1 A Hj).
Qed.

(** What the client may queue. *)
Record client_ok (c : DrmDisplayComposition) : Prop := { client_timed : timed c; client_queued : queued_ok c }.

Lemma client_queue_wp c ready held s (Q : Z -> compositor -> Prop) : inv ready held s -> client_ok c ->
  (forall ret s', inv ready held s' -> (forall j, j ∈ held -> comps s' !! j = comps s !! j) -> Q ret s') -> wp (client_queue c) Q s.
Proof.
  intros I [Ht Hq] HQ. unfold client_queue. apply wpc_bind. eapply CreateComposition_wp; [exact I|].
  intros s1 n I1 Hn Hsame Hfresh _ _ _ _ _. clearbody n. pose proof (held_once _ _ _ _ I1) as Hnot. apply wpc_bind, wp_set_comp. pose proof (queued_time _ Hq).
  eapply (QueueComposition_wp _ c); [apply inv_set_held; [exact I1|by left|exact Ht|lia]|cbn; by rewrite lookup_insert_eq| |].
  - split; [exact Hfresh|]. intros d. cbn. rewrite lookup_insert_eq. by intros [= <-].
  - intros ret s' I' Hk. apply HQ; [done|]. intros j Hj. assert (j <> n) by congruence. rewrite (Hk j Hj). cbn.
    rewrite lookup_insert_ne by congruence. by apply Hsame.
Qed.

End Steps.

(** ** Every interleaving *)

Section Machine.
Context `{SyncLib} `{DrmLib}.

Definition start (connector : option DrmConnector) (crtc : option DrmCrtc) (w : world) : machine :=
  MkMachine (new_compositor connector crtc w) None.

(** What the client may do: it queues compositions that are well formed. *)
Definition legal (a : action) : Prop := match a with AQueue c => client_ok c | _ => True end.

(** Where the code dereferences a null pointer: the worker, when the next frame
    shows the framebuffer of the squash again and it has no buffer, and the frame
    worker, when it is woken up without a frame. *)
Definition faults (m : machine) (a : action) : bool :=
  match a with
  | AComposite => match squashed_comp m with None => composite_faults (sys m) | Some _ => false end
  | AWake => match frame_queue_ (sys m) with [] => true | _ => false end
  | _ => false
  end.

Inductive reachable (m0 : machine) : machine -> Prop :=
| reach_start : reachable m0 m0
| reach_next m a m' : reachable m0 m -> legal a -> run_action a m = Done m' -> reachable m0 m'.

Definition machine_ok (m : machine) : Prop := inv (option_list (squashed_comp m)) [] (sys m).

Lemma start_ok connector crtc w : machine_ok (start connector crtc w).
Proof.
  assert (forall n k fb, replicate n no_framebuffer !! k = Some fb -> fb_user fb = None) as Hnone.
  { intros n k fb [-> _]%lookup_replicate. done. }
  constructor; cbn -[replicate]; try by (intros *; rewrite ?lookup_empty, ?elem_of_nil; done).
  - intros id. rewrite lookup_empty. split; [by intros [? ?]|lia].
  - apply NoDup_nil_2.
  - rewrite !length_replicate. unfold DRM_DISPLAY_BUFFERS. lia.
  - intros k fb id Hk%Hnone. congruence.
  - intros _ id. by rewrite elem_of_nil.
  - intros _ b. by rewrite elem_of_nil.
Qed.

Context (any_order : forall l, unordered l ≡ₚ l) (sizes : sizes_ok).

(** A step from a state that is well formed. *)
Definition step_ok (m : machine) (a : action) (o : outcome machine) : Prop :=
  match o with
  | Done m' => machine_ok m' /\ faults m a = false
  | Fault => faults m a = true
  | Timeout => faults m a = false
  end.

Lemma run_wp {A} (c : C A) (f : compositor -> machine) m a s : faults m a = false -> wp c (fun _ s' => machine_ok (f s')) s ->
  step_ok m a ('(_, s') ← c s; Done (f s')).
Proof. unfold wp. intros Hf. destruct (c s) as [[x s']| |]; done. Qed.

Lemma run_action_ok m a : machine_ok m -> legal a -> step_ok m a (run_action a m).
Proof.
  destruct m as [s o]. unfold machine_ok. cbn [sys squashed_comp]. intros I Hl. destruct a; cbn [run_action sys squashed_comp].
  - apply (run_wp _ (fun s => MkMachine s o)); [done|]. eapply client_queue_wp; [exact I|exact Hl|done].
  - destruct o; [done|]. destruct (composite_faults s) eqn:Ef; [by rewrite Composite_faults|].
    apply (run_wp _ (fun s => MkMachine s None)); [done|]. by eapply Composite_wp.
  - destruct o; [done|]. assert (wp squash_active (fun '(_, o) s' => inv (option_list o) [] s') s) as Hwp.
    { eapply squash_active_wp; [done..|exact I|done]. }
    unfold wp in Hwp. by destruct (squash_active s) as [[[ret o] s']| |].
  - destruct o as [id|]; [|done]. destruct (inv_unkeep _ _ _ I) as [I' Hs]. apply (run_wp _ (fun s => MkMachine s None)); [done|].
    by eapply ApplyFrame_wp.
  - destruct (frame_queue_ s) as [|f q] eqn:Eq; [done|]. apply (run_wp _ (fun s => MkMachine s o)); [done|].
    eapply FrameRoutine_wp; [exact I|by rewrite Eq|done].
  - destruct (frame_queue_ s) as [|f q] eqn:Eq; [|unfold step_ok, faults; cbn; by rewrite Eq].
    unfold FrameRoutine, mbind, C_bind. cbn. rewrite Eq. unfold step_ok, faults. cbn. by rewrite Eq.
Qed.

Lemma reachable_ok connector crtc w m : reachable (start connector crtc w) m -> machine_ok m.
Proof.
  induction 1 as [|m a m' _ IH Hl E]; [apply start_ok|]. pose proof (run_action_ok m a IH Hl) as Hr. rewrite E in Hr. apply Hr.
Qed.

(** What the worker keeps while the others go on. *)
Lemma others_keep m a m' id : machine_ok m -> legal a -> squashed_comp m = Some id -> a <> AApplySquashed -> run_action a m = Done m' ->
  machine_ok m' /\ squashed_comp m' = Some id /\ comps (sys m') !! id = comps (sys m) !! id.
Proof.
  intros I Hl Ho Ha E. pose proof (run_action_ok m a I Hl) as Hok. rewrite E in Hok. split; [apply Hok|]. revert E.
  destruct m as [s o]. cbn in Ho. subst o. unfold machine_ok in I. destruct (inv_unkeep _ _ _ I) as [I0 _]. cbn [sys squashed_comp] in *.
  assert (forall (A : Type) (c : C A), wp c (fun _ s' => forall j, j ∈ [id] -> comps s' !! j = comps s !! j) s ->
    ('(_, s') ← c s; Done (MkMachine s' (Some id))) = Done m' -> squashed_comp m' = Some id /\ comps (sys m') !! id = comps s !! id) as Hrun.
  { intros A c Hwp. unfold wp in Hwp. destruct (c s) as [[x s']| |]; [|done|done]. intros [= <-]. split; [done|]. apply Hwp. by left. }
  destruct a; cbn [run_action sys squashed_comp]; [|done|done|done| |].
  - apply Hrun. eapply client_queue_wp; [exact I0|exact Hl|done].
  - destruct (frame_queue_ s) as [|f q] eqn:Eq; [done|]. apply Hrun. eapply FrameRoutine_wp; [exact I0|by rewrite Eq|done].
  - destruct (frame_queue_ s) as [|f q] eqn:Eq; [|done]. unfold FrameRoutine, mbind, C_bind. cbn. by rewrite Eq.
Qed.

Lemma others_run l id : forall m m', machine_ok m -> Forall legal l -> squashed_comp m = Some id -> AApplySquashed ∉ l ->
  run_actions l m = Done m' -> machine_ok m' /\ squashed_comp m' = Some id /\ comps (sys m') !! id = comps (sys m) !! id.
Proof.
  induction l as [|a l IH]; intros m m' I Hl Ho Ha E; cbn in E; [by injection E as <-|]. apply Forall_cons_1 in Hl as [Hla Hl].
  apply not_elem_of_cons in Ha as [Hna Ha]. destruct (run_action a m) as [m1| |] eqn:E1; [|done|done].
  destruct (others_keep m a m1 id I Hla Ho (not_eq_sym Hna) E1) as (I1 & Ho1 & Hc1).
  destruct (IH m1 m' I1 Hl Ho1 Ha E) as (I2 & Ho2 & Hc2). split_and!; [done|done|congruence].
Qed.

End Machine.

(** ** Operations that leave a part of the state alone, and wait for nothing *)

Section Views.
Context `{SyncLib} `{DrmLib}.

(** A part of the state that neither the world nor a composition is in. *)
Class Quiet {V : Type} (view : compositor -> V) : Prop := {
  quiet_world : forall w s, view (set_rest (next_comp s) (next_buffer s) (renders s) (pre_compositor_ s) w s) = view s;
  quiet_comps : forall f s, view (on_comps f s) = view s
}.

Context {V : Type} (view : compositor -> V) `{!Quiet view}.

Definition keeps {A} (m : C A) : Prop :=
  forall s, match m s with Done (_, s') => view s' = view s | Fault => True | Timeout => False end.

Lemma kq_ret {A} (a : A) : keeps (mret a).
Proof. done. Qed.

Lemma kq_bind {A B} (m : C A) (f : A -> C B) : keeps m -> (forall a, keeps (f a)) -> keeps (m ≫= f).
Proof.
  intros Hm Hf s. unfold mbind, C_bind, outcome_bind. specialize (Hm s). destruct (m s) as [[a s1]| |]; cbn; [|done|done].
  specialize (Hf a s1). destruct (f a s1) as [[b s2]| |]; [congruence|done|done].
Qed.

Lemma kq_get : keeps get.
Proof. done. Qed.

Lemma kq_modify f : (forall s, view (f s) = view s) -> keeps (modify f).
Proof. intros Hf s. apply Hf. Qed.

Lemma kq_lift {A} (m : outcome A) : m <> Timeout -> keeps (lift m).
Proof. intros Hm s. unfold lift. by destruct m. Qed.

Lemma kq_ask {A} (f : world -> A * world) : keeps (ask f).
Proof. intros s. unfold ask, mbind, C_bind, get, modify. cbn. destruct (f (the_world s)) as [a w]. apply quiet_world. Qed.

Lemma kq_the_comp id : keeps (the_comp id).
Proof. apply kq_bind; [apply kq_get|]. intros s. apply kq_lift. by destruct (comps s !! id). Qed.

Lemma kq_set_comp id c : keeps (set_comp id c).
Proof. apply kq_modify. intros s. apply quiet_comps. Qed.

Lemma kq_on_comp {A} id (f : DrmDisplayComposition -> outcome (A * DrmDisplayComposition)) :
  (forall c, f c <> Timeout) -> keeps (on_comp id f).
Proof.
  intros Hf. apply kq_bind; [apply kq_the_comp|]. intros c. apply kq_bind; [by apply kq_lift|]. intros [a c'].
  apply kq_bind; [apply kq_set_comp|]. intros _. apply kq_ret.
Qed.

Lemma kq_if {A} (b : bool) (m1 m2 : C A) : keeps m1 -> keeps m2 -> keeps (if b then m1 else m2).
Proof. by destruct b. Qed.

Lemma access_returns {A} (o : option A) : access o <> Timeout.
Proof. by destruct o. Qed.

Lemma bind_returns {A B} (m : outcome A) (f : A -> outcome B) : m <> Timeout -> (forall a, f a <> Timeout) -> (m ≫= f) <> Timeout.
Proof. intros Hm Hf. destruct m; [apply Hf|done|done]. Qed.

Lemma int_checked_returns z : int_checked z <> Timeout.
Proof. unfold int_checked. by destruct (_ && _). Qed.

Lemma increase_returns p c : IncreaseTimelineToPoint p c <> Timeout.
Proof.
  unfold IncreaseTimelineToPoint. apply bind_returns; [apply int_checked_returns|]. intros n. by repeat case_match.
Qed.

Lemma destroy_returns c : (c ← destroy c; Done (tt, c)) <> Timeout.
Proof.
  apply bind_returns; [|done]. unfold destroy. case_match; [|done]. apply bind_returns; [apply increase_returns|]. by intros [].
Qed.

Lemma fixed_returns x : fixed_16_16 x <> Timeout.
Proof. unfold fixed_16_16. apply bind_returns; [apply access_returns|]. intros z. by destruct (_ && _). Qed.

Lemma layer_props_returns p crtc fb l : layer_props p crtc fb l <> Timeout.
Proof.
  unfold layer_props. repeat (apply bind_returns; [first [apply int_checked_returns|apply fixed_returns]|intros ?]). done.
Qed.

End Views.

Create HintDb queues.
#[export] Hint Resolve kq_ret kq_get kq_ask kq_the_comp kq_set_comp access_returns increase_returns destroy_returns layer_props_returns : queues.

Ltac keep_view :=
  repeat first [progress eauto with queues | apply kq_if | apply kq_bind; [|intros ?] | apply kq_lift | case_match].

Section Frames.
Context `{SyncLib} `{DrmLib} {V : Type} (view : compositor -> V) `{!Quiet view}.

Lemma kq_add_all l : forall pset, keeps view (add_all l pset).
Proof. induction l as [|[[o p] v] l IH]; intros pset; cbn [add_all]; keep_view. Qed.

Lemma kq_add_until l : forall pset, keeps view (add_until l pset).
Proof. induction l as [|[[o p] v] l IH]; intros pset; cbn [add_until]; keep_view. Qed.

Lemma kq_acquire_wait n : forall t f, keeps view (acquire_wait n t f).
Proof. induction n as [|n IH]; intros t f; cbn [acquire_wait]; keep_view. Qed.

#[local] Hint Resolve kq_add_all kq_add_until kq_acquire_wait : queues.

Lemma kq_commit_disable p pset : keeps view (commit_disable p pset).
Proof. unfold commit_disable. keep_view. Qed.

Lemma kq_commit_optional p prop v pset : keeps view (commit_optional p prop v pset).
Proof. unfold commit_optional. keep_view. Qed.

#[local] Hint Resolve kq_commit_disable kq_commit_optional : queues.

Lemma kq_commit_plane id test p pset : keeps view (commit_plane id test p pset).
Proof. unfold commit_plane, commit_layer. keep_view. Qed.

Lemma kq_commit_planes id test planes : forall pset, keeps view (commit_planes id test planes pset).
Proof. pose proof kq_commit_plane. induction planes as [|p planes IH]; intros pset; cbn [commit_planes]; keep_view. Qed.

Lemma kq_commit_mode conn crtc pset : keeps view (commit_mode conn crtc pset).
Proof. unfold commit_mode. keep_view. Qed.

Lemma kq_ApplyDpms id : keeps view (ApplyDpms id).
Proof. unfold ApplyDpms. keep_view. Qed.

Lemma kq_DestroyPropertyBlob b : keeps view (DestroyPropertyBlob b).
Proof. unfold DestroyPropertyBlob. keep_view. Qed.

Lemma kq_disable_all planes : forall pset, keeps view (disable_all planes pset).
Proof. induction planes as [|p planes IH]; intros pset; cbn [disable_all]; keep_view. Qed.

#[local] Hint Resolve kq_commit_planes kq_commit_mode kq_ApplyDpms kq_DestroyPropertyBlob kq_disable_all : queues.

Lemma kq_DisablePlanes id : keeps view (DisablePlanes id).
Proof. unfold DisablePlanes. keep_view. Qed.

Lemma kq_on_comp_done id : keeps view (on_comp id SignalCompositionDone).
Proof. apply kq_on_comp; [done|]. intros c. apply increase_returns. Qed.

Lemma kq_reset id : keeps view (reset id).
Proof. apply kq_on_comp; [done|apply destroy_returns]. Qed.

Context (quiet_mode : forall m c s, view (set_mode m c s) = view s).

Lemma kq_finish_modeset id ret : keeps view (finish_modeset id ret).
Proof. unfold finish_modeset. keep_view. apply kq_modify. intros ?. apply quiet_mode. Qed.

#[local] Hint Resolve kq_finish_modeset kq_DisablePlanes kq_on_comp_done kq_reset : queues.

Lemma kq_CommitFrame id test : keeps view (CommitFrame id test).
Proof. unfold CommitFrame. keep_view. Qed.

#[local] Hint Resolve kq_CommitFrame : queues.

Context (quiet_active : forall a s, view (set_queues (composite_queue_ s) (frame_queue_ s) a s) = view s).

Lemma kq_set_active_composition a : keeps view (set_active_composition a).
Proof. apply kq_modify. intros s. apply quiet_active. Qed.

#[local] Hint Resolve kq_set_active_composition : queues.

Lemma kq_ApplyFrame o status : keeps view (ApplyFrame o status).
Proof. unfold ApplyFrame, ClearDisplay. keep_view. Qed.

End Frames.

(** The queues, and the framebuffers of the precomposition. *)
Definition queues_and_buffers `{SyncLib} `{DrmLib} (s : compositor) :=
  (frame_queue_ s, composite_queue_ s, framebuffer_index_ s, framebuffers_ s, pre_compositor_ s).

#[export] Instance quiet_queues `{SyncLib} `{DrmLib} : Quiet queues_and_buffers.
Proof. by constructor. Qed.

Definition mode_and_connector `{SyncLib} `{DrmLib} (s : compositor) := (mode_ s, connector_ s).

#[export] Instance quiet_mode_and_connector `{SyncLib} `{DrmLib} : Quiet mode_and_connector.
Proof. by constructor. Qed.

#[export] Instance quiet_shown `{SyncLib} `{DrmLib} : Quiet active_composition_.
Proof. by constructor. Qed.

(** ** What holds in every interleaving *)

Section Interleavings.
Context `{SyncLib} `{DrmLib}.

Lemma FrameRoutine_takes s o status q : frame_queue_ s = (o, status) :: q ->
  FrameRoutine s = ApplyFrame o status (set_queues (composite_queue_ s) q (active_composition_ s) s).
Proof. intros E. unfold FrameRoutine, mbind, C_bind. cbn [get mbind outcome_bind]. by rewrite E. Qed.


(** C3.  No framebuffer is rendered into while it is used, provided that the
    descriptor of a release fence is never 0, which the code takes for a framebuffer
    without a fence.  In every reachable state, whenever a framebuffer of the
    precomposition was rendered into, the frame it had been rendered for before was
    neither waiting for its commit nor on the screen; and the framebuffers of a frame
    that waits, is shown or is about to be applied have a release fence that is not
    signalled.  The timelines' increments and everything else may fail.  The other
    hypotheses are those of [legal_actions_never_fault]: the order of sets, sizes
    below 65536 and clients that queue well-formed compositions. *)
Theorem framebuffers_kept connector crtc w m :
  (forall l, unordered l ≡ₚ l) -> sizes_ok -> fences_made -> reachable (start connector crtc w) m ->
  (forall used, used ∈ renders (sys m) -> used = false) /\
  forall k fb id, framebuffers_ (sys m) !! k = Some fb -> fb_user fb = Some id -> in_use (sys m) id = true \/ squashed_comp m = Some id ->
    exists f, release_fence_fd fb = Some f /\ fence_signalled (sys m) f = false.
Proof.
  intros any_order sizes Hm Hr. pose proof (reachable_ok any_order sizes _ _ _ _ Hr) as I. split; [by apply (inv_renders _ _ _ I)|].
  intros k fb id Hk Hu Huse. assert (id ∈ live (option_list (squashed_comp m)) (sys m)) as Hl.
  { destruct Huse as [?|E]; [by apply in_use_live|]. rewrite E. apply elem_of_live. right. right. by left. }
  destruct (inv_fenced _ _ _ I Hm id Hl k fb Hk Hu) as (_ & f & c & Hf & Hfc & Hc & Hlt). exists f. split; [done|].
  unfold fence_signalled. rewrite Hfc, Hc. lia.
Qed.

(** The frame worker takes its next frame. *)
Lemma frame_step m f q : (forall l, unordered l ≡ₚ l) -> sizes_ok -> machine_ok m -> frame_queue_ (sys m) = f :: q ->
  exists m', run_action AFrame m = Done m' /\ machine_ok m' /\ frame_queue_ (sys m') = q /\
    composite_queue_ (sys m') = composite_queue_ (sys m) /\ squashed_comp m' = squashed_comp m.
Proof.
  intros any_order sizes I Hq. pose proof (run_action_ok any_order sizes m AFrame I ltac:(done)) as Hok. revert Hok.
  destruct f as [o status]. cbn [run_action]. rewrite Hq, (FrameRoutine_takes _ _ _ _ Hq). set (s1 := set_queues _ q _ _).
  pose proof (kq_ApplyFrame queues_and_buffers (fun _ _ _ => eq_refl) (fun _ _ => eq_refl) o status s1) as Hk.
  destruct (ApplyFrame o status s1) as [[[] s2]| |]; cbn; [|done|done]. intros [Hok _]. injection Hk as Hf Hc _ _ _.
  eexists. split_and!; [done|exact Hok|exact Hf|exact Hc|done].
Qed.

Lemma frames_done n : (forall l, unordered l ≡ₚ l) -> sizes_ok -> forall m, machine_ok m -> length (frame_queue_ (sys m)) = n ->
  exists m', run_actions (replicate n AFrame) m = Done m' /\ machine_ok m' /\ frame_queue_ (sys m') = [] /\
    composite_queue_ (sys m') = composite_queue_ (sys m) /\ squashed_comp m' = squashed_comp m.
Proof.
  intros any_order sizes. induction n as [|n IH]; intros m I Hlen.
  - exists m. split_and!; [done..| |done|done]. by apply length_zero_iff_nil.
  - destruct (frame_queue_ (sys m)) as [|f q] eqn:Hq; [done|]. injection Hlen as Hlen.
    destruct (frame_step m f q any_order sizes I Hq) as (m1 & E1 & I1 & Hq1 & Hc1 & Hs1).
    destruct (IH m1 I1) as (m2 & E2 & I2 & Hq2 & Hc2 & Hs2); [by rewrite Hq1|]. exists m2. split_and!; [|done..|congruence|congruence].
    cbn [replicate run_actions]. by rewrite E1, bind_Done_eq.
Qed.

(** C5.  No frame is lost, and no fence is kept for ever while the increments of
    timelines work.  In every reachable state a composition is in one place at the
    most: queued for the worker, waiting for its commit, on the screen, or about to
    be applied by SquashAll.  The frame worker never waits for anything but a frame:
    it takes all the frames that wait, whatever fails.  After that, provided that
    sw_sync_timeline_inc does not fail (the code logs such a failure and goes on),
    every release fence of every composition is signalled but of those that the
    worker has not taken yet, the one on the screen and the one about to be applied.
    The other hypotheses are those of [legal_actions_never_fault]: the order of sets,
    sizes below 65536 and clients that queue well-formed compositions. *)
Theorem frames_drain connector crtc w m :
  (forall l, unordered l ≡ₚ l) -> sizes_ok -> reachable (start connector crtc w) m ->
  NoDup (places (option_list (squashed_comp m)) [] (sys m)) /\
  exists m', run_actions (replicate (length (frame_queue_ (sys m))) AFrame) m = Done m' /\
    frame_queue_ (sys m') = [] /\ composite_queue_ (sys m') = composite_queue_ (sys m) /\
    (increments_work -> forall id c, comps (sys m') !! id = Some c -> id ∉ composite_queue_ (sys m') ->
      active_composition_ (sys m') <> Some id -> squashed_comp m' <> Some id -> timeline_current_ c = timeline_ c).
Proof.
  intros any_order sizes Hr. pose proof (reachable_ok any_order sizes _ _ _ _ Hr) as I. split; [apply (inv_nodup _ _ _ I)|].
  destruct (frames_done _ any_order sizes m I eq_refl) as (m' & E & I' & Hf & Hc & _). exists m'. split_and!; [done..|].
  intros Hw id c Hid Hq Ha Hs. apply (inv_released _ _ _ I' Hw id c Hid). rewrite elem_of_places, elem_of_live. unfold frame_ids.
  rewrite Hf. cbn. rewrite !elem_of_nil. destruct (squashed_comp m') as [j|]; cbn.
  - rewrite list_elem_of_singleton. intros [?|[[[]|[?|?]]|[]]]; congruence.
  - rewrite elem_of_nil. intros [?|[[[]|[?|[]]]|[]]]; congruence.
Qed.

(** ** What goes wrong *)

Lemma bind_step {A B} (m : C A) (f : A -> C B) s a s' : m s = Done (a, s') -> (m ≫= f) s = f a s'.
Proof. intros E. unfold mbind, C_bind. by rewrite E. Qed.

Lemma bind_waits {A B} (m : C A) (f : A -> C B) s : m s = Timeout -> (m ≫= f) s = Timeout.
Proof. intros E. unfold mbind, C_bind. by rewrite E. Qed.

Lemma keeps_Done {V A} (view : compositor -> V) (m : C A) s a s' : keeps view m -> m s = Done (a, s') -> view s' = view s.
Proof. intros Hk E. specialize (Hk s). by rewrite E in Hk. Qed.

(** A frame whose commit works is shown. *)
Lemma ApplyFrame_shows ready held s id d s1 : inv ready (id :: held) s -> showable s id -> comps s !! id = Some d ->
  CommitFrame id false s = Done (0, s1) ->
  exists s' l, ApplyFrame (Some id) 0 s = Done (tt, s') /\ shown id s1 s' /\ active_composition_ s1 = active_composition_ s /\
    comps s' !! id = Some (set_layers l d) /\ same_buffers l (layers_ d).
Proof.
  intros I Hs Hd E. assert (wp (ApplyFrame (Some id) 0) (fun _ => applied id s) s) as Hwp by (by eapply ApplyFrame_wp).
  pose proof (kq_ApplyFrame queues_and_buffers (fun _ _ _ => eq_refl) (fun _ _ => eq_refl) (Some id) 0 s) as Hk.
  assert (wp (CommitFrame id false) (fun _ => committing id d s) s) as Hc by (eapply CommitFrame_wp; [done..| |done| |done]; [by left|by apply Hs]).
  unfold wp in Hwp, Hc. rewrite E in Hc. destruct (ApplyFrame (Some id) 0 s) as [[[] s']| |]; [|done|done].
  destruct (cm_comp _ _ _ _ Hc) as (l & Hl & Hb & _). pose proof (ap_shown _ _ _ Hwp s1 E) as Sh. exists s', l.
  split_and!; [done|exact Sh|by apply Hc|by rewrite (sh_comp _ _ _ Sh)|done].
Qed.

(** C38.  SquashAll puts an old frame back on the screen.  It squashes the frame
    that is shown under the lock and applies the result after the lock is released.
    Whatever the client and the frame worker do in between, and whatever frame is
    shown by then: when the commit of the result works, the screen has one plane
    with the buffers of the frame that was shown when SquashAll began, in the order
    of its planes, and the frame that was shown in between is gone, all its fences
    signalled (when increments work).  The hypotheses are those of
    [legal_actions_never_fault]. *)
Theorem squashed_frame_is_stale connector crtc w m src c m1 id l m2 s3 :
  (forall l, unordered l ≡ₚ l) -> sizes_ok -> reachable (start connector crtc w) m ->
  active_composition_ (sys m) = Some src -> comps (sys m) !! src = Some c ->
  run_action ASquash m = Done m1 -> squashed_comp m1 = Some id ->
  Forall legal l -> AApplySquashed ∉ l -> run_actions l m1 = Done m2 ->
  CommitFrame id false (sys m2) = Done (0, s3) ->
  exists m3, run_action AApplySquashed m2 = Done m3 /\ active_composition_ (sys m3) = Some id /\ squashed_from c id (sys m3) /\
    (increments_work -> forall f c', active_composition_ (sys m2) = Some f -> comps (sys m3) !! f = Some c' -> released c').
Proof.
  intros any_order sizes Hr Ha Hsrc E1 Ho Hl Hn E2 E3. pose proof (reachable_ok any_order sizes _ _ _ _ Hr) as I.
  pose proof (run_action_ok any_order sizes m ASquash I ltac:(done)) as Hok. rewrite E1 in Hok. destruct Hok as [I1 _].
  assert (squashed_from c id (sys m1)) as (d & fb & pl & plane & Hd & Hb & Hp).
  { clear E2. destruct m as [s o]. cbn [run_action squashed_comp sys] in *. destruct o; [done|].
    assert (wp squash_active (fun '(_, o) s' => forall n, o = Some n -> exists a c, active_composition_ s = Some a /\ comps s !! a = Some c /\
      squashed_from c n s') s) as Hwp by (by eapply squash_active_wp). unfold wp in Hwp.
    destruct (squash_active s) as [[[ret o] s']| |]; [|done|done]. injection E1 as <-. cbn in Ho |- *.
    destruct (Hwp id Ho) as (a & c0 & Ha' & Hc' & Hsq). rewrite Ha in Ha'. injection Ha' as <-. rewrite Hsrc in Hc'. by injection Hc' as <-. }
  destruct (others_run any_order sizes l id m1 m2 I1 Hl Ho Hn E2) as (I2 & Ho2 & Hc2). rewrite <- Hc2 in Hd. clear E1 E2 I1 Ho Hc2.
  destruct m2 as [s o]. cbn in Ho2. subst o. destruct (inv_unkeep _ _ _ I2) as [I0 Hs].
  destruct (ApplyFrame_shows _ _ _ _ _ _ I0 Hs Hd E3) as (s' & ls & Ea & [Sa Sc Sm So] & Hact & Hd' & Hls).
  exists (MkMachine s' None). cbn [run_action squashed_comp sys] in *. rewrite Ea. cbn. split_and!; [done|done| |].
  - exists (set_layers ls d), fb, pl, plane. split_and!; [done|by rewrite <- Hb|]. cbn. by rewrite (same_buffers_length _ _ Hls).
  - intros Hw f c' Hf Hc'. rewrite Hact in So. by eapply So.
Qed.

(** The end of CommitFrame when the planes could not be added while a modeset is pending. *)
Lemma failed_planes_modeset id c s conn crt sa pset s1 ret pset' s2 s3 s4 :
  connector_ s = Some conn -> display_crtc_ s = Some crt -> needs_modeset (mode_ s) = true ->
  ask drmModeAtomicAlloc s = Done (true, sa) -> commit_mode conn crt [] sa = Done ((None, pset), s1) ->
  comps s1 !! id = Some c -> commit_planes id false (composition_planes_ c) pset s1 = Done ((ret, pset'), s2) -> ret <> 0 ->
  DestroyPropertyBlob (old_blob_id (mode_ s)) s2 = Done (0, s3) -> ApplyDpms id s3 = Done (0, s4) ->
  CommitFrame id false s = Done (0, set_mode (MkModeState false (mode (mode_ s)) 0 (blob_id (mode_ s)))
                                      (Some (MkConnector (connector_id conn) (mode (mode_ s)))) s4).
Proof.
  intros Hconn Hcrt Hneeds Ea Em Hc Ep Hret Ed Edp.
  pose proof (keeps_Done mode_and_connector _ _ _ _ (kq_ask _ _) Ea) as [= Ka Kca].
  pose proof (keeps_Done mode_and_connector _ _ _ _ (kq_commit_mode _ _ _ _) Em) as [= Km Kcm].
  pose proof (keeps_Done mode_and_connector _ _ _ _ (kq_commit_planes _ _ _ _ _) Ep) as [= Kp Kcp].
  pose proof (keeps_Done mode_and_connector _ _ _ _ (kq_DestroyPropertyBlob _ _) Ed) as [= Kd Kcd].
  pose proof (keeps_Done mode_and_connector _ _ _ _ (kq_ApplyDpms _ _) Edp) as [= Kdp Kcdp].
  unfold CommitFrame. rewrite (bind_step get _ s s s eq_refl), Hconn, Hcrt, (bind_step _ _ _ _ _ Ea). cbn [negb].
  rewrite (bind_step _ _ _ _ _ Em). cbn iota beta. rewrite (bind_step (the_comp id) _ s1 c s1).
  2:{ unfold the_comp, mbind, C_bind, get, lift. cbn. by rewrite Hc. }
  rewrite (bind_step _ _ _ _ _ Ep). cbn iota beta. rewrite (proj2 (Z.eqb_neq ret 0) Hret), (bind_step (mret 0) _ s2 0 s2 eq_refl).
  cbn [negb Z.eqb]. unfold finish_modeset. rewrite (bind_step get _ s2 s2 s2 eq_refl), Kp, Km, Ka, Hneeds. cbn [negb].
  rewrite (bind_step _ _ _ _ _ Ed). cbn [negb Z.eqb]. rewrite (bind_step _ _ _ _ _ Edp). cbn [negb Z.eqb].
  rewrite (bind_step get _ s4 s4 s4 eq_refl). unfold mbind at 1, C_bind at 1, modify. cbn.
  by rewrite Kdp, Kd, Kp, Km, Ka, Kcdp, Kcd, Kcp, Kcm, Kca, Hconn.
Qed.

(** The state in which the frame worker applies the frame it takes. *)
Definition without_frame (q : list (option nat * Z)) (m : machine) : compositor :=
  set_queues (composite_queue_ (sys m)) q (active_composition_ (sys m)) (sys m).

Lemma frame_applied m id q s' : frame_queue_ (sys m) = (Some id, 0) :: q -> ApplyFrame (Some id) 0 (without_frame q m) = Done (tt, s') ->
  run_action AFrame m = Done (MkMachine s' (squashed_comp m)).
Proof. intros Hq E. cbn [run_action]. rewrite Hq, (FrameRoutine_takes _ _ _ _ Hq). unfold without_frame in E. by rewrite E. Qed.

(** C39.  While a modeset is pending, a request that could not be built counts as
    shown.  The frame worker takes a frame; the request is allocated and takes the
    mode, and adding the frame's planes to it fails with [ret] (a fence that does
    not come, a property that cannot be set), so that nothing is committed.
    CommitFrame overwrites that error: when destroying the old mode's blob and
    setting the DPMS property succeed it returns 0, in the state after the two with
    the modeset done and the mode of the connector replaced; and the frame is the
    active one.  The hypotheses on sets, sizes and clients are those of
    [legal_actions_never_fault]. *)
Theorem failed_request_ends_modeset connector crtc w m id q c conn crt sa pset s1 ret pset' s2 s3 s4 :
  (forall l, unordered l ≡ₚ l) -> sizes_ok -> reachable (start connector crtc w) m ->
  frame_queue_ (sys m) = (Some id, 0) :: q -> comps (sys m) !! id = Some c ->
  connector_ (sys m) = Some conn -> display_crtc_ (sys m) = Some crt -> needs_modeset (mode_ (sys m)) = true ->
  ask drmModeAtomicAlloc (without_frame q m) = Done (true, sa) -> commit_mode conn crt [] sa = Done ((None, pset), s1) ->
  commit_planes id false (composition_planes_ c) pset s1 = Done ((ret, pset'), s2) -> ret <> 0 ->
  DestroyPropertyBlob (old_blob_id (mode_ (sys m))) s2 = Done (0, s3) -> ApplyDpms id s3 = Done (0, s4) ->
  let mode' := MkModeState false (mode (mode_ (sys m))) 0 (blob_id (mode_ (sys m))) in
  let connector' := Some (MkConnector (connector_id conn) (mode (mode_ (sys m)))) in
  CommitFrame id false (without_frame q m) = Done (0, set_mode mode' connector' s4) /\
  exists m', run_action AFrame m = Done m' /\ active_composition_ (sys m') = Some id /\
    mode_ (sys m') = mode' /\ connector_ (sys m') = connector'.
Proof.
  intros any_order sizes Hr Hq Hc Hconn Hcrt Hneeds Ea Em Ep Hret Ed Edp mode' connector'.
  pose proof (reachable_ok any_order sizes _ _ _ _ Hr) as I. destruct (inv_take_frame _ _ _ _ _ I Hq) as [I0 Hs].
  assert (comps s1 !! id = Some c) as Hc1.
  { pose proof (commit_mode_wp conn crt [] sa (fun _ s' => only_world sa s') (fun _ _ W => W)) as W. unfold wp in W. rewrite Em in W. destruct W as [w1 ->].
    unfold ask, mbind, C_bind, get, modify in Ea. cbn in Ea. destruct (drmModeAtomicAlloc _) as [a w2]. by injection Ea as -> <-. }
  pose proof (failed_planes_modeset id c (without_frame q m) conn crt sa pset s1 ret pset' s2 s3 s4 Hconn Hcrt Hneeds Ea Em Hc1 Ep Hret Ed Edp) as Ec.
  split; [exact Ec|]. destruct (ApplyFrame_shows _ _ _ _ _ _ I0 Hs Hc Ec) as (s' & ls & E & [Sa _ [Sm Sconn] _] & _).
  exists (MkMachine s' (squashed_comp m)). split_and!; [by eapply frame_applied|exact Sa|exact Sm|exact Sconn].
Qed.

(** ** The worker can wait for ever *)

(** The worker's next frame is to be composed, into a framebuffer that has the
    frame on the screen, and no frame waits. *)
Record stuck (a : nat) (s : compositor) : Prop := {
  st_gl : pre_compositor_ s = true;
  st_active : active_composition_ s = Some a;
  st_frames : frame_queue_ s = [];
  st_buffer : exists fb, framebuffers_ s !! framebuffer_index_ s = Some fb /\ fb_user fb = Some a;
  st_next : exists next q c, composite_queue_ s = next :: q /\ comps s !! next = Some c /\ type_ c = DRM_COMPOSITION_TYPE_FRAME /\
    squash_regions_ c = [] /\ UsesSquash (composition_planes_ c) = false /\ pre_comp_regions_ c <> []
}.

(** sync_wait without a time limit reports no error. *)
Definition waits_well : Prop := forall w, exists w', wait_error w = (0, w').

Lemma kept_buffer_waits ready held s a k fb : fences_made -> waits_well -> inv ready held s -> active_composition_ s = Some a ->
  framebuffers_ s !! k = Some fb -> fb_user fb = Some a -> WaitReleased (PreFb k) s = Timeout.
Proof.
  intros made well I Ha Hk Hu. destruct (inv_fenced _ _ _ I made a ltac:(apply elem_of_live; auto) k fb Hk Hu) as ([b Hb] & f & c & Hf & Hfc & Hc & Hlt).
  unfold WaitReleased. rewrite (bind_step (the_fb (PreFb k)) _ s fb s).
  2:{ unfold the_fb, mbind, C_bind, get, lift. cbn. by rewrite Hk. }
  unfold is_valid. rewrite Hb, Hf. cbn. destruct (well (the_world s)) as [w' Hw].
  rewrite (bind_step (ask wait_error) _ s 0 (set_rest (next_comp s) (next_buffer s) (renders s) (pre_compositor_ s) w' s)).
  2:{ unfold ask, mbind, C_bind, get, modify. cbn. by rewrite Hw. }
  cbn. unfold mbind, C_bind, get. cbn. unfold fence_signalled. cbn. rewrite Hfc, Hc.
  by rewrite (proj2 (Z.leb_gt _ _)) by lia.
Qed.

Lemma stuck_composite a s ready : fences_made -> waits_well -> inv ready [] s -> stuck a s -> Composite s = Timeout.
Proof.
  intros made well I [Hgl Ha Hf (fb & Hk & Hu) (next & q & c & Hq & Hc & Ht & Hsq & Huse & Hpre)].
  unfold Composite, init_pre_compositor. set (s1 := set_rest (next_comp s) (next_buffer s) (renders s) true (the_world s) s).
  rewrite (bind_step _ _ s 0 s1). 2:{ unfold mbind, C_bind, get, modify. cbn. by rewrite Hgl. }
  cbn [negb Z.eqb]. unfold composite_next. rewrite (bind_step get _ s1 s1 s1 eq_refl). change (composite_queue_ s1) with (composite_queue_ s). rewrite Hq.
  assert (inv ready [] s1) as I1 by (by apply inv_world). destruct (inv_dequeue _ _ _ _ _ I1 Hq) as [I2 _].
  set (s2 := set_queues q (frame_queue_ s1) (active_composition_ s1) s1) in *. rewrite (bind_step (modify _) _ s1 tt s2 eq_refl).
  assert (forall A (f : DrmDisplayComposition -> C A), (the_comp next ≫= f) s2 = f c s2) as Hthe.
  { intros A f. apply bind_step. unfold the_comp, mbind, C_bind, get, lift. cbn. by rewrite Hc. }
  rewrite Hthe, Ht. unfold composite_frame. apply bind_waits. unfold PrepareFrame, prepare_squash.
  rewrite (bind_step _ _ s2 (0, None) s2). 2:{ by rewrite Hthe, Hsq, Huse. }
  cbn [negb Z.eqb]. apply bind_waits. unfold prepare_pre_comp. rewrite Hthe. destruct (pre_comp_regions_ c) as [|g regions]; [done|].
  apply bind_waits. unfold ApplyPreComposite. rewrite (bind_step get _ s2 s2 s2 eq_refl). unfold apply_regions. apply bind_waits.
  unfold PrepareFramebuffer. apply bind_waits. by eapply kept_buffer_waits.
Qed.

(** What the client's queueing leaves alone. *)
Lemma client_queue_effect d s r s' : client_queue d s = Done (r, s') ->
  pre_compositor_ s' = pre_compositor_ s /\ active_composition_ s' = active_composition_ s /\ frame_queue_ s' = frame_queue_ s /\
  framebuffers_ s' = framebuffers_ s /\ framebuffer_index_ s' = framebuffer_index_ s /\
  (exists l, composite_queue_ s' = composite_queue_ s ++ l) /\ forall j, j <> next_comp s -> comps s' !! j = comps s !! j.
Proof.
  unfold client_queue, CreateComposition, QueueComposition, reset, on_comp, the_comp, set_comp, mbind, C_bind, get, modify, lift. cbn.
  rewrite lookup_insert_eq. cbn.
  assert (forall j, j <> next_comp s -> forall x y, <[next_comp s := x]> (<[next_comp s := y]> (comps s)) !! j = comps s !! j) as Hj.
  { intros j Hj x y. by rewrite !lookup_insert_ne by congruence. }
  destruct (type_ d); cbn; rewrite ?lookup_insert_eq; cbn.
  all: repeat match goal with |- context [destroy ?x] => destruct (destroy x); cbn; [|done|done] | |- context [if ?b then _ else _] => destruct b; cbn
       | |- context [lookup ?i (insert ?i _ _)] => rewrite lookup_insert_eq; cbn end; try done; intros [= <- <-]; cbn.
  all: split_and!; try done; try (by exists [next_comp s]); try (exists []; by rewrite app_nil_r).
  all: intros j Hne; rewrite ?lookup_insert_ne by congruence; done.
Qed.

Lemma stuck_queue a d s r s' ready held : inv ready held s -> stuck a s -> client_queue d s = Done (r, s') -> stuck a s'.
Proof.
  intros I [Hgl Ha Hf (fb & Hk & Hu) (next & q & c & Hq & Hc & Hnext)] E.
  destruct (client_queue_effect _ _ _ _ E) as (Egl & Ea & Ef & Eb & Ei & (l & Eq) & Ec).
  constructor; [congruence..|exists fb; by rewrite Eb, Ei|]. exists next, (q ++ l), c. split_and!; [by rewrite Eq, Hq| |apply Hnext..].
  rewrite Ec; [done|]. intros ->. pose proof (inv_in _ _ _ I (next_comp s)) as Hin. rewrite elem_of_places, Hq in Hin.
  specialize (Hin (or_introl (list_elem_of_here _ _))). lia.
Qed.

Lemma stuck_queues a cs : (forall l, unordered l ≡ₚ l) -> sizes_ok -> forall m m', machine_ok m -> Forall client_ok cs ->
  stuck a (sys m) -> run_actions (AQueue <$> cs) m = Done m' -> machine_ok m' /\ stuck a (sys m') /\ squashed_comp m' = squashed_comp m.
Proof.
  intros any_order sizes. induction cs as [|d cs IH]; intros m m' I Hcs Hst E; [by injection E as <-|].
  apply Forall_cons_1 in Hcs as [Hd Hcs]. cbn [fmap list_fmap run_actions] in E.
  pose proof (run_action_ok any_order sizes m (AQueue d) I Hd) as Hok. cbn [run_action] in *.
  destruct (client_queue d (sys m)) as [[r s]| |] eqn:Eq; [|done|done]. rewrite !bind_Done_eq in *. cbn in Hok.
  destruct (IH (MkMachine s (squashed_comp m)) m') as (I' & Hst' & Ho'); [apply Hok|done|by eapply stuck_queue|done|]. done.
Qed.

(** A full queue is waited for. *)
Lemma full_queue d s : (2 <= length (composite_queue_ s))%nat -> type_ d <> DRM_COMPOSITION_TYPE_EMPTY ->
  (type_ d = DRM_COMPOSITION_TYPE_FRAME -> active_ s = true) -> client_queue d s = Timeout.
Proof.
  intros Hlen Hne Ha. unfold client_queue, CreateComposition, QueueComposition, the_comp, set_comp, mbind, C_bind, get, modify, lift. cbn.
  rewrite lookup_insert_eq. cbn. unfold DRM_DISPLAY_COMPOSITOR_MAX_QUEUE_DEPTH.
  destruct (composite_queue_ s) as [|i1 [|i2 l]] eqn:Eq; [cbn in Hlen; lia..|].
  destruct (type_ d); [done|rewrite (Ha eq_refl)|..]; cbn; by rewrite Eq.
Qed.

(** A frame that cannot be committed, when the screen cannot be cleared. *)
Lemma failed_frame m a id c ret s1 r s2 q : machine_ok m -> active_composition_ (sys m) = Some a -> comps (sys m) !! id = Some c ->
  frame_queue_ (sys m) = (Some id, 0) :: q -> CommitFrame id false (without_frame q m) = Done (ret, s1) -> ret <> 0 ->
  DisablePlanes a s1 = Done (r, s2) -> r <> 0 ->
  exists s', ApplyFrame (Some id) 0 (without_frame q m) = Done (tt, s') /\ active_composition_ s' = Some a /\
    forall j, j <> id -> active_composition_ (sys m) <> Some j -> comps s' !! j = comps (sys m) !! j.
Proof.
  intros I Ha Hc Hq E1 Hret E2 Hr. destruct (inv_take_frame _ _ _ _ _ I Hq) as [I0 Hs].
  pose proof (keeps_Done active_composition_ _ _ _ _ (kq_CommitFrame active_composition_ (fun _ _ _ => eq_refl) _ _) E1) as K1. cbn in K1.
  pose proof (keeps_Done active_composition_ _ _ _ _ (kq_DisablePlanes _ _) E2) as K2.
  assert (wp (ApplyFrame (Some id) 0) (fun _ => applied id (without_frame q m)) (without_frame q m)) as Hwp by (by eapply ApplyFrame_wp).
  revert Hwp. unfold wp. assert (ApplyFrame (Some id) 0 (without_frame q m) = reset id s2) as ->.
  { unfold ApplyFrame. cbn [Z.eqb]. rewrite (bind_step _ _ _ ret s1).
    2:{ rewrite (bind_step (lift (access (Some id))) _ _ id (without_frame q m) eq_refl). exact E1. }
    rewrite (proj2 (Z.eqb_neq ret 0) Hret). cbn [negb]. rewrite (bind_step ClearDisplay _ s1 tt s2); [done|].
    unfold ClearDisplay. rewrite (bind_step get _ s1 s1 s1 eq_refl), K1, Ha, (bind_step _ _ _ _ _ E2).
    by rewrite (proj2 (Z.eqb_neq r 0) Hr). }
  pose proof (kq_reset active_composition_ id s2) as K3. destruct (reset id s2) as [[[] s']| |]; [|done|done].
  intros A. exists s'. split_and!; [done|congruence|]. intros j Hj Hja. by apply (kp_comps _ _ _ (ap_kept _ _ _ A)).
Qed.

(** C40.  A frame that fails can hang the display.  The frame worker takes the last
    frame that waits; it cannot be committed, and the planes of the frame on the
    screen, [a], cannot be disabled either, so that its fences are not signalled.
    When the next framebuffer in turn is the one that [a] was composed into (the
    witness gets there by two frames that fail) and the worker's next frame has to be
    composed, then [a] stays on the screen, and whatever the client queues after that, the
    worker waits for [a] without a time limit whatever wakes it up, the frame worker
    waits for a frame, and the client waits when its queue is full.  The hypotheses:
    those of [legal_actions_never_fault], no fence has the descriptor 0, and
    sync_wait on a fence reports no error. *)
Theorem failed_frames_hang connector crtc w m a k id d ret s1 r s2 next q c :
  (forall l, unordered l ≡ₚ l) -> sizes_ok -> fences_made -> waits_well ->
  reachable (start connector crtc w) m -> squashed_comp m = None -> pre_compositor_ (sys m) = true ->
  active_composition_ (sys m) = Some a -> framebuffers_ (sys m) !! framebuffer_index_ (sys m) = Some k -> fb_user k = Some a ->
  frame_queue_ (sys m) = [(Some id, 0)] -> comps (sys m) !! id = Some d ->
  CommitFrame id false (without_frame [] m) = Done (ret, s1) -> ret <> 0 -> DisablePlanes a s1 = Done (r, s2) -> r <> 0 ->
  composite_queue_ (sys m) = next :: q -> comps (sys m) !! next = Some c -> type_ c = DRM_COMPOSITION_TYPE_FRAME ->
  squash_regions_ c = [] -> UsesSquash (composition_planes_ c) = false -> pre_comp_regions_ c <> [] ->
  exists m1, run_action AFrame m = Done m1 /\ active_composition_ (sys m1) = Some a /\
    forall cs m2, Forall client_ok cs -> run_actions (AQueue <$> cs) m1 = Done m2 ->
      (forall wait_ret did_squash_all, worker_routine wait_ret did_squash_all (sys m2) = Timeout) /\
      run_action AComposite m2 = Timeout /\ run_action AFrame m2 = Timeout /\ run_action AApplySquashed m2 = Timeout /\
      forall e, (2 <= length (composite_queue_ (sys m2)))%nat -> type_ e <> DRM_COMPOSITION_TYPE_EMPTY ->
        (type_ e = DRM_COMPOSITION_TYPE_FRAME -> active_ (sys m2) = true) -> run_action (AQueue e) m2 = Timeout.
Proof.
  intros any_order sizes made well Hr Ho Hgl Ha Hk Hu Hq Hd E1 Hret E2 Hrr Hcq Hnext Ht Hsq Huse Hpre.
  pose proof (reachable_ok any_order sizes _ _ _ _ Hr) as I.
  destruct (failed_frame m a id d ret s1 r s2 [] I Ha Hd Hq E1 Hret E2 Hrr) as (s' & Ea & Ha' & Hsame).
  pose proof (frame_applied m id [] s' Hq Ea) as Ef. exists (MkMachine s' (squashed_comp m)). split_and!; [exact Ef|exact Ha'|].
  pose proof (run_action_ok any_order sizes m AFrame I ltac:(done)) as Hok. rewrite Ef in Hok. destruct Hok as [I' _].
  pose proof (keeps_Done queues_and_buffers _ _ _ _ (kq_ApplyFrame queues_and_buffers (fun _ _ _ => eq_refl) (fun _ _ => eq_refl) _ _) Ea) as [= Kf Kc Ki Kb Kg].
  assert (next <> id /\ next <> a) as [Hni Hna].
  { pose proof (inv_nodup _ _ _ I) as Hnd. unfold places, live, frame_ids in Hnd. rewrite Hcq, Hq, Ha in Hnd. cbn in Hnd.
    apply NoDup_cons_1_1 in Hnd. rewrite !elem_of_app, !elem_of_cons in Hnd. tauto. }
  assert (stuck a s') as Hst.
  { constructor; [by rewrite Kg|done|by rewrite Kf|exists k; by rewrite Kb, Ki|]. exists next, q, c.
    split_and!; [by rewrite Kc| |done..]. rewrite Hsame; [done|done|congruence]. }
  intros cs m2 Hcs E. destruct (stuck_queues a cs any_order sizes _ m2 I' Hcs Hst E) as (I2 & Hst2 & Ho2). cbn in Ho2.
  pose proof (stuck_composite a (sys m2) _ made well I2 Hst2) as Hwait. destruct Hst2 as [_ _ Hf2 _ (n2 & q2 & c2 & Hq2 & _)]. split_and!.
  - intros wr b. unfold worker_routine, HaveQueuedComposites, mbind, C_bind, get. cbn. rewrite Hq2. cbn. by rewrite Hwait.
  - cbn [run_action]. by rewrite Ho2, Ho, Hwait.
  - cbn [run_action]. by rewrite Hf2.
  - cbn [run_action]. by rewrite Ho2, Ho.
  - intros e Hlen Hte Hae. cbn [run_action]. by rewrite full_queue.
Qed.

End Interleavings.

(** ** A display to try it on *)

#[local] Instance demo_sync : SyncLib := {
  sw_sync_timeline_create := 3;
  sw_sync_fence_create _ := 9;
  sw_sync_timeline_inc _ := 0;
  unordered l := l
}.

(** Everything works but what is broken: the properties of one object cannot be set,
    or a request without the flag for a modeset fails, which is how planes are
    disabled.  [commits] counts the requests that were committed. *)
Record demo_world : Type := MkDemo { commits : Z; broken_object : Z; broken_disable : bool }.

Definition demo_commit (flags : Z) (w : demo_world) : Z * demo_world :=
  if broken_disable w && (flags =? 0) then (-5, w)
  else (0, if Z.land flags DRM_MODE_ATOMIC_TEST_ONLY =? 0 then MkDemo (commits w + 1) (broken_object w) (broken_disable w) else w).

#[local] Instance demo_drm : DrmLib := {
  world := demo_world;
  sync_wait _ _ w := (0, w);
  wait_error w := (0, w);
  import_buffer handle w := (0, (Z.abs handle, 100, 100), w);
  gl_init w := (0, w);
  gl_composite _ _ _ w := (0, w);
  drmModeAtomicAlloc w := (true, w);
  drmModeAtomicAddProperty object _ _ w := (if object =? broken_object w then -1 else 0, w);
  drmModeAtomicCommit _ flags w := demo_commit flags w;
  drmModeConnectorSetProperty _ _ _ w := (0, w);
  create_blob _ w := (0, 7, w);
  destroy_blob _ w := (0, w);
  property_id _ _ := 1;
  crtc_object _ := 30;
  mode_size _ := (100, 100)
}.

Lemma demo_order (l : list nat) : unordered l ≡ₚ l.
Proof. done. Qed.

Lemma demo_inc : increments_work.
Proof. done. Qed.

Lemma demo_fence : fences_made.
Proof. done. Qed.

Lemma demo_wait : waits_well.
Proof. intros w. by exists w. Qed.

Lemma demo_sizes : sizes_ok.
Proof. split; [done|]. by intros handle w fb_id wd ht w' [= <- <- <- <-]. Qed.

Definition demo_crtc : DrmCrtc := MkCrtc 0 0.
Definition demo_planes : list DrmPlane := [MkPlane 1 DRM_PLANE_TYPE_PRIMARY 1; MkPlane 2 DRM_PLANE_TYPE_OVERLAY 1].

Definition demo_layer (handle : Z) : DrmHwcLayer := framebuffer_layer handle 100 100 (Some handle).

Definition demo_comp (type : DrmCompositionType) (m timeline : Z) (layers : list DrmHwcLayer) (regions : list DrmCompositionRegion)
    (planes : list DrmCompositionPlane) : DrmDisplayComposition :=
  MkComp type demo_crtc 5 DRM_MODE_DPMS_ON m timeline 0 0 0 false layers [] regions planes ∅.

(** A frame of two layers with a plane each, and one of a layer that is composed,
    where the other plane is not used or is disabled. *)
Definition demo_frame (a b : Z) : DrmDisplayComposition :=
  demo_comp DRM_COMPOSITION_TYPE_FRAME 0 2 [demo_layer a; demo_layer b] []
    (imap (fun i p => MkComposition kLayer (Some p) demo_crtc [i]) demo_planes).

Definition demo_composed (a : Z) (disabled : list DrmPlane) : DrmDisplayComposition :=
  demo_comp DRM_COMPOSITION_TYPE_FRAME 0 1 [demo_layer a] [MkCompRegion (MkRect 0 0 100 100) [0%nat]]
    (MkComposition kPrecomp (head demo_planes) demo_crtc [0%nat] :: (disabled_plane demo_crtc <$> disabled)).

Definition demo_dpms : DrmDisplayComposition := demo_comp DRM_COMPOSITION_TYPE_DPMS 0 0 [] [] [].

Definition demo_modeset (m : Z) : DrmDisplayComposition := demo_comp DRM_COMPOSITION_TYPE_MODESET m 0 [] [] [].

Lemma demo_comp_ok type m timeline layers regions planes : 0 <= timeline <= max_timeline ->
  Forall layer_ok layers -> Forall (queued_plane (length layers)) planes -> client_ok (demo_comp type m timeline layers regions planes).
Proof. intros Ht Hl Hp. split; constructor; cbn; (done || lia). Qed.

Lemma demo_layer_ok h : layer_ok (demo_layer h).
Proof. by apply framebuffer_layer_ok. Qed.

Lemma demo_frame_ok a b : client_ok (demo_frame a b).
Proof.
  apply demo_comp_ok; [unfold max_timeline; lia|by repeat constructor; apply demo_layer_ok|].
  repeat constructor; cbn; try (by eexists); eexists; (split; [done|lia]).
Qed.

Lemma demo_composed_ok a l : client_ok (demo_composed a l).
Proof.
  apply demo_comp_ok; [unfold max_timeline; lia|by repeat constructor; apply demo_layer_ok|].
  constructor; [by repeat constructor; eexists|]. apply Forall_fmap, Forall_true. intros p. by repeat constructor; eexists.
Qed.

Lemma demo_dpms_ok : client_ok demo_dpms.
Proof. apply demo_comp_ok; [unfold max_timeline; lia|constructor..]. Qed.

Lemma demo_modeset_ok m : client_ok (demo_modeset m).
Proof. apply demo_comp_ok; [unfold max_timeline; lia|constructor..]. Qed.

Lemma run_reach m0 l : forall m m', reachable m0 m -> Forall legal l -> run_actions l m = Done m' -> reachable m0 m'.
Proof.
  induction l as [|a l IH]; intros m m' Hr Hall E; cbn in E; [by injection E as <-|]. apply Forall_cons_1 in Hall as [Ha Hall].
  destruct (run_action a m) as [m1| |] eqn:E1; [|done|done]. eapply IH; [|exact Hall|exact E]. by eapply reach_next.
Qed.

(** A schedule that ends where something can be seen. *)
Definition seen {A} (o : outcome A) (check : A -> bool) : bool := match o with Done a => check a | _ => false end.

Lemma seen_Done {A} (o : outcome A) check : seen o check = true -> exists a, o = Done a /\ check a = true.
Proof. destruct o as [a| |]; [by exists a|done|done]. Qed.

Lemma run_reaches (check : machine -> bool) m0 l : Forall legal l ->
  seen (run_actions l m0) check = true -> exists m, reachable m0 m /\ check m = true.
Proof.
  intros Hl (m & E & Hc)%seen_Done. exists m. split; [|done]. by eapply run_reach; [apply reach_start| |].
Qed.

Ltac client_schedule := repeat (apply Forall_cons_2; [first [exact Logic.I|cbn; auto using demo_frame_ok, demo_composed_ok, demo_dpms_ok, demo_modeset_ok]|]); apply Forall_nil_2.

Definition demo_start (object : Z) (disable : bool) : machine :=
  start (Some (MkConnector 8 0)) (Some demo_crtc) (MkDemo 0 object disable).

(** The handles of the frame on the screen. *)
Definition shown_handles (m : machine) : list Z :=
  match active_composition_ (sys m) with
  | Some id => match comps (sys m) !! id with Some c => sf_handle <$> layers_ c | None => [] end
  | None => []
  end.

(** Two composed frames shown, a third that waits for its commit. *)
Lemma demo_three_frames : exists m, reachable (demo_start (-1) false) m /\ length (renders (sys m)) = 3%nat /\
  length (frame_queue_ (sys m)) = 1%nat /\ active_composition_ (sys m) <> None.
Proof.
  set (check m := bool_decide ((length (renders (sys m)), length (frame_queue_ (sys m))) = (3, 1)%nat) &&
                  match active_composition_ (sys m) with Some _ => true | None => false end).
  destruct (run_reaches check (demo_start (-1) false)
    [AQueue demo_dpms; AComposite; AQueue (demo_composed 1 []); AComposite; AFrame; AQueue (demo_composed 2 []); AComposite; AFrame;
     AQueue (demo_composed 3 []); AComposite]) as (m & Hr & Hm); [client_schedule|vm_compute; reflexivity|].
  exists m. apply andb_true_iff in Hm as [Hm%bool_decide_eq_true Ha]. injection Hm as Hl Hf.
  split_and!; [done..|]. intros E. by rewrite E in Ha.
Qed.


Lemma framebuffers_kept_witness : exists m, reachable (demo_start (-1) false) m /\ length (renders (sys m)) = 3%nat /\
  forall used, used ∈ renders (sys m) -> used = false.
Proof.
  destruct demo_three_frames as (m & Hr & Hl & _). exists m. split_and!; [exact Hr|exact Hl|].
  exact (proj1 (framebuffers_kept _ _ _ _ demo_order demo_sizes demo_fence Hr)).
Defined.

Lemma frames_drain_witness : exists m m', reachable (demo_start (-1) false) m /\ length (frame_queue_ (sys m)) = 1%nat /\
  run_actions (replicate (length (frame_queue_ (sys m))) AFrame) m = Done m' /\ frame_queue_ (sys m') = [].
Proof.
  destruct demo_three_frames as (m & Hr & _ & Hl & _). exists m.
  destruct (proj2 (frames_drain _ _ _ _ demo_order demo_sizes Hr)) as (m' & E & Hf & _). by exists m'.
Defined.

(** Frame 1 2 is on the screen when SquashAll begins, and frame 3 4 when it ends. *)
Lemma squashed_frame_is_stale_witness : exists m2 m3, shown_handles m2 = [3; 4] /\
  run_action AApplySquashed m2 = Done m3 /\ take 2 (shown_handles m3) = [1; 2].
Proof.
  assert (seen (run_actions [AQueue demo_dpms; AComposite; AQueue (demo_frame 1 2); AComposite; AFrame; AQueue (demo_frame 3 4); AComposite]
      (demo_start (-1) false)) (fun m => match active_composition_ (sys m) with None => false | Some src =>
    match comps (sys m) !! src with None => false | Some c =>
    bool_decide (buffers_at (layers_ c) (shown_sources (composition_planes_ c)) = [1; 2]) && seen (run_action ASquash m) (fun m1 =>
    match squashed_comp m1 with None => false | Some id => seen (run_actions [AFrame] m1) (fun m2 =>
    bool_decide (shown_handles m2 = [3; 4]) && seen (CommitFrame id false (sys m2)) (fun r => bool_decide (fst r = 0))) end) end end) = true) as Hrun
    by (vm_compute; reflexivity).
  apply seen_Done in Hrun as (m & E0 & H1). destruct (active_composition_ (sys m)) as [src|] eqn:Ha; [|discriminate H1].
  destruct (comps (sys m) !! src) as [c|] eqn:Hc; [|discriminate H1]. apply andb_true_iff in H1 as [Hb%bool_decide_eq_true (m1 & E1 & H2)%seen_Done].
  destruct (squashed_comp m1) as [id|] eqn:Ho; [|discriminate H2]. apply seen_Done in H2 as (m2 & E2 & H3).
  apply andb_true_iff in H3 as [Hs%bool_decide_eq_true ([r s3] & E3 & H4)%seen_Done]. apply bool_decide_eq_true in H4. cbn in H4. subst r.
  assert (reachable (demo_start (-1) false) m) as Hr by (eapply run_reach; [apply reach_start| |exact E0]; client_schedule).
  destruct (squashed_frame_is_stale _ _ _ m src c m1 id [AFrame] m2 s3 demo_order demo_sizes Hr Ha Hc E1 Ho) as (m3 & E & Ha3 & Hsq & _);
    [client_schedule|by intros [|?%elem_of_nil]%elem_of_cons|exact E2|exact E3|].
  exists m2, m3. split_and!; [exact Hs|exact E|]. destruct Hsq as (d & fb & l & plane & Hd & Hh & _). rewrite Hb in Hh.
  unfold shown_handles. by rewrite Ha3, Hd, Hh.
Defined.

(** A modeset to mode 60 is pending, and the second plane cannot be set. *)
Lemma failed_request_ends_modeset_witness : exists m m', reachable (demo_start 2 false) m /\ run_action AFrame m = Done m' /\
  needs_modeset (mode_ (sys m')) = false /\ connector_ (sys m') = Some (MkConnector 8 60).
Proof.
  assert (seen (run_actions [AQueue demo_dpms; AComposite; AQueue (demo_modeset 60); AComposite; AQueue (demo_frame 1 2); AComposite]
      (demo_start 2 false)) (fun m => match frame_queue_ (sys m) with [(Some id, 0)] =>
    match comps (sys m) !! id, connector_ (sys m) with Some c, Some conn =>
    needs_modeset (mode_ (sys m)) && bool_decide (display_crtc_ (sys m) = Some demo_crtc) && bool_decide ((connector_id conn, mode (mode_ (sys m))) = (8, 60)) &&
    seen (ask drmModeAtomicAlloc (without_frame [] m)) (fun '(ok, sa) => bool_decide (ok = true) &&
    seen (commit_mode conn demo_crtc [] sa) (fun '((early, pset), s1) => match early with Some _ => false | None =>
    seen (commit_planes id false (composition_planes_ c) pset s1) (fun '((ret, _), s2) => bool_decide (ret <> 0) &&
    seen (DestroyPropertyBlob (old_blob_id (mode_ (sys m))) s2) (fun '(r3, s3) => bool_decide (r3 = 0) &&
    seen (ApplyDpms id s3) (fun '(r4, _) => bool_decide (r4 = 0)))) end)) | _, _ => false end | _ => false end) = true) as Hrun
    by (vm_compute; reflexivity).
  apply seen_Done in Hrun as (m & E0 & H). destruct (frame_queue_ (sys m)) as [|[[id|] [| |]] [|]] eqn:Hq; try discriminate H.
  destruct (comps (sys m) !! id) as [c|] eqn:Hc; [|discriminate H]. destruct (connector_ (sys m)) as [conn|] eqn:Hconn; [|discriminate H].
  apply andb_true_iff in H as [[[Hn Hcrt%bool_decide_eq_true]%andb_true_iff Hid%bool_decide_eq_true]%andb_true_iff ([ok sa] & Ea & H)%seen_Done].
  apply andb_true_iff in H as [->%bool_decide_eq_true ([[early pset] s1] & Em & H)%seen_Done]. destruct early; [discriminate H|].
  apply seen_Done in H as ([[ret pset'] s2] & Ep & H). apply andb_true_iff in H as [Hret%bool_decide_eq_true ([r3 s3] & Ed & H)%seen_Done].
  apply andb_true_iff in H as [->%bool_decide_eq_true ([r4 s4] & Edp & ->%bool_decide_eq_true)%seen_Done].
  assert (reachable (demo_start 2 false) m) as Hr by (eapply run_reach; [apply reach_start| |exact E0]; client_schedule).
  destruct (failed_request_ends_modeset _ _ _ m id [] c conn demo_crtc sa pset s1 ret pset' s2 s3 s4 demo_order demo_sizes Hr Hq Hc Hconn Hcrt Hn
    Ea Em Ep Hret Ed Edp) as (_ & m' & E & _ & Hm & Hc'). exists m, m'. injection Hid as Hi Hmode. rewrite Hi, Hmode in Hc'.
  split_and!; [exact Hr|exact E|by rewrite Hm|exact Hc'].
Defined.

(** Frame 1 is on the screen, frame 2 has failed, frame 3 fails, frame 4 is to be composed. *)
Lemma failed_frames_hang_witness : exists m m1, reachable (demo_start 2 true) m /\ run_action AFrame m = Done m1 /\
  forall wait_ret did_squash_all, worker_routine wait_ret did_squash_all (sys m1) = Timeout.
Proof.
  assert (seen (run_actions [AQueue demo_dpms; AComposite; AQueue (demo_composed 1 []); AComposite; AFrame;
      AQueue (demo_composed 2 (tail demo_planes)); AComposite; AFrame; AQueue (demo_composed 3 (tail demo_planes)); AComposite;
      AQueue (demo_composed 4 [])] (demo_start 2 true)) (fun m => match active_composition_ (sys m), frame_queue_ (sys m), composite_queue_ (sys m) with
    | Some a, [(Some id, 0)], next :: q =>
        match framebuffers_ (sys m) !! framebuffer_index_ (sys m), comps (sys m) !! id, comps (sys m) !! next with
        | Some k, Some d, Some c =>
            bool_decide (squashed_comp m = None) && pre_compositor_ (sys m) && bool_decide (fb_user k = Some a) &&
            bool_decide (type_ c = DRM_COMPOSITION_TYPE_FRAME) && match squash_regions_ c, pre_comp_regions_ c with [], _ :: _ => true | _, _ => false end &&
            negb (UsesSquash (composition_planes_ c)) && seen (CommitFrame id false (without_frame [] m)) (fun '(ret, s1) => bool_decide (ret <> 0) &&
            seen (DisablePlanes a s1) (fun '(r, _) => bool_decide (r <> 0)))
        | _, _, _ => false end
    | _, _, _ => false end) = true) as Hrun by (vm_compute; reflexivity).
  apply seen_Done in Hrun as (m & E0 & H). destruct (active_composition_ (sys m)) as [a|] eqn:Ha; [|discriminate H].
  destruct (frame_queue_ (sys m)) as [|[[id|] [| |]] [|]] eqn:Hq; try discriminate H. destruct (composite_queue_ (sys m)) as [|next q] eqn:Hcq; [discriminate H|].
  destruct (framebuffers_ (sys m) !! _) as [k|] eqn:Hk; [|discriminate H]. destruct (comps (sys m) !! id) as [d|] eqn:Hd; [|discriminate H].
  destruct (comps (sys m) !! next) as [c|] eqn:Hc; [|discriminate H]. rewrite !andb_true_iff in H.
  destruct H as [[[[[[Ho%bool_decide_eq_true Hgl] Hu%bool_decide_eq_true] Ht%bool_decide_eq_true] Hreg] Huse%negb_true_iff] ([ret s1] & E1 & H)%seen_Done].
  apply andb_true_iff in H as [Hret%bool_decide_eq_true ([r s2] & E2 & Hr2%bool_decide_eq_true)%seen_Done].
  destruct (squash_regions_ c) eqn:Hsq; [|discriminate Hreg]. assert (pre_comp_regions_ c <> []) as Hpre by (by destruct (pre_comp_regions_ c)).
  assert (reachable (demo_start 2 true) m) as Hr by (eapply run_reach; [apply reach_start| |exact E0]; client_schedule).
  destruct (failed_frames_hang _ _ _ m a k id d ret s1 r s2 next q c demo_order demo_sizes demo_fence demo_wait Hr Ho Hgl Ha Hk Hu Hq Hd
    E1 Hret E2 Hr2 Hcq Hc Ht Hsq Huse Hpre) as (m1 & Ef & _ & Hhang).
  exists m, m1. split_and!; [exact Hr|exact Ef|]. exact (proj1 (Hhang [] m1 (Forall_nil_2 _) eq_refl)).
Defined.
